(* ===== verification/_CoqProject ===== *)
-Q . S2P
Prelude.v
Crypto.v
ScriptNum.v
Script.v
Serialize.v
Transaction.v
Merkle.v
CheckQueue.v
Uint256.v
BlockData.v
Canonical.v
LevelDB.v
Keys.v
SigCheck.v
Interpreter.v
EvalSafety.v
EvalProps.v
StdScripts.v
Solver.v
SolverProps.v
Inputs.v
Difficulty.v
BlockFile.v
ChainIndex.v
Checkpoints.v
Kernel.v
KernelProps.v
InputsProps.v
Block.v
BlockProps.v
BlockConnect.v
BlockSpec.v
Mempool.v
BestChain.v
BestChainLinks.v
BestChainProps.v
BestChainMain.v
BlockIndexProps.v
ProcessBlock.v
ProcessBlockProps.v
OrphanBlocks.v
MempoolProps.v
Keystore.v
KeystoreProps.v
Limbs.v
Scalar.v
ScalarProps.v
ScalarMul.v
ScalarBits.v
Wnaf.v
SigParse.v
Primes.v
Field.v
FieldMul.v
FieldOps.v
FieldProps.v
FieldNorm.v
FieldInv.v
FieldBytes.v
ScalarSpec.v
FieldSpec.v
Curve.v
Secp.v
Generator.v
Group.v
GroupProps.v
Points.v
Ecmult.v
EcmultTables.v
EcmultProps.v
Ecdsa.v
EcdsaProps.v
PubkeyProps.v
VerifyProps.v
RecoverProps.v
KeyBytes.v
CurveSpec.v
