(* ===== verification/Prelude.v ===== *)
(** * A verification library for SorachanCoin

    SorachanCoin-qt is a proof-of-stake node and wallet of the Bitcoin/Peercoin family. The library models
    the path of transactions and blocks through the node - their bytes, scripts and signatures, the
    outputs they spend, proof of work and proof of stake, the memory pool, the block index, the best chain
    and the database - and the key store that signs, and proves what these parts promise. Paths are
    relative to src/src of the repository.

    ** The parts and where they are modelled

    Every file but this one holds one Module of the same name (Transaction holds [Tx] and
    [block_params]; Keys holds [CPubKey], [CKey], [SigEncoding] and [Script_param]; Script holds [CScript]
    and the constants; ChainIndex also holds [Locator]). Files named after another with the suffix Props,
    Connect, Spec, Links or Main contain proofs about it.

    Bytes and data:
    - Prelude (this file): machine widths ([u32], [s64], ...), bytes, little-endian numbers, a few lemmas
      on lists and bits, the tactics and hints used throughout.
    - Crypto: crypto/sha256.cpp, sha1.cpp, ripemd160.cpp, hash.h. One buffered hasher (a record for the
      state, the buffer and the byte count) over three compression functions.
    - Serialize: serialize.h. A [codec] is a writer with a reader in an error monad; the class [Lawful]
      states that reading inverts writing, and its instances compose. Canonical: the class [Sound],
      that what is read is well typed and is the only encoding of its value.
    - Uint256: the words, operators and hexadecimal form of base_uint (uint256.h).
    - Transaction: block/transaction.h and the context-free part of block/transaction.cpp. The records
      follow the classes; [None] stands for a failed assertion.
    - BlockData: block/block.h: headers, blocks, entries of the block index, their bytes.
    - Merkle: merkle/merkle_tree.h, .cpp, with the cached tree as state.

    Scripts and signatures:
    - ScriptNum: script/scriptnum.h. A [CScriptNum] is an int64.
    - Script: script/script.h and the scans of script/script.cpp. A script is its bytes; an iterator is
      the suffix that starts at it. [GetScriptOp] reads one instruction; the [push_...] functions are the
      [<<] operators.
    - Keys: the byte side of key/pubkey.h, CompareBigEndian and CheckSignatureElement of key.cpp, and the
      encoding rules of script/script.cpp.
    - SigCheck: SignatureHash, the signature cache and CheckSig of script/script.cpp. The class
      [SigChecker] is what the interpreter needs of them; it is implemented by the cached checker of the
      code and by a pure one. ECDSA verification is a parameter.
    - Interpreter: EvalScript and VerifyScript of script/script.cpp, one definition per opcode or family
      of opcodes, in a monad whose computations return, fail (also by an exception, which EvalScript
      catches) or get stuck (an assertion or an undefined access). EvalSafety, EvalProps and StdScripts
      hold the proofs about it.
    - Solver: the templates, destinations, ownership and signing of script/script.cpp, over the class
      [KeyStore] (keystore.h). Keystore implements that class: CBasicKeyStore and CCryptoKeyStore in one
      record.
    - Limbs, Scalar, Wnaf: the 8x32 scalars of key/pubkey.cpp ([secp256k1_scalar_...]), the splits of a
      multiplier and its wNAF. Field, FieldOps: the 10x26 field ([secp256k1_fe_...]). key/pubkey.h defines
      VERIFY, so their asserts are live: a failed one is [None]. ScalarProps, ScalarMul, ScalarBits,
      FieldMul, FieldProps, FieldNorm, FieldInv, FieldBytes hold the proofs, ScalarSpec and FieldSpec what
      they amount to; Primes proves p and n prime.
    - Curve: the group of y^2 = x^3 + b over any field in which 2 is not 0 and no point has order two, with
      Jacobian coordinates; Secp and Generator: secp256k1, its generator G, the endomorphism; Points: every
      point is a multiple of G, so the group has the order n. These are the mathematics the code is
      measured against.
    - Group: points of key/pubkey.cpp ([secp256k1_ge_...], [secp256k1_gej_...]); GroupProps: they compute in
      that group. Ecmult: the tables of odd multiples and secp256k1_ecmult; EcmultTables, EcmultProps.
    - Ecdsa: verification, recovery, tweaks, public keys as bytes and the methods of CPubKey above them.
      EcdsaProps, PubkeyProps, VerifyProps, RecoverProps and KeyBytes hold the proofs, CurveSpec what they
      amount to.
    - SigParse: signatures of key/pubkey.cpp: compact and lenient DER forms, normalisation, CheckLowS.
    - CheckQueue: checkqueue.h as a transition system of threads, a mutex and condition variables.

    Transactions in context:
    - LevelDB: db.h, db.cpp, txdb-leveldb.cpp. The classes [TxDB] and [TxDBLaws] are the interface of the
      transaction index that Inputs and Mempool use; the wrapper [CLevelDB] with its write batch implements
      it over a finite map, which stands for the vendored LevelDB library.
    - Inputs: block/transaction.cpp from FetchInputs to DisconnectInputs, the standardness tests, coin age
      and coinstake reward. Results are a sum: a value, a rejection with its denial-of-service score, an
      exception, an assertion.
    - Mempool: CTxMemPool of block/transaction.h and block/transaction.cpp.

    Blocks and the chain:
    - Difficulty: miner/diff.cpp and the compact form of CBigNum, over the class [MPI] (the OpenSSL
      conversions) with its laws [MPILaws].
    - ChainIndex: the block index as a tree of entries that point to each other by hash, and locators.
    - Kernel: kernel.cpp, kernel_worker.cpp: stake modifiers, kernels, and the scans for them.
    - Block: CheckBlock, ConnectBlock, DisconnectBlock of block/block.cpp, in a state monad, over the
      class [BlockDB]. BlockConnect and BlockSpec relate them to the connection of one transaction.
    - BlockFile: the files that hold the blocks (file_operate/file_open.h, block/block.cpp).
    - BestChain: GetBlockTrust, SetBestChain, AddToBlockIndex of block/block.cpp and Reorganize of
      block/block_check.cpp, over the class [ChainDB]. BestChainLinks is about the links of the index alone;
      BestChainProps holds what a failure leaves, BestChainMain what a success establishes,
      BlockIndexProps what a new entry changes. The laws [ChainDBLaws] are discharged for [CLevelDB].
    - Checkpoints: the tables and tests of checkpoints.cpp and prime/autocheckpoint.cpp.
    - ProcessBlock: AcceptBlock of block/block.cpp, ProcessBlock of block/block_process.cpp with the orphan
      blocks, and the moves of the synchronized checkpoint (checkpoints.cpp). ProcessBlockProps and
      OrphanBlocks hold the proofs.

    Data flow: [accept] (Mempool) runs [CheckTransaction] (Transaction), [IsStandard], [FetchInputs] and
    [ConnectInputs] (Inputs); these read the index through [TxDB] and call [VerifyScript] (Interpreter) for
    each input, which asks a [SigChecker] (SigCheck) about signatures; that hashes a transaction it has
    serialized (Serialize, Crypto). [AddToBlockIndex] (BestChain) places a block with its trust and stake
    modifier (Kernel) and calls [SetBestChain], which connects and disconnects blocks (Block) read from
    the files (BlockFile) and moves transactions between them and the memory pool. [SignSignature]
    (Solver) fetches keys through [KeyStore] and checks its result with [VerifyScript].

    ** What the theorems show

    - Blocks: no output is spent twice, money is created only as the reward allows, every script of a
      connected block was verified, both against the outputs that the index at that transaction points to
      ([block_indexes]), and disconnecting restores the index ([ConnectBlock_no_double_spend],
      [ConnectBlock_supply], [ConnectBlock_scripts], [ConnectBlock_DisconnectBlock]); what CheckBlock
      accepts ([CheckBlock_spec]).
    - The best chain: after a success links, database and best block agree on one chain
      ([SetBestChain_main_chain]); a failure leaves chain and store as they were but for the record of the
      highest refused trust ([SetBestChain_failure]); adding blocks keeps
      the index consistent ([AddToBlockIndex_consistent]); an accepted block meets every rule, the chain
      stays on the synchronized checkpoint, and the orphan blocks are kept in order and their loops end
      ([AcceptBlock_sound], [ProcessBlock_anchored], [ProcessBlock_orphans], [orphan_loops_end]);
      locators find forks ([locator_finds_fork]); blocks are read back from disk ([block_file_roundtrip]).
    - Proof of stake and work: the scan and the check of a kernel agree, modifiers are drawn as described,
      difficulty moves within its bounds ([scan_agrees_with_check], [next_modifier_drawn],
      [next_target_spec]).
    - Spending: an accepted transaction spends outputs that exist, are mature and unspent, each once, and
      creates no value beyond a coinstake's reward ([ConnectInputs_value], [ConnectInputs_spends]);
      deferring the script checks changes nothing ([ConnectInputs_deferred]).
    - The pool never holds two transactions that spend the same output ([mempool_invariant]) and admits
      only what its policy says ([accept_policy]).
    - Evaluation terminates without assertion failures and within its limits on every script
      ([EvalScript_total], [VerifyScript_total], [EvalScript_limits]); the usual output types accept what
      they are meant to ([P2PKH_spec], [P2SH_spec], [CHECKMULTISIG_spec], [CLTV_locks]).
    - The script check queue gives the conjunction of the checks and answers ([checkqueue_result],
      [checkqueue_liveness]).
    - Keys: field and scalars compute exactly modulo the primes p and n with no assert failing
      ([field_products], [field_normal_form], [field_inverse_and_root], [field_bytes_roundtrip],
      [scalar_field]), multipliers are recoded without loss ([scalar_recoding]), and the lenient DER
      parser is total and agrees with strict DER ([der_lax_total]).
    - The curve: the operations on points are the group law, complete for equal, opposite and infinite
      operands ([group_operations]); the double multiplication computes na P + ng G ([ecmult_correct]).
      Keys are read and written without loss ([public_key_bytes]); verification decides the ECDSA equation
      on all inputs ([Verify_BIP66_decides_ecdsa]); recovery finds the signer and no one else
      ([RecoverCompact_finds_signer]). No theorem supposes that a key is a multiple of G: that is proved
      ([all_multiples]).
    - Signatures: what a signature hash commits to ([SignatureHash_commitment]); the cache is transparent
      ([cached_refines_pure]); strict DER and the range of its integers ([IsDERSignature_spec],
      [CheckSignatureElement_spec]).
    - Standard scripts: what is recognised is characterised exactly ([Solver_spec]), recognition inverts
      construction ([destination_roundtrip], [multisig_roundtrip]), and signing succeeds ([SignSignature_p2pkh]).
    - Encodings: transactions in both formats (in the one the node uses, without their witnesses,
      [transaction_roundtrip]), blocks, compact sizes, script numbers, scripts; hashing in
      pieces; the 256-bit operators compute modulo 2^256 ([base_uint_refines]).
    - Checks and fees: [CheckTransaction_spec], [GetMinFee_exact], [IsNewerThan_spec].
    - The index database: transactions are atomic and read their own writes ([transaction_atomic]), with
      one exception ([exists_in_batch]).
    - The key store: its invariant, locking and encryption ([keystore_invariant],
      [encrypt_unlock_roundtrip]).
    - Deviations found while modelling have theorems too: [unknown_version_aborts], [exists_in_batch],
      [DecryptKeys_hides_keys], [quit_can_hang], [shutdown_can_hang], [scan_forward_aborts].

    A theorem with hypotheses is followed by a lemma of the same name with the suffix _witness, which
    applies it to concrete data.

    ** Bounds and fuel

    Integers are [Z] with their wrap-around written out where the code computes at a fixed width. Loops
    that consume a stream take its length as fuel: each turn reads a byte or more, so the fuel never
    runs out, and [EvalScript_total] proves that for the interpreter. The multisig loop takes the number
    of keys, and the hashers' chunk loop the length of the data. A walk along the predecessors of an
    entry takes its height as fuel, enough in a well-formed index ([walk_heights]); the search for a block
    file takes one more turn than there are files ([AppendBlockFile_ends], [free_file]); the work queue of
    ProcessBlock takes one turn more than there are orphans, and its fuel-free runs, an inductive relation,
    end with the result of the model ([orphan_loops_end]); trial division
    takes the number itself. Lengths are unbounded lists; where the code keeps them in 32 bits the theorem
    asks for a bound. Values stand for objects, so the assert of the field product that its result is not
    its second operand in memory has no counterpart; no call breaks it.

    ** Parameters

    In the scripts and the key store the elliptic curve (key derivation, signing, verifying); AES, the
    OpenSSL big-number conversions, OpenSSL's hash functions called by the hash opcodes, the scrypt hash of block headers ([BlockHash]), clocks,
    random numbers and settings are arguments of the definitions that use them. A hypothesis on them says
    what the documentation of that code says (a signature made with a key verifies under its public key,
    decryption inverts encryption).

    ** Not modelled, and the plan

    Not reached: base58 and bech32, the remaining hashers and scrypt, the orphan transactions, the address
    manager, signing in key/privkey.cpp. Left out: sockets and threads of the network layer, RPC, the user
    interface, wallet accounting and vendored libraries, which are I/O or glue. Concurrency appears in
    CheckQueue; elsewhere a lock makes an operation one step of a state machine. *)
From stdpp Require Export prelude gmap.
From Stdlib Require Export ZArith Lia Zbitwise.
#[export] Set Default Goal Selector "!".
Open Scope Z_scope.

(** ** Machine widths *)

(** [u32 x], [u64 x]: conversion of [x] to an unsigned 32/64-bit integer. *)
Definition u8 (x : Z) : Z := x mod 2 ^ 8.
Definition u16 (x : Z) : Z := x mod 2 ^ 16.
Definition u32 (x : Z) : Z := x mod 2 ^ 32.
Definition u64 (x : Z) : Z := x mod 2 ^ 64.

(** [s32 x], [s64 x]: conversion to a two's complement 32/64-bit integer. *)
Definition s32 (x : Z) : Z := (x + 2 ^ 31) mod 2 ^ 32 - 2 ^ 31.
Definition s64 (x : Z) : Z := (x + 2 ^ 63) mod 2 ^ 64 - 2 ^ 63.

Definition INT32_MAX : Z := 2 ^ 31 - 1.
Definition INT32_MIN : Z := - 2 ^ 31.
Definition INT64_MAX : Z := 2 ^ 63 - 1.
Definition INT64_MIN : Z := - 2 ^ 63.
Definition UINT32_MAX : Z := 2 ^ 32 - 1.

(** ** Bytes *)

Definition is_byte (b : Z) : Prop := 0 <= b < 256.
Abbreviation bytes := (list Z).
Definition bytes_ok (l : bytes) : Prop := Forall is_byte l.
Definition zlen {A} (l : list A) : Z := Z.of_nat (length l).

#[global] Instance is_byte_dec b : Decision (is_byte b).
Proof. unfold is_byte. apply _. Defined.

(** The [n] low bytes of [x], least significant first, and their value. *)
Fixpoint le_bytes (n : nat) (x : Z) : bytes :=
  match n with
  | O => []
  | S n => (x mod 256) :: le_bytes n (x / 256)
  end.

Fixpoint le_value (l : bytes) : Z :=
  match l with
  | [] => 0
  | b :: l => b + 256 * le_value l
  end.

Lemma length_le_bytes n x : length (le_bytes n x) = n.
Proof. revert x; induction n as [|n IH]; intros x; simpl; [done|]. by rewrite IH. Qed.

Lemma le_bytes_ok n x : bytes_ok (le_bytes n x).
Proof.
  revert x; induction n as [|n IH]; intros x; simpl; [constructor|].
  constructor; [|apply IH]. unfold is_byte. apply Z.mod_pos_bound. lia.
Qed.

Lemma le_value_bound l : bytes_ok l -> 0 <= le_value l < 256 ^ zlen l.
Proof.
  unfold zlen. induction 1 as [|b l Hb Hl IH]; [done|].
  unfold is_byte in Hb. cbn [le_value length].
  rewrite Nat2Z.inj_succ, Z.pow_succ_r by lia. lia.
Qed.

Lemma le_value_le_bytes n x : 0 <= x < 256 ^ Z.of_nat n -> le_value (le_bytes n x) = x.
Proof.
  revert x; induction n as [|n IH]; intros x Hx; cbn [le_bytes le_value].
  - simpl in Hx. lia.
  - rewrite Nat2Z.inj_succ, Z.pow_succ_r in Hx by lia.
    rewrite IH; [pose proof (Z.div_mod x 256); lia|].
    split; [apply Z.div_pos; lia|apply Z.div_lt_upper_bound; lia].
Qed.

Lemma le_bytes_le_value l : bytes_ok l -> le_bytes (length l) (le_value l) = l.
Proof.
  induction 1 as [|b l Hb Hl IH]; [done|]. unfold is_byte in Hb.
  cbn [le_value length le_bytes].
  rewrite (Z.mul_comm 256), Z_mod_plus_full, Z.mod_small by lia.
  rewrite Z.div_add, Z.div_small, Z.add_0_l by lia. by rewrite IH.
Qed.

Lemma le_value_app l1 l2 : le_value (l1 ++ l2) = le_value l1 + 256 ^ zlen l1 * le_value l2.
Proof.
  unfold zlen. induction l1 as [|b l1 IH]; [simpl; lia|].
  cbn [app le_value length]. rewrite IH, Nat2Z.inj_succ, Z.pow_succ_r by lia. lia.
Qed.

(** ** Bit operations as arithmetic *)

Lemma testbit_high x k n : 0 <= x < 2 ^ k -> 0 <= k <= n -> Z.testbit x n = false.
Proof.
  intros Hx Hk. rewrite <-(Z.mod_small x (2 ^ k)) by done. by apply Z.mod_pow2_bits_high.
Qed.

Lemma lor_add a b : Z.land a b = 0 -> Z.lor a b = a + b.
Proof. intros H. rewrite <-(Z.add_lor_land a b), H. lia. Qed.

Lemma land_shiftl_disjoint a b k : 0 <= k -> 0 <= a < 2 ^ k -> Z.land a (Z.shiftl b k) = 0.
Proof.
  intros Hk Ha. apply Z.bits_inj'; intros n Hn.
  rewrite Z.land_spec, Z.shiftl_spec, Z.bits_0 by done.
  destruct (decide (k <= n)).
  - by rewrite (testbit_high a k n) by lia.
  - rewrite (Z.testbit_neg_r b) by lia. apply andb_false_r.
Qed.

Lemma lor_shiftl_add a b k : 0 <= k -> 0 <= a < 2 ^ k -> Z.lor a (Z.shiftl b k) = a + b * 2 ^ k.
Proof.
  intros Hk Ha. rewrite lor_add by by apply land_shiftl_disjoint.
  by rewrite Z.shiftl_mul_pow2.
Qed.

Lemma land_ones_mod a k : 0 <= k -> Z.land a (2 ^ k - 1) = a mod 2 ^ k.
Proof. intros Hk. by rewrite <-Z.land_ones, Z.ones_equiv, <-Z.sub_1_r by done. Qed.

Lemma bits_bound x k :
  0 <= k -> 0 <= x -> (forall n, k <= n -> Z.testbit x n = false) -> x < 2 ^ k.
Proof.
  intros Hk Hx H. assert (x = x mod 2 ^ k) as ->; [|apply Z.mod_pos_bound, Z.pow_pos_nonneg; lia].
  apply Z.bits_inj'; intros n Hn. destruct (decide (n < k)).
  - by rewrite Z.mod_pow2_bits_low.
  - rewrite Z.mod_pow2_bits_high by lia. apply H. lia.
Qed.

Lemma lor_bound a b k : 0 <= k -> 0 <= a < 2 ^ k -> 0 <= b < 2 ^ k -> 0 <= Z.lor a b < 2 ^ k.
Proof.
  intros Hk Ha Hb. assert (0 <= Z.lor a b) by (apply Z.lor_nonneg; lia).
  split; [done|]. apply bits_bound; [done..|]. intros n Hn.
  by rewrite Z.lor_spec, (testbit_high a k), (testbit_high b k) by lia.
Qed.

Lemma lxor_bound a b k : 0 <= k -> 0 <= a < 2 ^ k -> 0 <= b < 2 ^ k -> 0 <= Z.lxor a b < 2 ^ k.
Proof.
  intros Hk Ha Hb. assert (0 <= Z.lxor a b) by (apply Z.lxor_nonneg; lia).
  split; [done|]. apply bits_bound; [done..|]. intros n Hn.
  by rewrite Z.lxor_spec, (testbit_high a k), (testbit_high b k) by lia.
Qed.

Lemma land_bound_r a b k : 0 <= k -> 0 <= b < 2 ^ k -> 0 <= Z.land a b < 2 ^ k.
Proof.
  intros Hk Hb. assert (0 <= Z.land a b) by (apply Z.land_nonneg; lia).
  split; [done|]. apply bits_bound; [done..|]. intros n Hn.
  by rewrite Z.land_spec, (testbit_high b k), andb_false_r by lia.
Qed.

(** ** Lengths, powers of 256 and width conversions *)

Lemma zlen_snoc {A} (l : list A) x : zlen (l ++ [x]) = zlen l + 1.
Proof. unfold zlen. rewrite length_app. simpl. lia. Qed.

Lemma zlen_nonneg {A} (l : list A) : 0 <= zlen l.
Proof. unfold zlen. lia. Qed.

Lemma pow256 k : 0 <= k -> 2 ^ (8 * k) = 256 ^ k.
Proof. intros Hk. by rewrite Z.pow_mul_r by lia. Qed.

Lemma s64_small x : - 2 ^ 63 <= x < 2 ^ 63 -> s64 x = x.
Proof. intros H. unfold s64. rewrite Z.mod_small; lia. Qed.
Lemma u32_small x : 0 <= x < 2 ^ 32 -> u32 x = x.
Proof. intros H. unfold u32. by rewrite Z.mod_small. Qed.
Lemma u64_small x : 0 <= x < 2 ^ 64 -> u64 x = x.
Proof. intros H. unfold u64. by rewrite Z.mod_small. Qed.
Lemma u64_s64 x : u64 (s64 x) = u64 x.
Proof.
  unfold u64, s64. rewrite Zminus_mod_idemp_l. f_equal. lia.
Qed.
Lemma s64_eqm x y : u64 x = u64 y -> s64 x = s64 y.
Proof.
  unfold u64, s64. intros H. f_equal. by rewrite <-Zplus_mod_idemp_l, H, Zplus_mod_idemp_l.
Qed.

Lemma u64_lor x y : u64 (Z.lor x y) = Z.lor (u64 x) (u64 y).
Proof. unfold u64. by rewrite <-!Z.land_ones, Z.land_lor_distr_l by lia. Qed.

Lemma zlen_cons {A} (x : A) l : zlen (x :: l) = zlen l + 1.
Proof. unfold zlen. simpl length. lia. Qed.

Lemma zlen_app {A} (l k : list A) : zlen (l ++ k) = zlen l + zlen k.
Proof. unfold zlen. rewrite length_app. lia. Qed.

Lemma zlen_nil {A} : zlen (@nil A) = 0.
Proof. done. Qed.

Create Rewrite HintDb zlen.
#[export] Hint Rewrite @zlen_cons @zlen_app @zlen_nil : zlen.

Lemma le_value_snoc l t : le_value (l ++ [t]) = le_value l + 256 ^ zlen l * t.
Proof. rewrite le_value_app. cbn [le_value]. lia. Qed.

Lemma bytes_ok_app l k : bytes_ok (l ++ k) <-> bytes_ok l /\ bytes_ok k.
Proof. apply Forall_app. Qed.

Lemma bytes_ok_snoc l b : bytes_ok (l ++ [b]) <-> bytes_ok l /\ is_byte b.
Proof. unfold bytes_ok. by rewrite Forall_app, Forall_singleton. Qed.

Lemma forallb_fmap {A B} (p : B -> bool) (f : A -> B) l : forallb p (f <$> l) = forallb (fun x => p (f x)) l.
Proof. induction l as [|x l IH]; [done|]. cbn [fmap list_fmap forallb]. by f_equal. Qed.

Lemma forallb_ext {A} (p q : A -> bool) l : (forall x, p x = q x) -> forallb p l = forallb q l.
Proof. intros H. induction l as [|x l IH]; [done|]. cbn [forallb]. by rewrite H, IH. Qed.

(** Cutting off a known suffix. *)
Lemma take_suffix {A} (u q l : list A) : l = u ++ q -> take (length l - length q) l ++ q = l.
Proof. intros ->. rewrite length_app, Nat.add_sub. by rewrite take_app_length. Qed.

(** Clearing the only bit above position [k]. *)
Lemma land_clear_bit y k n :
  0 <= k < n -> 0 <= y < 2 ^ k -> Z.land (y + 2 ^ k) (Z.lnot (2 ^ k) mod 2 ^ n) = y.
Proof.
  intros Hk Hy. rewrite <-(Z.mul_1_l (2 ^ k)) at 1. rewrite <-lor_shiftl_add by lia.
  apply Z.bits_inj'; intros i Hi.
  rewrite Z.land_spec, Z.lor_spec, Z.shiftl_spec by done.
  destruct (decide (i < k)) as [?|?].
  - rewrite Z.mod_pow2_bits_low, Z.lnot_spec, (Z.pow2_bits_false k i), (Z.testbit_neg_r 1) by lia.
    by rewrite orb_false_r, andb_true_r.
  - rewrite (testbit_high y k i) by lia. destruct (decide (i = k)) as [->|?].
    + rewrite Z.mod_pow2_bits_low, Z.lnot_spec, Z.pow2_bits_true by lia. apply andb_false_r.
    + rewrite <-(Z.pow_0_r 2), Z.pow2_bits_false by lia. done.
Qed.

(** Every property of bytes decidable by a boolean test is checked on the 256 values. *)
Lemma byte_forall (P : Z -> bool) :
  forallb P (seqZ 0 256) = true -> forall b, is_byte b -> P b = true.
Proof.
  intros H b Hb. rewrite forallb_forall in H. apply H.
  apply list_elem_of_In, elem_of_seqZ. unfold is_byte in Hb. lia.
Qed.

(** [byte_decide b] proves a boolean equation about the byte [b] by enumeration. *)
Ltac byte_decide b :=
  pattern b;
  match goal with
  | |- (fun x => @eq bool (@?f x) ?v) b =>
      first [ apply (byte_forall f); [vm_compute; reflexivity|assumption] ]
  end.

Lemma land_128_testbit b : is_byte b -> (Z.land b 128 =? 0) = (b <? 128).
Proof.
  intros Hb. apply eqb_prop.
  apply (byte_forall (fun b => Bool.eqb (Z.land b 128 =? 0) (b <? 128))); [by vm_compute|done].
Qed.

(** ** Big-endian numbers *)

Definition be_value (l : bytes) : Z := le_value (reverse l).

Lemma be_value_app a b : be_value (a ++ b) = be_value a * 256 ^ zlen b + be_value b.
Proof. unfold be_value. rewrite reverse_app, le_value_app. unfold zlen. rewrite length_reverse. lia. Qed.
Lemma be_value_cons x l : be_value (x :: l) = x * 256 ^ zlen l + be_value l.
Proof. change (x :: l) with ([x] ++ l). rewrite be_value_app. unfold be_value. cbn. lia. Qed.
Lemma be_value_bound l : bytes_ok l -> 0 <= be_value l < 256 ^ zlen l.
Proof.
  intros Hl. unfold be_value. pose proof (le_value_bound (reverse l)) as H. unfold zlen in *. rewrite length_reverse in H.
  apply H. by apply Forall_reverse.
Qed.
Lemma be_value_zeros n : be_value (replicate n 0) = 0.
Proof.
  unfold be_value. rewrite reverse_replicate. induction n as [|n IH]; [done|]. cbn [replicate le_value]. lia.
Qed.
Lemma be_value_inj a b : bytes_ok a -> bytes_ok b -> length a = length b -> be_value a = be_value b -> a = b.
Proof.
  intros Ha Hb Hl Hv. apply (inj reverse). rewrite <-(le_bytes_le_value (reverse a)), <-(le_bytes_le_value (reverse b)) by by apply Forall_reverse.
  unfold be_value in Hv. by rewrite !length_reverse, Hl, Hv.
Qed.

Lemma land_127_small b : 0 <= b < 128 -> Z.land b 0x7f = b.
Proof. intros Hb. change 0x7f with (2 ^ 7 - 1). rewrite land_ones_mod by lia. apply Z.mod_small. lia. Qed.
