(* ===== verification/Crypto.v ===== *)
(** * Crypto: the hash functions of [crypto/sha256.cpp], [crypto/sha1.cpp], [crypto/ripemd160.cpp]
    and the compositions of [hash.h]

    The three hashers share the buffering of [Write] and the padding of [Finalize]; it is modelled
    once, over the compression function, and shown to compute the digest of the padded message
    whatever the sequence of writes. The unrolled rounds of the compression functions are folds:
    an unrolled call renames the registers where the fold rotates them. *)
From S2P Require Import Prelude.

Module Crypto.

(** ** Words *)

Definition shl32 (x i : Z) : Z := u32 (Z.shiftl x i).
Definition not32 (x : Z) : Z := u32 (Z.lnot x).
Definition rol (x i : Z) : Z := Z.lor (shl32 x i) (Z.shiftr x (32 - i)).
Definition ror (x i : Z) : Z := Z.lor (Z.shiftr x i) (shl32 x (32 - i)).

(** [ReadBE32], [ReadLE32], [WriteBE32], [WriteBE64], [WriteLE32], [WriteLE64] *)
Definition ReadLE32 (b : bytes) : Z := le_value (take 4 b).
Definition ReadBE32 (b : bytes) : Z := le_value (rev (take 4 b)).
Definition WriteLE (n : nat) (x : Z) : bytes := le_bytes n x.
Definition WriteBE (n : nat) (x : Z) : bytes := rev (le_bytes n x).

(** The sixteen words of a 64-byte chunk. *)
Definition chunk_words (read : bytes -> Z) (chunk : bytes) : list Z :=
  (fun i => read (drop (4 * i) chunk)) <$> seq 0 16.

Definition word (w : list Z) (i : nat) : Z := default 0 (w !! i).

(** ** The hashers: buffering and padding *)

Section hasher.
Context {St : Type} (Initialize : St) (Transform : St -> bytes -> St)
        (write_size : Z -> bytes) (output : St -> bytes).

(** The members of a hasher; of the 64-byte array [buf] only the bytes written are kept. *)
Record hasher : Type := Hasher { st : St; buf : bytes; count : Z }.

Definition Reset : hasher := Hasher Initialize [] 0.

(** The loop over the full chunks of the source. *)
Fixpoint full_chunks (fuel : nat) (s : St) (data : bytes) : St * bytes :=
  match fuel with
  | S fuel => if 64 <=? zlen data then full_chunks fuel (Transform s (take 64 data)) (drop 64 data)
              else (s, data)
  | O => (s, data)
  end.

(** [Write], first part: complete a partly filled buffer and process it. *)
Definition fill (h : hasher) (data : bytes) : hasher * bytes * Z :=
  let bufsize := count h mod 64 in
  if negb (bufsize =? 0) && (64 <=? bufsize + zlen data) then
    let b := take (Z.to_nat bufsize) (buf h) ++ take (Z.to_nat (64 - bufsize)) data in
    (Hasher (Transform (st h) b) b (u64 (count h + (64 - bufsize))),
     drop (Z.to_nat (64 - bufsize)) data, 0)
  else (h, data, bufsize).

(** Second part: the full chunks of the source, then the buffer takes what remains. *)
Definition absorb_rest (h : hasher) (data : bytes) (bufsize : Z) : hasher :=
  let '(s, rest) := full_chunks (length data) (st h) data in
  let n := u64 (count h + (zlen data - zlen rest)) in
  if 0 <? zlen rest
  then Hasher s (take (Z.to_nat bufsize) (buf h) ++ rest) (u64 (n + zlen rest))
  else Hasher s (buf h) n.

Definition Write (h : hasher) (data : bytes) : hasher :=
  let '(h, data, bufsize) := fill h data in absorb_rest h data bufsize.

Definition Finalize (h : hasher) : bytes :=
  let sizedesc := write_size (u64 (Z.shiftl (count h) 3)) in
  let pad := 0x80 :: replicate (Z.to_nat ((119 - count h mod 64) mod 64)) 0 in
  output (st (Write (Write h pad) sizedesc)).

(** *** Reference: the padded message, cut into chunks *)

Definition md_pad (m : bytes) : bytes :=
  m ++ 0x80 :: replicate (Z.to_nat ((119 - zlen m mod 64) mod 64)) 0
    ++ write_size (u64 (8 * zlen m)).

Definition compress (m : bytes) : St := (full_chunks (length m) Initialize m).1.
Definition md_digest (m : bytes) : bytes := output (compress (md_pad m)).

(** *** What a hasher has absorbed *)

Definition absorbed (h : hasher) (m : bytes) : Prop :=
  exists tail, full_chunks (length m) Initialize m = (st h, tail)
    /\ take (Z.to_nat (count h mod 64)) (buf h) = tail /\ count h = u64 (zlen m).

Lemma full_chunks_fuel f1 f2 s d :
  (length d <= f1)%nat -> (length d <= f2)%nat -> full_chunks f1 s d = full_chunks f2 s d.
Proof.
  revert f2 s d. induction f1 as [|f1 IH]; intros f2 s d H1 H2.
  { destruct d; [|simpl in *; lia]. by destruct f2. }
  destruct f2 as [|f2]; [destruct d; [done|simpl in *; lia]|]. cbn [full_chunks].
  destruct (64 <=? zlen d) eqn:E; [|done]. unfold zlen in E.
  apply IH; rewrite length_drop; lia.
Qed.

Lemma full_chunks_tail f s d s' t :
  (length d <= f)%nat -> full_chunks f s d = (s', t) -> zlen t = zlen d mod 64.
Proof.
  revert s d. induction f as [|f IH]; intros s d Hf; cbn [full_chunks].
  { destruct d; [|simpl in *; lia]. by intros [= <- <-]. }
  destruct (64 <=? zlen d) eqn:E.
  - intros H. apply IH in H; [|rewrite length_drop; lia]. rewrite H.
    unfold zlen in *. rewrite length_drop, Nat2Z.inj_sub by lia.
    change (Z.of_nat 64) with (1 * 64). by rewrite <-Zminus_mod_idemp_r, Z.mod_mul, Z.sub_0_r.
  - intros [= <- <-]. rewrite Z.mod_small; [done|]. pose proof (zlen_nonneg d). lia.
Qed.

(** Absorbing [d] after [m]: continue with the tail of [m] in front of [d]. *)
Lemma full_chunks_app f s m s' t d :
  (length m <= f)%nat -> full_chunks f s m = (s', t) ->
  full_chunks (length (m ++ d)) s (m ++ d) = full_chunks (length (t ++ d)) s' (t ++ d).
Proof.
  revert s m. induction f as [|f IH]; intros s m Hf; cbn [full_chunks].
  { destruct m; [|simpl in *; lia]. by intros [= <- <-]. }
  destruct (64 <=? zlen m) eqn:E; [|by intros [= <- <-]].
  unfold zlen in E. intros H.
  assert (length (drop 64 m) <= f)%nat as Hf' by (rewrite length_drop; lia).
  rewrite <-(IH _ _ Hf' H).
  destruct (length (m ++ d)) as [|n] eqn:En; [rewrite length_app in En; lia|].
  assert (64 <= zlen (m ++ d)) as Hmd by (unfold zlen; rewrite length_app; lia).
  cbn [full_chunks]. replace (64 <=? zlen (m ++ d)) with true by lia.
  rewrite take_app_le, drop_app_le by lia. apply full_chunks_fuel; [|done].
  rewrite length_app, length_drop. rewrite length_app in En. lia.
Qed.

Lemma full_chunks_one n s b :
  length b = 64%nat -> (0 < n)%nat -> full_chunks n s b = (Transform s b, []).
Proof.
  intros Hb Hn. destruct n as [|n]; [lia|]. cbn [full_chunks].
  assert (zlen b = 64) as -> by (unfold zlen; lia). simpl (64 <=? 64). cbv iota.
  rewrite (take_ge b), (drop_ge b) by lia. by destruct n.
Qed.

Lemma u64_mod64 x : u64 x mod 64 = x mod 64.
Proof. unfold u64. apply Z.mod_mod_divide. by exists (2 ^ 58). Qed.

Lemma u64_add_l a b : u64 (u64 a + b) = u64 (a + b).
Proof. unfold u64. by rewrite Zplus_mod_idemp_l. Qed.

Lemma absorbed_Reset : absorbed Reset [].
Proof. by exists []. Qed.

Lemma absorbed_inv h m :
  absorbed h m ->
  count h mod 64 = zlen m mod 64
  /\ full_chunks (length m) Initialize m = (st h, take (Z.to_nat (count h mod 64)) (buf h))
  /\ zlen (take (Z.to_nat (count h mod 64)) (buf h)) = zlen m mod 64.
Proof.
  intros (t & Hc & Hb & Hn). pose proof (full_chunks_tail _ _ _ _ _ (le_n _) Hc) as Ht.
  rewrite Hb. split_and!; [by rewrite Hn, u64_mod64|done|done].
Qed.

Lemma zlen_zero {A} (l : list A) : zlen l <= 0 -> l = [].
Proof. destruct l; [done|]. rewrite zlen_cons. pose proof (zlen_nonneg l). lia. Qed.

(** Filling the buffer leaves a hasher that has absorbed a prefix, aligned or short of a chunk. *)
Lemma fill_absorbed h m d :
  absorbed h m ->
  exists h' d' m', fill h d = (h', d', zlen m' mod 64) /\ absorbed h' m' /\ m' ++ d' = m ++ d
    /\ (zlen m' mod 64 = 0 \/ zlen m' mod 64 + zlen d' < 64).
Proof.
  intros H. pose proof (absorbed_inv _ _ H) as (Hmod & Hc & Ht). unfold fill. rewrite Hmod in *.
  pose proof (Z.mod_pos_bound (zlen m) 64).
  destruct (negb _ && _) eqn:E; [|exists h, d, m; split_and!; [done..|lia]].
  set (r := zlen m mod 64) in *. set (t := take (Z.to_nat r) (buf h)) in *.
  set (k := Z.to_nat (64 - r)). set (b := t ++ take k d).
  assert (length b = 64%nat) as Hlb.
  { unfold b, zlen in *. rewrite length_app, length_take. lia. }
  assert (zlen (m ++ take k d) mod 64 = 0) as Hz.
  { rewrite zlen_app, <-Zplus_mod_idemp_l. fold r.
    assert (zlen (take k d) = 64 - r) as -> by (unfold zlen in *; rewrite length_take; lia).
    by replace (r + (64 - r)) with 64 by lia. }
  exists (Hasher (Transform (st h) b) b (u64 (count h + (64 - r)))), (drop k d), (m ++ take k d).
  split_and!; [by rewrite Hz| |by rewrite <-app_assoc, take_drop|by left].
  exists []. cbn [st buf count]. destruct H as (_ & _ & _ & Hn).
  assert (u64 (count h + (64 - r)) = u64 (zlen (m ++ take k d))) as ->.
  { rewrite Hn, u64_add_l, zlen_app. do 2 f_equal. unfold zlen in *. rewrite length_take. lia. }
  split_and!; [|by rewrite u64_mod64, Hz|done].
  rewrite (full_chunks_app _ _ _ _ _ (take k d) (le_n _) Hc).
  apply full_chunks_one; [done|]. fold b. lia.
Qed.

Lemma rest_absorbed h m d :
  absorbed h m -> (zlen m mod 64 = 0 \/ zlen m mod 64 + zlen d < 64) ->
  absorbed (absorb_rest h d (zlen m mod 64)) (m ++ d).
Proof.
  intros H Hal. pose proof (absorbed_inv _ _ H) as (Hmod & Hc & Ht). rewrite Hmod in *.
  destruct H as (_ & _ & _ & Hn). unfold absorb_rest.
  set (r := zlen m mod 64) in *. set (t := take (Z.to_nat r) (buf h)) in *.
  assert (0 <= r < 64) as Hr by (apply Z.mod_pos_bound; lia). pose proof (zlen_nonneg d).
  pose proof (full_chunks_app _ _ _ _ _ d (le_n _) Hc) as Happ.
  destruct (full_chunks (length d) (st h) d) as [s rest] eqn:Ed.
  assert (full_chunks (length (m ++ d)) Initialize (m ++ d) = (s, t ++ rest)) as Hf.
  { rewrite Happ. destruct Hal as [Hal|Hal].
    - rewrite (zlen_zero t) by lia. done.
    - assert (forall n x, zlen x < 64 -> full_chunks n (st h) x = (st h, x)) as Hs.
      { intros n x Hx. destruct n; [done|]. cbn [full_chunks]. by replace (64 <=? zlen x) with false by lia. }
      rewrite Hs in Ed by lia. injection Ed as <- <-. apply Hs. rewrite zlen_app. lia. }
  pose proof (full_chunks_tail _ _ _ _ _ (le_n _) Hf) as Hlen.
  assert (forall x, count h + x = zlen d + count h -> u64 (count h + x) = u64 (zlen (m ++ d))) as Hcnt.
  { intros x Hx. rewrite Hn, u64_add_l, zlen_app. f_equal. lia. }
  exists (t ++ rest). destruct (0 <? zlen rest) eqn:E0; cbn [st buf count]; (split; [done|]).
  - rewrite u64_add_l, <-Z.add_assoc, Hcnt by lia. split; [|done].
    rewrite u64_mod64, <-Hlen. apply take_ge. unfold zlen. lia.
  - assert (rest = []) as -> by (apply zlen_zero; lia). rewrite app_nil_r in *.
    rewrite Hcnt by (rewrite zlen_nil; lia). split; [|done].
    rewrite u64_mod64, <-Hlen. unfold t at 2. by rewrite Ht.
Qed.

Lemma Write_absorbed h m d : absorbed h m -> absorbed (Write h d) (m ++ d).
Proof.
  intros H. destruct (fill_absorbed h m d H) as (h' & d' & m' & Hf & H' & <- & Hal).
  unfold Write. rewrite Hf. by apply rest_absorbed.
Qed.

Lemma Finalize_digest h m : absorbed h m -> Finalize h = md_digest m.
Proof.
  intros H. pose proof H as (t & _ & _ & Hn). unfold Finalize, md_digest, compress. f_equal.
  set (pad := _ :: _). set (size := write_size _).
  assert (m ++ pad ++ size = md_pad m) as <-.
  { unfold md_pad, pad, size. rewrite Hn, u64_mod64. cbn [app]. do 3 f_equal.
    rewrite Z.shiftl_mul_pow2 by lia. unfold u64. rewrite Zmult_mod_idemp_l. do 2 f_equal. lia. }
  rewrite app_assoc.
  destruct (Write_absorbed _ _ size (Write_absorbed _ _ pad H)) as (t' & -> & _). done.
Qed.
End hasher.

(** ** SHA-256 *)

Module sha256.
Definition Ch (x y z : Z) : Z := Z.lxor z (Z.land x (Z.lxor y z)).
Definition Maj (x y z : Z) : Z := Z.lor (Z.land x y) (Z.land z (Z.lor x y)).
Definition Sigma0 (x : Z) : Z := Z.lxor (Z.lxor (ror x 2) (ror x 13)) (ror x 22).
Definition Sigma1 (x : Z) : Z := Z.lxor (Z.lxor (ror x 6) (ror x 11)) (ror x 25).
Definition sigma0 (x : Z) : Z := Z.lxor (Z.lxor (ror x 7) (ror x 18)) (Z.shiftr x 3).
Definition sigma1 (x : Z) : Z := Z.lxor (Z.lxor (ror x 17) (ror x 19)) (Z.shiftr x 10).

Record state : Set := State { s0 : Z; s1 : Z; s2 : Z; s3 : Z; s4 : Z; s5 : Z; s6 : Z; s7 : Z }.

Definition Initialize : state :=
  State 0x6a09e667 0xbb67ae85 0x3c6ef372 0xa54ff53a 0x510e527f 0x9b05688c 0x1f83d9ab 0x5be0cd19.

(** One round, followed by the renaming of the registers for the next one. *)
Definition Round (s : state) (k : Z) : state :=
  let '(State a b c d e f g h) := s in
  let t1 := u32 (h + Sigma1 e + Ch e f g + k) in
  let t2 := u32 (Sigma0 a + Maj a b c) in
  State (u32 (t1 + t2)) a b c (u32 (d + t1)) e f g.

Definition K : list Z :=
  [0x428a2f98; 0x71374491; 0xb5c0fbcf; 0xe9b5dba5; 0x3956c25b; 0x59f111f1; 0x923f82a4; 0xab1c5ed5]
  ++ [0xd807aa98; 0x12835b01; 0x243185be; 0x550c7dc3; 0x72be5d74; 0x80deb1fe; 0x9bdc06a7; 0xc19bf174]
  ++ [0xe49b69c1; 0xefbe4786; 0x0fc19dc6; 0x240ca1cc; 0x2de92c6f; 0x4a7484aa; 0x5cb0a9dc; 0x76f988da]
  ++ [0x983e5152; 0xa831c66d; 0xb00327c8; 0xbf597fc7; 0xc6e00bf3; 0xd5a79147; 0x06ca6351; 0x14292967]
  ++ [0x27b70a85; 0x2e1b2138; 0x4d2c6dfc; 0x53380d13; 0x650a7354; 0x766a0abb; 0x81c2c92e; 0x92722c85]
  ++ [0xa2bfe8a1; 0xa81a664b; 0xc24b8b70; 0xc76c51a3; 0xd192e819; 0xd6990624; 0xf40e3585; 0x106aa070]
  ++ [0x19a4c116; 0x1e376c08; 0x2748774c; 0x34b0bcb5; 0x391c0cb3; 0x4ed8aa4a; 0x5b9cca4f; 0x682e6ff3]
  ++ [0x748f82ee; 0x78a5636f; 0x84c87814; 0x8cc70208; 0x90befffa; 0xa4506ceb; 0xbef9a3f7; 0xc67178f2].

(** The window of sixteen words: [w0 += sigma1(w14) + w9 + sigma0(w1)], then renamed. *)
Definition schedule (w : list Z) : list Z :=
  tail w ++ [u32 (word w 0 + u32 (sigma1 (word w 14) + word w 9 + sigma0 (word w 1)))].

Fixpoint rounds (ks : list Z) (i : nat) (w : list Z) (s : state) : state :=
  match ks with
  | [] => s
  | k :: ks =>
      if (i <? 16)%nat then rounds ks (S i) w (Round s (u32 (k + word w i)))
      else let w := schedule w in rounds ks (S i) w (Round s (u32 (k + word w 15)))
  end.

Definition add (s t : state) : state :=
  State (u32 (s0 s + s0 t)) (u32 (s1 s + s1 t)) (u32 (s2 s + s2 t)) (u32 (s3 s + s3 t))
        (u32 (s4 s + s4 t)) (u32 (s5 s + s5 t)) (u32 (s6 s + s6 t)) (u32 (s7 s + s7 t)).

Definition Transform (s : state) (chunk : bytes) : state :=
  add s (rounds K 0 (chunk_words ReadBE32 chunk) s).

Definition output (s : state) : bytes :=
  WriteBE 4 (s0 s) ++ WriteBE 4 (s1 s) ++ WriteBE 4 (s2 s) ++ WriteBE 4 (s3 s)
  ++ WriteBE 4 (s4 s) ++ WriteBE 4 (s5 s) ++ WriteBE 4 (s6 s) ++ WriteBE 4 (s7 s).
End sha256.

Definition CSHA256_Write := Write sha256.Transform.
Definition CSHA256_Reset := Reset sha256.Initialize.
Definition CSHA256_Finalize := Finalize sha256.Transform (WriteBE 8) sha256.output.

(** ** SHA-1 *)

Module sha1.
Definition f1 (b c d : Z) : Z := Z.lxor d (Z.land b (Z.lxor c d)).
Definition f2 (b c d : Z) : Z := Z.lxor (Z.lxor b c) d.
Definition f3 (b c d : Z) : Z := Z.lor (Z.land b c) (Z.land d (Z.lor b c)).
Definition left (x : Z) : Z := rol x 1.

Record state : Set := State { s0 : Z; s1 : Z; s2 : Z; s3 : Z; s4 : Z }.
Definition Initialize : state := State 0x67452301 0xEFCDAB89 0x98BADCFE 0x10325476 0xC3D2E1F0.

Definition k1 : Z := 0x5A827999.
Definition k2 : Z := 0x6ED9EBA1.
Definition k3 : Z := 0x8F1BBCDC.
Definition k4 : Z := 0xCA62C1D6.

Definition Round (s : state) (f : Z -> Z -> Z -> Z) (k w : Z) : state :=
  let '(State a b c d e) := s in
  State (u32 (e + u32 (rol a 5 + f b c d + k + w))) a (rol b 30) c d.

Definition round_f (i : nat) : (Z -> Z -> Z -> Z) * Z :=
  if (i <? 20)%nat then (f1, k1) else if (i <? 40)%nat then (f2, k2)
  else if (i <? 60)%nat then (f3, k3) else (f2, k4).

(** The window of sixteen words: [w0 = left(w0 ^ w13 ^ w8 ^ w2)], then renamed. *)
Definition schedule (w : list Z) : list Z :=
  tail w ++ [left (Z.lxor (Z.lxor (Z.lxor (word w 0) (word w 13)) (word w 8)) (word w 2))].

Fixpoint rounds (n i : nat) (w : list Z) (s : state) : state :=
  match n with
  | O => s
  | S n =>
      let '(f, k) := round_f i in
      if (i <? 16)%nat then rounds n (S i) w (Round s f k (word w i))
      else let w := schedule w in rounds n (S i) w (Round s f k (word w 15))
  end.

Definition Transform (s : state) (chunk : bytes) : state :=
  let t := rounds 80 0 (chunk_words ReadBE32 chunk) s in
  State (u32 (s0 s + s0 t)) (u32 (s1 s + s1 t)) (u32 (s2 s + s2 t)) (u32 (s3 s + s3 t))
        (u32 (s4 s + s4 t)).

Definition output (s : state) : bytes :=
  WriteBE 4 (s0 s) ++ WriteBE 4 (s1 s) ++ WriteBE 4 (s2 s) ++ WriteBE 4 (s3 s) ++ WriteBE 4 (s4 s).
End sha1.

Definition CSHA1_Write := Write sha1.Transform.
Definition CSHA1_Reset := Reset sha1.Initialize.
Definition CSHA1_Finalize := Finalize sha1.Transform (WriteBE 8) sha1.output.

(** ** RIPEMD-160 *)

Module ripemd160.
Definition f1 (x y z : Z) : Z := Z.lxor (Z.lxor x y) z.
Definition f2 (x y z : Z) : Z := Z.lor (Z.land x y) (Z.land (not32 x) z).
Definition f3 (x y z : Z) : Z := Z.lxor (Z.lor x (not32 y)) z.
Definition f4 (x y z : Z) : Z := Z.lor (Z.land x z) (Z.land y (not32 z)).
Definition f5 (x y z : Z) : Z := Z.lxor x (Z.lor y (not32 z)).

Definition state : Set := sha1.state.
Definition Initialize : state := sha1.State 0x67452301 0xEFCDAB89 0x98BADCFE 0x10325476 0xC3D2E1F0.

Definition Round (s : state) (f : Z -> Z -> Z -> Z) (x k r : Z) : state :=
  let '(sha1.State a b c d e) := s in
  sha1.State e (u32 (rol (u32 (a + f b c d + x + k)) r + e)) b (rol c 10) d.

(** The message word and the rotation of each round, for the two lines. *)
Definition line_left1 : list (Z * Z) :=
  [(0, 11); (1, 14); (2, 15); (3, 12); (4, 5); (5, 8); (6, 7); (7, 9); (8, 11); (9, 13); (10, 14);
  (11, 15); (12, 6); (13, 7); (14, 9); (15, 8)].
Definition line_left2 : list (Z * Z) :=
  [(7, 7); (4, 6); (13, 8); (1, 13); (10, 11); (6, 9); (15, 7); (3, 15); (12, 7); (0, 12);
  (9, 15); (5, 9); (2, 11); (14, 7); (11, 13); (8, 12)].
Definition line_left3 : list (Z * Z) :=
  [(3, 11); (10, 13); (14, 6); (4, 7); (9, 14); (15, 9); (8, 13); (1, 15); (2, 14); (7, 8);
  (0, 13); (6, 6); (13, 5); (11, 12); (5, 7); (12, 5)].
Definition line_left4 : list (Z * Z) :=
  [(1, 11); (9, 12); (11, 14); (10, 15); (0, 14); (8, 15); (12, 9); (4, 8); (13, 9); (3, 14);
  (7, 5); (15, 6); (14, 8); (5, 6); (6, 5); (2, 12)].
Definition line_left5 : list (Z * Z) :=
  [(4, 9); (0, 15); (5, 5); (9, 11); (7, 6); (12, 8); (2, 13); (10, 12); (14, 5); (1, 12);
  (3, 13); (8, 14); (11, 11); (6, 8); (15, 5); (13, 6)].
Definition line_right1 : list (Z * Z) :=
  [(5, 8); (14, 9); (7, 9); (0, 11); (9, 13); (2, 15); (11, 15); (4, 5); (13, 7); (6, 7); (15, 8);
  (8, 11); (1, 14); (10, 14); (3, 12); (12, 6)].
Definition line_right2 : list (Z * Z) :=
  [(6, 9); (11, 13); (3, 15); (7, 7); (0, 12); (13, 8); (5, 9); (10, 11); (14, 7); (15, 7);
  (8, 12); (12, 7); (4, 6); (9, 15); (1, 13); (2, 11)].
Definition line_right3 : list (Z * Z) :=
  [(15, 9); (5, 7); (1, 15); (3, 11); (7, 8); (14, 6); (6, 6); (9, 14); (11, 12); (8, 13);
  (12, 5); (2, 14); (10, 13); (0, 13); (4, 7); (13, 5)].
Definition line_right4 : list (Z * Z) :=
  [(8, 15); (6, 5); (4, 8); (1, 11); (3, 14); (11, 14); (15, 6); (0, 14); (5, 6); (12, 9);
  (2, 12); (13, 9); (9, 12); (7, 5); (10, 15); (14, 8)].
Definition line_right5 : list (Z * Z) :=
  [(12, 8); (15, 5); (10, 12); (4, 9); (1, 12); (5, 5); (8, 14); (7, 6); (6, 8); (2, 13); (13, 6);
  (14, 5); (0, 15); (3, 13); (9, 11); (11, 11)].

Definition line (f : Z -> Z -> Z -> Z) (k : Z) (tab : list (Z * Z)) (w : list Z) (s : state) : state :=
  fold_left (fun s '(i, r) => Round s f (word w (Z.to_nat i)) k r) tab s.

Definition left_line (w : list Z) (s : state) : state :=
  line f5 0xA953FD4E line_left5 w (line f4 0x8F1BBCDC line_left4 w
    (line f3 0x6ED9EBA1 line_left3 w (line f2 0x5A827999 line_left2 w (line f1 0 line_left1 w s)))).
Definition right_line (w : list Z) (s : state) : state :=
  line f1 0 line_right5 w (line f2 0x7A6D76E9 line_right4 w
    (line f3 0x6D703EF3 line_right3 w (line f4 0x5C4DD124 line_right2 w
      (line f5 0x50A28BE6 line_right1 w s)))).

Definition Transform (s : state) (chunk : bytes) : state :=
  let w := chunk_words ReadLE32 chunk in
  let '(sha1.State a1 b1 c1 d1 e1) := left_line w s in
  let '(sha1.State a2 b2 c2 d2 e2) := right_line w s in
  sha1.State (u32 (sha1.s1 s + c1 + d2)) (u32 (sha1.s2 s + d1 + e2)) (u32 (sha1.s3 s + e1 + a2))
             (u32 (sha1.s4 s + a1 + b2)) (u32 (sha1.s0 s + b1 + c2)).

Definition output (s : state) : bytes :=
  WriteLE 4 (sha1.s0 s) ++ WriteLE 4 (sha1.s1 s) ++ WriteLE 4 (sha1.s2 s) ++ WriteLE 4 (sha1.s3 s)
  ++ WriteLE 4 (sha1.s4 s).
End ripemd160.

Definition CRIPEMD160_Write := Write ripemd160.Transform.
Definition CRIPEMD160_Reset := Reset ripemd160.Initialize.
Definition CRIPEMD160_Finalize := Finalize ripemd160.Transform (WriteLE 8) ripemd160.output.

(** ** [hash_basis] *)

Definition SHA256 (b : bytes) : bytes := CSHA256_Finalize (CSHA256_Write CSHA256_Reset b).
Definition RIPEMD160 (b : bytes) : bytes := CRIPEMD160_Finalize (CRIPEMD160_Write CRIPEMD160_Reset b).
Definition SHA1 (b : bytes) : bytes := CSHA1_Finalize (CSHA1_Write CSHA1_Reset b).

(** [Hash(p1begin, p1end)], and the version over two ranges; a [uint256] is its 32 bytes. *)
Definition Hash (b : bytes) : bytes :=
  let hash1 := CSHA256_Finalize (CSHA256_Write CSHA256_Reset b) in
  CSHA256_Finalize (CSHA256_Write CSHA256_Reset hash1).
Definition Hash2 (b1 b2 : bytes) : bytes :=
  let hash1 := CSHA256_Finalize (CSHA256_Write (CSHA256_Write CSHA256_Reset b1) b2) in
  CSHA256_Finalize (CSHA256_Write CSHA256_Reset hash1).

Definition Hash160 (b : bytes) : bytes :=
  let hash1 := CSHA256_Finalize (CSHA256_Write CSHA256_Reset b) in
  CRIPEMD160_Finalize (CRIPEMD160_Write CRIPEMD160_Reset hash1).

(** ** Properties *)

(** A sequence of writes on a fresh hasher. *)
Definition writes {St} (Transform : St -> bytes -> St) (h : hasher) (parts : list bytes) : hasher :=
  fold_left (Write Transform) parts h.

Lemma writes_absorbed {St} (Initialize : St) Transform h m parts :
  absorbed Initialize Transform h m ->
  absorbed Initialize Transform (writes Transform h parts) (m ++ concat parts).
Proof.
  revert h m. induction parts as [|d parts IH]; intros h m H; cbn [writes fold_left concat].
  { by rewrite app_nil_r. }
  rewrite app_assoc. apply IH. by apply Write_absorbed.
Qed.

Lemma Finalize_writes {St} (Initialize : St) Transform size output parts :
  Finalize Transform size output (writes Transform (Reset Initialize) parts)
  = md_digest Initialize Transform size output (concat parts).
Proof.
  apply Finalize_digest. apply (writes_absorbed Initialize Transform (Reset Initialize) []).
  apply absorbed_Reset.
Qed.

(** However a message is cut into [Write] calls, each hasher's [Finalize] yields
    the Merkle-Damgard digest of the whole message: padded with 0x80, zeros and its bit length to a
    multiple of 64 bytes, and compressed chunk by chunk. *)
Lemma hashers_stream parts :
  CSHA256_Finalize (writes sha256.Transform CSHA256_Reset parts)
    = md_digest sha256.Initialize sha256.Transform (WriteBE 8) sha256.output (concat parts)
  /\ CSHA1_Finalize (writes sha1.Transform CSHA1_Reset parts)
    = md_digest sha1.Initialize sha1.Transform (WriteBE 8) sha1.output (concat parts)
  /\ CRIPEMD160_Finalize (writes ripemd160.Transform CRIPEMD160_Reset parts)
    = md_digest ripemd160.Initialize ripemd160.Transform (WriteLE 8) ripemd160.output (concat parts).
Proof. split_and!; apply Finalize_writes. Qed.

Lemma Hash2_Hash b1 b2 : Hash2 b1 b2 = Hash (b1 ++ b2).
Proof.
  unfold Hash2, Hash. cbv zeta. do 2 f_equal. unfold CSHA256_Finalize.
  pose proof (Finalize_writes sha256.Initialize sha256.Transform (WriteBE 8) sha256.output) as H.
  pose proof (H [b1; b2]) as H2. pose proof (H [b1 ++ b2]) as H1.
  cbn [writes fold_left concat] in H1, H2. rewrite app_nil_r in H1, H2.
  etrans; [exact H2|]. by symmetry.
Qed.

Lemma length_output256 s : length (sha256.output s) = 32%nat.
Proof. by destruct s. Qed.
Lemma length_output160 s : length (ripemd160.output s) = 20%nat.
Proof. by destruct s. Qed.

Lemma length_Hash b : length (Hash b) = 32%nat.
Proof. apply length_output256. Qed.
Lemma length_Hash160 b : length (Hash160 b) = 20%nat.
Proof. apply length_output160. Qed.

Lemma WriteBE_ok n x : bytes_ok (WriteBE n x).
Proof. apply List.Forall_rev, le_bytes_ok. Qed.
Lemma Hash_bytes_ok b : bytes_ok (Hash b).
Proof.
  unfold Hash, CSHA256_Finalize, Finalize, sha256.output. cbv zeta.
  repeat (apply bytes_ok_app; split; [apply WriteBE_ok|]). apply WriteBE_ok.
Qed.
Lemma Hash160_bytes_ok b : bytes_ok (Hash160 b).
Proof.
  unfold Hash160, CRIPEMD160_Finalize, Finalize, ripemd160.output, WriteLE. cbv zeta.
  repeat (apply bytes_ok_app; split; [apply le_bytes_ok|]). apply le_bytes_ok.
Qed.
#[global] Opaque Hash Hash2 Hash160.

(** The published test vectors of the three functions on "abc". *)
Example SHA256_abc : le_value (rev (SHA256 [97; 98; 99]))
  = 0xba7816bf8f01cfea414140de5dae2223b00361a396177a9cb410ff61f20015ad.
Proof. vm_compute. reflexivity. Qed.
Example SHA1_abc : le_value (rev (SHA1 [97; 98; 99])) = 0xa9993e364706816aba3e25717850c26c9cd0d89d.
Proof. vm_compute. reflexivity. Qed.
Example RIPEMD160_abc : le_value (rev (RIPEMD160 [97; 98; 99]))
  = 0x8eb208f7e05d987a9b044a8e98c6b087f15a0bfc.
Proof. vm_compute. reflexivity. Qed.

End Crypto.
