(* ===== verification/ScriptNum.v ===== *)
(** * CScriptNum: the numbers of the script interpreter (src/script/scriptnum.h)

    A [CScriptNum] is an int64 ([m_value : Z]) with the little-endian
    sign-and-magnitude encoding of the stack elements.  A constructor that
    throws [scriptnum_error] and a failed [assert] are [None]. *)
From S2P Require Import Prelude.

Module CScriptNum.

(** [vch.back()] *)
Definition back (vch : bytes) : Z := default 0 (last vch).

(** [while (absvalue) { result.push_back(absvalue & 0xff); absvalue >>= 8; }];
    a uint64 has at most eight bytes, the fuel used by [serialize]. *)
Fixpoint push_abs (fuel : nat) (absvalue : Z) : bytes :=
  match fuel with
  | O => []
  | S fuel =>
      if absvalue =? 0 then []
      else Z.land absvalue 0xff :: push_abs fuel (Z.shiftr absvalue 8)
  end.

(** [result.back() |= m] *)
Fixpoint or_back (result : bytes) (m : Z) : bytes :=
  match result with
  | [] => []
  | [b] => [Z.lor b m]
  | b :: result => b :: or_back result m
  end.

Definition serialize (value : Z) : bytes :=
  if value =? 0 then []
  else
    let neg := value <? 0 in
    let absvalue := u64 (if neg then s64 (- value) else value) in
    let result := push_abs 8 absvalue in
    if negb (Z.land (back result) 0x80 =? 0) then result ++ [if neg then 0x80 else 0]
    else if neg then or_back result 0x80
    else result.

(** The loop [result |= static_cast<int64_t>(vch[i]) << 8*i]. *)
Fixpoint set_vch_loop (i : Z) (vch : bytes) (result : Z) : Z :=
  match vch with
  | [] => result
  | b :: vch => set_vch_loop (i + 1) vch (s64 (Z.lor result (s64 (Z.shiftl b (8 * i)))))
  end.

Definition set_vch (vch : bytes) : Z :=
  match vch with
  | [] => 0
  | _ =>
      let result := set_vch_loop 0 vch 0 in
      if negb (Z.land (back vch) 0x80 =? 0)
      then s64 (- s64 (Z.land (u64 result) (u64 (Z.lnot (Z.shiftl 0x80 (8 * (zlen vch - 1)))))))
      else result
  end.

Definition nDefaultMaxNumSize : Z := 4.

(** [CScriptNum(vch, fRequireMinimal, nMaxNumSize)] *)
Definition of_vch (vch : bytes) (fRequireMinimal : bool) (nMaxNumSize : Z) : option Z :=
  if zlen vch >? nMaxNumSize then None
  else if fRequireMinimal && (zlen vch >? 0)
          && (Z.land (back vch) 0x7f =? 0)
          && ((zlen vch <=? 1)
              || (Z.land (default 0 (vch !! (length vch - 2)%nat)) 0x80 =? 0))
  then None
  else Some (set_vch vch).

Definition getint (m_value : Z) : Z :=
  if m_value >? INT32_MAX then INT32_MAX
  else if m_value <? INT32_MIN then INT32_MIN
  else m_value.

Definition getvch (m_value : Z) : bytes := serialize m_value.

(** Binary [operator+], [operator-], [operator&] and unary [operator-]. *)
Definition op_add (m_value rhs : Z) : Z := s64 (m_value + rhs).
Definition op_sub (m_value rhs : Z) : Z := s64 (m_value - rhs).
Definition op_and (m_value rhs : Z) : Z := Z.land m_value rhs.
Definition op_neg (m_value : Z) : option Z :=
  if m_value =? INT64_MIN then None else Some (- m_value).

(** [operator+=] and [operator-=], with their overflow assertions. *)
Definition op_add_assign (m_value rhs : Z) : option Z :=
  if (rhs =? 0) || ((rhs >? 0) && (m_value <=? INT64_MAX - rhs))
     || ((rhs <? 0) && (m_value >=? INT64_MIN - rhs))
  then Some (m_value + rhs) else None.
Definition op_sub_assign (m_value rhs : Z) : option Z :=
  if (rhs =? 0) || ((rhs >? 0) && (m_value >=? INT64_MIN + rhs))
     || ((rhs <? 0) && (m_value <=? INT64_MAX + rhs))
  then Some (m_value - rhs) else None.

(** ** The value of an encoding *)

(** Reference reading of an encoding: magnitude, and sign in the top bit. *)
Definition value_of (vch : bytes) : Z :=
  if back vch <? 128 then le_value vch
  else - (le_value vch - 128 * 256 ^ (zlen vch - 1)).

Lemma back_snoc l b : back (l ++ [b]) = b.
Proof. unfold back. by rewrite last_snoc. Qed.

Lemma back_byte l : bytes_ok l -> is_byte (back l).
Proof.
  intros Hl. unfold back. destruct (last l) as [b|] eqn:E; simpl; [|unfold is_byte; lia].
  apply last_Some in E as [l' ->]. unfold bytes_ok in Hl. by apply Forall_app, proj2, Forall_inv in Hl.
Qed.

Lemma set_vch_loop_spec vch i result :
  bytes_ok vch -> 0 <= i -> i + zlen vch <= 8 -> 0 <= u64 result < 256 ^ i ->
  u64 (set_vch_loop i vch result) = u64 result + 256 ^ i * le_value vch.
Proof.
  intros Hok. revert i result. induction Hok as [|b vch Hb Hok IH]; intros i result Hi Hlen Hr.
  { cbn [set_vch_loop le_value]. lia. }
  assert (zlen (b :: vch) = zlen vch + 1) as Hz by (unfold zlen; simpl length; lia).
  pose proof (zlen_nonneg vch). unfold is_byte in Hb.
  assert (Z.shiftl b (8 * i) = b * 256 ^ i) as Hsh by (rewrite Z.shiftl_mul_pow2, pow256; lia).
  assert (256 ^ (i + 1) <= 2 ^ 64) as Hp.
  { change (2 ^ 64) with (256 ^ 8). apply Z.pow_le_mono_r; lia. }
  rewrite Z.pow_add_r, Z.pow_1_r in Hp by lia.
  assert (0 < 256 ^ i) by (apply Z.pow_pos_nonneg; lia).
  assert (u64 (s64 (Z.lor result (s64 (Z.shiftl b (8 * i))))) = u64 result + b * 256 ^ i) as Hstep.
  { rewrite u64_s64, u64_lor, u64_s64, Hsh, (u64_small (b * _)) by nia.
    rewrite <-Hsh, lor_shiftl_add by (rewrite ?pow256; lia). rewrite pow256; lia. }
  cbn [set_vch_loop le_value]. rewrite IH.
  - rewrite Hstep, Z.pow_add_r, Z.pow_1_r by lia. lia.
  - lia.
  - lia.
  - rewrite Hstep, Z.pow_add_r, Z.pow_1_r by lia. nia.
Qed.

Lemma set_vch_loop_s64 vch i result :
  s64 result = result -> s64 (set_vch_loop i vch result) = set_vch_loop i vch result.
Proof.
  revert i result. induction vch as [|b vch IH]; intros i result Hr; [done|].
  cbn [set_vch_loop]. apply IH, s64_eqm, u64_s64.
Qed.

Lemma set_vch_value vch : bytes_ok vch -> zlen vch <= 8 -> set_vch vch = value_of vch.
Proof.
  intros Hok Hlen. destruct vch as [|b0 vch0]; [done|].
  set (vch := b0 :: vch0) in *.
  destruct (exists_last (l := vch)) as (l & t & Hl); [by subst vch|].
  clearbody vch; subst vch. apply bytes_ok_snoc in Hok as Hok'. destruct Hok' as [Hokl Ht].
  unfold set_vch. destruct (l ++ [t]) as [|x0 x1] eqn:E; [by destruct l|]. rewrite <-E in *. clear E x0 x1.
  pose proof (set_vch_loop_spec (l ++ [t]) 0 0) as Hloop.
  rewrite (u64_small 0) in Hloop by lia. simpl Z.pow in Hloop. rewrite Z.mul_1_l, Z.add_0_l in Hloop.
  specialize (Hloop ltac:(done) ltac:(lia) ltac:(lia) ltac:(lia)).
  set (r := set_vch_loop 0 (l ++ [t]) 0) in *.
  pose proof (le_value_bound _ Hokl) as Hb.
  unfold value_of. rewrite back_snoc, zlen_snoc, Z.add_simpl_r, land_128_testbit, le_value_snoc by done.
  rewrite zlen_snoc in Hlen. rewrite le_value_snoc, ?Z.add_0_l in Hloop.
  assert (256 * 256 ^ zlen l <= 2 ^ 64) as Hp.
  { change (2 ^ 64) with (256 ^ 8). rewrite <-Z.pow_succ_r by apply zlen_nonneg.
    apply Z.pow_le_mono_r; lia. }
  unfold is_byte in Ht. set (P := 256 ^ zlen l) in *. set (m := le_value l) in *.
  destruct (t <? 128) eqn:E; simpl negb; cbv iota.
  - apply Z.ltb_lt in E. rewrite <-(s64_small (m + P * t)) by nia.
    unfold r at 1. rewrite <-set_vch_loop_s64 by done. fold r. apply s64_eqm.
    rewrite (u64_small (m + P * t)) by nia. exact Hloop.
  - apply Z.ltb_ge in E. rewrite Hloop, Z.shiftl_mul_pow2 by (pose proof (zlen_nonneg l); lia).
    rewrite pow256 by apply zlen_nonneg. fold P.
    assert (128 * P = 2 ^ (8 * zlen l + 7)) as HK.
    { rewrite Z.pow_add_r, pow256 by (pose proof (zlen_nonneg l); lia). fold P. lia. }
    pose proof (zlen_nonneg l).
    replace (m + P * t) with (m + P * (t - 128) + 128 * P) by lia.
    unfold u64. rewrite HK, land_clear_bit by (rewrite <-?HK; nia).
    rewrite <-HK. rewrite (s64_small (m + _)), s64_small by nia. lia.
Qed.

(** ** Encoding *)

Lemma push_abs_spec fuel a :
  0 <= a < 256 ^ Z.of_nat fuel ->
  bytes_ok (push_abs fuel a) /\ le_value (push_abs fuel a) = a
  /\ (0 < a -> 0 < back (push_abs fuel a)).
Proof.
  revert a. induction fuel as [|fuel IH]; intros a Ha; cbn [push_abs].
  { simpl in Ha. split_and!; [constructor|simpl; lia|lia]. }
  rewrite Nat2Z.inj_succ, Z.pow_succ_r in Ha by lia.
  case_match eqn:E; [apply Z.eqb_eq in E; split_and!; [constructor|simpl; lia|lia]|].
  apply Z.eqb_neq in E. change 0xff with (2 ^ 8 - 1). rewrite land_ones_mod, Z.shiftr_div_pow2 by lia.
  change (2 ^ 8) with 256. pose proof (Z.mod_pos_bound a 256). pose proof (Z.div_mod a 256).
  destruct (IH (a / 256)) as (Hok & Hv & Hb).
  { split; [apply Z.div_pos; lia|apply Z.div_lt_upper_bound; lia]. }
  split_and!.
  - constructor; [unfold is_byte; lia|done].
  - cbn [le_value]. lia.
  - intros _. unfold back in *. rewrite last_cons.
    destruct (decide (a / 256 = 0)) as [Hz|Hz].
    + rewrite Hz. destruct fuel; simpl; lia.
    + specialize (Hb ltac:(lia)). destruct (last _); simpl in *; [done|lia].
Qed.

(** Case analysis on the last byte of an encoding. *)
Lemma snoc_case (l : bytes) : l = [] \/ exists k t, l = k ++ [t].
Proof.
  destruct l as [|b l]; [by left|right].
  destruct (exists_last (l := b :: l)) as (k & t & ->); [done|]. by exists k, t.
Qed.

Lemma back_pos_value l : bytes_ok l -> 0 < back l -> 0 < le_value l.
Proof.
  intros Hok Hb. destruct (snoc_case l) as [->|(k & t & ->)]; [done|].
  rewrite back_snoc in Hb. apply bytes_ok_app in Hok as [Hok _].
  pose proof (le_value_bound _ Hok). rewrite le_value_snoc. nia.
Qed.

Lemma push_abs_le_value l fuel :
  bytes_ok l -> (length l <= fuel)%nat -> (l <> [] -> 0 < back l) -> push_abs fuel (le_value l) = l.
Proof.
  intros Hok. revert fuel. induction Hok as [|b l Hb Hok IH]; intros fuel Hlen Hback.
  { by destruct fuel. }
  destruct fuel as [|fuel]; [simpl in Hlen; lia|]. cbn [push_abs].
  pose proof (le_value_bound _ Hok). unfold is_byte in Hb.
  assert (le_value (b :: l) <> 0) as Hnz.
  { pose proof (back_pos_value (b :: l)). specialize (Hback ltac:(done)).
    cut (0 < le_value (b :: l)); [lia|]. apply back_pos_value; [by constructor|done]. }
  apply Z.eqb_neq in Hnz as ->. change 0xff with (2 ^ 8 - 1).
  rewrite land_ones_mod, Z.shiftr_div_pow2 by lia. change (2 ^ 8) with 256.
  cbn [le_value]. rewrite (Z.mul_comm 256), Z_mod_plus_full, Z.mod_small by lia.
  rewrite Z.div_add, Z.div_small, Z.add_0_l by lia. rewrite IH; [done|simpl in Hlen; lia|].
  intros Hl. specialize (Hback ltac:(done)). unfold back in *. rewrite last_cons in Hback.
  destruct (last l) as [c|] eqn:E; [done|]. by apply last_None in E.
Qed.

Lemma or_back_snoc l b m : or_back (l ++ [b]) m = l ++ [Z.lor b m].
Proof. induction l as [|c [|d l] IH]; [done..|]. cbn [app or_back] in *. by rewrite IH. Qed.

Lemma lor_128 b : is_byte b -> b < 128 -> Z.lor b 0x80 = b + 128.
Proof.
  intros Hb Hlt. unfold is_byte in Hb. change (Z.lor b 0x80) with (Z.lor b (Z.shiftl 1 7)).
  rewrite lor_shiftl_add; lia.
Qed.

Lemma land_127 b : is_byte b -> Z.land b 0x7f = b mod 128.
Proof. intros _. change 0x7f with (2 ^ 7 - 1). by rewrite land_ones_mod. Qed.

(** The encoding chosen for a non-zero number, by cases on the top byte of its magnitude. *)
Lemma serialize_eq n :
  - 2 ^ 63 < n < 2 ^ 63 -> n <> 0 ->
  exists l t, push_abs 8 (Z.abs n) = l ++ [t] /\ bytes_ok l /\ is_byte t /\ 0 < t
    /\ le_value l + 256 ^ zlen l * t = Z.abs n
    /\ serialize n =
       if t <? 128 then l ++ [if n <? 0 then t + 128 else t]
       else l ++ [t; if n <? 0 then 128 else 0].
Proof.
  intros Hn Hnz. destruct (push_abs_spec 8 (Z.abs n)) as (Hok & Hv & Hb); [lia|].
  specialize (Hb ltac:(lia)). unfold serialize.
  rewrite (proj2 (Z.eqb_neq n 0)) by done.
  replace (u64 (if n <? 0 then s64 (- n) else n)) with (Z.abs n).
  2:{ case_match eqn:E; [apply Z.ltb_lt in E|apply Z.ltb_ge in E].
      - rewrite s64_small, u64_small; lia.
      - rewrite u64_small; lia. }
  destruct (snoc_case (push_abs 8 (Z.abs n))) as [E|(l & t & E)]; rewrite E in *; [done|].
  rewrite back_snoc in Hb. apply bytes_ok_snoc in Hok as [Hok Ht]. rewrite le_value_snoc in Hv.
  exists l, t. split_and!; [done..|].
  rewrite back_snoc, land_128_testbit by done. destruct (t <? 128) eqn:Et; simpl negb; cbv iota.
  - destruct (n <? 0); [|done]. rewrite or_back_snoc, lor_128 by (done || lia). done.
  - by rewrite <-app_assoc.
Qed.

(** The minimality test of the constructor on an encoding with top byte [t]. *)
Definition minimal (l : bytes) (t : Z) : Prop := t mod 128 <> 0 \/ 128 <= back l.

Lemma of_vch_snoc l t nMax :
  bytes_ok l -> is_byte t -> zlen l + 1 <= nMax <= 8 ->
  of_vch (l ++ [t]) true nMax =
    if decide (minimal l t) then Some (value_of (l ++ [t])) else None.
Proof.
  intros Hok Ht Hlen. pose proof (zlen_nonneg l). unfold of_vch.
  rewrite zlen_snoc, back_snoc, land_127, set_vch_value by
    (done || (rewrite ?bytes_ok_snoc, ?zlen_snoc; done || lia)).
  replace (zlen l + 1 >? nMax) with false by lia. replace (zlen l + 1 >? 0) with true by lia.
  replace ((zlen l + 1 <=? 1)
           || (Z.land (default 0 ((l ++ [t]) !! (length (l ++ [t]) - 2)%nat)) 128 =? 0))
    with (back l <? 128).
  2:{ destruct (snoc_case l) as [->|(k & c & ->)]; [done|]. rewrite back_snoc.
      rewrite zlen_snoc in *. pose proof (zlen_nonneg k).
      replace (zlen k + 1 + 1 <=? 1) with false by lia. simpl orb.
      rewrite !length_app. simpl length. rewrite <-app_assoc, lookup_app_r by lia.
      replace (length k + 1 + 1 - 2 - length k)%nat with 0%nat by lia. simpl.
      apply bytes_ok_snoc in Hok as [_ Hc]. by rewrite land_128_testbit. }
  simpl andb. unfold minimal. case_decide as Hm; repeat case_match; try done; exfalso; lia.
Qed.

(** Decoding the encoding of any int64 other than INT64_MIN gives it back, and
    the constructor that enforces minimality accepts it whenever its length is within the limit. *)
Lemma serialize_roundtrip n nMaxNumSize :
  - 2 ^ 63 < n < 2 ^ 63 -> zlen (serialize n) <= nMaxNumSize <= 8 ->
  of_vch (serialize n) true nMaxNumSize = Some n.
Proof.
  intros Hn Hmax. destruct (decide (n = 0)) as [->|Hnz].
  { change (serialize 0) with (@nil Z) in *. rewrite zlen_nil in Hmax. unfold of_vch.
    rewrite zlen_nil. by replace (0 >? nMaxNumSize) with false by lia. }
  destruct (serialize_eq n Hn Hnz) as (l & t & _ & Hok & Ht & Htpos & Hv & Hs).
  rewrite Hs in *. clear Hs. pose proof (le_value_bound _ Hok). unfold is_byte in Ht.
  pose proof (zlen_nonneg l). assert (0 < 256 ^ zlen l) by lia.
  destruct (t <? 128) eqn:Et.
  - rewrite zlen_snoc in Hmax. rewrite of_vch_snoc by (done || (unfold is_byte; repeat case_match; lia)).
    rewrite decide_True by (left; case_match; Z.to_euclidean_division_equations; lia).
    f_equal. unfold value_of. rewrite back_snoc, le_value_snoc, zlen_snoc, Z.add_simpl_r.
    destruct (n <? 0) eqn:En; case_match; nia.
  - replace (l ++ [t; if n <? 0 then 128 else 0]) with ((l ++ [t]) ++ [if n <? 0 then 128 else 0])
      in * by by rewrite <-app_assoc.
    rewrite !zlen_snoc in Hmax. assert (bytes_ok (l ++ [t])) by by apply bytes_ok_snoc.
    rewrite of_vch_snoc; [|done|unfold is_byte; case_match; lia|rewrite zlen_snoc; lia].
    rewrite decide_True by (right; rewrite back_snoc; lia).
    f_equal. unfold value_of. rewrite back_snoc, !le_value_snoc, !zlen_snoc, Z.add_simpl_r.
    destruct (n <? 0) eqn:En; case_match; lia.
Qed.
Lemma serialize_roundtrip_witness :
  serialize (-255) = [255; 128] /\ of_vch (serialize (-255)) true 4 = Some (-255).
Proof. split; [reflexivity|]. apply serialize_roundtrip; vm_compute; intuition congruence. Defined.

(** Under the minimal-encoding rule every number has exactly one encoding:
    the one [serialize] produces. *)
Lemma minimal_unique vch nMaxNumSize n :
  bytes_ok vch -> nMaxNumSize <= 8 -> of_vch vch true nMaxNumSize = Some n -> serialize n = vch.
Proof.
  intros Hok Hmax Hof. destruct (snoc_case vch) as [->|(l & t & ->)].
  { unfold of_vch in Hof. repeat case_match; simplify_eq; done. }
  assert (zlen (l ++ [t]) <= nMaxNumSize) as Hlen by (unfold of_vch in Hof; repeat case_match; simplify_eq; lia).
  apply bytes_ok_snoc in Hok as [Hok Ht]. rewrite zlen_snoc in Hlen.
  rewrite of_vch_snoc in Hof by (done || lia). case_decide as Hmin; simplify_eq.
  pose proof (le_value_bound _ Hok). pose proof Ht as Ht'. unfold is_byte in Ht'.
  pose proof (zlen_nonneg l).
  assert (256 * 256 ^ zlen l <= 2 ^ 64) as Hp.
  { change (2 ^ 64) with (256 ^ 8). rewrite <-Z.pow_succ_r by done. apply Z.pow_le_mono_r; lia. }
  set (m := le_value l + 256 ^ zlen l * (t mod 128)).
  assert (value_of (l ++ [t]) = if t <? 128 then m else - m) as Hval.
  { unfold value_of, m. rewrite back_snoc, le_value_snoc, zlen_snoc, Z.add_simpl_r.
    case_match; [rewrite (Z.mod_small t 128) by lia; lia|].
    replace (t mod 128) with (t - 128) by (Z.to_euclidean_division_equations; lia). lia. }
  assert (0 < m < 2 ^ 63 /\ push_abs 8 m = if decide (t mod 128 = 0) then l else l ++ [t mod 128])
    as (Hm & Hpush).
  { pose proof (Z.mod_pos_bound t 128). case_decide as Hz.
    - destruct Hmin as [?|Hmin]; [done|]. pose proof (back_pos_value l Hok). unfold m. rewrite Hz.
      split; [nia|]. rewrite Z.mul_0_r, Z.add_0_r. apply push_abs_le_value; [done| |lia].
      unfold zlen in *. lia.
    - unfold m. split; [nia|]. rewrite <-le_value_snoc. apply push_abs_le_value.
      + apply bytes_ok_snoc. unfold is_byte. split; [done|lia].
      + rewrite length_app. simpl. unfold zlen in *. lia.
      + rewrite back_snoc. lia. }
  rewrite Hval. destruct (serialize_eq (if t <? 128 then m else - m)) as (l' & t' & E & _ & _ & _ & _ & ->).
  { destruct (t <? 128); lia. }
  { destruct (t <? 128); lia. }
  replace (Z.abs (if t <? 128 then m else - m)) with m in E by (destruct (t <? 128); lia).
  rewrite Hpush in E. pose proof (Z.mod_pos_bound t 128). case_decide as Hz.
  - destruct Hmin as [?|Hmin]; [done|]. rewrite E, back_snoc in Hmin. rewrite E.
    replace (t' <? 128) with false by lia. rewrite <-app_assoc. simpl. do 3 f_equal.
    clearbody m. clear -Hm Hz Ht'. destruct (t <? 128) eqn:Et; repeat case_match; Z.to_euclidean_division_equations; lia.
  - apply app_inj_2 in E as [-> E]; [|done]. simplify_eq. replace (_ <? 128) with true by lia.
    do 2 f_equal. clearbody m. clear -Hm Hz Ht'. destruct (t <? 128) eqn:Et; repeat case_match; Z.to_euclidean_division_equations; lia.
Qed.
Lemma minimal_unique_witness : of_vch [255; 128] true 4 = Some (-255) /\ serialize (-255) = [255; 128].
Proof.
  assert (of_vch [255; 128] true 4 = Some (-255)) as H by reflexivity. split; [exact H|].
  apply (minimal_unique [255; 128] 4); [|lia|exact H].
  apply Forall_cons; split; [|apply Forall_cons; split; [|apply Forall_nil]]; unfold is_byte; lia.
Defined.

Lemma operand_range vch fRequireMinimal n :
  bytes_ok vch -> of_vch vch fRequireMinimal nDefaultMaxNumSize = Some n -> - 2 ^ 31 < n < 2 ^ 31.
Proof.
  intros Hok H. unfold of_vch, nDefaultMaxNumSize in H.
  destruct (zlen vch >? 4) eqn:E; [done|]. case_match; [done|]. simplify_eq.
  rewrite set_vch_value by (done || lia). destruct (snoc_case vch) as [->|(l & t & ->)]; [done|].
  apply bytes_ok_snoc in Hok as [Hok Ht]. pose proof (le_value_bound _ Hok). unfold is_byte in Ht.
  unfold value_of. rewrite back_snoc, le_value_snoc, zlen_snoc, Z.add_simpl_r in *.
  pose proof (zlen_nonneg l). assert (256 ^ zlen l <= 256 ^ 3) by (apply Z.pow_le_mono_r; lia).
  case_match; nia.
Qed.

Lemma push_abs_ok fuel a : bytes_ok (push_abs fuel a) /\ (length (push_abs fuel a) <= fuel)%nat.
Proof.
  revert a. induction fuel as [|fuel IH]; intros a; cbn [push_abs]; [split; [constructor|done]|].
  case_match; [split; [constructor|simpl; lia]|]. destruct (IH (Z.shiftr a 8)) as [H1 H2].
  split; [|simpl; lia]. constructor; [|done].
  change 0xff with (2 ^ 8 - 1). rewrite land_ones_mod by lia. apply Z.mod_pos_bound. lia.
Qed.

Lemma or_back_ok l : bytes_ok l -> bytes_ok (or_back l 0x80) /\ length (or_back l 0x80) = length l.
Proof.
  induction 1 as [|b l Hb Hl [IH1 IH2]]; [split; [constructor|done]|]. destruct l as [|c l].
  - split; [|done]. constructor; [|constructor]. apply (lor_bound b 0x80 8); [lia|done|lia].
  - change (or_back (b :: c :: l) 0x80) with (b :: or_back (c :: l) 0x80).
    split; [by constructor|]. cbn [length]. by rewrite IH2.
Qed.

(** Every encoding is a vector of at most nine bytes. *)
Lemma serialize_ok n : bytes_ok (serialize n) /\ zlen (serialize n) <= 9.
Proof.
  unfold serialize. destruct (n =? 0); [split; [constructor|done]|]. cbv zeta.
  set (r := push_abs 8 _). destruct (push_abs_ok 8 (u64 (if n <? 0 then s64 (- n) else n))) as [H1 H2].
  fold r in H1, H2. destruct (negb _); [|destruct (n <? 0)].
  - split; [apply bytes_ok_snoc; split; [done|]; destruct (n <? 0); done|]. rewrite zlen_snoc. unfold zlen. lia.
  - destruct (or_back_ok r H1) as [H3 H4]. split; [done|]. unfold zlen. lia.
  - split; [done|]. unfold zlen. lia.
Qed.

(** With the default four-byte limit, a decoded operand lies strictly inside
    the int32 range, so no [+], [-], unary minus or [+=]/[-=] of two such operands overflows int64,
    and [getint] returns it unchanged. *)
Lemma operand_bounds a b vch1 vch2 fRequireMinimal :
  bytes_ok vch1 -> bytes_ok vch2 ->
  of_vch vch1 fRequireMinimal nDefaultMaxNumSize = Some a ->
  of_vch vch2 fRequireMinimal nDefaultMaxNumSize = Some b ->
  INT32_MIN < a <= INT32_MAX /\ getint a = a /\ op_add a b = a + b /\ op_sub a b = a - b
  /\ op_neg a = Some (- a) /\ op_add_assign a b = Some (a + b) /\ op_sub_assign a b = Some (a - b).
Proof.
  intros Hok1 Hok2 H1 H2.
  pose proof (operand_range _ _ _ Hok1 H1). pose proof (operand_range _ _ _ Hok2 H2).
  unfold getint, op_add, op_sub, op_neg, op_add_assign, op_sub_assign,
    INT32_MIN, INT32_MAX, INT64_MIN, INT64_MAX.
  rewrite !s64_small by lia. split_and!; try lia; repeat case_match; try done; try lia.
Qed.
Lemma operand_bounds_witness :
  of_vch [255; 127] false 4 = Some 32767 /\ op_add 32767 (-255) = 32512.
Proof.
  assert (of_vch [255; 127] false 4 = Some 32767) as H1 by reflexivity.
  assert (of_vch [255; 128] false 4 = Some (-255)) as H2 by reflexivity.
  split; [exact H1|].
  refine (proj1 (proj2 (proj2 (operand_bounds 32767 (-255) [255; 127] [255; 128] false _ _ H1 H2))));
  (apply Forall_cons; split; [|apply Forall_cons; split; [|apply Forall_nil]]; unfold is_byte; lia).
Defined.

End CScriptNum.
