(* ===== verification/Script.v ===== *)
(** * Scripts: opcodes, parsing, building and the predicates on scripts
    (src/script/script.h and the first part of src/script/script.cpp)

    A [CScript] is its byte vector ([bytes]); an iterator [pc] into a script is
    the suffix that starts at it, so [pc == end()] is [pc = []].  An opcode is an
    integer (the C++ enum is cast from a byte), compared with the enumerators of
    [opcodetype] through their values. *)
From stdpp Require Import strings.
From S2P Require Import Prelude ScriptNum.

Module ScriptOpcodes.

(** [enum opcodetype] *)
Inductive opcodetype : Set :=
  | OP_0 | OP_PUSHDATA1 | OP_PUSHDATA2 | OP_PUSHDATA4 | OP_1NEGATE | OP_RESERVED | OP_1 | OP_2
  | OP_3 | OP_4 | OP_5 | OP_6 | OP_7 | OP_8 | OP_9 | OP_10 | OP_11 | OP_12 | OP_13 | OP_14
  | OP_15 | OP_16 | OP_NOP | OP_VER | OP_IF | OP_NOTIF | OP_VERIF | OP_VERNOTIF | OP_ELSE
  | OP_ENDIF | OP_VERIFY | OP_RETURN | OP_TOALTSTACK | OP_FROMALTSTACK | OP_2DROP | OP_2DUP
  | OP_3DUP | OP_2OVER | OP_2ROT | OP_2SWAP | OP_IFDUP | OP_DEPTH | OP_DROP | OP_DUP | OP_NIP
  | OP_OVER | OP_PICK | OP_ROLL | OP_ROT | OP_SWAP | OP_TUCK | OP_CAT | OP_SUBSTR | OP_LEFT
  | OP_RIGHT | OP_SIZE | OP_INVERT | OP_AND | OP_OR | OP_XOR | OP_EQUAL | OP_EQUALVERIFY
  | OP_RESERVED1 | OP_RESERVED2 | OP_1ADD | OP_1SUB | OP_2MUL | OP_2DIV | OP_NEGATE | OP_ABS
  | OP_NOT | OP_0NOTEQUAL | OP_ADD | OP_SUB | OP_MUL | OP_DIV | OP_MOD | OP_LSHIFT | OP_RSHIFT
  | OP_BOOLAND | OP_BOOLOR | OP_NUMEQUAL | OP_NUMEQUALVERIFY | OP_NUMNOTEQUAL | OP_LESSTHAN
  | OP_GREATERTHAN | OP_LESSTHANOREQUAL | OP_GREATERTHANOREQUAL | OP_MIN | OP_MAX | OP_WITHIN
  | OP_RIPEMD160 | OP_SHA1 | OP_SHA256 | OP_HASH160 | OP_HASH256 | OP_CODESEPARATOR
  | OP_CHECKSIG | OP_CHECKSIGVERIFY | OP_CHECKMULTISIG | OP_CHECKMULTISIGVERIFY | OP_NOP1
  | OP_CHECKLOCKTIMEVERIFY | OP_CHECKSEQUENCEVERIFY | OP_NOP4 | OP_NOP5 | OP_NOP6 | OP_NOP7
  | OP_NOP8 | OP_NOP9 | OP_NOP10 | OP_SMALLDATA | OP_SMALLINTEGER | OP_PUBKEYS | OP_INTEGER
  | OP_PUBKEYHASH | OP_PUBKEY | OP_INVALIDOPCODE.

(** The values of the enumerators. *)
Definition code (o : opcodetype) : Z :=
  match o with
  | OP_0 => 0x00 | OP_PUSHDATA1 => 0x4c | OP_PUSHDATA2 => 0x4d | OP_PUSHDATA4 => 0x4e
  | OP_1NEGATE => 0x4f | OP_RESERVED => 0x50 | OP_1 => 0x51 | OP_2 => 0x52 | OP_3 => 0x53
  | OP_4 => 0x54 | OP_5 => 0x55 | OP_6 => 0x56 | OP_7 => 0x57 | OP_8 => 0x58 | OP_9 => 0x59
  | OP_10 => 0x5a | OP_11 => 0x5b | OP_12 => 0x5c | OP_13 => 0x5d | OP_14 => 0x5e
  | OP_15 => 0x5f | OP_16 => 0x60 | OP_NOP => 0x61 | OP_VER => 0x62 | OP_IF => 0x63
  | OP_NOTIF => 0x64 | OP_VERIF => 0x65 | OP_VERNOTIF => 0x66 | OP_ELSE => 0x67
  | OP_ENDIF => 0x68 | OP_VERIFY => 0x69 | OP_RETURN => 0x6a | OP_TOALTSTACK => 0x6b
  | OP_FROMALTSTACK => 0x6c | OP_2DROP => 0x6d | OP_2DUP => 0x6e | OP_3DUP => 0x6f
  | OP_2OVER => 0x70 | OP_2ROT => 0x71 | OP_2SWAP => 0x72 | OP_IFDUP => 0x73 | OP_DEPTH => 0x74
  | OP_DROP => 0x75 | OP_DUP => 0x76 | OP_NIP => 0x77 | OP_OVER => 0x78 | OP_PICK => 0x79
  | OP_ROLL => 0x7a | OP_ROT => 0x7b | OP_SWAP => 0x7c | OP_TUCK => 0x7d | OP_CAT => 0x7e
  | OP_SUBSTR => 0x7f | OP_LEFT => 0x80 | OP_RIGHT => 0x81 | OP_SIZE => 0x82
  | OP_INVERT => 0x83 | OP_AND => 0x84 | OP_OR => 0x85 | OP_XOR => 0x86 | OP_EQUAL => 0x87
  | OP_EQUALVERIFY => 0x88 | OP_RESERVED1 => 0x89 | OP_RESERVED2 => 0x8a | OP_1ADD => 0x8b
  | OP_1SUB => 0x8c | OP_2MUL => 0x8d | OP_2DIV => 0x8e | OP_NEGATE => 0x8f | OP_ABS => 0x90
  | OP_NOT => 0x91 | OP_0NOTEQUAL => 0x92 | OP_ADD => 0x93 | OP_SUB => 0x94 | OP_MUL => 0x95
  | OP_DIV => 0x96 | OP_MOD => 0x97 | OP_LSHIFT => 0x98 | OP_RSHIFT => 0x99
  | OP_BOOLAND => 0x9a | OP_BOOLOR => 0x9b | OP_NUMEQUAL => 0x9c | OP_NUMEQUALVERIFY => 0x9d
  | OP_NUMNOTEQUAL => 0x9e | OP_LESSTHAN => 0x9f | OP_GREATERTHAN => 0xa0
  | OP_LESSTHANOREQUAL => 0xa1 | OP_GREATERTHANOREQUAL => 0xa2 | OP_MIN => 0xa3
  | OP_MAX => 0xa4 | OP_WITHIN => 0xa5 | OP_RIPEMD160 => 0xa6 | OP_SHA1 => 0xa7
  | OP_SHA256 => 0xa8 | OP_HASH160 => 0xa9 | OP_HASH256 => 0xaa | OP_CODESEPARATOR => 0xab
  | OP_CHECKSIG => 0xac | OP_CHECKSIGVERIFY => 0xad | OP_CHECKMULTISIG => 0xae
  | OP_CHECKMULTISIGVERIFY => 0xaf | OP_NOP1 => 0xb0 | OP_CHECKLOCKTIMEVERIFY => 0xb1
  | OP_CHECKSEQUENCEVERIFY => 0xb2 | OP_NOP4 => 0xb3 | OP_NOP5 => 0xb4 | OP_NOP6 => 0xb5
  | OP_NOP7 => 0xb6 | OP_NOP8 => 0xb7 | OP_NOP9 => 0xb8 | OP_NOP10 => 0xb9
  | OP_SMALLDATA => 0xf9 | OP_SMALLINTEGER => 0xfa | OP_PUBKEYS => 0xfb | OP_INTEGER => 0xfc
  | OP_PUBKEYHASH => 0xfd | OP_PUBKEY => 0xfe | OP_INVALIDOPCODE => 0xff
  end.
Coercion code : opcodetype >-> Z.

Abbreviation OP_FALSE := OP_0.
Abbreviation OP_TRUE := OP_1.
Abbreviation OP_NOP2 := OP_CHECKLOCKTIMEVERIFY.
Abbreviation OP_NOP3 := OP_CHECKSEQUENCEVERIFY.

Definition MAX_OPCODE : Z := OP_PUBKEY.

(** All enumerators, and the enumerator with a given value. *)
Definition enumerators : list opcodetype :=
  [OP_0; OP_PUSHDATA1; OP_PUSHDATA2; OP_PUSHDATA4; OP_1NEGATE; OP_RESERVED; OP_1; OP_2; OP_3;
   OP_4; OP_5; OP_6; OP_7; OP_8; OP_9; OP_10; OP_11; OP_12; OP_13; OP_14; OP_15; OP_16; OP_NOP;
   OP_VER; OP_IF; OP_NOTIF; OP_VERIF; OP_VERNOTIF; OP_ELSE; OP_ENDIF; OP_VERIFY; OP_RETURN;
   OP_TOALTSTACK; OP_FROMALTSTACK; OP_2DROP; OP_2DUP; OP_3DUP; OP_2OVER; OP_2ROT; OP_2SWAP;
   OP_IFDUP; OP_DEPTH; OP_DROP; OP_DUP; OP_NIP; OP_OVER; OP_PICK; OP_ROLL; OP_ROT; OP_SWAP;
   OP_TUCK; OP_CAT; OP_SUBSTR; OP_LEFT; OP_RIGHT; OP_SIZE; OP_INVERT; OP_AND; OP_OR; OP_XOR;
   OP_EQUAL; OP_EQUALVERIFY; OP_RESERVED1; OP_RESERVED2; OP_1ADD; OP_1SUB; OP_2MUL; OP_2DIV;
   OP_NEGATE; OP_ABS; OP_NOT; OP_0NOTEQUAL; OP_ADD; OP_SUB; OP_MUL; OP_DIV; OP_MOD; OP_LSHIFT;
   OP_RSHIFT; OP_BOOLAND; OP_BOOLOR; OP_NUMEQUAL; OP_NUMEQUALVERIFY; OP_NUMNOTEQUAL;
   OP_LESSTHAN; OP_GREATERTHAN; OP_LESSTHANOREQUAL; OP_GREATERTHANOREQUAL; OP_MIN; OP_MAX;
   OP_WITHIN; OP_RIPEMD160; OP_SHA1; OP_SHA256; OP_HASH160; OP_HASH256; OP_CODESEPARATOR;
   OP_CHECKSIG; OP_CHECKSIGVERIFY; OP_CHECKMULTISIG; OP_CHECKMULTISIGVERIFY; OP_NOP1;
   OP_CHECKLOCKTIMEVERIFY; OP_CHECKSEQUENCEVERIFY; OP_NOP4; OP_NOP5; OP_NOP6; OP_NOP7; OP_NOP8;
   OP_NOP9; OP_NOP10; OP_SMALLDATA; OP_SMALLINTEGER; OP_PUBKEYS; OP_INTEGER; OP_PUBKEYHASH;
   OP_PUBKEY; OP_INVALIDOPCODE].

Definition find_opcode (opcode : Z) : option opcodetype :=
  List.find (fun o => code o =? opcode) enumerators.

Lemma find_opcode_Some opcode o : find_opcode opcode = Some o -> code o = opcode.
Proof. unfold find_opcode. intros H%find_some. lia. Qed.

Lemma find_opcode_code o : find_opcode (code o) = Some o.
Proof. by destruct o. Qed.

#[global] Instance code_inj : Inj (=) (=) code.
Proof. intros a b H. apply (f_equal find_opcode) in H. rewrite !find_opcode_code in H. by simplify_eq. Qed.

#[global] Instance opcodetype_eq_dec : EqDecision opcodetype.
Proof.
  intros a b. destruct (decide (code a = code b)) as [H|H]; [left; by apply code_inj|right; congruence].
Defined.

Lemma code_byte (o : opcodetype) : is_byte (code o).
Proof. by destruct o. Qed.

(** [GetOpName]: the switch has no case for OP_SMALLINTEGER, OP_PUBKEYS and OP_INTEGER. *)
Definition GetOpName (opcode : Z) : string :=
  match find_opcode opcode with
  | Some OP_0 => "0"
  | Some OP_PUSHDATA1 => "OP_PUSHDATA1"
  | Some OP_PUSHDATA2 => "OP_PUSHDATA2"
  | Some OP_PUSHDATA4 => "OP_PUSHDATA4"
  | Some OP_1NEGATE => "-1"
  | Some OP_RESERVED => "OP_RESERVED"
  | Some OP_1 => "1"
  | Some OP_2 => "2"
  | Some OP_3 => "3"
  | Some OP_4 => "4"
  | Some OP_5 => "5"
  | Some OP_6 => "6"
  | Some OP_7 => "7"
  | Some OP_8 => "8"
  | Some OP_9 => "9"
  | Some OP_10 => "10"
  | Some OP_11 => "11"
  | Some OP_12 => "12"
  | Some OP_13 => "13"
  | Some OP_14 => "14"
  | Some OP_15 => "15"
  | Some OP_16 => "16"
  | Some OP_NOP => "OP_NOP"
  | Some OP_VER => "OP_VER"
  | Some OP_IF => "OP_IF"
  | Some OP_NOTIF => "OP_NOTIF"
  | Some OP_VERIF => "OP_VERIF"
  | Some OP_VERNOTIF => "OP_VERNOTIF"
  | Some OP_ELSE => "OP_ELSE"
  | Some OP_ENDIF => "OP_ENDIF"
  | Some OP_VERIFY => "OP_VERIFY"
  | Some OP_RETURN => "OP_RETURN"
  | Some OP_TOALTSTACK => "OP_TOALTSTACK"
  | Some OP_FROMALTSTACK => "OP_FROMALTSTACK"
  | Some OP_2DROP => "OP_2DROP"
  | Some OP_2DUP => "OP_2DUP"
  | Some OP_3DUP => "OP_3DUP"
  | Some OP_2OVER => "OP_2OVER"
  | Some OP_2ROT => "OP_2ROT"
  | Some OP_2SWAP => "OP_2SWAP"
  | Some OP_IFDUP => "OP_IFDUP"
  | Some OP_DEPTH => "OP_DEPTH"
  | Some OP_DROP => "OP_DROP"
  | Some OP_DUP => "OP_DUP"
  | Some OP_NIP => "OP_NIP"
  | Some OP_OVER => "OP_OVER"
  | Some OP_PICK => "OP_PICK"
  | Some OP_ROLL => "OP_ROLL"
  | Some OP_ROT => "OP_ROT"
  | Some OP_SWAP => "OP_SWAP"
  | Some OP_TUCK => "OP_TUCK"
  | Some OP_CAT => "OP_CAT"
  | Some OP_SUBSTR => "OP_SUBSTR"
  | Some OP_LEFT => "OP_LEFT"
  | Some OP_RIGHT => "OP_RIGHT"
  | Some OP_SIZE => "OP_SIZE"
  | Some OP_INVERT => "OP_INVERT"
  | Some OP_AND => "OP_AND"
  | Some OP_OR => "OP_OR"
  | Some OP_XOR => "OP_XOR"
  | Some OP_EQUAL => "OP_EQUAL"
  | Some OP_EQUALVERIFY => "OP_EQUALVERIFY"
  | Some OP_RESERVED1 => "OP_RESERVED1"
  | Some OP_RESERVED2 => "OP_RESERVED2"
  | Some OP_1ADD => "OP_1ADD"
  | Some OP_1SUB => "OP_1SUB"
  | Some OP_2MUL => "OP_2MUL"
  | Some OP_2DIV => "OP_2DIV"
  | Some OP_NEGATE => "OP_NEGATE"
  | Some OP_ABS => "OP_ABS"
  | Some OP_NOT => "OP_NOT"
  | Some OP_0NOTEQUAL => "OP_0NOTEQUAL"
  | Some OP_ADD => "OP_ADD"
  | Some OP_SUB => "OP_SUB"
  | Some OP_MUL => "OP_MUL"
  | Some OP_DIV => "OP_DIV"
  | Some OP_MOD => "OP_MOD"
  | Some OP_LSHIFT => "OP_LSHIFT"
  | Some OP_RSHIFT => "OP_RSHIFT"
  | Some OP_BOOLAND => "OP_BOOLAND"
  | Some OP_BOOLOR => "OP_BOOLOR"
  | Some OP_NUMEQUAL => "OP_NUMEQUAL"
  | Some OP_NUMEQUALVERIFY => "OP_NUMEQUALVERIFY"
  | Some OP_NUMNOTEQUAL => "OP_NUMNOTEQUAL"
  | Some OP_LESSTHAN => "OP_LESSTHAN"
  | Some OP_GREATERTHAN => "OP_GREATERTHAN"
  | Some OP_LESSTHANOREQUAL => "OP_LESSTHANOREQUAL"
  | Some OP_GREATERTHANOREQUAL => "OP_GREATERTHANOREQUAL"
  | Some OP_MIN => "OP_MIN"
  | Some OP_MAX => "OP_MAX"
  | Some OP_WITHIN => "OP_WITHIN"
  | Some OP_RIPEMD160 => "OP_RIPEMD160"
  | Some OP_SHA1 => "OP_SHA1"
  | Some OP_SHA256 => "OP_SHA256"
  | Some OP_HASH160 => "OP_HASH160"
  | Some OP_HASH256 => "OP_HASH256"
  | Some OP_CODESEPARATOR => "OP_CODESEPARATOR"
  | Some OP_CHECKSIG => "OP_CHECKSIG"
  | Some OP_CHECKSIGVERIFY => "OP_CHECKSIGVERIFY"
  | Some OP_CHECKMULTISIG => "OP_CHECKMULTISIG"
  | Some OP_CHECKMULTISIGVERIFY => "OP_CHECKMULTISIGVERIFY"
  | Some OP_NOP1 => "OP_NOP1"
  | Some OP_CHECKLOCKTIMEVERIFY => "OP_CHECKLOCKTIMEVERIFY"
  | Some OP_CHECKSEQUENCEVERIFY => "OP_CHECKSEQUENCEVERIFY"
  | Some OP_NOP4 => "OP_NOP4"
  | Some OP_NOP5 => "OP_NOP5"
  | Some OP_NOP6 => "OP_NOP6"
  | Some OP_NOP7 => "OP_NOP7"
  | Some OP_NOP8 => "OP_NOP8"
  | Some OP_NOP9 => "OP_NOP9"
  | Some OP_NOP10 => "OP_NOP10"
  | Some OP_PUBKEYHASH => "OP_PUBKEYHASH"
  | Some OP_PUBKEY => "OP_PUBKEY"
  | Some OP_SMALLDATA => "OP_SMALLDATA"
  | Some OP_INVALIDOPCODE => "OP_INVALIDOPCODE"
  | _ => "OP_UNKNOWN"
  end.

End ScriptOpcodes.

Module Script_const.
Definition MAX_SCRIPT_ELEMENT_SIZE : Z := 520.
Definition MAX_OPS_PER_SCRIPT : Z := 201.
Definition MAX_PUBKEYS_PER_MULTISIG : Z := 20.
Definition MAX_SCRIPT_SIZE : Z := 10000.
Definition MAX_STACK_SIZE : Z := 1000.
End Script_const.

Module CScript.
Import ScriptOpcodes.

(** ** Reading *)

(** What a call of [GetScriptOp] leaves behind: its result, the iterator, the opcode and the data. *)
Record getop : Set := GetOpRet { op_ok : bool; op_pc : bytes; op_code : Z; op_data : bytes }.

Definition getop_fail (pc : bytes) : getop := GetOpRet false pc OP_INVALIDOPCODE [].

(** The immediate size of a push: [None] when its bytes are missing. *)
Definition GetScriptOp_size (opcode : Z) (pc : bytes) : option (Z * bytes) :=
  if opcode <? OP_PUSHDATA1 then Some (opcode, pc)
  else if opcode =? OP_PUSHDATA1 then
    if zlen pc <? 1 then None else Some (le_value (take 1 pc), drop 1 pc)
  else if opcode =? OP_PUSHDATA2 then
    if zlen pc <? 2 then None else Some (le_value (take 2 pc), drop 2 pc)
  else if opcode =? OP_PUSHDATA4 then
    if zlen pc <? 4 then None else Some (le_value (take 4 pc), drop 4 pc)
  else Some (0, pc).

Definition GetScriptOp (pc : bytes) : getop :=
  match pc with
  | [] => getop_fail []
  | opcode :: pc =>
      if opcode <=? OP_PUSHDATA4 then
        match GetScriptOp_size opcode pc with
        | None => getop_fail pc
        | Some (nSize, pc) =>
            if u32 (zlen pc) <? nSize then getop_fail pc
            else GetOpRet true (drop (Z.to_nat nSize) pc) opcode (take (Z.to_nat nSize) pc)
        end
      else GetOpRet true pc opcode []
  end.

(** ** Building *)

(** [CScript &operator<<(opcodetype)] *)
Definition push_opcode (script : bytes) (opcode : opcodetype) : bytes := script ++ [u8 opcode].

(** [CScript &operator<<(const script_vector &)] *)
Definition push_data (script b : bytes) : bytes :=
  (if zlen b <? OP_PUSHDATA1 then script ++ [u8 (zlen b)]
   else if zlen b <=? 0xff then script ++ [code OP_PUSHDATA1] ++ [u8 (zlen b)]
   else if zlen b <=? 0xffff then script ++ [code OP_PUSHDATA2] ++ le_bytes 2 (u16 (zlen b))
   else script ++ [code OP_PUSHDATA4] ++ le_bytes 4 (u32 (zlen b))) ++ b.

Definition push_int64 (script : bytes) (n : Z) : bytes :=
  if (n =? -1) || ((n >=? 1) && (n <=? 16)) then script ++ [u8 (u8 n + (OP_1 - 1))]
  else if n =? 0 then script ++ [code OP_0]
  else push_data script (CScriptNum.serialize n).

(** [push_uint64]: [CScriptNum::serialize] takes the value as an int64. *)
Definition push_uint64 (script : bytes) (n : Z) : bytes :=
  if (n >=? 1) && (n <=? 16) then script ++ [u8 (u8 n + (OP_1 - 1))]
  else if n =? 0 then script ++ [code OP_0]
  else push_data script (CScriptNum.serialize (s64 n)).

(** [operator<<(const uint160 &)] and [operator<<(const uint256 &)]: length byte, then the bytes. *)
Definition push_uint (script b : bytes) : bytes := script ++ [u8 (zlen b)] ++ b.

Definition DecodeOP_N (opcode : Z) : option Z :=
  if opcode =? OP_0 then Some 0
  else if (opcode >=? OP_1) && (opcode <=? OP_16) then Some (opcode - (OP_1 - 1))
  else None.

Definition EncodeOP_N (n : Z) : option Z :=
  if (n >=? 0) && (n <=? 16) then Some (if n =? 0 then code OP_0 else OP_1 + n - 1)
  else None.

(** ** Scanning loops: each turn consumes at least one byte, so the length is enough fuel. *)

(** The inner loop of [FindAndDelete]: erase [b] at [pc] while it is there. *)
Fixpoint erase_while (fuel : nat) (b pc : bytes) (nFound : Z) : bytes * Z :=
  match fuel with
  | O => (pc, nFound)
  | S fuel =>
      if (zlen pc >=? zlen b) && bool_decide (take (length b) pc = b)
      then erase_while fuel b (drop (length b) pc) (nFound + 1)
      else (pc, nFound)
  end.

(** The outer loop; [pre] is what precedes [pc] in the script being edited. *)
Fixpoint FindAndDelete_loop (fuel : nat) (b pre pc : bytes) (nFound : Z) : bytes * Z :=
  match fuel with
  | O => (pre ++ pc, nFound)
  | S fuel =>
      let '(pc, nFound) := erase_while (length pc) b pc nFound in
      let r := GetScriptOp pc in
      if op_ok r
      then FindAndDelete_loop fuel b (pre ++ take (length pc - length (op_pc r)) pc) (op_pc r) nFound
      else (pre ++ pc, nFound)
  end.

Definition FindAndDelete (script b : bytes) : bytes * Z :=
  match b with
  | [] => (script, 0)
  | _ => FindAndDelete_loop (S (length script)) b [] script 0
  end.

Fixpoint Find_loop (fuel : nat) (op : Z) (pc : bytes) (nFound : Z) : Z :=
  match fuel, pc with
  | S fuel, _ :: _ =>
      let r := GetScriptOp pc in
      if op_ok r
      then Find_loop fuel op (op_pc r) (if op_code r =? op then nFound + 1 else nFound)
      else nFound
  | _, _ => nFound
  end.

Definition Find (script : bytes) (op : opcodetype) : Z := Find_loop (length script) op script 0.

(** ** Signature operation counts *)

Fixpoint GetSigOpCount_loop (fuel : nat) (fAccurate : bool) (pc : bytes) (lastOpcode n : Z) : Z :=
  match fuel, pc with
  | S fuel, _ :: _ =>
      let r := GetScriptOp pc in
      let opcode := op_code r in
      if negb (op_ok r) then n
      else
        let n :=
          if (opcode =? OP_CHECKSIG) || (opcode =? OP_CHECKSIGVERIFY) then n + 1
          else if (opcode =? OP_CHECKMULTISIG) || (opcode =? OP_CHECKMULTISIGVERIFY) then
            if fAccurate && (lastOpcode >=? OP_1) && (lastOpcode <=? OP_16)
            then n + default 0 (DecodeOP_N lastOpcode)
            else n + Script_const.MAX_PUBKEYS_PER_MULTISIG
          else n in
        GetSigOpCount_loop fuel fAccurate (op_pc r) opcode (u32 n)
  | _, _ => n
  end.

(** [GetSigOpCount(bool fAccurate)] *)
Definition GetSigOpCount (script : bytes) (fAccurate : bool) : Z :=
  GetSigOpCount_loop (length script) fAccurate script OP_INVALIDOPCODE 0.

(** [at(i)]; used after a test of the size. *)
Definition at_ (script : bytes) (i : nat) : Z := default 0 (script !! i).

Definition IsPayToScriptHash (script : bytes) : bool :=
  (zlen script =? 23) && (at_ script 0 =? OP_HASH160) && (at_ script 1 =? 0x14)
  && (at_ script 22 =? OP_EQUAL).

(** The last push of a scriptSig; [None] is the early [return 0]. *)
Fixpoint last_push_loop (fuel : nat) (pc data : bytes) : option bytes :=
  match fuel, pc with
  | S fuel, _ :: _ =>
      let r := GetScriptOp pc in
      if negb (op_ok r) then None
      else if op_code r >? OP_16 then None
      else last_push_loop fuel (op_pc r) (op_data r)
  | _, _ => Some data
  end.

(** [GetSigOpCount(const CScript &scriptSig)] *)
Definition GetSigOpCount_sig (script scriptSig : bytes) : Z :=
  if negb (IsPayToScriptHash script) then GetSigOpCount script true
  else match last_push_loop (length scriptSig) scriptSig [] with
       | None => 0
       | Some data => GetSigOpCount data true
       end.

(** ** Predicates *)

(** [IsPushOnly(pc)] *)
Fixpoint IsPushOnly_loop (fuel : nat) (pc : bytes) : bool :=
  match fuel, pc with
  | S fuel, _ :: _ =>
      let r := GetScriptOp pc in
      if negb (op_ok r) then false
      else if op_code r >? OP_16 then false
      else IsPushOnly_loop fuel (op_pc r)
  | _, _ => true
  end.
Definition IsPushOnly_from (pc : bytes) : bool := IsPushOnly_loop (length pc) pc.
Definition IsPushOnly (script : bytes) : bool := IsPushOnly_from script.

Fixpoint HasCanonicalPushes_loop (fuel : nat) (pc : bytes) : bool :=
  match fuel, pc with
  | S fuel, _ :: _ =>
      let r := GetScriptOp pc in
      let opcode := op_code r in
      let data := op_data r in
      if negb (op_ok r) then false
      else if opcode >? OP_16 then HasCanonicalPushes_loop fuel (op_pc r)
      else if (opcode <? OP_PUSHDATA1) && (opcode >? OP_0)
              && ((zlen data =? 1) && (at_ data 0 <=? 16)) then false
      else if (opcode =? OP_PUSHDATA1) && (zlen data <? OP_PUSHDATA1) then false
      else if (opcode =? OP_PUSHDATA2) && (zlen data <=? 0xff) then false
      else if (opcode =? OP_PUSHDATA4) && (zlen data <=? 0xffff) then false
      else HasCanonicalPushes_loop fuel (op_pc r)
  | _, _ => true
  end.
Definition HasCanonicalPushes (script : bytes) : bool :=
  HasCanonicalPushes_loop (length script) script.

Definition IsPayToWitnessScriptHash (script : bytes) : bool :=
  (zlen script =? 34) && (at_ script 0 =? OP_0) && (at_ script 1 =? 0x20).

(** [IsWitnessProgram]: the version and the program, when it is one. *)
Definition IsWitnessProgram (script : bytes) : option (Z * bytes) :=
  if (zlen script <? 4) || (zlen script >? 42) then None
  else if negb (at_ script 0 =? OP_0)
          && ((at_ script 0 <? OP_1) || (at_ script 0 >? OP_16)) then None
  else if at_ script 1 + 2 =? zlen script
  then Some (default 0 (DecodeOP_N (at_ script 0)), drop 2 script)
  else None.

Fixpoint HasValidOps_loop (fuel : nat) (pc : bytes) : bool :=
  match fuel, pc with
  | S fuel, _ :: _ =>
      let r := GetScriptOp pc in
      if negb (op_ok r) || (op_code r >? MAX_OPCODE)
         || (zlen (op_data r) >? Script_const.MAX_SCRIPT_ELEMENT_SIZE)
      then false
      else HasValidOps_loop fuel (op_pc r)
  | _, _ => true
  end.
Definition HasValidOps (script : bytes) : bool := HasValidOps_loop (length script) script.

(** ** Lemmas on reading *)

Lemma GetScriptOp_size_suffix opcode pc n pc' :
  GetScriptOp_size opcode pc = Some (n, pc') -> exists used, pc = used ++ pc'.
Proof.
  unfold GetScriptOp_size. intros H.
  repeat case_match; simplify_eq; solve [by exists []|eexists; symmetry; apply take_drop].
Qed.

(** A successful read consumes a non-empty prefix. *)
Lemma GetScriptOp_suffix pc :
  op_ok (GetScriptOp pc) = true -> exists b used, pc = b :: used ++ op_pc (GetScriptOp pc).
Proof.
  destruct pc as [|b pc]; [done|]. cbn [GetScriptOp]. intros H. exists b.
  repeat case_match; simplify_eq; simpl in *; try done.
  - destruct (GetScriptOp_size_suffix _ _ _ _ H1) as [u ->].
    eexists. by rewrite <-app_assoc, take_drop.
  - by exists [].
Qed.

Lemma GetScriptOp_progress pc :
  op_ok (GetScriptOp pc) = true -> (length (op_pc (GetScriptOp pc)) < length pc)%nat.
Proof.
  intros H. destruct (GetScriptOp_suffix pc H) as (b & u & E). rewrite E at 2.
  simpl. rewrite length_app. lia.
Qed.

Lemma GetScriptOp_nonpush opcode pc :
  OP_PUSHDATA4 < opcode -> GetScriptOp (opcode :: pc) = GetOpRet true pc opcode [].
Proof. intros H. cbn [GetScriptOp]. by replace (opcode <=? OP_PUSHDATA4) with false by lia. Qed.

(** The opcode [push_data] chooses. *)
Definition push_code (b : bytes) : Z :=
  if zlen b <? OP_PUSHDATA1 then zlen b
  else if zlen b <=? 0xff then OP_PUSHDATA1
  else if zlen b <=? 0xffff then OP_PUSHDATA2 else OP_PUSHDATA4.

Lemma push_code_bound b : 0 <= push_code b <= OP_PUSHDATA4.
Proof.
  unfold push_code. pose proof (zlen_nonneg b). simpl code. repeat case_match; lia.
Qed.

Lemma push_data_app script b : push_data script b = script ++ push_data [] b.
Proof. unfold push_data. repeat case_match; by rewrite <-?app_assoc. Qed.

Lemma GetScriptOp_sized opcode hdr b rest n :
  opcode <= OP_PUSHDATA4 -> zlen (b ++ rest) < 2 ^ 32 ->
  GetScriptOp_size opcode (hdr ++ b ++ rest) = Some (n, b ++ rest) -> n = zlen b ->
  GetScriptOp (opcode :: hdr ++ b ++ rest) = GetOpRet true rest opcode b.
Proof.
  intros Hop Hlen Hs ->. cbn [GetScriptOp]. replace (opcode <=? OP_PUSHDATA4) with true by lia.
  pose proof (zlen_nonneg (b ++ rest)). pose proof (zlen_nonneg rest).
  rewrite Hs. unfold u32. rewrite Z.mod_small by lia. rewrite zlen_app.
  replace (zlen b + zlen rest <? zlen b) with false by lia.
  unfold zlen. rewrite Nat2Z.id, take_app_length, drop_app_length. done.
Qed.

(** Reading back a push written by [operator<<]. *)
Lemma GetScriptOp_push_data b rest :
  zlen (b ++ rest) < 2 ^ 32 ->
  GetScriptOp (push_data [] b ++ rest) = GetOpRet true rest (push_code b) b.
Proof.
  intros Hlen. pose proof (push_code_bound b). pose proof (zlen_nonneg b) as Hb0.
  pose proof (zlen_nonneg rest). rewrite zlen_app in Hlen.
  unfold push_data, push_code in *. unfold u8, u16, u32. simpl code in *.
  destruct (zlen b <? 76) eqn:E1; [|destruct (zlen b <=? 255) eqn:E2; [|destruct (zlen b <=? 65535) eqn:E3]];
    rewrite (Z.mod_small (zlen b)) by lia; rewrite <-!app_assoc; cbn [app].
  - apply (GetScriptOp_sized (zlen b) [] b rest (zlen b)); [simpl; lia|rewrite zlen_app; lia| |done].
    unfold GetScriptOp_size. simpl code. by rewrite E1.
  - apply (GetScriptOp_sized _ [zlen b] b rest (zlen b)); [done|rewrite zlen_app; lia| |done].
    unfold GetScriptOp_size. simpl code. cbn [app]. rewrite zlen_cons, zlen_app.
    replace (_ <? 1) with false by lia. simpl. do 2 f_equal. lia.
  - apply (GetScriptOp_sized _ (le_bytes 2 (zlen b)) b rest (zlen b)); [done|rewrite zlen_app; lia| |done].
    unfold GetScriptOp_size. simpl code. rewrite !zlen_app.
    assert (zlen (le_bytes 2 (zlen b)) = 2) as -> by (unfold zlen; by rewrite length_le_bytes).
    replace (_ <? 2) with false by lia. simpl (_ =? _). cbv iota.
    rewrite take_app_length', drop_app_length' by (by rewrite length_le_bytes).
    by rewrite le_value_le_bytes by lia.
  - apply (GetScriptOp_sized _ (le_bytes 4 (zlen b)) b rest (zlen b)); [done|rewrite zlen_app; lia| |done].
    unfold GetScriptOp_size. simpl code. rewrite !zlen_app.
    assert (zlen (le_bytes 4 (zlen b)) = 4) as -> by (unfold zlen; by rewrite length_le_bytes).
    replace (_ <? 4) with false by lia. simpl (_ =? _). cbv iota.
    rewrite take_app_length', drop_app_length' by (by rewrite length_le_bytes).
    by rewrite le_value_le_bytes by lia.
Qed.

(** ** Scripts as instruction sequences *)

(** The instructions read from a script by repeated [GetOp], [None] when a read fails. *)
Fixpoint decode_loop (fuel : nat) (pc : bytes) : option (list (Z * bytes)) :=
  match fuel, pc with
  | S fuel, _ :: _ =>
      let r := GetScriptOp pc in
      if op_ok r then ((op_code r, op_data r) ::.) <$> decode_loop fuel (op_pc r) else None
  | _, _ => Some []
  end.
Definition decode (script : bytes) : option (list (Z * bytes)) := decode_loop (length script) script.

(** What a caller writes with the [<<] operators, and the instruction it stands for. *)
Inductive item : Set :=
  | Op (o : opcodetype)
  | Data (b : bytes).

Definition write (script : bytes) (i : item) : bytes :=
  match i with Op o => push_opcode script o | Data b => push_data script b end.
Definition build (items : list item) : bytes := fold_left write items [].

Definition instruction (i : item) : Z * bytes :=
  match i with Op o => (code o, []) | Data b => (push_code b, b) end.

(** An opcode that takes no immediate data. *)
Definition item_ok (i : item) : Prop :=
  match i with Op o => o = OP_0 \/ OP_PUSHDATA4 < o | Data _ => True end.

Lemma decode_loop_fuel2 f1 f2 pc :
  (length pc <= f1)%nat -> (length pc <= f2)%nat -> decode_loop f1 pc = decode_loop f2 pc.
Proof.
  revert f2 pc. induction f1 as [|f1 IH]; intros f2 pc H1 H2.
  { destruct pc; [by destruct f2|simpl in *; lia]. }
  destruct pc as [|b pc]; [by destruct f2|]. destruct f2 as [|f2]; [simpl in *; lia|].
  cbn [decode_loop]. case_match eqn:E; [|done]. pose proof (GetScriptOp_progress _ E).
  f_equal. apply IH; simpl in *; lia.
Qed.

Lemma decode_loop_fuel fuel pc :
  (length pc <= fuel)%nat -> decode_loop fuel pc = decode pc.
Proof. intros H. by apply decode_loop_fuel2. Qed.

Lemma decode_nil : decode [] = Some [].
Proof. done. Qed.

Lemma decode_step pc :
  op_ok (GetScriptOp pc) = true ->
  decode pc = ((op_code (GetScriptOp pc), op_data (GetScriptOp pc)) ::.) <$> decode (op_pc (GetScriptOp pc)).
Proof.
  intros H. pose proof (GetScriptOp_progress pc H). unfold decode at 1.
  destruct pc as [|b pc]; [done|]. cbn [decode_loop length]. rewrite H.
  rewrite decode_loop_fuel by (simpl in *; lia). done.
Qed.

Lemma write_app script i : write script i = script ++ write [] i.
Proof. destruct i; [done|]. apply push_data_app. Qed.

Lemma build_cons i items : build (i :: items) = write [] i ++ build items.
Proof.
  unfold build. simpl. generalize (write [] i). intros pre.
  revert pre. induction items as [|j items IH]; intros pre; simpl; [by rewrite app_nil_r|].
  rewrite IH, (IH (write [] j)), (write_app pre), app_assoc. done.
Qed.

Lemma GetScriptOp_write i rest :
  item_ok i -> zlen (write [] i ++ rest) < 2 ^ 32 ->
  GetScriptOp (write [] i ++ rest) = GetOpRet true rest (instruction i).1 (instruction i).2.
Proof.
  intros Hi Hlen. destruct i as [o|b]; simpl in *.
  - unfold u8. rewrite Z.mod_small by (apply code_byte). destruct Hi as [->|Hi].
    + simpl code in *. by apply (GetScriptOp_sized 0 [] [] rest 0);
        [done|simpl app; rewrite ?zlen_cons in Hlen; lia|..].
    + by apply GetScriptOp_nonpush.
  - apply GetScriptOp_push_data. rewrite zlen_app in *. unfold push_data in Hlen.
    pose proof (zlen_nonneg b). revert Hlen.
    repeat case_match; rewrite ?zlen_app, ?zlen_cons, ?zlen_nil;
      unfold zlen; rewrite ?length_le_bytes; lia.
Qed.

Lemma decode_written items :
  Forall item_ok items -> zlen (build items) < 2 ^ 32 ->
  decode (build items) = Some (instruction <$> items).
Proof.
  induction 1 as [|i items Hi Hitems IH]; intros Hlen; [done|].
  rewrite build_cons in *. pose proof (GetScriptOp_write i (build items) Hi Hlen) as Hop.
  rewrite decode_step by by rewrite Hop. rewrite Hop. cbn [op_pc op_code op_data].
  rewrite IH; [rewrite <-surjective_pairing; done|]. rewrite zlen_app in Hlen.
  pose proof (zlen_nonneg (write [] i)). lia.
Qed.

(** The instructions read from a script built with the [<<] operators are exactly
    those written, with their data, for every mix of opcodes and pushes of any size. *)
Lemma decode_build items :
  Forall item_ok items -> zlen (build items) < 2 ^ 32 ->
  decode (build items) = Some (instruction <$> items).
Proof. apply decode_written. Qed.
Lemma decode_build_witness :
  decode (build [Op OP_DUP; Data (replicate 80 7); Op OP_0; Op OP_CHECKSIG])
  = Some [(code OP_DUP, []); (code OP_PUSHDATA1, replicate 80 7); (0, []); (code OP_CHECKSIG, [])].
Proof.
  apply (decode_build [Op OP_DUP; Data (replicate 80 7); Op OP_0; Op OP_CHECKSIG]); [|vm_compute; reflexivity].
  apply Forall_cons_2; [right; reflexivity|]. apply Forall_cons_2; [exact I|].
  apply Forall_cons_2; [left; reflexivity|]. apply Forall_cons_2; [right; reflexivity|].
  apply Forall_nil_2.
Defined.

(** ** The scanning predicates *)

#[global] Arguments GetScriptOp : simpl never.

Definition is_push (i : Z * bytes) : bool := i.1 <=? OP_16.

Definition canonical_push (i : Z * bytes) : bool :=
  let '(opcode, data) := i in
  (opcode >? OP_16)
  || negb ((opcode <? OP_PUSHDATA1) && (opcode >? OP_0) && ((zlen data =? 1) && (at_ data 0 <=? 16)))
     && negb ((opcode =? OP_PUSHDATA1) && (zlen data <? OP_PUSHDATA1))
     && negb ((opcode =? OP_PUSHDATA2) && (zlen data <=? 0xff))
     && negb ((opcode =? OP_PUSHDATA4) && (zlen data <=? 0xffff)).

Definition valid_op (i : Z * bytes) : bool :=
  (i.1 <=? MAX_OPCODE) && (zlen i.2 <=? Script_const.MAX_SCRIPT_ELEMENT_SIZE).

(** The universal reading of a scan: all instructions parse and satisfy the test. *)
Definition all_instructions (test : Z * bytes -> bool) (script : bytes) : bool :=
  match decode script with Some instrs => forallb test instrs | None => false end.

Lemma all_instructions_step test pc :
  pc <> [] ->
  all_instructions test pc =
    let r := GetScriptOp pc in
    op_ok r && test (op_code r, op_data r) && all_instructions test (op_pc r).
Proof.
  intros Hpc. unfold all_instructions. simpl. destruct (op_ok (GetScriptOp pc)) eqn:E.
  - rewrite decode_step by done. destruct (decode _); simpl; [done|by rewrite andb_false_r].
  - destruct pc as [|b pc]; [done|]. unfold decode. cbn [decode_loop length]. by rewrite E.
Qed.

(** Induction along a scan with fuel. *)
Lemma scan_ind (loop : nat -> bytes -> bool) test :
  (forall fuel, loop fuel [] = true) ->
  (forall fuel b pc, let r := GetScriptOp (b :: pc) in
    loop (S fuel) (b :: pc) = op_ok r && test (op_code r, op_data r) && loop fuel (op_pc r)) ->
  forall script, loop (length script) script = all_instructions test script.
Proof.
  intros Hnil Hstep.
  assert (forall fuel pc, (length pc <= fuel)%nat -> loop fuel pc = all_instructions test pc) as H.
  { intros fuel. induction fuel as [|fuel IH]; intros pc Hf.
    { destruct pc; [by rewrite Hnil|simpl in Hf; lia]. }
    destruct pc as [|b pc]; [by rewrite Hnil|]. rewrite Hstep, all_instructions_step by done.
    simpl. destruct (op_ok _) eqn:E; [|done]. pose proof (GetScriptOp_progress _ E).
    rewrite IH by (simpl in *; lia). done. }
  intros script. by apply H.
Qed.

(** [IsPushOnly], [HasCanonicalPushes] and [HasValidOps] hold of a script exactly
    when the whole script parses and each of its instructions is, respectively, a push, a
    shortest-form push (or not a push), a known opcode with at most 520 bytes of data. *)
Lemma scans_spec script :
  IsPushOnly script = all_instructions is_push script
  /\ HasCanonicalPushes script = all_instructions canonical_push script
  /\ HasValidOps script = all_instructions valid_op script.
Proof.
  split_and!; apply scan_ind; try (by intros []); intros fuel b pc;
    unfold is_push, canonical_push, valid_op; cbn [fst snd];
    cbn [IsPushOnly_loop HasCanonicalPushes_loop HasValidOps_loop];
    generalize (GetScriptOp (b :: pc)); intros r; cbv zeta;
    rewrite !Z.gtb_ltb, ?Z.leb_antisym.
  - by destruct (op_ok r), (_ <? _).
  - destruct (op_ok r); [|done]. simpl negb. cbv iota. rewrite andb_true_l.
    destruct (OP_16 <? op_code r); [done|]. rewrite orb_false_l.
    by repeat (destruct (_ && _); [done|]; simpl negb; rewrite ?andb_true_l).
  - by destruct (op_ok r), (MAX_OPCODE <? _), (_ <? _).
Qed.

(** ** Signature operation counts *)

Lemma GetSigOpCount_loop_bound fuel acc pc last n :
  (length pc <= fuel)%nat -> 0 <= n -> n + 20 * zlen pc < 2 ^ 32 ->
  n <= GetSigOpCount_loop fuel acc pc last n <= n + 20 * zlen pc.
Proof.
  revert pc last n. induction fuel as [|fuel IH]; intros pc last n Hf Hn Hb.
  { pose proof (zlen_nonneg pc). simpl. lia. }
  destruct pc as [|b pc]; [unfold zlen; simpl; lia|].
  cbn [GetSigOpCount_loop]. pose proof (zlen_nonneg pc). rewrite zlen_cons in *.
  destruct (op_ok _) eqn:E; simpl negb; cbv iota; [|lia].
  pose proof (GetScriptOp_progress _ E) as Hp. simpl in Hp, Hf.
  assert (zlen (op_pc (GetScriptOp (b :: pc))) <= zlen pc) by (unfold zlen; lia).
  match goal with |- _ <= GetSigOpCount_loop _ _ _ _ (u32 ?m) <= _ => assert (n <= m <= n + 20) as Hm end.
  { unfold DecodeOP_N, Script_const.MAX_PUBKEYS_PER_MULTISIG. simpl code. repeat case_match; simpl; lia. }
  unfold u32. rewrite Z.mod_small by lia.
  match goal with |- _ <= GetSigOpCount_loop ?f ?a ?p ?l ?m <= _ => specialize (IH p l m) end.
  lia.
Qed.

Lemma GetSigOpCount_loop_accurate fuel pc last n m :
  (length pc <= fuel)%nat -> 0 <= n <= m -> m + 20 * zlen pc < 2 ^ 32 ->
  GetSigOpCount_loop fuel true pc last n <= GetSigOpCount_loop fuel false pc last m.
Proof.
  revert pc last n m. induction fuel as [|fuel IH]; intros pc last n m Hf Hn Hb; [simpl; lia|].
  destruct pc as [|b pc]; [simpl; lia|]. cbn [GetSigOpCount_loop].
  pose proof (zlen_nonneg pc). rewrite zlen_cons in *.
  destruct (op_ok _) eqn:E; simpl negb; cbv iota; [|lia].
  pose proof (GetScriptOp_progress _ E) as Hp. simpl in Hp, Hf.
  assert (zlen (op_pc (GetScriptOp (b :: pc))) <= zlen pc) by (unfold zlen; lia).
  match goal with |- GetSigOpCount_loop _ _ _ _ (u32 ?x) <= GetSigOpCount_loop _ _ _ _ (u32 ?y) =>
    assert (0 <= x <= y /\ y <= m + 20) as Hxy end.
  { unfold DecodeOP_N, Script_const.MAX_PUBKEYS_PER_MULTISIG. simpl code. simpl andb.
    repeat case_match; simpl; lia. }
  unfold u32. rewrite !Z.mod_small by lia. apply IH; [simpl in *; lia|lia|lia].
Qed.

(** A script of fewer than 2^27 bytes has at most 20 signature operations per byte, so
    the unsigned counter does not wrap, and accurate counting never exceeds the legacy count. *)
Theorem sigop_count_bounds script :
  zlen script < 2 ^ 27 ->
  0 <= GetSigOpCount script true <= GetSigOpCount script false
  /\ GetSigOpCount script false <= 20 * zlen script.
Proof.
  intros Hs. pose proof (zlen_nonneg script). unfold GetSigOpCount.
  pose proof (GetSigOpCount_loop_bound (length script) true script OP_INVALIDOPCODE 0).
  pose proof (GetSigOpCount_loop_bound (length script) false script OP_INVALIDOPCODE 0).
  pose proof (GetSigOpCount_loop_accurate (length script) script OP_INVALIDOPCODE 0 0). lia.
Qed.
Lemma sigop_count_bounds_witness :
  GetSigOpCount [code OP_2; code OP_CHECKMULTISIG] true = 2
  /\ GetSigOpCount [code OP_2; code OP_CHECKMULTISIG] false <= 40.
Proof.
  split; [reflexivity|].
  exact (proj2 (sigop_count_bounds [code OP_2; code OP_CHECKMULTISIG] ltac:(vm_compute; reflexivity))).
Defined.

(** ** FindAndDelete *)

Lemma erase_while_spec fuel b pc n :
  exists k, erase_while fuel b pc n = (drop (k * length b) pc, n + Z.of_nat k)
    /\ pc = concat (replicate k b) ++ drop (k * length b) pc.
Proof.
  revert pc n. induction fuel as [|fuel IH]; intros pc n.
  { exists 0%nat. simpl. by rewrite Z.add_0_r. }
  cbn [erase_while]. case_match eqn:E; [|exists 0%nat; simpl; by rewrite Z.add_0_r].
  apply andb_true_iff in E as [_ E%bool_decide_eq_true].
  destruct (IH (drop (length b) pc) (n + 1)) as (k & -> & Hpc). exists (S k). split.
  - rewrite drop_drop. f_equal; lia.
  - cbn [replicate concat]. rewrite <-app_assoc, drop_drop in *. rewrite <-(take_drop (length b) pc) at 1.
    rewrite E. f_equal. exact Hpc.
Qed.

Lemma FindAndDelete_loop_spec fuel b pre pc n :
  let r := FindAndDelete_loop fuel b pre pc n in
  n <= r.2 /\ zlen r.1 + (r.2 - n) * zlen b = zlen pre + zlen pc /\ (r.2 = n -> r.1 = pre ++ pc).
Proof.
  revert pre pc n. induction fuel as [|fuel IH]; intros pre pc n; cbv zeta; cbn [FindAndDelete_loop].
  { cbn [fst snd]. rewrite zlen_app. split_and!; [lia..|done]. }
  destruct (erase_while_spec (length pc) b pc n) as (k & -> & Hpc).
  set (pc' := drop (k * length b) pc) in *.
  assert (zlen pc = Z.of_nat k * zlen b + zlen pc') as Hlen.
  { rewrite Hpc, zlen_app. f_equal. clear. induction k as [|k IH]; [done|].
    cbn [replicate concat]. rewrite zlen_app, IH. lia. }
  assert (k = 0%nat -> pc' = pc) as H0 by (intros ->; done).
  destruct (op_ok _) eqn:E.
  - specialize (IH (pre ++ take (length pc' - length (op_pc (GetScriptOp pc'))) pc')
      (op_pc (GetScriptOp pc')) (n + Z.of_nat k)). cbv zeta in IH.
    destruct (GetScriptOp_suffix pc' E) as (c & u & Hc).
    pose proof (take_suffix (c :: u) _ _ Hc) as Hj.
    destruct IH as (IH1 & IH2 & IH3). rewrite <-Hj, zlen_app in Hlen. rewrite zlen_app in IH2.
    split_and!; [lia|lia|]. intros Hr. rewrite IH3 by lia. rewrite <-app_assoc, Hj, H0 by lia. done.
  - cbn [fst snd]. rewrite zlen_app. split_and!; [lia|lia|]. intros Hr. rewrite H0 by lia. done.
Qed.

(** [FindAndDelete] removes exactly [nFound] copies of [b]: the script shrinks by
    that many lengths of [b], and it is left unchanged when the count is zero. *)
Lemma FindAndDelete_count script b :
  let '(script', nFound) := FindAndDelete script b in
  0 <= nFound /\ zlen script' + nFound * zlen b = zlen script /\ (nFound = 0 -> script' = script).
Proof.
  unfold FindAndDelete. destruct b as [|c b]; [split_and!; [lia|lia|done]|].
  pose proof (FindAndDelete_loop_spec (S (length script)) (c :: b) [] script 0) as H. cbv zeta in H.
  destruct (FindAndDelete_loop _ _ _ _ _) as [s n]. cbn [fst snd] in H. rewrite Z.sub_0_r in H. exact H.
Qed.

End CScript.
