(* ===== verification/Serialize.v ===== *)
(** * Serialize: the stream encodings of [serialize.h]

    Fixed-width little- and big-endian integers, compact sizes, flat data, strings and vectors,
    each as a pair of a writer and a reader, and the law every such pair satisfies: reading what
    was written gives the value back and leaves the rest of the stream. *)
From S2P Require Import Prelude.

Module Serialize.

(** ** Readers *)

(** The [std::ios_base::failure] exceptions of the readers. *)
Inductive failure : Set :=
  | EndOfData | NonCanonical | SizeTooLarge | LengthLimit
  | SuperfluousWitness | UnknownOptionalData.

Definition reader (A : Type) : Type := bytes -> failure + A * bytes.

Definition ret {A} (a : A) : reader A := fun s => inr (a, s).
Definition throw {A} (e : failure) : reader A := fun _ => inl e.
Definition bind {A B} (m : reader A) (k : A -> reader B) : reader B :=
  fun s => match m s with inl e => inl e | inr (a, s) => k a s end.

Declare Scope reader_scope.
Delimit Scope reader_scope with reader.
Notation "'let*' x := m 'in' k" := (bind m (fun x => k))
  (at level 10, x binder, m at level 100, k at level 200) : reader_scope.
Open Scope reader_scope.

(** [CDataStream::read]: fails when fewer than [n] bytes are left. *)
Definition read (n : Z) : reader bytes :=
  fun s => if zlen s <? n then inl EndOfData
           else inr (take (Z.to_nat n) s, drop (Z.to_nat n) s).

(** A writer and the reader for its output. *)
Record codec (A : Type) : Type := Codec { put : A -> bytes; get : reader A }.
Arguments Codec {A}.
Arguments put {A}.
Arguments get {A}.

(** The law: what is written reads back, for the values that satisfy [ok]. *)
Class Lawful {A} (c : codec A) (ok : A -> Prop) : Prop :=
  get_put a rest : ok a -> get c (put c a ++ rest) = inr (a, rest).

(** ** Integers: [ser_data::write], [read], [writebe], [readbe] *)

Definition uint_le (n : nat) : codec Z :=
  Codec (le_bytes n) (let* b := read (Z.of_nat n) in ret (le_value b)).

Definition uint_be (n : nat) : codec Z :=
  Codec (fun x => rev (le_bytes n x)) (let* b := read (Z.of_nat n) in ret (le_value (rev b))).

(** Signed integers are written as the unsigned value of the same width. *)
Definition int32_le : codec Z := Codec (le_bytes 4) (let* b := read 4 in ret (s32 (le_value b))).
Definition int64_le : codec Z := Codec (le_bytes 8) (let* b := read 8 in ret (s64 (le_value b))).

(** [bool]: one byte. *)
Definition bool_codec : codec bool :=
  Codec (fun b => [if b : bool then 1 else 0]) (let* b := read 1 in ret (negb (le_value b =? 0))).

(** [CFlatData]: the bytes of an object of a known size. *)
Definition flat (n : Z) : codec bytes := Codec (fun b => b) (read n).

(** ** Compact sizes *)

Definition MAX_SIZE : Z := 0x02000000.

Definition GetSizeOfCompactSize (nSize : Z) : Z :=
  if nSize <? 253 then 1
  else if nSize <=? 0xffff then 1 + 2
  else if nSize <=? UINT32_MAX then 1 + 4
  else 1 + 8.

Definition WriteCompactSize (nSize : Z) : bytes :=
  if nSize <? 253 then [u8 nSize]
  else if nSize <=? 0xffff then 253 :: le_bytes 2 (u16 nSize)
  else if nSize <=? UINT32_MAX then 254 :: le_bytes 4 (u32 nSize)
  else 255 :: le_bytes 8 nSize.

Definition ReadCompactSize : reader Z :=
  let* b := read 1 in
  let chSize := le_value b in
  let* nSizeRet :=
    if chSize <? 253 then ret chSize
    else if chSize =? 253 then
      let* x := get (uint_le 2) in if x <? 253 then throw NonCanonical else ret x
    else if chSize =? 254 then
      let* x := get (uint_le 4) in if x <? 0x10000 then throw NonCanonical else ret x
    else
      let* x := get (uint_le 8) in if x <? 0x100000000 then throw NonCanonical else ret x in
  if nSizeRet >? MAX_SIZE then throw SizeTooLarge else ret nSizeRet.

Definition compact_size : codec Z := Codec WriteCompactSize ReadCompactSize.

(** ** Strings and vectors *)

(** The blocks of at most 5000000 bytes in which a vector of bytes is read. *)
Definition read_block : Z := 1 + 4999999.
Fixpoint read_blocks (fuel : nat) (nSize i : Z) (v : bytes) : reader bytes :=
  if i <? nSize then
    match fuel with
    | O => throw EndOfData
    | S fuel =>
        let blk := Z.min (nSize - i) read_block in
        let* b := read blk in read_blocks fuel nSize (i + blk) (v ++ b)
    end
  else ret v.

(** [Serialize_impl]/[Unserialize_impl] on a vector of bytes (a fundamental type). *)
Definition byte_vector : codec bytes :=
  Codec (fun v => WriteCompactSize (zlen v) ++ v)
        (let* nSize := ReadCompactSize in
         read_blocks (S (Z.to_nat (nSize / read_block))) nSize 0 []).

(** [Unserialize] of a string: one read. *)
Definition string_codec : codec bytes :=
  Codec (fun v => WriteCompactSize (zlen v) ++ v)
        (let* nSize := ReadCompactSize in
         if nSize =? 0 then ret [] else read nSize).

(** [LimitedString<Limit>] *)
Definition LimitedString (Limit : Z) : codec bytes :=
  Codec (put string_codec)
        (let* size := ReadCompactSize in
         if size >? Limit then throw LengthLimit
         else if size =? 0 then ret [] else read size).

(** The elements of a vector of objects, in order. *)
Fixpoint read_elems {A} (c : codec A) (n : nat) : reader (list A) :=
  match n with
  | O => ret []
  | S n => let* a := get c in let* l := read_elems c n in ret (a :: l)
  end.

Definition vector {A} (c : codec A) : codec (list A) :=
  Codec (fun v => WriteCompactSize (zlen v) ++ concat (put c <$> v))
        (let* nSize := ReadCompactSize in read_elems c (Z.to_nat nSize)).

(** ** Pairs and tuples *)

Definition pair {A B} (c : codec A) (d : codec B) : codec (A * B) :=
  Codec (fun '(a, b) => put c a ++ put d b)
        (let* a := get c in let* b := get d in ret (a, b)).

Definition tuple3 {A B C} (c : codec A) (d : codec B) (e : codec C) : codec (A * B * C) :=
  Codec (fun '(x, y, z) => put c x ++ put d y ++ put e z)
        (let* x := get c in let* y := get d in let* z := get e in ret (x, y, z)).

Definition tuple4 {A B C D} (c : codec A) (d : codec B) (e : codec C) (f : codec D) :
    codec (A * B * C * D) :=
  Codec (fun '(x, y, z, t) => put c x ++ put d y ++ put e z ++ put f t)
        (let* x := get c in let* y := get d in let* z := get e in let* t := get f in
         ret (x, y, z, t)).

(** ** Laws *)

Lemma bind_get {A B} (c : codec A) ok `{!Lawful c ok} a (k : A -> reader B) rest :
  ok a -> bind (get c) k (put c a ++ rest) = k a rest.
Proof. intros Ha. unfold bind. by rewrite get_put. Qed.

Lemma read_app b rest : read (zlen b) (b ++ rest) = inr (b, rest).
Proof.
  unfold read. rewrite zlen_app. pose proof (zlen_nonneg rest).
  replace (_ <? _) with false by lia. unfold zlen.
  by rewrite Nat2Z.id, take_app_length, drop_app_length.
Qed.

Lemma read_app' n b rest : n = zlen b -> read n (b ++ rest) = inr (b, rest).
Proof. intros ->. apply read_app. Qed.

Lemma read_cons b rest : read 1 (b :: rest) = inr ([b], rest).
Proof. exact (read_app [b] rest). Qed.

Lemma zlen_le_bytes n x : zlen (le_bytes n x) = Z.of_nat n.
Proof. unfold zlen. by rewrite length_le_bytes. Qed.

#[global] Instance uint_le_lawful n : Lawful (uint_le n) (fun x => 0 <= x < 256 ^ Z.of_nat n).
Proof.
  intros x rest Hx. cbn [uint_le get put]. unfold bind.
  rewrite read_app' by by rewrite zlen_le_bytes. by rewrite le_value_le_bytes.
Qed.

Lemma get_uint_le n x rest :
  0 <= x < 256 ^ Z.of_nat n -> get (uint_le n) (le_bytes n x ++ rest) = inr (x, rest).
Proof. apply uint_le_lawful. Qed.

#[global] Instance uint_be_lawful n : Lawful (uint_be n) (fun x => 0 <= x < 256 ^ Z.of_nat n).
Proof.
  intros x rest Hx. cbn [uint_be get put]. unfold bind.
  rewrite read_app'; [by rewrite rev_involutive, le_value_le_bytes|].
  unfold zlen. by rewrite length_rev, length_le_bytes.
Qed.

Lemma le_value_le_bytes_mod n x : le_value (le_bytes n x) = x mod 256 ^ Z.of_nat n.
Proof.
  revert x. induction n as [|n IH]; intros x; cbn [le_bytes le_value].
  { by rewrite Z.mod_1_r. }
  rewrite IH, Nat2Z.inj_succ, Z.pow_succ_r, Z.rem_mul_r by lia. lia.
Qed.

Lemma s32_mod x : s32 (x mod 2 ^ 32) = s32 x.
Proof. unfold s32. by rewrite Zplus_mod_idemp_l. Qed.
Lemma s64_mod x : s64 (x mod 2 ^ 64) = s64 x.
Proof. unfold s64. by rewrite Zplus_mod_idemp_l. Qed.
Lemma s32_small x : INT32_MIN <= x <= INT32_MAX -> s32 x = x.
Proof. unfold INT32_MIN, INT32_MAX. intros H. unfold s32. rewrite Z.mod_small; lia. Qed.

#[global] Instance int32_le_lawful : Lawful int32_le (fun x => INT32_MIN <= x <= INT32_MAX).
Proof.
  intros x rest Hx. cbn [int32_le get put]. unfold bind.
  rewrite read_app' by by rewrite zlen_le_bytes.
  rewrite le_value_le_bytes_mod. change (256 ^ Z.of_nat 4) with (2 ^ 32).
  by rewrite s32_mod, s32_small.
Qed.

#[global] Instance int64_le_lawful : Lawful int64_le (fun x => INT64_MIN <= x <= INT64_MAX).
Proof.
  intros x rest Hx. cbn [int64_le get put]. unfold bind.
  rewrite read_app' by by rewrite zlen_le_bytes.
  rewrite le_value_le_bytes_mod. change (256 ^ Z.of_nat 8) with (2 ^ 64).
  unfold INT64_MIN, INT64_MAX in Hx. by rewrite s64_mod, s64_small by lia.
Qed.

#[global] Instance bool_lawful : Lawful bool_codec (fun _ => True).
Proof.
  intros b rest _. cbn [bool_codec get put]. unfold bind. rewrite read_app' by done. by destruct b.
Qed.

#[global] Instance flat_lawful n : Lawful (flat n) (fun b => zlen b = n).
Proof. intros b rest Hb. cbn [flat get put]. by apply read_app'. Qed.

#[global] Instance compact_size_lawful : Lawful compact_size (fun n => 0 <= n <= MAX_SIZE).
Proof.
  intros n rest Hn. cbn [compact_size get put]. unfold MAX_SIZE in Hn.
  assert ((n >? MAX_SIZE) = false) as Hmax by (unfold MAX_SIZE; lia).
  unfold WriteCompactSize, ReadCompactSize, UINT32_MAX, u8, u16, u32.
  destruct (n <? 253) eqn:E1; [|destruct (n <=? 65535) eqn:E2;
    [|replace (n <=? 2 ^ 32 - 1) with true by lia]];
    rewrite Z.mod_small by lia; cbn [app];
    unfold bind; rewrite read_cons; cbn [le_value];
    rewrite ?(Z.mul_0_r 256), ?Z.add_0_r.
  - rewrite E1. cbn [ret]. by rewrite Hmax.
  - change (253 <? 253) with false. change (253 =? 253) with true. cbv beta iota zeta.
    rewrite get_uint_le by lia. rewrite E1. cbn [ret]. by rewrite Hmax.
  - change (254 <? 253) with false. change (254 =? 253) with false. change (254 =? 254) with true.
    cbv beta iota zeta.
    rewrite get_uint_le by lia. replace (n <? 65536) with false by lia.
    cbn [ret]. by rewrite Hmax.
Qed.

Lemma bind_compact_size {B} n (k : Z -> reader B) rest :
  0 <= n <= MAX_SIZE -> bind ReadCompactSize k (WriteCompactSize n ++ rest) = k n rest.
Proof. apply (bind_get compact_size (fun n => 0 <= n <= MAX_SIZE)). Qed.

Lemma read_blocks_ok fuel nSize i v b rest :
  0 <= i -> nSize = i + zlen b -> nSize - i <= Z.of_nat fuel * read_block ->
  read_blocks fuel nSize i v (b ++ rest) = inr (v ++ b, rest).
Proof.
  revert i v b. induction fuel as [|fuel IH]; intros i v b Hi Hn Hf.
  { pose proof (zlen_nonneg b). cbn [read_blocks]. replace (i <? nSize) with false by lia.
    destruct b; [by rewrite app_nil_r|]. rewrite zlen_cons in *. pose proof (zlen_nonneg b). lia. }
  pose proof (zlen_nonneg b). cbn [read_blocks]. destruct (i <? nSize) eqn:E.
  - set (blk := Z.min _ _). assert (0 < blk <= zlen b) as Hblk by (unfold read_block in *; lia).
    rewrite <-(take_drop (Z.to_nat blk) b) at 1. rewrite <-app_assoc. unfold bind.
    assert (zlen (take (Z.to_nat blk) b) = blk) as Ht.
    { unfold zlen in *. rewrite length_take. lia. }
    rewrite read_app' by done.
    assert (zlen (drop (Z.to_nat blk) b) = zlen b - blk) as Hd.
    { unfold zlen in *. rewrite length_drop. lia. }
    rewrite IH; [|lia|lia|unfold read_block in *; lia]. by rewrite <-app_assoc, take_drop.
  - destruct b; [by rewrite app_nil_r|]. rewrite zlen_cons in *. pose proof (zlen_nonneg b). lia.
Qed.

#[global] Instance byte_vector_lawful : Lawful byte_vector (fun v => zlen v <= MAX_SIZE).
Proof.
  intros v rest Hv. cbn [byte_vector get put]. pose proof (zlen_nonneg v). rewrite <-app_assoc.
  rewrite bind_compact_size by lia. apply read_blocks_ok; [lia..|].
  unfold read_block. pose proof (Z.mul_succ_div_gt (zlen v) (1 + 4999999)). lia.
Qed.

Lemma read_or_empty v rest :
  (if zlen v =? 0 then ret [] else read (zlen v)) (v ++ rest) = inr (v, rest).
Proof.
  destruct (zlen v =? 0) eqn:E; [|apply read_app].
  destruct v; [done|]. rewrite zlen_cons in E. pose proof (zlen_nonneg v). lia.
Qed.

#[global] Instance string_lawful : Lawful string_codec (fun v => zlen v <= MAX_SIZE).
Proof.
  intros v rest Hv. cbn [string_codec get put]. pose proof (zlen_nonneg v). rewrite <-app_assoc.
  rewrite bind_compact_size by lia. apply read_or_empty.
Qed.

#[global] Instance LimitedString_lawful Limit :
  Lawful (LimitedString Limit) (fun v => zlen v <= Limit /\ zlen v <= MAX_SIZE).
Proof.
  intros v rest [Hl Hv]. cbn [LimitedString string_codec get put]. pose proof (zlen_nonneg v).
  rewrite <-app_assoc.
  rewrite bind_compact_size by lia. replace (zlen v >? Limit) with false by lia.
  apply read_or_empty.
Qed.

Lemma read_elems_ok {A} (c : codec A) ok `{!Lawful c ok} l rest :
  Forall ok l -> read_elems c (length l) (concat (put c <$> l) ++ rest) = inr (l, rest).
Proof.
  intros H. revert rest. induction H as [|a l Ha Hl IH]; intros rest; [done|].
  cbn [length read_elems fmap list_fmap concat]. rewrite <-app_assoc.
  erewrite bind_get by done. unfold bind. by rewrite IH.
Qed.

#[global] Instance vector_lawful {A} (c : codec A) ok `{!Lawful c ok} :
  Lawful (vector c) (fun l => zlen l <= MAX_SIZE /\ Forall ok l).
Proof.
  intros l rest [Hl Hok]. cbn [vector get put]. pose proof (zlen_nonneg l). rewrite <-app_assoc.
  rewrite bind_compact_size by lia. unfold zlen at 1. rewrite Nat2Z.id.
  by apply (read_elems_ok c ok).
Qed.

#[global] Instance pair_lawful {A B} (c : codec A) (d : codec B) okc okd
  `{!Lawful c okc, !Lawful d okd} : Lawful (pair c d) (fun p => okc p.1 /\ okd p.2).
Proof.
  intros [a b] rest [Ha Hb]. cbn [pair get put]. rewrite <-app_assoc.
  erewrite bind_get by done. by erewrite bind_get by done.
Qed.

#[global] Instance tuple3_lawful {A B C} (c : codec A) (d : codec B) (e : codec C) okc okd oke
  `{!Lawful c okc, !Lawful d okd, !Lawful e oke} :
  Lawful (tuple3 c d e) (fun p => okc p.1.1 /\ okd p.1.2 /\ oke p.2).
Proof.
  intros [[x y] z] rest (Hx & Hy & Hz). cbn [tuple3 get put]. rewrite <-!app_assoc.
  do 2 erewrite bind_get by done. by erewrite bind_get by done.
Qed.

#[global] Instance tuple4_lawful {A B C D} (c : codec A) (d : codec B) (e : codec C) (f : codec D)
  okc okd oke okf `{!Lawful c okc, !Lawful d okd, !Lawful e oke, !Lawful f okf} :
  Lawful (tuple4 c d e f) (fun p => okc p.1.1.1 /\ okd p.1.1.2 /\ oke p.1.2 /\ okf p.2).
Proof.
  intros [[[x y] z] t] rest (Hx & Hy & Hz & Ht). cbn [tuple4 get put]. rewrite <-!app_assoc.
  do 3 erewrite bind_get by done. by erewrite bind_get by done.
Qed.

(** ** Canonicity *)

Lemma read_inv n s b r : 0 <= n -> read n s = inr (b, r) -> s = b ++ r /\ zlen b = n.
Proof.
  unfold read. intros Hn H. case_match eqn:E; simplify_eq. split; [by rewrite take_drop|].
  unfold zlen in *. rewrite length_take. lia.
Qed.

Lemma get_uint_le_inv n s x r :
  bytes_ok s -> get (uint_le n) s = inr (x, r) ->
  s = le_bytes n x ++ r /\ 0 <= x < 256 ^ Z.of_nat n.
Proof.
  cbn [uint_le get]. unfold bind. intros Hs H. destruct (read _ s) as [|[b r']] eqn:E; [done|].
  injection H as <- ->. apply read_inv in E as [-> Hb]; [|lia]. apply bytes_ok_app in Hs as [Hs _].
  unfold zlen in Hb. assert (n = length b) as -> by lia.
  rewrite le_bytes_le_value by done. split; [done|]. by apply le_value_bound.
Qed.

Lemma ReadCompactSize_inv s n rest :
  bytes_ok s -> ReadCompactSize s = inr (n, rest) ->
  s = WriteCompactSize n ++ rest /\ 0 <= n <= MAX_SIZE.
Proof.
  intros Hs. unfold ReadCompactSize, bind at 1. destruct (read 1 s) as [|[b r]] eqn:E; [done|].
  apply read_inv in E as [-> Hb]; [|lia]. destruct b as [|c [|? ?]]; [done| |unfold zlen in Hb; simpl in Hb; lia].
  apply bytes_ok_app in Hs as [Hc Hr]. apply Forall_cons_1 in Hc as [Hc _]. cbn [le_value].
  rewrite Z.mul_0_r, Z.add_0_r. unfold is_byte in Hc. unfold bind at 1. intros H.
  destruct (c <? 253) eqn:E1; [|destruct (c =? 253) eqn:E2; [|destruct (c =? 254) eqn:E3]];
    unfold bind in H; cbn [ret] in H.
  - destruct (c >? MAX_SIZE) eqn:Em; [done|]. injection H as <- <-. unfold WriteCompactSize, u8.
    rewrite E1, Z.mod_small by lia. split; [done|lia].
  - destruct (get (uint_le 2) r) as [|[x r']] eqn:E; [done|].
    apply get_uint_le_inv in E as [-> Hx]; [|done]. simpl in Hx.
    destruct (x <? 253) eqn:Ex; [done|]. cbn [ret] in H. destruct (x >? MAX_SIZE) eqn:Em; [done|].
    injection H as <- <-. unfold WriteCompactSize, u16. rewrite Ex.
    replace (x <=? 65535) with true by lia. rewrite Z.mod_small by lia. assert (c = 253) as -> by lia.
    split; [done|lia].
  - destruct (get (uint_le 4) r) as [|[x r']] eqn:E; [done|].
    apply get_uint_le_inv in E as [-> Hx]; [|done]. simpl in Hx.
    destruct (x <? 65536) eqn:Ex; [done|]. cbn [ret] in H. destruct (x >? MAX_SIZE) eqn:Em; [done|].
    injection H as <- <-. unfold WriteCompactSize, u32, UINT32_MAX. replace (x <? 253) with false by lia.
    replace (x <=? 65535) with false by lia. replace (x <=? 2 ^ 32 - 1) with true by lia.
    rewrite Z.mod_small by lia. assert (c = 254) as -> by lia.
    split; [done|lia].
  - destruct (get (uint_le 8) r) as [|[x r']] eqn:E; [done|].
    destruct (x <? 4294967296) eqn:Ex; [done|]. cbn [ret] in H. destruct (x >? MAX_SIZE) eqn:Em; [done|].
    unfold MAX_SIZE in Em. lia.
Qed.

(** A compact size occupies [GetSizeOfCompactSize] bytes, reads back as itself, and
    is the only encoding of its value that [ReadCompactSize] accepts. *)
Lemma compact_size_canonical n rest :
  0 <= n <= MAX_SIZE ->
  zlen (WriteCompactSize n) = GetSizeOfCompactSize n
  /\ ReadCompactSize (WriteCompactSize n ++ rest) = inr (n, rest)
  /\ (forall s, bytes_ok s -> ReadCompactSize s = inr (n, rest) -> s = WriteCompactSize n ++ rest).
Proof.
  intros Hn. split_and!.
  - unfold WriteCompactSize, GetSizeOfCompactSize. by repeat case_match.
  - by apply compact_size_lawful.
  - intros s Hs H. by apply ReadCompactSize_inv.
Qed.
Lemma compact_size_canonical_witness :
  WriteCompactSize 253 = [253; 253; 0]
  /\ ReadCompactSize (WriteCompactSize 253 ++ [7]) = inr (253, [7]).
Proof.
  split; [reflexivity|].
  apply (compact_size_canonical 253 [7]). unfold MAX_SIZE. lia.
Defined.

(** Whatever the stream holds, [ReadCompactSize] returns a size of at most [MAX_SIZE]
    and consumes at least one byte, or fails with one of its three exceptions. *)
Theorem ReadCompactSize_total s :
  bytes_ok s ->
  match ReadCompactSize s with
  | inr (n, rest) => 0 <= n <= MAX_SIZE /\ zlen rest < zlen s
  | inl e => e = EndOfData \/ e = NonCanonical \/ e = SizeTooLarge
  end.
Proof.
  intros Hs. destruct (ReadCompactSize s) as [e|[n rest]] eqn:E.
  - revert E. unfold ReadCompactSize, bind, uint_le, get, bind, read, throw, ret. clear Hs.
    intros H. repeat (case_match; simplify_eq; try by auto).
  - apply ReadCompactSize_inv in E as [-> Hn]; [|done]. split; [done|]. rewrite zlen_app.
    assert (0 < zlen (WriteCompactSize n)); [|lia].
    unfold WriteCompactSize. repeat case_match; unfold zlen; cbn [length]; lia.
Qed.
Lemma ReadCompactSize_total_witness :
  ReadCompactSize [253; 5; 0] = inl NonCanonical
  /\ match ReadCompactSize [253; 5; 0] with
     | inr (n, rest) => 0 <= n <= MAX_SIZE /\ zlen rest < 3
     | inl e => e = EndOfData \/ e = NonCanonical \/ e = SizeTooLarge
     end.
Proof.
  split; [reflexivity|]. apply (ReadCompactSize_total [253; 5; 0]).
  repeat (apply Forall_cons_2; [split; [discriminate|reflexivity]|]). apply Forall_nil_2.
Defined.

End Serialize.
