(* ===== verification/Transaction.v ===== *)
(** * Transaction: the transaction data model of [block/transaction.h]

    Outpoints, inputs, outputs, transactions and the spent-index record, their stream formats
    (the basic one of [SerializationOp] and the extended one with witnesses), the context-free
    checks of [CheckTransaction], the sums and the fee of [GetValueOut] and [GetMinFee]. *)
From S2P Require Import Prelude ScriptNum Script Serialize Crypto.

(** ** [const/block_params.h], [util.h] *)
Module block_params.
Definition COIN : Z := 1000000.
Definition CENT : Z := 10000.
Definition MAX_BLOCK_SIZE : Z := 1000000.
Definition MAX_BLOCK_SIZE_GEN : Z := MAX_BLOCK_SIZE / 2.
Definition MIN_TX_FEE : Z := 10000.
Definition MIN_RELAY_TX_FEE : Z := MIN_TX_FEE.
Definition MAX_MONEY : Z := 8000000 * COIN.
Definition LOCKTIME_THRESHOLD : Z := 500000000.
End block_params.

Module Tx.
Import Serialize.
Open Scope reader_scope.

(** A [uint256] is its 32 bytes in memory order. *)
Abbreviation uint256 := (list Z).
Definition uint256_of (x : Z) : uint256 := le_bytes 32 x.

(** ** Data *)

Record COutPoint : Set := OutPoint { op_hash : uint256; op_n : Z }.
#[global] Instance COutPoint_eq_dec : EqDecision COutPoint.
Proof. solve_decision. Defined.

Definition COutPoint_SetNull : COutPoint := OutPoint (uint256_of 0) UINT32_MAX.
Definition COutPoint_IsNull (o : COutPoint) : bool :=
  bool_decide (op_hash o = uint256_of 0) && (op_n o =? UINT32_MAX).

#[global] Instance COutPoint_countable : Countable COutPoint.
Proof.
  refine (inj_countable' (fun o => (op_hash o, op_n o)) (fun p => OutPoint p.1 p.2) _). by intros [].
Defined.

Record CDiskTxPos : Set := DiskTxPos { nFile : Z; nBlockPos : Z; nTxPos : Z }.
#[global] Instance CDiskTxPos_eq_dec : EqDecision CDiskTxPos.
Proof. solve_decision. Defined.

Definition CDiskTxPos_SetNull : CDiskTxPos := DiskTxPos UINT32_MAX 0 0.
Definition CDiskTxPos_IsNull (p : CDiskTxPos) : bool := nFile p =? UINT32_MAX.

Record CTxIndex : Set := TxIndex { pos : CDiskTxPos; vSpent : list CDiskTxPos }.

Definition CTxIndex_SetNull : CTxIndex := TxIndex CDiskTxPos_SetNull [].
(** [CTxIndex(posIn, nOutputs)] *)
Definition CTxIndex_new (posIn : CDiskTxPos) (nOutputs : nat) : CTxIndex :=
  TxIndex posIn (replicate nOutputs CDiskTxPos_SetNull).
Definition CTxIndex_IsNull (t : CTxIndex) : bool := CDiskTxPos_IsNull (pos t).

Definition SEQUENCE_FINAL : Z := 0xffffffff.
Definition SEQUENCE_LOCKTIME_DISABLE_FLAG : Z := Z.shiftl 1 31.
Definition SEQUENCE_LOCKTIME_TYPE_FLAG : Z := Z.shiftl 1 22.
Definition SEQUENCE_LOCKTIME_MASK : Z := 0x0000ffff.

Record CTxIn : Set := TxIn {
  prevout : COutPoint; scriptSig : bytes; nSequence : Z; scriptWitness : list bytes }.
#[global] Instance CTxIn_eq_dec : EqDecision CTxIn.
Proof. solve_decision. Defined.

Definition CTxIn_IsFinal (t : CTxIn) : bool := nSequence t =? SEQUENCE_FINAL.
Definition set_scriptSig (s : bytes) (t : CTxIn) : CTxIn :=
  TxIn (prevout t) s (nSequence t) (scriptWitness t).
Definition set_nSequence (n : Z) (t : CTxIn) : CTxIn :=
  TxIn (prevout t) (scriptSig t) n (scriptWitness t).

Record CTxOut : Set := TxOut { nValue : Z; scriptPubKey : bytes }.
#[global] Instance CTxOut_eq_dec : EqDecision CTxOut.
Proof. solve_decision. Defined.

Definition CTxOut_SetNull : CTxOut := TxOut (-1) [].
Definition CTxOut_IsNull (o : CTxOut) : bool := nValue o =? -1.
Definition CTxOut_SetEmpty : CTxOut := TxOut 0 [].
Definition CTxOut_IsEmpty (o : CTxOut) : bool := (nValue o =? 0) && bool_decide (scriptPubKey o = []).

Record CTransaction : Set := Transaction {
  nVersion : Z; nTime : Z; vin : list CTxIn; vout : list CTxOut; nLockTime : Z }.
#[global] Instance CTransaction_eq_dec : EqDecision CTransaction.
Proof. solve_decision. Defined.

Definition CURRENT_VERSION : Z := 1.
Definition set_vin (f : list CTxIn -> list CTxIn) (tx : CTransaction) : CTransaction :=
  Transaction (nVersion tx) (nTime tx) (f (vin tx)) (vout tx) (nLockTime tx).
Definition set_vout (f : list CTxOut -> list CTxOut) (tx : CTransaction) : CTransaction :=
  Transaction (nVersion tx) (nTime tx) (vin tx) (f (vout tx)) (nLockTime tx).

(** [SetNull]; the time is that of the adjusted clock. *)
Definition CTransaction_SetNull (GetAdjustedTime : Z) : CTransaction :=
  Transaction CURRENT_VERSION (u32 GetAdjustedTime) [] [] 0.
Definition CTransaction_IsNull (tx : CTransaction) : bool :=
  bool_decide (vin tx = []) && bool_decide (vout tx = []).

(** ** Predicates *)

(** [IsFinal]: the height of the best block and the adjusted time stand for missing arguments. *)
Definition IsFinal (nBestHeight GetAdjustedTime : Z) (tx : CTransaction) (nBlockHeight nBlockTime : Z) : bool :=
  if nLockTime tx =? 0 then true
  else
    let nBlockHeight := if nBlockHeight =? 0 then nBestHeight else nBlockHeight in
    let nBlockTime := if nBlockTime =? 0 then GetAdjustedTime else nBlockTime in
    if nLockTime tx <? (if nLockTime tx <? block_params.LOCKTIME_THRESHOLD then nBlockHeight else nBlockTime)
    then true
    else forallb CTxIn_IsFinal (vin tx).

(** One turn of the second loop of [IsNewerThan]. *)
Definition newer_step (st : bool * Z) (p : CTxIn * CTxIn) : bool * Z :=
  let '(fNewer, nLowest) := st in
  let '(new, old) := p in
  if negb (nSequence new =? nSequence old) then
    let '(fNewer, nLowest) :=
      if nSequence new <=? nLowest then (false, nSequence new) else (fNewer, nLowest) in
    if nSequence old <? nLowest then (true, nSequence old) else (fNewer, nLowest)
  else (fNewer, nLowest).

Definition IsNewerThan (tx old : CTransaction) : bool :=
  if negb (zlen (vin tx) =? zlen (vin old)) then false
  else if negb (forallb (fun p : CTxIn * CTxIn => bool_decide (prevout p.1 = prevout p.2)) (combine (vin tx) (vin old)))
  then false
  else (fold_left newer_step (combine (vin tx) (vin old)) (false, UINT32_MAX)).1.

Definition IsCoinBase (tx : CTransaction) : bool :=
  match vin tx with
  | [i] => COutPoint_IsNull (prevout i) && (1 <=? zlen (vout tx))
  | _ => false
  end.

Definition IsCoinStake (tx : CTransaction) : bool :=
  match vin tx, vout tx with
  | i :: _, o :: _ :: _ => negb (COutPoint_IsNull (prevout i)) && CTxOut_IsEmpty o
  | _, _ => false
  end.

Definition HasWitness (tx : CTransaction) : bool :=
  existsb (fun i => negb (bool_decide (scriptWitness i = []))) (vin tx).

(** ** Stream formats *)

(** The codec of a record isomorphic to a tuple. *)
Definition map_codec {A B} (c : codec A) (f : A -> B) (g : B -> A) : codec B :=
  Codec (fun b => put c (g b)) (let* a := get c in ret (f a)).

Lemma map_codec_lawful {A B} (c : codec A) f (g : B -> A) ok (ok' : B -> Prop) `{!Lawful c ok} :
  (forall b, ok' b -> f (g b) = b /\ ok (g b)) -> Lawful (map_codec c f g) ok'.
Proof.
  intros Hf b rest Hb. destruct (Hf b Hb) as [Hfg Hg]. cbn [map_codec get put].
  erewrite bind_get by done. unfold ret. by rewrite Hfg.
Qed.

(** The flat data of the object: the hash, then the index. *)
Definition outpoint_codec : codec COutPoint :=
  map_codec (pair (flat 32) (uint_le 4)) (fun p => OutPoint p.1 p.2) (fun o => (op_hash o, op_n o)).

Definition diskpos_codec : codec CDiskTxPos :=
  map_codec (tuple3 (uint_le 4) (uint_le 4) (uint_le 4))
    (fun p => DiskTxPos p.1.1 p.1.2 p.2) (fun p => (nFile p, nBlockPos p, nTxPos p)).

(** [CTxIndex::SerializationOp]: an unused version 0, the position, the spent pointers. *)
Definition txindex_codec : codec CTxIndex :=
  map_codec (tuple3 int32_le diskpos_codec (vector diskpos_codec))
    (fun p => TxIndex p.1.2 p.2) (fun t => (0, pos t, vSpent t)).

(** An input read from a stream has no witness. *)
Definition txin_codec : codec CTxIn :=
  map_codec (tuple3 outpoint_codec byte_vector (uint_le 4))
    (fun p => TxIn p.1.1 p.1.2 p.2 []) (fun i => (prevout i, scriptSig i, nSequence i)).

Definition txout_codec : codec CTxOut :=
  map_codec (pair int64_le byte_vector) (fun p => TxOut p.1 p.2) (fun o => (nValue o, scriptPubKey o)).

(** [SerializationOp], writing: [None] where the version trips the assertion. *)
Definition SerializeTx (tx : CTransaction) : option bytes :=
  if (nVersion tx =? 1) || (nVersion tx =? 2) then
    Some (put int32_le (nVersion tx) ++ put (uint_le 4) (nTime tx) ++ put (vector txin_codec) (vin tx)
          ++ put (vector txout_codec) (vout tx) ++ put (uint_le 4) (nLockTime tx))
  else None.

(** [SerializationOp], reading into an object whose version field holds [this_nVersion]: the branch
    is chosen by that field, before the version of the stream is read. *)
Definition UnserializeTx (this_nVersion : Z) : option (reader CTransaction) :=
  if (this_nVersion =? 1) || (this_nVersion =? 2) then
    Some (let* v := get int32_le in let* t := get (uint_le 4) in
          let* i := get (vector txin_codec) in let* o := get (vector txout_codec) in
          let* l := get (uint_le 4) in ret (Transaction v t i o l))
  else None.

(** [::GetSerializeSize]: the size counted by a [CSizeComputer]. *)
Definition GetSerializeSize (tx : CTransaction) : option Z := zlen <$> SerializeTx tx.

(** [GetHash], for [CURRENT_VERSION == 1]. *)
Definition GetHash (tx : CTransaction) : option uint256 := Crypto.Hash <$> SerializeTx tx.

Definition SERIALIZE_TRANSACTION_NO_WITNESS : Z := 0x40000000.
Definition AllowWitness (nVersion streamVersion : Z) : bool :=
  (2 <=? nVersion) && (Z.land streamVersion SERIALIZE_TRANSACTION_NO_WITNESS =? 0).

(** [SerializeTransaction] on a stream of the given version. *)
Definition SerializeTransaction (streamVersion : Z) (tx : CTransaction) : bytes :=
  let flags := if AllowWitness (nVersion tx) streamVersion && HasWitness tx then 1 else 0 in
  put int32_le (nVersion tx)
  ++ (if nVersion tx =? 1 then put (uint_le 4) (nTime tx) else [])
  ++ (if negb (flags =? 0) then put (vector txin_codec) [] ++ put (uint_le 1) flags else [])
  ++ put (vector txin_codec) (vin tx)
  ++ put (vector txout_codec) (vout tx)
  ++ (if negb (Z.land flags 1 =? 0)
      then concat ((fun i => put (vector byte_vector) (scriptWitness i)) <$> vin tx) else [])
  ++ put (uint_le 4) (nLockTime tx).

(** The witness stacks, one per input. *)
Fixpoint read_witnesses (ins : list CTxIn) : reader (list CTxIn) :=
  match ins with
  | [] => ret []
  | i :: ins =>
      let* w := get (vector byte_vector) in let* ins := read_witnesses ins in
      ret (TxIn (prevout i) (scriptSig i) (nSequence i) w :: ins)
  end.

(** [UnserializeTransaction] into an object whose time field holds [this_nTime]. *)
Definition UnserializeTransaction (streamVersion this_nTime : Z) : reader CTransaction :=
  let* v := get int32_le in
  let fAllowWitness := AllowWitness v streamVersion in
  let* t := if v =? 1 then get (uint_le 4) else ret this_nTime in
  let* ins := get (vector txin_codec) in
  let* p :=
    (if bool_decide (ins = []) && fAllowWitness then
       let* flags := get (uint_le 1) in
       if negb (flags =? 0) then
         let* ins := get (vector txin_codec) in let* outs := get (vector txout_codec) in
         ret (flags, ins, outs)
       else ret (flags, ins, [])
     else let* outs := get (vector txout_codec) in ret (0, ins, outs)) in
  let '(flags, ins, outs) := p in
  let* p :=
    (if negb (Z.land flags 1 =? 0) && fAllowWitness then
       let flags := Z.lxor flags 1 in
       let* ins := read_witnesses ins in
       if negb (HasWitness (Transaction v t ins outs 0)) then throw SuperfluousWitness
       else ret (flags, ins)
     else ret (flags, ins)) in
  let '(flags, ins) := p in
  if negb (flags =? 0) then throw UnknownOptionalData
  else let* l := get (uint_le 4) in ret (Transaction v t ins outs l).

(** ** Amounts *)

Definition MoneyRange (nValue : Z) : bool := (0 <=? nValue) && (nValue <=? block_params.MAX_MONEY).

(** [GetValueOut]; [None] is the exception "value out of range". *)
Fixpoint GetValueOut_loop (outs : list CTxOut) (nValueOut : Z) : option Z :=
  match outs with
  | [] => Some nValueOut
  | o :: outs =>
      let nValueOut := s64 (nValueOut + nValue o) in
      if negb (MoneyRange (nValue o)) || negb (MoneyRange nValueOut) then None
      else GetValueOut_loop outs nValueOut
  end.
Definition GetValueOut (tx : CTransaction) : option Z := GetValueOut_loop (vout tx) 0.

Inductive GetMinFee_mode : Set := GMF_BLOCK | GMF_RELAY | GMF_SEND.

Definition GetMinFee (tx : CTransaction) (nBlockSize : Z) (fAllowFree : bool) (mode : GetMinFee_mode)
    (nBytes : Z) : Z :=
  let nMinTxFee := if IsCoinStake tx then block_params.CENT else block_params.MIN_TX_FEE in
  let nMinRelayTxFee := if IsCoinStake tx then block_params.CENT else block_params.MIN_RELAY_TX_FEE in
  let nBaseFee := match mode with GMF_RELAY => nMinRelayTxFee | _ => nMinTxFee end in
  let nNewBlockSize := u32 (nBlockSize + nBytes) in
  let nMinFee := s64 ((1 + nBytes / 1000) * nBaseFee) in
  let nMinFee :=
    if fAllowFree then
      if nBlockSize =? 1 then (if nBytes <? 1000 then 0 else nMinFee)
      else (if nNewBlockSize <? 27000 then 0 else nMinFee)
    else nMinFee in
  let nMinFee :=
    fold_left (fun f o => if (nValue o <? block_params.CENT) && negb (CTxOut_IsEmpty o)
                          then s64 (f + nBaseFee) else f) (vout tx) nMinFee in
  let near_full := negb (nBlockSize =? 1) && (block_params.MAX_BLOCK_SIZE_GEN / 2 <=? nNewBlockSize) in
  if near_full && (block_params.MAX_BLOCK_SIZE_GEN <=? nNewBlockSize) then block_params.MAX_MONEY
  else
    let nMinFee :=
      if near_full
      then s64 (nMinFee * (block_params.MAX_BLOCK_SIZE_GEN / (block_params.MAX_BLOCK_SIZE_GEN - nNewBlockSize)))
      else nMinFee in
    if negb (MoneyRange nMinFee) then block_params.MAX_MONEY else nMinFee.

(** [GetLegacySigOpCount] *)
Definition GetLegacySigOpCount (tx : CTransaction) : Z :=
  let n := if negb (IsCoinBase tx)
           then fold_left (fun n i => u32 (n + CScript.GetSigOpCount (scriptSig i) false)) (vin tx) 0
           else 0 in
  fold_left (fun n o => u32 (n + CScript.GetSigOpCount (scriptPubKey o) false)) (vout tx) n.

(** ** [CheckTransaction] *)

(** The outcome of a check: the result and what [DoS] adds to the misbehaviour score; [None] is an
    assertion failure. *)
Record verdict : Set := Verdict { accepted : bool; dos : Z }.
Definition DoS (nDoSIn : Z) : verdict := Verdict false nDoSIn.
Definition Accept : verdict := Verdict true 0.

Fixpoint CheckOutputs (tx : CTransaction) (outs : list CTxOut) (nValueOut : Z) : option verdict :=
  match outs with
  | [] => None
  | o :: outs =>
      if CTxOut_IsEmpty o && negb (IsCoinBase tx) && negb (IsCoinStake tx) then Some (DoS 100)
      else if nValue o <? 0 then Some (DoS 100)
      else if nValue o >? block_params.MAX_MONEY then Some (DoS 100)
      else
        let nValueOut := s64 (nValueOut + nValue o) in
        if negb (MoneyRange nValueOut) then Some (DoS 100)
        else CheckOutputs tx outs nValueOut
  end.

(** The loop over the inputs with the set of outpoints seen. *)
Fixpoint DuplicateInputs (ins : list CTxIn) (vInOutPoints : gset COutPoint) : bool :=
  match ins with
  | [] => false
  | i :: ins =>
      if bool_decide (prevout i ∈ vInOutPoints) then true
      else DuplicateInputs ins ({[prevout i]} ∪ vInOutPoints)
  end.

Definition CheckTransaction (tx : CTransaction) : option verdict :=
  if bool_decide (vin tx = []) then Some (DoS 10)
  else if bool_decide (vout tx = []) then Some (DoS 10)
  else
    match GetSerializeSize tx with
    | None => None
    | Some size =>
        if size >? block_params.MAX_BLOCK_SIZE then Some (DoS 100)
        else
          match CheckOutputs tx (vout tx) 0 with
          | Some v => Some v
          | None =>
              if DuplicateInputs (vin tx) ∅ then Some (Verdict false 0)
              else if IsCoinBase tx then
                match vin tx with
                | i :: _ => if (zlen (scriptSig i) <? 2) || (zlen (scriptSig i) >? 100)
                            then Some (DoS 100) else Some Accept
                | [] => Some Accept
                end
              else if existsb (fun i => COutPoint_IsNull (prevout i)) (vin tx) then Some (DoS 10)
              else Some Accept
          end
    end.

(** ** Round trips *)

Definition outpoint_ok (o : COutPoint) : Prop := zlen (op_hash o) = 32 /\ 0 <= op_n o < 2 ^ 32.
Definition diskpos_ok (p : CDiskTxPos) : Prop :=
  0 <= nFile p < 2 ^ 32 /\ 0 <= nBlockPos p < 2 ^ 32 /\ 0 <= nTxPos p < 2 ^ 32.
Definition txindex_ok (t : CTxIndex) : Prop :=
  diskpos_ok (pos t) /\ zlen (vSpent t) <= MAX_SIZE /\ Forall diskpos_ok (vSpent t).
Definition txin_ok (i : CTxIn) : Prop :=
  outpoint_ok (prevout i) /\ zlen (scriptSig i) <= MAX_SIZE /\ 0 <= nSequence i < 2 ^ 32
  /\ scriptWitness i = [].
Definition txout_ok (o : CTxOut) : Prop :=
  INT64_MIN <= nValue o <= INT64_MAX /\ zlen (scriptPubKey o) <= MAX_SIZE.

#[global] Instance outpoint_lawful : Lawful outpoint_codec outpoint_ok.
Proof. eapply map_codec_lawful; [apply _|]. intros [h n] [Hh Hn]. done. Qed.
#[global] Instance diskpos_lawful : Lawful diskpos_codec diskpos_ok.
Proof. eapply map_codec_lawful; [apply _|]. intros [a b c] (Ha & Hb & Hc). done. Qed.
#[global] Instance txindex_lawful : Lawful txindex_codec txindex_ok.
Proof.
  eapply map_codec_lawful; [apply _|]. intros [p v] (Hp & Hv & Hf). split; [done|].
  by split_and!.
Qed.
#[global] Instance txin_lawful : Lawful txin_codec txin_ok.
Proof.
  eapply map_codec_lawful; [apply _|]. intros [o s n w] (Ho & Hs & Hn & Hw). simpl in *. by subst w.
Qed.
#[global] Instance txout_lawful : Lawful txout_codec txout_ok.
Proof. eapply map_codec_lawful; [apply _|]. intros [v s] [Hv Hs]. done. Qed.

(** The fields of a transaction are in the range of their types, and no input has a witness. *)
Definition tx_ok (tx : CTransaction) : Prop :=
  INT32_MIN <= nVersion tx <= INT32_MAX /\ 0 <= nTime tx < 2 ^ 32
  /\ (zlen (vin tx) <= MAX_SIZE /\ Forall txin_ok (vin tx))
  /\ (zlen (vout tx) <= MAX_SIZE /\ Forall txout_ok (vout tx))
  /\ 0 <= nLockTime tx < 2 ^ 32.

(** What the first branch of [SerializationOp] writes, and reads, whatever the version. *)
Definition tx_codec : codec CTransaction :=
  map_codec (pair int32_le (tuple4 (uint_le 4) (vector txin_codec) (vector txout_codec) (uint_le 4)))
    (fun p => Transaction p.1 p.2.1.1.1 p.2.1.1.2 p.2.1.2 p.2.2)
    (fun tx => (nVersion tx, (nTime tx, vin tx, vout tx, nLockTime tx))).

#[global] Instance tx_lawful : Lawful tx_codec tx_ok.
Proof.
  eapply map_codec_lawful; [apply _|]. intros [v t i o l] (Hv & Ht & Hi & Ho & Hl). done.
Qed.

Lemma SerializeTx_codec tx :
  nVersion tx = 1 \/ nVersion tx = 2 -> SerializeTx tx = Some (put tx_codec tx).
Proof.
  intros H. unfold SerializeTx. replace (_ || _) with true by (destruct H as [-> | ->]; done). done.
Qed.

Lemma UnserializeTx_codec s :
  match UnserializeTx CURRENT_VERSION with Some r => r s = get tx_codec s | None => False end.
Proof.
  cbn. unfold bind, ret. repeat case_match; by simplify_eq.
Qed.

(** A transaction without its witnesses *)
Definition strip (i : CTxIn) : CTxIn := TxIn (prevout i) (scriptSig i) (nSequence i) [].
Definition strip_tx (tx : CTransaction) : CTransaction := Transaction (nVersion tx) (nTime tx) (strip <$> vin tx) (vout tx) (nLockTime tx).

Lemma put_vin_strip ins : put (vector txin_codec) ins = put (vector txin_codec) (strip <$> ins).
Proof.
  cbn [put vector]. unfold zlen. rewrite length_fmap, <-list_fmap_compose. done.
Qed.

Lemma strip_no_witness ins : existsb (fun i => negb (bool_decide (scriptWitness i = []))) ins = false ->
  strip <$> ins = ins.
Proof.
  induction ins as [|i ins IH]; [done|]. cbn [existsb fmap list_fmap].
  intros [Hi Hins]%orb_false_iff. rewrite IH by done. apply negb_false_iff, bool_decide_eq_true in Hi.
  destruct i as [o s n w]. simpl in Hi. by subst w.
Qed.

Lemma strip_tx_same tx : strip_tx tx = tx <-> HasWitness tx = false.
Proof.
  split; [|intros H; unfold strip_tx; rewrite strip_no_witness by done; by destruct tx].
  intros <-. unfold HasWitness, strip_tx. cbn [vin]. induction (vin tx) as [|i ins IH]; [done|exact IH].
Qed.

Lemma SerializeTx_strip_tx tx : SerializeTx (strip_tx tx) = SerializeTx tx.
Proof. unfold SerializeTx, strip_tx. cbn [nVersion nTime vin vout nLockTime]. by rewrite <-put_vin_strip. Qed.

(** C25 (round trip): what is read back of a transaction. A transaction of version 1 or 2 whose version, time, inputs, outputs
    and lock time fit their types is read back from its serialization, the rest of the stream untouched, but for the witnesses of its
    inputs: they are not written, for version 2 either. So it is read back as it was exactly when no input has a witness, and
    transactions that differ in witnesses only have the same bytes, and the same hash. *)
Theorem transaction_roundtrip tx rest :
  tx_ok (strip_tx tx) -> nVersion tx = 1 \/ nVersion tx = 2 ->
  (exists s r, SerializeTx tx = Some s /\ UnserializeTx CURRENT_VERSION = Some r
    /\ r (s ++ rest) = inr (strip_tx tx, rest))
  /\ (strip_tx tx = tx <-> HasWitness tx = false)
  /\ forall tx', strip_tx tx' = strip_tx tx -> SerializeTx tx' = SerializeTx tx /\ GetHash tx' = GetHash tx.
Proof.
  intros Hok Hv. split_and!.
  - exists (put tx_codec (strip_tx tx)). pose proof (UnserializeTx_codec (put tx_codec (strip_tx tx) ++ rest)) as H.
    destruct (UnserializeTx _) as [r|]; [|done]. exists r.
    split_and!; [rewrite <-SerializeTx_strip_tx; by apply SerializeTx_codec|done|]. rewrite H. by apply tx_lawful.
  - apply strip_tx_same.
  - intros tx' E. unfold GetHash. by rewrite <-(SerializeTx_strip_tx tx'), E, SerializeTx_strip_tx.
Qed.

Definition witness_tx : CTransaction :=
  Transaction 2 0 [TxIn (OutPoint (uint256_of 7) 1) [] 0 [[1; 2]; []]] [TxOut 5000000 [118; 169]] 0.

Definition sample_tx (v : Z) : CTransaction :=
  Transaction v 1546300800 [TxIn (OutPoint (uint256_of 7) 1) [0; 81] SEQUENCE_FINAL []]
    [TxOut 5000000 [118; 169]; TxOut 20000 []] 0.

Lemma sample_tx_ok v : INT32_MIN <= v <= INT32_MAX -> tx_ok (sample_tx v).
Proof.
  intros Hv. split_and!; cbn [sample_tx nVersion nTime vin vout nLockTime]; try lia;
    repeat first [apply Forall_cons_2|apply Forall_nil_2]; try done.
Qed.

Lemma strip_sample v : strip_tx (sample_tx v) = sample_tx v.
Proof. done. Qed.

Lemma transaction_roundtrip_witness :
  (exists s r, SerializeTx (sample_tx 1) = Some s /\ UnserializeTx CURRENT_VERSION = Some r
    /\ r (s ++ [9]) = inr (sample_tx 1, [9]))
  /\ (exists s r, SerializeTx witness_tx = Some s /\ UnserializeTx CURRENT_VERSION = Some r
    /\ r (s ++ [9]) = inr (strip_tx witness_tx, [9])) /\ strip_tx witness_tx <> witness_tx.
Proof.
  split; [|split].
  - apply (transaction_roundtrip (sample_tx 1) [9]); [|by left].
    rewrite strip_sample. apply sample_tx_ok. unfold INT32_MIN, INT32_MAX. lia.
  - apply (transaction_roundtrip witness_tx [9]); [|by right].
    split_and!; unfold INT32_MIN, INT32_MAX; cbn; try lia; repeat first [apply Forall_cons_2|apply Forall_nil_2]; done.
  - discriminate.
Defined.

(** The reader accepts every version number, but a transaction read with a version other
    than 1 and 2 cannot be serialized again: its size, its hash and, when it has inputs and outputs,
    [CheckTransaction] stop the process with an assertion failure. *)
Lemma unknown_version_aborts tx rest :
  tx_ok tx -> nVersion tx <> 1 -> nVersion tx <> 2 -> vin tx <> [] -> vout tx <> [] ->
  (exists s r, UnserializeTx CURRENT_VERSION = Some r /\ r (s ++ rest) = inr (tx, rest))
  /\ GetSerializeSize tx = None /\ GetHash tx = None /\ CheckTransaction tx = None.
Proof.
  intros Hok H1 H2 Hin Hout.
  assert (SerializeTx tx = None) as Hs.
  { unfold SerializeTx. replace (nVersion tx =? 1) with false by lia.
    by replace (nVersion tx =? 2) with false by lia. }
  split_and!.
  - exists (put tx_codec tx). pose proof (UnserializeTx_codec (put tx_codec tx ++ rest)) as H.
    destruct (UnserializeTx _) as [r|]; [|done]. exists r. split; [done|]. rewrite H. by apply tx_lawful.
  - unfold GetSerializeSize. by rewrite Hs.
  - unfold GetHash. by rewrite Hs.
  - unfold CheckTransaction, GetSerializeSize. rewrite !bool_decide_eq_false_2 by done. by rewrite Hs.
Qed.
Lemma unknown_version_aborts_witness :
  nVersion (sample_tx 3) = 3 /\ CheckTransaction (sample_tx 3) = None.
Proof.
  split; [reflexivity|].
  apply (unknown_version_aborts (sample_tx 3) []); [|discriminate..].
  apply sample_tx_ok. unfold INT32_MIN, INT32_MAX. lia.
Defined.

(** ** Amounts *)

Definition total (outs : list CTxOut) : Z := foldr (fun o s => nValue o + s) 0 outs.

(** An output a checked transaction may have. *)
Definition output_ok (tx : CTransaction) (o : CTxOut) : Prop :=
  0 <= nValue o <= block_params.MAX_MONEY
  /\ (CTxOut_IsEmpty o = true -> IsCoinBase tx = true \/ IsCoinStake tx = true).

Lemma MoneyRange_true v : MoneyRange v = true <-> 0 <= v <= block_params.MAX_MONEY.
Proof. unfold MoneyRange. lia. Qed.

Lemma total_nonneg tx outs : Forall (output_ok tx) outs -> 0 <= total outs.
Proof. induction 1 as [|o outs [Ho _] _ IH]; simpl; lia. Qed.

Lemma CheckOutputs_spec tx outs n :
  0 <= n <= block_params.MAX_MONEY ->
  CheckOutputs tx outs n = None
  <-> Forall (output_ok tx) outs /\ n + total outs <= block_params.MAX_MONEY.
Proof.
  revert n. induction outs as [|o outs IH]; intros n Hn; cbn [CheckOutputs total foldr].
  { split; [|done]. split; [constructor|lia]. }
  destruct (_ && _ && _) eqn:Ee.
  { split; [done|]. intros [[(_ & Ho) _]%Forall_cons_1 _].
    apply andb_true_iff in Ee as [[Ee1 Ee2%negb_true_iff]%andb_true_iff Ee3%negb_true_iff].
    destruct (Ho Ee1); congruence. }
  assert (CTxOut_IsEmpty o = true -> IsCoinBase tx = true \/ IsCoinStake tx = true) as He.
  { intros Ho. rewrite Ho in Ee. destruct (IsCoinBase tx), (IsCoinStake tx); auto. }
  assert (forall outs', 0 <= nValue o <= block_params.MAX_MONEY -> (Forall (output_ok tx) (o :: outs')
    <-> Forall (output_ok tx) outs')) as Hcons.
  { intros outs' Ho. rewrite Forall_cons. unfold output_ok at 1. tauto. }
  destruct (nValue o <? 0) eqn:E1.
  { split; [done|]. intros [[(Ho & _) _]%Forall_cons_1 _]. lia. }
  destruct (nValue o >? block_params.MAX_MONEY) eqn:E2.
  { split; [done|]. intros [[(Ho & _) _]%Forall_cons_1 _]. lia. }
  fold (total outs). assert (s64 (n + nValue o) = n + nValue o) as ->.
  { apply s64_small. unfold block_params.MAX_MONEY, block_params.COIN in *. lia. }
  rewrite Hcons by lia. destruct (MoneyRange (n + nValue o)) eqn:E3; simpl negb; cbv iota.
  - rewrite IH by by apply MoneyRange_true. by rewrite Z.add_assoc.
  - split; [done|]. intros [Hf Ht]. pose proof (total_nonneg tx outs Hf). unfold MoneyRange in E3. lia.
Qed.

Lemma CheckOutputs_reject tx outs n v : CheckOutputs tx outs n = Some v -> accepted v = false.
Proof.
  revert n. induction outs as [|o outs IH]; intros n; cbn [CheckOutputs]; [done|].
  repeat (case_match; [by intros [= <-]|]). apply IH.
Qed.

Lemma GetValueOut_loop_spec outs n :
  0 <= n <= block_params.MAX_MONEY -> Forall (fun o => 0 <= nValue o <= block_params.MAX_MONEY) outs ->
  n + total outs <= block_params.MAX_MONEY -> GetValueOut_loop outs n = Some (n + total outs).
Proof.
  intros Hn Hf. revert n Hn. induction Hf as [|o outs Ho Hf IH]; intros n Hn Ht;
    cbn [GetValueOut_loop total foldr] in *; [f_equal; lia|]. fold (total outs) in *.
  assert (0 <= total outs) by (clear -Hf; induction Hf; simpl; lia).
  assert (s64 (n + nValue o) = n + nValue o) as ->.
  { apply s64_small. unfold block_params.MAX_MONEY, block_params.COIN in *. lia. }
  rewrite !(proj2 (MoneyRange_true _)) by lia. simpl. rewrite IH by lia. f_equal. lia.
Qed.

Lemma DuplicateInputs_spec ins seen :
  DuplicateInputs ins seen = false
  <-> NoDup (prevout <$> ins) /\ Forall (fun i => prevout i ∉ seen) ins.
Proof.
  revert seen. induction ins as [|i ins IH]; intros seen; cbn [DuplicateInputs fmap list_fmap].
  { split; [|done]. split; constructor. }
  rewrite NoDup_cons, Forall_cons. case_bool_decide as Hin.
  { split; [done|]. by intros [_ [Hn _]]. }
  rewrite IH, list_elem_of_fmap, !Forall_forall. split.
  - intros [Hnd Hall]. split_and!; [|done|done|].
    + intros (j & Hj & Hjin). specialize (Hall j Hjin). set_solver.
    + intros j Hj. specialize (Hall j Hj). set_solver.
  - intros [[Hni Hnd] [_ Hall]]. split; [done|]. intros j Hj. specialize (Hall j Hj).
    rewrite not_elem_of_union, not_elem_of_singleton. split; [|done].
    intros Heq. apply Hni. by exists j.
Qed.

(** What [CheckTransaction] promises of an accepted transaction. *)
Record checked (tx : CTransaction) (size : Z) : Prop := Checked {
  checked_vin : vin tx <> [];
  checked_vout : vout tx <> [];
  checked_size : size <= block_params.MAX_BLOCK_SIZE;
  checked_outputs : Forall (output_ok tx) (vout tx);
  checked_total : total (vout tx) <= block_params.MAX_MONEY;
  checked_inputs : NoDup (prevout <$> vin tx);
  checked_script : if IsCoinBase tx
                   then forall i rest, vin tx = i :: rest -> 2 <= zlen (scriptSig i) <= 100
                   else Forall (fun i => COutPoint_IsNull (prevout i) = false) (vin tx) }.

Lemma MAX_MONEY_nonneg : 0 <= 0 <= block_params.MAX_MONEY.
Proof. done. Qed.

Lemma existsb_false {A} (p : A -> bool) l : existsb p l = false <-> Forall (fun x => p x = false) l.
Proof.
  induction l as [|x l IH]; simpl; [split; [constructor|done]|].
  rewrite Forall_cons, orb_false_iff, IH. done.
Qed.

Lemma CheckTransaction_checked tx size :
  GetSerializeSize tx = Some size -> CheckTransaction tx = Some Accept <-> checked tx size.
Proof.
  intros Hsize.
  unfold CheckTransaction. rewrite Hsize.
  case_bool_decide as Hi; [split; [done|]; by intros []|].
  case_bool_decide as Ho; [split; [done|]; by intros []|].
  destruct (size >? _) eqn:Es; [split; [done|]; intros []; lia|].
  pose proof (CheckOutputs_spec tx (vout tx) 0 MAX_MONEY_nonneg) as Hout. rewrite Z.add_0_l in Hout.
  pose proof (DuplicateInputs_spec (vin tx) ∅) as Hdup.
  destruct (CheckOutputs _ _ _) as [v|] eqn:Eo.
  { split; [|intros [_ _ _ Hc1 Hc2 _ _]; by specialize (proj2 Hout (conj Hc1 Hc2))].
    intros [= ->]. by apply CheckOutputs_reject in Eo. }
  destruct (proj1 Hout eq_refl) as [Hfo Htot]. destruct (DuplicateInputs _ _).
  { split; [done|]. intros []. assert (true = false); [|done]. apply Hdup. split; [done|].
    apply Forall_true. set_solver. }
  destruct (proj1 Hdup eq_refl) as [Hnd _]. clear Hout Hdup.
  destruct (IsCoinBase tx) eqn:Ecb.
  - destruct (vin tx) as [|i rest] eqn:Evin; [done|].
    destruct (_ || _) eqn:E; [split; [done|]|split; [|done]].
    + intros [_ _ _ _ _ _ Hs]. rewrite Ecb in Hs. specialize (Hs i rest Evin). lia.
    + intros _. constructor; rewrite ?Evin, ?Ecb; try done; [lia|]. intros ? ? [= -> ->]. lia.
  - destruct (existsb _ _) eqn:E; [split; [done|]|split; [|done]].
    + intros [_ _ _ _ _ _ Hs]. rewrite Ecb in Hs. apply existsb_false in Hs. congruence.
    + intros _. apply existsb_false in E. constructor; rewrite ?Ecb; try done. lia.
Qed.

Lemma CheckTransaction_accepts tx v : CheckTransaction tx = Some v -> accepted v = true -> v = Accept.
Proof.
  unfold CheckTransaction. intros H Hv.
  destruct (CheckOutputs tx (vout tx) 0) as [v'|] eqn:Eo.
  - apply CheckOutputs_reject in Eo. repeat case_match; simplify_eq; congruence.
  - repeat case_match; simplify_eq; done.
Qed.

(** C24 (refinement): [CheckTransaction] accepts a transaction exactly when it meets the declarative
    conditions [checked] (no duplicate or null inputs, amounts in range, bounded size and coinbase
    script), and then [GetValueOut] returns the exact sum of the outputs without overflow. *)
Theorem CheckTransaction_spec tx size :
  GetSerializeSize tx = Some size ->
  (CheckTransaction tx = Some Accept <-> checked tx size)
  /\ (CheckTransaction tx = Some Accept -> GetValueOut tx = Some (total (vout tx))).
Proof.
  intros Hsize. pose proof (CheckTransaction_checked tx size Hsize) as Hiff.
  split; [done|]. rewrite Hiff. intros [_ _ _ Ho Ht _ _]. unfold GetValueOut.
  rewrite GetValueOut_loop_spec; [by rewrite Z.add_0_l|apply MAX_MONEY_nonneg| |lia].
  eapply Forall_impl; [exact Ho|]. by intros o [Hv _].
Qed.

Lemma CheckTransaction_spec_witness :
  CheckTransaction (sample_tx 1) = Some Accept /\ GetValueOut (sample_tx 1) = Some 5020000.
Proof.
  split; [vm_compute; reflexivity|].
  exact (proj2 (CheckTransaction_spec (sample_tx 1) 77 ltac:(vm_compute; reflexivity))
               ltac:(vm_compute; reflexivity)).
Defined.

(** ** The minimum fee *)

Definition dust (o : CTxOut) : bool := (nValue o <? block_params.CENT) && negb (CTxOut_IsEmpty o).

(** The number of fee units: one per started kilobyte, none in the free area, one per dust output. *)
Definition fee_units (tx : CTransaction) (nBlockSize : Z) (fAllowFree : bool) (nBytes : Z) : Z :=
  (if fAllowFree && (if nBlockSize =? 1 then nBytes <? 1000 else u32 (nBlockSize + nBytes) <? 27000)
   then 0 else 1 + nBytes / 1000)
  + zlen (filter (fun o => dust o = true) (vout tx)).

(** The price factor as the block fills up, [None] when it is full. *)
Definition fullness (nBlockSize nBytes : Z) : option Z :=
  let size := u32 (nBlockSize + nBytes) in
  if nBlockSize =? 1 then Some 1
  else if size <? 250000 then Some 1
  else if size <? 500000 then Some (500000 / (500000 - size))
  else None.

Lemma MoneyRange_cap x :
  0 <= x -> (if negb (MoneyRange x) then block_params.MAX_MONEY else x) = Z.min block_params.MAX_MONEY x.
Proof. intros Hx. unfold MoneyRange. destruct (x <=? block_params.MAX_MONEY) eqn:E; case_match; lia. Qed.

Lemma dust_loop base outs f :
  0 <= f -> 0 <= base -> f + base * zlen outs < 2 ^ 63 ->
  fold_left (fun f o => if (nValue o <? block_params.CENT) && negb (CTxOut_IsEmpty o)
                        then s64 (f + base) else f) outs f
  = f + base * zlen (filter (fun o => dust o = true) outs).
Proof.
  revert f. induction outs as [|o outs IH]; intros f Hf Hb Hlt; cbn [fold_left].
  { rewrite filter_nil, zlen_nil. lia. }
  rewrite zlen_cons in Hlt. pose proof (zlen_nonneg outs). assert (0 <= base * zlen outs) by nia.
  fold (dust o). rewrite filter_cons. case_decide as E; [rewrite E|rewrite (not_true_is_false _ E)].
  - rewrite s64_small by nia. rewrite IH by nia. rewrite zlen_cons. lia.
  - apply IH; nia.
Qed.

(** For block and transaction sizes of 32 bits, [GetMinFee] computes without overflow:
    its result is the base fee times the fee units times the fullness factor, capped at [MAX_MONEY],
    which is also the fee of a transaction for a full block. *)
Lemma GetMinFee_exact tx nBlockSize fAllowFree mode nBytes :
  0 <= nBlockSize < 2 ^ 32 -> 0 <= nBytes < 2 ^ 32 -> zlen (vout tx) <= MAX_SIZE ->
  GetMinFee tx nBlockSize fAllowFree mode nBytes
  = match fullness nBlockSize nBytes with
    | Some factor => Z.min block_params.MAX_MONEY
                       (block_params.MIN_TX_FEE * fee_units tx nBlockSize fAllowFree nBytes * factor)
    | None => block_params.MAX_MONEY
    end.
Proof.
  intros Hbs Hb Hv. unfold GetMinFee, fullness, fee_units.
  set (size := u32 (nBlockSize + nBytes)).
  assert (0 <= size) as Hs by (apply Z.mod_pos_bound; lia).
  replace (match mode with GMF_RELAY => _ | _ => _ end) with 10000
    by (destruct mode, (IsCoinStake tx); reflexivity).
  change block_params.MIN_TX_FEE with 10000. change block_params.MAX_BLOCK_SIZE_GEN with 500000.
  change (500000 / 2) with 250000. cbv zeta.
  assert (0 <= nBytes / 1000 < 4294968) as Hk.
  { split; [apply Z.div_pos; lia|apply Z.div_lt_upper_bound; lia]. }
  rewrite (s64_small ((1 + nBytes / 1000) * 10000)) by lia.
  set (units0 := if fAllowFree && _ then 0 else 1 + nBytes / 1000).
  replace (if fAllowFree then _ else _) with (10000 * units0)
    by (unfold units0; destruct fAllowFree, (nBlockSize =? 1); simpl andb; repeat case_match; lia).
  assert (0 <= units0 <= 4294968) as Hu by (unfold units0; case_match; lia).
  unfold MAX_SIZE in Hv. pose proof (zlen_nonneg (vout tx)).
  rewrite dust_loop by lia. set (d := zlen (filter _ _)).
  assert (0 <= d <= zlen (vout tx)) as Hd.
  { unfold d, zlen. split; [lia|]. apply inj_le, length_filter. }
  replace (10000 * units0 + 10000 * d) with (10000 * (units0 + d)) by lia.
  destruct (nBlockSize =? 1) eqn:E1; simpl negb; simpl andb; cbv iota.
  { rewrite MoneyRange_cap by lia. f_equal. lia. }
  destruct (size <? 250000) eqn:E2.
  { replace (250000 <=? size) with false by lia. simpl andb. cbv iota. rewrite MoneyRange_cap by lia. f_equal. lia. }
  replace (250000 <=? size) with true by lia. simpl andb.
  destruct (size <? 500000) eqn:E3; [|by replace (500000 <=? size) with true by lia].
  replace (500000 <=? size) with false by lia. cbv iota.
  assert (0 <= 500000 / (500000 - size) <= 500000) as Hq.
  { split; [apply Z.div_pos; lia|apply Z.div_le_upper_bound; nia]. }
  rewrite s64_small by nia. apply MoneyRange_cap. nia.
Qed.
Lemma GetMinFee_exact_witness :
  GetMinFee (sample_tx 1) 400000 false GMF_RELAY 2500
  = Z.min block_params.MAX_MONEY (10000 * 3 * 5).
Proof.
  exact (GetMinFee_exact (sample_tx 1) 400000 false GMF_RELAY 2500
    ltac:(lia) ltac:(lia) ltac:(vm_compute; discriminate)).
Defined.

(** ** Replacement order *)

Definition differs (p : CTxIn * CTxIn) : Prop := nSequence p.1 <> nSequence p.2.
#[global] Instance differs_dec p : Decision (differs p).
Proof. unfold differs. apply _. Defined.

(** The lowest sequence number among the inputs whose sequence numbers differ. *)
Definition lowest (f : CTxIn * CTxIn -> CTxIn) (ps : list (CTxIn * CTxIn)) : Z :=
  foldr (fun p m => Z.min (nSequence (f p)) m) UINT32_MAX (filter differs ps).

Lemma newer_loop ps mo mn :
  fold_left newer_step ps (mo <? mn, Z.min mo mn)
  = let mo' := foldr (fun p m => Z.min (nSequence p.2) m) mo (filter differs ps) in
    let mn' := foldr (fun p m => Z.min (nSequence p.1) m) mn (filter differs ps) in
    (mo' <? mn', Z.min mo' mn').
Proof.
  assert (forall (f : CTxIn * CTxIn -> Z) a m l,
    foldr (fun p m => Z.min (f p) m) (Z.min a m) l = Z.min a (foldr (fun p m => Z.min (f p) m) m l)) as Hmin.
  { intros f a m l. induction l as [|p l IH]; simpl; [done|]. rewrite IH. lia. }
  revert mo mn. induction ps as [|[n o] ps IH]; intros mo mn; [done|].
  cbn [fold_left]. rewrite filter_cons. case_decide as Hd; unfold differs in Hd; simpl in Hd.
  - replace (newer_step (mo <? mn, Z.min mo mn) (n, o))
      with (Z.min (nSequence o) mo <? Z.min (nSequence n) mn,
            Z.min (Z.min (nSequence o) mo) (Z.min (nSequence n) mn)).
    + rewrite IH. cbv zeta. rewrite !(Hmin (fun p => nSequence p.1)), !(Hmin (fun p => nSequence p.2)). done.
    + cbn [newer_step]. replace (nSequence n =? nSequence o) with false by lia. simpl negb. cbv iota.
      destruct (nSequence n <=? Z.min mo mn) eqn:E1;
        [destruct (nSequence o <? nSequence n) eqn:E2|destruct (nSequence o <? Z.min mo mn) eqn:E2];
        f_equal; lia.
  - rewrite <-IH. f_equal. cbn [newer_step]. by replace (nSequence n =? nSequence o) with true by lia.
Qed.

Lemma same_prevouts (a b : list CTxIn) :
  length a = length b ->
  forallb (fun p : CTxIn * CTxIn => bool_decide (prevout p.1 = prevout p.2)) (combine a b) = true
  <-> prevout <$> a = prevout <$> b.
Proof.
  revert b. induction a as [|x a IH]; intros [|y b] Hl; [done..|]. cbn [combine forallb fmap list_fmap fst snd].
  rewrite andb_true_iff, bool_decide_eq_true, IH by (simpl in Hl; lia). split; [intros [-> ->]; done|].
  by intros [= -> ->].
Qed.

Lemma combine_swap {A} (a b : list A) : combine a b = prod_swap <$> combine b a.
Proof. revert b. induction a as [|x a IH]; intros [|y b]; [done..|]. cbn. by rewrite IH. Qed.

Lemma lowest_swap f ps : lowest f (prod_swap <$> ps) = lowest (fun p => f (prod_swap p)) ps.
Proof.
  unfold lowest. induction ps as [|[a b] ps IH]; [done|]. cbn [fmap list_fmap prod_swap fst snd].
  rewrite !filter_cons.
  destruct (decide (differs (b, a))) as [H1|H1], (decide (differs (a, b))) as [H2|H2];
    unfold differs in H1, H2; simpl in H1, H2; try (exfalso; lia); [|done].
  cbn [foldr]. by rewrite IH.
Qed.

(** [tx] is newer than [old] exactly when both spend the same outpoints in the same
    order and, among the inputs whose sequence numbers differ, the lowest one is strictly in [old];
    so no two transactions are each newer than the other. *)
Lemma IsNewerThan_spec tx old :
  (IsNewerThan tx old = true
   <-> prevout <$> vin tx = prevout <$> vin old
       /\ lowest snd (combine (vin tx) (vin old)) < lowest fst (combine (vin tx) (vin old)))
  /\ (IsNewerThan tx old = true -> IsNewerThan old tx = false).
Proof.
  assert (forall ps, fold_left newer_step ps (false, UINT32_MAX)
    = (lowest snd ps <? lowest fst ps, Z.min (lowest snd ps) (lowest fst ps))) as Hl.
  { intros ps. exact (newer_loop ps UINT32_MAX UINT32_MAX). }
  assert (forall a b, IsNewerThan a b = true <-> prevout <$> vin a = prevout <$> vin b
    /\ lowest snd (combine (vin a) (vin b)) < lowest fst (combine (vin a) (vin b))) as Hspec.
  { intros a b. unfold IsNewerThan. rewrite Hl. cbn [fst].
    destruct (zlen (vin a) =? zlen (vin b)) eqn:El; simpl negb; cbv iota.
    - rewrite <-same_prevouts by (unfold zlen in El; lia).
      destruct (forallb _ _); simpl negb; cbv iota; [rewrite Z.ltb_lt; tauto|].
      split; [done|]. by intros [? _].
    - split; [done|]. intros [H _]. apply (f_equal length) in H. rewrite !length_fmap in H.
      unfold zlen in El. lia. }
  split; [apply Hspec|]. rewrite Hspec. intros [Hp Hlt]. apply not_true_iff_false. rewrite Hspec.
  rewrite (combine_swap (vin old)), !lowest_swap. intros [_ Hgt].
  change (fun p : CTxIn * CTxIn => (prod_swap p).1) with (@snd CTxIn CTxIn) in Hgt.
  change (fun p : CTxIn * CTxIn => (prod_swap p).2) with (@fst CTxIn CTxIn) in Hgt. lia.
Qed.

(** ** The extended format *)

(** An input with a witness whose sizes fit. *)
Definition wtxin_ok (i : CTxIn) : Prop :=
  txin_ok (strip i) /\ zlen (scriptWitness i) <= MAX_SIZE
  /\ Forall (fun w => zlen w <= MAX_SIZE) (scriptWitness i).

Lemma get_vin_strip {B} ins (k : list CTxIn -> reader B) rest :
  zlen ins <= MAX_SIZE -> Forall wtxin_ok ins ->
  bind (get (vector txin_codec)) k (put (vector txin_codec) ins ++ rest) = k (strip <$> ins) rest.
Proof.
  intros Hl Hf. rewrite put_vin_strip. apply (bind_get (vector txin_codec) _). split.
  - unfold zlen in *. by rewrite length_fmap.
  - apply Forall_fmap. eapply Forall_impl; [exact Hf|]. by intros i (Hi & _).
Qed.

Lemma get_vout {B} outs (k : list CTxOut -> reader B) rest :
  zlen outs <= MAX_SIZE -> Forall txout_ok outs ->
  bind (get (vector txout_codec)) k (put (vector txout_codec) outs ++ rest) = k outs rest.
Proof. intros Hl Hf. by apply (bind_get (vector txout_codec) _). Qed.

Lemma get_uint {B} n x (k : Z -> reader B) rest :
  0 <= x < 256 ^ Z.of_nat n -> bind (get (uint_le n)) k (put (uint_le n) x ++ rest) = k x rest.
Proof. intros H. by apply (bind_get (uint_le n) _). Qed.

Lemma read_witnesses_ok ins rest :
  Forall wtxin_ok ins ->
  read_witnesses (strip <$> ins)
    (concat ((fun i => put (vector byte_vector) (scriptWitness i)) <$> ins) ++ rest) = inr (ins, rest).
Proof.
  intros H. revert rest. induction H as [|i ins (_ & Hl & Hw) _ IH]; intros rest; [done|].
  cbn [fmap list_fmap concat read_witnesses]. rewrite <-app_assoc.
  rewrite (bind_get (vector byte_vector) _) by done. unfold bind. rewrite IH. by destruct i.
Qed.

(** The last part of [UnserializeTransaction], without optional data. *)
Lemma get_locktime tx rest :
  0 <= nLockTime tx < 2 ^ 32 ->
  bind (get (uint_le 4)) (fun l => ret (Transaction (nVersion tx) (nTime tx) (vin tx) (vout tx) l))
    (put (uint_le 4) (nLockTime tx) ++ rest) = inr (tx, rest).
Proof. intros H. rewrite get_uint by done. by destruct tx. Qed.

(** The extended format reads back every transaction with inputs, witnesses
    included; the witnesses of a version 1 transaction, or on a stream that disallows them, must be
    empty, and the time of a transaction of another version than 1 is the one the reader had. *)
Lemma extended_roundtrip sv t0 tx rest :
  INT32_MIN <= nVersion tx <= INT32_MAX -> 0 <= nTime tx < 2 ^ 32 -> 0 <= nLockTime tx < 2 ^ 32 ->
  (nVersion tx <> 1 -> nTime tx = t0) -> vin tx <> [] ->
  zlen (vin tx) <= MAX_SIZE -> Forall wtxin_ok (vin tx) ->
  zlen (vout tx) <= MAX_SIZE -> Forall txout_ok (vout tx) ->
  (AllowWitness (nVersion tx) sv = false -> HasWitness tx = false) ->
  UnserializeTransaction sv t0 (SerializeTransaction sv tx ++ rest) = inr (tx, rest).
Proof.
  intros Hv Ht Hl Ht0 Hne Hil Hif Hol Hof Hw. unfold SerializeTransaction, UnserializeTransaction.
  rewrite <-!app_assoc. rewrite (bind_get int32_le _) by done. cbv zeta.
  assert (forall (k : Z -> reader CTransaction) s,
    bind (if nVersion tx =? 1 then get (uint_le 4) else ret t0) k
      ((if nVersion tx =? 1 then put (uint_le 4) (nTime tx) else []) ++ s) = k (nTime tx) s) as Htime.
  { intros k s. destruct (nVersion tx =? 1) eqn:E; [by apply get_uint|]. cbn [app].
    rewrite Ht0 by lia. done. }
  rewrite Htime. destruct (AllowWitness (nVersion tx) sv && HasWitness tx) eqn:Eflag.
  - apply andb_true_iff in Eflag as [Ea Eh]. rewrite Ea. change (negb (1 =? 0)) with true.
    change (negb (Z.land 1 1 =? 0)) with true. cbv iota. rewrite <-!app_assoc.
    rewrite (get_vin_strip []) by done. cbn [fmap list_fmap bool_decide]. simpl andb. cbv iota.
    unfold bind at 1. rewrite get_uint by done. change (negb (1 =? 0)) with true. cbv iota.
    rewrite get_vin_strip, get_vout by done. cbn [ret].
    change (negb (Z.land 1 1 =? 0)) with true. simpl andb. cbv iota. unfold bind at 1. unfold bind at 1.
    rewrite read_witnesses_ok by done.
    replace (HasWitness (Transaction _ _ _ _ 0)) with true by by destruct tx.
    cbn [negb ret]. change (Z.lxor 1 1) with 0. change (negb (0 =? 0)) with false. cbv iota.
    by apply get_locktime.
  - change (negb (0 =? 0)) with false. change (negb (Z.land 0 1 =? 0)) with false. cbv iota. cbn [app].
    assert (HasWitness tx = false) as Hnw.
    { destruct (AllowWitness _ _); [by destruct (HasWitness tx)|by apply Hw]. }
    rewrite get_vin_strip, (strip_no_witness (vin tx)) by done.
    rewrite bool_decide_eq_false_2 by done. simpl andb. cbv iota. unfold bind at 1.
    rewrite get_vout by done. cbn [ret]. change (negb (Z.land 0 1 =? 0)) with false. simpl andb. cbv iota.
    unfold bind at 1. cbn [ret]. change (negb (0 =? 0)) with false. cbv iota. by apply get_locktime.
Qed.

Lemma extended_roundtrip_witness :
  HasWitness witness_tx = true
  /\ UnserializeTransaction 0 0 (SerializeTransaction 0 witness_tx ++ [9]) = inr (witness_tx, [9]).
Proof.
  split; [reflexivity|].
  apply (extended_roundtrip 0 0 witness_tx [9]); unfold INT32_MIN, INT32_MAX; cbn; try done; try lia;
    repeat first [apply Forall_cons_2|apply Forall_nil_2|split]; try done.
Defined.

End Tx.
