(* ===== verification/Merkle.v ===== *)
(** * Merkle: hash trees over the transactions of a block ([merkle/merkle_tree.h], [merkle_tree.cpp])

    The tree is kept flat, level after level from the leaves to the root, and rebuilt by
    [BuildMerkleTree]; branches prove that a transaction is in a block. *)
From S2P Require Import Prelude Crypto Transaction.
Import Tx Crypto.

Module Merkle.

(** [CMerkleTree]: the hashes of [vtx] and the mutable cache *)
Record CMerkleTree : Type := MkMerkleTree { vtx : list CTransaction; vMerkleTree : list uint256 }.

(** The inner loop: one parent per pair of nodes, an odd last node is paired with itself. *)
Fixpoint build_pairs (fuel j nSize i : nat) (tree : list uint256) : list uint256 :=
  match fuel with
  | O => tree
  | S fuel =>
      if (i <? nSize)%nat then
        let i2 := Nat.min (i + 1) (nSize - 1) in
        build_pairs fuel j nSize (i + 2) (tree ++ [Hash2 (tree !!! (j + i)%nat) (tree !!! (j + i2)%nat)])
      else tree
  end.

(** The outer loop: a level of [nSize] nodes starts at [j]. *)
Fixpoint build_levels (fuel j nSize : nat) (tree : list uint256) : list uint256 :=
  match fuel with
  | O => tree
  | S fuel =>
      if (1 <? nSize)%nat
      then build_levels fuel (j + nSize) (Nat.div (nSize + 1) 2) (build_pairs nSize j nSize 0 tree)
      else tree
  end.

(** [BuildMerkleTree]: the root, and the object with its cache filled. *)
Definition BuildMerkleTree (m : CMerkleTree) : option (uint256 * CMerkleTree) :=
  hashes ← mapM GetHash (vtx m);
  let tree := build_levels (length hashes) 0 (length hashes) hashes in
  Some (default (uint256_of 0) (last tree), MkMerkleTree (vtx m) tree).

(** The loop of [GetMerkleBranch]; [None] is a read outside the tree. *)
Fixpoint branch_loop (fuel : nat) (tree : list uint256) (j nSize : nat) (nIndex : Z) : option (list uint256) :=
  match fuel with
  | O => Some []
  | S fuel =>
      if (1 <? nSize)%nat then
        let i := Z.min (Z.lxor nIndex 1) (Z.of_nat nSize - 1) in
        if Z.of_nat j + i <? 0 then None
        else
          h ← tree !! Z.to_nat (Z.of_nat j + i);
          rest ← branch_loop fuel tree (j + nSize) (Nat.div (nSize + 1) 2) (Z.shiftr nIndex 1);
          Some (h :: rest)
      else Some []
  end.

Definition GetMerkleBranch (m : CMerkleTree) (nIndex : Z) : option (list uint256 * CMerkleTree) :=
  m ← (if bool_decide (vMerkleTree m = []) then snd <$> BuildMerkleTree m else Some m);
  branch ← branch_loop (length (vtx m)) (vMerkleTree m) 0 (length (vtx m)) nIndex;
  Some (branch, m).

Definition check_step (p : uint256 * Z) (otherside : uint256) : uint256 * Z :=
  (if Z.testbit p.2 0 then Hash2 otherside p.1 else Hash2 p.1 otherside, Z.shiftr p.2 1).
Definition CheckMerkleBranch (hash : uint256) (vMerkleBranch : list uint256) (nIndex : Z) : uint256 :=
  if nIndex =? -1 then uint256_of 0 else (fold_left check_step vMerkleBranch (hash, nIndex)).1.

(** ** The levels *)

Fixpoint pair_up (l : list uint256) : list uint256 :=
  match l with
  | [] => []
  | [x] => [Hash2 x x]
  | x :: y :: l => Hash2 x y :: pair_up l
  end.

Lemma length_pair_up l : length (pair_up l) = Nat.div (length l + 1) 2.
Proof.
  enough (forall n l, (length l <= n)%nat -> length (pair_up l) = Nat.div (length l + 1) 2) by eauto.
  clear l. induction n as [|n IH]; intros l Hl; [by destruct l; [|cbn in Hl; lia]|].
  destruct l as [|x [|y l]]; [done..|]. cbn [pair_up length] in *. rewrite IH by lia.
  replace (S (S (length l)) + 1)%nat with (1 * 2 + (length l + 1))%nat by lia.
  by rewrite Nat.div_add_l.
Qed.

Lemma length_pair_up_le l fuel : (1 < length l)%nat -> (length l <= S fuel)%nat -> (length (pair_up l) <= fuel)%nat.
Proof.
  intros H1 Hf. rewrite length_pair_up. apply Nat.lt_succ_r, Nat.Div0.div_lt_upper_bound. lia.
Qed.

(** The parent of node [i] hashes the node and its sibling in their order. *)
Lemma pair_up_lookup l i x :
  l !! i = Some x ->
  exists y, l !! Nat.min (if Nat.even i then i + 1 else i - 1) (length l - 1) = Some y
    /\ pair_up l !! Nat.div i 2 = Some (if Nat.even i then Hash2 x y else Hash2 y x).
Proof.
  enough (forall n l i, (i <= n)%nat -> l !! i = Some x ->
    exists y, l !! Nat.min (if Nat.even i then i + 1 else i - 1) (length l - 1) = Some y
    /\ pair_up l !! Nat.div i 2 = Some (if Nat.even i then Hash2 x y else Hash2 y x)) by eauto.
  clear l i. induction n as [|n IH]; intros l i Hi Hx.
  - destruct i; [|lia]. destruct l as [|a [|b l]]; [done|..]; injection Hx as ->; [by exists x|by exists b].
  - destruct i as [|[|i]].
    + apply (IH l 0%nat); [lia|done].
    + destruct l as [|a [|b l]]; [done..|]. injection Hx as ->. by exists a.
    + destruct l as [|a [|b l]]; [done..|]. cbn in Hx.
      destruct (IH l i ltac:(lia) Hx) as (y & Hy & Hp). exists y.
      change (Nat.even (S (S i))) with (Nat.even i).
      replace (Nat.div (S (S i)) 2) with (S (Nat.div i 2)) by (replace (S (S i)) with (1 * 2 + i)%nat by lia; by rewrite Nat.div_add_l by lia).
      split; [|done]. rewrite <-Hy. apply lookup_lt_Some in Hx. cbn [length].
      replace (Nat.min (if Nat.even i then S (S i) + 1 else S (S i) - 1) (S (S (length l)) - 1))
        with (S (S (Nat.min (if Nat.even i then i + 1 else i - 1) (length l - 1)))); [done|].
      destruct (Nat.even i) eqn:He; [lia|]. destruct i; [done|lia].
Qed.

(** ** The flat tree is the concatenation of the levels *)

Fixpoint levels (fuel : nat) (l : list uint256) : list (list uint256) :=
  match fuel with
  | O => [l]
  | S fuel => if (1 <? length l)%nat then l :: levels fuel (pair_up l) else [l]
  end.

Lemma build_pairs_spec fuel pre l i out :
  (length l <= i + 2 * fuel)%nat ->
  build_pairs fuel (length pre) (length l) i (pre ++ l ++ out) = pre ++ l ++ out ++ pair_up (drop i l).
Proof.
  revert i out. induction fuel as [|fuel IH]; intros i out Hf; cbn [build_pairs].
  { rewrite drop_ge by lia. cbn. by rewrite !app_nil_r. }
  destruct (Nat.ltb_spec i (length l)) as [Hi|Hi]; [|rewrite drop_ge by lia; cbn; by rewrite app_nil_r].
  assert (forall k x, l !! k = Some x -> (pre ++ l ++ out) !!! (length pre + k)%nat = x) as Hat.
  { intros k x Hk. apply list_lookup_total_correct. rewrite lookup_app_r by lia.
    replace (length pre + k - length pre)%nat with k by lia. by apply lookup_app_l_Some. }
  destruct (lookup_lt_is_Some_2 l i Hi) as [x Hx]. rewrite (Hat i x Hx).
  rewrite <-!app_assoc. destruct (decide (i + 1 < length l)%nat) as [H1|H1].
  - destruct (lookup_lt_is_Some_2 l (i + 1) H1) as [y Hy].
    replace (Nat.min (i + 1) (length l - 1)) with (i + 1)%nat by lia. rewrite (Hat _ y Hy), IH by lia.
    rewrite (drop_S l x i Hx), (drop_S l y (S i)) by by rewrite <-Nat.add_1_r.
    cbn [pair_up]. rewrite <-!app_assoc. cbn [app]. by replace (i + 2)%nat with (S (S i)) by lia.
  - replace (Nat.min (i + 1) (length l - 1)) with i by lia. rewrite (Hat i x Hx), IH by lia.
    rewrite (drop_S l x i Hx), !drop_ge by lia. cbn [pair_up]. by rewrite <-!app_assoc.
Qed.

Lemma build_levels_spec fuel pre l :
  build_levels fuel (length pre) (length l) (pre ++ l) = pre ++ concat (levels fuel l).
Proof.
  revert pre l. induction fuel as [|fuel IH]; intros pre l; cbn [build_levels levels concat]; [by rewrite app_nil_r|].
  destruct (Nat.ltb_spec 1 (length l)); cbn [concat]; [|by rewrite app_nil_r].
  pose proof (build_pairs_spec (length l) pre l 0 [] ltac:(lia)) as Hb. rewrite !app_nil_r in Hb.
  rewrite Hb. cbn [app drop]. rewrite <-length_pair_up, app_assoc, <-length_app, IH. by rewrite <-app_assoc.
Qed.

(** The last level *)
Fixpoint top (fuel : nat) (l : list uint256) : list uint256 :=
  match fuel with O => l | S fuel => if (1 <? length l)%nat then top fuel (pair_up l) else l end.

Lemma pair_up_ne l : l <> [] -> pair_up l <> [].
Proof. by destruct l as [|? [|? ?]]. Qed.

Lemma top_ne fuel l : l <> [] -> top fuel l <> [].
Proof.
  revert l. induction fuel as [|fuel IH]; intros l Hl; cbn [top]; [done|].
  destruct (1 <? length l)%nat; [|done]. by apply IH, pair_up_ne.
Qed.

Lemma last_levels fuel l : l <> [] -> last (concat (levels fuel l)) = last (top fuel l).
Proof.
  revert l. induction fuel as [|fuel IH]; intros l Hl; cbn [levels top concat]; [by rewrite app_nil_r|].
  destruct (1 <? length l)%nat; cbn [concat]; [|by rewrite app_nil_r].
  rewrite last_app, IH by by apply pair_up_ne.
  destruct (last (top fuel (pair_up l))) eqn:E; [done|].
  apply last_None in E. revert E. intros E. by apply top_ne in E; [|apply pair_up_ne].
Qed.

(** The root is reached: the last level is a single node. *)
Lemma top_single fuel l : l <> [] -> (length l <= fuel)%nat -> exists r, top fuel l = [r].
Proof.
  revert l. induction fuel as [|fuel IH]; intros l Hl Hf; cbn [top]; [by destruct l; [|cbn in Hf; lia]|].
  destruct (Nat.ltb_spec 1 (length l)) as [H|H].
  - apply IH; [by apply pair_up_ne|]. by apply length_pair_up_le.
  - destruct l as [|r [|? ?]]; [done|by exists r|cbn in H; lia].
Qed.

(** ** Branches *)

Lemma lxor_even k : Z.lxor (2 * k) 1 = 2 * k + 1.
Proof.
  rewrite <-Z.add_nocarry_lxor; [done|]. apply Z.bits_inj'. intros n Hn. rewrite Z.land_spec, Z.bits_0.
  destruct (decide (n = 0)) as [->|Hne]; [by rewrite Z.testbit_even_0|].
  change 1 with (2 ^ 0). rewrite Z.pow2_bits_false by lia. by rewrite andb_false_r.
Qed.

Lemma lxor_1 i : Z.lxor (Z.of_nat i) 1 = Z.of_nat (if Nat.even i then i + 1 else i - 1).
Proof.
  destruct (Nat.even i) eqn:He.
  - apply Nat.even_spec in He as [k ->]. rewrite Nat2Z.inj_mul, lxor_even. lia.
  - assert (exists k, i = 2 * k + 1)%nat as [k ->] by (apply Nat.odd_spec; unfold Nat.odd; by rewrite He).
    replace (Z.of_nat (2 * k + 1)) with (2 * Z.of_nat k + 1) by lia.
    rewrite <-lxor_even, Z.lxor_assoc, Z.lxor_nilpotent, Z.lxor_0_r. lia.
Qed.

Lemma testbit_0_nat i : Z.testbit (Z.of_nat i) 0 = negb (Nat.even i).
Proof.
  rewrite Z.bit0_odd, <-Z.negb_even. f_equal. apply eq_true_iff_eq. rewrite Z.even_spec, Nat.even_spec.
  split; intros [k Hk]; [exists (Z.to_nat k)|exists (Z.of_nat k)]; lia.
Qed.

Lemma shiftr_1_nat i : Z.shiftr (Z.of_nat i) 1 = Z.of_nat (Nat.div i 2).
Proof. rewrite Z.shiftr_div_pow2, Nat2Z.inj_div by lia. done. Qed.

Lemma branch_loop_spec fuel pre l i x :
  (length l <= fuel)%nat -> l !! i = Some x ->
  exists branch r,
    branch_loop fuel (pre ++ concat (levels fuel l)) (length pre) (length l) (Z.of_nat i) = Some branch
    /\ top fuel l = [r] /\ (fold_left check_step branch (x, Z.of_nat i)).1 = r.
Proof.
  revert pre l i x. induction fuel as [|fuel IH]; intros pre l i x Hf Hx.
  { destruct l; [done|cbn in Hf; lia]. }
  cbn [branch_loop levels top]. destruct (Nat.ltb_spec 1 (length l)) as [Hl|Hl].
  - destruct (pair_up_lookup l i x Hx) as (y & Hy & Hp).
    set (i' := (if Nat.even i then i + 1 else i - 1)%nat) in *.
    rewrite lxor_1. fold i'. clearbody i'.
    replace (Z.of_nat (length pre) + Z.min (Z.of_nat i') (Z.of_nat (length l) - 1) <? 0) with false by (symmetry; apply Z.ltb_ge; lia).
    replace (Z.to_nat (Z.of_nat (length pre) + Z.min (Z.of_nat i') (Z.of_nat (length l) - 1)))
      with (length pre + Nat.min i' (length l - 1))%nat by lia.
    cbn [concat]. rewrite lookup_app_r by lia.
    replace (length pre + Nat.min i' (length l - 1) - length pre)%nat with (Nat.min i' (length l - 1)) by lia.
    rewrite (lookup_app_l_Some _ _ _ _ Hy). cbn [mbind option_bind].
    destruct (IH (pre ++ l) _ _ _ (length_pair_up_le l fuel Hl Hf) Hp) as (branch & r & Hb & Ht & Hc).
    rewrite length_app, length_pair_up, <-app_assoc in Hb. rewrite shiftr_1_nat, Hb.
    exists (y :: branch), r. split_and!; [done..|]. cbn [fold_left]. unfold check_step at 2. cbn [fst snd].
    rewrite testbit_0_nat, shiftr_1_nat. rewrite <-Hc. by destruct (Nat.even i).
  - destruct l as [|r [|? ?]]; [done| |cbn in Hl; lia]. exists [], r. split_and!; [done..|].
    destruct i; [by injection Hx|done].
Qed.

(** ** What a branch proves *)

(** The strings that [CheckMerkleBranch] hashes on its way to the root *)
Fixpoint preimages (hash : uint256) (branch : list uint256) (nIndex : Z) : list bytes :=
  match branch with
  | [] => []
  | otherside :: branch =>
      (if Z.testbit nIndex 0 then otherside ++ hash else hash ++ otherside)
      :: preimages (check_step (hash, nIndex) otherside).1 branch (Z.shiftr nIndex 1)
  end.

(** Two paths collide: at some level they hash different strings to the same node. *)
Definition collide (l l' : list bytes) : Prop :=
  exists k m m', l !! k = Some m /\ l' !! k = Some m' /\ m <> m' /\ Hash m = Hash m'.

Lemma check_step_hash h n o :
  (check_step (h, n) o).1 = Hash (if Z.testbit n 0 then o ++ h else h ++ o).
Proof. unfold check_step. cbn [fst snd]. destruct (Z.testbit n 0); apply Hash2_Hash. Qed.

Lemma fold_check_inj branch branch' h h' n :
  length branch = length branch' -> length h = length h' ->
  Forall (fun b => length b = 32%nat) branch -> Forall (fun b => length b = 32%nat) branch' ->
  (fold_left check_step branch (h, n)).1 = (fold_left check_step branch' (h', n)).1 ->
  h = h' /\ branch = branch' \/ collide (preimages h branch n) (preimages h' branch' n).
Proof.
  intros Hl Hh Hb. revert branch' h h' n Hl Hh.
  induction Hb as [|o branch Ho Hb IH]; intros [|o' branch'] h h' n Hl Hh Hb'; try done.
  { intros Heq. by left. }
  apply Forall_cons in Hb' as [Ho' Hb']. cbn [fold_left preimages]. intros Heq.
  destruct (IH branch' (check_step (h, n) o).1 (check_step (h', n) o').1 (Z.shiftr n 1)) as [[Hs ->]|(k & Hk)].
  - cbn in Hl. lia.
  - by rewrite !check_step_hash, !length_Hash.
  - done.
  - exact Heq.
  - rewrite !check_step_hash in Hs.
    destruct (decide ((if Z.testbit n 0 then o ++ h else h ++ o) = (if Z.testbit n 0 then o' ++ h' else h' ++ o'))) as [E|E].
    + left. clear Hs IH Heq. destruct (Z.testbit n 0); apply app_inj_1 in E as [-> ->]; (split; reflexivity) || lia.
    + right. exists 0%nat. do 2 eexists. split_and!; [reflexivity..|exact E|exact Hs].
  - right. by exists (S k).
Qed.

Lemma mapM_hashes l hs : mapM GetHash l = Some hs -> length hs = length l /\ Forall (fun h => length h = 32%nat) hs.
Proof.
  intros H%mapM_Some. split; [by eapply Forall2_length in H|].
  induction H as [|tx h l hs Hh _ IH]; constructor; [|done].
  unfold GetHash in Hh. destruct (SerializeTx tx); [|done]. injection Hh as <-. apply length_Hash.
Qed.

Lemma pair_up_hashes l : Forall (fun h => length h = 32%nat) (pair_up l).
Proof.
  enough (forall n l, (length l <= n)%nat -> Forall (fun h => length h = 32%nat) (pair_up l)) by eauto.
  clear l. induction n as [|n IH]; intros l Hl; [destruct l; [constructor|cbn in Hl; lia]|].
  destruct l as [|x [|y l]]; [constructor| |]; cbn [pair_up length] in *.
  - constructor; [|constructor]. by rewrite Hash2_Hash, length_Hash.
  - constructor; [by rewrite Hash2_Hash, length_Hash|]. apply IH. lia.
Qed.

Lemma levels_hashes fuel l : Forall (fun h => length h = 32%nat) l ->
  Forall (fun h => length h = 32%nat) (concat (levels fuel l)).
Proof.
  revert l. induction fuel as [|fuel IH]; intros l Hl; cbn [levels concat]; [by rewrite app_nil_r|].
  destruct (1 <? length l)%nat; cbn [concat]; [|by rewrite app_nil_r].
  apply Forall_app. split; [done|]. apply IH, pair_up_hashes.
Qed.

Lemma branch_loop_hashes fuel tree j n i branch :
  Forall (fun h => length h = 32%nat) tree -> branch_loop fuel tree j n i = Some branch ->
  Forall (fun h => length h = 32%nat) branch.
Proof.
  intros Ht. revert j n i branch. induction fuel as [|fuel IH]; intros j n i branch H; cbn [branch_loop] in H.
  { by injection H as <-. }
  destruct (1 <? n)%nat; [|by injection H as <-]. destruct (_ <? 0); [done|].
  destruct (tree !! _) as [h|] eqn:Eh; [|done]. cbn [mbind option_bind] in H.
  destruct (branch_loop fuel tree _ _ _) as [b|] eqn:Eb; [|done]. injection H as <-.
  constructor; [by eapply Forall_lookup_1 in Ht|by eapply IH].
Qed.

(** The merkle branch of a transaction leads to the root, and nothing else does: the
    branch that [GetMerkleBranch] gives for the transaction at an index makes [CheckMerkleBranch] return
    the root of [BuildMerkleTree], and any hash and branch of the same length that do so at that index
    are the hash of that transaction and its branch - or hash two different strings to the same node on
    the way. *)
Lemma merkle_branch_spec m m' root i tx hash :
  vMerkleTree m = [] -> BuildMerkleTree m = Some (root, m') ->
  vtx m !! i = Some tx -> GetHash tx = Some hash ->
  exists branch,
    GetMerkleBranch m (Z.of_nat i) = Some (branch, m') /\ GetMerkleBranch m' (Z.of_nat i) = Some (branch, m')
    /\ CheckMerkleBranch hash branch (Z.of_nat i) = root
    /\ forall hash' branch',
        length hash' = 32%nat -> Forall (fun b => length b = 32%nat) branch' -> length branch' = length branch ->
        CheckMerkleBranch hash' branch' (Z.of_nat i) = root ->
        hash' = hash /\ branch' = branch
        \/ collide (preimages hash' branch' (Z.of_nat i)) (preimages hash branch (Z.of_nat i)).
Proof.
  intros Hempty Hb Htx Hhash. pose proof Hb as Hb'. unfold BuildMerkleTree in Hb'.
  destruct (mapM GetHash (vtx m)) as [hs|] eqn:Em; [|done]. cbn [mbind option_bind] in Hb'.
  destruct (mapM_hashes _ _ Em) as [Hlen H32]. apply mapM_Some in Em.
  pose proof (Forall2_lookup_l _ _ _ _ _ Em Htx) as (x & Hx & Hxh). simplify_eq.
  pose proof (build_levels_spec (length hs) [] hs) as Ht. cbn [app length] in Ht. rewrite Ht. 
  assert (hs <> []) as Hne by (by destruct hs).
  destruct (branch_loop_spec (length hs) [] hs i hash) as (branch & r & Hbr & Htop & Hck); [done..|].
  cbn [app length] in Hbr. rewrite last_levels, Htop by done. cbn [last default from_option id].
  assert (concat (levels (length hs) hs) <> []) as Hcne.
  { intros E. pose proof (last_levels (length hs) hs Hne) as Hl. rewrite E, Htop in Hl. done. }
  exists branch. unfold GetMerkleBranch, CheckMerkleBranch. rewrite Hempty, Hb. cbn [fmap option_fmap option_map snd].
  rewrite bool_decide_eq_true_2 by done. cbn [mbind option_bind vMerkleTree vtx].
  rewrite Ht, bool_decide_eq_false_2 by done. cbn [mbind option_bind vMerkleTree vtx]. rewrite <-Hlen, Hbr.
  rewrite (proj2 (Z.eqb_neq (Z.of_nat i) (-1))) by lia. split_and!; [done..|].
  intros hash' branch' Hh' Hb2 Hl2 Hck2. apply fold_check_inj; [done| |done| |by rewrite Hck, Hck2].
  - rewrite Hh'. symmetry. by eapply Forall_lookup_1 in H32.
  - eapply branch_loop_hashes; [|exact Hbr]. by apply levels_hashes.
Qed.

(** A block of three transactions *)
Definition ex_tx (v : Z) : CTransaction :=
  Transaction 1 1546300800 [TxIn (OutPoint (uint256_of 7) 1) [0x51] SEQUENCE_FINAL []] [TxOut v [0x51]] 0.
Definition ex_tree : CMerkleTree := MkMerkleTree [ex_tx 1; ex_tx 2; ex_tx 3] [].
Definition ex_root : uint256 := from_option fst [] (BuildMerkleTree ex_tree).
Definition ex_built : CMerkleTree := from_option snd ex_tree (BuildMerkleTree ex_tree).
Definition ex_hash : uint256 := default [] (GetHash (ex_tx 3)).

Lemma merkle_branch_spec_witness :
  exists branch,
    GetMerkleBranch ex_tree 2 = Some (branch, ex_built) /\ length branch = 2%nat
    /\ CheckMerkleBranch ex_hash branch 2 = ex_root.
Proof.
  destruct (merkle_branch_spec ex_tree ex_built ex_root 2 (ex_tx 3) ex_hash) as (branch & Hg & _ & Hc & _).
  - reflexivity.
  - vm_compute. reflexivity.
  - reflexivity.
  - vm_compute. reflexivity.
  - exists branch. split; [exact Hg|]. split; [|exact Hc].
    assert (Some (length branch) = (length ∘ fst) <$> GetMerkleBranch ex_tree 2) as H by (change 2 with (Z.of_nat 2); rewrite Hg; reflexivity).
    enough (Some (length branch) = Some 2%nat) as [= ->] by reflexivity. rewrite H. vm_compute. reflexivity.
Defined.

End Merkle.
