(* ===== verification/CheckQueue.v ===== *)
(** * CheckQueue: the script check queue, as a concurrent system ([checkqueue.h])

    The master thread adds checks and then joins the workers until all of them are done. A state holds
    what the mutex protects and where each thread is; an event is one atomic step: a critical section, the
    run of one check, or what the environment does. Thread 0 is the master. The code between a lock
    and the next [wait], [return] or unlock is one step, because the mutex is held. *)
From S2P Require Import Prelude.

Module CheckQueue.

Section queue.
(** [T] is the type of the verifications, [run] its [operator()]. *)
Context {T : Type}.
Variable run : T -> bool.
Variable nBatchSize : Z.

(** The fields of [CCheckQueue] *)
Record CCheckQueue : Type := Queue {
  queue : list T; nIdle : Z; nTotal : Z; fAllOk : bool; nTodo : Z; fQuit : bool }.

(** Where a thread is: outside [Loop]; before the lock at the top of the [do] loop, with its [nNow] and
    [fOk]; in [cond.wait], or notified and waiting for the mutex; executing a batch of [nNow] checks of
    which [vChecks] are left; back from [Loop]. *)
Inductive pc : Type :=
| Outside
| Enter (nNow : Z) (fOk : bool)
| Asleep
| Woken
| Work (nNow : Z) (vChecks : list T) (fOk : bool)
| Returned (fRet : bool).

(** The thread that calls [Quit] *)
Inductive quitter_pc : Type := QOutside | QAsleep | QWoken | QReturned.

Record state : Type := State {
  q : CCheckQueue; threads : list pc; quitter : quitter_pc; fShutdown : bool }.

Definition set_fQuit (b : bool) (c : CCheckQueue) : CCheckQueue :=
  Queue (queue c) (nIdle c) (nTotal c) (fAllOk c) (nTodo c) b.

Definition CCheckQueue_new : CCheckQueue := Queue [] 0 0 true 0 false.
Definition init (nWorkers : nat) : state := State CCheckQueue_new (replicate (S nWorkers) Outside) QOutside false.

Definition set_nIdle (f : Z -> Z) (c : CCheckQueue) : CCheckQueue :=
  Queue (queue c) (f (nIdle c)) (nTotal c) (fAllOk c) (nTodo c) (fQuit c).
Definition set_nTotal (f : Z -> Z) (c : CCheckQueue) : CCheckQueue :=
  Queue (queue c) (nIdle c) (f (nTotal c)) (fAllOk c) (nTodo c) (fQuit c).
Definition set_fAllOk (b : bool) (c : CCheckQueue) : CCheckQueue :=
  Queue (queue c) (nIdle c) (nTotal c) b (nTodo c) (fQuit c).

(** ** Notifications *)

Definition wake (p : pc) : pc := match p with Asleep => Woken | p => p end.
Definition asleep (p : pc) : bool := match p with Asleep => true | _ => false end.

(** [condMaster.notify_one], [condWorker.notify_all] *)
Definition notify_master (l : list pc) : list pc := match l with [] => [] | m :: l => wake m :: l end.
Definition notify_workers (l : list pc) : list pc :=
  match l with [] => [] | m :: l => m :: (wake <$> l) end.

(** [condWorker.notify_one] wakes a sleeping worker, the thread [w], if there is one. *)
Definition notify_worker (w : nat) (l : list pc) : option (list pc) :=
  if existsb asleep (drop 1 l) then
    match w, l !! w with
    | S _, Some Asleep => Some (<[w := Woken]> l)
    | _, _ => None
    end
  else Some l.

Definition notify_quit (b : bool) (p : quitter_pc) : quitter_pc :=
  match p with QAsleep => if b then QWoken else QAsleep | p => p end.

(** ** [Loop] *)

(** The clean-up of the previous run; the second component says whether the master is notified. *)
Definition cleanup (fMaster : bool) (nNow : Z) (fOk : bool) (c : CCheckQueue) : CCheckQueue * bool :=
  if negb (nNow =? 0) then
    let nTodo' := u32 (nTodo c - nNow) in
    (Queue (queue c) (nIdle c) (nTotal c) (fAllOk c && fOk) nTodo' (fQuit c), (nTodo' =? 0) && negb fMaster)
  else (set_nTotal (fun n => n + 1) c, false).

(** How many checks to take *)
Definition batch_size (c : CCheckQueue) : Z :=
  Z.max 1 (Z.min nBatchSize (u32 (zlen (queue c)) / u32 (nTotal c + nIdle c + 1))).

(** A batch is taken from the back of the queue. *)
Definition take_batch (c : CCheckQueue) : CCheckQueue * pc :=
  let nNow := batch_size c in
  (Queue (take (length (queue c) - Z.to_nat nNow) (queue c)) (nIdle c) (nTotal c) (fAllOk c) (nTodo c) (fQuit c),
   Work nNow (take (Z.to_nat nNow) (reverse (queue c))) (fAllOk c)).

(** From the test of [while (queue.empty())]: return, wait, or take a batch. The last component says
    whether [condQuit] is notified. *)
Definition next_work (fMaster : bool) (c : CCheckQueue) : CCheckQueue * pc * bool :=
  match queue c with
  | [] =>
      if (fMaster || fQuit c) && (nTodo c =? 0) then
        let c' := set_nTotal (fun n => n - 1) c in
        ((if fMaster then set_fAllOk true c' else c'), Returned (fAllOk c), nTotal c' =? 0)
      else (set_nIdle (fun n => n + 1) c, Asleep, false)
  | _ :: _ => (take_batch c, false)
  end.

(** The next step of thread [i] *)
Definition thread_step (i : nat) (s : state) : option state :=
  let fMaster := (i =? 0)%nat in
  match threads s !! i with
  | Some (Enter nNow fOk) =>
      let '(c, wake_master) := cleanup fMaster nNow fOk (q s) in
      let '(c, p, wake_quit) := next_work fMaster c in
      Some (State c (<[i := p]> (if wake_master then notify_master (threads s) else threads s))
              (notify_quit wake_quit (quitter s)) (fShutdown s))
  | Some Woken =>
      let '(c, p, wake_quit) := next_work fMaster (set_nIdle (fun n => n - 1) (q s)) in
      Some (State c (<[i := p]> (threads s)) (notify_quit wake_quit (quitter s)) (fShutdown s))
  | Some (Work nNow (check :: vChecks) fOk) =>
      let fOk := if fOk then run check else fOk in
      Some (State (q s) (<[i := Work nNow vChecks fOk]> (threads s)) (quitter s) (fShutdown s))
  | Some (Work nNow [] fOk) =>
      let p := if fShutdown s then Returned false else Enter nNow fOk in
      Some (State (q s) (<[i := p]> (threads s)) (quitter s) (fShutdown s))
  | _ => None
  end.

(** [Add] *)
Definition Add (vChecks : list T) (w : nat) (s : state) : option state :=
  let c := q s in
  let c := Queue (queue c ++ vChecks) (nIdle c) (nTotal c) (fAllOk c) (u32 (nTodo c + u32 (zlen vChecks))) (fQuit c) in
  ths ← (if zlen vChecks =? 1 then notify_worker w (threads s)
         else Some (if zlen vChecks >? 1 then notify_workers (threads s) else threads s));
  Some (State c ths (quitter s) (fShutdown s)).

(** The loop at the end of [Quit] *)
Definition quit_wait (s : state) : state :=
  State (q s) (threads s) (if nTotal (q s) >? 0 then QAsleep else QReturned) (fShutdown s).
Definition Quit (s : state) : state :=
  quit_wait (State (set_fQuit true (q s)) (notify_workers (threads s)) (quitter s) (fShutdown s)).

Definition IsIdle (s : state) : bool := (nTotal (q s) =? nIdle (q s)) && (nTodo (q s) =? 0) && eqb (fAllOk (q s)) true.

(** ** The system *)

Inductive event : Type :=
| EStart (i : nat)                    (* [Thread()] of a worker, [Wait()] of the master *)
| EStep (i : nat)
| ESpurious (i : nat)                 (* a wait may end without a notification *)
| EAdd (vChecks : list T) (w : nat)   (* by the master, outside [Wait] *)
| EReturn                             (* the master is back from [Wait] *)
| EQuit
| EQuitStep
| EShutdown.                          (* [args_bool::fShutdown] is set *)

Definition step (e : event) (s : state) : option state :=
  match e with
  | EStart i =>
      match threads s !! i with
      | Some Outside => Some (State (q s) (<[i := Enter 0 true]> (threads s)) (quitter s) (fShutdown s))
      | _ => None
      end
  | EStep i => thread_step i s
  | ESpurious i =>
      match threads s !! i with
      | Some Asleep => Some (State (q s) (<[i := Woken]> (threads s)) (quitter s) (fShutdown s))
      | _ => None
      end
  | EAdd vChecks w => match threads s !! 0%nat with Some Outside => Add vChecks w s | _ => None end
  | EReturn =>
      match threads s !! 0%nat with
      | Some (Returned _) => Some (State (q s) (<[0%nat := Outside]> (threads s)) (quitter s) (fShutdown s))
      | _ => None
      end
  | EQuit => match quitter s with QOutside => Some (Quit s) | _ => None end
  | EQuitStep => match quitter s with QWoken => Some (quit_wait s) | _ => None end
  | EShutdown => Some (State (q s) (threads s) (quitter s) true)
  end.

Fixpoint exec (es : list event) (s : state) : option state :=
  match es with [] => Some s | e :: es => s ← step e s; exec es s end.

(** ** Reachable states

    [g] is what the master has added since it was last back from [Wait]. *)
Definition added (g : list T) (e : event) : list T :=
  match e with EAdd vChecks _ => g ++ vChecks | EReturn => [] | _ => g end.

(** The states the node goes through while it is not shutting down, with fewer than 2^32 checks at a time *)
Inductive reachable : list T -> state -> Prop :=
| reachable_init nWorkers : reachable [] (init nWorkers)
| reachable_step g s e s' :
    reachable g s -> step e s = Some s' -> e <> EShutdown -> zlen (added g e) < 2 ^ 32 -> reachable (added g e) s'.

(** *** Sums over threads *)

Fixpoint zsum (f : pc -> Z) (l : list pc) : Z :=
  match l with [] => 0 | p :: l => f p + zsum f l end.

Lemma zsum_at f l i p : l !! i = Some p -> zsum f l = f p + zsum f (delete i l).
Proof.
  revert i. induction l as [|p' l IH]; intros [|i] H; [done..|by injection H as ->|].
  change (delete (S i) (p' :: l)) with (p' :: delete i l). cbn [zsum]. rewrite (IH i H). lia.
Qed.

Lemma forallb_at (f : pc -> bool) l i p : l !! i = Some p -> forallb f l = f p && forallb f (delete i l).
Proof.
  revert i. induction l as [|p' l IH]; intros [|i] H; [done..|by injection H as ->|].
  change (delete (S i) (p' :: l)) with (p' :: delete i l). cbn [forallb]. rewrite (IH i H).
  by rewrite !andb_assoc, (andb_comm (f p')).
Qed.

Lemma delete_insert_at (l : list pc) i p : delete i (<[i := p]> l) = delete i l.
Proof. revert i. induction l as [|p' l IH]; intros [|i]; [done..|]. exact (f_equal (cons p') (IH i)). Qed.

Lemma zsum_insert f l i p p' : l !! i = Some p -> zsum f (<[i := p']> l) = zsum f l - f p + f p'.
Proof.
  intros H. rewrite (zsum_at f l i p H), (zsum_at f (<[i := p']> l) i p').
  - rewrite delete_insert_at. lia.
  - apply list_lookup_insert_eq. by eapply lookup_lt_Some.
Qed.

Lemma forallb_insert (f : pc -> bool) l i p p' :
  l !! i = Some p -> forallb f (<[i := p']> l) = f p' && forallb f (delete i l).
Proof.
  intros H. rewrite (forallb_at f (<[i := p']> l) i p'); [by rewrite delete_insert_at|].
  apply list_lookup_insert_eq. by eapply lookup_lt_Some.
Qed.

Lemma zsum_nonneg f l : (forall p, p ∈ l -> 0 <= f p) -> 0 <= zsum f l.
Proof.
  induction l as [|p l IH]; intros H; cbn [zsum]; [done|].
  pose proof (H p ltac:(by left)). enough (0 <= zsum f l) by lia. apply IH. intros p' Hp'. apply H. by right.
Qed.

(** *** Waking threads *)

Definition wakes : list pc -> list pc -> Prop := Forall2 (fun p p' => p' = p \/ p = Asleep /\ p' = Woken).

Lemma wakes_refl l : wakes l l.
Proof. induction l as [|p l IH]; constructor; auto. Qed.
Lemma wakes_wake l : wakes l (wake <$> l).
Proof. induction l as [|p l IH]; constructor; [|done]. destruct p; auto. Qed.
Lemma wakes_master l : wakes l (notify_master l).
Proof. destruct l as [|p l]; constructor; [|apply wakes_refl]. destruct p; auto. Qed.
Lemma wakes_workers l : wakes l (notify_workers l).
Proof. destruct l as [|p l]; constructor; [by left|apply wakes_wake]. Qed.
Lemma wakes_insert l i : l !! i = Some Asleep -> wakes l (<[i := Woken]> l).
Proof.
  intros E. apply Forall2_same_length_lookup. split; [by rewrite length_insert|]. intros j p p' Hp Hp'.
  destruct (decide (j = i)) as [->|Hne].
  - rewrite list_lookup_insert_eq in Hp' by by eapply lookup_lt_Some. right. split; congruence.
  - rewrite list_lookup_insert_ne in Hp' by done. left. congruence.
Qed.
Lemma wakes_worker w l l' : notify_worker w l = Some l' -> wakes l l'.
Proof.
  unfold notify_worker. destruct (existsb _ _); [|intros [= <-]; apply wakes_refl].
  destruct w as [|w]; [by destruct (l !! 0%nat)|]. destruct (l !! S w) as [[]|] eqn:E; try done.
  intros [= <-]. by apply wakes_insert.
Qed.

Lemma wakes_zsum f l l' : f Asleep = f Woken -> wakes l l' -> zsum f l' = zsum f l.
Proof. intros Hf H. induction H as [|p p' l l' [->|[-> ->]] _ IH]; cbn [zsum]; [done|lia|lia]. Qed.
Lemma wakes_forallb f l l' : f Asleep = f Woken -> wakes l l' -> forallb f l' = forallb f l.
Proof. intros Hf H. induction H as [|p p' l l' [->|[-> ->]] _ IH]; cbn [forallb]; [done|by rewrite IH|by rewrite IH, Hf]. Qed.
Lemma wakes_lookup l l' i p : wakes l l' -> l !! i = Some p -> p <> Asleep -> l' !! i = Some p.
Proof.
  intros H Hp Hne. destruct (Forall2_lookup_l _ _ _ _ _ H Hp) as (p' & Hp' & [->|[-> _]]); [done|by destruct Hne].
Qed.
Lemma wakes_Forall P l l' : P Woken -> wakes l l' -> Forall P l -> Forall P l'.
Proof.
  intros Hf H Hl. induction H as [|p p' l l' Hp _ IH]; [constructor|].
  apply Forall_cons in Hl as [? ?]. constructor; [|by apply IH]. by destruct Hp as [->|[_ ->]].
Qed.

(** *** The invariant *)

Definition pending (p : pc) : Z := match p with Enter n _ | Work n _ _ => n | _ => 0 end.
Definition waiting (p : pc) : Z := match p with Asleep | Woken => 1 | _ => 0 end.
Definition inside (p : pc) : Z :=
  match p with Enter n _ => if n =? 0 then 0 else 1 | Asleep | Woken | Work _ _ _ => 1 | _ => 0 end.
Definition outcome (p : pc) : bool :=
  match p with Work _ l ok => ok && forallb run l | Enter n ok => (n =? 0) || ok | _ => true end.
Definition pc_ok (p : pc) : Prop :=
  match p with Work n l _ => 1 <= n /\ zlen l <= n | Enter n _ => 0 <= n | _ => True end.

(** What has been added succeeds if and only if all is well so far and the rest succeeds. *)
Definition account (g : list T) (s : state) : Prop :=
  forallb run g = fAllOk (q s) && forallb outcome (threads s) && forallb run (queue (q s)).

Definition master_ok (g : list T) (s : state) (m : pc) : Prop :=
  match m with
  | Returned r => r = forallb run g /\ nTodo (q s) = 0 /\ fAllOk (q s) = true
  | Asleep => queue (q s) = [] /\ nTodo (q s) <> 0 /\ account g s
  | _ => account g s
  end.

Record inv (g : list T) (s : state) : Prop := Inv {
  inv_shutdown : fShutdown s = false;
  inv_pcs : Forall pc_ok (threads s);
  inv_todo : nTodo (q s) = zlen (queue (q s)) + zsum pending (threads s);
  inv_small : zlen g < 2 ^ 32;
  inv_bound : nTodo (q s) <= zlen g;
  inv_idle : nIdle (q s) = zsum waiting (threads s);
  inv_total : nTotal (q s) = zsum inside (threads s);
  inv_master : exists m, threads s !! 0%nat = Some m /\ master_ok g s m }.

Lemma pending_nonneg p : pc_ok p -> 0 <= pending p.
Proof. destruct p; cbn; lia. Qed.
Lemma zsum_pending_nonneg l : Forall pc_ok l -> 0 <= zsum pending l.
Proof. intros H. apply zsum_nonneg. intros p Hp. apply pending_nonneg. by eapply Forall_forall in H. Qed.

(** Without pending checks no thread has an outcome to report. *)
Lemma no_pending l : Forall pc_ok l -> zsum pending l = 0 -> forallb outcome l = true.
Proof.
  intros H Hs. induction H as [|p l Hp Hl IH]; [done|]. cbn [zsum forallb] in *.
  pose proof (pending_nonneg p Hp). pose proof (zsum_pending_nonneg l Hl). rewrite IH by lia.
  destruct p as [|n ok| | |n l' ok|]; cbn in *; try done; [|lia]. by replace n with 0 by lia.
Qed.

Lemma pending_at l i p : Forall pc_ok l -> l !! i = Some p -> pending p <= zsum pending l.
Proof.
  intros H Hi. rewrite (zsum_at pending l i p Hi).
  enough (0 <= zsum pending (delete i l)) by lia. apply zsum_pending_nonneg. by apply Forall_delete.
Qed.

(** *** Preservation *)

(** Entering the critical section at the top of the [do] loop is the clean-up and then what a thread
    does that has just been woken. *)
Definition after_cleanup (i : nat) (nNow : Z) (fOk : bool) (s : state) : state :=
  let '(c, wake_master) := cleanup (i =? 0)%nat nNow fOk (q s) in
  State (set_nIdle (fun n => n + 1) c) (<[i := Woken]> (if wake_master then notify_master (threads s) else threads s))
    (quitter s) (fShutdown s).

Lemma set_nIdle_back c : set_nIdle (fun n => n - 1) (set_nIdle (fun n => n + 1) c) = c.
Proof. destruct c. unfold set_nIdle. cbn. f_equal. lia. Qed.

Lemma enter_step i s n ok :
  threads s !! i = Some (Enter n ok) -> thread_step i s = thread_step i (after_cleanup i n ok s).
Proof.
  intros H. unfold thread_step at 1. rewrite H. unfold after_cleanup.
  assert (cleanup (i =? 0)%nat n ok (q s) = ((cleanup (i =? 0)%nat n ok (q s)).1, (cleanup (i =? 0)%nat n ok (q s)).2)) as Hc
    by by destruct (cleanup _ _ _ _).
  revert Hc. generalize (cleanup (i =? 0)%nat n ok (q s)). intros [c w] _.
  unfold thread_step. cbn [threads q quitter fShutdown].
  rewrite list_lookup_insert_eq.
  2: { apply lookup_lt_Some in H. by destruct w, (threads s); cbn in *. }
  rewrite set_nIdle_back. destruct (next_work _ c) as [[c' p] wq].
  by rewrite list_insert_insert_eq.
Qed.

Lemma master_ok_account g s m : master_ok g s m -> (forall r, m <> Returned r) -> account g s.
Proof. destruct m as [| | | | |r]; cbn; intros H Hr; try tauto. by destruct (Hr r). Qed.

(** A master that is not affected by a step of another thread *)
Lemma master_frame g s s' m :
  master_ok g s m -> queue (q s') = queue (q s) -> nTodo (q s') = nTodo (q s) ->
  fAllOk (q s') = fAllOk (q s) -> forallb outcome (threads s') = forallb outcome (threads s) -> master_ok g s' m.
Proof. intros H Hq Ht Ha Ho. destruct m; unfold master_ok, account in *; by rewrite ?Hq, ?Ht, ?Ha, ?Ho. Qed.

Lemma inv_init nWorkers : inv [] (init nWorkers).
Proof.
  assert (forall f n, f Outside = 0 -> zsum f (replicate n Outside) = 0) as Hz.
  { intros f n Hf. induction n as [|n IH]; cbn [replicate zsum]; lia. }
  split; cbn [init CCheckQueue_new q threads fShutdown queue nTodo nIdle nTotal].
  - done.
  - by apply Forall_replicate.
  - by rewrite Hz.
  - done.
  - done.
  - by rewrite Hz.
  - by rewrite Hz.
  - exists Outside. split; [done|]. unfold master_ok, account. cbn. by induction nWorkers.
Qed.

(** Waking threads, and asking for the end *)
Lemma inv_wake g s f ths b :
  inv g s -> wakes (threads s) ths -> inv g (State (set_fQuit f (q s)) ths b (fShutdown s)).
Proof.
  intros [] Hw. split; cbn [q threads fShutdown set_fQuit queue nTodo nIdle nTotal]; try done.
  - by eapply wakes_Forall.
  - by rewrite (wakes_zsum pending _ _ eq_refl Hw).
  - by rewrite (wakes_zsum waiting _ _ eq_refl Hw).
  - by rewrite (wakes_zsum inside _ _ eq_refl Hw).
  - destruct inv_master0 as (m & Hm & Hok). destruct (Forall2_lookup_l _ _ _ _ _ Hw Hm) as (m' & Hm' & Hmm).
    exists m'. split; [done|].
    assert (master_ok g (State (set_fQuit f (q s)) ths b (fShutdown s)) m) as Hok'.
    { eapply master_frame; [exact Hok|done..|]. cbn [threads]. by apply wakes_forallb. }
    destruct Hmm as [->|[-> ->]]; [done|]. by destruct Hok' as (_ & _ & ?).
Qed.

Lemma inv_wake_only g s ths b : inv g s -> wakes (threads s) ths -> inv g (State (q s) ths b (fShutdown s)).
Proof.
  intros HI Hw. pose proof (inv_wake g s (fQuit (q s)) ths b HI Hw) as H.
  replace (set_fQuit _ (q s)) with (q s) in H; [done|]. by destruct (q s).
Qed.

(** A thread moves between places that count the same. *)
Lemma inv_move g s i p p' b :
  inv g s -> threads s !! i = Some p -> pc_ok p' -> pending p' = pending p -> waiting p' = waiting p ->
  inside p' = inside p -> outcome p' = outcome p -> (forall r, p <> Returned r) -> (forall r, p' <> Returned r) -> p' <> Asleep ->
  inv g (State (q s) (<[i := p']> (threads s)) b (fShutdown s)).
Proof.
  intros [] Hi Hok Hp Hw Hin Ho Hr Hr' Ha.
  assert (forallb outcome (<[i := p']> (threads s)) = forallb outcome (threads s)) as Hf.
  { by rewrite (forallb_insert _ _ _ _ _ Hi), (forallb_at _ _ _ _ Hi), Ho. }
  split; cbn [q threads fShutdown]; rewrite ?(zsum_insert _ _ _ _ _ Hi); try done; try lia.
  - by apply Forall_insert.
  - destruct inv_master0 as (m & Hm & Hmo). destruct i as [|i].
    + exists p'. split; [apply list_lookup_insert_eq; by eapply lookup_lt_Some|].
      assert (m = p) as -> by congruence. assert (account g s) as Hac by (by eapply master_ok_account).
      assert (account g (State (q s) (<[0%nat := p']> (threads s)) b (fShutdown s))) as Hac'.
      { unfold account in *. cbn [q threads]. by rewrite Hf. }
      destruct p' as [| | | | |r]; done || by destruct (Hr' r).
    + exists m. split; [by rewrite list_lookup_insert_ne|]. by eapply master_frame.
Qed.

Lemma inv_after_cleanup g s i n ok : inv g s -> threads s !! i = Some (Enter n ok) -> inv g (after_cleanup i n ok s).
Proof.
  intros HI Hi. pose proof HI as [].
  assert (0 <= n) as Hn by exact (Forall_lookup_1 _ _ _ _ inv_pcs0 Hi).
  pose proof (pending_at _ _ _ inv_pcs0 Hi) as Hpend. cbn in Hpend.
  pose proof (zlen_nonneg (queue (q s))) as Hq.
  unfold after_cleanup, cleanup. destruct (Z.eqb_spec n 0) as [->|Hne]; cbn [negb].
  { (* the first turn: the thread is counted *)
    assert (forallb outcome (<[i := Woken]> (threads s)) = forallb outcome (threads s)) as Hf.
    { by rewrite (forallb_insert _ _ _ _ _ Hi), (forallb_at _ _ _ _ Hi). }
    split; cbn [q threads fShutdown set_nIdle set_nTotal queue nTodo nIdle nTotal];
      rewrite ?(zsum_insert _ _ _ _ _ Hi); cbn [pending waiting inside Z.eqb]; try done; try lia.
    - by apply Forall_insert.
    - destruct inv_master0 as (m & Hm & Hmo). destruct i as [|i].
      + exists Woken. split; [apply list_lookup_insert_eq; by eapply lookup_lt_Some|].
        assert (m = Enter 0 ok) as -> by congruence. cbn in Hmo |- *. unfold account in *. cbn [q threads queue fAllOk set_nIdle set_nTotal].
        by rewrite Hf.
      + exists m. split; [by rewrite list_lookup_insert_ne|]. by eapply master_frame. }
  (* the batch that is finished is accounted for *)
  assert (u32 (nTodo (q s) - n) = nTodo (q s) - n) as Hu by (apply u32_small; lia). rewrite Hu.
  set (wake_master := (nTodo (q s) - n =? 0) && negb (i =? 0)%nat).
  set (ths := if wake_master then notify_master (threads s) else threads s).
  assert (wakes (threads s) ths) as Hw.
  { unfold ths. destruct wake_master; [apply wakes_master|apply wakes_refl]. }
  assert (ths !! i = Some (Enter n ok)) as Hi' by by eapply wakes_lookup.
  assert (forallb outcome (threads s) = ok && forallb outcome (<[i := Woken]> ths)) as Hf.
  { rewrite (forallb_insert _ _ _ _ _ Hi'). cbn [outcome andb].
    rewrite <-(wakes_forallb outcome _ _ eq_refl Hw), (forallb_at _ _ _ _ Hi'). cbn [outcome].
    rewrite (proj2 (Z.eqb_neq n 0) Hne). done. }
  split; cbn [q threads fShutdown set_nIdle queue nTodo nIdle nTotal];
    rewrite ?(zsum_insert _ _ _ _ _ Hi'), ?(wakes_zsum pending _ _ eq_refl Hw), ?(wakes_zsum waiting _ _ eq_refl Hw),
      ?(wakes_zsum inside _ _ eq_refl Hw); cbn [pending waiting inside]; rewrite ?(proj2 (Z.eqb_neq n 0) Hne); try done; try lia.
  - apply Forall_insert; [|done]. by eapply wakes_Forall.
  - destruct inv_master0 as (m & Hm & Hmo). 
    assert (forall m', (forall r, m' <> Returned r) -> account g s ->
      account g (State (set_nIdle (fun n => n + 1) (Queue (queue (q s)) (nIdle (q s)) (nTotal (q s)) (fAllOk (q s) && ok)
        (nTodo (q s) - n) (fQuit (q s)))) (<[i := Woken]> ths) (quitter s) (fShutdown s))) as Hac.
    { intros _ _. unfold account. cbn [q threads queue fAllOk set_nIdle]. rewrite Hf. intros ->.
      by rewrite !andb_assoc. }
    destruct i as [|i].
    + exists Woken. split; [apply list_lookup_insert_eq; by eapply lookup_lt_Some|].
      assert (m = Enter n ok) as -> by congruence. by apply (Hac Woken).
    + destruct (Forall2_lookup_l _ _ _ _ _ Hw Hm) as (m' & Hm' & Hmm). exists m'.
      split; [by rewrite list_lookup_insert_ne|]. destruct m as [|k b| | |k l b|r].
      1,2,4,5: (destruct Hmm as [->|[? _]]; [by apply (Hac Outside)|done]).
      * destruct Hmo as (Hq0 & Ht & Ha). destruct Hmm as [->|[_ ->]]; [|by apply (Hac Woken)].
        cbn [master_ok q set_nIdle queue nTodo]. split_and!; [done| |by apply (Hac Woken)].
        intros H0. unfold ths, wake_master in Hm'. rewrite (proj2 (Z.eqb_eq _ _) H0) in Hm'. cbn in Hm'.
        by destruct (threads s) as [|[] ?].
      * destruct Hmo as (_ & Ht & _). lia.
Qed.

(** The batch that is taken is at least one and at most all of the queue. *)
Lemma batch_size_bounds c : queue c <> [] -> 1 <= batch_size c <= zlen (queue c).
Proof.
  intros Hne. unfold batch_size. assert (1 <= zlen (queue c)) by (destruct (queue c); [done|rewrite zlen_cons; pose proof (zlen_nonneg l); lia]).
  assert (0 <= u32 (zlen (queue c)) <= zlen (queue c)) as Hu.
  { unfold u32. split; [apply Z.mod_pos_bound; lia|]. apply Z.mod_le; lia. }
  assert (0 <= u32 (nTotal c + nIdle c + 1)) by (unfold u32; apply Z.mod_pos_bound; lia).
  assert (u32 (zlen (queue c)) / u32 (nTotal c + nIdle c + 1) <= u32 (zlen (queue c))); [|lia].
  destruct (Z.eq_dec (u32 (nTotal c + nIdle c + 1)) 0) as [->|]; [rewrite Z.div_0_r; lia|].
  apply Z.div_le_upper_bound; [lia|]. nia.
Qed.

Lemma forallb_reverse (l : list T) : forallb run (reverse l) = forallb run l.
Proof.
  induction l as [|x l IH]; [done|]. rewrite reverse_cons, forallb_app, IH. cbn [forallb].
  by rewrite andb_true_r, andb_comm.
Qed.

(** What is taken and what stays *)
Lemma forallb_batch (l : list T) n :
  forallb run l = forallb run (take n (reverse l)) && forallb run (take (length l - n) l).
Proof.
  rewrite <-(take_drop (length l - n) l) at 1. rewrite forallb_app, andb_comm. f_equal.
  rewrite <-(forallb_reverse (drop _ _)). f_equal.
  destruct (decide (n <= length l)%nat) as [H|H].
  - assert (reverse l = reverse (drop (length l - n) l) ++ reverse (take (length l - n) l)) as ->
      by by rewrite <-reverse_app, take_drop.
    rewrite take_app_length'; [done|]. rewrite length_reverse, length_drop. lia.
  - replace (length l - n)%nat with 0%nat by lia. by rewrite drop_0, take_ge by (rewrite length_reverse; lia).
Qed.

(** A woken thread that finds the queue empty returns or waits. *)
Lemma inv_settle g s i p c b :
  inv g s -> threads s !! i = Some Woken -> queue c = queue (q s) -> nTodo c = nTodo (q s) ->
  nIdle c = nIdle (q s) - 1 + waiting p -> nTotal c = nTotal (q s) - 1 + inside p ->
  pending p = 0 -> outcome p = true -> pc_ok p ->
  (forall m, threads s !! 0%nat = Some m -> master_ok g s m ->
     if (i =? 0)%nat then master_ok g (State c (<[i := p]> (threads s)) b (fShutdown s)) p else fAllOk c = fAllOk (q s)) ->
  inv g (State c (<[i := p]> (threads s)) b (fShutdown s)).
Proof.
  intros [] Hi Hq Ht Hidle Htotal Hp Ho Hok Hmaster.
  split; cbn [q threads fShutdown]; rewrite ?(zsum_insert _ _ _ _ _ Hi), ?Hq, ?Ht; try done.
  - by apply Forall_insert.
  - rewrite Hp. cbn [pending]. lia.
  - cbn [waiting]. lia.
  - cbn [inside]. lia.
  - destruct inv_master0 as (m & Hm & Hmo). specialize (Hmaster m Hm Hmo). destruct i as [|i]; cbn in Hmaster.
    + exists p. split; [apply list_lookup_insert_eq; by eapply lookup_lt_Some|done].
    + exists m. split; [by rewrite list_lookup_insert_ne|]. eapply master_frame; [done..|]. cbn [threads].
      by rewrite (forallb_insert _ _ _ _ _ Hi), (forallb_at _ _ _ _ Hi), Ho.
Qed.

(** A woken thread that takes a batch *)
Lemma inv_take g s i b :
  inv g s -> threads s !! i = Some Woken -> queue (q s) <> [] ->
  let '(c, p) := take_batch (set_nIdle (fun n => n - 1) (q s)) in
  inv g (State c (<[i := p]> (threads s)) b (fShutdown s)).
Proof.
  intros [] Hi Hne. unfold take_batch.
  pose proof (batch_size_bounds (set_nIdle (fun n => n - 1) (q s)) Hne) as Hb.
  set (k := batch_size _) in *. cbn [set_nIdle queue nIdle nTotal fAllOk nTodo fQuit] in *. clearbody k.
  split; cbn [q threads fShutdown queue nTodo nIdle nTotal]; rewrite ?(zsum_insert _ _ _ _ _ Hi);
    cbn [pending waiting inside]; try done; try lia.
  - apply Forall_insert; [done|]. cbn. unfold zlen. rewrite length_take. lia.
  - rewrite inv_todo0. unfold zlen in *. rewrite length_take. lia.
  - assert (account g s -> forallb run g = fAllOk (q s)
      && forallb outcome (<[i := Work k (take (Z.to_nat k) (reverse (queue (q s)))) (fAllOk (q s))]> (threads s))
      && forallb run (take (length (queue (q s)) - Z.to_nat k) (queue (q s)))) as Hac.
    { intros ->. rewrite (forallb_insert _ _ _ _ _ Hi), (forallb_at _ _ _ _ Hi). cbn [outcome andb].
      rewrite (forallb_batch (queue (q s)) (Z.to_nat k)). by destruct (fAllOk (q s)), (forallb outcome _), (forallb run (take _ (reverse _))). }
    destruct inv_master0 as (m & Hm & Hmo). destruct i as [|i].
    + assert (m = Woken) as -> by congruence. eexists. split; [apply list_lookup_insert_eq; by eapply lookup_lt_Some|].
      by apply Hac.
    + exists m. split; [by rewrite list_lookup_insert_ne|]. destruct m; cbn in Hmo |- *; try by apply Hac.
      * by destruct Hmo as (Hq & _).
      * pose proof (zsum_pending_nonneg _ inv_pcs0). lia.
Qed.

Lemma inv_woken g s i s' : inv g s -> threads s !! i = Some Woken -> thread_step i s = Some s' -> inv g s'.
Proof.
  intros HI Hi. unfold thread_step. rewrite Hi. unfold next_work. cbn [set_nIdle queue nTodo fQuit].
  destruct (queue (q s)) as [|x l] eqn:Hq.
  - assert (forall p, outcome p = true -> forallb outcome (<[i := p]> (threads s)) = forallb outcome (threads s)) as Hf.
    { intros p Hp. by rewrite (forallb_insert _ _ _ _ _ Hi), (forallb_at _ _ _ _ Hi), Hp. }
    destruct (((i =? 0)%nat || fQuit (q s)) && (nTodo (q s) =? 0)) eqn:Hret; intros [= <-].
    + apply andb_true_iff in Hret as [_ H0%Z.eqb_eq]. apply inv_settle; try done.
      1-4: destruct (i =? 0)%nat; cbn; done || lia.
      intros m Hm Hmo. destruct (Nat.eqb_spec i 0) as [->|Hne]; [|done].
      assert (m = Woken) as -> by congruence. cbn in Hmo |- *. split_and!; [|done..].
      destruct HI. unfold account in Hmo. rewrite Hq in *. change (zlen []) with 0 in *.
      rewrite no_pending in Hmo by (done || lia). rewrite Hmo. cbn. by rewrite !andb_true_r.
    + apply inv_settle; try done; [cbn; lia..|]. intros m Hm Hmo.
      destruct (Nat.eqb_spec i 0) as [->|Hne]; [|done]. cbn in Hret. apply Z.eqb_neq in Hret.
      assert (m = Woken) as -> by congruence. cbn in Hmo |- *. split_and!; [by rewrite Hq|done|].
      unfold account in *. cbn [q threads fAllOk queue set_nIdle]. by rewrite Hf.
  - assert (queue (q s) <> []) as Hne by by rewrite Hq.
    pose proof (inv_take g s i (notify_quit false (quitter s)) HI Hi Hne) as H. destruct (take_batch _) as [c p]. intros [= <-]. exact H.
Qed.

Lemma inv_add g s vChecks w s' :
  inv g s -> threads s !! 0%nat = Some Outside -> Add vChecks w s = Some s' -> zlen (g ++ vChecks) < 2 ^ 32 ->
  inv (g ++ vChecks) s'.
Proof.
  intros [] H0 Hs Hsmall. unfold Add in Hs.
  set (ths0 := if zlen vChecks =? 1 then _ else _) in Hs. destruct ths0 as [ths|] eqn:Hths; [|done].
  injection Hs as <-. assert (wakes (threads s) ths) as Hw.
  { unfold ths0 in Hths. destruct (zlen vChecks =? 1); [by eapply wakes_worker|]. injection Hths as <-.
    destruct (zlen vChecks >? 1); [apply wakes_workers|apply wakes_refl]. }
  destruct inv_master0 as (m & Hm & Hmo). assert (m = Outside) as -> by congruence.
  rewrite zlen_app in Hsmall. pose proof (zlen_nonneg vChecks). pose proof (zlen_nonneg g).
  pose proof (zsum_pending_nonneg _ inv_pcs0). pose proof (zlen_nonneg (queue (q s))).
  rewrite (u32_small (zlen vChecks)), u32_small by lia.
  split; cbn [q threads fShutdown queue nTodo nIdle nTotal];
    rewrite ?(wakes_zsum pending _ _ eq_refl Hw), ?(wakes_zsum waiting _ _ eq_refl Hw),
      ?(wakes_zsum inside _ _ eq_refl Hw), ?zlen_app; try done; try lia.
  - by eapply wakes_Forall.
  - exists Outside. split; [by eapply wakes_lookup|]. cbn in Hmo |- *. unfold account in *.
    cbn [q threads fAllOk queue]. rewrite !forallb_app, Hmo, (wakes_forallb outcome _ _ eq_refl Hw).
    by rewrite !andb_assoc.
Qed.

Lemma inv_return g s r b :
  inv g s -> threads s !! 0%nat = Some (Returned r) ->
  inv [] (State (q s) (<[0%nat := Outside]> (threads s)) b (fShutdown s)).
Proof.
  intros [] Hm. destruct inv_master0 as (m & Hm' & Hmo). assert (m = Returned r) as -> by congruence.
  destruct Hmo as (_ & Ht & Ha).
  pose proof (zsum_pending_nonneg _ inv_pcs0). pose proof (zlen_nonneg (queue (q s))).
  assert (queue (q s) = []) as Hq by (apply nil_length_inv; unfold zlen in *; lia).
  split; cbn [q threads fShutdown]; rewrite ?(zsum_insert _ _ _ _ _ Hm); cbn [pending waiting inside]; try done; try lia.
  - by apply Forall_insert.
  - by rewrite Ht.
  - exists Outside. split; [apply list_lookup_insert_eq; by eapply lookup_lt_Some|]. cbn. unfold account.
    cbn [q threads]. rewrite Hq, Ha, no_pending; [done|by apply Forall_insert|].
    rewrite (zsum_insert _ _ _ _ _ Hm). cbn [pending]. lia.
Qed.

Lemma inv_thread g s i s' : inv g s -> thread_step i s = Some s' -> inv g s'.
Proof.
  intros HI Hs. pose proof HI as []. destruct (threads s !! i) as [p|] eqn:Hi; [|by unfold thread_step in Hs; rewrite Hi in Hs].
  destruct p as [|n ok| | |n l ok|r].
  - unfold thread_step in Hs. by rewrite Hi in Hs.
  - rewrite (enter_step _ _ _ _ Hi) in Hs. eapply inv_woken; [by eapply inv_after_cleanup| |exact Hs].
    unfold after_cleanup. destruct (cleanup _ _ _ _) as [c []]; cbn; apply list_lookup_insert_eq;
      apply lookup_lt_Some in Hi; by destruct (threads s).
  - unfold thread_step in Hs. by rewrite Hi in Hs.
  - by eapply inv_woken.
  - pose proof (Forall_lookup_1 _ _ _ _ inv_pcs0 Hi) as [H1 H2]. pose proof (proj2 (Z.eqb_neq n 0) ltac:(lia)) as Hn.
    unfold thread_step in Hs. rewrite Hi in Hs. destruct l as [|x l].
    + rewrite inv_shutdown0 in Hs. injection Hs as <-. rewrite <-inv_shutdown0.
      eapply inv_move; try done; cbn; try lia; rewrite Hn; [done|by rewrite andb_true_r].
    + injection Hs as <-. rewrite zlen_cons in H2. eapply inv_move; try done; cbn; [split; [done|lia]|].
      by destruct ok.
  - unfold thread_step in Hs. by rewrite Hi in Hs.
Qed.

Lemma inv_step g s e s' :
  inv g s -> step e s = Some s' -> e <> EShutdown -> zlen (added g e) < 2 ^ 32 -> inv (added g e) s'.
Proof.
  intros HI. destruct e as [i|i|i|vChecks w| | | |]; cbn [step added]; intros Hs He Hsmall.
  - destruct (threads s !! i) as [[]|] eqn:Hi; try done. injection Hs as <-. by eapply inv_move.
  - by eapply inv_thread.
  - destruct (threads s !! i) as [[]|] eqn:Hi; try done. injection Hs as <-. by apply inv_wake_only, wakes_insert.
  - destruct (threads s !! 0%nat) as [[]|] eqn:H0; try done. by eapply inv_add.
  - destruct (threads s !! 0%nat) as [[]|] eqn:H0; try done. injection Hs as <-. by eapply inv_return.
  - destruct (quitter s); try done. injection Hs as <-.
    exact (inv_wake g s true _ _ HI (wakes_workers _)).
  - destruct (quitter s); try done. injection Hs as <-. exact (inv_wake_only g s _ _ HI (wakes_refl _)).
  - done.
Qed.

Lemma reachable_inv g s : reachable g s -> inv g s.
Proof. intros H. induction H as [n|g s e s' _ IH Hs He Hg]; [apply inv_init|by eapply inv_step]. Qed.

(** *** Progress *)

Definition weight (p : pc) : Z :=
  match p with Enter _ _ => 2 | Woken => 1 | Work _ l _ => zlen l + 3 | _ => 0 end.

(** An upper bound on the steps the threads can still take on their own *)
Definition measure (s : state) : Z := 4 * zlen (queue (q s)) + zsum weight (threads s).

Lemma weight_nonneg p : 0 <= weight p.
Proof. destruct p; cbn; try lia. pose proof (zlen_nonneg vChecks). lia. Qed.
Lemma measure_nonneg s : 0 <= measure s.
Proof.
  unfold measure. pose proof (zlen_nonneg (queue (q s))).
  pose proof (zsum_nonneg weight (threads s) (fun p _ => weight_nonneg p)). lia.
Qed.

Lemma notify_master_weight l : zsum weight (notify_master l) <= zsum weight l + 1.
Proof. destruct l as [|[] l]; cbn [notify_master wake zsum weight]; lia. Qed.

Lemma measure_woken s i s' : threads s !! i = Some Woken -> thread_step i s = Some s' -> measure s' < measure s.
Proof.
  intros Hi. unfold thread_step, measure. rewrite Hi. unfold next_work. cbn [set_nIdle queue nTodo fQuit].
  destruct (queue (q s)) as [|x l] eqn:Hq.
  - destruct (_ && _); intros [= <-]; cbn [threads q set_nIdle queue]; rewrite (zsum_insert _ _ _ _ _ Hi), ?Hq; cbn [weight].
    + destruct (i =? 0)%nat; cbn [set_fAllOk set_nTotal set_nIdle queue]; rewrite Hq; lia.
    + lia.
  - assert (queue (q s) <> []) as Hne by by rewrite Hq. rewrite <-Hq. clear Hq.
    pose proof (batch_size_bounds (set_nIdle (fun n => n - 1) (q s)) Hne) as Hb. unfold take_batch.
    set (k := batch_size _) in *. intros [= <-]. cbn [threads q queue set_nIdle] in *.
    rewrite (zsum_insert _ _ _ _ _ Hi). cbn [weight]. unfold zlen in *. rewrite !length_take, length_reverse. lia.
Qed.

Lemma measure_step s i s' : thread_step i s = Some s' -> measure s' < measure s.
Proof.
  intros Hs. destruct (threads s !! i) as [p|] eqn:Hi; [|by unfold thread_step in Hs; rewrite Hi in Hs].
  destruct p as [|n ok| | |n l ok|r]; try (unfold thread_step in Hs; rewrite Hi in Hs; done).
  - assert (measure (after_cleanup i n ok s) <= measure s) as Hm.
    { unfold after_cleanup, cleanup, measure. pose proof (notify_master_weight (threads s)).
      destruct (n =? 0); cbn [negb]; cbn [threads q set_nIdle set_nTotal queue].
      - rewrite (zsum_insert _ _ _ _ _ Hi). cbn [weight]. lia.
      - destruct (_ && _) eqn:Hw; rewrite (zsum_insert _ _ _ (Enter n ok)) by
          (done || (eapply wakes_lookup; [apply wakes_master|done|done])); cbn [weight]; lia. }
    rewrite (enter_step _ _ _ _ Hi) in Hs. apply measure_woken in Hs; [lia|].
    unfold after_cleanup. destruct (cleanup _ _ _ _) as [c []]; cbn; apply list_lookup_insert_eq;
      apply lookup_lt_Some in Hi; by destruct (threads s).
  - by eapply measure_woken.
  - unfold thread_step in Hs. rewrite Hi in Hs. unfold measure.
    destruct l as [|x l]; injection Hs as <-; cbn [threads q]; rewrite (zsum_insert _ _ _ _ _ Hi); cbn [weight].
    + rewrite zlen_nil. destruct (fShutdown s); cbn [weight]; lia.
    + rewrite zlen_cons. lia.
Qed.

(** The master leaves [Loop] only with a result. *)
Lemma master_stays i s s' :
  thread_step i s = Some s' -> threads s !! 0%nat <> Some Outside -> threads s' !! 0%nat <> Some Outside.
Proof.
  intros Hs H0. assert (exists p ths, threads s' = <[i := p]> ths /\ wakes (threads s) ths /\ p <> Outside) as (p & ths & -> & Hw & Hp).
  { unfold thread_step in Hs. destruct (threads s !! i) as [[|n ok| | |n [|x l] ok|r]|] eqn:Hi; try done.
    - destruct (cleanup _ _ _ _) as [c w]. unfold next_work in Hs.
      destruct (queue c) as [|? ?]; [destruct (_ && _)|destruct (take_batch c) as [c' p'] eqn:Ht; injection Ht as <- <-];
        injection Hs as <-; do 2 eexists; (split; [reflexivity|]; split; [destruct w; [apply wakes_master|apply wakes_refl]|done]).
    - unfold next_work in Hs. cbn [set_nIdle queue] in Hs.
      destruct (queue (q s)) as [|? ?]; [destruct (_ && _)|];
        injection Hs as <-; do 2 eexists; (split; [reflexivity|]; split; [apply wakes_refl|done]).
    - injection Hs as <-. do 2 eexists. split; [reflexivity|]. split; [apply wakes_refl|]. by destruct (fShutdown s).
    - injection Hs as <-. do 2 eexists. split; [reflexivity|]. split; [apply wakes_refl|done]. }
  destruct i as [|i].
  - destruct ths; cbn; [done|congruence].
  - rewrite list_lookup_insert_ne by done. intros H. apply H0.
    destruct (Forall2_lookup_r _ _ _ _ _ Hw H) as (p' & Hp' & [->|[-> [=]]]). done.
Qed.

(** A state in which no thread can move: nothing is left to do. *)
Lemma stuck_done g s :
  inv g s -> (forall i, thread_step i s = None) -> threads s !! 0%nat <> Some Outside ->
  threads s !! 0%nat = Some (Returned (forallb run g)).
Proof.
  intros [] Hstuck Hout. destruct inv_master0 as (m & Hm & Hmo).
  assert (forall i p, threads s !! i = Some p -> p = Outside \/ p = Asleep \/ exists r, p = Returned r) as Hrest.
  { intros i p Hi. specialize (Hstuck i). unfold thread_step in Hstuck. rewrite Hi in Hstuck.
    destruct p as [|n ok| | |n [|x l] ok|r]; eauto.
    - destruct (cleanup _ _ _ _) as [c w]. destruct (next_work _ c) as [[c' p] wq]. done.
    - destruct (next_work _ _) as [[c' p] wq]. done.
    - done.
    - done. }
  assert (zsum pending (threads s) = 0) as Hp.
  { clear -Hrest. induction (threads s) as [|p l IH]; [done|]. cbn [zsum]. rewrite IH by (intros i; apply (Hrest (S i))).
    destruct (Hrest 0%nat p eq_refl) as [->|[->|[r ->]]]; done. }
  destruct (Hrest _ _ Hm) as [->|[->|[r ->]]]; [done| |].
  - destruct Hmo as (Hq & Ht & _). rewrite Hq in inv_todo0. change (zlen []) with 0 in inv_todo0. lia.
  - destruct Hmo as (-> & _). done.
Qed.

Lemma exec_steps ids g s s' :
  inv g s -> exec (EStep <$> ids) s = Some s' -> inv g s' /\ measure s' + zlen ids <= measure s
  /\ (threads s !! 0%nat <> Some Outside -> threads s' !! 0%nat <> Some Outside).
Proof.
  revert s. induction ids as [|i ids IH]; intros s HI H.
  { injection H as <-. rewrite zlen_nil. split_and!; [done|lia|done]. }
  rewrite fmap_cons in H. cbn [exec step] in H. destruct (thread_step i s) as [s1|] eqn:E; [|done]. cbn in H.
  destruct (IH s1) as (H1 & H2 & H3); [by eapply inv_thread|done|]. rewrite zlen_cons.
  pose proof (measure_step _ _ _ E). split_and!; [done|lia|]. intros Ho. by eapply H3, master_stays.
Qed.

(** C26 (safety): the script check queue gives the right answer under every interleaving. In every state that
    the master, the workers, spurious wake-ups and a call of [Quit] can reach while the node is not shutting
    down and fewer than 2^32 checks were added since the master was last back, if the master is back from [Wait], the value it got is true exactly when every check added since
    it was last back succeeds; and if it has added nothing since then, the queue is idle, so the
    assertion of [CCheckQueueControl] holds. *)
Theorem checkqueue_result g s :
  reachable g s ->
  (forall r, threads s !! 0%nat = Some (Returned r) -> r = forallb run g)
  /\ (threads s !! 0%nat = Some Outside -> g = [] -> IsIdle s = true).
Proof.
  intros []%reachable_inv. destruct inv_master0 as (m & Hm & Hmo). split.
  - intros r Hr. assert (m = Returned r) as -> by congruence. by destruct Hmo.
  - intros Ho ->. assert (m = Outside) as -> by congruence. cbn in Hmo. unfold account in Hmo.
    change (zlen []) with 0 in *. pose proof (zsum_pending_nonneg _ inv_pcs0) as Hp.
    pose proof (zlen_nonneg (queue (q s))) as Hq. symmetry in Hmo. apply andb_true_iff in Hmo as [[Ha _]%andb_true_iff _].
    unfold IsIdle. rewrite Ha, inv_idle0, inv_total0. cbn [eqb].
    assert (zsum inside (threads s) = zsum waiting (threads s)) as ->; [|by rewrite Z.eqb_refl, (proj2 (Z.eqb_eq (nTodo (q s)) 0)) by lia].
    assert (zsum pending (threads s) = 0) as H0 by lia. clear -inv_pcs0 H0.
    induction inv_pcs0 as [|p l Hpc Hl IH]; [done|]. cbn [zsum] in *. pose proof (pending_nonneg p Hpc).
    pose proof (zsum_pending_nonneg l Hl). rewrite IH by lia.
    destruct p as [|n ok| | |n l' ok|r]; cbn in *; try done; [|lia]. by replace n with 0 by lia.
Qed.

(** C27 (liveness): [Wait] returns. From every reachable state in which the master has entered [Wait], the threads
    cannot take more than [measure] steps on their own, whatever the order; and whenever none of
    them can move any more, the master is back with the result of all checks. So there is no deadlock and no
    lost wake-up, without any assumption on the scheduler. *)
Theorem checkqueue_liveness g s ids s' :
  reachable g s -> threads s !! 0%nat <> Some Outside -> exec (EStep <$> ids) s = Some s' ->
  zlen ids <= measure s
  /\ ((forall i, thread_step i s' = None) -> threads s' !! 0%nat = Some (Returned (forallb run g))).
Proof.
  intros HI%reachable_inv Ho H. destruct (exec_steps _ _ _ _ HI H) as (HI' & Hm & Ho').
  pose proof (measure_nonneg s'). split; [lia|]. intros Hstuck. apply stuck_done; [done..|]. by apply Ho'.
Qed.
End queue.

Arguments queue {T}.
Arguments threads {T}.
Arguments quitter {T}.
Arguments q {T}.

(** ** Examples *)

(** Reaching a state by a list of events *)
Lemma reachable_exec {T} (run : T -> bool) nBatchSize es g s s' :
  reachable run nBatchSize g s -> exec run nBatchSize es s = Some s' ->
  (forall e, e ∈ es -> e <> EShutdown) -> zlen g + zlen (es ≫= fun e => match e with EAdd l _ => l | _ => [] end) < 2 ^ 32 ->
  reachable run nBatchSize (fold_left added es g) s'.
Proof.
  revert g s. induction es as [|e es IH]; intros g s Hr He Hs Hz; cbn [exec fold_left] in *; [by injection He as <-|].
  destruct (step run nBatchSize e s) as [s1|] eqn:E; [|done]. cbn [mbind option_bind] in He.
  rewrite bind_cons, zlen_app in Hz. pose proof (zlen_nonneg g).
  set (rest := es ≫= _) in *. pose proof (zlen_nonneg rest).
  assert (zlen (added g e) + zlen rest < 2 ^ 32) as Hz'.
  { destruct e; cbn [added] in *; rewrite ?zlen_app, ?zlen_nil in *; lia. }
  apply (IH (added g e) s1); [|done| |done].
  - eapply reachable_step; [done..| |lia]. apply Hs. by left.
  - intros e' He'. apply Hs. by right.
Qed.

Definition ex_run (b : bool) : bool := b.
(** One worker; three checks, of which the second fails; the master and the worker share them. *)
Definition ex_events : list (@event bool) :=
  [EStart 1; EStep 1; EAdd [true; false; true] 1; EStart 0; EStep 1; EStep 0; EStep 1].
Definition ex_state : @state bool := default (init 0) (exec ex_run 128 ex_events (init 1)).
(** The rest of the run, until nothing moves *)
Definition ex_rest : list nat := [0; 0; 1; 0; 0; 0; 1; 0]%nat.
Definition ex_final : @state bool := default (init 0) (exec ex_run 128 (EStep <$> ex_rest) ex_state).

Lemma ex_reachable : reachable ex_run 128 [true; false; true] ex_state.
Proof.
  apply (reachable_exec ex_run 128 ex_events [] (init 1)); [constructor|reflexivity| |reflexivity].
  intros e He. repeat (apply elem_of_cons in He as [->|He]; [discriminate|]). by apply elem_of_nil in He.
Qed.

Lemma checkqueue_result_witness :
  threads ex_final !! 0%nat = Some (Returned false) /\ false = forallb ex_run [true; false; true].
Proof.
  assert (reachable ex_run 128 [true; false; true] ex_final) as H.
  { change [true; false; true] with (fold_left added (EStep <$> ex_rest) [true; false; true]).
    apply (reachable_exec ex_run 128) with (s := ex_state); [exact ex_reachable|vm_compute; reflexivity| |reflexivity].
    intros e (i & -> & _)%list_elem_of_fmap. discriminate. }
  split; [reflexivity|]. apply (checkqueue_result ex_run 128 [true; false; true] ex_final H). reflexivity.
Defined.

Lemma checkqueue_liveness_witness :
  zlen ex_rest <= 21 /\ threads ex_final !! 0%nat = Some (Returned false).
Proof.
  destruct (checkqueue_liveness ex_run 128 [true; false; true] ex_state ex_rest ex_final) as [H1 H2].
  - exact ex_reachable.
  - discriminate.
  - reflexivity.
  - split; [exact H1|]. apply H2. intros [|[|i]]; reflexivity.
Defined.

(** *** Where the queue gets stuck

    [Quit] wakes the workers once. A worker that goes back to sleep because checks are still running is not
    notified when the last of them is done (only the master is), so [Quit] waits forever. *)
Definition ex_quit : list (@event bool) :=
  [EStart 1; EStep 1; EStart 2; EStep 2; EAdd [true] 1; EStep 1; EStart 0; EStep 0; EQuit; EStep 2; EStep 1; EStep 1;
   EStep 1; EStep 0].

Lemma quit_can_hang :
  exists s, exec ex_run 128 ex_quit (init 2) = Some s
    /\ threads s = [Returned true; Returned true; Asleep] /\ quitter s = QAsleep
    /\ (forall i, thread_step ex_run 128 i s = None) /\ step ex_run 128 EQuitStep s = None.
Proof. eexists. split; [vm_compute; reflexivity|]. split_and!; try reflexivity. intros [|[|[|i]]]; reflexivity. Qed.

(** When [fShutdown] is set, a worker leaves [Loop] with its batch unaccounted: the master sleeps forever. *)
Definition ex_shutdown : list (@event bool) :=
  [EStart 1; EStep 1; EAdd [true] 1; EStep 1; EStart 0; EStep 0; EShutdown; EStep 1; EStep 1].

Lemma shutdown_can_hang :
  exists s, exec ex_run 128 ex_shutdown (init 1) = Some s
    /\ threads s = [Asleep; Returned false] /\ (forall i, thread_step ex_run 128 i s = None).
Proof. eexists. split; [vm_compute; reflexivity|]. split; [reflexivity|]. intros [|[|i]]; reflexivity. Qed.

End CheckQueue.
