(* ===== verification/Uint256.v ===== *)
(** * Uint256: the fixed-width unsigned integers ([uint256.h])

    A [base_uint] is its array of 32-bit words, least significant first; the operators are the loops
    of the class over these words. They are proved to be arithmetic modulo [2 ^ BITS]. *)
From S2P Require Import Prelude.

Module Uint256.

(** The array [pn]; its length is [WIDTH]. *)
Abbreviation base_uint := (list Z).

(** ** The operators *)

(** [operator!] *)
Definition is_zero (a : base_uint) : bool := forallb (fun w => w =? 0) a.
Definition compl (a : base_uint) : base_uint := (fun w => u32 (Z.lnot w)) <$> a.

(** [operator++] and [operator--] *)
Fixpoint incr (a : base_uint) : base_uint :=
  match a with
  | [] => []
  | w :: a => let w := u32 (w + 1) in if w =? 0 then w :: incr a else w :: a
  end.
Fixpoint decr (a : base_uint) : base_uint :=
  match a with
  | [] => []
  | w :: a => let w := u32 (w - 1) in if w =? u32 (-1) then w :: decr a else w :: a
  end.

Definition neg (a : base_uint) : base_uint := incr (compl a).

(** [operator=(uint64_t)] at the width of an object *)
Definition of_uint64 (width : nat) (b : Z) : base_uint :=
  u32 b :: u32 (Z.shiftr b 32) :: replicate (width - 2) 0.

Definition xor (a b : base_uint) : base_uint := zip_with Z.lxor a b.
Definition conj (a b : base_uint) : base_uint := zip_with Z.land a b.
Definition disj (a b : base_uint) : base_uint := zip_with Z.lor a b.

(** [operator+=]: the carry goes through the words. *)
Fixpoint add_loop (carry : Z) (a b : base_uint) : base_uint :=
  match a, b with
  | x :: a, y :: b =>
      let n := u64 (carry + x + y) in
      Z.land n 0xffffffff :: add_loop (Z.shiftr n 32) a b
  | _, _ => []
  end.
Definition add (a b : base_uint) : base_uint := add_loop 0 a b.
Definition sub (a b : base_uint) : base_uint := add a (neg b).

(** The body of the loops of [<<=] and [>>=] for the word [x] at [i] of the copy: [pn] *)
Definition or_at (j : nat) (v : Z) (pn : base_uint) : base_uint := <[j := Z.lor (pn !!! j) v]> pn.

Definition shl_step (k : nat) (shift : Z) (pn : base_uint) (i : nat) (x : Z) : base_uint :=
  let pn := if (i + k + 1 <? length pn)%nat && negb (shift =? 0) then or_at (i + k + 1) (Z.shiftr x (32 - shift)) pn else pn in
  if (i + k <? length pn)%nat then or_at (i + k) (u32 (Z.shiftl x shift)) pn else pn.

Definition shr_step (k : nat) (shift : Z) (pn : base_uint) (i : nat) (x : Z) : base_uint :=
  let pn := if (k + 1 <=? i)%nat && negb (shift =? 0) then or_at (i - k - 1) (u32 (Z.shiftl x (32 - shift))) pn else pn in
  if (k <=? i)%nat then or_at (i - k) (Z.shiftr x shift) pn else pn.

Fixpoint shift_loop (f : base_uint -> nat -> Z -> base_uint) (a : base_uint) (i : nat) (pn : base_uint) : base_uint :=
  match a with [] => pn | x :: a => shift_loop f a (S i) (f pn i x) end.

Definition shl (a : base_uint) (shift : Z) : base_uint :=
  shift_loop (shl_step (Z.to_nat (shift / 32)) (shift mod 32)) a 0 (replicate (length a) 0).
Definition shr (a : base_uint) (shift : Z) : base_uint :=
  shift_loop (shr_step (Z.to_nat (shift / 32)) (shift mod 32)) a 0 (replicate (length a) 0).

(** The comparison loops run from the most significant word. *)
Fixpoint lt_loop (a b : base_uint) (equal : bool) : bool :=
  match a, b with
  | x :: a, y :: b => if x <? y then true else if x >? y then false else lt_loop a b equal
  | _, _ => equal
  end.
Fixpoint gt_loop (a b : base_uint) (equal : bool) : bool :=
  match a, b with
  | x :: a, y :: b => if x >? y then true else if x <? y then false else gt_loop a b equal
  | _, _ => equal
  end.
Definition ltb (a b : base_uint) : bool := lt_loop (reverse a) (reverse b) false.
Definition leb (a b : base_uint) : bool := lt_loop (reverse a) (reverse b) true.
Definition gtb (a b : base_uint) : bool := gt_loop (reverse a) (reverse b) false.
Definition geb (a b : base_uint) : bool := gt_loop (reverse a) (reverse b) true.
Definition eqb (a b : base_uint) : bool := forallb (fun p => p.1 =? p.2) (zip a b).

Definition Get32 (n : nat) (a : base_uint) : Z := a !!! n.
Definition Get64 (n : nat) (a : base_uint) : Z := Z.lor (a !!! (2 * n)%nat) (u64 (Z.shiftl (a !!! (2 * n + 1)%nat) 32)).

(** ** Bytes and hexadecimal text *)

(** [begin()] to [end()], and what [memcpy] makes of bytes *)
Definition getBytes (a : base_uint) : bytes := a ≫= le_bytes 4.
Fixpoint of_bytes (b : bytes) : base_uint :=
  match b with
  | b0 :: b1 :: b2 :: b3 :: b => le_value [b0; b1; b2; b3] :: of_bytes b
  | _ => []
  end.

Definition hexdigit (d : Z) : Z := if d <? 10 then 48 + d else 87 + d.
(** [sprintf("%02x")] of the bytes from the last to the first *)
Definition GetHex (a : base_uint) : bytes :=
  reverse (getBytes a) ≫= fun b => [hexdigit (b / 16); hexdigit (b mod 16)].

Definition isspace (c : Z) : bool := (c =? 32) || (9 <=? c) && (c <=? 13).
Definition tolower (c : Z) : Z := if (65 <=? c) && (c <=? 90) then c + 32 else c.
Definition phexdigit (c : Z) : Z :=
  if (48 <=? c) && (c <=? 57) then c - 48
  else if (65 <=? c) && (c <=? 70) then c - 55
  else if (97 <=? c) && (c <=? 102) then c - 87
  else 0.

Fixpoint skip_spaces (s : bytes) : bytes :=
  match s with c :: s' => if isspace c then skip_spaces s' else s | [] => [] end.
Definition skip_0x (s : bytes) : bytes :=
  match s with c :: d :: s' => if (c =? 48) && (tolower d =? 120) then s' else s | _ => s end.
Fixpoint hex_span (s : bytes) : bytes :=
  match s with
  | c :: s => if negb (phexdigit c =? 0) || (c =? 48) then c :: hex_span s else []
  | [] => []
  end.

(** From the last digit backwards, two digits to a byte, from [p1] to [pend] *)
Fixpoint fill_bytes (n : nat) (digits : bytes) : bytes :=
  match n, digits with
  | O, _ => []
  | S n', [] => replicate n 0
  | S n', [d] => phexdigit d :: replicate n' 0
  | S n', d :: e :: digits => Z.lor (phexdigit d) (Z.shiftl (phexdigit e) 4) :: fill_bytes n' digits
  end.
Definition SetHex (width : nat) (psz : bytes) : base_uint :=
  of_bytes (fill_bytes (4 * width) (reverse (hex_span (skip_0x (skip_spaces psz))))).

(** ** Values *)

Definition word_ok (w : Z) : Prop := 0 <= w < 2 ^ 32.
Definition uint_ok (a : base_uint) : Prop := Forall word_ok a.

Fixpoint value (a : base_uint) : Z :=
  match a with [] => 0 | w :: a => w + 2 ^ 32 * value a end.

(** The number of values of an object with the words of [a] *)
Definition modulus (a : base_uint) : Z := 2 ^ (32 * zlen a).

Lemma modulus_cons w a : modulus (w :: a) = 2 ^ 32 * modulus a.
Proof. unfold modulus. rewrite zlen_cons, Z.mul_add_distr_l, Z.pow_add_r by (pose proof (zlen_nonneg a); lia). lia. Qed.
Lemma modulus_pos a : 0 < modulus a.
Proof. unfold modulus. apply Z.pow_pos_nonneg; pose proof (zlen_nonneg a); lia. Qed.
Lemma modulus_length a b : length a = length b -> modulus a = modulus b.
Proof. intros H. unfold modulus, zlen. by rewrite H. Qed.

Lemma value_bound a : uint_ok a -> 0 <= value a < modulus a.
Proof.
  induction 1 as [|w a Hw Ha IH]; [done|]. cbn [value]. rewrite modulus_cons. unfold word_ok in Hw. lia.
Qed.

Lemma u32_ok x : word_ok (u32 x).
Proof. apply Z.mod_pos_bound. lia. Qed.

(** One more word in a sum modulo [2 ^ BITS] *)
Lemma mod_cons x v m : 0 < m -> (x + 2 ^ 32 * v) mod (2 ^ 32 * m) = x mod 2 ^ 32 + 2 ^ 32 * ((x / 2 ^ 32 + v) mod m).
Proof.
  intros Hm. rewrite Z.rem_mul_r by lia.
  replace (x + 2 ^ 32 * v) with (x + v * 2 ^ 32) by lia. by rewrite Z_mod_plus_full, Z.div_add.
Qed.

(** ** Addition, negation, increments *)

Lemma compl_spec a : uint_ok a -> uint_ok (compl a) /\ length (compl a) = length a /\ value (compl a) = modulus a - 1 - value a.
Proof.
  intros Ha. split_and!; [apply Forall_fmap, Forall_true; intros w; apply u32_ok|apply length_fmap|].
  induction Ha as [|w a Hw Ha IH]; [done|]. unfold compl in *. cbn [fmap list_fmap value]. rewrite modulus_cons.
  assert (u32 (Z.lnot w) = 2 ^ 32 - 1 - w) as ->.
  { unfold u32, word_ok, Z.lnot in *. replace (Z.pred (- w)) with ((2 ^ 32 - 1 - w) + (-1) * 2 ^ 32) by lia.
    rewrite Z_mod_plus_full. apply Z.mod_small. lia. }
  lia.
Qed.

Lemma incr_spec a : uint_ok a ->
  uint_ok (incr a) /\ length (incr a) = length a /\ value (incr a) = (value a + 1) mod modulus a.
Proof.
  induction 1 as [|w a Hw Ha (IH1 & IH2 & IH3)]; [split_and!; [constructor|done|reflexivity]|]. cbn [incr]. unfold word_ok in Hw.
  destruct (Z.eqb_spec (u32 (w + 1)) 0) as [E|E]; cbn [length value].
  - assert (w + 1 = 2 ^ 32) as Hw1.
    { unfold u32 in E. destruct (decide (w + 1 < 2 ^ 32)); [rewrite Z.mod_small in E by lia; lia|lia]. }
    rewrite E, IH2, IH3, modulus_cons. split_and!; [by constructor|done|].
    replace (w + 2 ^ 32 * value a + 1) with (2 ^ 32 + 2 ^ 32 * value a) by lia.
    rewrite mod_cons by apply modulus_pos. rewrite Z_mod_same_full, Z_div_same_full by lia. by rewrite (Z.add_comm 1).
  - assert (w + 1 <> 2 ^ 32) as Hne by (intros H; rewrite H in E; done).
    assert (u32 (w + 1) = w + 1) as Hu by (unfold u32; apply Z.mod_small; lia).
    rewrite Hu. split_and!; [constructor; [unfold word_ok; lia|done]|done|].
    rewrite Z.mod_small; [lia|]. pose proof (value_bound a Ha). rewrite modulus_cons. lia.
Qed.

Lemma decr_spec a : uint_ok a ->
  uint_ok (decr a) /\ length (decr a) = length a /\ value (decr a) = (value a - 1) mod modulus a.
Proof.
  induction 1 as [|w a Hw Ha (IH1 & IH2 & IH3)]; [split_and!; [constructor|done|reflexivity]|]. cbn [decr]. unfold word_ok in Hw.
  pose proof (value_bound a Ha). pose proof (modulus_pos a).
  destruct (decide (w = 0)) as [->|Hne].
  - change (0 - 1) with (-1). rewrite Z.eqb_refl. cbn [length value]. rewrite IH2, IH3, modulus_cons.
    split_and!; [constructor; [apply u32_ok|done]|done|].
    replace (0 + 2 ^ 32 * value a - 1) with (2 ^ 32 - 1 + 2 ^ 32 * (value a - 1)) by lia.
    rewrite mod_cons by done.
    by change ((2 ^ 32 - 1) mod 2 ^ 32) with (u32 (-1)); change ((2 ^ 32 - 1) / 2 ^ 32) with 0.
  - assert (u32 (w - 1) = w - 1) as Hu by (unfold u32; rewrite Z.mod_small; lia). rewrite Hu.
    replace (w - 1 =? u32 (-1)) with false by (symmetry; apply Z.eqb_neq; change (u32 (-1)) with (2 ^ 32 - 1); lia).
    cbn [length value]. rewrite modulus_cons. split_and!; [constructor; [unfold word_ok; lia|done]|done|].
    rewrite Z.mod_small; lia.
Qed.

Lemma neg_spec a : uint_ok a ->
  uint_ok (neg a) /\ length (neg a) = length a /\ value (neg a) = (- value a) mod modulus a.
Proof.
  intros Ha. destruct (compl_spec a Ha) as (H1 & H2 & H3). destruct (incr_spec _ H1) as (H4 & H5 & H6).
  unfold neg. split_and!; [done|congruence|]. rewrite H6, H3, (modulus_length _ _ H2).
  replace (modulus a - 1 - value a + 1) with (- value a + 1 * modulus a) by lia. apply Z_mod_plus_full.
Qed.

Lemma add_loop_spec carry a b : uint_ok a -> uint_ok b -> length a = length b -> 0 <= carry <= 1 ->
  uint_ok (add_loop carry a b) /\ length (add_loop carry a b) = length a
  /\ value (add_loop carry a b) = (carry + value a + value b) mod modulus a.
Proof.
  intros Ha Hb. revert carry b Hb. induction Ha as [|x a Hx Ha IH]; intros carry b Hb Hl Hc.
  { split_and!; [constructor|done|]. change (modulus []) with 1. by rewrite Z.mod_1_r. }
  destruct Hb as [|y b Hy Hb]; [done|]. cbn [add_loop length value]. unfold word_ok in Hx, Hy. rewrite modulus_cons.
  rewrite u64_small by lia. change 0xffffffff with (2 ^ 32 - 1). rewrite land_ones_mod, Z.shiftr_div_pow2 by lia.
  assert (0 <= (carry + x + y) / 2 ^ 32 <= 1) as Hc'.
  { split; [apply Z.div_pos; lia|]. apply Z.lt_succ_r, Z.div_lt_upper_bound; lia. }
  injection Hl as Hl. destruct (IH _ b Hb Hl Hc') as (H1 & H2 & H3). rewrite H2, H3.
  split_and!; [constructor; [apply u32_ok|done]|done|].
  replace (carry + (x + 2 ^ 32 * value a) + (y + 2 ^ 32 * value b)) with (carry + x + y + 2 ^ 32 * (value a + value b)) by lia.
  rewrite mod_cons by apply modulus_pos. by rewrite Z.add_assoc.
Qed.

Lemma add_spec a b : uint_ok a -> uint_ok b -> length a = length b ->
  uint_ok (add a b) /\ length (add a b) = length a /\ value (add a b) = (value a + value b) mod modulus a.
Proof. intros. by apply add_loop_spec. Qed.

Lemma sub_spec a b : uint_ok a -> uint_ok b -> length a = length b ->
  uint_ok (sub a b) /\ length (sub a b) = length a /\ value (sub a b) = (value a - value b) mod modulus a.
Proof.
  intros Ha Hb Hl. destruct (neg_spec b Hb) as (H1 & H2 & H3). unfold sub.
  destruct (add_spec a (neg b)) as (H4 & H5 & H6); [done..|congruence|]. split_and!; [done..|].
  rewrite H6, H3, <-(modulus_length a b) by done. by rewrite Zplus_mod_idemp_r.
Qed.

(** ** Comparisons *)

Lemma value_snoc a w : value (a ++ [w]) = value a + modulus a * w.
Proof.
  induction a as [|x a IH]; [change (modulus []) with 1; cbn [app value]; lia|].
  cbn [app value]. rewrite IH, modulus_cons. lia.
Qed.

Lemma reverse_snoc_ind (P : base_uint -> base_uint -> Prop) :
  P [] [] -> (forall a b x y, length a = length b -> P a b -> P (a ++ [x]) (b ++ [y])) ->
  forall a b, length a = length b -> P a b.
Proof.
  intros H0 HS a. induction a as [|x a IH] using rev_ind; intros b Hl.
  { by destruct b. }
  destruct b as [|y b _] using rev_ind; [by rewrite length_app in Hl; cbn in Hl; lia|].
  rewrite !length_app in Hl. cbn in Hl. apply HS; [lia|]. apply IH. lia.
Qed.

Lemma lt_loop_spec a b e : length a = length b -> uint_ok a -> uint_ok b ->
  lt_loop (reverse a) (reverse b) e = (value a <? value b) || (value a =? value b) && e.
Proof.
  intros Hl. revert a b Hl. apply (reverse_snoc_ind (fun a b => uint_ok a -> uint_ok b -> _)); [done|].
  intros a b x y Hl IH [Ha _]%Forall_app [Hb _]%Forall_app. rewrite !reverse_snoc. cbn [lt_loop].
  rewrite !value_snoc, <-(modulus_length a b) by done. pose proof (value_bound a Ha). pose proof (value_bound b Hb).
  rewrite <-(modulus_length a b) in * by done.
  destruct (Z.ltb_spec x y); [symmetry; apply orb_true_iff; left; apply Z.ltb_lt; nia|].
  rewrite Z.gtb_ltb. destruct (Z.ltb_spec y x).
  - symmetry. apply orb_false_iff. split; [apply Z.ltb_ge; nia|]. rewrite (proj2 (Z.eqb_neq _ _)) by nia. done.
  - assert (x = y) as -> by lia. rewrite IH by done. f_equal; [|f_equal]; apply eq_true_iff_eq; rewrite ?Z.ltb_lt, ?Z.eqb_eq; lia.
Qed.

Lemma gt_lt_loop a b e : gt_loop a b e = lt_loop b a e.
Proof. revert b. induction a as [|x a IH]; intros [|y b]; cbn; try done. rewrite IH. rewrite !Z.gtb_ltb. done. Qed.

Lemma eqb_spec a b : length a = length b -> eqb a b = bool_decide (a = b).
Proof.
  unfold eqb. revert b. induction a as [|x a IH]; intros [|y b] Hl; try done. cbn. injection Hl as Hl.
  change (forallb _ (zip_with pair a b)) with (forallb (fun p => p.1 =? p.2) (zip a b)). rewrite IH by done.
  apply eq_true_iff_eq. rewrite andb_true_iff, Z.eqb_eq, !bool_decide_eq_true. naive_solver.
Qed.

Lemma value_inj a b : uint_ok a -> uint_ok b -> length a = length b -> value a = value b -> a = b.
Proof.
  intros Ha Hb. revert b Hb. induction Ha as [|x a Hx Ha IH]; intros b Hb Hl Hv; destruct Hb as [|y b Hy Hb]; try done.
  cbn [value] in Hv. unfold word_ok in *. injection Hl as Hl. assert (x = y) as -> by lia. f_equal. apply IH; [done..|lia].
Qed.

(** ** Bits *)

Definition word (a : base_uint) (j : nat) : Z := default 0 (a !! j).

Lemma word_word_ok a j : uint_ok a -> word_ok (word a j).
Proof. intros Ha. unfold word. destruct (a !! j) eqn:E; cbn; [by eapply Forall_lookup_1 in Ha|done]. Qed.

Lemma value_testbit a n : uint_ok a -> 0 <= n -> Z.testbit (value a) n = Z.testbit (word a (Z.to_nat (n / 32))) (n mod 32).
Proof.
  intros Ha. revert n. induction Ha as [|w a Hw Ha IH]; intros n Hn; cbn [value].
  { unfold word. by rewrite lookup_nil, !Z.bits_0. }
  unfold word_ok in Hw. rewrite (Z.mul_comm (2 ^ 32)), <-lor_shiftl_add, Z.lor_spec, Z.shiftl_spec by lia.
  destruct (decide (n < 32)) as [H|H].
  - by rewrite (Z.testbit_neg_r _ (n - 32)), orb_false_r, Z.div_small, Z.mod_small by lia.
  - rewrite (testbit_high w 32), IH by lia. cbn [orb].
    replace n with (n - 32 + 1 * 32) at 3 4 by lia. rewrite Z.div_add, Z_mod_plus_full by lia.
    rewrite Z2Nat.inj_add, Nat.add_comm by (try apply Z.div_pos; lia). done.
Qed.

(** The result of a loop over words, each of which is or-ed into words of the result *)
Fixpoint contrib (c : nat -> nat -> Z -> Z) (a : base_uint) (i n : nat) : Z :=
  match a with [] => 0 | x :: a => Z.lor (c i n x) (contrib c a (S i) n) end.

Lemma shift_loop_lookup f c a i pn n :
  (forall pn i x n, (i < length pn)%nat -> f pn i x !! n = (fun w => Z.lor w (c i n x)) <$> pn !! n) ->
  (forall pn i x, length (f pn i x) = length pn) -> (i + length a <= length pn)%nat ->
  shift_loop f a i pn !! n = (fun w => Z.lor w (contrib c a i n)) <$> pn !! n.
Proof.
  intros Hf Hlen. revert i pn. induction a as [|x a IH]; intros i pn Hl; cbn [shift_loop contrib].
  - destruct (pn !! n); cbn; [by rewrite Z.lor_0_r|done].
  - cbn [length] in Hl. rewrite IH, Hf by (rewrite ?Hlen; lia). destruct (pn !! n); cbn; [by rewrite Z.lor_assoc|done].
Qed.

Lemma or_at_lookup (b : bool) j v pn n :
  (b = true -> (j < length pn)%nat) ->
  (if b then or_at j v pn else pn) !! n = (fun w => Z.lor w (if b && (n =? j)%nat then v else 0)) <$> pn !! n.
Proof.
  intros Hb. destruct b; cbn [andb]; [|by destruct (pn !! n); cbn; rewrite ?Z.lor_0_r]. unfold or_at.
  destruct (Nat.eqb_spec n j) as [->|Hne].
  - destruct (lookup_lt_is_Some_2 pn j (Hb eq_refl)) as [w Hw].
    rewrite list_lookup_insert_eq, Hw by by apply Hb. cbn. by rewrite (list_lookup_total_correct _ _ _ Hw).
  - rewrite list_lookup_insert_ne by done. by destruct (pn !! n); cbn; rewrite ?Z.lor_0_r.
Qed.

Lemma or_at_length (b : bool) j v pn : length (if b then or_at j v pn else pn) = length pn.
Proof. destruct b; [apply length_insert|done]. Qed.

(** *** Left shift *)

Definition shl_hi (s x : Z) : Z := if s =? 0 then 0 else Z.shiftr x (32 - s).
Definition shl_lo (s x : Z) : Z := u32 (Z.shiftl x s).
Definition shl_c (k : nat) (s : Z) (i n : nat) (x : Z) : Z :=
  Z.lor (if (n =? i + k + 1)%nat then shl_hi s x else 0) (if (n =? i + k)%nat then shl_lo s x else 0).

Lemma shl_step_lookup k s pn i x n : shl_step k s pn i x !! n = (fun w => Z.lor w (shl_c k s i n x)) <$> pn !! n.
Proof.
  unfold shl_step. set (b1 := (i + k + 1 <? length pn)%nat && negb (s =? 0)).
  rewrite or_at_lookup, or_at_length, or_at_lookup.
  - destruct (pn !! n) as [w|] eqn:E; cbn [fmap option_fmap option_map]; [|done]. apply lookup_lt_Some in E. rewrite <-Z.lor_assoc.
    unfold shl_c, shl_hi, b1. do 2 f_equal; f_equal.
    + destruct (Nat.eqb_spec n (i + k + 1)) as [->|]; [|by rewrite andb_false_r].
      rewrite (proj2 (Nat.ltb_lt _ _) E). by destruct (s =? 0).
    + destruct (Nat.eqb_spec n (i + k)) as [->|]; [|by rewrite andb_false_r]. by rewrite (proj2 (Nat.ltb_lt _ _) E).
  - intros [H _]%andb_true_iff. by apply Nat.ltb_lt.
  - rewrite or_at_length. by intros H%Nat.ltb_lt.
Qed.

Lemma shl_contrib k s a i n :
  contrib (shl_c k s) a i n =
    Z.lor (if (i + k + 1 <=? n)%nat then shl_hi s (word a (n - (i + k + 1))) else 0)
          (if (i + k <=? n)%nat then shl_lo s (word a (n - (i + k))) else 0).
Proof.
  assert (shl_hi s 0 = 0) as H0 by (unfold shl_hi; rewrite Z.shiftr_0_l; by destruct (s =? 0)).
  assert (shl_lo s 0 = 0) as H1 by (unfold shl_lo; by rewrite Z.shiftl_0_l).
  revert i. induction a as [|x a IH]; intros i; cbn [contrib].
  { unfold word. rewrite !lookup_nil. cbn [default from_option id]. rewrite H0, H1. by destruct (_ <=? _)%nat, (_ <=? _)%nat. }
  rewrite IH. unfold shl_c.
  assert (forall (f : Z -> Z) m, f 0 = 0 ->
    Z.lor (if (n =? m)%nat then f x else 0) (if (S m <=? n)%nat then f (word a (n - S m)) else 0)
    = if (m <=? n)%nat then f (word (x :: a) (n - m)) else 0) as Hm.
  { intros f m Hf. destruct (Nat.eqb_spec n m) as [->|Hne].
    - rewrite Nat.leb_refl, Nat.sub_diag, (proj2 (Nat.leb_gt (S m) m)) by lia. apply Z.lor_0_r.
    - destruct (Nat.leb_spec m n).
      + rewrite (proj2 (Nat.leb_le (S m) n)) by lia. replace (n - m)%nat with (S (n - S m)) by lia. done.
      + by rewrite (proj2 (Nat.leb_gt (S m) n)) by lia. }
  rewrite <-(Hm (shl_hi s)), <-(Hm (shl_lo s)) by done.
  replace (S i + k + 1)%nat with (S (i + k + 1)) by lia. replace (S i + k)%nat with (S (i + k)) by lia.
  rewrite <-!Z.lor_assoc. f_equal. rewrite !Z.lor_assoc. f_equal. apply Z.lor_comm.
Qed.

(** *** Right shift *)

Definition shr_lo (s x : Z) : Z := if s =? 0 then 0 else u32 (Z.shiftl x (32 - s)).
Definition shr_c (k : nat) (s : Z) (i n : nat) (x : Z) : Z :=
  Z.lor (if (i =? n + k + 1)%nat then shr_lo s x else 0) (if (i =? n + k)%nat then Z.shiftr x s else 0).

Lemma shr_step_lookup k s pn i x n :
  (i < length pn)%nat -> shr_step k s pn i x !! n = (fun w => Z.lor w (shr_c k s i n x)) <$> pn !! n.
Proof.
  intros Hi. unfold shr_step. set (b1 := (k + 1 <=? i)%nat && negb (s =? 0)).
  rewrite or_at_lookup, or_at_lookup.
  - destruct (pn !! n) as [w|] eqn:E; cbn [fmap option_fmap option_map]; [|done]. rewrite <-Z.lor_assoc.
    unfold shr_c, shr_lo, b1. do 2 f_equal; f_equal.
    + destruct (Nat.eqb_spec i (n + k + 1)) as [->|].
      * rewrite (proj2 (Nat.leb_le (k + 1) (n + k + 1))), (proj2 (Nat.eqb_eq n _)) by lia. by destruct (s =? 0).
      * destruct (Nat.leb_spec (k + 1) i); [|done]. by rewrite (proj2 (Nat.eqb_neq n _)), andb_false_r by lia.
    + destruct (Nat.eqb_spec i (n + k)) as [->|].
      * by rewrite (proj2 (Nat.leb_le k (n + k))), (proj2 (Nat.eqb_eq n _)) by lia.
      * destruct (Nat.leb_spec k i); [|done]. by rewrite (proj2 (Nat.eqb_neq n _)) by lia.
  - intros _. lia.
  - intros _. rewrite or_at_length. lia.
Qed.

Lemma shr_contrib k s a i n :
  contrib (shr_c k s) a i n =
    Z.lor (if (i <=? n + k + 1)%nat then shr_lo s (word a (n + k + 1 - i)) else 0)
          (if (i <=? n + k)%nat then Z.shiftr (word a (n + k - i)) s else 0).
Proof.
  assert (shr_lo s 0 = 0) as H0 by (unfold shr_lo; rewrite Z.shiftl_0_l; by destruct (s =? 0)).
  assert (Z.shiftr 0 s = 0) as H1 by apply Z.shiftr_0_l.
  revert i. induction a as [|x a IH]; intros i; cbn [contrib].
  { unfold word. rewrite !lookup_nil. cbn [default from_option id]. rewrite H0, H1. by destruct (_ <=? _)%nat, (_ <=? _)%nat. }
  rewrite IH. unfold shr_c.
  assert (forall (f : Z -> Z) m, f 0 = 0 ->
    Z.lor (if (i =? m)%nat then f x else 0) (if (S i <=? m)%nat then f (word a (m - S i)) else 0)
    = if (i <=? m)%nat then f (word (x :: a) (m - i)) else 0) as Hm.
  { intros f m Hf. destruct (Nat.eqb_spec i m) as [->|Hne].
    - rewrite Nat.leb_refl, Nat.sub_diag, (proj2 (Nat.leb_gt (S m) m)) by lia. apply Z.lor_0_r.
    - destruct (Nat.leb_spec i m).
      + rewrite (proj2 (Nat.leb_le (S i) m)) by lia. replace (m - i)%nat with (S (m - S i)) by lia. done.
      + by rewrite (proj2 (Nat.leb_gt (S i) m)) by lia. }
  rewrite <-(Hm (shr_lo s)), <-(Hm (fun x => Z.shiftr x s)) by done.
  rewrite <-!Z.lor_assoc. f_equal. rewrite !Z.lor_assoc. f_equal. apply Z.lor_comm.
Qed.

(** A shift loop over all words, started from zero *)
Lemma shift_words f c a n :
  (forall pn i x n, (i < length pn)%nat -> f pn i x !! n = (fun w => Z.lor w (c i n x)) <$> pn !! n) ->
  (forall pn i x, length (f pn i x) = length pn) ->
  shift_loop f a 0 (replicate (length a) 0) !! n = if (n <? length a)%nat then Some (contrib c a 0 n) else None.
Proof.
  intros Hf Hl. rewrite (shift_loop_lookup f c) by (rewrite ?length_replicate; done).
  destruct (Nat.ltb_spec n (length a)).
  - by rewrite lookup_replicate_2 by done.
  - by rewrite lookup_ge_None_2 by by rewrite length_replicate.
Qed.

Lemma words_spec (r a : base_uint) (g : nat -> Z) :
  (forall n, r !! n = if (n <? length a)%nat then Some (g n) else None) -> (forall n, word_ok (g n)) ->
  uint_ok r /\ length r = length a /\ forall n, (n < length a)%nat -> word r n = g n.
Proof.
  intros Hr Hg. split_and!.
  - apply Forall_lookup. intros n w. rewrite Hr. destruct (_ <? _)%nat; [intros [= <-]; apply Hg|done].
  - apply Nat.le_antisymm; apply Nat.nlt_ge; intros Hlt.
    + destruct (lookup_lt_is_Some_2 _ _ Hlt) as [w Hw]. rewrite Hr in Hw. by rewrite (proj2 (Nat.ltb_ge _ _)) in Hw by lia.
    + specialize (Hr (length r)). rewrite (proj2 (Nat.ltb_lt _ _) Hlt), lookup_ge_None_2 in Hr by lia. done.
  - intros n Hn. unfold word. by rewrite Hr, (proj2 (Nat.ltb_lt _ _) Hn).
Qed.

(** Equal bits below the width are equal values modulo [2 ^ BITS]. *)
Lemma value_bits r x :
  uint_ok r -> (forall n, 0 <= n < 32 * zlen r -> Z.testbit (value r) n = Z.testbit x n) -> value r = x mod modulus r.
Proof.
  intros Hr H. pose proof (value_bound r Hr) as Hv. unfold modulus in *. pose proof (zlen_nonneg r).
  apply Z.bits_inj'. intros n Hn. destruct (decide (n < 32 * zlen r)).
  - rewrite Z.mod_pow2_bits_low by lia. apply H. lia.
  - rewrite Z.mod_pow2_bits_high by lia. apply (testbit_high _ (32 * zlen r)); lia.
Qed.

(** The place of a bit *)
Lemma bit_place n : 0 <= n -> n = 32 * Z.of_nat (Z.to_nat (n / 32)) + n mod 32 /\ 0 <= n mod 32 < 32.
Proof.
  intros Hn. rewrite Z2Nat.id by (apply Z.div_pos; lia). split; [apply Z_div_mod_eq_full|apply Z.mod_pos_bound; lia].
Qed.
Lemma bit_at a j r : uint_ok a -> 0 <= r < 32 -> Z.testbit (value a) (32 * Z.of_nat j + r) = Z.testbit (word a j) r.
Proof.
  intros Ha Hr. rewrite value_testbit by (done || lia). rewrite (Z.mul_comm 32), Z.div_add_l, Z.div_small by lia.
  rewrite Z.add_0_r, Nat2Z.id, Z.add_comm, Z_mod_plus_full, Z.mod_small by lia. done.
Qed.

Lemma shl_hi_bits s x r : 0 <= s < 32 -> word_ok x -> 0 <= r < 32 ->
  Z.testbit (shl_hi s x) r = if r <? s then Z.testbit x (r - s + 32) else false.
Proof.
  intros Hs Hx Hr. unfold shl_hi. destruct (Z.eqb_spec s 0) as [->|Hne].
  - rewrite Z.bits_0. by rewrite (proj2 (Z.ltb_ge _ _)) by lia.
  - rewrite Z.shiftr_spec by lia. replace (r + (32 - s)) with (r - s + 32) by lia.
    destruct (Z.ltb_spec r s); [done|]. apply (testbit_high _ 32); [exact Hx|lia].
Qed.
Lemma shl_lo_bits s x r : 0 <= s < 32 -> 0 <= r < 32 ->
  Z.testbit (shl_lo s x) r = if r <? s then false else Z.testbit x (r - s).
Proof.
  intros Hs Hr. unfold shl_lo, u32. rewrite Z.mod_pow2_bits_low, Z.shiftl_spec by lia.
  destruct (Z.ltb_spec r s); [apply Z.testbit_neg_r; lia|done].
Qed.

Lemma shl_spec a shift : uint_ok a -> 0 <= shift ->
  uint_ok (shl a shift) /\ length (shl a shift) = length a /\ value (shl a shift) = Z.shiftl (value a) shift mod modulus a.
Proof.
  intros Ha Hs. unfold shl. set (k := Z.to_nat (shift / 32)). set (s := shift mod 32).
  destruct (bit_place shift Hs) as [Hsh Hs32]. fold k s in Hsh, Hs32.
  set (r := shift_loop _ _ _ _).
  destruct (words_spec r a (contrib (shl_c k s) a 0)) as (H1 & H2 & H3).
  - intros n. apply shift_words; [intros; apply shl_step_lookup|]. intros. unfold shl_step. by rewrite !or_at_length.
  - intros n. rewrite shl_contrib. apply lor_bound; [lia|destruct (_ <=? _)%nat; [|lia]..]; [|apply u32_ok].
    unfold shl_hi. destruct (s =? 0); [lia|]. pose proof (word_word_ok a (n - (0 + k + 1)) Ha) as Hw. unfold word_ok in Hw.
    split; [apply Z.shiftr_nonneg; lia|]. rewrite Z.shiftr_div_pow2 by lia.
    apply Z.div_lt_upper_bound; [apply Z.pow_pos_nonneg; lia|]. pose proof (Z.pow_pos_nonneg 2 (32 - s)). nia.
  - split_and!; [done..|]. rewrite <-(modulus_length r a) by done. apply value_bits; [done|]. intros n Hn.
    destruct (bit_place n (proj1 Hn)) as [Hn32 Hr]. set (j := Z.to_nat (n / 32)) in *. set (b := n mod 32) in *.
    rewrite Hn32 at 1. rewrite bit_at, H3 by (done || (unfold zlen in Hn; lia)).
    rewrite shl_contrib, Z.lor_spec, Z.shiftl_spec by lia. cbn [Nat.add].
    destruct (Z.ltb_spec b s) as [Hb|Hb].
    + transitivity (if (k + 1 <=? j)%nat then Z.testbit (word a (j - (k + 1))) (b - s + 32) else false).
      { destruct (k + 1 <=? j)%nat, (k <=? j)%nat; rewrite ?shl_hi_bits, ?shl_lo_bits, ?Z.bits_0 by (done || by apply word_word_ok);
          rewrite ?(proj2 (Z.ltb_lt b s)) by done; by rewrite ?orb_false_r. }
      destruct (Nat.leb_spec (k + 1) j) as [Hk|Hk]; [|symmetry; apply Z.testbit_neg_r; lia].
      rewrite <-bit_at by (done || lia). f_equal. lia.
    + transitivity (if (k <=? j)%nat then Z.testbit (word a (j - k)) (b - s) else false).
      { destruct (k + 1 <=? j)%nat, (k <=? j)%nat; rewrite ?shl_hi_bits, ?shl_lo_bits, ?Z.bits_0 by (done || by apply word_word_ok);
          rewrite ?(proj2 (Z.ltb_ge b s)) by done; done. }
      destruct (Nat.leb_spec k j) as [Hk|Hk]; [|symmetry; apply Z.testbit_neg_r; lia].
      rewrite <-bit_at by (done || lia). f_equal. lia.
Qed.

Lemma shr_lo_bits s x r : 0 <= s < 32 -> 0 <= r < 32 ->
  Z.testbit (shr_lo s x) r = if r + s <? 32 then false else Z.testbit x (r + s - 32).
Proof.
  intros Hs Hr. unfold shr_lo. destruct (Z.eqb_spec s 0) as [->|Hne].
  - rewrite Z.bits_0. by rewrite (proj2 (Z.ltb_lt _ _)) by lia.
  - unfold u32. rewrite Z.mod_pow2_bits_low, Z.shiftl_spec by lia. replace (r - (32 - s)) with (r + s - 32) by lia.
    destruct (Z.ltb_spec (r + s) 32); [apply Z.testbit_neg_r; lia|done].
Qed.

Lemma shr_spec a shift : uint_ok a -> 0 <= shift ->
  uint_ok (shr a shift) /\ length (shr a shift) = length a /\ value (shr a shift) = Z.shiftr (value a) shift.
Proof.
  intros Ha Hs. unfold shr. set (k := Z.to_nat (shift / 32)). set (s := shift mod 32).
  destruct (bit_place shift Hs) as [Hsh Hs32]. fold k s in Hsh, Hs32.
  set (r := shift_loop _ _ _ _).
  assert (forall j, 0 <= Z.shiftr (word a j) s < 2 ^ 32) as Hshr.
  { intros j. pose proof (word_word_ok a j Ha) as Hw. unfold word_ok in Hw.
    split; [apply Z.shiftr_nonneg; lia|]. rewrite Z.shiftr_div_pow2 by lia.
    apply Z.div_lt_upper_bound; [apply Z.pow_pos_nonneg; lia|]. pose proof (Z.pow_pos_nonneg 2 s). nia. }
  destruct (words_spec r a (contrib (shr_c k s) a 0)) as (H1 & H2 & H3).
  - intros n. apply shift_words; [intros; by apply shr_step_lookup|]. intros. unfold shr_step. by rewrite !or_at_length.
  - intros n. rewrite shr_contrib. apply lor_bound; [lia| |by destruct (_ <=? _)%nat].
    destruct (_ <=? _)%nat; [|lia]. unfold shr_lo. destruct (s =? 0); [lia|apply u32_ok].
  - split_and!; [done..|]. assert (0 <= value a < modulus a) as Hv by by apply value_bound.
    rewrite <-(Z.mod_small (Z.shiftr (value a) shift) (modulus r)).
    2: { rewrite (modulus_length r a), Z.shiftr_div_pow2 by done. split; [apply Z.div_pos; [lia|]; apply Z.pow_pos_nonneg; lia|].
         apply Z.div_lt_upper_bound; [apply Z.pow_pos_nonneg; lia|]. pose proof (Z.pow_pos_nonneg 2 shift). nia. }
    apply value_bits; [done|]. intros n Hn.
    destruct (bit_place n (proj1 Hn)) as [Hn32 Hr]. set (j := Z.to_nat (n / 32)) in *. set (b := n mod 32) in *.
    rewrite Hn32 at 1. rewrite bit_at, H3 by (done || (unfold zlen in Hn; lia)).
    rewrite shr_contrib. cbn [Nat.leb]. rewrite Z.lor_spec, shr_lo_bits, !Z.shiftr_spec by lia.
    rewrite !Nat.sub_0_r. destruct (Z.ltb_spec (b + s) 32) as [Hb|Hb]; cbn [orb].
    + rewrite <-bit_at by (done || lia). f_equal. lia.
    + rewrite (testbit_high (word a (j + k)) 32), orb_false_r by (by apply word_word_ok || lia).
      rewrite <-bit_at by (done || lia). f_equal. lia.
Qed.

(** ** Bitwise operators *)

Lemma bitwise_spec (f : Z -> Z -> Z) (g : bool -> bool -> bool) a b :
  (forall x y n, 0 <= n -> Z.testbit (f x y) n = g (Z.testbit x n) (Z.testbit y n)) -> g false false = false ->
  (forall x y, word_ok x -> word_ok y -> word_ok (f x y)) ->
  uint_ok a -> uint_ok b -> length a = length b ->
  uint_ok (zip_with f a b) /\ length (zip_with f a b) = length a /\ value (zip_with f a b) = f (value a) (value b) mod modulus a.
Proof.
  intros Hf Hg Hw Ha Hb Hl.
  assert (uint_ok (zip_with f a b)) as Hr.
  { apply Forall_lookup. intros n w. rewrite lookup_zip_with_Some. intros (x & y & -> & Hx & Hy).
    apply Hw; [by eapply Forall_lookup_1 in Ha|by eapply Forall_lookup_1 in Hb]. }
  assert (length (zip_with f a b) = length a) as Hlen by (rewrite length_zip_with; lia).
  split_and!; [done..|]. rewrite <-(modulus_length (zip_with f a b) a) by done. apply value_bits; [done|]. intros n Hn.
  rewrite Hf, !value_testbit by (done || lia). unfold word. destruct (bit_place n (proj1 Hn)) as [Hn32 Hr32].
  set (j := Z.to_nat (n / 32)) in *. unfold zlen in Hn. rewrite Hlen in Hn.
  destruct (lookup_lt_is_Some_2 a j ltac:(lia)) as [x Hx]. destruct (lookup_lt_is_Some_2 b j ltac:(lia)) as [y Hy].
  rewrite lookup_zip_with, Hx, Hy. apply Hf. lia.
Qed.

(** ** Hexadecimal text *)

Lemma of_bytes_getBytes a : uint_ok a -> of_bytes (getBytes a) = a.
Proof.
  induction 1 as [|w a Hw Ha IH]; [done|]. unfold getBytes in *. rewrite bind_cons.
  pose proof (le_value_le_bytes 4 w Hw) as Hv. cbn [le_bytes app of_bytes] in *. by rewrite Hv, IH.
Qed.

Lemma getBytes_length a : length (getBytes a) = (4 * length a)%nat.
Proof. induction a as [|w a IH]; [done|]. unfold getBytes in *. rewrite bind_cons, length_app, length_le_bytes, IH. cbn. lia. Qed.

Lemma getBytes_ok a : bytes_ok (getBytes a).
Proof. induction a as [|w a IH]; [constructor|]. unfold getBytes in *. rewrite bind_cons. apply Forall_app. split; [apply le_bytes_ok|done]. Qed.

(** Facts about one byte *)
Lemma hex_byte b : is_byte b ->
  phexdigit (hexdigit (b / 16)) = b / 16 /\ phexdigit (hexdigit (b mod 16)) = b mod 16
  /\ Z.lor (b mod 16) (Z.shiftl (b / 16) 4) = b
  /\ isspace (hexdigit (b / 16)) = false /\ (tolower (hexdigit (b mod 16)) =? 120) = false
  /\ negb (phexdigit (hexdigit (b / 16)) =? 0) || (hexdigit (b / 16) =? 48) = true
  /\ negb (phexdigit (hexdigit (b mod 16)) =? 0) || (hexdigit (b mod 16) =? 48) = true.
Proof.
  intros Hb. assert (forall P, forallb P (seqZ 0 256) = true -> P b = true) as Hall by (intros P HP; by apply (byte_forall P)).
  split_and!; try apply Z.eqb_eq; try apply negb_true_iff.
  - exact (Hall (fun b => phexdigit (hexdigit (b / 16)) =? b / 16) eq_refl).
  - exact (Hall (fun b => phexdigit (hexdigit (b mod 16)) =? b mod 16) eq_refl).
  - exact (Hall (fun b => Z.lor (b mod 16) (Z.shiftl (b / 16) 4) =? b) eq_refl).
  - exact (Hall (fun b => negb (isspace (hexdigit (b / 16)))) eq_refl).
  - exact (Hall (fun b => negb (tolower (hexdigit (b mod 16)) =? 120)) eq_refl).
  - exact (Hall (fun b => negb (phexdigit (hexdigit (b / 16)) =? 0) || (hexdigit (b / 16) =? 48)) eq_refl).
  - exact (Hall (fun b => negb (phexdigit (hexdigit (b mod 16)) =? 0) || (hexdigit (b mod 16) =? 48)) eq_refl).
Qed.

Definition hex_of (l : bytes) : bytes := l ≫= fun b => [hexdigit (b / 16); hexdigit (b mod 16)].

Lemma hex_span_hex l : bytes_ok l -> hex_span (hex_of l) = hex_of l.
Proof.
  induction 1 as [|b l Hb Hl IH]; [done|]. unfold hex_of in *. rewrite bind_cons. cbn [app hex_span].
  destruct (hex_byte b Hb) as (_ & _ & _ & _ & _ & -> & ->). by rewrite IH.
Qed.

Lemma fill_bytes_hex l : bytes_ok l -> fill_bytes (length l) (reverse (hex_of (reverse l))) = l.
Proof.
  induction 1 as [|b l Hb Hl IH]; [done|]. unfold hex_of in *. rewrite reverse_cons, bind_app, reverse_app. cbn.
  destruct (hex_byte b Hb) as (E1 & E2 & E3 & _). rewrite E1, E2, E3. f_equal. exact IH.
Qed.

Lemma SetHex_GetHex a : uint_ok a -> SetHex (length a) (GetHex a) = a.
Proof.
  intros Ha. unfold SetHex. change (GetHex a) with (hex_of (reverse (getBytes a))).
  assert (bytes_ok (reverse (getBytes a))) as Hr by (apply Forall_reverse, getBytes_ok).
  assert (skip_0x (skip_spaces (hex_of (reverse (getBytes a)))) = hex_of (reverse (getBytes a))) as ->.
  { destruct Hr as [|b l Hb Hl]; [done|]. unfold hex_of. rewrite bind_cons. cbn [app skip_spaces].
    destruct (hex_byte b Hb) as (_ & _ & _ & -> & E & _). cbn [skip_0x]. by rewrite E, andb_false_r. }
  rewrite hex_span_hex by done. rewrite <-getBytes_length, fill_bytes_hex by apply getBytes_ok. by apply of_bytes_getBytes.
Qed.

(** ** What the operators compute *)

(** [r] has the width of [a] and represents [x] modulo [2 ^ BITS]. *)
Definition represents (a r : base_uint) (x : Z) : Prop :=
  uint_ok r /\ length r = length a /\ value r = x mod modulus a.

Lemma is_zero_spec a : uint_ok a -> is_zero a = (value a =? 0).
Proof.
  induction 1 as [|w a Hw Ha IH]; [done|]. unfold is_zero in *. cbn [forallb value]. rewrite IH.
  pose proof (value_bound a Ha). unfold word_ok in Hw. apply eq_true_iff_eq. rewrite andb_true_iff, !Z.eqb_eq. lia.
Qed.

(** C30 (refinement): the operators of [base_uint] are arithmetic modulo [2 ^ BITS] at every width: sum,
    difference, negation, complement, the increments, the bitwise operators and both shifts keep the
    width and compute the number they should, and the comparisons compare the numbers. *)
Theorem base_uint_refines a b shift :
  uint_ok a -> uint_ok b -> length a = length b -> 0 <= shift ->
  Forall (fun p => represents a p.1 p.2)
    [(add a b, value a + value b); (sub a b, value a - value b); (neg a, - value a); (compl a, -1 - value a);
     (incr a, value a + 1); (decr a, value a - 1);
     (xor a b, Z.lxor (value a) (value b)); (conj a b, Z.land (value a) (value b)); (disj a b, Z.lor (value a) (value b));
     (shl a shift, value a * 2 ^ shift); (shr a shift, value a / 2 ^ shift)]
  /\ ltb a b = (value a <? value b) /\ leb a b = (value a <=? value b)
  /\ gtb a b = (value b <? value a) /\ geb a b = (value b <=? value a)
  /\ eqb a b = (value a =? value b) /\ is_zero a = (value a =? 0).
Proof.
  intros Ha Hb Hl Hs. pose proof (value_bound a Ha) as Hva. split.
  - repeat (apply Forall_cons; split; [cbn [fst snd]; unfold represents|]); [..|constructor].
    + by apply add_spec.
    + by apply sub_spec.
    + by apply neg_spec.
    + destruct (compl_spec a Ha) as (H1 & H2 & ->). split_and!; [done..|].
      replace (-1 - value a) with (modulus a - 1 - value a + (-1) * modulus a) by lia.
      rewrite Z_mod_plus_full, Z.mod_small by lia. done.
    + by apply incr_spec.
    + by apply decr_spec.
    + apply (bitwise_spec Z.lxor xorb); try done; [intros; apply Z.lxor_spec|intros; by apply lxor_bound].
    + apply (bitwise_spec Z.land andb); try done; [intros; apply Z.land_spec|intros; by apply land_bound_r].
    + apply (bitwise_spec Z.lor orb); try done; [intros; apply Z.lor_spec|intros; by apply lor_bound].
    + rewrite <-Z.shiftl_mul_pow2 by done. by apply shl_spec.
    + destruct (shr_spec a shift Ha Hs) as (H1 & H2 & H3). split_and!; [done..|].
      rewrite <-Z.shiftr_div_pow2, <-H3, <-(modulus_length (shr a shift) a) by done.
      rewrite Z.mod_small; [done|by apply value_bound].
  - unfold ltb, leb, gtb, geb. rewrite !gt_lt_loop, !lt_loop_spec by done.
    rewrite eqb_spec, is_zero_spec by done. split_and!; try done; apply eq_true_iff_eq;
      rewrite ?orb_true_iff, ?andb_true_iff, ?Z.ltb_lt, ?Z.leb_le, ?Z.eqb_eq, ?bool_decide_eq_true; try lia.
    split; [by intros ->|by apply value_inj].
Qed.

Definition ex_a : base_uint := [0xffffffff; 0xffffffff; 1; 0; 0; 0; 0; 0].
Definition ex_b : base_uint := [1; 0; 0; 0; 0; 0; 0; 0x80000000].

Lemma base_uint_refines_witness :
  value (add ex_a ex_b) = 2 ^ 65 + 2 ^ 255 /\ value (shl ex_b 1) = 2 /\ ltb ex_a ex_b = true.
Proof.
  destruct (base_uint_refines ex_a ex_b 1) as (H & Hlt & _).
  - repeat constructor; unfold word_ok; lia.
  - repeat constructor; unfold word_ok; lia.
  - reflexivity.
  - lia.
  - apply Forall_cons in H as [(_ & _ & Hv) _]. cbn [fst snd] in Hv. rewrite Hv, Hlt. split_and!; vm_compute; reflexivity.
Defined.

Lemma ex_SetHex : SetHex 8 [48; 120; 49; 50; 65] = [0x12a; 0; 0; 0; 0; 0; 0; 0].
Proof. reflexivity. Qed.

End Uint256.
