(* ===== verification/BlockData.v ===== *)
(** * BlockData: block headers, blocks and the entries of the block index ([block/block.h])

    The data of a block and of its index entry with their member functions and their stream formats. An
    entry of the block index is reached through [mapBlockIndex], so a pointer to one is its hash;
    functions that walk along [pprev] take the list of the entries they meet, nearest first. *)
From stdpp Require Import sorting.
From S2P Require Import Prelude ScriptNum Script Serialize Crypto Transaction Merkle Uint256.
Import Serialize Tx.

Module BlockData.

(** ** Headers *)

(** [CBlockHeader] *)
Record CBlockHeader : Set := BlockHeader {
  bh_nVersion : Z; bh_hashPrevBlock : uint256; bh_hashMerkleRoot : uint256;
  bh_nTime : Z; bh_nBits : Z; bh_nNonce : Z }.
#[global] Instance CBlockHeader_eq_dec : EqDecision CBlockHeader.
Proof. solve_decision. Defined.

Definition BLOCK_CURRENT_VERSION : Z := 6.
Definition CBlockHeader_SetNull : CBlockHeader := BlockHeader BLOCK_CURRENT_VERSION (uint256_of 0) (uint256_of 0) 0 0 0.
Definition CBlockHeader_IsNull (h : CBlockHeader) : bool := bh_nBits h =? 0.

(** [SerializationOp]; these 80 bytes are the object in memory as well. *)
Definition header_codec : codec CBlockHeader :=
  map_codec (tuple4 int32_le (flat 32) (flat 32) (tuple3 (uint_le 4) (uint_le 4) (uint_le 4)))
    (fun p => BlockHeader p.1.1.1 p.1.1.2 p.1.2 p.2.1.1 p.2.1.2 p.2.2)
    (fun h => (bh_nVersion h, bh_hashPrevBlock h, bh_hashMerkleRoot h, (bh_nTime h, bh_nBits h, bh_nNonce h))).

Definition GetBlockTime (h : CBlockHeader) : Z := bh_nTime h.
Definition UpdateTime (GetAdjustedTime : Z) (h : CBlockHeader) : CBlockHeader :=
  BlockHeader (bh_nVersion h) (bh_hashPrevBlock h) (bh_hashMerkleRoot h)
    (u32 (Z.max (GetBlockTime h) GetAdjustedTime)) (bh_nBits h) (bh_nNonce h).

(** The hash of a header, [scrypt_blockhash] of the 80 bytes *)
Class BlockHash : Type := scrypt_blockhash : bytes -> uint256.
Definition header_hash `{BlockHash} (h : CBlockHeader) : uint256 := scrypt_blockhash (put header_codec h).

(** ** Blocks *)

(** [CBlock_impl]: the header, the transactions and the signature. The cached merkle tree is rebuilt wherever it
    is used; the denial-of-service score is part of the results. *)
Record CBlock : Set := Block { b_header : CBlockHeader; b_vtx : list CTransaction; b_vchBlockSig : bytes }.

(** [SetNull] leaves the transactions alone. *)
Definition CBlock_SetNull (b : CBlock) : CBlock := Block CBlockHeader_SetNull (b_vtx b) [].

Definition block_hash `{BlockHash} (b : CBlock) : uint256 := header_hash (b_header b).
Definition block_merkle_root (b : CBlock) : option uint256 :=
  fst <$> Merkle.BuildMerkleTree (Merkle.MkMerkleTree (b_vtx b) []).

Definition IsProofOfStake (b : CBlock) : bool :=
  match b_vtx b with _ :: tx :: _ => IsCoinStake tx | _ => false end.
Definition IsProofOfWork (b : CBlock) : bool := negb (IsProofOfStake b).

(** A coinstake has an input, so the reads are in range. *)
Definition GetProofOfStake (b : CBlock) : COutPoint * Z :=
  match IsProofOfStake b, b_vtx b with
  | true, _ :: tx :: _ =>
      match vin tx with i :: _ => (prevout i, nTime tx) | [] => (COutPoint_SetNull, 0) end
  | _, _ => (COutPoint_SetNull, 0)
  end.

Definition GetMaxTransactionTime (b : CBlock) : Z := fold_left (fun m tx => Z.max m (nTime tx)) (b_vtx b) 0.

(** The last bit of the hash *)
Definition GetStakeEntropyBit `{BlockHash} (b : CBlock) : Z :=
  u32 (Z.land (Uint256.Get64 0 (Uint256.of_bytes (block_hash b))) 1).

(** [SerializationOp], writing: [None] where the version of a transaction trips its assertion. *)
Definition SerializeBlock (b : CBlock) : option bytes :=
  txs ← mapM SerializeTx (b_vtx b);
  Some (put header_codec (b_header b) ++ (WriteCompactSize (zlen (b_vtx b)) ++ concat txs)
        ++ put byte_vector (b_vchBlockSig b)).

(** Reading: the transactions are default-constructed, so their version is the current one. *)
Definition tx_reader : reader CTransaction :=
  match UnserializeTx CURRENT_VERSION with Some r => r | None => throw EndOfData end.
Definition UnserializeBlock : reader CBlock :=
  let* h := get header_codec in
  let* v := get (vector (Codec (fun _ => []) tx_reader)) in
  let* s := get byte_vector in ret (Block h v s).

Definition GetBlockSize (b : CBlock) : option Z := zlen <$> SerializeBlock b.

(** ** Entries of the block index *)

(** [CBlockIndex_impl]: the fields of the header ([hashPrevBlock] stays null) and its own. The chain
    trust, a [uint256] that is added and compared, is its value. *)
Record CBlockIndex : Set := BlockIndex {
  bi_header : CBlockHeader;
  bi_phashBlock : option uint256; bi_pprev : option uint256; bi_pnext : option uint256;
  bi_nFile : Z; bi_nBlockPos : Z; bi_nChainTrust : Z; bi_nHeight : Z;
  bi_nMint : Z; bi_nMoneySupply : Z; bi_nStakeModifier : Z; bi_nStakeModifierChecksum : Z;
  bi_prevoutStake : COutPoint; bi_nStakeTime : Z; bi_hashProofOfStake : uint256; bi_nFlags : Z }.

Definition BLOCK_PROOF_OF_STAKE : Z := Z.shiftl 1 0.
Definition BLOCK_STAKE_ENTROPY : Z := Z.shiftl 1 1.
Definition BLOCK_STAKE_MODIFIER : Z := Z.shiftl 1 2.

Definition CBlockIndex_default : CBlockIndex :=
  BlockIndex CBlockHeader_SetNull None None None 0 0 0 0 0 0 0 0 COutPoint_SetNull 0 (uint256_of 0) 0.

(** The constructor from a block *)
Definition CBlockIndex_new (nFileIn nBlockPosIn : Z) (block : CBlock) : CBlockIndex :=
  let h := b_header block in
  BlockIndex (BlockHeader (bh_nVersion h) (uint256_of 0) (bh_hashMerkleRoot h) (bh_nTime h) (bh_nBits h) (bh_nNonce h))
    None None None nFileIn nBlockPosIn 0 0 0 0 0 0
    (GetProofOfStake block).1 (GetProofOfStake block).2 (uint256_of 0)
    (if IsProofOfStake block then BLOCK_PROOF_OF_STAKE else 0).

Definition bi_nTime (b : CBlockIndex) : Z := bh_nTime (bi_header b).
Definition bi_nBits (b : CBlockIndex) : Z := bh_nBits (bi_header b).
Definition bi_nVersion (b : CBlockIndex) : Z := bh_nVersion (bi_header b).
Definition bi_IsProofOfStake (b : CBlockIndex) : bool := negb (Z.land (bi_nFlags b) BLOCK_PROOF_OF_STAKE =? 0).
Definition bi_IsProofOfWork (b : CBlockIndex) : bool := negb (bi_IsProofOfStake b).
Definition bi_GetStakeEntropyBit (b : CBlockIndex) : Z := Z.shiftr (Z.land (bi_nFlags b) BLOCK_STAKE_ENTROPY) 1.
Definition bi_GeneratedStakeModifier (b : CBlockIndex) : bool := negb (Z.land (bi_nFlags b) BLOCK_STAKE_MODIFIER =? 0).

(** Setters of the fields that change after construction *)
Definition set_links (hash : option uint256) (prev next : option uint256) (b : CBlockIndex) : CBlockIndex :=
  BlockIndex (bi_header b) hash prev next (bi_nFile b) (bi_nBlockPos b) (bi_nChainTrust b) (bi_nHeight b)
    (bi_nMint b) (bi_nMoneySupply b) (bi_nStakeModifier b) (bi_nStakeModifierChecksum b)
    (bi_prevoutStake b) (bi_nStakeTime b) (bi_hashProofOfStake b) (bi_nFlags b).
Definition set_pnext (next : option uint256) (b : CBlockIndex) : CBlockIndex :=
  set_links (bi_phashBlock b) (bi_pprev b) next b.
Definition set_place (trust height : Z) (b : CBlockIndex) : CBlockIndex :=
  BlockIndex (bi_header b) (bi_phashBlock b) (bi_pprev b) (bi_pnext b) (bi_nFile b) (bi_nBlockPos b) trust height
    (bi_nMint b) (bi_nMoneySupply b) (bi_nStakeModifier b) (bi_nStakeModifierChecksum b)
    (bi_prevoutStake b) (bi_nStakeTime b) (bi_hashProofOfStake b) (bi_nFlags b).
(** [set_nMint] takes an [int32_t]. *)
Definition set_money (mint supply : Z) (b : CBlockIndex) : CBlockIndex :=
  BlockIndex (bi_header b) (bi_phashBlock b) (bi_pprev b) (bi_pnext b) (bi_nFile b) (bi_nBlockPos b) (bi_nChainTrust b)
    (bi_nHeight b) (s32 mint) supply (bi_nStakeModifier b) (bi_nStakeModifierChecksum b)
    (bi_prevoutStake b) (bi_nStakeTime b) (bi_hashProofOfStake b) (bi_nFlags b).
Definition set_flags (flags modifier checksum : Z) (proof : uint256) (b : CBlockIndex) : CBlockIndex :=
  BlockIndex (bi_header b) (bi_phashBlock b) (bi_pprev b) (bi_pnext b) (bi_nFile b) (bi_nBlockPos b) (bi_nChainTrust b)
    (bi_nHeight b) (bi_nMint b) (bi_nMoneySupply b) modifier checksum
    (bi_prevoutStake b) (bi_nStakeTime b) proof flags.
Definition SetStakeEntropyBit (nEntropyBit : Z) (b : CBlockIndex) : option CBlockIndex :=
  if nEntropyBit >? 1 then None
  else Some (set_flags (Z.lor (bi_nFlags b) (if nEntropyBit =? 0 then 0 else BLOCK_STAKE_ENTROPY))
               (bi_nStakeModifier b) (bi_nStakeModifierChecksum b) (bi_hashProofOfStake b) b).
Definition SetStakeModifier (nModifier : Z) (fGenerated : bool) (b : CBlockIndex) : CBlockIndex :=
  set_flags (if fGenerated then Z.lor (bi_nFlags b) BLOCK_STAKE_MODIFIER else bi_nFlags b)
    nModifier (bi_nStakeModifierChecksum b) (bi_hashProofOfStake b) b.

(** [GetBlockHeader], with the hash of the previous block *)
Definition bi_GetBlockHeader (b : CBlockIndex) : CBlockHeader :=
  BlockHeader (bi_nVersion b) (default (uint256_of 0) (bi_pprev b)) (bh_hashMerkleRoot (bi_header b))
    (bi_nTime b) (bi_nBits b) (bh_nNonce (bi_header b)).

Definition nMedianTimeSpan : nat := 11.
Definition GetMedianTimePast (chain : list CBlockIndex) : Z :=
  let pmedian := merge_sort Z.le (bi_nTime <$> take nMedianTimeSpan chain) in
  pmedian !!! Nat.div (length pmedian) 2.

(** [IsSuperMajority]: the loop ends after [nToCheck] entries, or with enough found. *)
Fixpoint super_majority (minVersion : Z) (chain : list CBlockIndex) (nRequired : Z) (nToCheck : nat) (nFound : Z) : bool :=
  match nToCheck, chain with
  | S nToCheck, b :: chain =>
      if nFound <? nRequired
      then super_majority minVersion chain nRequired nToCheck (if bi_nVersion b >=? minVersion then nFound + 1 else nFound)
      else nFound >=? nRequired
  | _, _ => nFound >=? nRequired
  end.
Definition IsSuperMajority (minVersion : Z) (pstart : list CBlockIndex) (nRequired : Z) (nToCheck : nat) : bool :=
  super_majority minVersion pstart nRequired nToCheck 0.

(** ** Entries on disk *)

(** [CDiskBlockIndex_impl]: the pointers are replaced by hashes. *)
Record CDiskBlockIndex : Set := DiskBlockIndex {
  di_index : CBlockIndex; di_hashPrev : uint256; di_hashNext : uint256; di_blockHash : uint256 }.

Definition CDiskBlockIndex_default : CDiskBlockIndex :=
  DiskBlockIndex CBlockIndex_default (uint256_of 0) (uint256_of 0) (uint256_of 0).
Definition CDiskBlockIndex_new (b : CBlockIndex) : CDiskBlockIndex :=
  DiskBlockIndex b (default (uint256_of 0) (bi_pprev b)) (default (uint256_of 0) (bi_pnext b)) (uint256_of 0).
Definition set_hashNext (h : uint256) (d : CDiskBlockIndex) : CDiskBlockIndex :=
  DiskBlockIndex (di_index d) (di_hashPrev d) h (di_blockHash d).

(** [GetBlockHash]: the result, and the object with the hash cached. [fast] stands for the use of the fast
    index on an entry more than a day old. *)
Definition di_GetBlockHash `{BlockHash} (fast : bool) (d : CDiskBlockIndex) : uint256 * CDiskBlockIndex :=
  if fast && negb (bool_decide (di_blockHash d = uint256_of 0)) then (di_blockHash d, d)
  else
    let b := di_index d in
    let h := header_hash (BlockHeader (bi_nVersion b) (di_hashPrev d) (bh_hashMerkleRoot (bi_header b))
                            (bi_nTime b) (bi_nBits b) (bh_nNonce (bi_header b))) in
    (h, DiskBlockIndex b (di_hashPrev d) (di_hashNext d) h).

(** The three fields that only a proof-of-stake entry has *)
Definition stake_codec : codec (COutPoint * Z * uint256) := tuple3 outpoint_codec (uint_le 4) (flat 32).

(** [SerializationOp], writing *)
Definition put_disk_index (d : CDiskBlockIndex) : bytes :=
  let b := di_index d in
  put int32_le 0 ++ put (flat 32) (di_hashNext d) ++ put (uint_le 4) (bi_nFile b) ++ put (uint_le 4) (bi_nBlockPos b)
  ++ put int32_le (bi_nHeight b) ++ put int64_le (bi_nMint b) ++ put int64_le (bi_nMoneySupply b)
  ++ put (uint_le 4) (bi_nFlags b) ++ put (uint_le 8) (bi_nStakeModifier b)
  ++ (if bi_IsProofOfStake b then put stake_codec (bi_prevoutStake b, bi_nStakeTime b, bi_hashProofOfStake b) else [])
  ++ put int32_le (bi_nVersion b) ++ put (flat 32) (di_hashPrev d) ++ put (flat 32) (bh_hashMerkleRoot (bi_header b))
  ++ put (uint_le 4) (bi_nTime b) ++ put (uint_le 4) (bi_nBits b) ++ put (uint_le 4) (bh_nNonce (bi_header b))
  ++ put (flat 32) (di_blockHash d).

(** Reading into a new object: the fields that are not stored keep their initial values. *)
Definition get_disk_index : reader CDiskBlockIndex :=
  let* _ := get int32_le in let* next := get (flat 32) in
  let* file := get (uint_le 4) in let* pos := get (uint_le 4) in
  let* height := get int32_le in let* mint := get int64_le in let* supply := get int64_le in
  let* flags := get (uint_le 4) in let* modifier := get (uint_le 8) in
  let* stake := (if negb (Z.land flags BLOCK_PROOF_OF_STAKE =? 0) then get stake_codec
                 else ret (COutPoint_SetNull, 0, uint256_of 0)) in
  let* version := get int32_le in let* prev := get (flat 32) in let* merkle := get (flat 32) in
  let* time := get (uint_le 4) in let* bits := get (uint_le 4) in let* nonce := get (uint_le 4) in
  let* hash := get (flat 32) in
  ret (DiskBlockIndex
         (BlockIndex (BlockHeader version (uint256_of 0) merkle time bits nonce) None None None
            file pos 0 height mint supply modifier 0 stake.1.1 stake.1.2 stake.2 flags)
         prev next hash).

Definition disk_index_codec : codec CDiskBlockIndex := Codec put_disk_index get_disk_index.

(** ** Round trips *)

Definition hash_ok (h : uint256) : Prop := zlen h = 32.
Definition header_ok (h : CBlockHeader) : Prop :=
  INT32_MIN <= bh_nVersion h <= INT32_MAX /\ hash_ok (bh_hashPrevBlock h) /\ hash_ok (bh_hashMerkleRoot h)
  /\ (0 <= bh_nTime h < 2 ^ 32 /\ 0 <= bh_nBits h < 2 ^ 32 /\ 0 <= bh_nNonce h < 2 ^ 32).

#[global] Instance header_lawful : Lawful header_codec header_ok.
Proof. eapply map_codec_lawful; [apply _|]. intros [v p m t b n] (Hv & Hp & Hm & Ht & Hb & Hn). done. Qed.

Lemma header_size h : hash_ok (bh_hashPrevBlock h) -> hash_ok (bh_hashMerkleRoot h) -> zlen (put header_codec h) = 80.
Proof.
  unfold hash_ok. intros Hp Hm. cbn [header_codec map_codec put tuple4 tuple3 int32_le flat uint_le].
  rewrite !zlen_app, !zlen_le_bytes. lia.
Qed.

(** The fields of a block are in the range of their types. *)
Definition block_ok (b : CBlock) : Prop :=
  header_ok (b_header b) /\ (zlen (b_vtx b) <= MAX_SIZE /\ Forall tx_ok (b_vtx b)) /\ zlen (b_vchBlockSig b) <= MAX_SIZE.

Definition block_codec : codec CBlock :=
  map_codec (tuple3 header_codec (vector tx_codec) byte_vector) (fun p => Block p.1.1 p.1.2 p.2)
    (fun b => (b_header b, b_vtx b, b_vchBlockSig b)).

#[global] Instance block_lawful : Lawful block_codec block_ok.
Proof. eapply map_codec_lawful; [apply _|]. intros [h v s] (Hh & Hv & Hs). done. Qed.

Lemma SerializeTx_known tx s : SerializeTx tx = Some s -> s = put tx_codec tx.
Proof. unfold SerializeTx. destruct (_ || _); [by intros [= <-]|done]. Qed.

Lemma SerializeBlock_codec b s : SerializeBlock b = Some s -> s = put block_codec b.
Proof.
  unfold SerializeBlock. destruct (mapM SerializeTx (b_vtx b)) as [txs|] eqn:E; [|done]. cbn [mbind option_bind].
  assert (concat txs = concat (put tx_codec <$> b_vtx b)) as ->.
  { apply mapM_Some in E. induction E as [|tx s' l txs Hs _ IH]; [done|].
    rewrite fmap_cons. cbn [concat]. by rewrite IH, (SerializeTx_known _ _ Hs). }
  by intros <-%(inj Some).
Qed.

Lemma read_elems_ext {A} (c d : codec A) n s : (forall s, get c s = get d s) -> read_elems c n s = read_elems d n s.
Proof.
  intros H. revert s. induction n as [|n IH]; intros s; cbn [read_elems]; [done|]. unfold bind at 1 3. rewrite H.
  destruct (get d s) as [e|[a s']]; [done|]. unfold bind. by rewrite IH.
Qed.

Lemma UnserializeBlock_codec s : UnserializeBlock s = get block_codec s.
Proof.
  cbn [block_codec map_codec get tuple3]. unfold UnserializeBlock, bind.
  destruct (get header_codec s) as [e|[h s1]]; [done|].
  assert (get (vector (Codec (fun _ => []) tx_reader)) s1 = get (vector tx_codec) s1) as ->.
  { cbn [vector get]. unfold bind. destruct (ReadCompactSize s1) as [e|[n s2]]; [done|]. apply read_elems_ext.
    intros s3. cbn [get]. pose proof (UnserializeTx_codec s3) as H. unfold tx_reader. by destruct (UnserializeTx _). }
  destruct (get (vector tx_codec) s1) as [e|[v s2]]; [done|]. by destruct (get byte_vector s2) as [e|[sig s3]].
Qed.

(** A block whose fields fit their types and whose transactions have a known version is read
    back from its serialization. *)
Lemma block_roundtrip b rest s :
  block_ok b -> SerializeBlock b = Some s -> UnserializeBlock (s ++ rest) = inr (b, rest).
Proof. intros Hok ->%SerializeBlock_codec. rewrite UnserializeBlock_codec. by apply block_lawful. Qed.

(** What is stored of an entry *)
Definition index_ok (b : CBlockIndex) : Prop :=
  header_ok (bi_header b) /\ 0 <= bi_nFile b < 2 ^ 32 /\ 0 <= bi_nBlockPos b < 2 ^ 32
  /\ INT32_MIN <= bi_nHeight b <= INT32_MAX /\ INT64_MIN <= bi_nMint b <= INT64_MAX
  /\ INT64_MIN <= bi_nMoneySupply b <= INT64_MAX /\ 0 <= bi_nFlags b < 2 ^ 32 /\ 0 <= bi_nStakeModifier b < 2 ^ 64
  /\ outpoint_ok (bi_prevoutStake b) /\ 0 <= bi_nStakeTime b < 2 ^ 32 /\ hash_ok (bi_hashProofOfStake b).
Definition disk_index_ok (d : CDiskBlockIndex) : Prop :=
  index_ok (di_index d) /\ hash_ok (di_hashPrev d) /\ hash_ok (di_hashNext d) /\ hash_ok (di_blockHash d).

(** The entry without what is not stored: the hash of the previous block in the header, the
    links, the chain trust, the checksum, and the stake fields of a proof-of-work entry *)
Definition stored (d : CDiskBlockIndex) : CDiskBlockIndex :=
  let b := di_index d in let h := bi_header b in
  DiskBlockIndex
    (BlockIndex (BlockHeader (bh_nVersion h) (uint256_of 0) (bh_hashMerkleRoot h) (bh_nTime h) (bh_nBits h) (bh_nNonce h))
       None None None (bi_nFile b) (bi_nBlockPos b) 0 (bi_nHeight b) (bi_nMint b) (bi_nMoneySupply b) (bi_nStakeModifier b) 0
       (if bi_IsProofOfStake b then bi_prevoutStake b else COutPoint_SetNull)
       (if bi_IsProofOfStake b then bi_nStakeTime b else 0)
       (if bi_IsProofOfStake b then bi_hashProofOfStake b else uint256_of 0) (bi_nFlags b))
    (di_hashPrev d) (di_hashNext d) (di_blockHash d).

(** One step of a reader over the output of its writer *)
Ltac read_step :=
  match goal with |- bind (get ?c) ?k (put ?c ?a ++ ?r) = _ => rewrite (bind_get c _ a k r) by done end.

Lemma disk_index_roundtrip d rest :
  disk_index_ok d -> get disk_index_codec (put disk_index_codec d ++ rest) = inr (stored d, rest).
Proof.
  intros ((Hh & Hf & Hp & Hhe & Hmi & Hs & Hfl & Hmod & Ho & Ht & Hpr) & Hprev & Hnext & Hhash).
  destruct Hh as (Hv & _ & Hm & Htime & Hbits & Hnonce). unfold hash_ok in *.
  cbn [disk_index_codec get put]. unfold get_disk_index, put_disk_index. rewrite <-!app_assoc.
  rewrite (bind_get int32_le _) by (unfold INT32_MIN, INT32_MAX; lia). repeat read_step.
  fold (bi_IsProofOfStake (di_index d)). unfold stored. destruct (bi_IsProofOfStake (di_index d)).
  - repeat read_step. done.
  - unfold bind at 1, ret at 1. cbn [app]. repeat read_step. done.
Qed.

End BlockData.
