(* ===== verification/Canonical.v ===== *)
(** * Canonical: what the readers accept

    The converse of the round trips: a value that a reader returns is well typed, and the bytes it consumed are
    those the writer produces. So every value has one encoding, and a hash of the encoding identifies it. *)
From S2P Require Import Prelude Serialize Transaction BlockData.
Import Serialize Tx BlockData.

Module Canonical.

(** The law: what a reader takes from a stream of bytes is the output of the writer for a good value. *)
Class Sound {A} (c : codec A) (ok : A -> Prop) : Prop :=
  get_sound s a rest : bytes_ok s -> get c s = inr (a, rest) -> ok a /\ s = put c a ++ rest.
Lemma sound {A} (c : codec A) ok `{!Sound c ok} s a rest :
  bytes_ok s -> get c s = inr (a, rest) -> ok a /\ s = put c a ++ rest.
Proof. apply get_sound. Qed.

Lemma bind_inr {A B} (m : reader A) (k : A -> reader B) s b rest :
  bind m k s = inr (b, rest) -> exists a s', m s = inr (a, s') /\ k a s' = inr (b, rest).
Proof. unfold bind. destruct (m s) as [e|[a s']]; [done|]. intros H. by exists a, s'. Qed.

Lemma bytes_ok_rest a b : bytes_ok (a ++ b) -> bytes_ok b.
Proof. by intros [_ H]%bytes_ok_app. Qed.

(** [sound_step H] runs the first reader of the sequence in [H] backwards. *)
Ltac sound_step H :=
  let x := fresh "x" in let s := fresh "s" in let E := fresh "E" in
  let Hok := fresh "Hok" in
  apply bind_inr in H as (x & s & E & H);
  match type of E with get ?c _ = _ => apply (sound c _) in E as [Hok ->] end; [|assumption];
  match goal with Hb : bytes_ok (_ ++ s) |- _ => apply bytes_ok_rest in Hb end.

#[global] Instance uint_le_sound n : Sound (uint_le n) (fun x => 0 <= x < 256 ^ Z.of_nat n).
Proof. intros s x rest Hs H. by apply get_uint_le_inv in H as [-> Hx]. Qed.

Lemma signed_sound n x : (0 < n)%nat -> 0 <= x < 256 ^ Z.of_nat n ->
  let y := (x + 2 ^ (8 * Z.of_nat n - 1)) mod 2 ^ (8 * Z.of_nat n) - 2 ^ (8 * Z.of_nat n - 1) in
  - 2 ^ (8 * Z.of_nat n - 1) <= y <= 2 ^ (8 * Z.of_nat n - 1) - 1 /\ le_bytes n y = le_bytes n x.
Proof.
  intros Hn Hx y. assert (2 ^ (8 * Z.of_nat n) = 2 * 2 ^ (8 * Z.of_nat n - 1)) as Hp.
  { rewrite <-Z.pow_succ_r by lia. f_equal. lia. }
  assert (0 < 2 ^ (8 * Z.of_nat n - 1)) as Hpos by (apply Z.pow_pos_nonneg; lia).
  subst y. split; [pose proof (Z.mod_pos_bound (x + 2 ^ (8 * Z.of_nat n - 1)) (2 ^ (8 * Z.of_nat n))); lia|].
  assert (forall n x y, x mod 256 ^ Z.of_nat n = y mod 256 ^ Z.of_nat n -> le_bytes n x = le_bytes n y) as Heq.
  { clear. induction n as [|n IH]; intros x y H; [done|]. cbn [le_bytes]. rewrite Nat2Z.inj_succ, Z.pow_succ_r in H by lia.
    assert (0 < 256 ^ Z.of_nat n) by (apply Z.pow_pos_nonneg; lia).
    rewrite !(Z.rem_mul_r _ 256) in H by lia. pose proof (Z.mod_pos_bound x 256). pose proof (Z.mod_pos_bound y 256).
    f_equal; [lia|]. apply IH. lia. }
  apply Heq. rewrite <-pow256 by lia. rewrite Zminus_mod, Zmod_mod, <-Zminus_mod. f_equal. lia.
Qed.

#[global] Instance int32_sound : Sound int32_le (fun x => INT32_MIN <= x <= INT32_MAX).
Proof.
  intros s x rest Hs H. apply bind_inr in H as (b & s' & E & H). injection H as <- <-.
  destruct (get_uint_le_inv 4 s (le_value b) s' Hs) as [-> Hx];
    [cbn [uint_le get]; unfold bind; change (Z.of_nat 4) with 4; by rewrite E|].
  destruct (signed_sound 4 (le_value b)) as [H1 H2]; [lia|done|]. cbn [int32_le put]. split; [exact H1|].
  f_equal. symmetry. exact H2.
Qed.
#[global] Instance int64_sound : Sound int64_le (fun x => INT64_MIN <= x <= INT64_MAX).
Proof.
  intros s x rest Hs H. apply bind_inr in H as (b & s' & E & H). injection H as <- <-.
  destruct (get_uint_le_inv 8 s (le_value b) s' Hs) as [-> Hx];
    [cbn [uint_le get]; unfold bind; change (Z.of_nat 8) with 8; by rewrite E|].
  destruct (signed_sound 8 (le_value b)) as [H1 H2]; [lia|done|]. cbn [int64_le put]. split; [exact H1|].
  f_equal. symmetry. exact H2.
Qed.

#[global] Instance flat_sound n : 0 <= n -> Sound (flat n) (fun b => zlen b = n).
Proof. intros Hn s b rest _ H. by apply read_inv in H as [-> Hb]. Qed.
#[global] Instance flat_32_sound : Sound (flat 32) (fun b => zlen b = 32).
Proof. by apply flat_sound. Qed.

#[global] Instance compact_size_sound : Sound compact_size (fun n => 0 <= n <= MAX_SIZE).
Proof. intros s n rest Hs H. by apply ReadCompactSize_inv in H as [-> Hn]. Qed.

Lemma read_blocks_inv fuel nSize i v s w rest :
  i <= nSize -> zlen v = i -> read_blocks fuel nSize i v s = inr (w, rest) ->
  zlen w = nSize /\ v ++ s = w ++ rest.
Proof.
  revert i v s. induction fuel as [|fuel IH]; intros i v s Hi Hv H; cbn [read_blocks] in H.
  - destruct (Z.ltb_spec i nSize); [done|]. injection H as <- <-. split; [lia|done].
  - destruct (Z.ltb_spec i nSize) as [Hlt|Hge]; [|injection H as <- <-; split; [lia|done]].
    apply bind_inr in H as (b & s' & E & H). assert (0 <= Z.min (nSize - i) read_block) as Hb0 by (unfold read_block; lia).
    apply read_inv in E as [-> Hb]; [|done]. apply IH in H as [Hw Heq]; [|lia|rewrite zlen_app; lia].
    split; [done|]. by rewrite app_assoc.
Qed.

#[global] Instance byte_vector_sound : Sound byte_vector (fun v => zlen v <= MAX_SIZE).
Proof.
  intros s v rest Hs H. cbn [byte_vector get put] in *. apply bind_inr in H as (n & s' & E & H).
  apply (sound compact_size _) in E as [Hn ->]; [|done].
  apply read_blocks_inv in H as [Hv Heq]; [|lia|done]. cbn [app] in Heq. subst s'. rewrite Hv, <-app_assoc. split; [lia|done].
Qed.

Lemma read_elems_sound {A} (c : codec A) ok `{!Sound c ok} n s l rest :
  bytes_ok s -> read_elems c n s = inr (l, rest) -> length l = n /\ Forall ok l /\ s = concat (put c <$> l) ++ rest.
Proof.
  revert s l. induction n as [|n IH]; intros s l Hs H; cbn [read_elems] in H.
  { by injection H as <- <-. }
  apply bind_inr in H as (a & s1 & E & H). apply (sound c _) in E as [Ha ->]; [|done].
  apply bind_inr in H as (l' & s2 & E & H). injection H as <- <-.
  apply IH in E as (Hl & Hf & ->); [|by apply bytes_ok_rest in Hs]. cbn [fmap list_fmap concat length].
  split_and!; [by rewrite Hl|by constructor|by rewrite app_assoc].
Qed.

#[global] Instance vector_sound {A} (c : codec A) ok `{!Sound c ok} :
  Sound (vector c) (fun v => zlen v <= MAX_SIZE /\ Forall ok v).
Proof.
  intros s v rest Hs H. cbn [vector get put] in *. apply bind_inr in H as (n & s' & E & H).
  apply (sound compact_size _) in E as [Hn ->]; [|done].
  apply (read_elems_sound c _) in H as (Hl & Hf & ->); [|by apply bytes_ok_rest in Hs].
  assert (zlen v = n) as Hv by (unfold zlen; lia). rewrite Hv, <-app_assoc. split; [split; [lia|done]|done].
Qed.

#[global] Instance pair_sound {A B} (c : codec A) (d : codec B) okc okd `{!Sound c okc, !Sound d okd} :
  Sound (pair c d) (fun p => okc p.1 /\ okd p.2).
Proof.
  intros s p rest Hs H. cbn [pair get] in H. do 2 sound_step H. injection H as <- <-.
  cbn [pair put]. by rewrite <-app_assoc.
Qed.
#[global] Instance tuple3_sound {A B C} (c : codec A) (d : codec B) (e : codec C) okc okd oke
  `{!Sound c okc, !Sound d okd, !Sound e oke} : Sound (tuple3 c d e) (fun p => okc p.1.1 /\ okd p.1.2 /\ oke p.2).
Proof.
  intros s p rest Hs H. cbn [tuple3 get] in H. do 3 sound_step H. injection H as <- <-.
  cbn [tuple3 put]. by rewrite <-!app_assoc.
Qed.
#[global] Instance tuple4_sound {A B C D} (c : codec A) (d : codec B) (e : codec C) (f : codec D) okc okd oke okf
  `{!Sound c okc, !Sound d okd, !Sound e oke, !Sound f okf} :
  Sound (tuple4 c d e f) (fun p => okc p.1.1.1 /\ okd p.1.1.2 /\ oke p.1.2 /\ okf p.2).
Proof.
  intros s p rest Hs H. cbn [tuple4 get] in H. do 4 sound_step H. injection H as <- <-.
  cbn [tuple4 put]. by rewrite <-!app_assoc.
Qed.

Lemma map_codec_sound {A B} (c : codec A) (f : A -> B) g ok (ok' : B -> Prop) `{!Sound c ok} :
  (forall a, ok a -> g (f a) = a /\ ok' (f a)) -> Sound (map_codec c f g) ok'.
Proof.
  intros Hf s b rest Hs H. cbn [map_codec get put] in *. apply bind_inr in H as (a & s' & E & H). injection H as <- <-.
  apply (sound c _) in E as [Ha ->]; [|done]. destruct (Hf a Ha) as [-> Hok]. done.
Qed.

#[global] Instance outpoint_sound : Sound outpoint_codec outpoint_ok.
Proof. eapply map_codec_sound; [apply _|]. intros [h n] Ha. done. Qed.
#[global] Instance txin_sound : Sound txin_codec txin_ok.
Proof. eapply map_codec_sound; [apply _|]. intros [[o s] n] (Ho & Hs & Hn). done. Qed.
#[global] Instance txout_sound : Sound txout_codec txout_ok.
Proof. eapply map_codec_sound; [apply _|]. intros [v s] Ha. done. Qed.
#[global] Instance tx_sound : Sound tx_codec tx_ok.
Proof. eapply map_codec_sound; [apply _|]. intros [v [[[t i] o] l]] (Hv & Ht & Hi & Ho & Hl). done. Qed.
#[global] Instance header_sound : Sound header_codec header_ok.
Proof. eapply map_codec_sound; [apply _|]. intros [[[v p] m] [[t b] n]] (Hv & Hp & Hm & Ht & Hb & Hn). done. Qed.
#[global] Instance block_sound : Sound block_codec block_ok.
Proof. eapply map_codec_sound; [apply _|]. intros [[h v] s] (Hh & Hv & Hs). done. Qed.

(** C29 (type): every block that is read from bytes is well typed, and has one encoding. Whatever a stream of
    bytes holds, if a block is read from it, all its fields are within the widths of their types and
    its vectors within the size limit; if its transactions have a version the writer knows, writing it gives
    exactly the bytes that were consumed, and no other stream is read as the same block. *)
Theorem block_read_typed s b rest :
  bytes_ok s -> UnserializeBlock s = inr (b, rest) ->
  block_ok b
  /\ (Forall (fun tx => nVersion tx = 1 \/ nVersion tx = 2) (b_vtx b) ->
      exists w, SerializeBlock b = Some w /\ s = w ++ rest)
  /\ forall s', bytes_ok s' -> UnserializeBlock s' = inr (b, rest) -> s' = s.
Proof.
  intros Hs H. rewrite UnserializeBlock_codec in H. destruct (sound block_codec _ s b rest Hs H) as [Hok Heq].
  split_and!; [done| |].
  - intros Hv. exists (put block_codec b). split; [|done]. unfold SerializeBlock.
    assert (mapM SerializeTx (b_vtx b) = Some (put tx_codec <$> b_vtx b)) as ->.
    { apply mapM_Some. apply Forall2_fmap_r. apply Forall2_same_length_lookup. split; [done|].
      intros i x y Hx Hy. assert (x = y) as -> by congruence. apply SerializeTx_codec. by eapply Forall_lookup_1 in Hv. }
    done.
  - intros s' Hs' H'. rewrite UnserializeBlock_codec in H'. destruct (sound block_codec _ s' b rest Hs' H') as [_ Heq']. congruence.
Qed.

(** A block of one transaction, as it is on the wire *)
Definition ex_tx : CTransaction :=
  Transaction 1 1546300800 [TxIn (OutPoint (uint256_of 0) UINT32_MAX) [0x51; 0x52] SEQUENCE_FINAL []] [TxOut 5 [0x51]] 0.
Definition ex_block : CBlock :=
  Block (BlockHeader 6 (uint256_of 3) (uint256_of 4) 1546300800 0x1e0fffff 7) [ex_tx] [0x30].
Definition ex_bytes : bytes := default [] (SerializeBlock ex_block).

Lemma block_read_typed_witness :
  UnserializeBlock (ex_bytes ++ [1; 2]) = inr (ex_block, [1; 2])
  /\ block_ok ex_block /\ SerializeBlock ex_block = Some ex_bytes.
Proof.
  assert (UnserializeBlock (ex_bytes ++ [1; 2]) = inr (ex_block, [1; 2])) as H by (vm_compute; reflexivity).
  split; [exact H|]. destruct (block_read_typed (ex_bytes ++ [1; 2]) ex_block [1; 2]) as (Hok & Hw & _).
  - apply (bool_decide_unpack _). vm_compute. exact I.
  - exact H.
  - split; [exact Hok|]. destruct Hw as (w & Hw & _); [constructor; [by left|constructor]|]. vm_compute. reflexivity.
Defined.

End Canonical.
