(* ===== verification/LevelDB.v ===== *)
(** * LevelDB: the key-value store of the program and the transaction index on top of it
    ([db.h], [db.cpp], [txdb-leveldb.cpp])

    The store of the vendored LevelDB library is a finite map from keys to values; a
    [leveldb::WriteBatch] is the list of its operations, and writing a batch applies them in order.
    I/O failures of the library are not modelled. [None] stands for a failed assertion or a read
    outside a buffer. *)
From stdpp Require Import strings.
From S2P Require Import Prelude ScriptNum Script Serialize Crypto Transaction.
Import Serialize Tx.

(** What the transaction code relies on: an index from transaction hashes to [CTxIndex] entries. *)
Class TxDB (D : Type) : Type := {
  ReadTxIndex : D -> uint256 -> option (option CTxIndex);
  UpdateTxIndex : D -> uint256 -> CTxIndex -> option (bool * D);
  EraseTxIndex : D -> uint256 -> option (bool * D);
  ContainsTx : D -> uint256 -> option bool
}.

(** The laws of an index: [db_ok] holds of the states in which it can be used, [key_ok] and
    [entry_ok] of the keys and entries it stores faithfully. *)
Class TxDBLaws (D : Type) `{!TxDB D} (db_ok : D -> Prop) (key_ok : uint256 -> Prop)
    (entry_ok : CTxIndex -> Prop) : Prop := {
  update_ok d h t : db_ok d -> key_ok h -> entry_ok t ->
    exists d', UpdateTxIndex d h t = Some (true, d') /\ db_ok d'
      /\ forall h', key_ok h' -> ReadTxIndex d' h' = if decide (h' = h) then Some (Some t) else ReadTxIndex d h';
  erase_ok d h : db_ok d -> key_ok h ->
    exists d', EraseTxIndex d h = Some (true, d') /\ db_ok d'
      /\ forall h', key_ok h' -> ReadTxIndex d' h' = if decide (h' = h) then Some None else ReadTxIndex d h'
}.

Module LevelDB.

(** ** Batches *)

Inductive batch_op : Set :=
  | BatchPut (key value : bytes)
  | BatchDelete (key : bytes).

Abbreviation batch := (list batch_op).

Record CLevelDB : Type := MkCLevelDB {
  pdb : gmap bytes bytes; activeBatch : option batch; fReadOnly : bool; fSecure : bool }.

Definition set_pdb (f : gmap bytes bytes -> gmap bytes bytes) (db : CLevelDB) : CLevelDB :=
  MkCLevelDB (f (pdb db)) (activeBatch db) (fReadOnly db) (fSecure db).
Definition set_activeBatch (b : option batch) (db : CLevelDB) : CLevelDB :=
  MkCLevelDB (pdb db) b (fReadOnly db) (fSecure db).

(** [leveldb::DB::Write]: the operations of the batch in order. *)
Definition apply_op (m : gmap bytes bytes) (o : batch_op) : gmap bytes bytes :=
  match o with BatchPut k v => <[k := v]> m | BatchDelete k => delete k m end.
Definition apply_batch (b : batch) (m : gmap bytes bytes) : gmap bytes bytes := fold_left apply_op b m.

(** [CBatchScanner]: its fields, and [Put] and [Delete]. *)
Record CBatchScanner : Set := BatchScanner { foundEntry : bool; deleted : bool; foundValue : bytes }.
Definition scan_op (needle : bytes) (s : CBatchScanner) (o : batch_op) : CBatchScanner :=
  match o with
  | BatchPut key value => if bool_decide (key = needle) then BatchScanner true false value else s
  | BatchDelete key => if bool_decide (key = needle) then BatchScanner true true (foundValue s) else s
  end.

Definition ScanBatch (key : bytes) (db : CLevelDB) : option CBatchScanner :=
  b ← activeBatch db; Some (fold_left (scan_op key) b (BatchScanner false false [])).

(** ** Transactions *)

Definition TxnBegin (db : CLevelDB) : option (bool * CLevelDB) :=
  if fSecure db then None
  else match activeBatch db with
  | Some _ => None
  | None => Some (true, set_activeBatch (Some []) db)
  end.

Definition TxnCommit (db : CLevelDB) : option (bool * CLevelDB) :=
  if fSecure db then None
  else b ← activeBatch db; Some (true, set_activeBatch None (set_pdb (apply_batch b) db)).

Definition TxnAbort (db : CLevelDB) : option (bool * CLevelDB) :=
  if fSecure db then None else Some (true, set_activeBatch None db).

(** The constructor: a mode with neither [+] nor [w] opens the database read-only. *)
Definition CLevelDB_new (m : gmap bytes bytes) (pszMode : bytes) (fSecureIn : bool) : CLevelDB :=
  MkCLevelDB m None (negb (existsb (Z.eqb 43) pszMode) && negb (existsb (Z.eqb 119) pszMode)) fSecureIn.

Definition Close (db : CLevelDB) : CLevelDB := set_activeBatch None db.

(** ** Values

    [CDBStream] reads without looking at the end of its buffer, so a value that is too short is an
    out-of-bounds read; it also asserts that the buffer is not empty. Other exceptions of the readers
    make the operation return [false]. *)
Definition cdb_get {A} (c : codec A) (v : bytes) : option (option A) :=
  match v with
  | [] => None
  | _ => match get c v with
         | inr (a, _) => Some (Some a)
         | inl EndOfData => None
         | inl _ => Some None
         end
  end.

(** [CDataStream] throws at its end. *)
Definition stream_get {A} (c : codec A) (v : bytes) : option A :=
  match get c v with inr (a, _) => Some a | inl _ => None end.

(** ** Operations on a normal database *)

Definition ReadNormal {A} (c : codec A) (key : bytes) (db : CLevelDB) : option (option A) :=
  let from_db :=
    match pdb db !! key with
    | None => Some None
    | Some v => cdb_get c v
    end in
  match activeBatch db with
  | None => from_db
  | Some _ =>
      s ← ScanBatch key db;
      if deleted s then Some None
      else if foundEntry s then cdb_get c (foundValue s)
      else from_db
  end.

Definition ExistsNormal (key : bytes) (db : CLevelDB) : option bool :=
  let from_db := Some (bool_decide (is_Some (pdb db !! key))) in
  match activeBatch db with
  | None => from_db
  | Some _ =>
      s ← ScanBatch key db;
      if foundEntry s && negb (deleted s) then Some true else from_db
  end.

Definition WriteNormal (key value : bytes) (fOverwrite : bool) (db : CLevelDB) : option (bool * CLevelDB) :=
  if fReadOnly db then None
  else
    present ← (if fOverwrite then Some false else ExistsNormal key db);
    if present : bool then Some (false, db)
    else match activeBatch db with
    | Some b => Some (true, set_activeBatch (Some (b ++ [BatchPut key value])) db)
    | None => Some (true, set_pdb (insert key value) db)
    end.

Definition EraseNormal (key : bytes) (db : CLevelDB) : option (bool * CLevelDB) :=
  if fReadOnly db then None
  else match activeBatch db with
  | Some b => Some (true, set_activeBatch (Some (b ++ [BatchDelete key])) db)
  | None => Some (true, set_pdb (delete key) db)
  end.

(** ** Operations on a secure database: no batch may be active *)

Definition no_batch (db : CLevelDB) : bool := match activeBatch db with None => true | Some _ => false end.

Definition ReadSecure {A} (c : codec A) (key : bytes) (db : CLevelDB) : option (option A) :=
  if negb (no_batch db) then None
  else match pdb db !! key with
  | None => Some None
  | Some v => Some (stream_get c v)
  end.

Definition ExistsSecure (key : bytes) (db : CLevelDB) : option bool :=
  if negb (no_batch db) then None else Some (bool_decide (is_Some (pdb db !! key))).

Definition WriteSecure (key value : bytes) (fOverwrite : bool) (db : CLevelDB) : option (bool * CLevelDB) :=
  if negb (no_batch db) || fReadOnly db then None
  else
    present ← (if fOverwrite then Some false else ExistsSecure key db);
    if present : bool then Some (false, db) else Some (true, set_pdb (insert key value) db).

Definition EraseSecure (key : bytes) (db : CLevelDB) : option (bool * CLevelDB) :=
  if negb (no_batch db) || fReadOnly db then None else Some (true, set_pdb (delete key) db).

Definition Read {A} (c : codec A) (key : bytes) (db : CLevelDB) : option (option A) :=
  if fSecure db then ReadSecure c key db else ReadNormal c key db.
Definition Write (key value : bytes) (fOverwrite : bool) (db : CLevelDB) : option (bool * CLevelDB) :=
  if fSecure db then WriteSecure key value fOverwrite db else WriteNormal key value fOverwrite db.
Definition Erase (key : bytes) (db : CLevelDB) : option (bool * CLevelDB) :=
  if fSecure db then EraseSecure key db else EraseNormal key db.
Definition Exists_ (key : bytes) (db : CLevelDB) : option bool :=
  if fSecure db then ExistsSecure key db else ExistsNormal key db.

(** ** [CTxDB] *)

(** The characters of a key name. *)
Definition chars (s : string) : bytes := (fun a => Z.of_nat (Ascii.nat_of_ascii a)) <$> String.list_ascii_of_string s.

Definition hash_codec : codec uint256 := flat 32.
Definition name_key (s : string) : bytes := put string_codec (chars s).
Definition pair_key (s : string) (hash : uint256) : bytes := put (pair string_codec hash_codec) (chars s, hash).

Definition ReadVersion (db : CLevelDB) : option (option Z) := Read int32_le (name_key "version") db.
Definition WriteVersion (nVersion : Z) (db : CLevelDB) : option (bool * CLevelDB) :=
  Write (name_key "version") (put int32_le nVersion) true db.

#[global] Instance CTxDB : TxDB CLevelDB := {
  ReadTxIndex db hash := Read txindex_codec (pair_key "tx" hash) db;
  UpdateTxIndex db hash txindex := Write (pair_key "tx" hash) (put txindex_codec txindex) true db;
  EraseTxIndex db hash := Erase (pair_key "tx" hash) db;
  ContainsTx db hash := Exists_ (pair_key "tx" hash) db
}.

(** [AddTxIndex]: a fresh entry with no output spent. *)
Definition AddTxIndex (tx : CTransaction) (pos : CDiskTxPos) (db : CLevelDB) : option (bool * CLevelDB) :=
  hash ← GetHash tx;
  Write (pair_key "tx" hash) (put txindex_codec (CTxIndex_new pos (length (vout tx)))) true db.

Definition ReadHashBestChain (db : CLevelDB) : option (option uint256) := Read hash_codec (name_key "hashBestChain") db.
Definition WriteHashBestChain (h : uint256) (db : CLevelDB) : option (bool * CLevelDB) :=
  Write (name_key "hashBestChain") (put hash_codec h) true db.
Definition ReadSyncCheckpoint (db : CLevelDB) : option (option uint256) :=
  Read hash_codec (name_key "hashSyncCheckpoint") db.
Definition WriteSyncCheckpoint (h : uint256) (db : CLevelDB) : option (bool * CLevelDB) :=
  Write (name_key "hashSyncCheckpoint") (put hash_codec h) true db.
Definition ReadCheckpointPubKey (db : CLevelDB) : option (option bytes) :=
  Read string_codec (name_key "strCheckpointPubKey") db.
Definition WriteCheckpointPubKey (s : bytes) (db : CLevelDB) : option (bool * CLevelDB) :=
  Write (name_key "strCheckpointPubKey") (put string_codec s) true db.
Definition ReadModifierUpgradeTime (db : CLevelDB) : option (option Z) :=
  Read (uint_le 4) (name_key "nUpgradeTime") db.
Definition WriteModifierUpgradeTime (n : Z) (db : CLevelDB) : option (bool * CLevelDB) :=
  Write (name_key "nUpgradeTime") (put (uint_le 4) n) true db.

(** ** What a batch does *)

(** The last operation of the batch on a key: [Some None] is a deletion. *)
Definition pending (key : bytes) (b : batch) : option (option bytes) :=
  foldl (fun r o => match o with
    | BatchPut k v => if bool_decide (k = key) then Some (Some v) else r
    | BatchDelete k => if bool_decide (k = key) then Some None else r
    end) None b.

Lemma pending_snoc key b o :
  pending key (b ++ [o]) =
    match o with
    | BatchPut k v => if bool_decide (k = key) then Some (Some v) else pending key b
    | BatchDelete k => if bool_decide (k = key) then Some None else pending key b
    end.
Proof. unfold pending. by rewrite foldl_app. Qed.

(** The scanner reports the last operation. *)
Lemma scan_pending key b :
  let s := fold_left (scan_op key) b (BatchScanner false false []) in
  match pending key b with
  | None => foundEntry s = false /\ deleted s = false
  | Some None => foundEntry s = true /\ deleted s = true
  | Some (Some v) => foundEntry s = true /\ deleted s = false /\ foundValue s = v
  end.
Proof.
  induction b as [|o b IH] using rev_ind; [done|]. cbn zeta in *.
  rewrite pending_snoc, fold_left_app. cbn [fold_left]. destruct o as [k v|k]; cbn [scan_op];
    case_bool_decide; done.
Qed.

Lemma apply_pending key b m :
  apply_batch b m !! key = match pending key b with None => m !! key | Some r => r end.
Proof.
  induction b as [|o b IH] using rev_ind; [done|].
  unfold apply_batch in *. rewrite pending_snoc, fold_left_app. cbn [fold_left].
  destruct o as [k v|k]; cbn [apply_op]; case_bool_decide as E; subst.
  - by rewrite lookup_insert_eq.
  - by rewrite lookup_insert_ne.
  - by rewrite lookup_delete_eq.
  - by rewrite lookup_delete_ne.
Qed.

(** The state of a normal database as a client that commits would see it. *)
Definition view (db : CLevelDB) : gmap bytes bytes :=
  match activeBatch db with None => pdb db | Some b => apply_batch b (pdb db) end.

Lemma ReadNormal_view {A} (c : codec A) key db :
  ReadNormal c key db = match view db !! key with None => Some None | Some v => cdb_get c v end.
Proof.
  unfold ReadNormal, ScanBatch, view. destruct (activeBatch db) as [b|]; cbn; [|done].
  rewrite apply_pending. pose proof (scan_pending key b) as Hs. cbn zeta in Hs.
  destruct (pending key b) as [[v|]|].
  - destruct Hs as (-> & -> & ->). done.
  - destruct Hs as (-> & ->). done.
  - destruct Hs as (-> & ->). done.
Qed.

(** One client call inside or outside of a transaction. *)
Inductive call : Type := CallWrite (key value : bytes) | CallErase (key : bytes).
Definition run_call (o : call) (db : CLevelDB) : option (bool * CLevelDB) :=
  match o with CallWrite k v => Write k v true db | CallErase k => Erase k db end.
Definition spec_call (m : gmap bytes bytes) (o : call) : gmap bytes bytes :=
  match o with CallWrite k v => <[k := v]> m | CallErase k => delete k m end.
Fixpoint run_calls (os : list call) (db : CLevelDB) : option CLevelDB :=
  match os with
  | [] => Some db
  | o :: os => '(_, db) ← run_call o db; run_calls os db
  end.

(** The databases whose operations do not assert. *)
Definition writable (db : CLevelDB) : Prop := fReadOnly db = false /\ fSecure db = false.

Lemma Write_view key v db :
  writable db ->
  exists db', Write key v true db = Some (true, db') /\ writable db'
    /\ view db' = <[key := v]> (view db) /\ no_batch db' = no_batch db
    /\ (no_batch db = false -> pdb db' = pdb db).
Proof.
  intros [Hr Hs]. unfold Write, WriteNormal, no_batch, view. rewrite Hr, Hs. cbn [mbind option_bind].
  destruct (activeBatch db) as [b|] eqn:E; eexists; (split; [done|]);
    (split; [split; done|]); cbn [activeBatch pdb set_activeBatch set_pdb]; rewrite ?E.
  - split_and!; [|done|done]. unfold apply_batch. by rewrite fold_left_app.
  - done.
Qed.

Lemma Erase_view key db :
  writable db ->
  exists db', Erase key db = Some (true, db') /\ writable db'
    /\ view db' = delete key (view db) /\ no_batch db' = no_batch db
    /\ (no_batch db = false -> pdb db' = pdb db).
Proof.
  intros [Hr Hs]. unfold Erase, EraseNormal, no_batch, view. rewrite Hr, Hs.
  destruct (activeBatch db) as [b|] eqn:E; eexists; (split; [done|]);
    (split; [split; done|]); cbn [activeBatch pdb set_activeBatch set_pdb]; rewrite ?E.
  - split_and!; [|done|done]. unfold apply_batch. by rewrite fold_left_app.
  - done.
Qed.

Lemma run_calls_view os db :
  writable db ->
  exists db', run_calls os db = Some db' /\ writable db'
    /\ view db' = fold_left spec_call os (view db) /\ no_batch db' = no_batch db
    /\ (no_batch db = false -> pdb db' = pdb db).
Proof.
  revert db. induction os as [|o os IH]; intros db Hdb; [by exists db|].
  assert (exists db', run_call o db = Some (true, db') /\ writable db'
    /\ view db' = spec_call (view db) o /\ no_batch db' = no_batch db
    /\ (no_batch db = false -> pdb db' = pdb db)) as (db1 & Hrun & Hw & Hv & Hb & Hp).
  { destruct o; [by apply Write_view|by apply Erase_view]. }
  destruct (IH db1 Hw) as (db2 & Hrun2 & Hw2 & Hv2 & Hb2 & Hp2).
  exists db2. cbn [run_calls]. rewrite Hrun. cbn [mbind option_bind]. split_and!; [done|done| | |].
  - by rewrite Hv2, Hv.
  - congruence.
  - intros H. rewrite Hp2 by congruence. by apply Hp.
Qed.

(** C35 (refinement): a transaction is atomic and reads its own writes. After [TxnBegin] and any
    sequence of writes and erasures, the store on disk is untouched, every read already sees the
    effect of the calls, [TxnCommit] installs exactly that effect, and [TxnAbort] gives back the
    database as it was. *)
Theorem transaction_atomic db os :
  writable db -> activeBatch db = None ->
  exists db1 db2 db3,
    TxnBegin db = Some (true, db1) /\ run_calls os db1 = Some db2 /\ TxnCommit db2 = Some (true, db3)
    /\ pdb db2 = pdb db /\ activeBatch db3 = None
    /\ pdb db3 = fold_left spec_call os (pdb db)
    /\ (forall A (c : codec A) key, Read c key db2 = Read c key db3)
    /\ TxnAbort db2 = Some (true, db).
Proof.
  intros Hw Hb. pose (db1 := set_activeBatch (Some []) db).
  assert (writable db1) as Hw1 by done.
  destruct (run_calls_view os db1 Hw1) as (db2 & Hrun & [Hro Hsec] & Hview & Hnb & Hpdb).
  unfold no_batch in Hnb. cbn in Hnb. destruct (activeBatch db2) as [b|] eqn:Eb; [|done].
  exists db1, db2, (set_activeBatch None (set_pdb (apply_batch b) db2)).
  assert (pdb db2 = pdb db) as Hp by by rewrite Hpdb. destruct Hw as [Hro' Hsec'].
  split_and!; [by unfold TxnBegin; rewrite Hsec', Hb|done| |done|done| | |].
  - unfold TxnCommit. by rewrite Hsec, Eb.
  - unfold view in Hview. rewrite Eb in Hview. cbn. by rewrite Hview.
  - intros A c key. unfold Read. cbn [fSecure set_activeBatch set_pdb]. rewrite Hsec.
    rewrite !ReadNormal_view. unfold view at 1. by rewrite Eb.
  - unfold TxnAbort. rewrite Hsec. do 2 f_equal. destruct db, db2. cbn in *. unfold set_activeBatch.
    cbn. congruence.
Qed.

Definition empty_db : CLevelDB := CLevelDB_new ∅ [114; 43] false.

Lemma transaction_atomic_witness :
  writable empty_db /\ activeBatch empty_db = None /\
  exists db1 db2 db3,
    TxnBegin empty_db = Some (true, db1)
    /\ run_calls [CallWrite [1] [2]; CallErase [1]; CallWrite [3] [4]] db1 = Some db2
    /\ TxnCommit db2 = Some (true, db3) /\ pdb db2 = pdb empty_db /\ activeBatch db3 = None
    /\ pdb db3 = fold_left spec_call [CallWrite [1] [2]; CallErase [1]; CallWrite [3] [4]] (pdb empty_db)
    /\ (forall A (c : codec A) key, Read c key db2 = Read c key db3)
    /\ TxnAbort db2 = Some (true, empty_db).
Proof.
  split; [done|]. split; [done|].
  exact (transaction_atomic empty_db [CallWrite [1] [2]; CallErase [1]; CallWrite [3] [4]] (conj eq_refl eq_refl) eq_refl).
Defined.

(** Inside a transaction [Exists] answers as it would after the commit, except for a
    key that is on disk and whose last operation in the batch is an erasure: there it says the key
    exists, while [Read] says it does not. *)
Lemma exists_in_batch db b key :
  fSecure db = false -> activeBatch db = Some b ->
  Exists_ key db = Some (bool_decide (is_Some (view db !! key))
                         || bool_decide (pending key b = Some None /\ is_Some (pdb db !! key)))
  /\ (pending key b = Some None -> forall A (c : codec A), Read c key db = Some None).
Proof.
  intros Hs Hb. unfold Exists_, Read, ExistsNormal, ScanBatch. rewrite Hs, Hb. cbn [mbind option_bind].
  pose proof (scan_pending key b) as Hscan. cbn zeta in Hscan. split.
  - unfold view. rewrite Hb, apply_pending. destruct (pending key b) as [[v|]|].
    + destruct Hscan as (-> & -> & _). by rewrite (bool_decide_true (is_Some (Some v))).
    + destruct Hscan as (-> & ->). cbn [andb negb]. f_equal.
      rewrite (bool_decide_false (is_Some None)) by by intros [? ?].
      cbn [orb]. apply bool_decide_ext. naive_solver.
    + destruct Hscan as (-> & ->). cbn [andb]. f_equal.
      rewrite (bool_decide_false (_ /\ _)) by naive_solver. by rewrite orb_false_r.
  - intros Hp A c. rewrite ReadNormal_view. unfold view. by rewrite Hb, apply_pending, Hp.
Qed.

Lemma exists_in_batch_witness :
  let db := MkCLevelDB {[ [1] := [2] ]} (Some [BatchDelete [1]]) false false in
  Exists_ [1] db = Some true /\ Read int32_le [1] db = Some None.
Proof.
  split.
  - rewrite (proj1 (exists_in_batch (MkCLevelDB {[ [1] := [2] ]} (Some [BatchDelete [1]]) false false)
      [BatchDelete [1]] [1] eq_refl eq_refl)). vm_compute. reflexivity.
  - apply (proj2 (exists_in_batch (MkCLevelDB {[ [1] := [2] ]} (Some [BatchDelete [1]]) false false)
      [BatchDelete [1]] [1] eq_refl eq_refl)). vm_compute. reflexivity.
Defined.

(** ** The transaction index implements the interface *)

Lemma cdb_get_put {A} (c : codec A) ok `{!Lawful c ok} a : ok a -> put c a <> [] -> cdb_get c (put c a) = Some (Some a).
Proof.
  intros Ha Hne. unfold cdb_get. pose proof (get_put a [] Ha) as Hg. rewrite app_nil_r in Hg.
  destruct (put c a) eqn:E; [done|]. by rewrite Hg.
Qed.

Lemma pair_key_inj s h h' : pair_key s h = pair_key s h' -> h = h'.
Proof. unfold pair_key. cbn. intros H. by apply app_inv_head in H. Qed.

Lemma txindex_codec_nonempty t : put txindex_codec t <> [].
Proof. done. Qed.

#[global] Instance CTxDB_laws : TxDBLaws CLevelDB writable (fun _ => True) txindex_ok.
Proof.
  split.
  - intros d h t Hd _ Ht. cbn [UpdateTxIndex ReadTxIndex CTxDB].
    destruct (Write_view (pair_key "tx" h) (put txindex_codec t) d Hd) as (d' & Hw & Hd' & Hv & _).
    exists d'. split; [done|]. split; [done|]. intros h' _. unfold Read.
    destruct Hd as [_ ->], Hd' as [_ ->]. rewrite !ReadNormal_view, Hv.
    destruct (decide (h' = h)) as [->|Hne].
    + rewrite lookup_insert_eq. by apply (cdb_get_put txindex_codec txindex_ok).
    + rewrite lookup_insert_ne; [done|]. intros H. apply pair_key_inj in H. congruence.
  - intros d h Hd _. cbn [EraseTxIndex ReadTxIndex CTxDB].
    destruct (Erase_view (pair_key "tx" h) d Hd) as (d' & Hw & Hd' & Hv & _).
    exists d'. split; [done|]. split; [done|]. intros h' _. unfold Read.
    destruct Hd as [_ ->], Hd' as [_ ->]. rewrite !ReadNormal_view, Hv.
    destruct (decide (h' = h)) as [->|Hne].
    + by rewrite lookup_delete_eq.
    + rewrite lookup_delete_ne; [done|]. intros H. apply pair_key_inj in H. congruence.
Qed.

End LevelDB.
