(* ===== verification/Keys.v ===== *)
(** * Keys: public keys and the encodings of signatures

    The byte-level view of [CPubKey] ([key/pubkey.h]), the comparison of big-endian magnitudes and
    the range test of signature elements ([key.cpp]), and the encoding rules of
    [IsCanonicalPubKey], [IsDERSignature], [IsCanonicalSignature] and [CheckMinimalPush]
    ([script/script.cpp]). Indices into byte vectors read 0 outside them; [IsDERSignature] is shown
    never to read there. *)
From S2P Require Import Prelude ScriptNum Script.
Import ScriptOpcodes.

Module Script_param.
Definition SCRIPT_VERIFY_NONE : Z := 0.
Definition SCRIPT_VERIFY_P2SH : Z := Z.shiftl 1 0.
Definition SCRIPT_VERIFY_STRICTENC : Z := Z.shiftl 1 1.
Definition SCRIPT_VERIFY_LOW_S : Z := Z.shiftl 1 2.
Definition SCRIPT_VERIFY_NOCACHE : Z := Z.shiftl 1 3.
Definition SCRIPT_VERIFY_NULLDUMMY : Z := Z.shiftl 1 4.
Definition SCRIPT_VERIFY_MINIMALDATA : Z := Z.shiftl 1 6.
Definition SCRIPT_VERIFY_DISCOURAGE_UPGRADABLE_NOPS : Z := Z.shiftl 1 7.
Definition SCRIPT_VERIFY_CHECKLOCKTIMEVERIFY : Z := Z.shiftl 1 9.
Definition SCRIPT_VERIFY_CHECKSEQUENCEVERIFY : Z := Z.shiftl 1 10.
Definition STRICT_FORMAT_FLAGS : Z :=
  Z.lor (Z.lor SCRIPT_VERIFY_STRICTENC SCRIPT_VERIFY_LOW_S) SCRIPT_VERIFY_NULLDUMMY.
Definition MANDATORY_SCRIPT_VERIFY_FLAGS : Z := SCRIPT_VERIFY_P2SH.
Definition STRICT_FLAGS : Z := Z.lor MANDATORY_SCRIPT_VERIFY_FLAGS STRICT_FORMAT_FLAGS.
Definition SIGHASH_ALL : Z := 1.
Definition SIGHASH_NONE : Z := 2.
Definition SIGHASH_SINGLE : Z := 3.
Definition SIGHASH_ANYONECANPAY : Z := 0x80.
End Script_param.
Import Script_param.

(** [flags & f] as a condition. *)
Definition flag (flags f : Z) : bool := negb (Z.land flags f =? 0).

Module CPubKey.
Definition COMPRESSED_PUBLIC_KEY_SIZE : Z := 33.
Definition PUBLIC_KEY_SIZE : Z := 65.

Definition GetLen (chHeader : Z) : Z :=
  if (chHeader =? 2) || (chHeader =? 3) then COMPRESSED_PUBLIC_KEY_SIZE
  else if (chHeader =? 4) || (chHeader =? 6) || (chHeader =? 7) then PUBLIC_KEY_SIZE
  else 0.

(** A key is the bytes of [vch_] that were set; an invalid one starts with 0xFF. *)
Definition Invalidate : bytes := [0xff].

Definition Set_ (vch : bytes) : bytes :=
  let len := match vch with [] => 0 | h :: _ => GetLen h end in
  if negb (len =? 0) && (len =? zlen vch) then vch else Invalidate.

Definition size (key : bytes) : Z := match key with [] => 0 | h :: _ => GetLen h end.
Definition data (key : bytes) : bytes := take (Z.to_nat (size key)) key.
Definition IsValid (key : bytes) : bool := 0 <? size key.
Definition IsCompressed (key : bytes) : bool := size key =? COMPRESSED_PUBLIC_KEY_SIZE.
Definition ValidSize (vch : bytes) : bool :=
  match vch with [] => false | h :: _ => GetLen h =? zlen vch end.

Lemma Set_valid vch : IsValid (Set_ vch) = true -> Set_ vch = vch /\ data (Set_ vch) = vch.
Proof.
  unfold Set_. destruct (_ && _) eqn:E; [|done]. intros _. split; [done|].
  apply andb_true_iff in E as [_ E]. unfold data. destruct vch as [|h vch]; [done|].
  cbn [size]. apply take_ge. unfold zlen in E. lia.
Qed.
End CPubKey.

Module CKey.
(** The three loops of [CompareBigEndian]. *)
Fixpoint skip_zeros (c : bytes) (n : nat) : option bytes :=
  match n, c with
  | S n, b :: c => if b =? 0 then skip_zeros c n else None
  | _, _ => Some c
  end.

Fixpoint compare_same (c1 c2 : bytes) : Z :=
  match c1, c2 with
  | b1 :: c1, b2 :: c2 => if b1 >? b2 then 1 else if b2 >? b1 then -1 else compare_same c1 c2
  | _, _ => 0
  end.

Definition CompareBigEndian (c1 c2 : bytes) : Z :=
  match skip_zeros c1 (length c1 - length c2) with
  | None => 1
  | Some c1 =>
      match skip_zeros c2 (length c2 - length c1) with
      | None => -1
      | Some c2 => compare_same c1 c2
      end
  end.

Definition vchMaxModOrder : bytes :=
  [0xFF;0xFF;0xFF;0xFF;0xFF;0xFF;0xFF;0xFF; 0xFF;0xFF;0xFF;0xFF;0xFF;0xFF;0xFF;0xFE;
   0xBA;0xAE;0xDC;0xE6;0xAF;0x48;0xA0;0x3B; 0xBF;0xD2;0x5E;0x8C;0xD0;0x36;0x41;0x40].
Definition vchMaxModHalfOrder : bytes :=
  [0x7F;0xFF;0xFF;0xFF;0xFF;0xFF;0xFF;0xFF; 0xFF;0xFF;0xFF;0xFF;0xFF;0xFF;0xFF;0xFF;
   0x5D;0x57;0x6E;0x73;0x57;0xA4;0x50;0x1D; 0xDF;0xE9;0x2F;0x46;0x68;0x1B;0x20;0xA0].

Definition CheckSignatureElement (vch : bytes) (half : bool) : bool :=
  (CompareBigEndian vch [] >? 0)
  && (CompareBigEndian vch (if half then vchMaxModHalfOrder else vchMaxModOrder) <=? 0).

Lemma skip_zeros_spec c n :
  bytes_ok c -> (n <= length c)%nat ->
  match skip_zeros c n with
  | Some c' => be_value c' = be_value c /\ length c' = (length c - n)%nat /\ bytes_ok c'
  | None => 256 ^ (zlen c - Z.of_nat n) <= be_value c
  end.
Proof.
  revert c. induction n as [|n IH]; intros c Hc Hn.
  { assert (skip_zeros c 0 = Some c) as -> by by destruct c. split_and!; [done|lia|done]. }
  destruct c as [|b c]; [simpl in Hn; lia|]. cbn [skip_zeros].
  apply Forall_cons_1 in Hc as [Hb Hc]. unfold is_byte in Hb. rewrite be_value_cons.
  pose proof (be_value_bound c Hc). simpl in Hn. unfold zlen in *.
  destruct (b =? 0) eqn:E.
  - specialize (IH c Hc ltac:(lia)). assert (b = 0) as -> by lia. rewrite Z.mul_0_l, Z.add_0_l.
    cbn [length]. destruct (skip_zeros c n); [done|].
    by replace (Z.of_nat (S (length c)) - Z.of_nat (S n)) with (Z.of_nat (length c) - Z.of_nat n) by lia.
  - cbn [length]. replace (Z.of_nat (S (length c)) - Z.of_nat (S n)) with (Z.of_nat (length c) - Z.of_nat n) by lia.
    assert (256 ^ (Z.of_nat (length c) - Z.of_nat n) <= 256 ^ Z.of_nat (length c)) by (apply Z.pow_le_mono_r; lia).
    nia.
Qed.

Lemma compare_same_spec c1 c2 :
  bytes_ok c1 -> bytes_ok c2 -> length c1 = length c2 ->
  compare_same c1 c2 = Z.sgn (be_value c1 - be_value c2).
Proof.
  revert c2. induction c1 as [|b1 c1 IH]; intros [|b2 c2] H1 H2 Hl; [done..|]. cbn [compare_same].
  apply Forall_cons_1 in H1 as [Hb1 H1]. apply Forall_cons_1 in H2 as [Hb2 H2].
  rewrite !be_value_cons. simpl in Hl. injection Hl as Hl. unfold zlen. rewrite Hl.
  pose proof (be_value_bound c1 H1). pose proof (be_value_bound c2 H2). unfold zlen in *.
  rewrite Hl in *. unfold is_byte in *.
  set (p := 256 ^ Z.of_nat (length c2)) in *.
  destruct (b1 >? b2) eqn:E1; [|destruct (b2 >? b1) eqn:E2].
  - symmetry. apply Z.sgn_pos_iff. nia.
  - symmetry. apply Z.sgn_neg_iff. nia.
  - rewrite IH by done. f_equal. replace b1 with b2 by lia. lia.
Qed.

Lemma CompareBigEndian_spec c1 c2 :
  bytes_ok c1 -> bytes_ok c2 -> CompareBigEndian c1 c2 = Z.sgn (be_value c1 - be_value c2).
Proof.
  intros H1 H2. unfold CompareBigEndian.
  pose proof (skip_zeros_spec c1 (length c1 - length c2) H1 ltac:(lia)) as Hs1.
  pose proof (be_value_bound c1 H1). pose proof (be_value_bound c2 H2). unfold zlen in *.
  destruct (skip_zeros c1 _) as [c1'|] eqn:E1.
  - destruct Hs1 as (<- & Hl1 & H1').
    pose proof (skip_zeros_spec c2 (length c2 - length c1') H2 ltac:(lia)) as Hs2.
    pose proof (be_value_bound c1' H1'). unfold zlen in *.
    destruct (skip_zeros c2 _) as [c2'|] eqn:E2.
    + destruct Hs2 as (<- & Hl2 & H2'). apply compare_same_spec; [done..|lia].
    + symmetry. apply Z.sgn_neg_iff.
      destruct (decide (length c2 <= length c1')%nat) as [Hle|Hle].
      { replace (length c2 - length c1')%nat with 0%nat in E2 by lia. by destruct c2. }
      replace (Z.of_nat (length c2) - Z.of_nat (length c2 - length c1')) with (Z.of_nat (length c1')) in Hs2 by lia.
      lia.
  - symmetry. apply Z.sgn_pos_iff.
    destruct (decide (length c1 <= length c2)%nat) as [Hle|Hle].
    { replace (length c1 - length c2)%nat with 0%nat in E1 by lia. by destruct c1. }
    replace (Z.of_nat (length c1) - Z.of_nat (length c1 - length c2)) with (Z.of_nat (length c2)) in Hs1 by lia.
    lia.
Qed.

(** The order of the group of secp256k1. *)
Definition group_order : Z := 0xFFFFFFFFFFFFFFFFFFFFFFFFFFFFFFFEBAAEDCE6AF48A03BBFD25E8CD0364141.

(** [CompareBigEndian] orders byte strings of any lengths by their big-endian value,
    and [CheckSignatureElement] accepts exactly the values from 1 to the group order minus 1, or to
    half of the order when low values are asked for. *)
Lemma CheckSignatureElement_spec vch c half :
  bytes_ok vch -> bytes_ok c ->
  CompareBigEndian vch c = Z.sgn (be_value vch - be_value c)
  /\ (CheckSignatureElement vch half = true
      <-> 1 <= be_value vch <= (if half then group_order / 2 else group_order - 1)).
Proof.
  intros Hv Hc. split; [by apply CompareBigEndian_spec|]. unfold CheckSignatureElement.
  assert (bytes_ok vchMaxModOrder /\ bytes_ok vchMaxModHalfOrder) as [Ho Hh].
  { split; repeat (apply Forall_cons_2; [unfold is_byte; lia|]); apply Forall_nil_2. }
  assert (be_value vchMaxModOrder = group_order - 1 /\ be_value vchMaxModHalfOrder = group_order / 2)
    as [Eo Eh] by by vm_compute.
  assert (bytes_ok []) as Hnil by constructor.
  destruct half; rewrite !CompareBigEndian_spec by assumption; rewrite ?Eo, ?Eh;
    change (be_value []) with 0; unfold group_order; lia.
Qed.
Lemma CheckSignatureElement_spec_witness :
  CompareBigEndian [0; 1] [2] = -1 /\ CheckSignatureElement [0; 1] true = true.
Proof.
  split.
  - etransitivity; [apply (CheckSignatureElement_spec [0; 1] [2] true)|reflexivity];
      repeat (apply Forall_cons_2; [unfold is_byte; lia|]); apply Forall_nil_2.
  - apply (CheckSignatureElement_spec [0; 1] [2] true);
      [repeat (apply Forall_cons_2; [unfold is_byte; lia|]); apply Forall_nil_2..|].
    unfold group_order. vm_compute. split; discriminate.
Defined.
End CKey.

Module SigEncoding.
Import CScript CKey.

(** [CastToBool]: false is zero of any length, negative zero included. *)
Fixpoint CastToBool (vch : bytes) : bool :=
  match vch with
  | [] => false
  | b :: rest => if negb (b =? 0) then negb (bool_decide (rest = []) && (b =? 0x80)) else CastToBool rest
  end.

Definition IsCanonicalPubKey (vchPubKey : bytes) (flags : Z) : bool :=
  if negb (flag flags SCRIPT_VERIFY_STRICTENC) then true
  else if zlen vchPubKey <? 33 then false
  else if at_ vchPubKey 0 =? 0x04 then zlen vchPubKey =? 65
  else if (at_ vchPubKey 0 =? 0x02) || (at_ vchPubKey 0 =? 0x03) then zlen vchPubKey =? 33
  else false.

(** The sign and padding rules shared by the two integers of a signature. *)
Definition bad_integer (len b0 b1 : Z) : bool :=
  (len =? 0) || negb (Z.land b0 0x80 =? 0)
  || ((len >? 1) && (b0 =? 0) && (Z.land b1 0x80 =? 0)).

Definition IsDERSignature (vchSig : bytes) (fWithHashType fCheckLow : bool) : bool :=
  let size := zlen vchSig in
  if size <? 9 then false
  else if size >? 73 then false
  else if negb (at_ vchSig 0 =? 0x30) then false
  else if negb (at_ vchSig 1 =? size - (if fWithHashType then 3 else 2)) then false
  else if fWithHashType
          && (let nHashType := Z.land (at_ vchSig (length vchSig - 1)) (u8 (Z.lnot SIGHASH_ANYONECANPAY)) in
              (nHashType <? SIGHASH_ALL) || (nHashType >? SIGHASH_SINGLE)) then false
  else
    let nLenR := at_ vchSig 3 in
    if 5 + nLenR >=? size then false
    else
      let nLenS := at_ vchSig (Z.to_nat (5 + nLenR)) in
      if negb (nLenR + nLenS + (if fWithHashType then 7 else 6) =? size) then false
      else if negb (at_ vchSig 2 =? 0x02) then false
      else if bad_integer nLenR (at_ vchSig 4) (at_ vchSig 5) then false
      else if negb (at_ vchSig (Z.to_nat (6 + nLenR - 2)) =? 0x02) then false
      else if bad_integer nLenS (at_ vchSig (Z.to_nat (6 + nLenR))) (at_ vchSig (Z.to_nat (6 + nLenR + 1)))
      then false
      else if fCheckLow
              && negb (CheckSignatureElement
                         (take (Z.to_nat nLenS) (drop (Z.to_nat (6 + nLenR)) vchSig)) true)
      then false
      else true.

Definition IsCanonicalSignature (vchSig : bytes) (flags : Z) : bool :=
  if negb (flag flags SCRIPT_VERIFY_STRICTENC) then true
  else IsDERSignature vchSig true (flag flags SCRIPT_VERIFY_LOW_S).

(** [CheckMinimalPush], for an opcode up to [OP_PUSHDATA4]. *)
Definition CheckMinimalPush (data : bytes) (opcode : Z) : bool :=
  if zlen data =? 0 then opcode =? OP_0
  else if (zlen data =? 1) && (at_ data 0 >=? 1) && (at_ data 0 <=? 16) then false
  else if (zlen data =? 1) && (at_ data 0 =? 0x81) then false
  else if zlen data <=? 75 then opcode =? zlen data
  else if zlen data <=? 255 then opcode =? OP_PUSHDATA1
  else if zlen data <=? 65535 then opcode =? OP_PUSHDATA2
  else true.

(** ** Properties *)

Lemma CastToBool_value vch : bytes_ok vch -> zlen vch <= 8 -> CastToBool vch = negb (CScriptNum.value_of vch =? 0).
Proof.
  intros Hok _. destruct (CScriptNum.snoc_case vch) as [->|(k & t & ->)]; [done|].
  apply bytes_ok_snoc in Hok as [Hk Ht].
  assert (CastToBool (k ++ [t]) = negb ((le_value k =? 0) && ((t =? 0) || (t =? 128)))) as ->.
  { clear Ht. induction Hk as [|b k Hb Hk IH]; cbn [app CastToBool le_value].
    { by destruct (t =? 0). }
    unfold is_byte in Hb. pose proof (le_value_bound k Hk). destruct (b =? 0) eqn:E; simpl negb; cbv iota.
    - rewrite IH. do 2 f_equal. lia.
    - rewrite bool_decide_eq_false_2 by by destruct k. simpl.
      by replace (b + 256 * le_value k =? 0) with false by lia. }
  unfold CScriptNum.value_of. rewrite CScriptNum.back_snoc, le_value_snoc, zlen_snoc.
  replace (zlen k + 1 - 1) with (zlen k) by lia. pose proof (le_value_bound k Hk). unfold is_byte in Ht.
  set (p := 256 ^ zlen k) in *. destruct (t <? 128) eqn:E; f_equal; apply eq_bool_prop_intro;
    rewrite !Is_true_true; nia.
Qed.

(** A DER integer: not empty, not negative, no superfluous zero byte in front. *)
Definition der_integer (r : bytes) : Prop :=
  r <> [] /\ at_ r 0 < 128 /\ (1 < zlen r -> at_ r 0 = 0 -> 128 <= at_ r 1).

Definition der_encode (r s tl : bytes) : bytes :=
  [0x30; zlen r + zlen s + 4; 0x02; zlen r] ++ r ++ [0x02; zlen s] ++ s ++ tl.

Lemma at_byte l i : bytes_ok l -> is_byte (at_ l i).
Proof.
  intros H. unfold at_. destruct (l !! i) eqn:E; simpl; [|unfold is_byte; lia].
  by eapply Forall_lookup_1 in E.
Qed.

Lemma at_app_r l k i : (length l <= i)%nat -> at_ (l ++ k) i = at_ k (i - length l).
Proof. intros H. unfold at_. by rewrite lookup_app_r. Qed.
Lemma at_app_l l k i : (i < length l)%nat -> at_ (l ++ k) i = at_ l i.
Proof. intros H. unfold at_. by rewrite lookup_app_l. Qed.

Lemma at_lookup l i x : (i < length l)%nat -> at_ l i = x -> l !! i = Some x.
Proof. intros [y Hy]%lookup_lt_is_Some_2. unfold at_. rewrite Hy. by intros <-. Qed.

Lemma bad_integer_spec r k n :
  bytes_ok r -> n = zlen r ->
  bad_integer n (at_ (r ++ k) 0) (at_ (r ++ k) 1) = false <-> der_integer r.
Proof.
  intros Hr ->. unfold bad_integer, der_integer. destruct r as [|b r]; [by split; [|intros []]|].
  assert (is_byte b) as Hb by by inversion Hr. unfold at_. cbn [app lookup list_lookup default].
  rewrite zlen_cons. pose proof (zlen_nonneg r). rewrite land_128_testbit by done.
  destruct r as [|c r]; cbn [app lookup list_lookup].
  - rewrite zlen_nil. simpl. split; [|intros (_ & H1 & _); lia]. intros H1. split_and!; [done|lia|lia].
  - assert (is_byte c) as Hc by by inversion Hr as [|? ? ? Hr']; inversion Hr'.
    rewrite zlen_cons in *. pose proof (zlen_nonneg r). simpl default.
    rewrite land_128_testbit by done. split; [intros H1; split_and!; [done|lia..]|]. intros (_ & H1 & H2). lia.
Qed.

Lemma der_lookups r s tl :
  let v := der_encode r s tl in
  at_ v 0 = 0x30 /\ at_ v 1 = zlen r + zlen s + 4 /\ at_ v 2 = 0x02 /\ at_ v 3 = zlen r
  /\ (forall i, at_ v (4 + i) = at_ (r ++ [0x02; zlen s] ++ s ++ tl) i)
  /\ at_ v (4 + length r) = 0x02 /\ at_ v (5 + length r) = zlen s
  /\ (forall i, at_ v (6 + length r + i) = at_ (s ++ tl) i)
  /\ drop (6 + length r) v = s ++ tl /\ zlen v = zlen r + zlen s + zlen tl + 6.
Proof.
  cbv zeta. unfold der_encode.
  assert (forall i, at_ ([48; zlen r + zlen s + 4; 2; zlen r] ++ r ++ [2; zlen s] ++ s ++ tl) (4 + length r + i)
    = at_ ([2; zlen s] ++ s ++ tl) i) as Htail.
  { intros i. rewrite at_app_r, at_app_r by (simpl; lia). f_equal. simpl. lia. }
  split_and!; try done.
  - rewrite <-(Nat.add_0_r (4 + length r)). by rewrite Htail.
  - replace (5 + length r)%nat with (4 + length r + 1)%nat by lia. by rewrite Htail.
  - intros i. replace (6 + length r + i)%nat with (4 + length r + (2 + i))%nat by lia. by rewrite Htail.
  - rewrite app_assoc, app_assoc, drop_app_length'; [done|]. rewrite !length_app. simpl. lia.
  - rewrite !zlen_app, !zlen_cons, zlen_nil. lia.
Qed.

(** The hash type byte, without its ANYONECANPAY bit, is ALL, NONE or SINGLE. *)
Definition known_hashtype (b : Z) : Prop := SIGHASH_ALL <= Z.land b (u8 (Z.lnot SIGHASH_ANYONECANPAY)) <= SIGHASH_SINGLE.

(** A signature cut at the positions its length bytes name. *)
Lemma der_split v n k :
  zlen v = n + k + 6 + zlen (drop (Z.to_nat (6 + n + k)) v) -> 0 <= n -> 0 <= k ->
  at_ v 0 = 0x30 -> at_ v 1 = n + k + 4 -> at_ v 2 = 0x02 -> at_ v 3 = n ->
  at_ v (Z.to_nat (4 + n)) = 0x02 -> at_ v (Z.to_nat (5 + n)) = k ->
  exists r s, v = der_encode r s (drop (Z.to_nat (6 + n + k)) v) /\ zlen r = n /\ zlen s = k.
Proof.
  intros Hl Hn Hk H0 H1 H2 H3 H4 H5. set (tl := drop _ v) in *. pose proof (zlen_nonneg tl).
  exists (take (Z.to_nat n) (drop 4 v)), (take (Z.to_nat k) (drop (Z.to_nat (6 + n)) v)).
  assert (zlen (take (Z.to_nat n) (drop 4 v)) = n) as Hr.
  { unfold zlen in *. rewrite length_take, length_drop. lia. }
  assert (zlen (take (Z.to_nat k) (drop (Z.to_nat (6 + n)) v)) = k) as Hs.
  { unfold zlen in *. rewrite length_take, length_drop. lia. }
  split_and!; [|done..]. unfold der_encode. rewrite Hr, Hs.
  destruct v as [|b0 [|b1 [|b2 [|b3 w]]]];
    [unfold zlen in Hl; simpl in Hl; lia..|]. unfold at_ in H0, H1, H2, H3. simpl in H0, H1, H2, H3.
  subst b0 b1 b2 b3. cbn [app]. do 4 f_equal. cbn [drop].
  assert (tl = drop (Z.to_nat (2 + n + k)) w) as ->.
  { unfold tl. replace (Z.to_nat (6 + n + k)) with (4 + Z.to_nat (2 + n + k))%nat by lia. done. }
  replace (Z.to_nat (6 + n)) with (4 + Z.to_nat (2 + n))%nat by lia.
  replace (Z.to_nat (4 + n)) with (4 + Z.to_nat n)%nat in H4 by lia.
  replace (Z.to_nat (5 + n)) with (4 + S (Z.to_nat n))%nat in H5 by lia.
  change (at_ w (Z.to_nat n) = 2) in H4. change (at_ w (S (Z.to_nat n)) = k) in H5. cbn [Nat.add drop].
  replace (Z.to_nat (2 + n + k)) with (Z.to_nat (2 + n) + Z.to_nat k)%nat by lia.
  rewrite <-drop_drop, take_drop.
  rewrite <-(take_drop (Z.to_nat n) w) at 1. f_equal.
  unfold zlen in Hl. simpl in Hl.
  assert (S (S (Z.to_nat n)) <= length w)%nat as Hw by lia.
  rewrite (drop_S w 2 (Z.to_nat n)), (drop_S w k (S (Z.to_nat n))).
  - by replace (Z.to_nat (2 + n)) with (S (S (Z.to_nat n))) by lia.
  - apply at_lookup; [lia|done].
  - apply at_lookup; [lia|done].
Qed.

(** The shape of an accepted signature. *)
Definition der_signature (v : bytes) (fCheckLow : bool) : Prop :=
  exists r s ht, v = der_encode r s [ht] /\ der_integer r /\ der_integer s /\ known_hashtype ht
    /\ 9 <= zlen v <= 73 /\ (fCheckLow = true -> CheckSignatureElement s true = true).

Lemma der_parts_ok r s tl : bytes_ok (der_encode r s tl) -> bytes_ok r /\ bytes_ok s.
Proof.
  unfold der_encode. intros [_ H]%bytes_ok_app. apply bytes_ok_app in H as [? H].
  apply bytes_ok_app in H as [_ H]. by apply bytes_ok_app in H as [? _].
Qed.

Lemma IsDERSignature_sound v fCheckLow :
  bytes_ok v -> IsDERSignature v true fCheckLow = true -> der_signature v fCheckLow.
Proof.
  intros Hok.
  unfold IsDERSignature. cbv beta iota zeta. intros H.
  destruct (zlen v <? 9) eqn:E1; [done|]. destruct (zlen v >? 73) eqn:E2; [done|].
  destruct (negb (at_ v 0 =? 0x30)) eqn:E3; [done|].
  destruct (negb (at_ v 1 =? _)) eqn:E4; [done|].
  destruct (true && _) eqn:E5; [done|]. set (n := at_ v 3) in *.
  pose proof (at_byte v 3 Hok) as Hn. fold n in Hn. unfold is_byte in Hn.
  destruct (5 + n >=? zlen v) eqn:E6; [done|].
  set (k := at_ v (Z.to_nat (5 + n))) in *.
  pose proof (at_byte v (Z.to_nat (5 + n)) Hok) as Hk. fold k in Hk. unfold is_byte in Hk.
  destruct (negb (n + k + 7 =? _)) eqn:E7; [done|].
  destruct (negb (at_ v 2 =? 2)) eqn:E8; [done|].
  destruct (bad_integer n _ _) eqn:E9; [done|].
  destruct (negb (at_ v (Z.to_nat (6 + n - 2)) =? 2)) eqn:E10; [done|].
  destruct (bad_integer k _ _) eqn:E11; [done|].
  destruct (fCheckLow && _) eqn:E12; [done|]. clear H.
  replace (6 + n - 2) with (4 + n) in E10 by lia.
  assert (zlen v = n + k + 6 + zlen (drop (Z.to_nat (6 + n + k)) v)) as Hz.
  { unfold zlen in *. rewrite length_drop. lia. }
  destruct (der_split v n k Hz) as (r & s & Hv & Hr & Hs); [first [done|lia]..|].
  set (tl := drop (Z.to_nat (6 + n + k)) v) in *.
  assert (zlen tl = 1) as Htl by (unfold tl, zlen in *; rewrite length_drop; lia).
  destruct tl as [|ht [|? l]]; [done| |rewrite !zlen_cons in Htl; pose proof (zlen_nonneg l); lia].
  pose proof (der_lookups r s [ht]) as Hlk. cbv zeta in Hlk. rewrite <-Hv in Hlk.
  destruct Hlk as (_ & _ & _ & _ & Hri & _ & _ & Hsi & Hdrop & _).
  assert (bytes_ok r /\ bytes_ok s) as [Hor Hos].
  { rewrite Hv in Hok. by apply der_parts_ok in Hok. }
  exists r, s, ht. split_and!; [done|..]; [| | |lia|lia|].
  - eapply (bad_integer_spec r); [done|symmetry; exact Hr|].
    rewrite <-(Hri 0%nat), <-(Hri 1%nat) in *. exact E9.
  - eapply (bad_integer_spec s [ht]); [done|symmetry; exact Hs|].
    rewrite <-(Hsi 0%nat), <-(Hsi 1%nat). unfold zlen in Hr.
    replace (6 + length r + 0)%nat with (Z.to_nat (6 + n)) by lia.
    replace (6 + length r + 1)%nat with (Z.to_nat (6 + n + 1)) by lia. exact E11.
  - unfold known_hashtype. revert E5. simpl andb.
    replace (at_ v (length v - 1)) with ht; [lia|].
    assert (length v - 1 = 6 + length r + length s)%nat as ->.
    { unfold zlen in *. lia. }
    rewrite Hsi. unfold at_. by rewrite list_lookup_middle.
  - intros ->. simpl in E12. apply negb_false_iff in E12. unfold zlen in Hr, Hs.
    replace (Z.to_nat (6 + n)) with (6 + length r)%nat in E12 by lia. rewrite Hdrop in E12.
    rewrite take_app_length' in E12 by lia. done.
Qed.

Lemma IsDERSignature_complete v fCheckLow :
  bytes_ok v -> der_signature v fCheckLow -> IsDERSignature v true fCheckLow = true.
Proof.
  intros Hok.
  intros (r & s & ht & -> & Hr & Hs & Hht & Hlen & Hlow).
  pose proof (der_lookups r s [ht]) as Hlk. cbv zeta in Hlk.
  destruct Hlk as (H0 & H1 & H2 & H3 & Hri & H4 & H5 & Hsi & Hdrop & Hl).
  assert (bytes_ok r /\ bytes_ok s) as [Hor Hos].
  { by apply der_parts_ok in Hok. }
  set (v := der_encode r s [ht]) in *. unfold IsDERSignature. cbv zeta.
  rewrite H0, H1, H3. change (zlen [ht]) with 1 in Hl. pose proof (zlen_nonneg r). pose proof (zlen_nonneg s).
  assert (at_ v (length v - 1) = ht) as ->.
  { assert (length v - 1 = 6 + length r + length s)%nat as -> by (unfold zlen in *; lia).
    rewrite Hsi. unfold at_. by rewrite list_lookup_middle. }
  replace (Z.to_nat (5 + zlen r)) with (5 + length r)%nat by (unfold zlen; lia). rewrite H5.
  replace (Z.to_nat (6 + zlen r - 2)) with (4 + length r)%nat by (unfold zlen; lia). rewrite H4, H2.
  change (at_ v 4) with (at_ v (4 + 0)). change (at_ v 5) with (at_ v (4 + 1)). rewrite !Hri.
  rewrite (proj2 (bad_integer_spec r _ _ Hor eq_refl) Hr).
  replace (Z.to_nat (6 + zlen r + 1)) with (6 + length r + 1)%nat by (unfold zlen; lia).
  replace (at_ v (Z.to_nat (6 + zlen r))) with (at_ (s ++ [ht]) 0)
    by (rewrite <-Hsi; f_equal; unfold zlen; lia).
  rewrite Hsi, (proj2 (bad_integer_spec s _ _ Hos eq_refl) Hs).
  replace (Z.to_nat (6 + zlen r)) with (6 + length r)%nat by (unfold zlen; lia). rewrite Hdrop.
  rewrite take_app_length' by (unfold zlen; lia).
  replace (fCheckLow && negb (CheckSignatureElement s true)) with false
    by (destruct fCheckLow; [rewrite Hlow by done|]; done).
  replace (zlen v <? 9) with false by lia. replace (zlen v >? 73) with false by lia.
  unfold known_hashtype in Hht.
  replace (true && _) with false by (simpl; lia).
  replace (zlen r + zlen s + 4 =? zlen v - 3) with true by lia.
  replace (5 + zlen r >=? zlen v) with false by lia.
  replace (zlen r + zlen s + 7 =? zlen v) with true by lia. done.
Qed.

(** [IsDERSignature] with a hash type accepts a signature exactly when it is the
    strict DER encoding of two minimal non-negative integers followed by a known hash type byte,
    between 9 and 73 bytes long; with [fCheckLow], when moreover its S value is at most half the
    group order. *)
Lemma IsDERSignature_spec v fCheckLow :
  bytes_ok v ->
  IsDERSignature v true fCheckLow = true
  <-> der_signature v fCheckLow.
Proof.
  intros Hok. split; [by apply IsDERSignature_sound|by apply IsDERSignature_complete].
Qed.
Lemma IsDERSignature_spec_witness : der_signature [0x30; 6; 2; 1; 5; 2; 1; 9; 1] true.
Proof.
  apply (IsDERSignature_spec [0x30; 6; 2; 1; 5; 2; 1; 9; 1] true); [|vm_compute; reflexivity].
  repeat (apply Forall_cons_2; [unfold is_byte; lia|]). apply Forall_nil_2.
Defined.

End SigEncoding.
