(* ===== verification/SigCheck.v ===== *)
(** * SigCheck: signature hashes, the signature cache and [CheckSig] ([script/script.cpp])

    The ECDSA verification [CPubKey::Verify] (libsecp256k1 or OpenSSL) is a parameter. The interpreter
    uses signature checks only through the class [SigChecker]; this file gives two instances, the
    code's one with the cache and the cache-free specification, and shows they agree. *)
From S2P Require Import Prelude ScriptNum Script Serialize Crypto Transaction Keys.
Import ScriptOpcodes Script_param Tx.

(** ** The interface *)

(** A signature checker with state [C]; [None] is an assertion failure. *)
Class SigChecker (C : Type) : Type :=
  CheckSig : forall (vchSig vchPubKey scriptCode : bytes) (txTo : CTransaction)
                    (nIn nHashType flags : Z), C -> option (bool * C).

Module SigCheck.

(** ** [SignatureHash] *)

(** All input scripts are emptied, the one being signed is replaced by the script code. *)
Definition blank_inputs (scriptCode : bytes) (nIn : nat) (ins : list CTxIn) : list CTxIn :=
  imap (fun i t => set_scriptSig (if (i =? nIn)%nat then scriptCode else []) t) ins.

(** "Let the others update at will" *)
Definition zero_sequences (nIn : nat) (ins : list CTxIn) : list CTxIn :=
  imap (fun i t => if (i =? nIn)%nat then t else set_nSequence 0 t) ins.

(** The outputs and the sequence numbers left by the base hash type; [None] is the early return. *)
Definition blank_outputs (nHashType : Z) (nIn : nat) (tx : CTransaction) : option CTransaction :=
  if Z.land nHashType 0x1f =? SIGHASH_NONE then
    Some (set_vin (zero_sequences nIn) (set_vout (fun _ => []) tx))
  else if Z.land nHashType 0x1f =? SIGHASH_SINGLE then
    let nOut := nIn in
    if zlen (vout tx) <=? Z.of_nat nOut then None
    else
      let outs := take (nOut + 1) (vout tx) in
      let outs := imap (fun i o => if (i <? nOut)%nat then CTxOut_SetNull else o) outs in
      Some (set_vin (zero_sequences nIn) (set_vout (fun _ => outs) tx))
  else Some tx.

(** "Blank out other inputs completely" *)
Definition anyone_can_pay (nIn : nat) (ins : list CTxIn) : list CTxIn :=
  match ins !! nIn with Some i => [i] | None => ins end.

(** The result is [None] when serializing the copy fails its assertion. *)
Definition SignatureHash (scriptCode : bytes) (txTo : CTransaction) (nIn nHashType : Z) : option uint256 :=
  if zlen (vin txTo) <=? nIn then Some (uint256_of 1)
  else
    let n := Z.to_nat nIn in
    let scriptCode := (CScript.FindAndDelete scriptCode (CScript.push_opcode [] OP_CODESEPARATOR)).1 in
    let txTmp := set_vin (blank_inputs scriptCode n) txTo in
    match blank_outputs nHashType n txTmp with
    | None => Some (uint256_of 1)
    | Some txTmp =>
        let txTmp := if flag nHashType SIGHASH_ANYONECANPAY
                     then set_vin (anyone_can_pay n) txTmp else txTmp in
        ss ← SerializeTx txTmp;
        Some (Crypto.Hash (ss ++ Serialize.put Serialize.int32_le nHashType))
    end.

(** ** The signature cache *)

(** [sigdata_type]: the signature hash, the signature, the public key. *)
Abbreviation sigdata := (uint256 * bytes * bytes)%type.

Fixpoint bytes_lt (a b : bytes) : bool :=
  match a, b with
  | [], [] => false
  | [], _ :: _ => true
  | _ :: _, [] => false
  | x :: a, y :: b => (x <? y) || ((x =? y) && bytes_lt a b)
  end.

(** The order of the set: hashes as integers, then signatures, then keys. *)
Definition sigdata_lt (a b : sigdata) : bool :=
  let '(h1, s1, k1) := a in
  let '(h2, s2, k2) := b in
  (le_value h1 <? le_value h2)
  || ((le_value h1 =? le_value h2)
      && (bytes_lt s1 s2 || (negb (bytes_lt s2 s1) && bytes_lt (CPubKey.data k1) (CPubKey.data k2)))).

Record cache : Type := Cache {
  setValid : gset sigdata;
  rng : nat -> uint256;   (** what [bitsystem::GetRandHash] returns, call by call *)
  calls : nat }.

Definition Get (c : cache) (k : sigdata) : bool := bool_decide (k ∈ setValid c).

(** The least of the elements, [begin()] of the set. *)
Fixpoint least (l : list sigdata) : option sigdata :=
  match l with
  | [] => None
  | x :: l => match least l with
              | Some y => Some (if sigdata_lt y x then y else x)
              | None => Some x
              end
  end.

(** The entry to evict: [lower_bound] of a random key, or else the first one. *)
Definition victim (s : gset sigdata) (randomHash : uint256) : option sigdata :=
  let key := (randomHash, [], CPubKey.Invalidate) in
  match least (filter (fun x => sigdata_lt x key = false) (elements s)) with
  | Some x => Some x
  | None => least (elements s)
  end.

Fixpoint evict (fuel : nat) (nMaxCacheSize : Z) (c : cache) : cache :=
  match fuel with
  | O => c
  | S fuel =>
      if Z.of_nat (size (setValid c)) >? nMaxCacheSize then
        match victim (setValid c) (rng c (calls c)) with
        | Some x => evict fuel nMaxCacheSize (Cache (setValid c ∖ {[x]}) (rng c) (S (calls c)))
        | None => c
        end
      else c
  end.

(** [Set], for the configured [-maxsigcachesize]. *)
Definition Set_ (nMaxCacheSize : Z) (c : cache) (k : sigdata) : cache :=
  if nMaxCacheSize <=? 0 then c
  else
    let c := evict (size (setValid c)) nMaxCacheSize c in
    Cache ({[k]} ∪ setValid c) (rng c) (calls c).

(** ** [CheckSig] *)

Section checksig.
(** [CPubKey::Verify(hash, vchSig)] of the key with the given bytes *)
Variable Verify : bytes -> uint256 -> bytes -> bool.
Variable nMaxCacheSize : Z.

(** What [CheckSig] does before the cache: the key, the signature without its last byte and the
    signature hash, or the result [false]. *)
Definition CheckSig_prepare (vchSig vchPubKey scriptCode : bytes) (txTo : CTransaction) (nIn nHashType : Z) :
    option (option sigdata) :=
  let pubkey := CPubKey.Set_ vchPubKey in
  if negb (CPubKey.IsValid pubkey) then Some None
  else match vchSig with
  | [] => Some None
  | _ =>
      let back := CScriptNum.back vchSig in
      if negb (nHashType =? 0) && negb (nHashType =? back) then Some None
      else
        let nHashType := if nHashType =? 0 then back else nHashType in
        let vchSig := removelast vchSig in
        sighash ← SignatureHash scriptCode txTo nIn nHashType;
        Some (Some (sighash, vchSig, pubkey))
  end.

#[global] Instance cached_checker : SigChecker cache :=
  fun vchSig vchPubKey scriptCode txTo nIn nHashType flags c =>
    r ← CheckSig_prepare vchSig vchPubKey scriptCode txTo nIn nHashType;
    match r with
    | None => Some (false, c)
    | Some (sighash, sig, pubkey) =>
        if Get c (sighash, sig, pubkey) then Some (true, c)
        else if negb (Verify pubkey sighash sig) then Some (false, c)
        else Some (true, if negb (flag flags SCRIPT_VERIFY_NOCACHE)
                         then Set_ nMaxCacheSize c (sighash, sig, pubkey) else c)
    end.

(** The specification: every signature is verified. *)
#[global] Instance pure_checker : SigChecker unit :=
  fun vchSig vchPubKey scriptCode txTo nIn nHashType flags c =>
    r ← CheckSig_prepare vchSig vchPubKey scriptCode txTo nIn nHashType;
    match r with
    | None => Some (false, tt)
    | Some (sighash, sig, pubkey) => Some (Verify pubkey sighash sig, tt)
    end.

(** Every cached entry is a valid signature. *)
Definition cache_sound (c : cache) : Prop :=
  forall h s k, (h, s, k) ∈ setValid c -> Verify k h s = true.

Definition cache_bounded (c : cache) : Prop :=
  Z.of_nat (size (setValid c)) <= Z.max 0 nMaxCacheSize + 1.

Lemma least_in l x : least l = Some x -> x ∈ l.
Proof.
  revert x. induction l as [|y l IH]; intros x; cbn [least]; [done|].
  destruct (least l) as [z|] eqn:E.
  - destruct (sigdata_lt z y); intros [= <-]; set_solver.
  - intros [= <-]. set_solver.
Qed.

Lemma least_some l : l <> [] -> is_Some (least l).
Proof. destruct l as [|x l]; [done|]. cbn [least]. intros _. destruct (least l); by eexists. Qed.

Lemma victim_in s r x : victim s r = Some x -> x ∈ s.
Proof.
  unfold victim. destruct (least (filter _ _)) as [y|] eqn:E.
  - intros [= <-]. apply least_in, list_elem_of_filter in E as [_ E]. by apply elem_of_elements.
  - intros H. by apply elem_of_elements, least_in.
Qed.

Lemma victim_some s r : s <> ∅ -> is_Some (victim s r).
Proof.
  intros Hs. unfold victim. destruct (least (filter _ _)); [by eexists|]. apply least_some.
  intros H. apply elements_empty_inv in H. by apply leibniz_equiv in H.
Qed.

(** Eviction only removes entries, and removes enough of them. *)
Lemma evict_spec fuel c :
  (size (setValid c) <= fuel)%nat -> 0 < nMaxCacheSize ->
  setValid (evict fuel nMaxCacheSize c) ⊆ setValid c
  /\ Z.of_nat (size (setValid (evict fuel nMaxCacheSize c))) <= nMaxCacheSize.
Proof.
  revert c. induction fuel as [|fuel IH]; intros c Hf Hmax; cbn [evict]; [split; [done|lia]|].
  destruct (_ >? _) eqn:E; [|split; [done|lia]].
  destruct (victim_some (setValid c) (rng c (calls c))) as [x Hx].
  { intros Hs. rewrite Hs, size_empty in E. apply Z.gtb_lt in E. lia. }
  rewrite Hx. apply victim_in in Hx.
  destruct (IH (Cache (setValid c ∖ {[x]}) (rng c) (S (calls c)))) as [Hsub Hsz]; [|done|].
  { simpl. rewrite size_difference by set_solver. rewrite size_singleton. lia. }
  split; [|done]. simpl in Hsub. set_solver.
Qed.

Lemma Set_sound c h s k : cache_sound c -> Verify k h s = true -> cache_sound (Set_ nMaxCacheSize c (h, s, k)).
Proof.
  intros Hc Hv. unfold Set_. destruct (_ <=? 0) eqn:E; [done|].
  destruct (evict_spec (size (setValid c)) c) as [Hsub _]; [lia..|].
  intros h' s' k' [Heq%elem_of_singleton|Hin]%elem_of_union; [by simplify_eq|]. apply Hc. set_solver.
Qed.

Lemma Set_bounded c k : cache_bounded c -> cache_bounded (Set_ nMaxCacheSize c k).
Proof.
  intros Hc. unfold Set_, cache_bounded in *. destruct (_ <=? 0) eqn:E; [done|]. simpl.
  destruct (evict_spec (size (setValid c)) c) as [_ Hsz]; [lia..|].
  pose proof (size_union_alt {[k]} (setValid (evict (size (setValid c)) nMaxCacheSize c))) as Hu.
  rewrite Hu. rewrite size_singleton.
  assert (size (setValid (evict (size (setValid c)) nMaxCacheSize c) ∖ {[k]})
    <= size (setValid (evict (size (setValid c)) nMaxCacheSize c)))%nat by (apply subseteq_size; set_solver).
  lia.
Qed.

(** With a cache that holds only valid signatures, [CheckSig] returns what
    verifying every signature returns, and leaves a cache that holds only valid signatures and
    stays within one entry of the configured maximum. *)
Lemma cached_refines_pure vchSig vchPubKey scriptCode txTo nIn nHashType flags c :
  cache_sound c -> cache_bounded c ->
  match cached_checker vchSig vchPubKey scriptCode txTo nIn nHashType flags c,
        pure_checker vchSig vchPubKey scriptCode txTo nIn nHashType flags tt with
  | Some (b, c'), Some (b', _) => b = b' /\ cache_sound c' /\ cache_bounded c'
  | None, None => True
  | _, _ => False
  end.
Proof.
  intros Hs Hb. unfold cached_checker, pure_checker.
  destruct (CheckSig_prepare _ _ _ _ _ _) as [[[[h s] k]|]|]; simpl; [|done|done].
  unfold Get. case_bool_decide as Hin; [split_and!; [by symmetry; apply Hs|done|done]|].
  destruct (Verify k h s) eqn:E; simpl; [|done].
  destruct (flag _ _); simpl; [done|].
  split_and!; [done|by apply Set_sound|by apply Set_bounded].
Qed.
End checksig.

(** A verifier that accepts a signature equal to the hash it signs, and an empty cache. *)
Definition toy_verify (_ h s : bytes) : bool := bool_decide (h = s).
Definition empty_cache : cache := Cache ∅ (fun _ => uint256_of 0) 0.

Lemma cached_refines_pure_witness :
  let key := 2 :: replicate 32 7 in
  let tx := sample_tx 1 in
  match cached_checker toy_verify 10 [1; 1] key [] tx 0 0 0 empty_cache,
        pure_checker toy_verify [1; 1] key [] tx 0 0 0 tt with
  | Some (b, c'), Some (b', _) => b = b' /\ cache_sound toy_verify c' /\ cache_bounded 10 c'
  | None, None => True
  | _, _ => False
  end.
Proof.
  apply (cached_refines_pure toy_verify 10 [1; 1] (2 :: replicate 32 7) [] (sample_tx 1) 0 0 0 empty_cache).
  - intros h s k H. exfalso. revert H. apply not_elem_of_empty.
  - unfold cache_bounded. vm_compute. discriminate.
Defined.

(** After [Set] with a positive maximum, [Get] finds the entry. *)
Theorem Set_Get nMaxCacheSize c k : 0 < nMaxCacheSize -> Get (Set_ nMaxCacheSize c k) k = true.
Proof.
  intros H. unfold Get, Set_. replace (nMaxCacheSize <=? 0) with false by lia. simpl.
  apply bool_decide_eq_true. set_solver.
Qed.
Lemma Set_Get_witness : Get (Set_ 1 empty_cache ([1], [2], [3])) ([1], [2], [3]) = true.
Proof. apply (Set_Get 1 empty_cache ([1], [2], [3])). lia. Defined.

(** ** Totality *)

Lemma SerializeTx_total tx : nVersion tx = 1 \/ nVersion tx = 2 -> is_Some (SerializeTx tx).
Proof. intros H. rewrite SerializeTx_codec by done. by eexists. Qed.

Lemma blank_outputs_version nHashType n tx t :
  blank_outputs nHashType n tx = Some t -> nVersion t = nVersion tx.
Proof. unfold blank_outputs. intros H. repeat case_match; by simplify_eq. Qed.

Lemma SignatureHash_total sc tx nIn nHashType :
  nVersion tx = 1 \/ nVersion tx = 2 -> is_Some (SignatureHash sc tx nIn nHashType).
Proof.
  intros Hv. unfold SignatureHash. destruct (_ <=? _); [by eexists|]. cbv zeta.
  destruct (blank_outputs _ _ _) as [t|] eqn:E; [|by eexists]. apply blank_outputs_version in E.
  destruct (SerializeTx_total (if flag nHashType SIGHASH_ANYONECANPAY
    then set_vin (anyone_can_pay (Z.to_nat nIn)) t else t)) as [ss Hss].
  { by destruct (flag _ _); simpl; rewrite E. }
  rewrite Hss. by eexists.
Qed.

Lemma CheckSig_prepare_total sig key code tx nIn nHashType :
  nVersion tx = 1 \/ nVersion tx = 2 -> is_Some (CheckSig_prepare sig key code tx nIn nHashType).
Proof.
  intros Hv. unfold CheckSig_prepare. cbv zeta. destruct (negb _); [by eexists|].
  destruct sig as [|b sig]; [by eexists|]. destruct (_ && _); [by eexists|].
  destruct (SignatureHash_total code tx nIn (if nHashType =? 0 then CScriptNum.back (b :: sig) else nHashType) Hv)
    as [h ->]. by eexists.
Qed.

Lemma pure_checker_total Verify sig key code tx nIn nHashType flags c :
  nVersion tx = 1 \/ nVersion tx = 2 ->
  is_Some (pure_checker Verify sig key code tx nIn nHashType flags c).
Proof.
  intros Hv. unfold pure_checker.
  destruct (CheckSig_prepare_total sig key code tx nIn nHashType Hv) as [[[[h s] k]|] ->]; by eexists.
Qed.

Lemma cached_checker_total Verify n sig key code tx nIn nHashType flags c :
  nVersion tx = 1 \/ nVersion tx = 2 ->
  is_Some (cached_checker Verify n sig key code tx nIn nHashType flags c).
Proof.
  intros Hv. unfold cached_checker.
  destruct (CheckSig_prepare_total sig key code tx nIn nHashType Hv) as [[[[h s] k]|] ->]; simpl;
    [|by eexists]. repeat case_match; by eexists.
Qed.

(** ** What a signature hash commits to *)

(** Each hash type commits to some fields of the inputs and outputs; [tx'] may differ in the others,
    and in all input scripts and witnesses. *)
Definition same_inputs (nHashType : Z) (nIn : nat) (tx tx' : CTransaction) : Prop :=
  if flag nHashType SIGHASH_ANYONECANPAY then
    exists i i', vin tx !! nIn = Some i /\ vin tx' !! nIn = Some i'
      /\ prevout i = prevout i' /\ nSequence i = nSequence i'
  else if (Z.land nHashType 0x1f =? SIGHASH_NONE) || (Z.land nHashType 0x1f =? SIGHASH_SINGLE) then
    prevout <$> vin tx = prevout <$> vin tx'
    /\ (nSequence <$> vin tx !! nIn) = (nSequence <$> vin tx' !! nIn)
  else prevout <$> vin tx = prevout <$> vin tx' /\ nSequence <$> vin tx = nSequence <$> vin tx'.

Definition same_outputs (nHashType : Z) (nIn : nat) (tx tx' : CTransaction) : Prop :=
  if Z.land nHashType 0x1f =? SIGHASH_NONE then True
  else if Z.land nHashType 0x1f =? SIGHASH_SINGLE then vout tx !! nIn = vout tx' !! nIn
  else vout tx = vout tx'.

Definition same_header (tx tx' : CTransaction) : Prop :=
  nVersion tx = nVersion tx' /\ nTime tx = nTime tx' /\ nLockTime tx = nLockTime tx'.

(** The serialization ignores the witnesses. *)
Lemma SerializeTx_strip tx tx' :
  same_header tx tx' -> strip <$> vin tx = strip <$> vin tx' -> vout tx = vout tx' ->
  SerializeTx tx = SerializeTx tx'.
Proof.
  intros (Hv & Ht & Hl) Hi Ho. unfold SerializeTx.
  by rewrite (put_vin_strip (vin tx)), (put_vin_strip (vin tx')), Hv, Ht, Hl, Hi, Ho.
Qed.

Definition loose (nHashType : Z) : bool :=
  (Z.land nHashType 0x1f =? SIGHASH_NONE) || (Z.land nHashType 0x1f =? SIGHASH_SINGLE).

(** The inputs of the copy that is hashed. *)
Definition hashed_inputs (sc : bytes) (nHashType : Z) (n : nat) (ins : list CTxIn) : list CTxIn :=
  let ins := blank_inputs sc n ins in
  let ins := if loose nHashType then zero_sequences n ins else ins in
  if flag nHashType SIGHASH_ANYONECANPAY then anyone_can_pay n ins else ins.

(** Before ANYONECANPAY, the inputs are changed one by one. *)
Lemma hashed_lookup sc nHashType n ins i :
  (if loose nHashType then zero_sequences n (blank_inputs sc n ins) else blank_inputs sc n ins) !! i
  = (fun t => TxIn (prevout t) (if (i =? n)%nat then sc else [])
                (if loose nHashType && negb (i =? n)%nat then 0 else nSequence t) (scriptWitness t))
    <$> ins !! i.
Proof.
  unfold blank_inputs, zero_sequences.
  destruct (loose nHashType); rewrite ?list_lookup_imap; destruct (ins !! i); simpl; try done;
    by destruct (i =? n)%nat.
Qed.

Lemma fmap_lookup_eq {A B} (f : A -> B) (l k : list A) i x y :
  f <$> l = f <$> k -> l !! i = Some x -> k !! i = Some y -> f x = f y.
Proof.
  intros Hf Hx Hy. apply (f_equal (.!! i)) in Hf. rewrite !list_lookup_fmap, Hx, Hy in Hf. by simplify_eq/=.
Qed.

Lemma hashed_inputs_eq sc nHashType n tx tx' :
  same_inputs nHashType n tx tx' ->
  strip <$> hashed_inputs sc nHashType n (vin tx) = strip <$> hashed_inputs sc nHashType n (vin tx').
Proof.
  unfold same_inputs, hashed_inputs. fold (loose nHashType). cbv zeta. destruct (flag _ _).
  - intros (i & i' & Hi & Hi' & Hp & Hs). unfold anyone_can_pay. rewrite !hashed_lookup, Hi, Hi'.
    cbn [fmap option_fmap option_map list_fmap strip prevout scriptSig nSequence]. by rewrite Hp, Hs.
  - intros H.
    assert (prevout <$> vin tx = prevout <$> vin tx') as Hp by by destruct (loose nHashType), H.
    assert (length (vin tx) = length (vin tx')) as Hlen.
    { apply (f_equal length) in Hp. by rewrite !length_fmap in Hp. }
    apply list_eq. intros j. rewrite !list_lookup_fmap, !hashed_lookup.
    destruct (vin tx !! j) as [x|] eqn:Hx, (vin tx' !! j) as [y|] eqn:Hy; cbn; [| | |done].
    + unfold strip. cbn [prevout scriptSig nSequence]. rewrite (fmap_lookup_eq _ _ _ _ _ _ Hp Hx Hy).
      do 2 f_equal. destruct (loose nHashType); simpl.
      * destruct (j =? n)%nat eqn:E; simpl; [|done]. apply Nat.eqb_eq in E as ->. destruct H as [_ H].
        rewrite Hx, Hy in H. by injection H.
      * by eapply fmap_lookup_eq; [apply H|..].
    + apply lookup_lt_Some in Hx. apply lookup_ge_None in Hy. lia.
    + apply lookup_lt_Some in Hy. apply lookup_ge_None in Hx. lia.
Qed.

(** The outputs of the copy. *)
Lemma hashed_outputs_eq nHashType n tx tx' ins ins' :
  same_header tx tx' -> same_outputs nHashType n tx tx' ->
  match blank_outputs nHashType n (set_vin (fun _ => ins) tx),
        blank_outputs nHashType n (set_vin (fun _ => ins') tx') with
  | Some t, Some t' =>
      same_header t t' /\ vout t = vout t'
      /\ vin t = (if loose nHashType then zero_sequences n ins else ins)
      /\ vin t' = (if loose nHashType then zero_sequences n ins' else ins')
  | None, None => True
  | _, _ => False
  end.
Proof.
  intros Hh Ho. unfold same_outputs in Ho. unfold blank_outputs, loose.
  destruct (Z.land nHashType 31 =? SIGHASH_NONE); [done|].
  destruct (Z.land nHashType 31 =? SIGHASH_SINGLE); simpl orb; cbv iota; [|done].
  cbn [set_vin vout]. cbv zeta. unfold zlen.
  destruct (vout tx !! n) as [o|] eqn:E; symmetry in Ho.
  - pose proof (lookup_lt_Some _ _ _ E). pose proof (lookup_lt_Some _ _ _ Ho).
    replace (Z.of_nat (length (vout tx)) <=? Z.of_nat n) with false by lia.
    replace (Z.of_nat (length (vout tx')) <=? Z.of_nat n) with false by lia.
    split; [exact Hh|]. split; [|done]. cbn [set_vin set_vout vout]. apply list_eq. intros i. rewrite !list_lookup_imap.
    destruct (decide (i < n + 1)%nat).
    + rewrite !lookup_take_lt by lia.
      destruct (lookup_lt_is_Some_2 (vout tx) i) as [x Hx]; [lia|].
      destruct (lookup_lt_is_Some_2 (vout tx') i) as [y Hy]; [lia|]. rewrite Hx, Hy.
      destruct (i <? n)%nat eqn:Ei; [done|]. apply Nat.ltb_ge in Ei.
      simpl. assert (i = n) as -> by lia. congruence.
    + by rewrite !lookup_take_ge by lia.
  - apply lookup_ge_None in E, Ho.
    replace (Z.of_nat (length (vout tx)) <=? Z.of_nat n) with true by lia.
    by replace (Z.of_nat (length (vout tx')) <=? Z.of_nat n) with true by lia.
Qed.

(** C31 (safety): a signature hash depends only on the transaction header and on what its hash type
    commits to: never on the input scripts or witnesses, with NONE on no output, with SINGLE on the
    output of the same index only, with ANYONECANPAY on the signed input only. *)
Theorem SignatureHash_commitment scriptCode nHashType n tx tx' :
  same_header tx tx' -> same_inputs nHashType n tx tx' -> same_outputs nHashType n tx tx' ->
  (n < length (vin tx))%nat -> (n < length (vin tx'))%nat ->
  SignatureHash scriptCode tx (Z.of_nat n) nHashType = SignatureHash scriptCode tx' (Z.of_nat n) nHashType.
Proof.
  intros Hh Hi Ho Hn Hn'. unfold SignatureHash. unfold zlen.
  replace (Z.of_nat (length (vin tx)) <=? Z.of_nat n) with false by lia.
  replace (Z.of_nat (length (vin tx')) <=? Z.of_nat n) with false by lia.
  rewrite Nat2Z.id. cbv zeta. set (sc := (CScript.FindAndDelete _ _).1).
  pose proof (hashed_inputs_eq sc nHashType n tx tx' Hi) as Hin. unfold hashed_inputs in Hin.
  pose proof (hashed_outputs_eq nHashType n tx tx' (blank_inputs sc n (vin tx))
    (blank_inputs sc n (vin tx')) Hh Ho) as Hout. cbv zeta in Hin.
  change (set_vin (blank_inputs sc n) tx) with (set_vin (fun _ => blank_inputs sc n (vin tx)) tx).
  change (set_vin (blank_inputs sc n) tx') with (set_vin (fun _ => blank_inputs sc n (vin tx')) tx').
  destruct (blank_outputs _ _ (set_vin _ tx)) as [t|], (blank_outputs _ _ (set_vin _ tx')) as [t'|]; [|done..].
  destruct Hout as (Hht & Hvo & Hvi & Hvi'). rewrite <-Hvi, <-Hvi' in Hin.
  assert (forall u u', SerializeTx u = SerializeTx u' ->
    (ss ← SerializeTx u; Some (Crypto.Hash (ss ++ Serialize.put Serialize.int32_le nHashType)))
    = (ss ← SerializeTx u'; Some (Crypto.Hash (ss ++ Serialize.put Serialize.int32_le nHashType)))) as Hser
    by by intros u u' ->.
  apply Hser, SerializeTx_strip; by destruct (flag _ _).
Qed.
Lemma SignatureHash_commitment_witness :
  let tx' := Transaction 1 1546300800 [TxIn (OutPoint (uint256_of 7) 1) [42] SEQUENCE_FINAL [[1]]] [] 0 in
  SignatureHash [81] (sample_tx 1) 0 SIGHASH_NONE = SignatureHash [81] tx' 0 SIGHASH_NONE.
Proof.
  apply (SignatureHash_commitment [81] SIGHASH_NONE 0 (sample_tx 1)
    (Transaction 1 1546300800 [TxIn (OutPoint (uint256_of 7) 1) [42] SEQUENCE_FINAL [[1]]] [] 0));
    [repeat split|split; reflexivity|exact I|simpl; lia|simpl; lia].
Defined.

End SigCheck.
