(* ===== verification/Interpreter.v ===== *)
(** * Interpreter: [EvalScript] and [VerifyScript] ([script/script.cpp])

    The evaluator is written in a monad of computations on the evaluator's state that return a
    value, return false (also the fate of every exception, which [EvalScript] catches) or stop the
    process on an assertion or an access the C++ code leaves undefined. The stack is kept with its
    top first. Each turn of the main loop reads at least one byte of the script, so its length is
    enough fuel. OpenSSL's [RIPEMD160], [SHA1] and [SHA256], called by the opcodes of these names,
    are parameters; so is the signature checker, through the class [SigChecker]. *)
From S2P Require Import Prelude ScriptNum Script Serialize Crypto Transaction Keys SigCheck.
Import ScriptOpcodes Script_param Script_const CScript SigEncoding Tx.

Module Interpreter.

(** ** The monad *)

Inductive outcome (A : Type) : Type :=
  | Ret (a : A)
  | Fail       (** [return false], or an exception caught by [EvalScript] *)
  | Stuck.     (** failed assertion or undefined access *)
Arguments Ret {A} a.
Arguments Fail {A}.
Arguments Stuck {A}.

(** The local variables of [EvalScript], the caller's stack and the checker's state. *)
Record estate (C : Type) : Type := EState {
  stack : list bytes; altstack : list bytes; vfExec : list bool;
  pbegincodehash : bytes; nOpCount : Z; checker : C }.
Arguments EState {C}.
Arguments stack {C}.
Arguments altstack {C}.
Arguments vfExec {C}.
Arguments pbegincodehash {C}.
Arguments nOpCount {C}.
Arguments checker {C}.

Definition M (C A : Type) : Type := estate C -> outcome A * estate C.

Declare Scope eval_scope.
Delimit Scope eval_scope with eval.

Definition mret {C A} (a : A) : M C A := fun s => (Ret a, s).
Definition mfail {C A} : M C A := fun s => (Fail, s).
Definition mstuck {C A} : M C A := fun s => (Stuck, s).
Definition mbind {C A B} (m : M C A) (k : A -> M C B) : M C B :=
  fun s => match m s with
           | (Ret a, s) => k a s
           | (Fail, s) => (Fail, s)
           | (Stuck, s) => (Stuck, s)
           end.
Definition mget {C A} (f : estate C -> A) : M C A := fun s => (Ret (f s), s).
Definition mput {C} (f : estate C -> estate C) : M C unit := fun s => (Ret tt, f s).

Notation "'do' x <- m ; k" := (mbind m (fun x => k))
  (at level 10, x binder, m at level 100, k at level 200) : eval_scope.
Notation "m ;; k" := (mbind m (fun _ => k)) (at level 100, k at level 200, right associativity) : eval_scope.
Open Scope eval_scope.

(** [if (b) return false;] *)
Definition fail_if {C} (b : bool) : M C unit := if b then mfail else mret tt.
Definition of_option {C A} (o : option A) : M C A := match o with Some a => mret a | None => mfail end.
(** An assertion. *)
Definition of_assert {C A} (o : option A) : M C A := match o with Some a => mret a | None => mstuck end.

(** ** Stack operations *)

Definition set_stack {C} (st : list bytes) : M C unit :=
  mput (fun s => EState st (altstack s) (vfExec s) (pbegincodehash s) (nOpCount s) (checker s)).
Definition set_altstack {C} (st : list bytes) : M C unit :=
  mput (fun s => EState (stack s) st (vfExec s) (pbegincodehash s) (nOpCount s) (checker s)).
Definition set_vfExec {C} (v : list bool) : M C unit :=
  mput (fun s => EState (stack s) (altstack s) v (pbegincodehash s) (nOpCount s) (checker s)).
Definition set_codehash {C} (pc : bytes) : M C unit :=
  mput (fun s => EState (stack s) (altstack s) (vfExec s) pc (nOpCount s) (checker s)).
Definition set_nOpCount {C} (n : Z) : M C unit :=
  mput (fun s => EState (stack s) (altstack s) (vfExec s) (pbegincodehash s) n (checker s)).
Definition set_checker {C} (c : C) : M C unit :=
  mput (fun s => EState (stack s) (altstack s) (vfExec s) (pbegincodehash s) (nOpCount s) c).

(** [stack.size() < n] *)
Definition require {C} (n : Z) : M C unit := do st <- mget stack; fail_if (zlen st <? n).
(** [stacktop(-i)] for [i >= 1]: [at] throws outside the stack. *)
Definition stacktop {C} (i : nat) : M C bytes := do st <- mget stack; of_option (st !! (i - 1)%nat).
Definition push {C} (v : bytes) : M C unit := do st <- mget stack; set_stack (v :: st).
Definition popstack {C} : M C unit :=
  do st <- mget stack; match st with [] => mfail | _ :: st => set_stack st end.

Definition vchFalse : bytes := [].
Definition vchTrue : bytes := [1].
Definition vchBool (b : bool) : bytes := if b then vchTrue else vchFalse.

(** [CScriptNum(vch, fRequireMinimal, nMaxNumSize)]: the constructor throws on a bad operand. *)
Definition script_num {C} (fRequireMinimal : bool) (size : Z) (v : bytes) : M C Z :=
  of_option (CScriptNum.of_vch v fRequireMinimal size).

(** ** Lock times *)

Definition CheckLockTime {C} (lockTime : Z) (txTo : CTransaction) (nIn : Z) : M C bool :=
  if negb (((nLockTime txTo <? block_params.LOCKTIME_THRESHOLD) && (lockTime <? block_params.LOCKTIME_THRESHOLD))
           || ((nLockTime txTo >=? block_params.LOCKTIME_THRESHOLD) && (lockTime >=? block_params.LOCKTIME_THRESHOLD)))
  then mret false
  else if lockTime >? nLockTime txTo then mret false
  else match vin txTo !! Z.to_nat nIn with
       | None => mstuck
       | Some i => mret (negb (SEQUENCE_FINAL =? nSequence i))
       end.

Definition CheckSequence {C} (nSeq : Z) (txTo : CTransaction) (nIn : Z) : M C bool :=
  match vin txTo !! Z.to_nat nIn with
  | None => mstuck
  | Some i =>
      let txToSequence := nSequence i in
      if negb (Z.land txToSequence SEQUENCE_LOCKTIME_DISABLE_FLAG =? 0) then mret false
      else
        let nLockTimeMask := Z.lor SEQUENCE_LOCKTIME_TYPE_FLAG SEQUENCE_LOCKTIME_MASK in
        let txToSequenceMasked := Z.land txToSequence nLockTimeMask in
        let nSequenceMasked := Z.land nSeq nLockTimeMask in
        if negb (((txToSequenceMasked <? SEQUENCE_LOCKTIME_TYPE_FLAG) && (nSequenceMasked <? SEQUENCE_LOCKTIME_TYPE_FLAG))
                 || ((txToSequenceMasked >=? SEQUENCE_LOCKTIME_TYPE_FLAG) && (nSequenceMasked >=? SEQUENCE_LOCKTIME_TYPE_FLAG)))
        then mret false
        else mret (negb (nSequenceMasked >? txToSequenceMasked))
  end.

Section eval.
Context {C : Type} `{!SigChecker C}.
(** OpenSSL's hash functions *)
Variables RIPEMD160 SHA1 SHA256 : bytes -> bytes.
Variables (txTo : CTransaction) (nIn flags nHashType : Z).

Definition fRequireMinimal : bool := flag flags SCRIPT_VERIFY_MINIMALDATA.
Definition num (v : bytes) : M C Z := script_num fRequireMinimal CScriptNum.nDefaultMaxNumSize v.

(** ** Control *)

Definition eval_locktime : M C unit :=
  if negb (flag flags SCRIPT_VERIFY_CHECKLOCKTIMEVERIFY) then mret tt
  else
    require 1;;
    do v <- stacktop 1; do lockTime <- script_num fRequireMinimal 5 v;
    fail_if (lockTime <? 0);;
    do ok <- CheckLockTime lockTime txTo nIn; fail_if (negb ok).

Definition eval_sequence : M C unit :=
  if negb (flag flags SCRIPT_VERIFY_CHECKSEQUENCEVERIFY) then mret tt
  else
    require 1;;
    do v <- stacktop 1; do nSeq <- script_num fRequireMinimal 5 v;
    fail_if (nSeq <? 0);;
    if negb (CScriptNum.op_and nSeq SEQUENCE_LOCKTIME_DISABLE_FLAG =? 0) then mret tt
    else do ok <- CheckSequence nSeq txTo nIn; fail_if (negb ok).

Definition eval_upgradable_nop : M C unit :=
  fail_if (flag flags SCRIPT_VERIFY_DISCOURAGE_UPGRADABLE_NOPS).

(** [OP_IF], [OP_NOTIF] *)
Definition eval_if (fExec notif : bool) : M C unit :=
  do fValue <-
    (if fExec then
       require 1;;
       do vch <- stacktop 1;
       let fValue := CastToBool vch in
       let fValue := if notif then negb fValue else fValue in
       popstack;; mret fValue
     else mret false);
  do v <- mget vfExec; set_vfExec (fValue :: v).

Definition eval_else : M C unit :=
  do v <- mget vfExec;
  match v with [] => mfail | b :: v => set_vfExec (negb b :: v) end.

Definition eval_endif : M C unit :=
  do v <- mget vfExec; match v with [] => mfail | _ :: v => set_vfExec v end.

Definition eval_verify : M C unit :=
  require 1;; do v <- stacktop 1; if CastToBool v then popstack else mfail.

(** ** Stack opcodes *)

Definition eval_toaltstack : M C unit :=
  require 1;; do v <- stacktop 1; do a <- mget altstack; set_altstack (v :: a);; popstack.

Definition eval_fromaltstack : M C unit :=
  do a <- mget altstack;
  match a with [] => mfail | v :: a => push v;; set_altstack a end.

Definition eval_2drop : M C unit := require 2;; popstack;; popstack.
Definition eval_2dup : M C unit :=
  require 2;; do vch1 <- stacktop 2; do vch2 <- stacktop 1; push vch1;; push vch2.
Definition eval_3dup : M C unit :=
  require 3;; do vch1 <- stacktop 3; do vch2 <- stacktop 2; do vch3 <- stacktop 1;
  push vch1;; push vch2;; push vch3.
Definition eval_2over : M C unit :=
  require 4;; do vch1 <- stacktop 4; do vch2 <- stacktop 3; push vch1;; push vch2.

(** [stack.erase(stack.end() - i)] *)
Definition erase (i : nat) : M C unit :=
  do st <- mget stack; set_stack (take (i - 1) st ++ drop i st).
(** [std::swap(stacktop(-i), stacktop(-j))] *)
Definition swap (i j : nat) : M C unit :=
  do vi <- stacktop i; do vj <- stacktop j; do st <- mget stack;
  set_stack (<[(i - 1)%nat := vj]> (<[(j - 1)%nat := vi]> st)).

Definition eval_2rot : M C unit :=
  require 6;; do vch1 <- stacktop 6; do vch2 <- stacktop 5;
  erase 6;; erase 5;; push vch1;; push vch2.
Definition eval_2swap : M C unit := require 4;; swap 4 2;; swap 3 1.
Definition eval_ifdup : M C unit :=
  require 1;; do vch <- stacktop 1; if CastToBool vch then push vch else mret tt.
Definition eval_depth : M C unit :=
  do st <- mget stack; push (CScriptNum.getvch (u16 (zlen st))).
Definition eval_drop : M C unit := require 1;; popstack.
Definition eval_dup : M C unit := require 1;; do vch <- stacktop 1; push vch.
Definition eval_nip : M C unit := require 2;; erase 2.
Definition eval_over : M C unit := require 2;; do vch <- stacktop 2; push vch.

(** [OP_PICK], [OP_ROLL] *)
Definition eval_pick (roll : bool) : M C unit :=
  require 2;;
  do v <- stacktop 1; do bn <- num v;
  let n := CScriptNum.getint bn in
  popstack;;
  do st <- mget stack;
  fail_if ((n <? 0) || (n >=? zlen st));;
  do vch <- stacktop (Z.to_nat (n + 1));
  (if roll then erase (Z.to_nat (n + 1)) else mret tt);;
  push vch.

Definition eval_rot : M C unit := require 3;; swap 3 2;; swap 2 1.
Definition eval_swap : M C unit := require 2;; swap 2 1.
(** [stack.insert(stack.end() - 2, vch)] *)
Definition eval_tuck : M C unit :=
  require 2;; do vch <- stacktop 1; do st <- mget stack; set_stack (take 2 st ++ vch :: drop 2 st).
Definition eval_size : M C unit :=
  require 1;; do v <- stacktop 1; push (CScriptNum.getvch (u16 (zlen v))).

(** [OP_EQUAL], [OP_EQUALVERIFY] *)
Definition eval_equal (verify : bool) : M C unit :=
  require 2;; do vch1 <- stacktop 2; do vch2 <- stacktop 1;
  let fEqual := bool_decide (vch1 = vch2) in
  popstack;; popstack;; push (vchBool fEqual);;
  if verify then (if fEqual then popstack else mfail) else mret tt.

(** ** Numeric opcodes *)

Definition bn_bool (b : bool) : Z := if b then 1 else 0.

(** The unary operators; the arithmetic ones assert that they do not overflow. *)
Definition unary (op : opcodetype) (bn : Z) : option Z :=
  match op with
  | OP_1ADD => CScriptNum.op_add_assign bn 1
  | OP_1SUB => CScriptNum.op_sub_assign bn 1
  | OP_NEGATE => CScriptNum.op_neg bn
  | OP_ABS => if bn <? 0 then CScriptNum.op_neg bn else Some bn
  | OP_NOT => Some (bn_bool (bn =? 0))
  | OP_0NOTEQUAL => Some (bn_bool (negb (bn =? 0)))
  | _ => None
  end.

Definition eval_unary (op : opcodetype) : M C unit :=
  require 1;; do v <- stacktop 1; do bn <- num v; do bn <- of_assert (unary op bn);
  popstack;; push (CScriptNum.getvch bn).

Definition binary (op : opcodetype) (bn1 bn2 : Z) : option Z :=
  match op with
  | OP_ADD => Some (CScriptNum.op_add bn1 bn2)
  | OP_SUB => Some (CScriptNum.op_sub bn1 bn2)
  | OP_BOOLAND => Some (bn_bool (negb (bn1 =? 0) && negb (bn2 =? 0)))
  | OP_BOOLOR => Some (bn_bool (negb (bn1 =? 0) || negb (bn2 =? 0)))
  | OP_NUMEQUAL | OP_NUMEQUALVERIFY => Some (bn_bool (bn1 =? bn2))
  | OP_NUMNOTEQUAL => Some (bn_bool (negb (bn1 =? bn2)))
  | OP_LESSTHAN => Some (bn_bool (bn1 <? bn2))
  | OP_GREATERTHAN => Some (bn_bool (bn1 >? bn2))
  | OP_LESSTHANOREQUAL => Some (bn_bool (bn1 <=? bn2))
  | OP_GREATERTHANOREQUAL => Some (bn_bool (bn1 >=? bn2))
  | OP_MIN => Some (if bn1 <? bn2 then bn1 else bn2)
  | OP_MAX => Some (if bn1 >? bn2 then bn1 else bn2)
  | _ => None
  end.

Definition eval_binary (op : opcodetype) : M C unit :=
  require 2;; do v1 <- stacktop 2; do v2 <- stacktop 1; do bn1 <- num v1; do bn2 <- num v2;
  do bn <- of_assert (binary op bn1 bn2);
  popstack;; popstack;; push (CScriptNum.getvch bn);;
  match op with
  | OP_NUMEQUALVERIFY => do v <- stacktop 1; if CastToBool v then popstack else mfail
  | _ => mret tt
  end.

Definition eval_within : M C unit :=
  require 3;; do v1 <- stacktop 3; do v2 <- stacktop 2; do v3 <- stacktop 1;
  do bn1 <- num v1; do bn2 <- num v2; do bn3 <- num v3;
  let fValue := (bn2 <=? bn1) && (bn1 <? bn3) in
  popstack;; popstack;; popstack;; push (vchBool fValue).

(** ** Crypto *)

Definition eval_hash (f : bytes -> bytes) : M C unit :=
  require 1;; do vch <- stacktop 1; popstack;; push (f vch).

(** The conjunction at the heart of [OP_CHECKSIG] and [OP_CHECKMULTISIG]. *)
Definition check_one (vchSig vchPubKey scriptCode : bytes) : M C bool :=
  if IsCanonicalSignature vchSig flags && IsCanonicalPubKey vchPubKey flags then
    do c <- mget checker;
    do r <- of_assert (CheckSig vchSig vchPubKey scriptCode txTo nIn nHashType flags c);
    set_checker r.2;; mret r.1
  else mret false.

(** [scriptCode.FindAndDelete(CScript(vchSig))]: the push of the signature is deleted. *)
Definition drop_signature (scriptCode vchSig : bytes) : bytes :=
  (FindAndDelete scriptCode (push_data [] vchSig)).1.

Definition eval_checksig (verify : bool) : M C unit :=
  require 2;; do vchSig <- stacktop 2; do vchPubKey <- stacktop 1;
  do scriptCode <- mget pbegincodehash;
  let scriptCode := drop_signature scriptCode vchSig in
  do fSuccess <- check_one vchSig vchPubKey scriptCode;
  popstack;; popstack;; push (vchBool fSuccess);;
  if verify then (if fSuccess then popstack else mfail) else mret tt.

(** The matching loop of [OP_CHECKMULTISIG]: [ikey] and [isig] are positions from the top. *)
Fixpoint multisig_loop (fuel : nat) (scriptCode : bytes) (isig ikey nSigsCount nKeysCount : Z) : M C bool :=
  if nSigsCount >? 0 then
    match fuel with
    | O => mstuck
    | S fuel =>
        do vchSig <- stacktop (Z.to_nat isig); do vchPubKey <- stacktop (Z.to_nat ikey);
        do fOk <- check_one vchSig vchPubKey scriptCode;
        let isig := if fOk then isig + 1 else isig in
        let nSigsCount := if fOk then nSigsCount - 1 else nSigsCount in
        let ikey := ikey + 1 in
        let nKeysCount := nKeysCount - 1 in
        if nSigsCount >? nKeysCount then mret false
        else multisig_loop fuel scriptCode isig ikey nSigsCount nKeysCount
    end
  else mret true.

(** Dropping the [n] signatures from position [isig] on. *)
Fixpoint drop_signatures (n : nat) (isig : Z) (scriptCode : bytes) : M C bytes :=
  match n with
  | O => mret scriptCode
  | S n => do vchSig <- stacktop (Z.to_nat isig);
           drop_signatures n (isig + 1) (drop_signature scriptCode vchSig)
  end.

Fixpoint pop_n (n : nat) : M C unit := match n with O => mret tt | S n => popstack;; pop_n n end.

Definition eval_checkmultisig (verify : bool) : M C unit :=
  require 1;;
  do v <- stacktop 1; do bn <- num v;
  let nKeysCount := CScriptNum.getint bn in
  fail_if ((nKeysCount <? 0) || (nKeysCount >? 20));;
  do n <- mget nOpCount; set_nOpCount (n + nKeysCount);;
  do n <- mget nOpCount; fail_if (n >? MAX_OPS_PER_SCRIPT);;
  let ikey := 2 in
  let i := 2 + nKeysCount in
  require i;;
  do v <- stacktop (Z.to_nat i); do bn <- num v;
  let nSigsCount := CScriptNum.getint bn in
  fail_if ((nSigsCount <? 0) || (nSigsCount >? nKeysCount));;
  let isig := i + 1 in
  let i := i + 1 + nSigsCount in
  require i;;
  do scriptCode <- mget pbegincodehash;
  do scriptCode <- drop_signatures (Z.to_nat nSigsCount) isig scriptCode;
  do fSuccess <- multisig_loop (Z.to_nat nKeysCount) scriptCode isig ikey nSigsCount nKeysCount;
  pop_n (Z.to_nat (i - 1));;
  require 1;;
  do dummy <- stacktop 1;
  fail_if (flag flags SCRIPT_VERIFY_NULLDUMMY && negb (zlen dummy =? 0));;
  popstack;;
  push (vchBool fSuccess);;
  if verify then (if fSuccess then popstack else mfail) else mret tt.

(** ** One instruction *)

Definition disabled (opcode : Z) : bool :=
  existsb (fun o => opcode =? code o)
    [OP_CAT; OP_SUBSTR; OP_LEFT; OP_RIGHT; OP_INVERT; OP_AND; OP_OR; OP_XOR; OP_2MUL; OP_2DIV;
     OP_MUL; OP_DIV; OP_MOD; OP_LSHIFT; OP_RSHIFT].

(** The [switch] on the opcode; [pc] is the iterator after the instruction. *)
Definition eval_op (pc : bytes) (fExec : bool) (op : opcodetype) : M C unit :=
  match op with
  | OP_1NEGATE | OP_1 | OP_2 | OP_3 | OP_4 | OP_5 | OP_6 | OP_7 | OP_8 | OP_9 | OP_10 | OP_11
  | OP_12 | OP_13 | OP_14 | OP_15 | OP_16 => push (CScriptNum.getvch (code op - (code OP_1 - 1)))
  | OP_NOP => mret tt
  | OP_CHECKLOCKTIMEVERIFY => eval_locktime
  | OP_CHECKSEQUENCEVERIFY => eval_sequence
  | OP_NOP1 | OP_NOP4 | OP_NOP5 | OP_NOP6 | OP_NOP7 | OP_NOP8 | OP_NOP9 | OP_NOP10 => eval_upgradable_nop
  | OP_IF => eval_if fExec false
  | OP_NOTIF => eval_if fExec true
  | OP_ELSE => eval_else
  | OP_ENDIF => eval_endif
  | OP_VERIFY => eval_verify
  | OP_RETURN => mfail
  | OP_TOALTSTACK => eval_toaltstack
  | OP_FROMALTSTACK => eval_fromaltstack
  | OP_2DROP => eval_2drop
  | OP_2DUP => eval_2dup
  | OP_3DUP => eval_3dup
  | OP_2OVER => eval_2over
  | OP_2ROT => eval_2rot
  | OP_2SWAP => eval_2swap
  | OP_IFDUP => eval_ifdup
  | OP_DEPTH => eval_depth
  | OP_DROP => eval_drop
  | OP_DUP => eval_dup
  | OP_NIP => eval_nip
  | OP_OVER => eval_over
  | OP_PICK => eval_pick false
  | OP_ROLL => eval_pick true
  | OP_ROT => eval_rot
  | OP_SWAP => eval_swap
  | OP_TUCK => eval_tuck
  | OP_SIZE => eval_size
  | OP_EQUAL => eval_equal false
  | OP_EQUALVERIFY => eval_equal true
  | OP_1ADD | OP_1SUB | OP_NEGATE | OP_ABS | OP_NOT | OP_0NOTEQUAL => eval_unary op
  | OP_ADD | OP_SUB | OP_BOOLAND | OP_BOOLOR | OP_NUMEQUAL | OP_NUMEQUALVERIFY | OP_NUMNOTEQUAL
  | OP_LESSTHAN | OP_GREATERTHAN | OP_LESSTHANOREQUAL | OP_GREATERTHANOREQUAL | OP_MIN | OP_MAX =>
      eval_binary op
  | OP_WITHIN => eval_within
  | OP_RIPEMD160 => eval_hash RIPEMD160
  | OP_SHA1 => eval_hash SHA1
  | OP_SHA256 => eval_hash SHA256
  | OP_HASH160 => eval_hash Crypto.Hash160
  | OP_HASH256 => eval_hash Crypto.Hash
  | OP_CODESEPARATOR => set_codehash pc
  | OP_CHECKSIG => eval_checksig false
  | OP_CHECKSIGVERIFY => eval_checksig true
  | OP_CHECKMULTISIG => eval_checkmultisig false
  | OP_CHECKMULTISIGVERIFY => eval_checkmultisig true
  | _ => mfail
  end.

(** [default: return false] for a byte that names no opcode of the switch *)
Definition eval_switch (pc : bytes) (fExec : bool) (opcode : Z) : M C unit :=
  match find_opcode opcode with Some op => eval_op pc fExec op | None => mfail end.

(** The body of the main loop, after the instruction has been read. *)
Definition eval_instruction (pc : bytes) (opcode : Z) (vchPushValue : bytes) : M C unit :=
  do v <- mget vfExec;
  let fExec := forallb (fun b => b) v in
  fail_if (zlen vchPushValue >? MAX_SCRIPT_ELEMENT_SIZE);;
  (if opcode >? OP_16 then
     do n <- mget nOpCount; set_nOpCount (n + 1);; fail_if (n + 1 >? MAX_OPS_PER_SCRIPT)
   else mret tt);;
  fail_if (disabled opcode);;
  (if fExec && ((0 <=? opcode) && (opcode <=? OP_PUSHDATA4)) then
     fail_if (fRequireMinimal && negb (CheckMinimalPush vchPushValue opcode));; push vchPushValue
   else if fExec || ((code OP_IF <=? opcode) && (opcode <=? code OP_ENDIF)) then
     eval_switch pc fExec opcode
   else mret tt);;
  do st <- mget stack; do alt <- mget altstack;
  fail_if (zlen st + zlen alt >? MAX_STACK_SIZE).

(** [while (pc < pend)] *)
Fixpoint eval_loop (fuel : nat) (pc : bytes) : M C unit :=
  match pc with
  | [] => mret tt
  | _ :: _ =>
      match fuel with
      | O => mstuck
      | S fuel =>
          let r := GetScriptOp pc in
          if op_ok r
          then eval_instruction (op_pc r) (op_code r) (op_data r);; eval_loop fuel (op_pc r)
          else mfail
      end
  end.

(** [EvalScript]: the result, the stack as it is left and the checker's state; [None] is [Stuck]. *)
Definition EvalScript (st : list bytes) (script : bytes) (c : C) : option (bool * list bytes * C) :=
  if zlen script >? MAX_SCRIPT_SIZE then Some (false, st, c)
  else
    match eval_loop (length script) script (EState st [] [] script 0 c) with
    | (Ret _, s) => Some (bool_decide (vfExec s = []), stack s, checker s)
    | (Fail, s) => Some (false, stack s, checker s)
    | (Stuck, _) => None
    end.

(** [VerifyScript] *)
Definition VerifyScript (scriptSig scriptPubKey : bytes) (c : C) : option (bool * C) :=
  '(ok, st, c) ← EvalScript [] scriptSig c;
  if negb ok then Some (false, c)
  else
    let stackCopy := if flag flags SCRIPT_VERIFY_P2SH then st else [] in
    '(ok, st, c) ← EvalScript st scriptPubKey c;
    if negb ok then Some (false, c)
    else match st with
    | [] => Some (false, c)
    | top :: _ =>
        if negb (CastToBool top) then Some (false, c)
        else if flag flags SCRIPT_VERIFY_P2SH && IsPayToScriptHash scriptPubKey then
          if negb (IsPushOnly scriptSig) then Some (false, c)
          else match stackCopy with
          | [] => None
          | pubKey2 :: stackCopy =>
              '(ok, st2, c) ← EvalScript stackCopy pubKey2 c;
              if negb ok then Some (false, c)
              else match st2 with
              | [] => Some (false, c)
              | top2 :: _ => Some (CastToBool top2, c)
              end
          end
        else Some (true, c)
    end.
End eval.

End Interpreter.
