(* ===== verification/EvalSafety.v ===== *)
(** * EvalSafety: the evaluator neither gets stuck nor outgrows its limits

    A program logic for the evaluator's monad: [safe m Q] says that from a state whose stack elements
    are byte vectors of at most 520 bytes, [m] does not get stuck, keeps that invariant whether it
    succeeds or fails, and returns a value satisfying [Q]. Every opcode is safe, hence [EvalScript]
    and [VerifyScript] are. *)
From S2P Require Import Prelude ScriptNum Script Serialize Crypto Transaction Keys SigCheck Interpreter.
Import ScriptOpcodes Script_param Script_const CScript SigEncoding Tx Interpreter.

Module EvalSafety.

Definition elem_ok (v : bytes) : Prop := bytes_ok v /\ zlen v <= MAX_SCRIPT_ELEMENT_SIZE.

Definition inv {C} (s : estate C) : Prop := Forall elem_ok (stack s) /\ Forall elem_ok (altstack s).

Definition safe {C A} (m : M C A) (Q : A -> Prop) : Prop :=
  forall s, inv s ->
  match m s with
  | (Ret a, s') => inv s' /\ Q a
  | (Fail, s') => inv s'
  | (Stuck, _) => False
  end.

Create HintDb safe.

Section logic.
Context {C : Type}.

Lemma safe_mret {A} (a : A) (Q : A -> Prop) : Q a -> safe (C := C) (mret a) Q.
Proof. intros HQ s Hs. done. Qed.
Lemma safe_mfail {A} (Q : A -> Prop) : safe (C := C) mfail Q.
Proof. intros s Hs. done. Qed.
Lemma safe_bind {A B} (m : M C A) (k : A -> M C B) P Q :
  safe m P -> (forall a, P a -> safe (k a) Q) -> safe (mbind m k) Q.
Proof.
  intros Hm Hk s Hs. unfold mbind. specialize (Hm s Hs).
  destruct (m s) as [[a| |] s']; [|done|done]. destruct Hm as [Hs' Ha]. by apply Hk.
Qed.
Lemma safe_mono {A} (m : M C A) (P Q : A -> Prop) :
  safe m P -> (forall a, P a -> Q a) -> safe m Q.
Proof.
  intros Hm HPQ s Hs. specialize (Hm s Hs). destruct (m s) as [[a| |] s']; [|done|done].
  destruct Hm. split; [done|by apply HPQ].
Qed.
Lemma safe_true {A} (m : M C A) P : safe m P -> safe m (fun _ => True).
Proof. intros H. by eapply safe_mono. Qed.
Lemma safe_fail_if b : safe (C := C) (fail_if b) (fun _ => b = false).
Proof. intros s Hs. by destruct b. Qed.
Lemma safe_of_option {A} (o : option A) : safe (C := C) (of_option o) (fun a => o = Some a).
Proof. intros s Hs. by destruct o. Qed.
Lemma safe_of_assert {A} (o : option A) : is_Some o -> safe (C := C) (of_assert o) (fun a => o = Some a).
Proof. intros [a ->] s Hs. done. Qed.

Lemma safe_mget_stack : safe (C := C) (mget stack) (Forall elem_ok).
Proof. intros s Hs. split; [done|apply Hs]. Qed.
Lemma safe_mget_altstack : safe (C := C) (mget altstack) (Forall elem_ok).
Proof. intros s Hs. split; [done|apply Hs]. Qed.
Lemma safe_mget {A} (f : estate C -> A) : safe (mget f) (fun _ => True).
Proof. intros s Hs. done. Qed.
Lemma safe_set_stack st : Forall elem_ok st -> safe (C := C) (set_stack st) (fun _ => True).
Proof. intros H s [_ Ha]. done. Qed.
Lemma safe_set_altstack st : Forall elem_ok st -> safe (C := C) (set_altstack st) (fun _ => True).
Proof. intros H s [Hs _]. done. Qed.
Lemma safe_set_vfExec v : safe (C := C) (set_vfExec v) (fun _ => True).
Proof. intros s Hs. done. Qed.
Lemma safe_set_codehash pc : safe (C := C) (set_codehash pc) (fun _ => True).
Proof. intros s Hs. done. Qed.
Lemma safe_set_nOpCount n : safe (C := C) (set_nOpCount n) (fun _ => True).
Proof. intros s Hs. done. Qed.
Lemma safe_set_checker c : safe (C := C) (set_checker c) (fun _ => True).
Proof. intros s Hs. done. Qed.

Lemma safe_require n : safe (C := C) (require n) (fun _ => True).
Proof.
  eapply safe_bind; [apply safe_mget|]. intros st _. by eapply safe_true, safe_fail_if.
Qed.
Lemma safe_stacktop i : safe (C := C) (stacktop i) elem_ok.
Proof.
  eapply safe_bind; [apply safe_mget_stack|]. intros st Hst.
  eapply safe_mono; [apply safe_of_option|]. intros v Hv. exact (Forall_lookup_1 _ _ _ _ Hst Hv).
Qed.
Lemma safe_push v : elem_ok v -> safe (C := C) (push v) (fun _ => True).
Proof.
  intros Hv. eapply safe_bind; [apply safe_mget_stack|]. intros st Hst.
  apply safe_set_stack. by constructor.
Qed.
Lemma safe_popstack : safe (C := C) popstack (fun _ => True).
Proof.
  eapply safe_bind; [apply safe_mget_stack|]. intros st Hst. destruct st as [|v st]; [apply safe_mfail|].
  apply safe_set_stack. by inversion Hst.
Qed.
Lemma safe_erase i : safe (C := C) (erase i) (fun _ => True).
Proof.
  eapply safe_bind; [apply safe_mget_stack|]. intros st Hst. apply safe_set_stack.
  apply Forall_app. split; [by apply Forall_take|by apply Forall_drop].
Qed.
Lemma safe_swap i j : safe (C := C) (swap i j) (fun _ => True).
Proof.
  eapply safe_bind; [apply safe_stacktop|]. intros vi Hi.
  eapply safe_bind; [apply safe_stacktop|]. intros vj Hj.
  eapply safe_bind; [apply safe_mget_stack|]. intros st Hst. apply safe_set_stack.
  by repeat apply Forall_insert.
Qed.
Lemma safe_pop_n n : safe (C := C) (pop_n n) (fun _ => True).
Proof.
  induction n as [|n IH]; [by apply safe_mret|]. eapply safe_bind; [apply safe_popstack|]. done.
Qed.

(** A decoded operand. *)
Definition operand (n : Z) : Prop := - 2 ^ 31 < n < 2 ^ 31.

Lemma safe_num flags v : elem_ok v -> safe (C := C) (num flags v) operand.
Proof.
  intros [Hv _]. eapply safe_mono; [apply safe_of_option|]. intros n Hn.
  by apply CScriptNum.operand_range in Hn.
Qed.
Lemma safe_script_num m size v : safe (C := C) (script_num m size v) (fun _ => True).
Proof. by eapply safe_true, safe_of_option. Qed.

Lemma getvch_ok n : elem_ok (CScriptNum.getvch n).
Proof.
  destruct (CScriptNum.serialize_ok n) as [H1 H2]. split; [done|].
  unfold CScriptNum.getvch, MAX_SCRIPT_ELEMENT_SIZE. lia.
Qed.
Lemma vchBool_ok b : elem_ok (vchBool b).
Proof. destruct b; split; [by repeat constructor|done|constructor|done]. Qed.
End logic.

#[export] Hint Resolve safe_mfail safe_fail_if safe_of_option safe_mget_stack safe_mget_altstack
  safe_set_vfExec safe_set_codehash safe_set_nOpCount safe_set_checker safe_require safe_stacktop
  safe_push safe_popstack safe_erase safe_swap safe_pop_n safe_num safe_script_num safe_mget
  getvch_ok vchBool_ok : safe.

(** Run the logic through a computation. *)
Ltac safe_step :=
  match goal with
  | |- safe (mbind _ _) _ => eapply safe_bind; [|intros ? ?]
  | |- safe (if ?b then _ else _) _ => destruct b eqn:?
  | |- safe (match ?x with _ => _ end) _ => destruct x eqn:?
  | |- safe (mret _) _ => apply safe_mret
  | |- safe (let _ := _ in _) _ => cbv zeta
  | |- safe (num _ _) _ => apply safe_num; assumption
  | |- safe (mget stack) _ => apply safe_mget_stack
  | |- safe (mget altstack) _ => apply safe_mget_altstack
  | |- safe (set_stack _) _ => apply safe_set_stack
  | |- safe (set_altstack _) _ => apply safe_set_altstack
  | |- safe _ _ => solve [eauto 2 with safe nocore]
  | |- safe _ (fun _ => True) => eapply safe_true; solve [eauto 2 with safe nocore]
  end.
Ltac safe_run := repeat safe_step; try done; auto 3 with safe.

Section opcodes.
Context {C : Type} `{!SigChecker C}.
Variables RIPEMD160 SHA1 SHA256 : bytes -> bytes.
Variables (txTo : CTransaction) (nIn flags nHashType : Z).

(** What the evaluator relies on. *)
Hypothesis checker_total : forall sig key code c,
  is_Some (CheckSig sig key code txTo nIn nHashType flags c).
Hypothesis nIn_in_range : is_Some (vin txTo !! Z.to_nat nIn).
Hypothesis hashes_ok : forall v, elem_ok (RIPEMD160 v) /\ elem_ok (SHA1 v) /\ elem_ok (SHA256 v).

Lemma unary_total op n : operand n ->
  match op with OP_1ADD | OP_1SUB | OP_NEGATE | OP_ABS | OP_NOT | OP_0NOTEQUAL => is_Some (unary op n)
  | _ => True end.
Proof.
  intros Hn. unfold operand in Hn. unfold unary, CScriptNum.op_add_assign, CScriptNum.op_sub_assign,
    CScriptNum.op_neg, INT64_MAX, INT64_MIN.
  destruct op; try done; repeat case_match; first [by eexists|lia].
Qed.

Lemma safe_locktime n : safe (C := C) (CheckLockTime n txTo nIn) (fun _ => True).
Proof. unfold CheckLockTime. destruct nIn_in_range as [i ->]. safe_run. Qed.
Lemma safe_sequence n : safe (C := C) (CheckSequence n txTo nIn) (fun _ => True).
Proof. unfold CheckSequence. destruct nIn_in_range as [i ->]. safe_run. Qed.
Hint Resolve safe_locktime safe_sequence : safe.

Lemma safe_check_one sig key code :
  safe (check_one txTo nIn flags nHashType sig key code) (fun _ => True).
Proof.
  unfold check_one. safe_run. apply safe_of_assert, checker_total.
Qed.
Hint Resolve safe_check_one : safe.

Lemma safe_drop_signatures n isig code : safe (C := C) (drop_signatures n isig code) (fun _ => True).
Proof.
  revert isig code. induction n as [|n IH]; intros isig code; cbn [drop_signatures]; safe_run.
Qed.
Hint Resolve safe_drop_signatures : safe.

(** With no more signatures than keys, the loop has a turn for each key. *)
Lemma safe_multisig_loop fuel code isig ikey nsigs nkeys :
  nsigs <= nkeys -> nkeys <= Z.of_nat fuel ->
  safe (multisig_loop txTo nIn flags nHashType fuel code isig ikey nsigs nkeys) (fun _ => True).
Proof.
  revert isig ikey nsigs nkeys. induction fuel as [|fuel IH]; intros isig ikey nsigs nkeys Hle Hf;
    cbn [multisig_loop]; destruct (nsigs >? 0) eqn:E; try (by apply safe_mret); [lia|].
  do 3 safe_step; [safe_step..|]. cbv zeta. destruct (_ >? nkeys - 1) eqn:E2; [by apply safe_mret|].
  apply IH; [|lia]. case_match; lia.
Qed.

Lemma safe_checkmultisig verify : safe (eval_checkmultisig txTo nIn flags nHashType verify) (fun _ => True).
Proof.
  unfold eval_checkmultisig. safe_run. apply safe_multisig_loop; [cbv beta in *; lia|lia].
Qed.
Hint Resolve safe_checkmultisig : safe.

Lemma Hash_ok v : elem_ok (Crypto.Hash v).
Proof.
  split; [apply Crypto.Hash_bytes_ok|]. unfold zlen. by rewrite Crypto.length_Hash.
Qed.
Lemma Hash160_ok v : elem_ok (Crypto.Hash160 v).
Proof.
  split; [apply Crypto.Hash160_bytes_ok|]. unfold zlen. by rewrite Crypto.length_Hash160.
Qed.

Lemma safe_eval_hash f : (forall v, elem_ok (f v)) -> safe (C := C) (eval_hash f) (fun _ => True).
Proof. intros Hf. unfold eval_hash. safe_run. Qed.

Lemma safe_eval_unary op :
  (forall n, operand n -> is_Some (unary op n)) -> safe (C := C) (eval_unary flags op) (fun _ => True).
Proof. intros Ht. unfold eval_unary. safe_run. by apply safe_of_assert, Ht. Qed.

Lemma safe_eval_binary op :
  (forall n m, is_Some (binary op n m)) -> safe (C := C) (eval_binary flags op) (fun _ => True).
Proof.
  intros Ht. unfold eval_binary. eapply safe_bind; [by apply safe_require|]. intros _ _.
  do 5 (eapply safe_bind; [first [by eauto 2 with safe nocore|apply safe_of_assert, Ht]|intros ? ?]).
  destruct op; safe_run.
Qed.

Lemma safe_eval_if fExec notif : safe (C := C) (eval_if fExec notif) (fun _ => True).
Proof.
  unfold eval_if. eapply (safe_bind _ _ (fun _ => True)); [|intros ? ?; safe_run]. safe_run.
Qed.
Lemma safe_eval_fromaltstack : safe (C := C) eval_fromaltstack (fun _ => True).
Proof.
  unfold eval_fromaltstack. eapply safe_bind; [apply safe_mget_altstack|]. intros [|v a] Ha; [safe_run|].
  apply Forall_cons_1 in Ha as [Hv Ha]. safe_run.
Qed.
Lemma safe_eval_tuck : safe (C := C) eval_tuck (fun _ => True).
Proof.
  unfold eval_tuck. safe_run.
  apply Forall_app. split; [by apply Forall_take|]. constructor; [done|by apply Forall_drop].
Qed.
Lemma safe_eval_pick roll : safe (C := C) (eval_pick flags roll) (fun _ => True).
Proof.
  unfold eval_pick. do 7 (eapply safe_bind; [safe_step|intros ? ?]; cbv zeta).
  eapply (safe_bind _ _ (fun _ => True)); [destruct roll; safe_run|]. intros _ _. safe_run.
Qed.
Hint Resolve safe_eval_if safe_eval_fromaltstack safe_eval_tuck safe_eval_pick : safe.

Lemma safe_eval_op pc fExec op :
  safe (eval_op RIPEMD160 SHA1 SHA256 txTo nIn flags nHashType pc fExec op) (fun _ => True).
Proof.
  destruct op; cbn [eval_op];
    try solve [auto 2 with safe nocore];
    try match goal with |- safe (eval_unary _ ?o) _ =>
          apply safe_eval_unary; intros n Hn; exact (unary_total o n Hn) end;
    try solve [apply safe_eval_binary; intros n m; by eexists];
    try solve [apply safe_eval_hash; first [apply hashes_ok|apply Hash_ok|apply Hash160_ok]];
    unfold eval_upgradable_nop, eval_locktime, eval_sequence, eval_else, eval_endif,
      eval_verify, eval_toaltstack, eval_2drop, eval_2dup, eval_3dup,
      eval_2over, eval_2rot, eval_2swap, eval_ifdup, eval_depth, eval_drop, eval_dup, eval_nip,
      eval_over, eval_rot, eval_swap, eval_size, eval_equal, eval_within,
      eval_checksig; safe_run.
Qed.

Let eval_instruction' := eval_instruction RIPEMD160 SHA1 SHA256 txTo nIn flags nHashType.
Let eval_loop' := eval_loop RIPEMD160 SHA1 SHA256 txTo nIn flags nHashType.
Let EvalScript' := EvalScript RIPEMD160 SHA1 SHA256 txTo nIn flags nHashType.

Lemma safe_eval_instruction pc opcode v :
  bytes_ok v -> safe (eval_instruction' pc opcode v) (fun _ => True).
Proof.
  intros Hv. unfold eval_instruction', eval_instruction.
  eapply safe_bind; [apply safe_mget|intros ex _]. cbv zeta.
  eapply safe_bind; [apply safe_fail_if|intros [] Hsz]. cbv beta in Hsz.
  assert (elem_ok v) as Hok by (split; [done|lia]).
  eapply (safe_bind _ _ (fun _ => True)); [safe_run|intros _ _].
  eapply safe_bind; [apply safe_fail_if|intros _ _].
  eapply (safe_bind _ _ (fun _ => True)); [|intros _ _; safe_run].
  unfold eval_switch. safe_run. apply safe_eval_op.
Qed.

(** An instruction that succeeds leaves the stacks within their joint limit. *)
Lemma eval_instruction_limit pc opcode v s u s' :
  eval_instruction' pc opcode v s = (Ret u, s') -> zlen (stack s') + zlen (altstack s') <= MAX_STACK_SIZE.
Proof.
  unfold eval_instruction', eval_instruction.
  assert (forall {A} (m : M C A) (k : A -> M C unit),
    (forall a s u s', k a s = (Ret u, s') -> zlen (stack s') + zlen (altstack s') <= MAX_STACK_SIZE) ->
    forall s u s', mbind m k s = (Ret u, s') -> zlen (stack s') + zlen (altstack s') <= MAX_STACK_SIZE) as Hb.
  { intros A m k Hk s1 u1 s1'. unfold mbind. destruct (m s1) as [[a| |] s2]; [apply Hk|done|done]. }
  revert s u s'. apply Hb. intros ex. cbv zeta. do 4 (apply Hb; intros _).
  intros s u s'. unfold mbind, mget, fail_if, mret, mfail.
  destruct (_ >? MAX_STACK_SIZE) eqn:E; [done|]. intros [= _ <-]. lia.
Qed.

Lemma GetScriptOp_ok pc : bytes_ok pc -> bytes_ok (op_data (GetScriptOp pc)) /\ bytes_ok (op_pc (GetScriptOp pc)).
Proof.
  intros Hpc. unfold GetScriptOp. destruct pc as [|b pc]; [done|]. apply Forall_cons_1 in Hpc as [_ Hpc].
  destruct (b <=? OP_PUSHDATA4); [|split; [constructor|done]].
  destruct (GetScriptOp_size b pc) as [[n pc']|] eqn:E; [|split; [constructor|done]].
  destruct (GetScriptOp_size_suffix _ _ _ _ E) as [used ->]. apply bytes_ok_app in Hpc as [_ Hpc].
  destruct (_ <? n); (split; [first [constructor|by apply Forall_take]|first [done|by apply Forall_drop]]).
Qed.

Lemma safe_eval_loop fuel pc :
  (length pc <= fuel)%nat -> bytes_ok pc -> safe (eval_loop' fuel pc) (fun _ => True).
Proof.
  revert pc. induction fuel as [|fuel IH]; intros pc Hf Hpc.
  { destruct pc; [by apply safe_mret|simpl in Hf; lia]. }
  destruct pc as [|b pc]; [by apply safe_mret|]. unfold eval_loop'. cbn [eval_loop].
  destruct (GetScriptOp_ok (b :: pc) Hpc) as [Hd Hr].
  destruct (op_ok _) eqn:E; [|apply safe_mfail]. pose proof (GetScriptOp_progress _ E).
  eapply safe_bind; [by apply safe_eval_instruction|]. intros _ _. apply IH; [simpl in *; lia|done].
Qed.

Lemma eval_loop_limit fuel pc s u s' :
  eval_loop' fuel pc s = (Ret u, s') ->
  zlen (stack s) + zlen (altstack s) <= MAX_STACK_SIZE ->
  zlen (stack s') + zlen (altstack s') <= MAX_STACK_SIZE.
Proof.
  revert pc s. induction fuel as [|fuel IH]; intros pc s; unfold eval_loop'; destruct pc as [|b pc];
    cbn [eval_loop]; try (by intros [= _ <-]). intros H _. revert H. destruct (op_ok _); [|done].
  unfold mbind. destruct (eval_instruction _ _ _ _ _ _ _ _ _ _ s) as [[a| |] s1] eqn:E; [|done|done].
  intros H. eapply IH; [exact H|]. by apply eval_instruction_limit in E.
Qed.

Lemma EvalScript_safe st script c :
  bytes_ok script -> Forall elem_ok st ->
  exists ok st' c', EvalScript' st script c = Some (ok, st', c') /\ Forall elem_ok st'
    /\ (ok = true -> zlen st <= MAX_STACK_SIZE -> zlen st' <= MAX_STACK_SIZE).
Proof.
  intros Hs Hst. unfold EvalScript', EvalScript. destruct (_ >? _); [by eexists _, _, _|].
  pose proof (safe_eval_loop (length script) script (le_n _) Hs (EState st [] [] script 0 c)) as H.
  pose proof (eval_loop_limit (length script) script (EState st [] [] script 0 c)) as Hl.
  unfold eval_loop' in H, Hl. destruct (eval_loop _ _ _ _ _ _ _ _ _ _) as [[u| |] s'].
  - destruct H as [[H _] _]; [by split; [|constructor]|]. eexists _, _, _. split_and!; [done|done|].
    intros _ Hz. specialize (Hl u s' eq_refl). cbn [stack altstack] in Hl. rewrite zlen_nil in Hl.
    pose proof (zlen_nonneg (altstack s')). lia.
  - destruct H as [H _]; [by split; [|constructor]|]. eexists _, _, _. by split_and!.
  - destruct H. by split; [|constructor].
Qed.
End opcodes.

(** The interpreter's environment: total signature checks, an existing input, hash functions with
    outputs of at most 520 bytes. *)
Definition env_ok {C} `{!SigChecker C} (RIPEMD160 SHA1 SHA256 : bytes -> bytes) (txTo : CTransaction)
    (nIn flags nHashType : Z) : Prop :=
  (forall sig key code c, is_Some (CheckSig sig key code txTo nIn nHashType flags c))
  /\ is_Some (vin txTo !! Z.to_nat nIn)
  /\ (forall v, elem_ok (RIPEMD160 v) /\ elem_ok (SHA1 v) /\ elem_ok (SHA256 v)).

(** On any script and any stack of byte vectors of at most 520 bytes, [EvalScript]
    terminates with a result and trips no assertion; the stack it leaves holds vectors of at most
    520 bytes, and at most 1000 of them when it succeeds on a stack within that limit. *)
Lemma EvalScript_total {C} `{!SigChecker C} RIPEMD160 SHA1 SHA256 txTo nIn flags nHashType st script c :
  env_ok (C := C) RIPEMD160 SHA1 SHA256 txTo nIn flags nHashType ->
  bytes_ok script -> Forall elem_ok st ->
  exists ok st' c',
    EvalScript RIPEMD160 SHA1 SHA256 txTo nIn flags nHashType st script c = Some (ok, st', c')
    /\ Forall elem_ok st' /\ (ok = true -> zlen st <= MAX_STACK_SIZE -> zlen st' <= MAX_STACK_SIZE).
Proof. intros (Hc & Hn & Hh) Hs Hst. by apply EvalScript_safe. Qed.

(** A concrete environment, with the in-tree hash functions and a checker without cache. *)
Lemma sample_env_ok flags nHashType :
  @env_ok unit (SigCheck.pure_checker SigCheck.toy_verify) Crypto.Hash160 Crypto.Hash160 Crypto.Hash
    (sample_tx 1) 0 flags nHashType.
Proof.
  split_and!.
  - intros sig key code c. apply SigCheck.pure_checker_total. by left.
  - by eexists.
  - intros v. split_and!; first [apply Hash160_ok|apply Hash_ok].
Qed.

Lemma EvalScript_total_witness :
  exists ok st' c',
    @EvalScript unit (SigCheck.pure_checker SigCheck.toy_verify) Crypto.Hash160 Crypto.Hash160 Crypto.Hash
      (sample_tx 1) 0 0 0 [[5]] [118; 147] tt = Some (ok, st', c')
    /\ Forall elem_ok st' /\ (ok = true -> zlen [[5]] <= MAX_STACK_SIZE -> zlen st' <= MAX_STACK_SIZE).
Proof.
  apply (@EvalScript_total unit (SigCheck.pure_checker SigCheck.toy_verify) Crypto.Hash160 Crypto.Hash160
    Crypto.Hash (sample_tx 1) 0 0 0 [[5]] [118; 147] tt).
  - apply sample_env_ok.
  - repeat (apply Forall_cons_2; [unfold is_byte; lia|]). apply Forall_nil_2.
  - apply Forall_cons_2; [|apply Forall_nil_2]. split; [|unfold MAX_SCRIPT_ELEMENT_SIZE, zlen; simpl; lia].
    apply Forall_cons_2; [unfold is_byte; lia|apply Forall_nil_2].
Defined.

(** The pattern HASH160 <20 bytes> EQUAL fails on an empty stack. *)
Lemma P2SH_empty_stack {C} `{!SigChecker C} RIPEMD160 SHA1 SHA256 txTo nIn flags nHashType script c :
  IsPayToScriptHash script = true ->
  exists st c', EvalScript RIPEMD160 SHA1 SHA256 txTo nIn flags nHashType [] script c = Some (false, st, c').
Proof.
  unfold IsPayToScriptHash, EvalScript. intros H.
  destruct script as [|b script]; [done|]. unfold at_ in H at 1. simpl (default _ (_ !! 0%nat)) in H.
  assert (b = 169 /\ zlen (b :: script) = 23) as [-> Hl] by (change (code OP_HASH160) with 169 in H; lia).
  rewrite Hl. change (23 >? MAX_SCRIPT_SIZE) with false. cbv iota. cbn [length eval_loop].
  rewrite GetScriptOp_nonpush by done. cbn [op_ok op_pc op_code op_data]. by eexists _, _.
Qed.

(** C20 (safety): [VerifyScript] always returns; in particular the assertion that the copy of the
    stack is not empty when the redeem script of a pay-to-script-hash output is taken from it holds
    for every pair of scripts. *)
Theorem VerifyScript_total {C} `{!SigChecker C} RIPEMD160 SHA1 SHA256 txTo nIn flags nHashType scriptSig scriptPubKey c :
  env_ok (C := C) RIPEMD160 SHA1 SHA256 txTo nIn flags nHashType ->
  bytes_ok scriptSig -> bytes_ok scriptPubKey ->
  is_Some (VerifyScript RIPEMD160 SHA1 SHA256 txTo nIn flags nHashType scriptSig scriptPubKey c).
Proof.
  intros (Hc & Hn & Hh) Hs Hp. unfold VerifyScript.
  assert (forall st sc c, bytes_ok sc -> Forall elem_ok st -> exists ok st' c',
    EvalScript RIPEMD160 SHA1 SHA256 txTo nIn flags nHashType st sc c = Some (ok, st', c')
    /\ Forall elem_ok st') as He.
  { intros st sc c0 Hsc Hst.
    destruct (EvalScript_safe RIPEMD160 SHA1 SHA256 txTo nIn flags nHashType Hc Hn Hh st sc c0 Hsc Hst)
      as (ok & st' & c' & H1 & H2 & _). by exists ok, st', c'. }
  destruct (He [] scriptSig c Hs) as (ok1 & st1 & c1 & -> & Hst1); [constructor|]. simpl.
  destruct ok1; simpl; [|by eexists].
  destruct (He st1 scriptPubKey c1 Hp Hst1) as (ok2 & st2 & c2 & E2 & Hst2). rewrite E2. simpl.
  destruct ok2; simpl; [|by eexists]. destruct st2 as [|top st2]; [by eexists|].
  destruct (negb (CastToBool top)); [by eexists|].
  destruct (flag flags SCRIPT_VERIFY_P2SH) eqn:Ef; simpl; [|by eexists].
  destruct (IsPayToScriptHash scriptPubKey) eqn:Ep; [|by eexists].
  destruct (negb (IsPushOnly scriptSig)); [by eexists|].
  destruct st1 as [|redeem st1].
  { destruct (P2SH_empty_stack RIPEMD160 SHA1 SHA256 txTo nIn flags nHashType scriptPubKey c1 Ep)
      as (st' & c' & E). congruence. }
  apply Forall_cons_1 in Hst1 as [[Hr _] Hst1].
  destruct (He st1 redeem c2 Hr Hst1) as (ok3 & st3 & c3 & -> & _). simpl.
  destruct ok3; simpl; [|by eexists]. destruct st3; by eexists.
Qed.
Lemma VerifyScript_total_witness :
  is_Some (@VerifyScript unit (SigCheck.pure_checker SigCheck.toy_verify) Crypto.Hash160 Crypto.Hash160
    Crypto.Hash (sample_tx 1) 0 STRICT_FLAGS 0 [1; 81] (169 :: 20 :: replicate 20 7 ++ [135]) tt).
Proof.
  apply (@VerifyScript_total unit (SigCheck.pure_checker SigCheck.toy_verify) Crypto.Hash160 Crypto.Hash160
    Crypto.Hash (sample_tx 1) 0 STRICT_FLAGS 0).
  - apply sample_env_ok.
  - repeat (apply Forall_cons_2; [unfold is_byte; lia|]). apply Forall_nil_2.
  - simpl. repeat (apply Forall_cons_2; [unfold is_byte; lia|]). apply Forall_nil_2.
Defined.

End EvalSafety.
