(* ===== verification/EvalProps.v ===== *)
(** * EvalProps: what a successful evaluation shows

    The limits, the disabled opcodes and the balance of the conditionals hold of the whole text of an
    accepted script, executed or not. *)
From S2P Require Import Prelude ScriptNum Script Serialize Crypto Transaction Keys SigCheck Interpreter.
Import ScriptOpcodes Script_param Script_const CScript SigEncoding Tx Interpreter.

Module EvalProps.

(** ** Computations that leave the conditionals alone *)

(** When it succeeds, [m] keeps [vfExec] and does not lower [nOpCount]. *)
Definition keeps {C A} (m : M C A) : Prop :=
  forall s a s', m s = (Ret a, s') -> vfExec s' = vfExec s /\ nOpCount s <= nOpCount s'.

Create HintDb keeps.

Section keeps.
Context {C : Type}.
Lemma keeps_bind {A B} (m : M C A) (k : A -> M C B) :
  keeps m -> (forall a, keeps (k a)) -> keeps (mbind m k).
Proof.
  intros Hm Hk s b s'. unfold mbind. destruct (m s) as [[a| |] s1] eqn:E; [|done|done].
  intros H. apply Hm in E as [E1 E2]. apply Hk in H as [H1 H2]. split; [congruence|lia].
Qed.
Lemma keeps_mret {A} (a : A) : keeps (C := C) (mret a).
Proof. intros s x s' [= _ <-]. split; [done|lia]. Qed.
Lemma keeps_mfail {A} : keeps (C := C) (A := A) mfail.
Proof. by intros s x s'. Qed.
Lemma keeps_mstuck {A} : keeps (C := C) (A := A) mstuck.
Proof. by intros s x s'. Qed.
Lemma keeps_mget {A} (f : estate C -> A) : keeps (mget f).
Proof. intros s x s' [= _ <-]. split; [done|lia]. Qed.
Lemma keeps_fail_if b : keeps (C := C) (fail_if b).
Proof. destruct b; [apply keeps_mfail|apply keeps_mret]. Qed.
Lemma keeps_of_option {A} (o : option A) : keeps (C := C) (of_option o).
Proof. destruct o; [apply keeps_mret|apply keeps_mfail]. Qed.
Lemma keeps_of_assert {A} (o : option A) : keeps (C := C) (of_assert o).
Proof. destruct o; [apply keeps_mret|apply keeps_mstuck]. Qed.
Lemma keeps_set_stack st : keeps (C := C) (set_stack st).
Proof. intros s x s' [= _ <-]. cbn. split; [done|lia]. Qed.
Lemma keeps_set_altstack st : keeps (C := C) (set_altstack st).
Proof. intros s x s' [= _ <-]. cbn. split; [done|lia]. Qed.
Lemma keeps_set_codehash pc : keeps (C := C) (set_codehash pc).
Proof. intros s x s' [= _ <-]. cbn. split; [done|lia]. Qed.
Lemma keeps_set_checker c : keeps (C := C) (set_checker c).
Proof. intros s x s' [= _ <-]. cbn. split; [done|lia]. Qed.
(** [nOpCount += k] *)
Lemma keeps_add_nOpCount {B} k (m : M C B) :
  0 <= k -> keeps m -> keeps (do n <- mget nOpCount; set_nOpCount (n + k);; m).
Proof.
  intros Hk Hm s x s'. unfold mbind, mget, set_nOpCount, mput. intros H.
  apply Hm in H as [H1 H2]. cbn in *. split; [done|lia].
Qed.
(** A test that fails the script may be assumed to have passed. *)
Lemma keeps_assume {B} b (m : M C B) : (b = false -> keeps m) -> keeps (fail_if b;; m).
Proof.
  intros Hm. destruct b; [|apply keeps_bind; [apply keeps_fail_if|intros _; by apply Hm]].
  intros s x s'. done.
Qed.
End keeps.

#[export] Hint Resolve keeps_mret keeps_mfail keeps_mstuck keeps_mget keeps_fail_if keeps_of_option
  keeps_of_assert keeps_set_stack keeps_set_altstack keeps_set_codehash keeps_set_checker : keeps.

Ltac keeps_step :=
  match goal with
  | |- keeps (mbind _ _) => apply keeps_bind; [|intros ?]
  | |- keeps (if ?b then _ else _) => destruct b
  | |- keeps (match ?x with _ => _ end) => destruct x
  | |- keeps (let _ := _ in _) => cbv zeta
  | |- keeps _ => solve [eauto 2 with keeps nocore]
  end.
Ltac keeps_run := repeat keeps_step.

Section ops.
Context {C : Type} `{!SigChecker C}.
Lemma keeps_require n : keeps (C := C) (require n).
Proof. unfold require. keeps_run. Qed.
Lemma keeps_stacktop i : keeps (C := C) (stacktop i).
Proof. unfold stacktop. keeps_run. Qed.
Lemma keeps_push v : keeps (C := C) (push v).
Proof. unfold push. keeps_run. Qed.
Lemma keeps_popstack : keeps (C := C) popstack.
Proof. unfold popstack. keeps_run. Qed.
Lemma keeps_num flags v : keeps (C := C) (num flags v).
Proof. unfold num, script_num. keeps_run. Qed.
Lemma keeps_script_num m n v : keeps (C := C) (script_num m n v).
Proof. unfold script_num. keeps_run. Qed.
Hint Resolve keeps_require keeps_stacktop keeps_push keeps_popstack keeps_num keeps_script_num : keeps.
Lemma keeps_erase i : keeps (C := C) (erase i).
Proof. unfold erase. keeps_run. Qed.
Lemma keeps_swap i j : keeps (C := C) (swap i j).
Proof. unfold swap. keeps_run. Qed.
Lemma keeps_pop_n n : keeps (C := C) (pop_n n).
Proof. induction n; cbn [pop_n]; keeps_run. Qed.
Lemma keeps_CheckLockTime n tx i : keeps (C := C) (CheckLockTime n tx i).
Proof. unfold CheckLockTime. keeps_run. Qed.
Lemma keeps_CheckSequence n tx i : keeps (C := C) (CheckSequence n tx i).
Proof. unfold CheckSequence. keeps_run. Qed.
Lemma keeps_drop_signatures n i code : keeps (C := C) (drop_signatures n i code).
Proof. revert i code. induction n as [|n IH]; intros i code; cbn [drop_signatures]; keeps_run. Qed.

Variables RIPEMD160 SHA1 SHA256 : bytes -> bytes.
Variables (txTo : CTransaction) (nIn flags nHashType : Z).

Lemma keeps_check_one sig key code : keeps (check_one txTo nIn flags nHashType sig key code).
Proof. unfold check_one. keeps_run. Qed.
Hint Resolve keeps_erase keeps_swap keeps_pop_n keeps_CheckLockTime keeps_CheckSequence
  keeps_drop_signatures keeps_check_one : keeps.

Lemma keeps_multisig_loop fuel code isig ikey ns nk :
  keeps (multisig_loop txTo nIn flags nHashType fuel code isig ikey ns nk).
Proof.
  revert isig ikey ns nk. induction fuel as [|fuel IH]; intros isig ikey ns nk; cbn [multisig_loop]; keeps_run.
Qed.
Hint Resolve keeps_multisig_loop : keeps.

Lemma keeps_checkmultisig verify : keeps (eval_checkmultisig txTo nIn flags nHashType verify).
Proof.
  unfold eval_checkmultisig. apply keeps_bind; [apply keeps_require|intros _].
  do 2 (apply keeps_bind; [keeps_run|intros ?]). cbv zeta. apply keeps_assume. intros Hn.
  apply keeps_add_nOpCount; [lia|]. keeps_run.
Qed.

(** The opcodes that touch the conditionals. *)
Definition conditional (op : opcodetype) : bool :=
  match op with OP_IF | OP_NOTIF | OP_ELSE | OP_ENDIF => true | _ => false end.

Lemma keeps_eval_op pc fExec op :
  conditional op = false -> keeps (eval_op RIPEMD160 SHA1 SHA256 txTo nIn flags nHashType pc fExec op).
Proof.
  intros Hop. destruct op; try discriminate Hop; cbn [eval_op];
    try solve [apply keeps_checkmultisig];
    unfold eval_upgradable_nop, eval_locktime, eval_sequence, eval_verify, eval_toaltstack,
      eval_fromaltstack, eval_2drop, eval_2dup, eval_3dup, eval_2over, eval_2rot, eval_2swap,
      eval_ifdup, eval_depth, eval_drop, eval_dup, eval_nip, eval_over, eval_pick, eval_rot,
      eval_swap, eval_tuck, eval_size, eval_equal, eval_unary, eval_binary, eval_within, eval_hash,
      eval_checksig; keeps_run.
Qed.

(** ** The conditionals as a depth *)

(** The nesting depth after an instruction, [None] where the evaluator must fail. *)
Definition depth_step (d : nat) (opcode : Z) : option nat :=
  if (opcode =? OP_IF) || (opcode =? OP_NOTIF) then Some (S d)
  else if opcode =? OP_ELSE then (match d with O => None | S _ => Some d end)
  else if opcode =? OP_ENDIF then (match d with O => None | S d => Some d end)
  else if (opcode =? OP_VERIF) || (opcode =? OP_VERNOTIF) then None
  else Some d.

Lemma mbind_inv {A B} (m : M C A) (k : A -> M C B) s b s' :
  mbind m k s = (Ret b, s') -> exists a s1, m s = (Ret a, s1) /\ k a s1 = (Ret b, s').
Proof. unfold mbind. destruct (m s) as [[a| |] s1]; [|done|done]. intros H. by exists a, s1. Qed.

Lemma fail_if_inv b s u s' : fail_if (C := C) b s = (Ret u, s') -> b = false /\ s' = s.
Proof. destruct b; [done|]. by intros [= _ <-]. Qed.

Lemma mget_inv {A} (f : estate C -> A) s a s' : mget f s = (Ret a, s') -> a = f s /\ s' = s.
Proof. by intros [= <- <-]. Qed.

Lemma eval_op_depth pc fExec op s u s' :
  eval_op RIPEMD160 SHA1 SHA256 txTo nIn flags nHashType pc fExec op s = (Ret u, s') ->
  depth_step (length (vfExec s)) (code op) = Some (length (vfExec s')) /\ nOpCount s <= nOpCount s'.
Proof.
  intros H. destruct (conditional op) eqn:Eop.
  - destruct op; try discriminate Eop; cbn [eval_op] in H.
    1, 2: unfold eval_if in H; apply mbind_inv in H as (fv & s1 & H1 & H2);
      assert (vfExec s1 = vfExec s /\ nOpCount s <= nOpCount s1) as [E1 E2];
      [eapply (fun H => H s fv s1 H1); destruct fExec;
        [apply keeps_bind; [apply keeps_require|intros _];
         apply keeps_bind; [apply keeps_stacktop|intros ?];
         apply keeps_bind; [apply keeps_popstack|intros _; apply keeps_mret]
        |apply keeps_mret]|];
      apply mbind_inv in H2 as (v & s2 & [-> ->]%mget_inv & H2);
      injection H2 as _ <-; cbn; rewrite E1; (split; [done|lia]).
    all: unfold eval_else, eval_endif in H; apply mbind_inv in H as (v & s1 & [-> ->]%mget_inv & H);
      destruct (vfExec s) as [|b v]; [done|]; injection H as _ <-; cbn; (split; [done|lia]).
  - destruct (keeps_eval_op pc fExec op Eop s u s' H) as [E1 E2].
    split; [|done]. rewrite E1. destruct op; try discriminate Eop; try reflexivity; discriminate H.
Qed.

(** What the main loop checks of every instruction, executed or not. *)
Lemma eval_instruction_inv pc opcode v s u s' :
  eval_instruction RIPEMD160 SHA1 SHA256 txTo nIn flags nHashType pc opcode v s = (Ret u, s') ->
  zlen v <= MAX_SCRIPT_ELEMENT_SIZE /\ disabled opcode = false
  /\ depth_step (length (vfExec s)) opcode = Some (length (vfExec s'))
  /\ nOpCount s + (if opcode >? OP_16 then 1 else 0) <= nOpCount s'
  /\ ((opcode >? OP_16) = true -> nOpCount s + 1 <= MAX_OPS_PER_SCRIPT).
Proof.
  unfold eval_instruction. intros H.
  apply mbind_inv in H as (ex & s0 & [-> ->]%mget_inv & H). cbv zeta in H.
  apply mbind_inv in H as ([] & s1 & [Hsz ->]%fail_if_inv & H).
  apply mbind_inv in H as ([] & s2 & Hop & H).
  apply mbind_inv in H as ([] & s3 & [Hdis ->]%fail_if_inv & H).
  apply mbind_inv in H as ([] & s4 & Hex & H).
  apply mbind_inv in H as (st & s5 & [_ ->]%mget_inv & H).
  apply mbind_inv in H as (alt & s6 & [_ ->]%mget_inv & H). apply fail_if_inv in H as [_ ->].
  assert (vfExec s2 = vfExec s /\ nOpCount s2 = nOpCount s + (if opcode >? OP_16 then 1 else 0)
    /\ ((opcode >? OP_16) = true -> nOpCount s + 1 <= MAX_OPS_PER_SCRIPT)) as (E1 & E2 & E3).
  { destruct (opcode >? OP_16).
    - apply mbind_inv in Hop as (n & s1 & [-> ->]%mget_inv & Hop).
      apply mbind_inv in Hop as ([] & s1 & [= <-] & Hop). apply fail_if_inv in Hop as [Hn ->].
      cbn. split_and!; [done|done|lia].
    - injection Hop as <-. split_and!; [done|lia|done]. }
  rewrite <-E1, <-E2. split; [lia|]. split; [done|]. clear Hop st alt u.
  assert (depth_step (length (vfExec s2)) opcode = Some (length (vfExec s4)) /\ nOpCount s2 <= nOpCount s4)
    as [Hd Hc]; [|done].
  destruct (_ && _) eqn:Epush.
  - apply mbind_inv in Hex as ([] & s1 & [_ ->]%fail_if_inv & Hex).
    apply keeps_push in Hex as [-> ?]. split; [|done]. unfold depth_step.
    change (code OP_PUSHDATA4) with 78 in Epush. simpl code.
    by replace opcode with (Z.min opcode 78) by lia; repeat replace (Z.min opcode 78 =? _) with false by lia.
  - destruct (_ || _) eqn:Eex.
    + unfold eval_switch in Hex. destruct (find_opcode opcode) as [op|] eqn:Ef; [|done].
      apply find_opcode_Some in Ef as <-. by apply eval_op_depth in Hex.
    + injection Hex as <-. split; [|lia]. apply orb_false_iff in Eex as [_ Eex].
      unfold depth_step. simpl code in *.
      by repeat match goal with |- context [opcode =? ?k] => replace (opcode =? k) with false by lia end.
Qed.

(** ** The text of an accepted script *)

(** The instructions of [instrs] that count against [MAX_OPS_PER_SCRIPT]. *)
Definition counted (instrs : list (Z * bytes)) : Z :=
  zlen (List.filter (fun i => i.1 >? OP_16) instrs).

(** The nesting of conditionals after [instrs], started at depth [d]. *)
Fixpoint depth (d : nat) (instrs : list (Z * bytes)) : option nat :=
  match instrs with
  | [] => Some d
  | i :: instrs => d ← depth_step d i.1; depth d instrs
  end.

Lemma eval_loop_text fuel pc s u s' :
  eval_loop RIPEMD160 SHA1 SHA256 txTo nIn flags nHashType fuel pc s = (Ret u, s') ->
  exists instrs, decode pc = Some instrs
    /\ Forall (fun i => zlen i.2 <= MAX_SCRIPT_ELEMENT_SIZE /\ disabled i.1 = false) instrs
    /\ nOpCount s + counted instrs <= Z.max (nOpCount s) MAX_OPS_PER_SCRIPT
    /\ depth (length (vfExec s)) instrs = Some (length (vfExec s')).
Proof.
  revert pc s. induction fuel as [|fuel IH]; intros [|b pc] s H; try discriminate H.
  1, 2: injection H as _ <-; exists []; split_and!; [done|apply Forall_nil_2|change (counted []) with 0; lia|done].
  cbn [eval_loop] in H. destruct (op_ok _) eqn:Eok; [|discriminate H].
  apply mbind_inv in H as (u1 & s1 & H1 & H2).
  apply eval_instruction_inv in H1 as (Hsz & Hdis & Hd & Hc & Hlim).
  apply IH in H2 as (instrs & Hdec & Hall & Hcnt & Hdep).
  rewrite decode_step by done. rewrite Hdec. eexists; split_and!; [done|by apply Forall_cons_2| |].
  - unfold counted in *. cbn [List.filter fst]. destruct (_ >? OP_16); [|lia].
    specialize (Hlim eq_refl). rewrite zlen_cons. pose proof (zlen_nonneg (List.filter (fun i => i.1 >? OP_16) instrs)). lia.
  - cbn [depth fst]. by rewrite Hd.
Qed.

(** C21 (safety): a script [EvalScript] accepts decodes to the end without a malformed push; it is
    at most 10000 bytes long, none of its instructions - executed or in a branch that was not
    taken - is a disabled opcode or pushes more than 520 bytes, at most 201 of them are
    operations, and its [OP_IF]/[OP_NOTIF], [OP_ELSE] and [OP_ENDIF] are balanced. *)
Theorem EvalScript_limits st script c st' c' :
  EvalScript RIPEMD160 SHA1 SHA256 txTo nIn flags nHashType st script c = Some (true, st', c') ->
  zlen script <= MAX_SCRIPT_SIZE /\
  exists instrs, decode script = Some instrs
    /\ Forall (fun i => zlen i.2 <= MAX_SCRIPT_ELEMENT_SIZE /\ disabled i.1 = false) instrs
    /\ counted instrs <= MAX_OPS_PER_SCRIPT
    /\ depth 0 instrs = Some 0%nat.
Proof.
  unfold EvalScript. destruct (_ >? MAX_SCRIPT_SIZE) eqn:Esz; [done|].
  destruct (eval_loop _ _ _ _ _ _ _ _ _ _) as [[u| |] s] eqn:E; [|done|done].
  intros [= Hv _ _]. apply bool_decide_eq_true in Hv.
  apply eval_loop_text in E as (instrs & Hdec & Hall & Hcnt & Hdep). cbn in Hcnt, Hdep.
  split; [lia|]. exists instrs. split_and!; [done|done|unfold MAX_OPS_PER_SCRIPT in *; lia|by rewrite Hv in Hdep].
Qed.
End ops.

Lemma EvalScript_limits_witness :
  zlen [81; 99; 82; 103; 0; 104] <= MAX_SCRIPT_SIZE /\
  exists instrs, decode [81; 99; 82; 103; 0; 104] = Some instrs
    /\ Forall (fun i => zlen i.2 <= MAX_SCRIPT_ELEMENT_SIZE /\ disabled i.1 = false) instrs
    /\ counted instrs <= MAX_OPS_PER_SCRIPT
    /\ depth 0 instrs = Some 0%nat.
Proof.
  apply (@EvalScript_limits unit (SigCheck.pure_checker SigCheck.toy_verify) Crypto.Hash160 Crypto.Hash160
    Crypto.Hash (sample_tx 1) 0 0 0 [] [81; 99; 82; 103; 0; 104] tt [[2]] tt).
  vm_compute. reflexivity.
Defined.

End EvalProps.
