(* ===== verification/StdScripts.v ===== *)
(** * StdScripts: what the scripts in use accept

    [OP_CHECKMULTISIG] finds an order-preserving assignment of signatures to keys exactly when there
    is one; [OP_CHECKLOCKTIMEVERIFY] keeps a transaction out of blocks before the lock time; and
    pay-to-pubkey-hash and pay-to-script-hash outputs accept exactly what they are meant to. Scripts
    are written with the [<<] operators as in [CScript.build]. *)
From S2P Require Import Prelude ScriptNum Script Serialize Crypto Transaction Keys SigCheck Interpreter EvalProps.
Import ScriptOpcodes Script_param Script_const CScript SigEncoding Tx Interpreter EvalProps.

Module StdScripts.

(** ** Stepping through a written script *)

Lemma CheckMinimalPush_push v : 2 <= zlen v <= 65535 -> CheckMinimalPush v (push_code v) = true.
Proof.
  intros H. unfold CheckMinimalPush, push_code. change (code OP_PUSHDATA1) with 76.
  change (code OP_PUSHDATA2) with 77. repeat case_match; lia.
Qed.

Section step.
Context {C : Type} `{!SigChecker C}.
Variables RIPEMD160 SHA1 SHA256 : bytes -> bytes.
Variables (txTo : CTransaction) (nIn flags nHashType : Z).

Local Abbreviation eval_loop' := (eval_loop RIPEMD160 SHA1 SHA256 txTo nIn flags nHashType).
Local Abbreviation eval_instruction' := (eval_instruction RIPEMD160 SHA1 SHA256 txTo nIn flags nHashType).

Lemma eval_loop_fuel f1 f2 pc s :
  (length pc <= f1)%nat -> (length pc <= f2)%nat -> eval_loop' f1 pc s = eval_loop' f2 pc s.
Proof.
  revert f2 pc s. induction f1 as [|f1 IH]; intros f2 [|b pc] s H1 H2; try (simpl in *; lia); [by destruct f2..|].
  destruct f2 as [|f2]; [simpl in *; lia|]. cbn [eval_loop].
  destruct (op_ok _) eqn:Eok; [|done]. pose proof (GetScriptOp_progress _ Eok).
  unfold mbind. destruct (eval_instruction' _ _ _ _) as [[[]| |] s1]; [|done|done].
  apply IH; simpl in *; lia.
Qed.

Lemma eval_loop_item i rest s :
  item_ok i -> zlen (write [] i ++ rest) < 2 ^ 32 ->
  eval_loop' (length (write [] i ++ rest)) (write [] i ++ rest) s =
  (eval_instruction' rest (instruction i).1 (instruction i).2;; eval_loop' (length rest) rest) s.
Proof.
  intros Hi Hlen. pose proof (GetScriptOp_write i rest Hi Hlen) as Hop.
  pose proof (GetScriptOp_progress (write [] i ++ rest)) as Hpr. rewrite Hop in Hpr.
  cbn [op_ok op_pc] in Hpr. specialize (Hpr eq_refl).
  destruct (write [] i ++ rest) as [|b pc] eqn:E; [simpl in Hpr; lia|].
  cbn [length eval_loop]. rewrite Hop. cbn [op_ok op_pc op_code op_data].
  unfold mbind. destruct (eval_instruction' _ _ _ _) as [[[]| |] s1]; [|done|done].
  apply eval_loop_fuel; simpl in *; lia.
Qed.

(** A push, outside conditionals or in a branch taken. *)
Lemma eval_instruction_push rest v s :
  zlen v <= MAX_SCRIPT_ELEMENT_SIZE ->
  (fRequireMinimal flags = true -> CheckMinimalPush v (push_code v) = true) ->
  vfExec s = [] -> zlen (stack s) + zlen (altstack s) < MAX_STACK_SIZE ->
  eval_instruction' rest (push_code v) v s =
  (Ret tt, EState (v :: stack s) (altstack s) (vfExec s) (pbegincodehash s) (nOpCount s) (checker s)).
Proof.
  intros Hv Hmin Hex Hst. pose proof (push_code_bound v) as Hc. unfold eval_instruction, mbind, mget.
  rewrite Hex. cbn [forallb]. replace (zlen v >? _) with false by lia. cbn [fail_if].
  change (code OP_PUSHDATA4) with 78 in *. change (code OP_16) with 96.
  replace (push_code v >? 96) with false by lia. unfold mret.
  replace (disabled (push_code v)) with false.
  2:{ symmetry. apply not_true_is_false. intros Hd. apply existsb_exists in Hd as (o & Ho & Hd).
      repeat (destruct Ho as [<-|Ho]; [cbn in Hd; lia|]). done. }
  replace (0 <=? push_code v) with true by lia. replace (push_code v <=? 78) with true by lia. cbn [andb].
  replace (fRequireMinimal flags && negb (CheckMinimalPush v (push_code v))) with false
    by (destruct (fRequireMinimal flags); [by rewrite Hmin|done]).
  cbn [fail_if mret]. unfold mret, push, mbind, mget, set_stack, mput. cbn [stack altstack vfExec pbegincodehash nOpCount checker].
  rewrite zlen_cons. replace (_ >? MAX_STACK_SIZE) with false by lia. by rewrite Hex.
Qed.
End step.

(** ** Pay to pubkey hash *)

(** [OP_DUP OP_HASH160 <hash> OP_EQUALVERIFY OP_CHECKSIG] and the script that spends it *)
Definition p2pkh (h : bytes) : bytes := build [Op OP_DUP; Op OP_HASH160; Data h; Op OP_EQUALVERIFY; Op OP_CHECKSIG].
Definition p2pkh_spend (vchSig vchPubKey : bytes) : bytes := build [Data vchSig; Data vchPubKey].
(** [OP_HASH160 <hash> OP_EQUAL] *)
Definition p2sh (h : bytes) : bytes := build [Op OP_HASH160; Data h; Op OP_EQUAL].

Lemma write_data_length v : zlen v <= 520 -> zlen v <= zlen (write [] (Data v)) <= zlen v + 3.
Proof.
  intros H. cbn [write]. unfold push_data.
  repeat case_match; rewrite ?zlen_app, ?zlen_cons, ?zlen_nil; unfold zlen in *; rewrite ?length_le_bytes; lia.
Qed.

Lemma build_length items :
  Forall (fun i => match i with Op _ => True | Data v => zlen v <= 520 end) items ->
  0 <= zlen (build items) <= 523 * zlen items.
Proof.
  induction 1 as [|i items Hi _ IH]; [done|]. rewrite build_cons, zlen_app, zlen_cons.
  pose proof (zlen_nonneg (write [] i)).
  assert (zlen (write [] i) <= 523); [|lia].
  destruct i as [o|v]; [by unfold zlen|]. pose proof (write_data_length v Hi). lia.
Qed.

Lemma IsPayToScriptHash_p2sh h : zlen h = 20 -> IsPayToScriptHash (p2sh h) = true.
Proof.
  intros H. do 20 (destruct h as [|? h]; [unfold zlen in H; cbn in H; lia|]).
  destruct h; [reflexivity|unfold zlen in H; cbn in H; lia].
Qed.

(** Side conditions on the items of a concrete script. *)
Ltac items_ok :=
  repeat first [apply Forall_nil_2|apply Forall_cons_2; [first [exact I|right; reflexivity|lia]|]]; try done.

Section standard.
Context {C : Type} `{!SigChecker C}.
Variables RIPEMD160 SHA1 SHA256 : bytes -> bytes.
Variables (txTo : CTransaction) (nIn flags nHashType : Z).

Local Abbreviation EvalScript' := (EvalScript RIPEMD160 SHA1 SHA256 txTo nIn flags nHashType).
Local Abbreviation eval_loop' := (eval_loop RIPEMD160 SHA1 SHA256 txTo nIn flags nHashType).
Local Abbreviation eval_instruction' := (eval_instruction RIPEMD160 SHA1 SHA256 txTo nIn flags nHashType).

(** Evaluating the instructions of a list of items. *)
Fixpoint eval_items (items : list item) : M C unit :=
  match items with
  | [] => mret tt
  | i :: items => eval_instruction' (build items) (instruction i).1 (instruction i).2;; eval_items items
  end.

Lemma eval_loop_build items s :
  Forall item_ok items -> zlen (build items) < 2 ^ 32 ->
  eval_loop' (length (build items)) (build items) s = eval_items items s.
Proof.
  intros Hi. revert s. induction Hi as [|i items Hi _ IH]; intros s Hlen; [done|].
  rewrite build_cons in *. rewrite eval_loop_item by done. cbn [eval_items]. unfold mbind.
  destruct (eval_instruction' _ _ _ _) as [[[]| |] s1]; [|done|done].
  apply IH. rewrite zlen_app in Hlen. pose proof (zlen_nonneg (write [] i)). lia.
Qed.

Lemma EvalScript_build items st c :
  Forall item_ok items ->
  Forall (fun i => match i with Op _ => True | Data v => zlen v <= 520 end) items -> zlen items <= 19 ->
  EvalScript' st (build items) c =
  match eval_items items (EState st [] [] (build items) 0 c) with
  | (Ret _, s) => Some (bool_decide (vfExec s = []), stack s, checker s)
  | (Fail, s) => Some (false, stack s, checker s)
  | (Stuck, _) => None
  end.
Proof.
  intros Hi Hl Hn. apply build_length in Hl. unfold EvalScript, MAX_SCRIPT_SIZE.
  replace (_ >? 10000) with false by lia. by rewrite eval_loop_build by (done || lia).
Qed.

Local Abbreviation VerifyScript' := (VerifyScript RIPEMD160 SHA1 SHA256 txTo nIn flags nHashType).
Local Abbreviation eval_op' := (eval_op RIPEMD160 SHA1 SHA256 txTo nIn flags nHashType).

(** Runs an operation on a stack whose top is explicit. *)
Ltac run_sizes :=
  repeat match goal with
  | |- context [?t <? ?k] =>
      lazymatch t with zlen (_ :: _) => idtac end;
      replace (t <? k) with false by (symmetry; apply Z.ltb_ge; unfold zlen; cbn [length]; lia)
  | |- context [?t >? MAX_STACK_SIZE] =>
      lazymatch t with zlen (_ :: _) + _ => idtac end;
      replace (t >? MAX_STACK_SIZE) with false 
        by (symmetry; rewrite Z.gtb_ltb; apply Z.ltb_ge; unfold zlen, MAX_STACK_SIZE in *; cbn [length] in *; lia)
  end.
Ltac run_op :=
  cbv [eval_op eval_dup eval_hash eval_equal eval_checksig require stacktop push popstack Interpreter.mbind
       mget mret mfail mstuck mput set_stack set_checker fail_if of_option of_assert];
  cbn [stack altstack vfExec pbegincodehash nOpCount checker fst snd]; run_sizes;
  cbn -[build eval_items drop_signature zlen MAX_STACK_SIZE Z.gtb]; run_sizes.

Lemma eval_items_push v items st alt pch n c :
  2 <= zlen v <= 520 -> zlen st + zlen alt < MAX_STACK_SIZE ->
  eval_items (Data v :: items) (EState st alt [] pch n c) = eval_items items (EState (v :: st) alt [] pch n c).
Proof.
  intros Hv Hst. cbn [eval_items]. unfold mbind. cbn [instruction fst snd].
  rewrite eval_instruction_push; [done|unfold MAX_SCRIPT_ELEMENT_SIZE; lia| |done|done].
  intros _. apply CheckMinimalPush_push. lia.
Qed.

(** An operation, outside conditionals. *)
Lemma eval_items_op (o : opcodetype) items st pch n c :
  OP_16 < o -> disabled o = false -> n < MAX_OPS_PER_SCRIPT ->
  eval_items (Op o :: items) (EState st [] [] pch n c) =
  match eval_op' (build items) true o (EState st [] [] pch (n + 1) c) with
  | (Ret _, s) => if zlen (stack s) + zlen (altstack s) >? MAX_STACK_SIZE then (Fail, s) else eval_items items s
  | r => r
  end.
Proof.
  intros Ho Hd Hn. cbn [eval_items instruction fst snd]. unfold eval_instruction, mbind, mget. cbn [vfExec forallb].
  change (zlen [] >? MAX_SCRIPT_ELEMENT_SIZE) with false. unfold fail_if at 1. unfold mret.
  replace (o >? OP_16) with true by lia. cbn [nOpCount]. unfold set_nOpCount, mput. cbn [stack altstack vfExec pbegincodehash checker].
  replace (n + 1 >? MAX_OPS_PER_SCRIPT) with false by lia. rewrite Hd. unfold fail_if at 1 2, mret.
  replace (o <=? OP_PUSHDATA4) with false by (change (code OP_16) with 96 in Ho; change (code OP_PUSHDATA4) with 78; lia).
  rewrite andb_false_r. cbn [andb orb]. unfold eval_switch. rewrite find_opcode_code.
  destruct (eval_op' _ _ _ _) as [[[]| |] s]; [|done|done]. unfold fail_if, mret, mfail.
  by destruct (_ >? MAX_STACK_SIZE).
Qed.

Lemma EvalScript_p2pkh_spend vchSig vchPubKey c :
  2 <= zlen vchSig <= 520 -> 2 <= zlen vchPubKey <= 520 ->
  EvalScript' [] (p2pkh_spend vchSig vchPubKey) c = Some (true, [vchPubKey; vchSig], c).
Proof.
  intros Hs Hk. unfold p2pkh_spend. rewrite EvalScript_build by items_ok.
  rewrite eval_items_push by done. by rewrite eval_items_push by done.
Qed.

Lemma EvalScript_p2pkh h vchSig vchPubKey c :
  zlen h = 20 ->
  EvalScript' [vchPubKey; vchSig] (p2pkh h) c =
  if bool_decide (Crypto.Hash160 vchPubKey = h)
  then if IsCanonicalSignature vchSig flags && IsCanonicalPubKey vchPubKey flags
       then '(b, c) ← CheckSig vchSig vchPubKey (drop_signature (p2pkh h) vchSig) txTo nIn nHashType flags c;
            Some (true, [vchBool b], c)
       else Some (true, [vchFalse], c)
  else Some (false, [vchFalse; vchPubKey; vchSig], c).
Proof.
  intros Hh. unfold p2pkh at 1. rewrite EvalScript_build by items_ok.
  fold (p2pkh h). generalize (p2pkh h). intros pch.
  rewrite eval_items_op by done. run_op. rewrite eval_items_op by done. run_op.
  rewrite eval_items_push by (done || lia). rewrite eval_items_op by done. run_op.
  destruct (bool_decide _); run_op; [|done].
  rewrite eval_items_op by done. run_op. unfold check_one.
  destruct (IsCanonicalSignature _ _ && _); run_op; [|done].
  destruct (CheckSig _ _ _ _ _ _ _ _) as [[b c1]|]; run_op; done.
Qed.

Lemma VerifyScript_p2pkh h vchSig vchPubKey c :
  zlen h = 20 -> 2 <= zlen vchSig <= 520 -> 2 <= zlen vchPubKey <= 520 ->
  VerifyScript' (p2pkh_spend vchSig vchPubKey) (p2pkh h) c =
  if bool_decide (Crypto.Hash160 vchPubKey = h)
     && (IsCanonicalSignature vchSig flags && IsCanonicalPubKey vchPubKey flags)
  then CheckSig vchSig vchPubKey (drop_signature (p2pkh h) vchSig) txTo nIn nHashType flags c
  else Some (false, c).
Proof.
  intros Hh Hs Hk. unfold VerifyScript. rewrite EvalScript_p2pkh_spend by done. cbn [base.mbind option_bind negb].
  rewrite EvalScript_p2pkh by done.
  replace (IsPayToScriptHash (p2pkh h)) with false.
  2:{ unfold p2pkh, IsPayToScriptHash. rewrite build_cons. unfold at_ at 1. cbn. by rewrite andb_false_r. }
  rewrite andb_false_r.
  destruct (bool_decide _); cbn; [|done]. destruct (IsCanonicalSignature _ _ && _); cbn; [|done].
  destruct (CheckSig _ _ _ _ _ _ _ _) as [[[] c1]|]; done.
Qed.

(** C32 (functional): a pay-to-pubkey-hash output is spent by a signature and a key exactly when the
    key hashes to the address, both are encoded as the flags demand and the signature checker
    accepts them for the output's script; its verdict is the result. *)
Theorem P2PKH_spec h vchSig vchPubKey c :
  zlen h = 20 -> 2 <= zlen vchSig <= 520 -> 2 <= zlen vchPubKey <= 520 ->
  VerifyScript' (p2pkh_spend vchSig vchPubKey) (p2pkh h) c =
  if bool_decide (Crypto.Hash160 vchPubKey = h)
     && (IsCanonicalSignature vchSig flags && IsCanonicalPubKey vchPubKey flags)
  then CheckSig vchSig vchPubKey (drop_signature (p2pkh h) vchSig) txTo nIn nHashType flags c
  else Some (false, c).
Proof. apply VerifyScript_p2pkh. Qed.

(** With [SCRIPT_VERIFY_P2SH], a pay-to-script-hash output is spent by a push-only
    script exactly when the last element it pushes, the redeem script, hashes to the address and
    succeeds on the elements below it with a true top. *)
Lemma P2SH_spec h scriptSig redeem st c c1 :
  flag flags SCRIPT_VERIFY_P2SH = true -> zlen h = 20 -> IsPushOnly scriptSig = true ->
  EvalScript' [] scriptSig c = Some (true, redeem :: st, c1) -> zlen st < MAX_STACK_SIZE - 1 ->
  VerifyScript' scriptSig (p2sh h) c =
  if bool_decide (Crypto.Hash160 redeem = h)
  then '(ok, st2, c2) ← EvalScript' st redeem c1;
       Some (ok && match st2 with [] => false | top :: _ => CastToBool top end, c2)
  else Some (false, c1).
Proof.
  intros Hf Hh Hp Hsig Hst. unfold VerifyScript. rewrite Hsig, Hf, Hp. cbn [base.mbind option_bind negb andb].
  assert (EvalScript' (redeem :: st) (p2sh h) c1 =
    Some (true, vchBool (bool_decide (Crypto.Hash160 redeem = h)) :: st, c1)) as ->.
  { unfold p2sh. rewrite EvalScript_build by items_ok. generalize (build [Op OP_HASH160; Data h; Op OP_EQUAL]). intros pch.
    rewrite eval_items_op by done. run_op.
    rewrite eval_items_push by (rewrite ?zlen_cons, ?zlen_nil; lia).
    rewrite eval_items_op by done. run_op. done. }
  rewrite IsPayToScriptHash_p2sh by done. cbn [base.mbind option_bind negb].
  destruct (bool_decide _); cbn; [|done].
  destruct (EvalScript' st redeem c1) as [[[[] [|]] c2]|]; done.
Qed.

(** ** Lock times *)

Lemma eval_instruction_push_inv rest v s u s1 :
  vfExec s = [] -> eval_instruction' rest (push_code v) v s = (Ret u, s1) ->
  stack s1 = v :: stack s /\ vfExec s1 = [].
Proof.
  intros Hex H. unfold eval_instruction in H. pose proof (push_code_bound v) as Hb.
  apply mbind_inv in H as (ex & s0 & [-> ->]%mget_inv & H). cbv zeta in H. rewrite Hex in H. cbn [forallb] in H.
  apply mbind_inv in H as ([] & s2 & [_ ->]%fail_if_inv & H).
  replace (push_code v >? OP_16) with false in H
    by (change (code OP_16) with 96; change (code OP_PUSHDATA4) with 78 in Hb; lia).
  apply mbind_inv in H as ([] & s2 & [= <-] & H).
  apply mbind_inv in H as ([] & s3 & [_ ->]%fail_if_inv & H).
  replace (0 <=? push_code v) with true in H by lia.
  replace (push_code v <=? OP_PUSHDATA4) with true in H by lia. cbn [andb] in H.
  apply mbind_inv in H as ([] & s3 & H1 & H).
  apply mbind_inv in H1 as ([] & s4 & [_ ->]%fail_if_inv & [= <-]).
  apply mbind_inv in H as (st & s5 & [_ ->]%mget_inv & H).
  apply mbind_inv in H as (alt & s6 & [_ ->]%mget_inv & H). apply fail_if_inv in H as [_ ->].
  by rewrite <-Hex.
Qed.

(** An operation whose opcode is above [OP_16], outside conditionals. *)
Lemma eval_instruction_op_inv rest (o : opcodetype) s u s1 :
  OP_16 < o -> vfExec s = [] -> eval_instruction' rest o [] s = (Ret u, s1) ->
  exists s0 s0', stack s0 = stack s /\ eval_op' rest true o s0 = (Ret tt, s0').
Proof.
  intros Ho Hex H. unfold eval_instruction in H.
  apply mbind_inv in H as (ex & s0 & [-> ->]%mget_inv & H). cbv zeta in H. rewrite Hex in H. cbn [forallb] in H.
  apply mbind_inv in H as ([] & s2 & [_ ->]%fail_if_inv & H).
  replace (o >? OP_16) with true in H by lia.
  apply mbind_inv in H as ([] & s2 & H1 & H).
  apply mbind_inv in H1 as (n & s3 & [-> ->]%mget_inv & H1).
  apply mbind_inv in H1 as ([] & s3 & [= <-] & H1). apply fail_if_inv in H1 as [_ ->].
  apply mbind_inv in H as ([] & s3 & [_ ->]%fail_if_inv & H).
  apply mbind_inv in H as ([] & s3 & H1 & H).
  replace (o <=? OP_PUSHDATA4) with false in H1
    by (change (code OP_16) with 96 in Ho; change (code OP_PUSHDATA4) with 78; lia).
  rewrite andb_false_r in H1. cbn [andb orb] in H1. unfold eval_switch in H1. rewrite find_opcode_code in H1.
  eexists _, _. split; [|exact H1]. done.
Qed.

Lemma eval_locktime_inv (s s' : estate C) v st T :
  flag flags SCRIPT_VERIFY_CHECKLOCKTIMEVERIFY = true -> stack s = v :: st ->
  CScriptNum.of_vch v (fRequireMinimal flags) 5 = Some T ->
  eval_locktime txTo nIn flags s = (Ret tt, s') ->
  0 <= T <= nLockTime txTo
  /\ (T <? block_params.LOCKTIME_THRESHOLD) = (nLockTime txTo <? block_params.LOCKTIME_THRESHOLD)
  /\ exists i, vin txTo !! Z.to_nat nIn = Some i /\ nSequence i <> SEQUENCE_FINAL.
Proof.
  intros Hf Hst HT H. unfold eval_locktime in H. rewrite Hf in H. cbn [negb] in H.
  apply mbind_inv in H as ([] & s1 & H1 & H).
  apply mbind_inv in H1 as (? & ? & [-> ->]%mget_inv & [_ ->]%fail_if_inv).
  apply mbind_inv in H as (v' & s1 & H1 & H).
  apply mbind_inv in H1 as (? & ? & [-> ->]%mget_inv & H1). rewrite Hst in H1. injection H1 as <- <-.
  unfold script_num in H. rewrite HT in H. apply mbind_inv in H as (? & ? & [= <- <-] & H).
  apply mbind_inv in H as ([] & ? & [Hpos ->]%fail_if_inv & H).
  apply mbind_inv in H as (ok & s1 & H1 & H). apply fail_if_inv in H as [Hok _].
  unfold CheckLockTime in H1. destruct ok; [|discriminate Hok].
  destruct (negb _) eqn:Ekind in H1; [discriminate H1|].
  destruct (T >? nLockTime txTo) eqn:Ele; [discriminate H1|].
  destruct (vin txTo !! Z.to_nat nIn) as [i|]; [|discriminate H1].
  injection H1 as Hseq _. split_and!; [lia|lia|lia|]. exists i. split; [done|]. intros E. by rewrite E in Hseq.
Qed.

(** A script that starts with a lock time and [OP_CHECKLOCKTIMEVERIFY] succeeds only
    in a transaction that no block at a height, or with a time, up to the lock time may contain:
    [IsFinal] is false there, whatever the rest of the script and of the transaction. *)
Lemma CLTV_locks v T rest st st' c c' nBestHeight GetAdjustedTime nBlockHeight nBlockTime :
  flag flags SCRIPT_VERIFY_CHECKLOCKTIMEVERIFY = true ->
  CScriptNum.of_vch v (fRequireMinimal flags) 5 = Some T ->
  EvalScript' st (push_data [] v ++ code OP_CHECKLOCKTIMEVERIFY :: rest) c = Some (true, st', c') ->
  0 < nBlockHeight -> 0 < nBlockTime ->
  (if T <? block_params.LOCKTIME_THRESHOLD then nBlockHeight else nBlockTime) <= T ->
  IsFinal nBestHeight GetAdjustedTime txTo nBlockHeight nBlockTime = false.
Proof.
  intros Hf HT H Hh Ht Hle. unfold EvalScript in H.
  destruct (_ >? MAX_SCRIPT_SIZE) eqn:Esz; [done|]. unfold MAX_SCRIPT_SIZE in Esz.
  change (push_data [] v) with (write [] (Data v)) in *.
  change (code OP_CHECKLOCKTIMEVERIFY :: rest) with (write [] (Op OP_CHECKLOCKTIMEVERIFY) ++ rest) in *.
  rewrite eval_loop_item in H by (done || lia).
  destruct (Interpreter.mbind _ _ _) as [[u| |] s] eqn:E; [|done|done]. clear H.
  apply mbind_inv in E as (u1 & s1 & H1 & E). apply eval_instruction_push_inv in H1 as [Hst1 Hex1]; [|done].
  rewrite eval_loop_item in E.
  2: by right. 2:{ rewrite zlen_app in Esz. pose proof (zlen_nonneg (write [] (Data v))). lia. }
  apply mbind_inv in E as (u2 & s2 & H2 & _). cbn [stack] in Hst1.
  apply (eval_instruction_op_inv rest OP_CHECKLOCKTIMEVERIFY) in H2 as (s0 & s0' & Hs0 & H2); [|done|done].
  rewrite Hst1 in Hs0. change (eval_op' rest true OP_CHECKLOCKTIMEVERIFY) with (eval_locktime (C := C) txTo nIn flags) in H2.
  eapply eval_locktime_inv in H2 as (HTle & Hkind & i & Hi & Hseq); [|done|done|done].
  unfold IsFinal. replace (nLockTime txTo =? 0) with false.
  2:{ symmetry. apply Z.eqb_neq. intros E0. destruct (T <? _); lia. }
  replace (nBlockHeight =? 0) with false by lia. replace (nBlockTime =? 0) with false by lia.
  rewrite <-Hkind. replace (nLockTime txTo <? _) with false by (destruct (T <? _); lia).
  apply not_true_is_false. intros Hall%Is_true_eq_left%forallb_True.
  eapply Forall_lookup_1 in Hall; [|exact Hi]. apply Hseq. unfold CTxIn_IsFinal in Hall.
  apply Is_true_eq_true in Hall. by apply Z.eqb_eq.
Qed.
End standard.

Lemma bind_ret {C A B} (m : M C A) (k : A -> M C B) s a s1 : m s = (Ret a, s1) -> mbind m k s = k a s1.
Proof. unfold mbind. by intros ->. Qed.
Lemma require_ok {C} n (s : estate C) : n <= zlen (stack s) -> require n s = (Ret tt, s).
Proof. intros H. unfold require, mbind, mget. by replace (_ <? n) with false by lia. Qed.
Lemma stacktop_ok {C} i v (s : estate C) : stack s !! (i - 1)%nat = Some v -> stacktop i s = (Ret v, s).
Proof. intros H. unfold stacktop, mbind, mget. by rewrite H. Qed.

(** ** Multiple signatures *)

(** [sigs] are accepted for some of [keys], in the same order. *)
Inductive signed (accepts : bytes -> bytes -> bool) : list bytes -> list bytes -> Prop :=
  | signed_nil keys : signed accepts [] keys
  | signed_here sig sigs key keys :
      accepts sig key = true -> signed accepts sigs keys -> signed accepts (sig :: sigs) (key :: keys)
  | signed_skip sigs key keys : signed accepts sigs keys -> signed accepts sigs (key :: keys).

Section signed.
Variable accepts : bytes -> bytes -> bool.

Lemma signed_length sigs keys : signed accepts sigs keys -> (length sigs <= length keys)%nat.
Proof. induction 1; simpl in *; lia. Qed.

Lemma signed_tail sig sigs keys : signed accepts (sig :: sigs) keys -> signed accepts sigs keys.
Proof.
  remember (sig :: sigs) as l eqn:E. intros H. revert sig sigs E.
  induction H as [|sig' sigs' key keys Ha H _|sigs' key keys H IH]; intros sig sigs E; simplify_eq.
  - by apply signed_skip.
  - eapply signed_skip, IH. done.
Qed.

(** Giving the first key to the first signature loses nothing. *)
Lemma signed_greedy sig sigs key keys :
  signed accepts (sig :: sigs) (key :: keys) <->
  if accepts sig key then signed accepts sigs keys else signed accepts (sig :: sigs) keys.
Proof.
  split.
  - intros H. inversion H as [|? ? ? ? Ha H1|? ? ? H1]; subst; [by rewrite Ha|].
    destruct (accepts sig key); [by eapply signed_tail|done].
  - destruct (accepts sig key) eqn:Ha; [by apply signed_here|by apply signed_skip].
Qed.
End signed.

Section multisig.
Context `{!SigChecker unit}.
Variables (txTo : CTransaction) (nIn flags nHashType : Z).
Hypothesis CheckSig_total : forall sig key code, is_Some (CheckSig sig key code txTo nIn nHashType flags tt).

Definition accepts (scriptCode vchSig vchPubKey : bytes) : bool :=
  IsCanonicalSignature vchSig flags && IsCanonicalPubKey vchPubKey flags
  && match CheckSig vchSig vchPubKey scriptCode txTo nIn nHashType flags tt with Some (b, _) => b | None => false end.

Lemma check_one_accepts code sig key s :
  check_one txTo nIn flags nHashType sig key code s = (Ret (accepts code sig key), s).
Proof.
  unfold check_one, accepts. destruct (IsCanonicalSignature _ _ && _); [|done].
  destruct s as [st alt ex pch n []]. unfold mbind, mget. cbn [checker].
  destruct (CheckSig_total sig key code) as [[b []] ->]. done.
Qed.

(** [l] is found in the stack from position [i] (from the top, counted from 1). *)
Definition at_stack (st : list bytes) (i : Z) (l : list bytes) : Prop :=
  1 <= i /\ exists rest, drop (Z.to_nat (i - 1)) st = l ++ rest.

Lemma at_stack_head st i v l :
  at_stack st i (v :: l) -> st !! (Z.to_nat i - 1)%nat = Some v /\ at_stack st (i + 1) l.
Proof.
  intros [Hi [rest H]]. split.
  - replace (Z.to_nat i - 1)%nat with (Z.to_nat (i - 1) + 0)%nat by lia. by rewrite <-lookup_drop, H.
  - split; [lia|]. exists rest. replace (Z.to_nat (i + 1 - 1)) with (1 + Z.to_nat (i - 1))%nat by lia.
    by rewrite Nat.add_comm, <-drop_drop, H.
Qed.

Lemma multisig_loop_spec fuel code sigs keys isig ikey s :
  at_stack (stack s) isig sigs -> at_stack (stack s) ikey keys ->
  (length sigs <= length keys)%nat -> (length keys <= fuel)%nat ->
  exists b, multisig_loop txTo nIn flags nHashType fuel code isig ikey (zlen sigs) (zlen keys) s = (Ret b, s)
    /\ (b = true <-> signed (accepts code) sigs keys).
Proof.
  revert sigs keys isig ikey. induction fuel as [|fuel IH]; intros [|sig sigs] keys isig ikey Hs Hk Hle Hf.
  1, 3: exists true; split; [done|]; split; [constructor|done].
  { simpl in *. lia. }
  destruct keys as [|key keys]; [simpl in *; lia|].
  pose proof (at_stack_head _ _ _ _ Hs) as [Es Hs']. pose proof (at_stack_head _ _ _ _ Hk) as [Ek Hk'].
  cbn [multisig_loop]. replace (zlen (sig :: sigs) >? 0) with true
    by (symmetry; apply Z.gtb_lt; unfold zlen; cbn [length]; lia).
  unfold mbind, stacktop, mbind, mget. rewrite Es. cbn [of_option]. unfold mret at 1.
  rewrite Ek. cbn [of_option]. unfold mret at 1.
  rewrite check_one_accepts. setoid_rewrite signed_greedy. rewrite (zlen_cons key), Z.add_simpl_r.
  destruct (accepts code sig key).
  - rewrite zlen_cons, Z.add_simpl_r. replace (zlen sigs >? zlen keys) with false
      by (symmetry; rewrite Z.gtb_ltb; apply Z.ltb_ge; unfold zlen in *; simpl in *; lia).
    apply IH; [done|done|simpl in *; lia|simpl in *; lia].
  - destruct (zlen (sig :: sigs) >? zlen keys) eqn:E.
    + apply Z.gtb_lt in E. exists false. split; [done|]. split; [done|]. intros H%signed_length.
      unfold zlen in *. simpl in *. lia.
    + rewrite Z.gtb_ltb in E. apply Z.ltb_ge in E. apply IH; [done|done| |]; unfold zlen in *; simpl in *; lia.
Qed.

Lemma drop_signatures_spec sigs isig code (s : estate unit) :
  at_stack (stack s) isig sigs ->
  drop_signatures (length sigs) isig code s = (Ret (fold_left drop_signature sigs code), s).
Proof.
  revert isig code. induction sigs as [|sig sigs IH]; intros isig code Hs; [done|].
  pose proof (at_stack_head _ _ _ _ Hs) as [Es Hs']. cbn [length drop_signatures fold_left].
  unfold mbind, stacktop, mbind, mget. rewrite Es. cbn [of_option]. unfold mret at 1. by apply IH.
Qed.

Lemma pop_n_spec l st alt ex pch n (c : unit) :
  pop_n (length l) (EState (l ++ st) alt ex pch n c) = (Ret tt, EState st alt ex pch n c).
Proof. induction l as [|v l IH]; [done|]. cbn [length pop_n app]. unfold mbind. cbn. apply IH. Qed.

(** C33 (functional): on a stack that holds the keys, the signatures and their counts in the form
    [OP_CHECKMULTISIG] expects, it removes them all and pushes true exactly when the signatures are
    accepted for distinct keys taken in the same order, that is when such an assignment exists;
    the script code is that of the script less every one of the signatures. *)
Theorem CHECKMULTISIG_spec keys sigs nb mb dummy st alt ex pch n :
  let code := fold_left drop_signature sigs pch in
  zlen keys <= 20 -> zlen sigs <= zlen keys -> n + zlen keys <= MAX_OPS_PER_SCRIPT ->
  CScriptNum.of_vch nb (fRequireMinimal flags) 4 = Some (zlen keys) ->
  CScriptNum.of_vch mb (fRequireMinimal flags) 4 = Some (zlen sigs) ->
  (flag flags SCRIPT_VERIFY_NULLDUMMY = true -> dummy = []) ->
  exists b, eval_checkmultisig txTo nIn flags nHashType false
      (EState (nb :: keys ++ mb :: sigs ++ dummy :: st) alt ex pch n tt)
    = (Ret tt, EState (vchBool b :: st) alt ex pch (n + zlen keys) tt)
    /\ (b = true <-> signed (accepts code) sigs keys).
Proof.
  intros code Hk Hs Hn Enb Emb Hd.
  set (stk := nb :: keys ++ mb :: sigs ++ dummy :: st).
  assert (at_stack stk 2 keys) as Hkeys by (split; [lia|]; by eexists).
  assert (at_stack stk (2 + zlen keys) (mb :: sigs)) as Hmb.
  { split; [pose proof (zlen_nonneg keys); lia|]. exists (dummy :: st). unfold stk, zlen.
    replace (Z.to_nat (2 + _ - 1)) with (S (length keys)) by lia. cbn [drop]. by rewrite drop_app_length. }
  pose proof (at_stack_head _ _ _ _ Hmb) as [Em Hsigs].
  destruct (multisig_loop_spec (length keys) code sigs keys (2 + zlen keys + 1) 2
    (EState stk alt ex pch (n + zlen keys) tt)) as (b & Hloop & Hb); [done|done|unfold zlen in *; lia|lia|].
  exists b. split; [|done]. unfold eval_checkmultisig, num, script_num, CScriptNum.nDefaultMaxNumSize.
  assert (zlen stk = zlen keys + zlen sigs + zlen st + 3) as Hlen.
  { unfold stk. rewrite !zlen_cons, !zlen_app, !zlen_cons, zlen_app, zlen_cons. lia. }
  pose proof (zlen_nonneg keys). pose proof (zlen_nonneg sigs). pose proof (zlen_nonneg st).
  assert (forall z, 0 <= z <= 20 -> CScriptNum.getint z = z) as Hint.
  { intros z Hz. unfold CScriptNum.getint, INT32_MAX, INT32_MIN.
    replace (_ >? _) with false by lia. by replace (_ <? _) with false by lia. }
  erewrite bind_ret by (apply require_ok; cbn [stack]; lia).
  erewrite bind_ret by (by apply stacktop_ok). rewrite Enb.
  erewrite bind_ret by reflexivity. rewrite Hint by lia.
  replace (_ || _) with false by lia. erewrite bind_ret by reflexivity.
  erewrite bind_ret by reflexivity. erewrite bind_ret by reflexivity. erewrite bind_ret by reflexivity.
  cbn [nOpCount stack altstack vfExec pbegincodehash checker].
  replace (_ >? MAX_OPS_PER_SCRIPT) with false by lia. erewrite bind_ret by reflexivity.
  erewrite bind_ret by (apply require_ok; cbn [stack]; lia).
  erewrite bind_ret by (apply stacktop_ok; exact Em). rewrite Emb.
  erewrite bind_ret by reflexivity. rewrite Hint by lia.
  replace (_ || _) with false by lia. erewrite bind_ret by reflexivity.
  erewrite bind_ret by (apply require_ok; cbn [stack]; lia).
  erewrite bind_ret by reflexivity. replace (Z.to_nat (zlen sigs)) with (length sigs) by (unfold zlen; lia).
  erewrite bind_ret by (by apply drop_signatures_spec). cbn [pbegincodehash].
  replace (Z.to_nat (zlen keys)) with (length keys) by (unfold zlen; lia).
  erewrite bind_ret by exact Hloop.
  assert (stk = (nb :: keys ++ mb :: sigs) ++ dummy :: st) as -> by (unfold stk; cbn [app]; by rewrite <-app_assoc).
  replace (Z.to_nat (2 + zlen keys + 1 + zlen sigs - 1)) with (length (nb :: keys ++ mb :: sigs)).
  2:{ cbn [length]. rewrite length_app. cbn [length]. unfold zlen. lia. }
  erewrite bind_ret by apply pop_n_spec.
  erewrite bind_ret by (apply require_ok; cbn [stack]; rewrite zlen_cons; lia).
  erewrite bind_ret by (by apply stacktop_ok).
  replace (_ && _) with false; [done|]. symmetry.
  destruct (flag flags SCRIPT_VERIFY_NULLDUMMY); [|done]. by rewrite (Hd eq_refl).
Qed.
End multisig.

(** ** Witnesses *)

(** A checker that accepts a signature for the keys with the same first byte. *)
#[local] Instance prefix_checker : SigChecker unit :=
  fun vchSig vchPubKey _ _ _ _ _ _ => Some (bool_decide (take 1 vchSig = take 1 vchPubKey), tt).

Lemma P2PKH_spec_witness :
  let key := 2 :: replicate 32 7 in
  VerifyScript Crypto.Hash160 Crypto.Hash160 Crypto.Hash (sample_tx 1) 0 0 0
    (p2pkh_spend [2; 9] key) (p2pkh (Crypto.Hash160 key)) tt = Some (true, tt).
Proof.
  cbv zeta. rewrite P2PKH_spec.
  - rewrite bool_decide_true by done. reflexivity.
  - unfold zlen. by rewrite Crypto.length_Hash160.
  - by split.
  - by split.
Defined.

Lemma P2SH_spec_witness :
  VerifyScript Crypto.Hash160 Crypto.Hash160 Crypto.Hash (sample_tx 1) 0 SCRIPT_VERIFY_P2SH 0
    [81; 1; 81] (p2sh (Crypto.Hash160 [81])) tt = Some (true, tt).
Proof.
  rewrite (P2SH_spec _ _ _ _ _ _ _ _ [81; 1; 81] [81] [[1]] tt tt).
  - rewrite bool_decide_true by done. vm_compute. reflexivity.
  - reflexivity.
  - unfold zlen. by rewrite Crypto.length_Hash160.
  - reflexivity.
  - vm_compute. reflexivity.
  - reflexivity.
Defined.

(** A transaction locked until block 500, spending with a script locked until block 300. *)
Definition locked_tx : CTransaction :=
  Transaction 1 1546300800 [TxIn (OutPoint (uint256_of 7) 1) [] 0 []] [TxOut 5000000 [118; 169]] 500.

Lemma CLTV_locks_witness : IsFinal 1000 1600000000 locked_tx 300 1600000000 = false.
Proof.
  apply (CLTV_locks Crypto.Hash160 Crypto.Hash160 Crypto.Hash locked_tx 0
    SCRIPT_VERIFY_CHECKLOCKTIMEVERIFY 0 [44; 1] 300 [117; 81] [] [[1]] tt tt); reflexivity.
Defined.

Lemma CHECKMULTISIG_spec_witness :
  exists b, eval_checkmultisig (sample_tx 1) 0 0 0 false
      (EState ([3] :: [[7; 1]; [8; 1]; [9; 1]] ++ [2] :: [[7]; [9]] ++ [] :: [[5]]) [] [] [] 10 tt)
    = (Ret tt, EState (vchBool b :: [[5]]) [] [] [] (10 + 3) tt)
    /\ (b = true <-> signed (accepts (sample_tx 1) 0 0 0 []) [[7]; [9]] [[7; 1]; [8; 1]; [9; 1]]).
Proof.
  apply (CHECKMULTISIG_spec (sample_tx 1) 0 0 0 ltac:(intros; by eexists) [[7; 1]; [8; 1]; [9; 1]] [[7]; [9]]
    [3] [2] [] [[5]] [] [] [] 10); try reflexivity; try (vm_compute; discriminate).
Defined.

End StdScripts.
