(* ===== verification/Solver.v ===== *)
(** * Solver: recognising, building and signing standard scripts ([script/script.cpp])

    [Solver] with its templates, the destinations, [SetDestination], [SetAddress], [SetMultisig],
    [IsStandard], [IsMine], the [Extract...] functions, [SignSignature] and [CombineSignatures]. The
    key store is reached through the class [KeyStore], the virtual functions of [CKeyStore] these
    functions call; [CKey::Sign] is a parameter. Vectors are kept in the order of the C++ code, so a
    stack of the evaluator is reversed when it is handed over. *)
From stdpp Require Import strings.
From S2P Require Import Prelude ScriptNum Script Serialize Crypto Transaction Keys SigCheck Interpreter.
Import ScriptOpcodes Script_param Script_const CScript Tx.

(** The part of [CKeyStore] that script signing uses, over private keys [key] and the views [view] of
    malleable keys; key and script identifiers are hashes. *)
Class KeyStore (K key view : Type) : Type := {
  HaveKey : K -> bytes -> bool;
  GetKey : K -> bytes -> option key;
  GetPubKey : K -> bytes -> option bytes;
  GetCScript : K -> bytes -> option bytes;
  HaveWatchOnly : K -> bytes -> bool;
  CheckOwnership : K -> bytes -> bytes -> option view;
  CreatePrivKey : K -> bytes -> bytes -> option key }.

Module TxnOutputType.
Inductive txnouttype : Set :=
  | TX_NONSTANDARD | TX_PUBKEY | TX_PUBKEY_DROP | TX_PUBKEYHASH | TX_SCRIPTHASH | TX_MULTISIG
  | TX_NULL_DATA | TX_WITNESS_V0_SCRIPTHASH | TX_WITNESS_V0_KEYHASH | TX_WITNESS_UNKNOWN.
#[global] Instance txnouttype_eq_dec : EqDecision txnouttype.
Proof. solve_decision. Defined.

Definition GetTxnOutputType (t : txnouttype) : string :=
  match t with
  | TX_NONSTANDARD => "nonstandard"
  | TX_PUBKEY => "pubkey"
  | TX_PUBKEY_DROP => "pubkeydrop"
  | TX_PUBKEYHASH => "pubkeyhash"
  | TX_SCRIPTHASH => "scripthash"
  | TX_MULTISIG => "multisig"
  | TX_NULL_DATA => "nulldata"
  | TX_WITNESS_V0_KEYHASH => "witness_v0_keyhash"
  | TX_WITNESS_V0_SCRIPTHASH => "witness_v0_scripthash"
  | TX_WITNESS_UNKNOWN => "witness_unknown"
  end.
End TxnOutputType.

Module Solver.
Import TxnOutputType.

(** ** [Solver]: the templates *)

(** [mTemplates], in the order of the map's keys *)
Definition mTemplates : list (txnouttype * bytes) :=
  [(TX_PUBKEY, build [Op OP_PUBKEY; Op OP_CHECKSIG]);
   (TX_PUBKEY_DROP, build [Op OP_PUBKEY; Op OP_PUBKEY; Op OP_DROP; Op OP_CHECKSIG]);
   (TX_PUBKEYHASH, build [Op OP_DUP; Op OP_HASH160; Op OP_PUBKEYHASH; Op OP_EQUALVERIFY; Op OP_CHECKSIG]);
   (TX_MULTISIG, build [Op OP_SMALLINTEGER; Op OP_PUBKEYS; Op OP_SMALLINTEGER; Op OP_CHECKMULTISIG]);
   (TX_NULL_DATA, build [Op OP_RETURN; Op OP_SMALLDATA])].

(** The loop for [OP_PUBKEYS]: what the last [GetOp] left, and the solutions. *)
Fixpoint take_pubkeys (fuel : nat) (r1 : getop) (vSolutions : list bytes) : getop * list bytes :=
  match fuel with
  | O => (r1, vSolutions)
  | S fuel =>
      if (zlen (op_data r1) >=? 33) && (zlen (op_data r1) <=? 120) then
        let vSolutions := vSolutions ++ [op_data r1] in
        let r1 := GetScriptOp (op_pc r1) in
        if op_ok r1 then take_pubkeys fuel r1 vSolutions else (r1, vSolutions)
      else (r1, vSolutions)
  end.

(** The tests on one pair of instructions; [None] is the [break] of the comparison loop. *)
Definition match_op (r1 r2 : getop) (vSolutions : list bytes) : option (list bytes) :=
  let vch1 := op_data r1 in
  let opcode1 := op_code r1 in
  if op_code r2 =? OP_PUBKEY then
    if (zlen vch1 <? 33) || (zlen vch1 >? 120) then None else Some (vSolutions ++ [vch1])
  else if op_code r2 =? OP_PUBKEYHASH then
    if negb (zlen vch1 =? 20) then None else Some (vSolutions ++ [vch1])
  else if op_code r2 =? OP_SMALLINTEGER then
    if (opcode1 =? OP_0) || ((opcode1 >=? OP_1) && (opcode1 <=? OP_16))
    then n ← DecodeOP_N opcode1; Some (vSolutions ++ [[n]])
    else None
  else if op_code r2 =? OP_INTEGER then
    if zlen vch1 >? 4 then None
    else if CScriptNum.value_of vch1 <=? 16 then None else Some (vSolutions ++ [vch1])
  else if op_code r2 =? OP_SMALLDATA then
    if zlen vch1 >? 1024 then None else Some vSolutions
  else if negb (opcode1 =? op_code r2) || negb (bool_decide (vch1 = op_data r2)) then None
  else Some vSolutions.

(** The comparison with one template; each turn reads from [pc1], so its length is enough fuel. *)
Fixpoint match_loop (fuel : nat) (pc1 pc2 : bytes) (vSolutions : list bytes) : option (list bytes) :=
  match pc1, pc2 with
  | [], [] => Some vSolutions
  | _, _ =>
      match fuel with
      | O => None
      | S fuel =>
          let r1 := GetScriptOp pc1 in
          let r2 := GetScriptOp pc2 in
          if negb (op_ok r1) then None
          else if negb (op_ok r2) then None
          else if op_code r2 =? OP_PUBKEYS then
            let '(r1, vSolutions) := take_pubkeys (length pc1) r1 vSolutions in
            let r2 := GetScriptOp (op_pc r2) in
            if negb (op_ok r2) then None
            else vSolutions ← match_op r1 r2 vSolutions; match_loop fuel (op_pc r1) (op_pc r2) vSolutions
          else vSolutions ← match_op r1 r2 vSolutions; match_loop fuel (op_pc r1) (op_pc r2) vSolutions
      end
  end.

Definition match_template (script1 script2 : bytes) : option (list bytes) :=
  match_loop (length script1) script1 script2 [].

(** [front()[0]] and [back()[0]] of the solutions *)
Definition front0 (vSolutions : list bytes) : Z := at_ (default [] (head vSolutions)) 0.
Definition back0 (vSolutions : list bytes) : Z := at_ (default [] (last vSolutions)) 0.

(** The scan of the templates. *)
Fixpoint scan_templates (script : bytes) (ts : list (txnouttype * bytes)) : bool * txnouttype * list bytes :=
  match ts with
  | [] => (false, TX_NONSTANDARD, [])
  | (t, tplate) :: ts =>
      match match_template script tplate with
      | None => scan_templates script ts
      | Some vSolutions =>
          if bool_decide (t = TX_MULTISIG) then
            let m := front0 vSolutions in
            let n := back0 vSolutions in
            if (m <? 1) || (n <? 1) || (m >? n) || negb (zlen vSolutions - 2 =? n)
            then (false, t, vSolutions) else (true, t, vSolutions)
          else (true, t, vSolutions)
      end
  end.

(** [Solver(scriptPubKey, typeRet, vSolutionsRet)] *)
Definition Solver (scriptPubKey : bytes) : bool * txnouttype * list bytes :=
  if IsPayToScriptHash scriptPubKey then (true, TX_SCRIPTHASH, [take 20 (drop 2 scriptPubKey)])
  else if (zlen scriptPubKey >=? 1) && (at_ scriptPubKey 0 =? OP_RETURN) && IsPushOnly_from (drop 1 scriptPubKey)
  then (true, TX_NULL_DATA, [])
  else scan_templates scriptPubKey mTemplates.

Definition ScriptSigArgsExpected (t : txnouttype) (vSolutions : list bytes) : option Z :=
  match t with
  | TX_NONSTANDARD => Some (-1)
  | TX_NULL_DATA => Some 1
  | TX_PUBKEY | TX_PUBKEY_DROP => Some 1
  | TX_PUBKEYHASH => Some 2
  | TX_MULTISIG =>
      match vSolutions with
      | (m :: _) :: _ => Some (m + 1)
      | _ => Some (-1)
      end
  | TX_SCRIPTHASH => Some 1
  | _ => None
  end.

(** [Script_util::IsStandard]: the result and the type *)
Definition IsStandard (scriptPubKey : bytes) : bool * txnouttype :=
  let '(ok, whichType, vSolutions) := Solver scriptPubKey in
  if negb ok then (false, whichType)
  else
    let m := front0 vSolutions in
    let n := back0 vSolutions in
    if bool_decide (whichType = TX_MULTISIG) && (((n <? 1) || (n >? 3)) || ((m <? 1) || (m >? n)))
    then (false, whichType)
    else (negb (bool_decide (whichType = TX_NONSTANDARD)), whichType).

(** ** Destinations *)

(** [CPubKey(vch).GetID()] *)
Definition GetID (vch : bytes) : bytes := Crypto.Hash160 (CPubKey.data (CPubKey.Set_ vch)).

Inductive CTxDestination : Set :=
  | CNoDestination
  | CKeyID (h : bytes)
  | CScriptID (h : bytes)
  | WitnessV0KeyHash (h : bytes)
  | WitnessV0ScriptHash (h : bytes)
  | WitnessUnknown (version : Z) (program : bytes).

(** [SetDestination]; [None] when [EncodeOP_N] asserts. *)
Definition SetDestination (dest : CTxDestination) : option bytes :=
  match dest with
  | CNoDestination => Some []
  | CKeyID h =>
      let s := push_uint (push_opcode (push_opcode [] OP_DUP) OP_HASH160) h in
      Some (push_opcode (push_opcode s OP_EQUALVERIFY) OP_CHECKSIG)
  | CScriptID h => Some (push_opcode (push_uint (push_opcode [] OP_HASH160) h) OP_EQUAL)
  | WitnessV0KeyHash h | WitnessV0ScriptHash h => Some (push_data (push_opcode [] OP_0) h)
  | WitnessUnknown version program => op ← EncodeOP_N version; Some (push_data [op] program)
  end.

(** What [SetAddress] asks of a [CBitcoinAddress]; [GetVariant] stands for the one-time key pair made
    from the data of a pair address, [None] when the data is no malleable key. *)
Inductive CBitcoinAddress : Set :=
  | ScriptAddress (data : bytes)
  | PubKeyAddress (data : bytes)
  | PairAddress (data : bytes)
  | OtherAddress.

Definition SetAddress (GetVariant : bytes -> option (bytes * bytes)) (dest : CBitcoinAddress) : bytes :=
  match dest with
  | ScriptAddress data => push_opcode (push_data (push_opcode [] OP_HASH160) data) OP_EQUAL
  | PubKeyAddress data =>
      let s := push_data (push_opcode (push_opcode [] OP_DUP) OP_HASH160) data in
      push_opcode (push_opcode s OP_EQUALVERIFY) OP_CHECKSIG
  | PairAddress data =>
      match GetVariant data with
      | None => []
      | Some (R, pubKeyVariant) =>
          let s := push_data (push_data [] (CPubKey.data pubKeyVariant)) (CPubKey.data R) in
          push_opcode (push_opcode s OP_DROP) OP_CHECKSIG
      end
  | OtherAddress => []
  end.

(** [SetMultisig]; [None] when [EncodeOP_N] asserts. *)
Definition SetMultisig (nRequired : Z) (keys : list bytes) : option bytes :=
  m ← EncodeOP_N nRequired;
  n ← EncodeOP_N (s32 (zlen keys));
  let s := fold_left (fun s key => push_data s (CPubKey.data key)) keys [m] in
  Some (push_opcode (s ++ [n]) OP_CHECKMULTISIG).

(** [ExtractDestination] *)
Definition ExtractDestination (scriptPubKey : bytes) : option CTxDestination :=
  let '(ok, whichType, vSolutions) := Solver scriptPubKey in
  let sol0 := default [] (head vSolutions) in
  if negb ok then None
  else match whichType with
       | TX_PUBKEY => Some (CKeyID (GetID sol0))
       | TX_PUBKEYHASH => Some (CKeyID sol0)
       | TX_SCRIPTHASH => Some (CScriptID sol0)
       | _ => None
       end.

(** The solutions of a multisig script without the two counts *)
Definition multisig_keys (vSolutions : list bytes) : list bytes := take (length vSolutions - 2) (drop 1 vSolutions).

(** [ExtractDestinations]: result, type, addresses and number of signatures; the latter two are left
    alone by the caller's initial values when the result is false. *)
Definition ExtractDestinations (scriptPubKey : bytes) : bool * txnouttype * list CTxDestination * Z :=
  let '(ok, typeRet, vSolutions) := Solver scriptPubKey in
  if negb ok then (false, typeRet, [], 0)
  else match typeRet with
       | TX_NULL_DATA => (true, typeRet, [], 0)
       | TX_MULTISIG =>
           (true, typeRet, (fun k => CKeyID (GetID k)) <$> multisig_keys vSolutions, front0 vSolutions)
       | TX_PUBKEY_DROP => (true, typeRet, [], 1)
       | _ => match ExtractDestination scriptPubKey with
              | None => (false, typeRet, [], 1)
              | Some address => (true, typeRet, [address], 1)
              end
       end.

(** ** Signing *)

Section keystore.
Context {K key view : Type} `{!KeyStore K key view}.
(** [CKey::Sign] *)
Variable Sign : key -> bytes -> option bytes.

(** The tail shared by [Sign1] and [SignR]: the new script, [None] when they return false. *)
Definition push_signature (k : key) (hash : bytes) (nHashType : Z) (scriptSigRet : bytes) : option bytes :=
  vchSig ← Sign k hash; Some (push_data scriptSigRet (vchSig ++ [u8 nHashType])).

Definition Sign1 (address : bytes) (keystore : K) (hash : bytes) (nHashType : Z) (scriptSigRet : bytes) : option bytes :=
  k ← GetKey keystore address; push_signature k hash nHashType scriptSigRet.

Definition SignR (pubKey R : bytes) (keystore : K) (hash : bytes) (nHashType : Z) (scriptSigRet : bytes) : option bytes :=
  k ← CreatePrivKey keystore pubKey R; push_signature k hash nHashType scriptSigRet.

(** The loop of [SignN]: the signatures made and the script. *)
Fixpoint SignN_loop (keys : list bytes) (nRequired : Z) (keystore : K) (hash : bytes) (nHashType : Z)
    (nSigned : Z) (scriptSigRet : bytes) : Z * bytes :=
  match keys with
  | [] => (nSigned, scriptSigRet)
  | pubkey :: keys =>
      if nSigned <? nRequired then
        match Sign1 (GetID pubkey) keystore hash nHashType scriptSigRet with
        | Some scriptSigRet => SignN_loop keys nRequired keystore hash nHashType (nSigned + 1) scriptSigRet
        | None => SignN_loop keys nRequired keystore hash nHashType nSigned scriptSigRet
        end
      else (nSigned, scriptSigRet)
  end.

Definition SignN (multisigdata : list bytes) (keystore : K) (hash : bytes) (nHashType : Z) (scriptSigRet : bytes)
    : bool * bytes :=
  let nRequired := front0 multisigdata in
  let '(nSigned, scriptSigRet) :=
    SignN_loop (multisig_keys multisigdata) nRequired keystore hash nHashType 0 scriptSigRet in
  (nSigned =? nRequired, scriptSigRet).

(** [Solver(keystore, ...)]: result, [scriptSigRet] and [whichTypeRet]; [None] is the assertion. *)
Definition SolverSign (keystore : K) (scriptPubKey hash : bytes) (nHashType : Z)
    : option (bool * bytes * txnouttype) :=
  let '(ok, whichTypeRet, vSolutions) := Solver scriptPubKey in
  let sol i := default [] (vSolutions !! i) in
  let result o := match o with Some s => (true, s, whichTypeRet) | None => (false, [], whichTypeRet) end in
  if negb ok then Some (false, [], whichTypeRet)
  else match whichTypeRet with
       | TX_NONSTANDARD | TX_NULL_DATA => Some (false, [], whichTypeRet)
       | TX_PUBKEY => Some (result (Sign1 (GetID (sol 0%nat)) keystore hash nHashType []))
       | TX_PUBKEY_DROP =>
           Some (result (SignR (CPubKey.Set_ (sol 0%nat)) (CPubKey.Set_ (sol 1%nat)) keystore hash nHashType []))
       | TX_PUBKEYHASH =>
           Some (result (s ← Sign1 (sol 0%nat) keystore hash nHashType [];
                         let vch := default CPubKey.Invalidate (GetPubKey keystore (sol 0%nat)) in
                         Some (push_data s (CPubKey.data vch))))
       | TX_SCRIPTHASH => Some (result (GetCScript keystore (sol 0%nat)))
       | TX_MULTISIG =>
           let '(ok, s) := SignN vSolutions keystore hash nHashType (push_opcode [] OP_0) in
           Some (ok, s, whichTypeRet)
       | _ => None
       end.

(** [txin.set_scriptSig() = s] *)
Definition put_scriptSig (tx : CTransaction) (nIn : Z) (s : bytes) : CTransaction :=
  set_vin (alter (set_scriptSig s) (Z.to_nat nIn)) tx.

Section signature.
Context {C : Type} `{!SigChecker C}.
Variables RIPEMD160 SHA1 SHA256 : bytes -> bytes.

(** [SignSignature(keystore, fromPubKey, txTo, nIn, nHashType)]: the result and the transaction *)
Definition SignSignature (keystore : K) (fromPubKey : bytes) (txTo : CTransaction) (nIn nHashType : Z) (c : C)
    : option (bool * CTransaction * C) :=
  if negb (nIn <? zlen (vin txTo)) then None
  else
    hash ← SigCheck.SignatureHash fromPubKey txTo nIn nHashType;
    '(ok, s, whichType) ← SolverSign keystore fromPubKey hash nHashType;
    let txTo := put_scriptSig txTo nIn s in
    let verify txTo s :=
      '(ok, c) ← Interpreter.VerifyScript RIPEMD160 SHA1 SHA256 txTo nIn STRICT_FLAGS 0 s fromPubKey c;
      Some (ok, txTo, c) in
    if negb ok then Some (false, txTo, c)
    else if bool_decide (whichType = TX_SCRIPTHASH) then
      let subscript := s in
      hash2 ← SigCheck.SignatureHash subscript txTo nIn nHashType;
      '(ok, s, subType) ← SolverSign keystore subscript hash2 nHashType;
      let fSolved := ok && negb (bool_decide (subType = TX_SCRIPTHASH)) in
      let s := push_data s subscript in
      let txTo := put_scriptSig txTo nIn s in
      if negb fSolved then Some (false, txTo, c) else verify txTo s
    else verify txTo s.

(** [SignSignature(keystore, txFrom, ...)]: the three assertions, then the above *)
Definition SignSignature_from (keystore : K) (txFrom txTo : CTransaction) (nIn nHashType : Z) (c : C)
    : option (bool * CTransaction * C) :=
  txin ← vin txTo !! Z.to_nat nIn;
  txout ← vout txFrom !! Z.to_nat (op_n (prevout txin));
  hash ← GetHash txFrom;
  if bool_decide (op_hash (prevout txin) = hash)
  then SignSignature keystore (scriptPubKey txout) txTo nIn nHashType c
  else None.
End signature.

(** ** Ownership *)

Inductive isminetype : Set := MINE_NO | MINE_WATCH_ONLY | MINE_SPENDABLE.
#[local] Instance isminetype_eq_dec : EqDecision isminetype.
Proof. solve_decision. Defined.

Definition HaveKeys (pubkeys : list bytes) (keystore : K) : Z :=
  fold_left (fun n pubkey => if HaveKey keystore (GetID pubkey) then u32 (n + 1) else n) pubkeys 0.

(** [IsMine]: [fuel] bounds the nesting of pay-to-script-hash scripts in the key store. *)
Fixpoint IsMine (fuel : nat) (keystore : K) (scriptPubKey : bytes) : option isminetype :=
  match fuel with
  | O => None
  | S fuel =>
      let '(ok, whichType, vSolutions) := Solver scriptPubKey in
      let sol i := default [] (vSolutions !! i) in
      let watch := if HaveWatchOnly keystore scriptPubKey then MINE_WATCH_ONLY else MINE_NO in
      if negb ok then Some watch
      else match whichType with
           | TX_PUBKEY => Some (if HaveKey keystore (GetID (sol 0%nat)) then MINE_SPENDABLE else watch)
           | TX_PUBKEY_DROP =>
               Some (match CheckOwnership keystore (CPubKey.Set_ (sol 0%nat)) (CPubKey.Set_ (sol 1%nat)) with
                     | Some _ => MINE_SPENDABLE
                     | None => watch
                     end)
           | TX_PUBKEYHASH => Some (if HaveKey keystore (sol 0%nat) then MINE_SPENDABLE else watch)
           | TX_SCRIPTHASH =>
               match GetCScript keystore (sol 0%nat) with
               | None => Some watch
               | Some subscript =>
                   ret ← IsMine fuel keystore subscript;
                   Some (if bool_decide (ret = MINE_SPENDABLE) then ret else watch)
               end
           | TX_MULTISIG =>
               let keys := multisig_keys vSolutions in
               Some (if HaveKeys keys keystore =? zlen keys then MINE_SPENDABLE else watch)
           | _ => Some watch
           end
  end.

(** [CAffectedKeysVisitor]: [Process] and its visits of the destinations, with [fuel] as above *)
Fixpoint Process (fuel : nat) (keystore : K) (script : bytes) (vKeys : list bytes) : option (list bytes) :=
  match fuel with
  | O => None
  | S fuel =>
      let '(ok, _, vDest, _) := ExtractDestinations script in
      if negb ok then Some vKeys
      else foldl (fun acc dest =>
             vKeys ← acc;
             match dest with
             | CKeyID keyId => Some (if HaveKey keystore keyId then vKeys ++ [keyId] else vKeys)
             | CScriptID scriptId =>
                 match GetCScript keystore scriptId with
                 | Some script => Process fuel keystore script vKeys
                 | None => Some vKeys
                 end
             | _ => Some vKeys
             end) (Some vKeys) vDest
  end.
Definition ExtractAffectedKeys (fuel : nat) (keystore : K) (scriptPubKey : bytes) (vKeys : list bytes) : option (list bytes) :=
  Process fuel keystore scriptPubKey vKeys.

(** [ExtractAddress]: a pair address is made of the view that owns the keys. *)
Definition ExtractAddress (keystore : K) (scriptPubKey : bytes) : option (CTxDestination + view) :=
  let '(ok, whichType, vSolutions) := Solver scriptPubKey in
  let sol i := default [] (vSolutions !! i) in
  if negb ok then None
  else match whichType with
       | TX_PUBKEY => Some (inl (CKeyID (GetID (sol 0%nat))))
       | TX_PUBKEY_DROP => inr <$> CheckOwnership keystore (CPubKey.Set_ (sol 0%nat)) (CPubKey.Set_ (sol 1%nat))
       | TX_PUBKEYHASH => Some (inl (CKeyID (sol 0%nat)))
       | TX_SCRIPTHASH => Some (inl (CScriptID (sol 0%nat)))
       | _ => None
       end.
End keystore.

(** ** Combining signatures *)

Definition PushAll (values : list bytes) : bytes := fold_left push_data values [].

(** Insertion into a [std::set] of byte vectors, kept as its ordered elements. *)
Fixpoint set_insert (v : bytes) (l : list bytes) : list bytes :=
  match l with
  | [] => [v]
  | w :: l => if SigCheck.bytes_lt v w then v :: w :: l
              else if SigCheck.bytes_lt w v then w :: set_insert v l
              else w :: l
  end.

Section combine.
Context {C : Type} `{!SigChecker C}.
Variables RIPEMD160 SHA1 SHA256 : bytes -> bytes.
(** The clock read by the default constructor of [CTransaction] *)
Variable GetAdjustedTime : Z.
Variables (txTo : CTransaction) (nIn : Z).

(** The inner loop of [CombineMultisig]: the key that gets the signature. *)
Fixpoint assign (scriptPubKey sig : bytes) (keys : list bytes) (sigs : gmap bytes bytes) (c : C)
    : option (gmap bytes bytes * C) :=
  match keys with
  | [] => Some (sigs, c)
  | pubkey :: keys =>
      if bool_decide (is_Some (sigs !! pubkey)) then assign scriptPubKey sig keys sigs c
      else
        '(ok, c) ← CheckSig sig pubkey scriptPubKey txTo nIn 0 0 c;
        if (ok : bool) then Some (<[pubkey := sig]> sigs, c) else assign scriptPubKey sig keys sigs c
  end.

Fixpoint assign_all (scriptPubKey : bytes) (allsigs keys : list bytes) (sigs : gmap bytes bytes) (c : C)
    : option (gmap bytes bytes * C) :=
  match allsigs with
  | [] => Some (sigs, c)
  | sig :: allsigs =>
      '(sigs, c) ← assign scriptPubKey sig keys sigs c; assign_all scriptPubKey allsigs keys sigs c
  end.

(** The signatures in the order of the keys, at most [nSigsRequired] of them. *)
Fixpoint merge (keys : list bytes) (sigs : gmap bytes bytes) (nSigsHave nSigsRequired : Z) : list bytes :=
  match keys with
  | [] => []
  | k :: keys =>
      if nSigsHave <? nSigsRequired then
        match sigs !! k with
        | Some sig => sig :: merge keys sigs (nSigsHave + 1) nSigsRequired
        | None => merge keys sigs nSigsHave nSigsRequired
        end
      else []
  end.

Definition CombineMultisig (scriptPubKey : bytes) (vSolutions sigs1 sigs2 : list bytes) (c : C) : option (bytes * C) :=
  let nonempty := List.filter (fun v : bytes => negb (zlen v =? 0)) in
  let allsigs := fold_left (fun s v => set_insert v s) (nonempty sigs1 ++ nonempty sigs2) [] in
  if negb (zlen vSolutions >? 1) then None
  else
    let nSigsRequired := front0 vSolutions in
    let keys := multisig_keys vSolutions in
    '(sigs, c) ← assign_all scriptPubKey allsigs keys ∅ c;
    let have := merge keys sigs 0 nSigsRequired in
    let result := fold_left push_data have (push_opcode [] OP_0) in
    Some (result ++ replicate (Z.to_nat (nSigsRequired - zlen have)) (code OP_0), c).

(** [CombineSignatures(..., txType, vSolutions, sigs1, sigs2)]; the recursion drops an element of
    [sigs1], so its length is enough fuel. *)
Fixpoint CombineSignatures (fuel : nat) (scriptPubKey : bytes) (txType : txnouttype)
    (vSolutions sigs1 sigs2 : list bytes) (c : C) : option (bytes * C) :=
  let empty_at (l : option bytes) := match l with Some (_ :: _) => false | _ => true end in
  match txType with
  | TX_NONSTANDARD | TX_NULL_DATA =>
      Some (if zlen sigs1 >=? zlen sigs2 then PushAll sigs1 else PushAll sigs2, c)
  | TX_PUBKEY | TX_PUBKEY_DROP | TX_PUBKEYHASH =>
      Some (if empty_at (head sigs1) then PushAll sigs2 else PushAll sigs1, c)
  | TX_SCRIPTHASH =>
      if empty_at (last sigs1) then Some (PushAll sigs2, c)
      else if empty_at (last sigs2) then Some (PushAll sigs1, c)
      else
        let spk := default [] (last sigs1) in
        let '(_, txType2, vSolutions2) := Solver spk in
        match fuel with
        | O => None
        | S fuel =>
            '(result, c) ← CombineSignatures fuel spk txType2 vSolutions2
                             (take (length sigs1 - 1) sigs1) (take (length sigs2 - 1) sigs2) c;
            Some (push_data result spk, c)
        end
  | TX_MULTISIG => CombineMultisig scriptPubKey vSolutions sigs1 sigs2 c
  | _ => Some ([], c)
  end.

(** [CombineSignatures(..., scriptSig1, scriptSig2)] *)
Definition CombineSignatures_scripts (scriptPubKey scriptSig1 scriptSig2 : bytes) (c : C) : option (bytes * C) :=
  let '(_, txType, vSolutions) := Solver scriptPubKey in
  let eval s c :=
    Interpreter.EvalScript RIPEMD160 SHA1 SHA256 (CTransaction_SetNull GetAdjustedTime) 0 SCRIPT_VERIFY_STRICTENC 0 [] s c in
  '(_, stack1, c) ← eval scriptSig1 c;
  '(_, stack2, c) ← eval scriptSig2 c;
  CombineSignatures (length stack1) scriptPubKey txType vSolutions (rev stack1) (rev stack2) c.
End combine.

End Solver.
