(* ===== verification/SolverProps.v ===== *)
(** * SolverProps: what the recognised scripts are

    [Solver] classifies exactly by the instructions of the script, the scripts written for a
    destination or a set of keys are recognised as such, a data-carrying output can never be spent,
    and signing a pay-to-pubkey-hash output succeeds whenever the key is held. *)
From S2P Require Import Prelude ScriptNum Script Serialize Crypto Transaction Keys SigCheck Interpreter EvalProps StdScripts Solver.
Import ScriptOpcodes Script_param Script_const CScript Tx TxnOutputType Solver StdScripts.

Module SolverProps.

(** ** Reading a prefix of a script *)

Inductive reads : bytes -> list (Z * bytes) -> bytes -> Prop :=
  | reads_nil pc : reads pc [] pc
  | reads_cons pc ins pc' :
      op_ok (GetScriptOp pc) = true -> reads (op_pc (GetScriptOp pc)) ins pc' ->
      reads pc ((op_code (GetScriptOp pc), op_data (GetScriptOp pc)) :: ins) pc'.

Lemma reads_cons_inv pc i ins pc' :
  reads pc (i :: ins) pc' ->
  op_ok (GetScriptOp pc) = true /\ i = (op_code (GetScriptOp pc), op_data (GetScriptOp pc))
  /\ reads (op_pc (GetScriptOp pc)) ins pc'.
Proof. inversion 1; subst. done. Qed.

Lemma reads_nil_inv pc pc' : reads pc [] pc' -> pc' = pc.
Proof. by inversion 1. Qed.

Lemma reads_app_inv pc ins ins' pc'' :
  reads pc (ins ++ ins') pc'' -> exists pc', reads pc ins pc' /\ reads pc' ins' pc''.
Proof.
  revert pc. induction ins as [|i ins IH]; intros pc H.
  - exists pc. split; [constructor|done].
  - apply reads_cons_inv in H as (Hok & -> & (pc' & H1 & H2)%IH). exists pc'. split; [by constructor|done].
Qed.

Lemma reads_app pc ins pc' ins' pc'' : reads pc ins pc' -> reads pc' ins' pc'' -> reads pc (ins ++ ins') pc''.
Proof. induction 1; [done|]. intros H'. cbn [app]. constructor; auto. Qed.

Lemma reads_decode pc ins : reads pc ins [] -> decode pc = Some ins.
Proof.
  remember [] as e eqn:E. induction 1 as [|pc ins pc' Hok _ IH]; subst; [done|].
  rewrite decode_step by done. by rewrite IH.
Qed.

Lemma reads_one pc :
  op_ok (GetScriptOp pc) = true ->
  reads pc [(op_code (GetScriptOp pc), op_data (GetScriptOp pc))] (op_pc (GetScriptOp pc)).
Proof. intros H. apply reads_cons; [done|]. apply reads_nil. Qed.

(** ** One step of a comparison *)

Definition key_sized (k : bytes) : Prop := 33 <= zlen k <= 120.

(** What a template opcode demands of an instruction and adds to the solutions. *)
Definition fits (o : opcodetype) (i : Z * bytes) (sol : list bytes) : Prop :=
  match o with
  | OP_PUBKEY => key_sized i.2 /\ sol = [i.2]
  | OP_PUBKEYHASH => zlen i.2 = 20 /\ sol = [i.2]
  | OP_SMALLINTEGER => exists n, DecodeOP_N i.1 = Some n /\ sol = [[n]]
  | OP_SMALLDATA => zlen i.2 <= 1024 /\ sol = []
  | OP_INTEGER => zlen i.2 <= 4 /\ 16 < CScriptNum.value_of i.2 /\ sol = [i.2]
  | _ => i = (code o, []) /\ sol = []
  end.

Lemma DecodeOP_N_small opcode :
  is_Some (DecodeOP_N opcode) <-> (opcode =? OP_0) || ((opcode >=? OP_1) && (opcode <=? OP_16)) = true.
Proof.
  unfold DecodeOP_N. destruct (opcode =? OP_0), (_ && _); cbn [orb]; split; intros H; try done; try by eexists.
Qed.

Lemma match_op_fits r1 (o : opcodetype) pc2 sol sol' :
  match_op r1 (GetOpRet true pc2 o []) sol = Some sol' <->
  exists new, sol' = sol ++ new /\ fits o (op_code r1, op_data r1) new.
Proof.
  unfold match_op. cbn [op_code op_data].
  assert (forall b (e : bytes), e = [] ->
    (if negb (op_code r1 =? b) || negb (bool_decide (op_data r1 = e)) then None else Some sol) = Some sol'
    <-> exists new, sol' = sol ++ new /\ (op_code r1, op_data r1) = (b, []) /\ new = []) as Hexact.
  { intros b e ->. destruct (op_code r1 =? b) eqn:E; cbn [negb orb].
    - apply Z.eqb_eq in E. case_bool_decide as Ed; cbn [negb].
      + split; [intros [= <-]; exists []; rewrite app_nil_r, E, Ed; done|]. by intros (new & -> & _ & ->); rewrite app_nil_r.
      + split; [done|]. intros (new & _ & H & _). congruence.
    - apply Z.eqb_neq in E. split; [done|]. intros (new & _ & H & _). congruence. }
  destruct o; cbn -[zlen Z.geb Z.leb Z.gtb Z.ltb DecodeOP_N CScriptNum.value_of bool_decide]; try by apply Hexact. all: clear Hexact.
  - destruct (Z.gtb_spec (zlen (op_data r1)) 1024) as [Hg|Hg].
    { split; [done|]. intros (new & _ & Hf & _). lia. }
    split; [intros [= <-]; exists []; by rewrite app_nil_r|]. by intros (new & -> & _ & ->); rewrite app_nil_r.
  - destruct (_ || _) eqn:E.
    + destruct (proj2 (DecodeOP_N_small (op_code r1)) E) as [n Hn]. rewrite Hn. cbn.
      split; [intros [= <-]; exists [[n]]; split; [done|by exists n]|]. intros (new & -> & n' & [= <-] & ->). done.
    + split; [done|]. intros (new & _ & n & Hn & _).
      assert (is_Some (DecodeOP_N (op_code r1))) as Hs%DecodeOP_N_small by by eexists. exfalso. cbn in Hs. congruence.
  - destruct (Z.gtb_spec (zlen (op_data r1)) 4) as [Hg|Hg]; [|destruct (Z.leb_spec (CScriptNum.value_of (op_data r1)) 16)].
    + split; [done|]. intros (new & _ & Hf & _). lia.
    + split; [done|]. intros (new & _ & _ & Hf & _). lia.
    + split; [intros [= <-]; by exists [op_data r1]|]. by intros (new & -> & _ & _ & ->).
  - destruct (Z.eqb_spec (zlen (op_data r1)) 20) as [Hg|Hg]; cbn [negb].
    + split; [intros [= <-]; by exists [op_data r1]|]. by intros (new & -> & _ & ->).
    + split; [done|]. by intros (new & _ & Hf & _).
  - unfold key_sized. destruct (Z.ltb_spec (zlen (op_data r1)) 33), (Z.gtb_spec (zlen (op_data r1)) 120); cbn [orb];
      try (split; [done|]; intros (new & _ & Hf & _); lia).
    split; [intros [= <-]; by exists [op_data r1]|]. by intros (new & -> & _ & ->).
Qed.

(** The templates are lists of opcodes. *)
Definition template (ops : list opcodetype) : bytes := build (Op <$> ops).

Definition plain (o : opcodetype) : Prop := OP_PUSHDATA4 < o /\ o <> OP_PUBKEYS.

Lemma GetScriptOp_template (o : opcodetype) ops :
  OP_PUSHDATA4 < o -> zlen ops < 100 -> GetScriptOp (template (o :: ops)) = GetOpRet true (template ops) o [].
Proof.
  intros Ho Hl. unfold template. rewrite fmap_cons, build_cons.
  apply (GetScriptOp_write (Op o)); [by right|].
  rewrite zlen_app. pose proof (build_length (Op <$> ops)) as Hb. rewrite Forall_fmap in Hb.
  specialize (Hb (Forall_true _ _ (fun _ => I))). unfold zlen in *. rewrite length_fmap in Hb. cbn. lia.
Qed.

Lemma template_cons o ops : template (o :: ops) = u8 o :: template ops.
Proof. unfold template. rewrite fmap_cons, build_cons. done. Qed.

(** One turn of the comparison loop against an instruction other than [OP_PUBKEYS]. *)
Lemma match_loop_turn fuel pc1 o ops sol :
  OP_PUSHDATA4 < code o -> zlen ops < 100 ->
  match_loop (S fuel) pc1 (template (o :: ops)) sol =
  let r1 := GetScriptOp pc1 in
  if negb (op_ok r1) then None
  else if o =? OP_PUBKEYS then
    let '(r1, sol) := take_pubkeys (length pc1) r1 sol in
    let r2 := GetScriptOp (template ops) in
    if negb (op_ok r2) then None
    else sol ← match_op r1 r2 sol; match_loop fuel (op_pc r1) (op_pc r2) sol
  else sol ← match_op r1 (GetOpRet true (template ops) o []) sol; match_loop fuel (op_pc r1) (template ops) sol.
Proof.
  intros Ho Hl. pose proof (GetScriptOp_template o ops Ho Hl) as Hg.
  rewrite template_cons in *. destruct pc1; cbn [match_loop]; rewrite Hg; done.
Qed.

(** A comparison succeeds when the first opcode fits the first instruction and the rest does. *)
Lemma match_step fuel pc1 o ops sol sol' :
  plain o -> zlen ops < 100 ->
  match_loop (S fuel) pc1 (template (o :: ops)) sol = Some sol' <->
  op_ok (GetScriptOp pc1) = true /\
  exists new, fits o (op_code (GetScriptOp pc1), op_data (GetScriptOp pc1)) new
    /\ match_loop fuel (op_pc (GetScriptOp pc1)) (template ops) (sol ++ new) = Some sol'.
Proof.
  intros [Ho Hne] Hl. rewrite match_loop_turn by done. cbv zeta.
  destruct (op_ok (GetScriptOp pc1)); cbn [negb]; [|split; [done|by intros [? _]]].
  destruct (Z.eqb_spec o OP_PUBKEYS) as [E|_]; [by apply code_inj in E|].
  rewrite bind_Some. setoid_rewrite match_op_fits. split.
  - intros (x & (new & -> & Hf) & H). split; [done|]. by exists new.
  - intros (_ & new & Hf & H). exists (sol ++ new). split; [|done]. by exists new.
Qed.

Lemma match_end fuel pc1 sol sol' : match_loop fuel pc1 (template []) sol = Some sol' <-> pc1 = [] /\ sol' = sol.
Proof.
  split.
  - destruct pc1 as [|b pc1], fuel as [|fuel]; cbn [match_loop template]; try (intros [= <-]; done).
    cbn. destruct (op_ok _); done.
  - intros [-> ->]. by destruct fuel.
Qed.

(** No fuel, no match, unless both scripts are at their ends. *)
Lemma match_no_fuel pc1 o ops sol : match_loop 0 pc1 (template (o :: ops)) sol = None.
Proof. rewrite template_cons. by destruct pc1. Qed.

(** ** Runs of keys *)

Lemma take_pubkeys_sound fuel pc sol r' sol' :
  (length pc <= fuel)%nat -> op_ok (GetScriptOp pc) = true ->
  take_pubkeys fuel (GetScriptOp pc) sol = (r', sol') ->
  exists ks pc', reads pc ks pc' /\ r' = GetScriptOp pc' /\ sol' = sol ++ ks.*2 /\ Forall (fun i => key_sized i.2) ks.
Proof.
  revert pc sol. induction fuel as [|fuel IH]; intros pc sol Hf Hok H.
  { destruct pc; [done|simpl in Hf; lia]. }
  cbn [take_pubkeys] in H. destruct (_ && _) eqn:E.
  - pose proof (GetScriptOp_progress pc Hok). destruct (op_ok (GetScriptOp (op_pc (GetScriptOp pc)))) eqn:Hok2.
    + apply IH in H as (ks & pc' & Hr & -> & -> & Hall); [|lia|done].
      exists ((op_code (GetScriptOp pc), op_data (GetScriptOp pc)) :: ks), pc'. split_and!; [by constructor|done| |].
      * rewrite <-app_assoc. done.
      * constructor; [|done]. unfold key_sized. cbn. lia.
    + injection H as <- <-. eexists [_], _. split_and!; [by apply reads_one|done|done|].
      constructor; [|constructor]. unfold key_sized. cbn. lia.
  - injection H as <- <-. exists [], pc. split_and!; [constructor|done|by rewrite app_nil_r|constructor].
Qed.

Lemma take_pubkeys_complete fuel pc ks pc' sol :
  reads pc ks pc' -> Forall (fun i => key_sized i.2) ks -> (length pc <= fuel)%nat ->
  op_ok (GetScriptOp pc') = true -> ~ key_sized (op_data (GetScriptOp pc')) ->
  take_pubkeys fuel (GetScriptOp pc) sol = (GetScriptOp pc', sol ++ ks.*2).
Proof.
  intros Hr. revert fuel sol. induction Hr as [pc|pc ks pc' Hok Hr IH]; intros fuel sol Hall Hf Hok' Hn.
  - rewrite app_nil_r. destruct fuel as [|fuel]; [done|]. cbn [take_pubkeys]. destruct (_ && _) eqn:E; [|done].
    destruct Hn. unfold key_sized. lia.
  - apply Forall_cons_1 in Hall as [Hk Hall]. pose proof (GetScriptOp_progress pc Hok).
    destruct fuel as [|fuel]; [lia|]. cbn [take_pubkeys]. unfold key_sized in Hk. cbn in Hk.
    replace (_ && _) with true by lia.
    assert (op_ok (GetScriptOp (op_pc (GetScriptOp pc))) = true) as -> by (destruct Hr; done).
    rewrite IH by (done || lia). cbn. by rewrite <-app_assoc.
Qed.

(** ** Templates and instructions *)

Lemma decode_reads pc ins : decode pc = Some ins -> reads pc ins [].
Proof.
  remember (length pc) as n eqn:En. revert pc ins En. induction n as [n IH] using lt_wf_ind; intros pc ins -> H.
  destruct pc as [|b pc]; [injection H as <-; constructor|].
  destruct (op_ok (GetScriptOp (b :: pc))) eqn:Eok.
  - rewrite decode_step in H by done. apply fmap_Some in H as (ins' & H & ->). constructor; [done|].
    by apply (IH _ (GetScriptOp_progress _ Eok)).
  - unfold decode in H. cbn [decode_loop length] in H. by rewrite Eok in H.
Qed.

Lemma reads_length pc ins pc' : reads pc ins pc' -> (length ins + length pc' <= length pc)%nat.
Proof. induction 1 as [|pc ins pc' Hok _ IH]; [done|]. pose proof (GetScriptOp_progress pc Hok). simpl. lia. Qed.

Lemma match_plain ops fuel pc sol sol' :
  Forall plain ops -> zlen ops < 100 ->
  (match_loop fuel pc (template ops) sol = Some sol' <->
   exists ins news, reads pc ins [] /\ (length ins <= fuel)%nat /\ Forall3 fits ops ins news /\ sol' = sol ++ concat news).
Proof.
  intros Hops. revert fuel pc sol. induction Hops as [|o ops Ho Hops IH]; intros fuel pc sol Hl.
  { rewrite match_end. split.
    - intros [-> ->]. exists [], []. rewrite app_nil_r. split_and!; [constructor|simpl; lia|constructor|done].
    - intros (ins & news & Hr & _ & HF & ->). inversion HF; subst. rewrite app_nil_r. inversion Hr; subst. done. }
  rewrite zlen_cons in Hl. destruct fuel as [|fuel].
  { rewrite match_no_fuel. split; [done|]. intros (ins & news & _ & Hf & HF & _). inversion HF; subst. simpl in Hf. lia. }
  rewrite match_step by (done || lia). setoid_rewrite IH; [|lia]. split.
  - intros (Hok & new & Hf & ins & news & Hr & Hle & HF & ->).
    exists ((op_code (GetScriptOp pc), op_data (GetScriptOp pc)) :: ins), (new :: news).
    split_and!; [by constructor|simpl; lia|by constructor|cbn; by rewrite app_assoc].
  - intros (ins & news & Hr & Hle & HF & ->). inversion HF as [|? i new ? ins' news' Hfit HF']; subst.
    inversion Hr as [|? ? ? Hok Hr']; subst. split; [done|]. exists new. split; [done|].
    exists ins', news'. split_and!; [done|simpl in Hle; lia|done|cbn; by rewrite app_assoc].
Qed.

(** A template without [OP_PUBKEYS] matches the scripts whose instructions fit its opcodes one by one. *)
Lemma match_template_plain script ops sol :
  Forall plain ops -> zlen ops < 100 ->
  (match_template script (template ops) = Some sol <->
   exists ins news, decode script = Some ins /\ Forall3 fits ops ins news /\ sol = concat news).
Proof.
  intros Hops Hl. unfold match_template. rewrite match_plain by done. split.
  - intros (ins & news & Hr & _ & HF & ->). exists ins, news. by apply reads_decode in Hr.
  - intros (ins & news & Hd%decode_reads & HF & ->). exists ins, news. split_and!; [done| |done|done].
    apply reads_length in Hd. simpl in Hd. lia.
Qed.

Lemma DecodeOP_N_data pc n :
  op_ok (GetScriptOp pc) = true -> DecodeOP_N (op_code (GetScriptOp pc)) = Some n ->
  op_data (GetScriptOp pc) = [] /\ 0 <= n <= 16.
Proof.
  intros Hok Hn. assert (0 <= n <= 16) as Hb.
  { unfold DecodeOP_N in Hn. change (code OP_0) with 0 in Hn. change (code OP_1) with 81 in Hn.
    change (code OP_16) with 96 in Hn. repeat case_match; simplify_eq; lia. }
  split; [|done]. assert (is_Some (DecodeOP_N (op_code (GetScriptOp pc)))) as Hs%DecodeOP_N_small by by eexists.
  destruct pc as [|b pc]; [done|]. unfold GetScriptOp in *. change (code OP_PUSHDATA4) with 78 in *.
  change (code OP_0) with 0 in Hs. change (code OP_1) with 81 in Hs. change (code OP_16) with 96 in Hs.
  destruct (b <=? 78) eqn:E; [|done].
  destruct (GetScriptOp_size b pc) as [[sz pc']|] eqn:Es; [|done].
  destruct (u32 (zlen pc') <? sz) eqn:El; [done|]. cbn [op_code op_data] in *.
  assert (b = 0) as -> by lia. injection Es as <- <-. done.
Qed.

Lemma GetScriptOp_fail pc : op_ok (GetScriptOp pc) = false -> op_code (GetScriptOp pc) = OP_INVALIDOPCODE.
Proof. unfold GetScriptOp. repeat case_match; simplify_eq/=; done. Qed.

Definition multisig_ops : list opcodetype := [OP_SMALLINTEGER; OP_PUBKEYS; OP_SMALLINTEGER; OP_CHECKMULTISIG].

Lemma match_keys fuel pc sol sol' :
  match_loop (S fuel) pc (template (drop 1 multisig_ops)) sol = Some sol' <->
  exists ks pc' n, reads pc ks pc' /\ Forall (fun i => key_sized i.2) ks /\ op_ok (GetScriptOp pc') = true
    /\ DecodeOP_N (op_code (GetScriptOp pc')) = Some n
    /\ match_loop fuel (op_pc (GetScriptOp pc')) (template [OP_CHECKMULTISIG]) (sol ++ ks.*2 ++ [[n]]) = Some sol'.
Proof.
  cbn [drop multisig_ops]. rewrite match_loop_turn by done. cbv zeta.
  rewrite (GetScriptOp_template OP_SMALLINTEGER [OP_CHECKMULTISIG]) by done. cbn [op_ok op_pc negb].
  change (code OP_PUBKEYS =? code OP_PUBKEYS) with true. cbv iota. split.
  - destruct (op_ok (GetScriptOp pc)) eqn:Hok; cbn [negb]; [|done].
    destruct (take_pubkeys _ _ _) as [r1 sol1] eqn:E.
    apply take_pubkeys_sound in E as (ks & pc' & Hr & -> & -> & Hall); [|lia|done].
    rewrite bind_Some. intros (x & Hm & Hl). apply match_op_fits in Hm as (new & -> & n & Hn & ->). cbn [fst] in Hn.
    exists ks, pc', n. rewrite <-app_assoc in Hl. split_and!; [done|done| |done|done].
    destruct (op_ok (GetScriptOp pc')) eqn:Hok'; [done|]. by rewrite GetScriptOp_fail in Hn.
  - intros (ks & pc' & n & Hr & Hall & Hok' & Hn & Hl).
    assert (op_ok (GetScriptOp pc) = true) as -> by (destruct Hr; done). cbn [negb].
    rewrite (take_pubkeys_complete _ _ ks pc') by
      (done || (rewrite (proj1 (DecodeOP_N_data _ _ Hok' Hn)); unfold key_sized, zlen; simpl; lia)).
    rewrite bind_Some. exists ((sol ++ ks.*2) ++ [[n]]). split; [|by rewrite <-app_assoc].
    apply match_op_fits. exists [[n]]. split; [done|]. by exists n.
Qed.

(** The multisig template matches a small integer, keys, a small integer and [OP_CHECKMULTISIG]. *)
Lemma match_multisig script sol :
  match_template script (template multisig_ops) = Some sol <->
  exists i1 m ks i2 n,
    decode script = Some (i1 :: ks ++ [i2; (code OP_CHECKMULTISIG, [])])
    /\ DecodeOP_N i1.1 = Some m /\ Forall (fun i => key_sized i.2) ks /\ DecodeOP_N i2.1 = Some n
    /\ sol = [m] :: ks.*2 ++ [[n]].
Proof.
  unfold match_template, multisig_ops. split.
  - destruct (length script) as [|fuel]; [by rewrite match_no_fuel|].
    rewrite match_step by (split; done || done). intros (Hok & new & (m & Hm & ->) & H).
    destruct fuel as [|fuel]; [by rewrite match_no_fuel in H|].
    apply match_keys in H as (ks & pc' & n & Hr & Hall & Hok' & Hn & H).
    destruct fuel as [|fuel]; [by rewrite match_no_fuel in H|].
    apply match_step in H as (Hok3 & new & (Hi & ->) & H); [|split; done|done].
    apply match_end in H as [Hend ->]. rewrite app_nil_r. cbn [fst] in Hm.
    exists (op_code (GetScriptOp script), op_data (GetScriptOp script)), m, ks,
      (op_code (GetScriptOp pc'), op_data (GetScriptOp pc')), n. split_and!; [|done|done|done|done].
    apply reads_decode. apply reads_cons; [done|]. eapply reads_app; [done|].
    apply reads_cons; [done|]. rewrite <-Hi, <-Hend. by apply reads_one.
  - intros (i1 & m & ks & i2 & n & Hd%decode_reads & Hm & Hall & Hn & ->).
    pose proof (reads_length _ _ _ Hd) as Hlen. simpl in Hlen. rewrite length_app in Hlen. simpl in Hlen.
    destruct (length script) as [|[|[|fuel]]]; try lia. clear Hlen.
    apply reads_cons_inv in Hd as (Hok & -> & (pc' & Hr1 & Hr2)%reads_app_inv).
    apply reads_cons_inv in Hr2 as (Hok2 & -> & (Hok3 & Hi & Hend%reads_nil_inv)%reads_cons_inv).
    rewrite match_step by (split; done || done). split; [done|]. exists [[m]]. split; [by exists m|]. apply match_keys.
    exists ks, pc', n. split_and!; [done|done|done|done|]. apply match_step; [split; done|done|].
    split; [done|]. exists []. rewrite <-Hi. split; [done|]. rewrite app_nil_r, <-Hend. by apply match_end.
Qed.

(** ** The standard scripts *)

(** Splits a run of [Forall3] over explicit opcodes. *)
Ltac split_fits :=
  repeat match goal with
  | H : Forall3 fits (_ :: _) _ _ |- _ =>
      let Hf := fresh "Hfit" in inversion H as [|? [? ?] ? ? ? ? Hf ?]; subst; clear H; cbn [fits fst snd] in Hf
  | H : Forall3 fits [] _ _ |- _ => inversion H; subst; clear H
  | H : _ /\ _ |- _ => destruct H
  end.
Ltac template_side := repeat (apply Forall_cons_2; [split; done|]); apply Forall_nil_2.

Lemma match_pubkey script sol :
  match_template script (template [OP_PUBKEY; OP_CHECKSIG]) = Some sol <->
  exists c k, decode script = Some [(c, k); (code OP_CHECKSIG, [])] /\ key_sized k /\ sol = [k].
Proof.
  rewrite match_template_plain by (template_side || done). split.
  - intros (ins & news & Hd & HF & ->). split_fits. simplify_eq. eauto 6.
  - intros (c & k & Hd & Hk & ->). eexists _, [[k]; []]. split_and!; [done| |done].
    repeat (apply Forall3_cons; [done|]). apply Forall3_nil.
Qed.

Lemma match_pubkey_drop script sol :
  match_template script (template [OP_PUBKEY; OP_PUBKEY; OP_DROP; OP_CHECKSIG]) = Some sol <->
  exists c k c' r, decode script = Some [(c, k); (c', r); (code OP_DROP, []); (code OP_CHECKSIG, [])]
    /\ key_sized k /\ key_sized r /\ sol = [k; r].
Proof.
  rewrite match_template_plain by (template_side || done). split.
  - intros (ins & news & Hd & HF & ->). split_fits. simplify_eq. eauto 10.
  - intros (c & k & c' & r & Hd & Hk & Hr & ->). eexists _, [[k]; [r]; []; []]. split_and!; [done| |done].
    repeat (apply Forall3_cons; [done|]). apply Forall3_nil.
Qed.

Lemma match_pubkeyhash script sol :
  match_template script (template [OP_DUP; OP_HASH160; OP_PUBKEYHASH; OP_EQUALVERIFY; OP_CHECKSIG]) = Some sol <->
  exists c h, decode script = Some [(code OP_DUP, []); (code OP_HASH160, []); (c, h);
                                    (code OP_EQUALVERIFY, []); (code OP_CHECKSIG, [])]
    /\ zlen h = 20 /\ sol = [h].
Proof.
  rewrite match_template_plain by (template_side || done). split.
  - intros (ins & news & Hd & HF & ->). split_fits. simplify_eq. eauto 6.
  - intros (c & h & Hd & Hh & ->). eexists _, [[]; []; [h]; []; []]. split_and!; [done| |done].
    repeat (apply Forall3_cons; [done|]). apply Forall3_nil.
Qed.

Lemma match_null_data script sol :
  match_template script (template [OP_RETURN; OP_SMALLDATA]) = Some sol <->
  exists c d, decode script = Some [(code OP_RETURN, []); (c, d)] /\ zlen d <= 1024 /\ sol = [].
Proof.
  rewrite match_template_plain by (template_side || done). split.
  - intros (ins & news & Hd & HF & ->). split_fits. simplify_eq. eauto 6.
  - intros (c & d & Hd & Hk & ->). eexists _, [[]; []]. split_and!; [done| |done].
    repeat (apply Forall3_cons; [done|]). apply Forall3_nil.
Qed.

(** The scripts of each standard type, with their solutions. *)
Inductive standard (script : bytes) : txnouttype -> list bytes -> Prop :=
  | std_pubkey c k :
      decode script = Some [(c, k); (code OP_CHECKSIG, [])] -> key_sized k -> standard script TX_PUBKEY [k]
  | std_pubkey_drop c k c' r :
      decode script = Some [(c, k); (c', r); (code OP_DROP, []); (code OP_CHECKSIG, [])] ->
      key_sized k -> key_sized r -> standard script TX_PUBKEY_DROP [k; r]
  | std_pubkeyhash c h :
      decode script = Some [(code OP_DUP, []); (code OP_HASH160, []); (c, h);
                            (code OP_EQUALVERIFY, []); (code OP_CHECKSIG, [])] ->
      zlen h = 20 -> standard script TX_PUBKEYHASH [h]
  | std_scripthash h :
      script = [code OP_HASH160; 20] ++ h ++ [code OP_EQUAL] -> zlen h = 20 -> standard script TX_SCRIPTHASH [h]
  | std_multisig i1 m ks i2 n :
      decode script = Some (i1 :: ks ++ [i2; (code OP_CHECKMULTISIG, [])]) ->
      DecodeOP_N i1.1 = Some m -> DecodeOP_N i2.1 = Some n -> Forall (fun i => key_sized i.2) ks ->
      1 <= m <= n -> n = zlen ks -> standard script TX_MULTISIG ([m] :: ks.*2 ++ [[n]])
  | std_null_data rest :
      script = code OP_RETURN :: rest ->
      IsPushOnly rest = true \/ (exists c d, decode rest = Some [(c, d)] /\ zlen d <= 1024) ->
      standard script TX_NULL_DATA [].

(** The first byte of a script is the opcode of its first instruction. *)
Lemma decode_first script c d ins :
  decode script = Some ((c, d) :: ins) -> at_ script 0 = c /\ (d <> [] -> c <= 78).
Proof.
  intros (Hok & [= -> ->] & _)%decode_reads%reads_cons_inv. destruct script as [|b pc]; [done|].
  unfold GetScriptOp in *. change (code OP_PUSHDATA4) with 78 in *. cbn [at_].
  destruct (b <=? 78) eqn:E; [|done].
  destruct (GetScriptOp_size b pc) as [[sz pc']|]; [|done].
  destruct (u32 (zlen pc') <? sz); [done|]. cbn. split; [done|lia].
Qed.

Lemma IsPayToScriptHash_iff script :
  IsPayToScriptHash script = true <->
  exists h, script = [code OP_HASH160; 20] ++ h ++ [code OP_EQUAL] /\ zlen h = 20.
Proof.
  split.
  - unfold IsPayToScriptHash, zlen. intros H. exists (take 20 (drop 2 script)).
    assert (length script = 23%nat) as Hl by lia.
    do 23 (destruct script as [|? script]; [done|]). destruct script; [|done].
    cbn in H |- *. split; [|done]. repeat f_equal; lia.
  - intros (h & -> & Hh). change (([code OP_HASH160; 20] ++ h ++ [code OP_EQUAL])) with
      (write [] (Op OP_HASH160) ++ ([20] ++ h) ++ [code OP_EQUAL]).
    rewrite <-(IsPayToScriptHash_p2sh h Hh). unfold p2sh. rewrite !build_cons. f_equal. f_equal.
    cbn [write]. unfold push_data. rewrite Hh. done.
Qed.

Lemma not_scripthash script : at_ script 0 <> 169 -> IsPayToScriptHash script = false.
Proof. intros H. unfold IsPayToScriptHash. change (code OP_HASH160) with 169. lia. Qed.

Lemma not_data_output script : at_ script 0 <> 106 ->
  (zlen script >=? 1) && (at_ script 0 =? OP_RETURN) && IsPushOnly_from (drop 1 script) = false.
Proof. intros H. change (code OP_RETURN) with 106. destruct (Z.eqb_spec (at_ script 0) 106); [done|]. by rewrite andb_false_r. Qed.

Lemma back0_snoc l n : back0 (l ++ [[n]]) = n.
Proof. unfold back0. by rewrite last_snoc. Qed.

Lemma multisig_bounds_iff (m n : Z) (l : list bytes) :
  (m <? 1) || (n <? 1) || (m >? n) || negb (zlen l =? n) = false <-> 1 <= m <= n /\ n = zlen l.
Proof. rewrite !orb_false_iff, negb_false_iff, Z.eqb_eq, !Z.ltb_ge, Z.gtb_ltb, Z.ltb_ge. lia. Qed.

(** [None] of the five templates but the one looked for. *)
Lemma match_none script tplate (P : list bytes -> Prop) :
  (forall sol, match_template script tplate = Some sol <-> P sol) -> (forall sol, ~ P sol) ->
  match_template script tplate = None.
Proof. intros H Hn. destruct (match_template script tplate) as [sol|]; [|done]. destruct (Hn sol). by apply H. Qed.

Lemma key_sized_nil : ~ key_sized [].
Proof. unfold key_sized, zlen. simpl. lia. Qed.

Lemma key_code script c k ins : decode script = Some ((c, k) :: ins) -> key_sized k -> at_ script 0 <= 78.
Proof. intros Hd Hk. apply decode_first in Hd as [-> H]. apply H. intros ->. by apply key_sized_nil. Qed.

Lemma small_code opcode n : DecodeOP_N opcode = Some n -> opcode = 0 \/ 81 <= opcode <= 96.
Proof.
  intros H. assert (is_Some (DecodeOP_N opcode)) as Hs%DecodeOP_N_small by by eexists.
  change (code OP_0) with 0 in Hs. change (code OP_1) with 81 in Hs. change (code OP_16) with 96 in Hs. lia.
Qed.

Lemma Solver_standard script t sol : Solver script = (true, t, sol) -> standard script t sol.
Proof.
  unfold Solver. destruct (IsPayToScriptHash script) eqn:Ep.
  { intros [= <- <-]. apply IsPayToScriptHash_iff in Ep as (h & -> & Hh).
    replace (take 20 _) with h; [by eapply std_scripthash|].
    change (drop 2 _) with (h ++ [code OP_EQUAL]). rewrite take_app_length' by (unfold zlen in Hh; lia). done. }
  destruct (_ && IsPushOnly_from _) eqn:En.
  { intros [= <- <-]. apply andb_true_iff in En as [H1 H2]. destruct script as [|b script]; [done|].
    apply andb_true_iff in H1 as [_ H1%Z.eqb_eq].
    eapply (std_null_data _ script); [by f_equal|by left]. }
  clear Ep En. unfold mTemplates. cbn [scan_templates].
  destruct (match_template script _) as [s1|] eqn:E1.
  { intros [= <- <-]. apply match_pubkey in E1 as (c & k & Hd & Hk & ->). by eapply std_pubkey. }
  clear E1. destruct (match_template script _) as [s1|] eqn:E1.
  { intros [= <- <-]. apply match_pubkey_drop in E1 as (c & k & c' & r & Hd & Hk & Hr & ->). by eapply std_pubkey_drop. }
  clear E1. destruct (match_template script _) as [s1|] eqn:E1.
  { intros [= <- <-]. apply match_pubkeyhash in E1 as (c & h & Hd & Hh & ->). by eapply std_pubkeyhash. }
  clear E1. destruct (match_template script _) as [s1|] eqn:E1.
  { rewrite bool_decide_true by done. apply match_multisig in E1 as (i1 & m & ks & i2 & n & Hd & Hm & Hall & Hn & ->).
    rewrite app_comm_cons, back0_snoc. change (front0 _) with m.
    rewrite zlen_app, zlen_cons, (zlen_cons [n]), zlen_nil.
    replace (zlen (ks.*2) + 1 + (0 + 1) - 2) with (zlen (ks.*2)) by lia.
    destruct (_ || negb _) eqn:E; [done|]. intros [= <- <-]. apply multisig_bounds_iff in E as [Hmn Hk].
    eapply std_multisig; [done|done|done|done|done|]. unfold zlen in *. by rewrite length_fmap in Hk. }
  clear E1. destruct (match_template script _) as [s1|] eqn:E1; [|done].
  intros [= <- <-]. apply match_null_data in E1 as (c & d & Hd & Hk & ->).
  destruct script as [|b script]; [done|]. pose proof (proj1 (decode_first _ _ _ _ Hd)) as Hb. cbn in Hb. subst b.
  eapply (std_null_data _ script); [done|]. right. exists c, d. split; [|done].
  rewrite decode_step in Hd by by rewrite GetScriptOp_nonpush. rewrite GetScriptOp_nonpush in Hd by done. cbn in Hd.
  apply fmap_Some in Hd as (ins & Hd & [= <-]). done.
Qed.

Lemma mTemplates_eq : mTemplates =
  [(TX_PUBKEY, template [OP_PUBKEY; OP_CHECKSIG]);
   (TX_PUBKEY_DROP, template [OP_PUBKEY; OP_PUBKEY; OP_DROP; OP_CHECKSIG]);
   (TX_PUBKEYHASH, template [OP_DUP; OP_HASH160; OP_PUBKEYHASH; OP_EQUALVERIFY; OP_CHECKSIG]);
   (TX_MULTISIG, template multisig_ops);
   (TX_NULL_DATA, template [OP_RETURN; OP_SMALLDATA])].
Proof. reflexivity. Qed.

(** Refutes a template by the instructions of the script. *)
Ltac no_match :=
  intros ?sol; cbv beta; intros ?Hm;
  repeat match goal with H : exists _, _ |- _ => destruct H | H : _ /\ _ |- _ => destruct H end;
  simplify_eq; try done.

Lemma scan_pubkeyhash script c h :
  decode script = Some [(code OP_DUP, []); (code OP_HASH160, []); (c, h); (code OP_EQUALVERIFY, []); (code OP_CHECKSIG, [])] ->
  zlen h = 20 -> scan_templates script mTemplates = (true, TX_PUBKEYHASH, [h]).
Proof.
  intros Hd Hh. rewrite mTemplates_eq. cbn [scan_templates].
  rewrite (match_none _ _ _ (match_pubkey script)) by no_match.
  rewrite (match_none _ _ _ (match_pubkey_drop script)) by no_match.
  rewrite (proj2 (match_pubkeyhash script [h])) by eauto 6. done.
Qed.

Lemma scan_multisig script i1 m ks i2 n :
  decode script = Some (i1 :: ks ++ [i2; (code OP_CHECKMULTISIG, [])]) ->
  DecodeOP_N i1.1 = Some m -> DecodeOP_N i2.1 = Some n -> Forall (fun i => key_sized i.2) ks ->
  1 <= m <= n -> n = zlen ks -> scan_templates script mTemplates = (true, TX_MULTISIG, [m] :: ks.*2 ++ [[n]]).
Proof.
  intros Hd Hm Hn Hall Hmn Hlen.
  assert (forall ins, ins ++ [(code OP_CHECKSIG, [])] <> i1 :: ks ++ [i2; (code OP_CHECKMULTISIG, [])]) as Hne.
  { intros ins H. apply (f_equal last) in H. rewrite last_snoc in H.
    replace (i1 :: ks ++ [i2; (code OP_CHECKMULTISIG, [])]) with ((i1 :: ks ++ [i2]) ++ [(code OP_CHECKMULTISIG, [])]) in H
      by (cbn [app]; by rewrite <-app_assoc). by rewrite last_snoc in H. }
  rewrite mTemplates_eq. cbn [scan_templates].
  rewrite (match_none _ _ _ (match_pubkey script)).
   2:{ intros sol (c & k & Hd' & _). rewrite Hd in Hd'. apply (inj Some), symmetry in Hd'. by apply (Hne [(c, k)]). }
  rewrite (match_none _ _ _ (match_pubkey_drop script)).
   2:{ intros sol (c & k & c' & r & Hd' & _). rewrite Hd in Hd'. apply (inj Some), symmetry in Hd'.
      by apply (Hne [(c, k); (c', r); (code OP_DROP, [])]). }
  rewrite (match_none _ _ _ (match_pubkeyhash script)).
   2:{ intros sol (c & h & Hd' & _). rewrite Hd in Hd'. apply (inj Some), symmetry in Hd'.
      by apply (Hne [(code OP_DUP, []); (code OP_HASH160, []); (c, h); (code OP_EQUALVERIFY, [])]). }
  rewrite (proj2 (match_multisig script ([m] :: ks.*2 ++ [[n]]))) by eauto 10.
  rewrite bool_decide_true by done. rewrite app_comm_cons, back0_snoc. change (front0 _) with m.
  rewrite zlen_app, zlen_cons, (zlen_cons [n]), zlen_nil.
  replace (zlen (ks.*2) + 1 + (0 + 1) - 2) with (zlen (ks.*2)) by lia.
  rewrite (proj2 (multisig_bounds_iff m n (ks.*2))); [done|]. split; [done|]. unfold zlen in *. by rewrite length_fmap.
Qed.

Lemma standard_Solver script t sol : standard script t sol -> Solver script = (true, t, sol).
Proof.
  intros [c k Hd Hk|c k c' r Hd Hk Hr|c h Hd Hh|h -> Hh|i1 m ks i2 n Hd Hm Hn Hall Hmn Hlen|rest -> Hrest]; unfold Solver.
  - pose proof (key_code _ _ _ _ Hd Hk). rewrite not_scripthash, not_data_output by lia. rewrite mTemplates_eq. cbn [scan_templates].
    by rewrite (proj2 (match_pubkey script [k])) by eauto 6.
  - pose proof (key_code _ _ _ _ Hd Hk). rewrite not_scripthash, not_data_output by lia. rewrite mTemplates_eq. cbn [scan_templates].
    rewrite (match_none _ _ _ (match_pubkey script)) by no_match.
    by rewrite (proj2 (match_pubkey_drop script [k; r])) by eauto 10.
  - pose proof (proj1 (decode_first _ _ _ _ Hd)) as Hb. cbn in Hb.
    rewrite not_scripthash, not_data_output by lia. by eapply scan_pubkeyhash.
  - rewrite (proj2 (IsPayToScriptHash_iff _)) by eauto.
    change (drop 2 _) with (h ++ [code OP_EQUAL]). rewrite take_app_length' by (unfold zlen in Hh; lia). done.
  - destruct i1 as [c1 d1]. pose proof (proj1 (decode_first _ _ _ _ Hd)) as Hb. pose proof (small_code _ _ Hm) as Hs. cbn in Hs.
    rewrite not_scripthash, not_data_output by lia. by eapply scan_multisig.
  - rewrite not_scripthash by done. cbn [at_].
    destruct (_ && IsPushOnly_from _) eqn:E; [done|].
    destruct Hrest as [Hp|(c & d & Hd' & Hk)].
    { exfalso. unfold IsPushOnly in Hp. rewrite zlen_cons in E. pose proof (zlen_nonneg rest).
      change (drop 1 (code OP_RETURN :: rest)) with rest in E. rewrite Hp in E. cbn in E.
      replace (_ >=? 1) with true in E by lia. done. }
    clear E. assert (decode (code OP_RETURN :: rest) = Some [(code OP_RETURN, []); (c, d)]) as Hd.
    { rewrite decode_step by by rewrite GetScriptOp_nonpush. rewrite GetScriptOp_nonpush by done.
      cbn [op_pc op_code op_data]. by rewrite Hd'. }
    generalize dependent (code OP_RETURN :: rest). intros script Hd.
    rewrite mTemplates_eq. cbn [scan_templates].
    rewrite (match_none _ _ _ (match_pubkey script)) by (no_match; by apply key_sized_nil).
    rewrite (match_none _ _ _ (match_pubkey_drop script)) by no_match.
    rewrite (match_none _ _ _ (match_pubkeyhash script)) by no_match.
    rewrite (match_none _ _ _ (match_multisig script)).
     2:{ intros s0 (i1 & m & ks & i2 & n & Hd2 & Hm & _).
        rewrite Hd in Hd2. by simplify_eq. }
    by rewrite (proj2 (match_null_data script [])) by eauto 6.
Qed.

(** C34 (equivalence): [Solver] recognises exactly the scripts of [standard], each under its type and with its keys,
    hashes and counts as solutions. Pay-to-script-hash is recognised by its bytes: [OP_HASH160], a direct push of 20 bytes,
    [OP_EQUAL]; so a script that pushes the hash with [OP_PUSHDATA1] is none. Pay-to-pubkey, with or without a dropped parameter,
    pay-to-pubkey-hash and multisig scripts are recognised by their instructions, whatever opcodes push the keys and
    the hash; the counts of a multisig script are small integer opcodes, the first at least one and at most the second, which is the
    number of keys. And a data output is
    [OP_RETURN] followed by pushes only, or by any one instruction with at most 1024 bytes of data, also one that
    pushes nothing, where a comment of the code speaks of a push. *)
Theorem Solver_spec script t sol : Solver script = (true, t, sol) <-> standard script t sol.
Proof. split; [apply Solver_standard|apply standard_Solver]. Qed.

(** Every opcode beyond the pushes is taken for the data of an [OP_RETURN]. *)
Lemma null_data_nonpush c : 78 < c <= 255 -> Solver [code OP_RETURN; c] = (true, TX_NULL_DATA, []).
Proof.
  intros Hc. apply standard_Solver. apply (std_null_data _ [c]); [done|]. right. exists c, []. split; [|by vm_compute].
  rewrite decode_step by by rewrite GetScriptOp_nonpush by (change (78 < c); lia). by rewrite GetScriptOp_nonpush by (change (78 < c); lia).
Qed.

(** ** Destinations *)

Lemma push_uint_20 script h : zlen h = 20 -> push_uint script h = push_data script h.
Proof. intros H. unfold push_uint, push_data. rewrite H. by rewrite app_assoc. Qed.

Lemma SetDestination_key h : zlen h = 20 -> SetDestination (CKeyID h) = Some (p2pkh h).
Proof. intros H. cbn [SetDestination]. by rewrite push_uint_20. Qed.

Lemma SetDestination_script h : zlen h = 20 -> SetDestination (CScriptID h) = Some (p2sh h).
Proof. intros H. cbn [SetDestination]. by rewrite push_uint_20. Qed.

Lemma Solver_p2pkh h : zlen h = 20 -> Solver (p2pkh h) = (true, TX_PUBKEYHASH, [h]).
Proof.
  intros H. apply standard_Solver. eapply std_pubkeyhash; [|done].
  unfold p2pkh. rewrite decode_written; [done|items_ok|].
  eapply Z.le_lt_trans; [apply build_length; items_ok|]. done.
Qed.

(** The script made for a key hash or a script hash is recognised as paying to it,
    through the type [Solver] finds and as the destination extracted. *)
Lemma destination_roundtrip h :
  zlen h = 20 ->
  (exists s, SetDestination (CKeyID h) = Some s /\ ExtractDestination s = Some (CKeyID h)
             /\ ExtractDestinations s = (true, TX_PUBKEYHASH, [CKeyID h], 1))
  /\ (exists s, SetDestination (CScriptID h) = Some s /\ ExtractDestination s = Some (CScriptID h)
             /\ ExtractDestinations s = (true, TX_SCRIPTHASH, [CScriptID h], 1)).
Proof.
  intros H. rewrite SetDestination_key, SetDestination_script by done. split.
  - exists (p2pkh h). split; [done|]. unfold ExtractDestinations, ExtractDestination. by rewrite Solver_p2pkh.
  - exists (p2sh h). split; [done|]. unfold ExtractDestinations, ExtractDestination.
    rewrite (standard_Solver _ TX_SCRIPTHASH [h]); [done|]. apply std_scripthash; [|done].
    unfold p2sh. rewrite !build_cons. cbn [write]. unfold push_data. by rewrite H.
Qed.
Lemma destination_roundtrip_witness :
  (exists s, SetDestination (CKeyID (replicate 20 7)) = Some s
      /\ ExtractDestination s = Some (CKeyID (replicate 20 7))
      /\ ExtractDestinations s = (true, TX_PUBKEYHASH, [CKeyID (replicate 20 7)], 1))
  /\ (exists s, SetDestination (CScriptID (replicate 20 7)) = Some s
      /\ ExtractDestination s = Some (CScriptID (replicate 20 7))
      /\ ExtractDestinations s = (true, TX_SCRIPTHASH, [CScriptID (replicate 20 7)], 1)).
Proof. apply (destination_roundtrip (replicate 20 7)). reflexivity. Defined.

(** ** Multisig scripts *)

(** A key as [CPubKey] holds a valid one. *)
Definition valid_key (k : bytes) : Prop := CPubKey.IsValid k = true /\ zlen k = CPubKey.size k.

Lemma valid_key_sized k : valid_key k -> CPubKey.data k = k /\ key_sized k /\ zlen k <= 520.
Proof.
  intros [Hv Hs]. unfold CPubKey.data. rewrite take_ge by (unfold zlen in Hs; lia).
  unfold CPubKey.IsValid, CPubKey.size, CPubKey.GetLen in *. unfold key_sized. rewrite Hs.
  unfold CPubKey.COMPRESSED_PUBLIC_KEY_SIZE, CPubKey.PUBLIC_KEY_SIZE in *.
  destruct k as [|b k]; [done|]. repeat case_match; try done; split_and!; try lia; done.
Qed.

Lemma build_app l k : build (l ++ k) = build l ++ build k.
Proof. induction l as [|i l IH]; [done|]. cbn [app]. by rewrite !build_cons, IH, app_assoc. Qed.

Lemma push_keys keys script :
  Forall (fun k => CPubKey.data k = k) keys ->
  fold_left (fun s key => push_data s (CPubKey.data key)) keys script = script ++ build (Data <$> keys).
Proof.
  intros Hk. revert script. induction Hk as [|k keys Hk _ IH]; intros script; [by rewrite app_nil_r|].
  cbn [fold_left]. rewrite IH, fmap_cons, build_cons, Hk, push_data_app. cbn [write]. by rewrite <-app_assoc.
Qed.

Lemma SetMultisig_build m keys :
  1 <= m <= zlen keys -> zlen keys <= 16 -> Forall valid_key keys ->
  exists o1 o2, SetMultisig m keys = Some (build (Op o1 :: (Data <$> keys) ++ [Op o2; Op OP_CHECKMULTISIG]))
    /\ OP_PUSHDATA4 < o1 /\ OP_PUSHDATA4 < o2
    /\ DecodeOP_N o1 = Some m /\ DecodeOP_N o2 = Some (zlen keys).
Proof.
  intros Hm Hn Hk.
  assert (forall n, 1 <= n <= 16 -> exists o, EncodeOP_N n = Some (code o) /\ OP_PUSHDATA4 < o /\ DecodeOP_N o = Some n) as Henc.
  { intros n Hb. assert (n = 1 \/ n = 2 \/ n = 3 \/ n = 4 \/ n = 5 \/ n = 6 \/ n = 7 \/ n = 8 \/ n = 9 \/ n = 10
      \/ n = 11 \/ n = 12 \/ n = 13 \/ n = 14 \/ n = 15 \/ n = 16) as Hc by lia.
    exists (default OP_1 (find_opcode (80 + n))). by repeat destruct Hc as [->|Hc]; [..|subst]. }
  destruct (Henc m) as (o1 & E1 & H1 & D1); [lia|]. destruct (Henc (zlen keys)) as (o2 & E2 & H2 & D2); [lia|].
  exists o1, o2. split; [|done]. unfold SetMultisig. rewrite E1. cbn [base.mbind option_bind].
  rewrite Serialize.s32_small by (unfold INT32_MIN, INT32_MAX; pose proof (zlen_nonneg keys); lia).
  rewrite E2. cbn [base.mbind option_bind]. f_equal.
  rewrite push_keys by (eapply Forall_impl; [exact Hk|]; intros k ?; by apply valid_key_sized).
  rewrite build_cons, build_app, (build_cons (Op o2)), (build_cons (Op OP_CHECKMULTISIG)). unfold push_opcode. cbn [write push_opcode]. unfold push_opcode, u8.
  rewrite !Z.mod_small by apply code_byte. by rewrite <-!app_assoc.
Qed.

Lemma multisig_keys_eq v keys w : multisig_keys (v :: keys ++ [w]) = keys.
Proof.
  unfold multisig_keys. change (drop 1 (v :: keys ++ [w])) with (keys ++ [w]).
  cbn [length]. rewrite length_app. cbn [length]. apply take_app_length'. lia.
Qed.

(** The script made for [nRequired] of a list of valid keys is recognised as a
    multisig script, with the counts and the keys in their order as solutions, and the number of
    signatures it expects is [nRequired]. *)
Lemma multisig_roundtrip m keys :
  1 <= m <= zlen keys -> zlen keys <= 16 -> Forall valid_key keys ->
  exists s, SetMultisig m keys = Some s
    /\ Solver s = (true, TX_MULTISIG, [m] :: keys ++ [[zlen keys]])
    /\ ExtractDestinations s = (true, TX_MULTISIG, (fun k => CKeyID (GetID k)) <$> keys, m).
Proof.
  intros Hm Hn Hk. destruct (SetMultisig_build m keys Hm Hn Hk) as (o1 & o2 & E & H1 & H2 & D1 & D2).
  set (items := Op o1 :: (Data <$> keys) ++ [Op o2; Op OP_CHECKMULTISIG]) in *.
  exists (build items). split; [done|].
  assert (Forall item_ok items) as Hi.
  { apply Forall_cons_2; [by right|]. apply Forall_app. split; [by apply Forall_fmap, Forall_true|].
    apply Forall_cons_2; [by right|]. apply Forall_cons_2; [by right|]. apply Forall_nil_2. }
  assert (zlen (build items) < 2 ^ 32) as Hl.
  { eapply Z.le_lt_trans; [apply build_length|].
    - apply Forall_cons_2; [done|]. apply Forall_app. split; [|by repeat apply Forall_cons_2].
      apply Forall_fmap. eapply Forall_impl; [exact Hk|]. intros k ?. by apply valid_key_sized.
    - unfold items. rewrite zlen_cons, zlen_app. unfold zlen in *. rewrite length_fmap. cbn [length]. lia. }
  assert (Solver (build items) = (true, TX_MULTISIG, [m] :: keys ++ [[zlen keys]])) as HS.
  { assert (keys = (instruction <$> (Data <$> keys)).*2) as Ekeys.
    { rewrite <-!list_fmap_compose. symmetry. apply list_fmap_id. }
    rewrite Ekeys at 1. apply standard_Solver. apply (std_multisig _ (code o1, []) m _ (code o2, [])); try done.
    - rewrite decode_written by done. unfold items. by rewrite fmap_cons, fmap_app.
    - rewrite !Forall_fmap. eapply Forall_impl; [exact Hk|]. intros k ?. by apply valid_key_sized.
    - unfold zlen. by rewrite !length_fmap. }
  split; [done|]. unfold ExtractDestinations. rewrite HS. cbn [negb]. by rewrite multisig_keys_eq.
Qed.
Lemma multisig_roundtrip_witness :
  exists s, SetMultisig 1 [2 :: replicate 32 7; 3 :: replicate 32 9] = Some s
    /\ Solver s = (true, TX_MULTISIG, [1] :: [2 :: replicate 32 7; 3 :: replicate 32 9] ++ [[2]])
    /\ ExtractDestinations s =
       (true, TX_MULTISIG, (fun k => CKeyID (GetID k)) <$> [2 :: replicate 32 7; 3 :: replicate 32 9], 1).
Proof.
  apply (multisig_roundtrip 1 [2 :: replicate 32 7; 3 :: replicate 32 9]); [by vm_compute|by vm_compute|].
  repeat (apply Forall_cons_2; [by vm_compute|]). apply Forall_nil_2.
Defined.

(** ** Data-carrying outputs *)

(** An output [Solver] takes for a data carrier can never be spent: no input script,
    flags, transaction or signature checker makes [VerifyScript] succeed on it. *)
Theorem null_data_unspendable {C} `{!SigChecker C} RIPEMD160 SHA1 SHA256 txTo nIn flags nHashType
    scriptPubKey sol scriptSig c b c' :
  Solver scriptPubKey = (true, TX_NULL_DATA, sol) ->
  Interpreter.VerifyScript RIPEMD160 SHA1 SHA256 txTo nIn flags nHashType scriptSig scriptPubKey c = Some (b, c') ->
  b = false.
Proof.
  intros Hs H. apply Solver_standard in Hs. inversion Hs as [| | | | |rest -> _]; subst; clear Hs.
  assert (forall st c, exists st' c', Interpreter.EvalScript RIPEMD160 SHA1 SHA256 txTo nIn flags nHashType st
    (code OP_RETURN :: rest) c = Some (false, st', c')) as Hret.
  { intros st c0. unfold Interpreter.EvalScript. destruct (_ >? MAX_SCRIPT_SIZE); [by eexists _, _|].
    cbn [length Interpreter.eval_loop]. rewrite GetScriptOp_nonpush by done.
    cbn -[Interpreter.eval_loop]. by eexists _, _. }
  unfold Interpreter.VerifyScript in H.
  destruct (Interpreter.EvalScript _ _ _ _ _ _ _ [] scriptSig c) as [[[ok st] c1]|]; [|done].
  cbn [base.mbind option_bind] in H. destruct ok; cbn [negb] in H; [|by injection H].
  destruct (Hret st c1) as (st' & c2 & E). rewrite E in H. cbn in H. by injection H.
Qed.
Lemma null_data_unspendable_witness :
  Solver [106; 2; 7; 7] = (true, TX_NULL_DATA, []) /\ false = false.
Proof.
  split; [reflexivity|].
  apply (@null_data_unspendable unit (SigCheck.pure_checker SigCheck.toy_verify) Crypto.Hash160 Crypto.Hash160
    Crypto.Hash (sample_tx 1) 0 0 0 [106; 2; 7; 7] [] [81] tt false tt); vm_compute; reflexivity.
Defined.

(** ** Signing *)

(** Nothing is deleted from a script none of whose instructions starts with [b]. *)
Lemma FindAndDelete_absent script b :
  b <> [] -> (forall ins pc, reads script ins pc -> take (length b) pc <> b) -> FindAndDelete script b = (script, 0).
Proof.
  intros Hb Hno.
  assert (forall fuel pre pc n, (forall ins pc', reads pc ins pc' -> take (length b) pc' <> b) ->
    FindAndDelete_loop fuel b pre pc n = (pre ++ pc, n)) as Hloop.
  { induction fuel as [|fuel IH]; intros pre pc n H; [done|]. cbn [FindAndDelete_loop].
    assert (erase_while (length pc) b pc n = (pc, n)) as ->.
    { destruct (length pc); [done|]. cbn [erase_while]. rewrite (bool_decide_false (take _ _ = _)); [by rewrite andb_false_r|].
      apply (H []). constructor. }
    destruct (op_ok (GetScriptOp pc)) eqn:Hok; [|done]. rewrite IH.
    - destruct (GetScriptOp_suffix pc Hok) as (x & u & E). rewrite <-app_assoc.
      rewrite (take_suffix (x :: u)); [done|exact E].
    - intros ins pc' Hr. eapply H. by apply reads_cons. }
  unfold FindAndDelete. destruct b; [done|]. by rewrite Hloop.
Qed.

(** Reading a written script stops between two of its items. *)
Lemma reads_build items ins pc :
  Forall item_ok items -> zlen (build items) < 2 ^ 32 -> reads (build items) ins pc ->
  exists k, (k <= length items)%nat /\ pc = build (drop k items).
Proof.
  intros Hi. revert ins. induction Hi as [|i items Hi _ IH]; intros ins Hl Hr.
  - exists 0%nat. split; [done|]. destruct ins; [by apply reads_nil_inv in Hr|]. by apply reads_cons_inv in Hr as [? _].
  - destruct ins as [|? ins]; [apply reads_nil_inv in Hr; exists 0%nat; split; [lia|done]|].
    rewrite build_cons in *. apply reads_cons_inv in Hr as (_ & _ & Hr). rewrite GetScriptOp_write in Hr by done.
    apply IH in Hr as (k & Hk & ->); [exists (S k); simpl; split; [lia|done]|].
    rewrite zlen_app in Hl. pose proof (zlen_nonneg (write [] i)). lia.
Qed.

Lemma reads_p2pkh h ins pc :
  zlen h = 20 -> reads (p2pkh h) ins pc -> head pc ∈ [None; Some 118; Some 169; Some 20; Some 136; Some 172].
Proof.
  intros Hh Hr. apply reads_build in Hr as (k & Hk & ->); [|items_ok|].
  2:{ eapply Z.le_lt_trans; [apply build_length; items_ok|]. done. }
  do 6 (destruct k as [|k]; [cbn [drop]; rewrite ?build_cons; cbn [write]; unfold push_data; rewrite ?Hh; set_solver|]).
  simpl in Hk. lia.
Qed.

Lemma SignatureHash_scriptSig code tx nIn s nHashType :
  SigCheck.SignatureHash code (put_scriptSig tx nIn s) nIn nHashType = SigCheck.SignatureHash code tx nIn nHashType.
Proof.
  unfold SigCheck.SignatureHash, put_scriptSig. cbn [set_vin vin].
  replace (zlen (alter _ _ (vin tx))) with (zlen (vin tx)) by (unfold zlen; by rewrite length_alter).
  destruct (_ <=? nIn); [done|]. cbv zeta. set (sc := (FindAndDelete _ _).1).
  assert (SigCheck.blank_inputs sc (Z.to_nat nIn) (alter (set_scriptSig s) (Z.to_nat nIn) (vin tx))
    = SigCheck.blank_inputs sc (Z.to_nat nIn) (vin tx)) as E.
  { unfold SigCheck.blank_inputs. apply list_eq. intros i. rewrite !list_lookup_imap.
    destruct (decide (i = Z.to_nat nIn)) as [->|Hi].
    - rewrite list_lookup_alter_eq. by destruct (vin tx !! Z.to_nat nIn).
    - by rewrite list_lookup_alter_ne. }
  unfold set_vin at 2. cbn [vin]. unfold set_vin in *. cbn [nVersion nTime vin vout nLockTime]. by rewrite E.
Qed.
Lemma drop_signature_p2pkh h v : zlen h = 20 -> 21 <= zlen v <= 75 -> Interpreter.drop_signature (p2pkh h) v = p2pkh h.
Proof.
  intros Hh Hv. unfold Interpreter.drop_signature.
  assert (push_data [] v = zlen v :: v) as ->.
  { unfold push_data. change (code OP_PUSHDATA1) with 76. replace (zlen v <? 76) with true by lia.
    unfold u8. by rewrite Z.mod_small by lia. }
  rewrite FindAndDelete_absent; [done|done|]. intros ins pc Hr E. apply reads_p2pkh in Hr; [|done].
  assert (head pc = Some (zlen v)) as Hhd by (destruct pc; [done|]; by injection E as ->).
  rewrite Hhd in Hr. set_unfold in Hr. destruct Hr as [?|[?|[?|[?|[?|[?|?]]]]]]; simplify_eq; lia.
Qed.

Section sign.
Context {K key view : Type} `{!KeyStore K key view}.
Variable Sign : key -> bytes -> option bytes.
Variable Verify : bytes -> bytes -> bytes -> bool.
Variables RIPEMD160 SHA1 SHA256 : bytes -> bytes.

(** Whenever the key store holds the key of a pay-to-pubkey-hash output and its
    public key, and the key's signature of the signature hash verifies and is encoded as the strict
    flags demand, [SignSignature] succeeds: it fills in the signature and the public key, and the
    result passes its own verification, although the hash was computed before the input script was
    there and the evaluator first deletes the signature from the script it checks. *)
Lemma SignSignature_p2pkh keystore h k pk tx nIn nHashType hash sig :
  zlen h = 20 -> 0 <= nIn < zlen (vin tx) -> 0 < nHashType < 256 ->
  SigCheck.SignatureHash (p2pkh h) tx nIn nHashType = Some hash ->
  GetKey keystore h = Some k -> GetPubKey keystore h = Some pk ->
  valid_key pk -> Crypto.Hash160 pk = h -> SigEncoding.IsCanonicalPubKey pk STRICT_FLAGS = true ->
  Sign k hash = Some sig -> 20 <= zlen sig <= 74 -> Verify pk hash sig = true ->
  SigEncoding.IsCanonicalSignature (sig ++ [nHashType]) STRICT_FLAGS = true ->
  SignSignature Sign (SigChecker0 := SigCheck.pure_checker Verify) RIPEMD160 SHA1 SHA256 keystore (p2pkh h) tx nIn nHashType tt
  = Some (true, put_scriptSig tx nIn (p2pkh_spend (sig ++ [nHashType]) pk), tt).
Proof.
  intros Hh Hn Ht Hhash Hk Hpk Hv Hid Hcp Hs Hl Hver Hcs. unfold SignSignature.
  replace (nIn <? zlen (vin tx)) with true by lia. cbn [negb]. rewrite Hhash. cbn [base.mbind option_bind].
  destruct (valid_key_sized pk Hv) as (Hd & Hks & _). unfold key_sized in Hks.
  assert (SolverSign Sign keystore (p2pkh h) hash nHashType
    = Some (true, p2pkh_spend (sig ++ [nHashType]) pk, TX_PUBKEYHASH)) as ->.
  { unfold SolverSign. rewrite Solver_p2pkh by done. cbn -[p2pkh_spend push_data]. unfold Sign1, push_signature.
    rewrite Hk. cbn -[p2pkh_spend push_data]. rewrite Hs, Hpk. cbn -[p2pkh_spend push_data].
    unfold u8. rewrite Z.mod_small by lia. rewrite Hd. done. }
  cbn [base.mbind option_bind negb]. rewrite bool_decide_false by done.
  assert (zlen (sig ++ [nHashType]) = zlen sig + 1) as Hlen by (by rewrite zlen_snoc).
  rewrite VerifyScript_p2pkh by (done || lia). rewrite bool_decide_true, Hcs, Hcp by done. cbn [andb].
  rewrite drop_signature_p2pkh by lia. unfold CheckSig, SigCheck.pure_checker, SigCheck.CheckSig_prepare.
  assert (CPubKey.Set_ pk = pk) as ->.
  { destruct Hv as [Hv1 Hv2]. unfold CPubKey.Set_, CPubKey.IsValid, CPubKey.size in *.
    destruct pk as [|b pk]; [done|]. by replace (negb _ && _) with true by lia. }
  rewrite (proj1 Hv). cbn [negb]. destruct (sig ++ [nHashType]) as [|b v] eqn:E; [by destruct sig|]. rewrite <-E.
  rewrite CScriptNum.back_snoc, removelast_last. cbn [Z.eqb negb andb].
  rewrite SignatureHash_scriptSig, Hhash. cbn. by rewrite Hver.
Qed.
End sign.

(** A key store with one key, whose signatures are always the same. *)
#[local] Instance one_key_store : KeyStore bytes unit unit := {
  HaveKey pk h := bool_decide (Crypto.Hash160 pk = h);
  GetKey pk h := if bool_decide (Crypto.Hash160 pk = h) then Some tt else None;
  GetPubKey pk h := if bool_decide (Crypto.Hash160 pk = h) then Some pk else None;
  GetCScript _ _ := None;
  HaveWatchOnly _ _ := false;
  CheckOwnership _ _ _ := None;
  CreatePrivKey _ _ _ := None }.

Lemma SignSignature_p2pkh_witness :
  let pk := 2 :: replicate 32 7 in
  let h := Crypto.Hash160 pk in
  let sig := [48; 24; 2; 10] ++ replicate 10 1 ++ [2; 10] ++ replicate 10 2 in
  SignSignature (fun _ _ => Some sig) (SigChecker0 := SigCheck.pure_checker (fun _ _ _ => true))
    Crypto.Hash160 Crypto.Hash160 Crypto.Hash pk (p2pkh h) (sample_tx 1) 0 SIGHASH_ALL tt
  = Some (true, put_scriptSig (sample_tx 1) 0 (p2pkh_spend (sig ++ [SIGHASH_ALL]) pk), tt).
Proof.
  set (pk := 2 :: replicate 32 7). cbv zeta.
  assert (zlen (Crypto.Hash160 pk) = 20) as Hh by (unfold zlen; by rewrite Crypto.length_Hash160).
  destruct (SigCheck.SignatureHash_total (p2pkh (Crypto.Hash160 pk)) (sample_tx 1) 0 SIGHASH_ALL) as [hash E]; [by left|].
  apply (SignSignature_p2pkh (fun _ _ => Some _) (fun _ _ _ => true) _ _ _ pk _ tt pk _ _ _ hash).
  - exact Hh.
  - by vm_compute.
  - by vm_compute.
  - exact E.
  - cbn [GetKey one_key_store]. by rewrite bool_decide_true by reflexivity.
  - cbn [GetPubKey one_key_store]. by rewrite bool_decide_true by reflexivity.
  - by vm_compute.
  - reflexivity.
  - by vm_compute.
  - reflexivity.
  - by vm_compute.
  - reflexivity.
  - by vm_compute.
Defined.

End SolverProps.
