(* ===== verification/Inputs.v ===== *)
(** * Inputs: previous transactions, spending and unspending ([block/transaction.cpp])

    How a transaction finds the outputs it spends ([FetchInputs]), takes them over
    ([ConnectInputs]) and gives them back ([DisconnectInputs]); its standardness and coin age. *)
From stdpp Require Import strings.
From S2P Require Import Prelude ScriptNum Script Serialize Crypto Transaction BlockData LevelDB Keys SigCheck Interpreter Solver.
Import Tx BlockData Script_param.

Module Inputs.

(** The result of a fallible operation: a value, [return DoS(nDoS, ...)] (a plain [return false] has
    score 0), an exception, or a failed assertion. *)
Inductive res (A : Type) : Type := Ok (a : A) | Reject (nDoS : Z) | Throws | Aborts.
Arguments Ok {A}.
Arguments Reject {A}.
Arguments Throws {A}.
Arguments Aborts {A}.

Definition res_bind {A B} (m : res A) (k : A -> res B) : res B :=
  match m with Ok a => k a | Reject d => Reject d | Throws => Throws | Aborts => Aborts end.

Declare Scope res_scope.
Notation "'let!' x := m 'in' k" := (res_bind m (fun x => k))
  (at level 10, x binder, m at level 100, k at level 200) : res_scope.
Open Scope res_scope.

(** An exception, an assertion, a test that rejects *)
Definition or_throw {A} (o : option A) : res A := match o with Some a => Ok a | None => Throws end.
Definition or_abort {A} (o : option A) : res A := match o with Some a => Ok a | None => Aborts end.
Definition reject_if (b : bool) (nDoS : Z) : res unit := if b then Reject nDoS else Ok tt.

(** [MapPrevTx]: the index entry and the transaction of each hash *)
Abbreviation MapPrevTx := (gmap uint256 (CTxIndex * CTransaction)).

(** What the node's files, clocks and settings answer: the transaction at a position of the block
    files ([ReadFromDisk(pos)]), the time of the block at a position, the maturity and minimum age of
    the network, the time of the last checkpoint, and [GetTime]. *)
Record node : Type := Node {
  ReadTx : CDiskTxPos -> option CTransaction;
  ReadBlockTime : Z -> Z -> option Z;
  nCoinbaseMaturity : Z;
  nStakeMinAge : Z;
  GetLastCheckpointTime : Z;
  GetTime : Z
}.

(** The position that stands for a transaction in memory *)
Definition pos_memory : CDiskTxPos := DiskTxPos 1 1 1.

(** ** Outputs of the previous transactions *)

Definition GetOutputFor (input : CTxIn) (inputs : MapPrevTx) : res CTxOut :=
  let! p := or_throw (inputs !! op_hash (prevout input)) in
  or_throw (vout p.2 !! Z.to_nat (op_n (prevout input))).

Fixpoint GetValueIn_loop (inputs : MapPrevTx) (ins : list CTxIn) (nResult : Z) : res Z :=
  match ins with
  | [] => Ok nResult
  | i :: ins =>
      let! o := GetOutputFor i inputs in
      GetValueIn_loop inputs ins (s64 (nResult + nValue o))
  end.
Definition GetValueIn (tx : CTransaction) (inputs : MapPrevTx) : res Z :=
  if IsCoinBase tx then Ok 0 else GetValueIn_loop inputs (vin tx) 0.

Fixpoint GetP2SHSigOpCount_loop (inputs : MapPrevTx) (ins : list CTxIn) (nSigOps : Z) : res Z :=
  match ins with
  | [] => Ok nSigOps
  | i :: ins =>
      let! o := GetOutputFor i inputs in
      GetP2SHSigOpCount_loop inputs ins
        (if CScript.IsPayToScriptHash (scriptPubKey o)
         then u32 (nSigOps + CScript.GetSigOpCount_sig (scriptPubKey o) (scriptSig i)) else nSigOps)
  end.
Definition GetP2SHSigOpCount (tx : CTransaction) (inputs : MapPrevTx) : res Z :=
  if IsCoinBase tx then Ok 0 else GetP2SHSigOpCount_loop inputs (vin tx) 0.

(** ** Standard transactions *)

(** The first reason why an input or an output is not standard *)
Definition input_reason (i : CTxIn) : option string :=
  if zlen (scriptSig i) >? 1650 then Some "scriptsig-size"%string
  else if negb (CScript.IsPushOnly (scriptSig i)) then Some "scriptsig-not-pushonly"%string
  else if negb (CScript.HasCanonicalPushes (scriptSig i)) then Some "txin-scriptsig-not-canonicalpushes"%string
  else None.

Definition output_reason (o : CTxOut) : option string :=
  let '(ok, whichType) := Solver.IsStandard (scriptPubKey o) in
  if negb ok then Some "scriptpubkey"%string
  else if bool_decide (whichType = TxnOutputType.TX_NULL_DATA) then None
  else if nValue o =? 0 then Some "txout-value=0"%string
  else if negb (CScript.HasCanonicalPushes (scriptPubKey o)) then Some "txout-scriptsig-not-canonicalpushes"%string
  else None.

Fixpoint first_reason {A} (f : A -> option string) (l : list A) : option string :=
  match l with
  | [] => None
  | x :: l => match f x with Some r => Some r | None => first_reason f l end
  end.

(** [IsStandard(strReason)]: [None] when the transaction is standard. *)
Definition IsStandard (tx : CTransaction) : option string :=
  if nVersion tx >? CURRENT_VERSION then Some "version"%string
  else match first_reason input_reason (vin tx) with
  | Some r => Some r
  | None =>
      match first_reason output_reason (vout tx) with
      | Some r => Some r
      | None =>
          let nDataOut := zlen (filter (fun o => (Solver.IsStandard (scriptPubKey o)).2 = TxnOutputType.TX_NULL_DATA) (vout tx)) in
          if nDataOut >? 1 then Some "multi-op-return"%string else None
      end
  end.

(** ** Block rewards *)

Definition GENESIS_TIME_STAMP : Z := 1533549600.
Definition COIN_YEAR_REWARD : Z := 3 * block_params.CENT.
Definition POS_REWARD_BLOCK : list (Z * Z) := [(GENESIS_TIME_STAMP, 3 * block_params.CENT)].

(** The loop over the table, from the rate found so far *)
Fixpoint reward_rate (l : list (Z * Z)) (bTime nReward : Z) : Z :=
  match l with
  | [] => nReward
  | [d] => d.2
  | d1 :: (d2 :: _) as l' => if (d1.1 <=? bTime) && (bTime <? d2.1) then d1.2 else reward_rate l' bTime d1.2
  end.

Definition GetProofOfStakeReward (GetTime nCoinAge : Z) : Z :=
  let nReward := reward_rate POS_REWARD_BLOCK GetTime COIN_YEAR_REWARD in
  Z.quot (s64 (s64 (nCoinAge * nReward) * 33)) (365 * 33 + 8).

(** ** Script checks *)

Record CScriptCheck : Set := ScriptCheck {
  ck_scriptPubKey : bytes; ck_txTo : CTransaction; ck_nIn : nat; ck_nFlags : Z; ck_nHashType : Z }.

(** The constructor: an index out of range would read outside a vector. *)
Definition CScriptCheck_new (txFrom txTo : CTransaction) (nIn : nat) (nFlags nHashType : Z) : option CScriptCheck :=
  i ← vin txTo !! nIn; o ← vout txFrom !! Z.to_nat (op_n (prevout i));
  Some (ScriptCheck (scriptPubKey o) txTo nIn nFlags nHashType).

Section inputs.
Context {D : Type} `{!TxDB D}.
Context {C : Type} `{!SigChecker C}.
Variables RIPEMD160 SHA1 SHA256 : bytes -> bytes.
Variable nd : node.

(** [CScriptCheck::operator()] *)
Definition run_check (k : CScriptCheck) (c : C) : option (bool * C) :=
  i ← vin (ck_txTo k) !! ck_nIn k;
  Interpreter.VerifyScript RIPEMD160 SHA1 SHA256 (ck_txTo k) (Z.of_nat (ck_nIn k)) (ck_nFlags k) (ck_nHashType k)
    (scriptSig i) (ck_scriptPubKey k) c.

(** [block_check::manage::VerifySignature] *)
Definition VerifySignature (txFrom txTo : CTransaction) (nIn : nat) (flags nHashType : Z) (c : C) : option (bool * C) :=
  k ← CScriptCheck_new txFrom txTo nIn flags nHashType; run_check k c.

(** The checks of a list in order, as the script check threads run them *)
Fixpoint run_checks (ks : list CScriptCheck) (c : C) : option (bool * C) :=
  match ks with
  | [] => Some (true, c)
  | k :: ks => '(ok, c) ← run_check k c; if ok : bool then run_checks ks c else Some (false, c)
  end.

(** ** [AreInputsStandard] *)

(** The body of the loop for input [i]: whether the input is standard *)
Definition input_standard (tx : CTransaction) (mapInputs : MapPrevTx) (n : nat) (i : CTxIn) (c : C) : res (bool * C) :=
  let! prev := GetOutputFor i mapInputs in
  let '(solved, whichType, vSolutions) := Solver.Solver (scriptPubKey prev) in
  if negb solved then Ok (false, c)
  else match Solver.ScriptSigArgsExpected whichType vSolutions with
  | None => Ok (false, c)
  | Some nArgsExpected =>
      let! r := or_abort (Interpreter.EvalScript RIPEMD160 SHA1 SHA256 tx (Z.of_nat n) 0 0 [] (scriptSig i) c) in
      let '(ok, stack, c) := r in
      if negb ok then Ok (false, c)
      else
        let nArgsExpected :=
          if bool_decide (whichType = TxnOutputType.TX_SCRIPTHASH) then
            subscript ← head stack;
            let '(solved2, whichType2, vSolutions2) := Solver.Solver subscript in
            if negb solved2 || bool_decide (whichType2 = TxnOutputType.TX_SCRIPTHASH) then None
            else
              tmpExpected ← Solver.ScriptSigArgsExpected whichType2 vSolutions2;
              Some (nArgsExpected + tmpExpected)
          else Some nArgsExpected in
        match nArgsExpected with
        | None => Ok (false, c)
        | Some nArgsExpected => Ok (zlen stack =? u32 nArgsExpected, c)
        end
  end.

Fixpoint inputs_standard (tx : CTransaction) (mapInputs : MapPrevTx) (n : nat) (ins : list CTxIn) (c : C) :
    res (bool * C) :=
  match ins with
  | [] => Ok (true, c)
  | i :: ins =>
      let! r := input_standard tx mapInputs n i c in
      if r.1 : bool then inputs_standard tx mapInputs (S n) ins r.2 else Ok (false, r.2)
  end.

Definition AreInputsStandard (tx : CTransaction) (mapInputs : MapPrevTx) (c : C) : res (bool * C) :=
  if IsCoinBase tx then Ok (true, c) else inputs_standard tx mapInputs 0 (vin tx) c.

(** ** Coin age *)

(** [ReadFromDisk(txdb, prevout, txindexRet)] *)
Definition ReadFromDisk (txdb : D) (prevout : COutPoint) : res (option (CTransaction * CTxIndex)) :=
  let! t := or_abort (ReadTxIndex txdb (op_hash prevout)) in
  Ok (txindex ← t; tx ← ReadTx nd (pos txindex);
      if op_n prevout >=? zlen (vout tx) then None else Some (tx, txindex)).

(** The sum in cent-seconds over the inputs; [Reject] is the result [false]. *)
Fixpoint GetCoinAge_loop (txdb : D) (nTime_ : Z) (ins : list CTxIn) (bnCentSecond : Z) : res Z :=
  match ins with
  | [] => Ok bnCentSecond
  | i :: ins =>
      let! r := ReadFromDisk txdb (prevout i) in
      match r with
      | None => GetCoinAge_loop txdb nTime_ ins bnCentSecond
      | Some (txPrev, txindex) =>
          if nTime_ <? nTime txPrev then Reject 0
          else match ReadBlockTime nd (nFile (pos txindex)) (nBlockPos (pos txindex)) with
          | None => Reject 0
          | Some t =>
              if t + nStakeMinAge nd >? nTime_ then GetCoinAge_loop txdb nTime_ ins bnCentSecond
              else
                let! o := or_abort (vout txPrev !! Z.to_nat (op_n (prevout i))) in
                GetCoinAge_loop txdb nTime_ ins
                  (bnCentSecond + Z.quot (nValue o * (nTime_ - nTime txPrev)) block_params.CENT)
          end
      end
  end.

(** [getuint64] keeps the low 64 bits of the magnitude. *)
Definition GetCoinAge (txdb : D) (tx : CTransaction) : res Z :=
  if IsCoinBase tx then Ok 0
  else
    let! bnCentSecond := GetCoinAge_loop txdb (nTime tx) (vin tx) 0 in
    let bnCoinDay := Z.quot (Z.quot (bnCentSecond * block_params.CENT) block_params.COIN) (24 * 60 * 60) in
    Ok (u64 (Z.abs bnCoinDay)).

(** ** [FetchInputs] *)

(** The entry and the transaction for the hash of one outpoint. [mempool] is the pool's [mapTx]. *)
Definition fetch_one (txdb : D) (mempool : gmap uint256 CTransaction) (mapTestPool : gmap uint256 CTxIndex)
    (fBlock fMiner : bool) (hash : uint256) : res (CTxIndex * CTransaction) :=
  let! found :=
    (match (if fBlock || fMiner then mapTestPool !! hash else None) with
     | Some t => Ok (Some t)
     | None => or_abort (ReadTxIndex txdb hash)
     end) in
  let from_pool : res CTransaction :=
    match mempool !! hash with None => Reject 0 | Some tx => Ok tx end in
  match found with
  | None =>
      if fBlock || fMiner then Reject 0
      else
        let! txPrev := from_pool in
        Ok (TxIndex (pos CTxIndex_SetNull) (replicate (length (vout txPrev)) CDiskTxPos_SetNull), txPrev)
  | Some txindex =>
      if bool_decide (pos txindex = pos_memory) then
        let! txPrev := from_pool in Ok (txindex, txPrev)
      else match ReadTx nd (pos txindex) with
      | None => Reject 0
      | Some txPrev => Ok (txindex, txPrev)
      end
  end.

Fixpoint fetch_all (txdb : D) (mempool : gmap uint256 CTransaction) (mapTestPool : gmap uint256 CTxIndex)
    (fBlock fMiner : bool) (ins : list CTxIn) (inputsRet : MapPrevTx) : res MapPrevTx :=
  match ins with
  | [] => Ok inputsRet
  | i :: ins =>
      let hash := op_hash (prevout i) in
      if bool_decide (is_Some (inputsRet !! hash))
      then fetch_all txdb mempool mapTestPool fBlock fMiner ins inputsRet
      else
        let! p := fetch_one txdb mempool mapTestPool fBlock fMiner hash in
        fetch_all txdb mempool mapTestPool fBlock fMiner ins (<[hash := p]> inputsRet)
  end.

(** [prevout.n] is an output of the previous transaction and a slot of its entry. *)
Definition in_range (p : CTxIndex * CTransaction) (n : Z) : bool :=
  negb ((n >=? zlen (vout p.2)) || (n >=? zlen (vSpent p.1))).

Fixpoint fetch_valid (inputsRet : MapPrevTx) (ins : list CTxIn) : res unit :=
  match ins with
  | [] => Ok tt
  | i :: ins =>
      let! p := or_abort (inputsRet !! op_hash (prevout i)) in
      if negb (in_range p (op_n (prevout i))) then Reject 100 else fetch_valid inputsRet ins
  end.

(** The inputs, and [fInvalid] *)
Definition FetchInputs (txdb : D) (mempool : gmap uint256 CTransaction) (mapTestPool : gmap uint256 CTxIndex)
    (tx : CTransaction) (fBlock fMiner : bool) (inputsRet : MapPrevTx) : res MapPrevTx * bool :=
  if IsCoinBase tx then (Ok inputsRet, false)
  else match fetch_all txdb mempool mapTestPool fBlock fMiner (vin tx) inputsRet with
  | Ok inputs =>
      match fetch_valid inputs (vin tx) with
      | Ok _ => (Ok inputs, false)
      | Reject d => (Reject d, true)
      | Throws => (Throws, false)
      | Aborts => (Aborts, false)
      end
  | r => (r, false)
  end.

(** ** [ConnectInputs] *)

(** The coinbase maturity loop over the chain that ends in the block [best] *)
Fixpoint immature (best : Z) (chain : list CBlockIndex) (p : CDiskTxPos) : bool :=
  match chain with
  | [] => false
  | b :: chain =>
      if best - bi_nHeight b <? nCoinbaseMaturity nd then
        if (bi_nBlockPos b =? nBlockPos p) && (bi_nFile b =? nFile p) then true else immature best chain p
      else false
  end.
Definition IsImmature (chain : list CBlockIndex) (p : CDiskTxPos) : bool :=
  match chain with [] => false | b :: _ => immature (bi_nHeight b) chain p end.

(** One turn of the first loop: the checks of an input, and the sum of the input values *)
Definition check_input (tx : CTransaction) (chain : list CBlockIndex) (inputs : MapPrevTx) (i : CTxIn)
    (nValueIn : Z) : res Z :=
  let! p := or_abort (inputs !! op_hash (prevout i)) in
  let! _ := reject_if (negb (in_range p (op_n (prevout i)))) 100 in
  let! _ := reject_if ((IsCoinBase p.2 || IsCoinStake p.2) && IsImmature chain (pos p.1)) 0 in
  let! _ := reject_if (nTime p.2 >? nTime tx) 100 in
  let! o := or_abort (vout p.2 !! Z.to_nat (op_n (prevout i))) in
  let nValueIn := s64 (nValueIn + nValue o) in
  let! _ := reject_if (negb (MoneyRange (nValue o)) || negb (MoneyRange nValueIn)) 100 in
  Ok nValueIn.

Fixpoint check_inputs (tx : CTransaction) (chain : list CBlockIndex) (inputs : MapPrevTx) (ins : list CTxIn)
    (nValueIn : Z) : res Z :=
  match ins with
  | [] => Ok nValueIn
  | i :: ins => let! v := check_input tx chain inputs i nValueIn in check_inputs tx chain inputs ins v
  end.

(** The state of the second loop: the local copy of the inputs, the test pool and the deferred checks
    of the caller, and the signature checker *)
Record cstate : Type := CState {
  cs_inputs : MapPrevTx; cs_pool : gmap uint256 CTxIndex; cs_checks : list CScriptCheck; cs_checker : C }.

(** The script check of an input: deferred, or run at once; a failure is punished only when the
    script fails without the strict flags as well. *)
Definition script_check (txPrev tx : CTransaction) (n : nat) (flags : Z) (pvChecks : bool) (st : cstate) :
    res unit * cstate :=
  match CScriptCheck_new txPrev tx n flags 0 with
  | None => (Aborts, st)
  | Some check =>
      if pvChecks then (Ok tt, CState (cs_inputs st) (cs_pool st) (cs_checks st ++ [check]) (cs_checker st))
      else
        let with_checker c := CState (cs_inputs st) (cs_pool st) (cs_checks st) c in
        match run_check check (cs_checker st) with
        | None => (Aborts, st)
        | Some (true, c) => (Ok tt, with_checker c)
        | Some (false, c) =>
            if flag flags STRICT_FLAGS then
              match VerifySignature txPrev tx n (Z.land flags (Z.lnot STRICT_FLAGS)) 0 c with
              | None => (Aborts, with_checker c)
              | Some (true, c) => (Reject 0, with_checker c)
              | Some (false, c) => (Reject 100, with_checker c)
              end
            else (Reject 100, with_checker c)
        end
  end.

(** The slot of the outpoint is set in the entry of its hash. *)
Definition mark_spent (p : CTxIndex) (n : Z) (posThisTx : CDiskTxPos) : CTxIndex :=
  TxIndex (pos p) (<[Z.to_nat n := posThisTx]> (vSpent p)).

(** One turn of the second loop *)
Definition spend_input (tx : CTransaction) (posThisTx : CDiskTxPos) (fBlock fMiner fScriptChecks : bool)
    (flags : Z) (pvChecks : bool) (n : nat) (i : CTxIn) (st : cstate) : res unit * cstate :=
  let hash := op_hash (prevout i) in
  match cs_inputs st !! hash with
  | None => (Aborts, st)
  | Some (txindex, txPrev) =>
      match vSpent txindex !! Z.to_nat (op_n (prevout i)) with
      | None => (Aborts, st)
      | Some spent =>
          if negb (CDiskTxPos_IsNull spent) then (Reject 0, st)
          else
            let '(r, st) := if fScriptChecks then script_check txPrev tx n flags pvChecks st else (Ok tt, st) in
            match r with
            | Ok _ =>
                let txindex := mark_spent txindex (op_n (prevout i)) posThisTx in
                (Ok tt, CState (<[hash := (txindex, txPrev)]> (cs_inputs st))
                          (if fBlock || fMiner then <[hash := txindex]> (cs_pool st) else cs_pool st)
                          (cs_checks st) (cs_checker st))
            | r => (r, st)
            end
      end
  end.

Fixpoint spend_inputs (tx : CTransaction) (posThisTx : CDiskTxPos) (fBlock fMiner fScriptChecks : bool)
    (flags : Z) (pvChecks : bool) (n : nat) (ins : list CTxIn) (st : cstate) : res unit * cstate :=
  match ins with
  | [] => (Ok tt, st)
  | i :: ins =>
      match spend_input tx posThisTx fBlock fMiner fScriptChecks flags pvChecks n i st with
      | (Ok _, st) => spend_inputs tx posThisTx fBlock fMiner fScriptChecks flags pvChecks (S n) ins st
      | (r, st) => (r, st)
      end
  end.

(** The member [GetSerializeSize()] asserts that the version is 1. *)
Definition GetSerializeSize_member (tx : CTransaction) : option Z :=
  if nVersion tx =? 1 then GetSerializeSize tx else None.

(** The amounts at the end: a coinstake earns at most its reward, other transactions pay a fee. *)
Definition check_amounts (txdb : D) (tx : CTransaction) (nValueIn : Z) : res unit :=
  if IsCoinStake tx then
    if nTime tx >? GetLastCheckpointTime nd then
      let! nTxSize := or_abort (GetSerializeSize_member tx) in
      let! nCoinAge := GetCoinAge txdb tx in
      let! nValueOut := or_throw (GetValueOut tx) in
      let nReward := s64 (nValueOut - nValueIn) in
      let nCalculatedReward :=
        s64 (s64 (GetProofOfStakeReward (GetTime nd) (s64 nCoinAge) - GetMinFee tx 1 false GMF_BLOCK nTxSize) + block_params.CENT) in
      reject_if (nReward >? nCalculatedReward) 100
    else Ok tt
  else
    let! nValueOut := or_throw (GetValueOut tx) in
    let! _ := reject_if (nValueIn <? nValueOut) 100 in
    let nTxFee := s64 (nValueIn - nValueOut) in
    let! _ := reject_if (nTxFee <? 0) 100 in
    reject_if (negb (MoneyRange nTxFee)) 100.

(** [ConnectInputs]: the result, and the state it leaves in the caller's test pool, list of deferred
    checks ([pvChecks] says whether there is one) and signature cache *)
Definition ConnectInputs (txdb : D) (inputs : MapPrevTx) (mapTestPool : gmap uint256 CTxIndex) (tx : CTransaction)
    (posThisTx : CDiskTxPos) (chain : list CBlockIndex) (fBlock fMiner fScriptChecks : bool) (flags : Z)
    (pvChecks : bool) (checks : list CScriptCheck) (c : C) : res unit * cstate :=
  let st := CState inputs mapTestPool checks c in
  if IsCoinBase tx then (Ok tt, st)
  else match check_inputs tx chain inputs (vin tx) 0 with
  | Ok nValueIn =>
      match spend_inputs tx posThisTx fBlock fMiner fScriptChecks flags pvChecks 0 (vin tx) st with
      | (Ok _, st) => (check_amounts txdb tx nValueIn, st)
      | r => r
      end
  | Reject d => (Reject d, st)
  | Throws => (Throws, st)
  | Aborts => (Aborts, st)
  end.

(** ** [DisconnectInputs] *)

Fixpoint unspend (ins : list CTxIn) (txdb : D) : res unit * D :=
  match ins with
  | [] => (Ok tt, txdb)
  | i :: ins =>
      match ReadTxIndex txdb (op_hash (prevout i)) with
      | None => (Aborts, txdb)
      | Some None => (Reject 0, txdb)
      | Some (Some txindex) =>
          if op_n (prevout i) >=? zlen (vSpent txindex) then (Reject 0, txdb)
          else
            match UpdateTxIndex txdb (op_hash (prevout i)) (mark_spent txindex (op_n (prevout i)) CDiskTxPos_SetNull) with
            | None => (Aborts, txdb)
            | Some (false, txdb) => (Reject 0, txdb)
            | Some (true, txdb) => unspend ins txdb
            end
      end
  end.

Definition DisconnectInputs (txdb : D) (tx : CTransaction) : res unit * D :=
  match (if negb (IsCoinBase tx) then unspend (vin tx) txdb else (Ok tt, txdb)) with
  | (Ok _, txdb) =>
      match GetHash tx with
      | None => (Aborts, txdb)
      | Some hash =>
          match EraseTxIndex txdb hash with
          | None => (Aborts, txdb)
          | Some (_, txdb) => (Ok tt, txdb)
          end
      end
  | r => r
  end.

(** The loop of [ConnectBlock] that writes the queued index changes *)
Fixpoint write_queued (mapQueuedChanges : list (uint256 * CTxIndex)) (txdb : D) : res unit * D :=
  match mapQueuedChanges with
  | [] => (Ok tt, txdb)
  | (hash, txindex) :: l =>
      match UpdateTxIndex txdb hash txindex with
      | None => (Aborts, txdb)
      | Some (false, txdb) => (Reject 0, txdb)
      | Some (true, txdb) => write_queued l txdb
      end
  end.

(** ** [ClientConnectInputs] *)

Fixpoint client_inputs (mempool : gmap uint256 CTransaction) (tx : CTransaction) (n : nat) (ins : list CTxIn)
    (nValueIn : Z) (c : C) : res (Z * C) :=
  match ins with
  | [] => Ok (nValueIn, c)
  | i :: ins =>
      match mempool !! op_hash (prevout i) with
      | None => Reject 0
      | Some txPrev =>
          match vout txPrev !! Z.to_nat (op_n (prevout i)) with
          | None => Reject 0
          | Some o =>
              let! r := or_abort (VerifySignature txPrev tx n (Z.lor SCRIPT_VERIFY_NOCACHE SCRIPT_VERIFY_P2SH) 0 c) in
              let '(ok, c) := r in
              if negb ok then Reject 0
              else
                let nValueIn := s64 (nValueIn + nValue o) in
                if negb (MoneyRange (nValue o)) || negb (MoneyRange nValueIn) then Reject 0
                else client_inputs mempool tx (S n) ins nValueIn c
          end
      end
  end.

Definition ClientConnectInputs (mempool : gmap uint256 CTransaction) (tx : CTransaction) (c : C) : res C :=
  if IsCoinBase tx then Reject 0
  else
    let! r := client_inputs mempool tx 0 (vin tx) 0 c in
    let! nValueOut := or_throw (GetValueOut tx) in
    if nValueOut >? r.1 then Reject 0 else Ok r.2.
End inputs.

End Inputs.
