(* ===== verification/Difficulty.v ===== *)
(** * Difficulty: compact targets, proof of work and the block reward ([bignum.h], [miner/diff.cpp])

    A [CBigNum] is an integer. Its conversions go through the MPI format of OpenSSL: two parameters, whose
    documented behaviour is stated by [MPILaws] and which [mpi_model] implements. *)
From S2P Require Import Prelude ScriptNum Script Serialize Crypto Transaction Merkle Uint256 BlockData LevelDB.
From S2P Require Import Keys SigCheck Interpreter Solver Inputs.
Import Tx BlockData.

(** ** The MPI format

    Four bytes with the big-endian length, then the magnitude in big-endian order; the first bit is the sign. *)

Definition mpi_value (p : bytes) : Z :=
  match p with
  | [] => 0
  | b :: l => let m := be_value (Z.land b 0x7f :: l) in if b >=? 128 then - m else m
  end.

(** No byte could be left out. *)
Definition mpi_minimal (p : bytes) : bool :=
  match p with
  | [] => true
  | b :: l => negb (Z.land b 0x7f =? 0) || match l with c :: _ => c >=? 128 | [] => false end
  end.

Class MPI : Type := { BN_mpi2bn : bytes -> Z; BN_bn2mpi : Z -> bytes }.

Class MPILaws `{MPI} : Prop := {
  mpi2bn_spec p : BN_mpi2bn (reverse (le_bytes 4 (zlen p)) ++ p) = mpi_value p;
  bn2mpi_spec x : exists p, BN_bn2mpi x = reverse (le_bytes 4 (zlen p)) ++ p
    /\ bytes_ok p /\ mpi_minimal p = true /\ mpi_value p = x
}.

Module Difficulty.

(** ** [CBigNum] *)

Section bignum.
Context `{MPI}.

Definition SetCompact (nCompact : Z) : Z :=
  let nSize := Z.shiftr nCompact 24 in
  let at_least n b := if nSize >=? n then [b] else [] in
  BN_mpi2bn ([0; 0; 0; nSize]
    ++ at_least 1 (Z.land (Z.shiftr nCompact 16) 0xff) ++ at_least 2 (Z.land (Z.shiftr nCompact 8) 0xff)
    ++ at_least 3 (Z.land (Z.shiftr nCompact 0) 0xff) ++ replicate (Z.to_nat (nSize - 3)) 0).

Definition GetCompact (x : Z) : Z :=
  let vch := BN_bn2mpi x in
  let nSize := u32 (zlen vch - 4) in
  let byte n := if nSize >=? Z.of_nat n + 1 then vch !!! (4 + n)%nat else 0 in
  Z.lor (Z.lor (Z.lor (u32 (Z.shiftl nSize 24)) (Z.shiftl (byte 0%nat) 16)) (Z.shiftl (byte 1%nat) 8)) (Z.shiftl (byte 2%nat) 0).

(** [getuint256]: the last 32 bytes of the magnitude, the sign bit cleared *)
Definition getuint256 (x : Z) : uint256 :=
  let vch := drop 4 (BN_bn2mpi x) in
  let vch := match vch with b :: l => Z.land b 0x7f :: l | [] => [] end in
  let n := take 32 (reverse vch) in n ++ replicate (32 - length n) 0.
End bignum.

(** ** Networks *)

(** What the program sets for the network it runs on *)
Record network : Type := Network {
  fTestNet : bool; bnProofOfWorkLimit : Z; nStakeTargetSpacing : Z; nPowTargetSpacing : Z }.

Definition uint256_max : Z := 2 ^ 256 - 1.
Definition mainnet : network := Network false (Z.shiftr uint256_max 20) (6 * 60) (3 * 60).
Definition testnet : network := Network true (Z.shiftr uint256_max 16) (1 * 60) 60.
Definition bnProofOfStakeLimit : Z := Z.shiftr uint256_max 27.

Definition nOneDay : Z := 24 * 60 * 60.
Definition nOneHour : Z := 60 * 60.
Definition nTargetTimespan : Z := 7 * nOneDay.
Definition TARGETS_SWITCH_WORK : Z := 1533636000.

(** ** Rewards *)

Definition MAX_MINT_PROOF_OF_WORK : Z := 10 * block_params.COIN.
Definition COIN_PREMINE : Z := 860000 * block_params.COIN.
Definition POW_REWARD_BLOCK : list (Z * Z) :=
  [(0, 1 * block_params.COIN); (1000, 2 * block_params.COIN); (20000, 6 * block_params.COIN);
   (100000, 2 * block_params.COIN); (500000, 1 * block_params.COIN)].

Definition GetProofOfWorkSubsidy (nBestHeight : Z) : Z :=
  if nBestHeight =? 0 then COIN_PREMINE else Inputs.reward_rate POW_REWARD_BLOCK nBestHeight MAX_MINT_PROOF_OF_WORK.
Definition GetProofOfWorkReward (nBestHeight nFees : Z) : Z := s64 (GetProofOfWorkSubsidy nBestHeight + nFees).

(** ** Targets *)

Section targets.
Context `{MPI}.
Variable net : network.

(** The loop of [ComputeMaxBits]; each turn takes a day off [nTime]. *)
Fixpoint max_bits_loop (fuel : nat) (bnTargetLimit bnResult nTime : Z) : Z :=
  match fuel with
  | O => bnResult
  | S fuel =>
      if (nTime >? 0) && (bnResult <? bnTargetLimit)
      then max_bits_loop fuel bnTargetLimit (bnResult * 2) (nTime - nOneDay)
      else bnResult
  end.
Definition ComputeMaxBits (bnTargetLimit nBase nTime : Z) : Z :=
  let bnResult := max_bits_loop (Z.to_nat (nTime / nOneDay + 1)) bnTargetLimit (SetCompact nBase * 2) nTime in
  GetCompact (if bnResult >? bnTargetLimit then bnTargetLimit else bnResult).

Definition GetProofOfStakeLimit (nTime : Z) : Z :=
  if fTestNet net then bnProofOfStakeLimit
  else if nTime >? TARGETS_SWITCH_WORK then bnProofOfStakeLimit else bnProofOfWorkLimit net.
Definition ComputeMinWork (nBase nTime : Z) : Z := ComputeMaxBits (bnProofOfWorkLimit net) nBase nTime.
Definition ComputeMinStake (nBase nTime nBlockTime : Z) : Z := ComputeMaxBits (GetProofOfStakeLimit nBlockTime) nBase nTime.

Definition CheckProofOfWork (hash : uint256) (nBits : Z) : bool :=
  let bnTarget := SetCompact nBits in
  if (bnTarget <=? 0) || (bnTarget >? bnProofOfWorkLimit net) then false
  else negb (Uint256.gtb (Uint256.of_bytes hash) (Uint256.of_bytes (getuint256 bnTarget))).

Definition GetTargetSpacingWorkMax (nTime : Z) : Z :=
  if nTime <? TARGETS_SWITCH_WORK then 3 * nPowTargetSpacing net
  else if fTestNet net then 1 * nPowTargetSpacing net else 2 * nPowTargetSpacing net.

(** The chain from the last entry of the given kind, or from the first entry *)
Fixpoint GetLastBlockIndex (chain : list CBlockIndex) (fProofOfStake : bool) : list CBlockIndex :=
  match chain with
  | [] => []
  | b :: rest =>
      match rest with
      | [] => chain
      | _ => if eqb (bi_IsProofOfStake b) fProofOfStake then chain else GetLastBlockIndex rest fProofOfStake
      end
  end.

(** The target before it is bounded: an exponential move towards the target spacing *)
Definition retarget (bnOld nTargetSpacing nActualSpacing : Z) : Z :=
  let nInterval := Z.quot nTargetTimespan nTargetSpacing in
  Z.quot (bnOld * ((nInterval - 1) * nTargetSpacing + nActualSpacing + nActualSpacing)) ((nInterval + 1) * nTargetSpacing).

Definition target_spacing (last prev : CBlockIndex) (fProofOfStake : bool) : Z :=
  if fProofOfStake then nStakeTargetSpacing net
  else Z.min (GetTargetSpacingWorkMax (bi_nTime last)) (nStakeTargetSpacing net * (1 + bi_nHeight last - bi_nHeight prev)).

Definition GetNextTargetRequired (chain : list CBlockIndex) (fProofOfStake : bool) : Z :=
  let bnTargetLimit := if fProofOfStake then bnProofOfStakeLimit else bnProofOfWorkLimit net in
  match chain with
  | [] => GetCompact bnTargetLimit
  | last :: _ =>
      match GetLastBlockIndex chain fProofOfStake with
      | prev :: ((_ :: _) as before) =>
          match GetLastBlockIndex before fProofOfStake with
          | prevprev :: _ :: _ =>
              let nActualSpacing := bi_nTime prev - bi_nTime prevprev in
              let bnNew := retarget (SetCompact (bi_nBits prev)) (target_spacing last prev fProofOfStake) nActualSpacing in
              GetCompact (if bnNew >? bnTargetLimit then bnTargetLimit else bnNew)
          | _ => GetCompact bnTargetLimit
          end
      | _ => GetCompact bnTargetLimit
      end
  end.
End targets.

(** ** Values of byte strings *)

(** A payload whose first byte has no sign *)
Lemma mpi_value_pos p : bytes_ok p -> 0 < mpi_value p -> mpi_value p = be_value p /\ exists b l, p = b :: l /\ b < 128.
Proof.
  destruct p as [|b l]; [done|]. intros [Hb Hl]%Forall_cons. cbn [mpi_value].
  assert (Z.land b 0x7f = if b <? 128 then b else b - 128) as ->.
  { apply Z.eqb_eq. apply (byte_forall (fun b => Z.land b 127 =? if b <? 128 then b else b - 128)); [by vm_compute|done]. }
  unfold is_byte in Hb. pose proof (be_value_bound l Hl) as Hv.
  destruct (Z.geb_spec b 128); intros Hpos.
  - rewrite (proj2 (Z.ltb_ge b 128)) in Hpos by lia. rewrite be_value_cons in Hpos.
    assert (0 < 256 ^ zlen l) by (apply Z.pow_pos_nonneg; [lia|apply zlen_nonneg]). nia.
  - rewrite (proj2 (Z.ltb_lt b 128)) by lia. split; [done|]. by exists b, l.
Qed.

(** ** The compact form *)

Definition compact_payload (n : Z) : bytes :=
  take (Z.to_nat (n / 2 ^ 24)) [n / 2 ^ 16 mod 256; n / 2 ^ 8 mod 256; n mod 256]
  ++ replicate (Z.to_nat (n / 2 ^ 24 - 3)) 0.

Section laws.
Context `{MPILaws}.

Lemma land_255 x : Z.land x 0xff = x mod 256.
Proof. change 0xff with (2 ^ 8 - 1). by rewrite land_ones_mod. Qed.

Lemma SetCompact_payload n : 0 <= n < 2 ^ 32 -> SetCompact n = mpi_value (compact_payload n).
Proof.
  intros Hn. assert (0 <= n / 2 ^ 24 < 256) as Hs.
  { split; [apply Z.div_pos; lia|apply Z.div_lt_upper_bound; lia]. }
  rewrite <-mpi2bn_spec. unfold SetCompact. f_equal. rewrite !land_255, !Z.shiftr_div_pow2 by lia.
  rewrite Z.div_1_r. set (k := n / 2 ^ 24) in *.
  assert (zlen (compact_payload n) = k) as ->.
  { unfold compact_payload, zlen. fold k. rewrite length_app, length_take, length_replicate. cbn [length]. lia. }
  assert (reverse (le_bytes 4 k) = [0; 0; 0; k]) as ->.
  { cbn [le_bytes]. rewrite (Z.mod_small k), (Z.div_small k) by lia. done. }
  f_equal. unfold compact_payload. fold k.
  destruct (decide (k = 0)) as [->|]; [done|]. destruct (decide (k = 1)) as [->|]; [done|].
  destruct (decide (k = 2)) as [->|]; [done|].
  rewrite !(proj2 (Z.geb_le k _)) by lia. rewrite take_ge by (cbn; lia). done.
Qed.

(** A positive number determines its payload: the length by its size, the bytes by its value. *)
Record payload (x : Z) (p : bytes) : Prop := Payload {
  pl_bytes : bytes_ok p; pl_value : be_value p = x; pl_head : exists b l, p = b :: l /\ b < 128; pl_minimal : mpi_minimal p = true }.

Lemma payload_value x p : payload x p -> mpi_value p = x.
Proof.
  intros [Hb Hv (b & l & -> & Hlt) _]. apply Forall_cons in Hb as [Hb _]. unfold is_byte in Hb. cbn [mpi_value].
  rewrite land_127_small by lia. destruct (Z.geb_spec b 128); [lia|done].
Qed.

Lemma payload_bounds x p : payload x p -> 0 < x /\ 2 ^ (8 * zlen p - 9) <= x < 2 ^ (8 * zlen p - 1).
Proof.
  intros [Hb <- (b & l & -> & Hlt) Hmin]. apply Forall_cons in Hb as [Hb Hl]. unfold is_byte in Hb.
  rewrite be_value_cons, zlen_cons. pose proof (be_value_bound l Hl) as Hv. pose proof (zlen_nonneg l).
  assert (2 ^ (8 * (zlen l + 1) - 1) = 128 * 256 ^ zlen l) as ->.
  { rewrite <-pow256 by lia. change 128 with (2 ^ 7). rewrite <-Z.pow_add_r by lia. f_equal. lia. }
  assert (0 < 256 ^ zlen l) by (apply Z.pow_pos_nonneg; lia).
  enough (0 < b * 256 ^ zlen l + be_value l /\ 2 ^ (8 * (zlen l + 1) - 9) <= b * 256 ^ zlen l + be_value l) by (split; [tauto|split; [tauto|nia]]).
  cbn [mpi_minimal] in Hmin. rewrite land_127_small in Hmin by lia. apply orb_true_iff in Hmin as [Hne%negb_true_iff|Hc].
  - apply Z.eqb_neq in Hne. split; [nia|]. transitivity (256 ^ zlen l); [|nia]. rewrite <-pow256 by lia. apply Z.pow_le_mono_r; lia.
  - destruct l as [|c l']; [done|]. rewrite be_value_cons in *. rewrite zlen_cons in *. pose proof (zlen_nonneg l').
    apply Forall_cons in Hl as [_ Hl']. pose proof (be_value_bound l' Hl').
    assert (0 < 256 ^ zlen l') by (apply Z.pow_pos_nonneg; lia).
    assert (128 * 256 ^ zlen l' <= c * 256 ^ zlen l') by nia. split; [nia|].
    transitivity (128 * 256 ^ zlen l'); [|nia].
    { change 128 with (2 ^ 7). rewrite <-pow256, <-Z.pow_add_r by lia. apply Z.pow_le_mono_r; lia. }
Qed.

Lemma payload_unique x p p' : payload x p -> payload x p' -> p = p'.
Proof.
  intros Hp Hp'. destruct (payload_bounds _ _ Hp) as [_ B1], (payload_bounds _ _ Hp') as [_ B2].
  destruct Hp as [Hb Hv (b & l & -> & _) _], Hp' as [Hb' Hv' (b' & l' & -> & _) _].
  rewrite !zlen_cons in *. pose proof (zlen_nonneg l). pose proof (zlen_nonneg l').
  assert (zlen l = zlen l') as Hl.
  { apply Z.le_antisymm; apply Z.nlt_ge; intros Hlt.
    - assert (2 ^ (8 * (zlen l' + 1) - 1) <= 2 ^ (8 * (zlen l + 1) - 9)) by (apply Z.pow_le_mono_r; lia). lia.
    - assert (2 ^ (8 * (zlen l + 1) - 1) <= 2 ^ (8 * (zlen l' + 1) - 9)) by (apply Z.pow_le_mono_r; lia). lia. }
  apply be_value_inj; [done..| |congruence]. unfold zlen in Hl. cbn [length]. lia.
Qed.

Lemma bn2mpi_payload x : 0 < x -> exists p, BN_bn2mpi x = reverse (le_bytes 4 (zlen p)) ++ p /\ payload x p.
Proof.
  intros Hx. destruct (bn2mpi_spec x) as (p & Hp & Hb & Hm & Hv). exists p. split; [done|].
  destruct (mpi_value_pos p Hb) as [Hbe Hhead]; [lia|]. split; [done|lia|done|done].
Qed.

(** The three bytes of the mantissa *)
Definition digit (p : bytes) (i : nat) : Z := default 0 (p !! i).
Lemma digit_byte p i : bytes_ok p -> 0 <= digit p i < 256.
Proof. intros Hp. unfold digit. destruct (p !! i) eqn:E; cbn; [|lia]. by apply (Forall_lookup_1 _ _ _ _ Hp E). Qed.

Lemma GetCompact_payload x p :
  BN_bn2mpi x = reverse (le_bytes 4 (zlen p)) ++ p -> bytes_ok p -> zlen p < 256 ->
  GetCompact x = zlen p * 2 ^ 24 + digit p 0 * 2 ^ 16 + digit p 1 * 2 ^ 8 + digit p 2.
Proof.
  intros Hp Hb Hl. unfold GetCompact. rewrite Hp. pose proof (zlen_nonneg p) as Hp0.
  assert (zlen (reverse (le_bytes 4 (zlen p))) = 4) as H4 by (unfold zlen; by rewrite length_reverse, length_le_bytes).
  rewrite zlen_app, H4. replace (4 + zlen p - 4) with (zlen p) by lia. rewrite (u32_small (zlen p)) by lia.
  assert (forall n, (if zlen p >=? Z.of_nat n + 1 then (reverse (le_bytes 4 (zlen p)) ++ p) !!! (4 + n)%nat else 0) = digit p n) as Hbyte.
  { intros n. unfold digit. destruct (Z.geb_spec (zlen p) (Z.of_nat n + 1)) as [Hn|Hn].
    - destruct (lookup_lt_is_Some_2 p n) as [b Hbn]; [unfold zlen in Hn; lia|]. rewrite Hbn. cbn [default from_option id].
      apply list_lookup_total_correct. rewrite lookup_app_r; rewrite length_reverse, length_le_bytes; [|lia].
      by replace (4 + n - 4)%nat with n by lia.
    - rewrite lookup_ge_None_2; [done|]. unfold zlen in Hn. lia. }
  rewrite !Hbyte. pose proof (digit_byte p 0 Hb). pose proof (digit_byte p 1 Hb). pose proof (digit_byte p 2 Hb).
  assert (forall m b n, 0 <= n -> 0 <= b < 2 ^ n -> Z.lor (m * 2 ^ n) b = m * 2 ^ n + b) as Hlor.
  { intros m b n Hn Hbn. rewrite <-Z.shiftl_mul_pow2, Z.lor_comm, lor_shiftl_add, Z.shiftl_mul_pow2 by lia. lia. }
  rewrite Z.shiftl_0_r, !Z.shiftl_mul_pow2 by lia. rewrite u32_small by lia.
  rewrite (Hlor (zlen p) _ 24) by lia.
  replace (zlen p * 2 ^ 24 + digit p 0 * 2 ^ 16) with ((zlen p * 2 ^ 8 + digit p 0) * 2 ^ 16) by lia. rewrite (Hlor _ _ 16) by lia.
  replace ((zlen p * 2 ^ 8 + digit p 0) * 2 ^ 16 + digit p 1 * 2 ^ 8) with (((zlen p * 2 ^ 8 + digit p 0) * 2 ^ 8 + digit p 1) * 2 ^ 8) by lia.
  rewrite (Hlor _ _ 8) by lia. lia.
Qed.

(** What the compact form keeps of a payload *)
Definition truncated (p : bytes) : bytes := take 3 p ++ replicate (length p - 3) 0.

Lemma compact_payload_truncated x p :
  payload x p -> zlen p < 256 ->
  compact_payload (zlen p * 2 ^ 24 + digit p 0 * 2 ^ 16 + digit p 1 * 2 ^ 8 + digit p 2) = truncated p.
Proof.
  intros [Hb _ (b & l & -> & _) _] Hl. set (p := b :: l) in *.
  pose proof (digit_byte p 0 Hb) as D0. pose proof (digit_byte p 1 Hb) as D1. pose proof (digit_byte p 2 Hb) as D2.
  unfold compact_payload. set (n := _ + _ + _ + _).
  assert (n / 2 ^ 24 = zlen p) as ->.
  { unfold n. replace (_ + _ + _ + _) with (digit p 0 * 2 ^ 16 + digit p 1 * 2 ^ 8 + digit p 2 + zlen p * 2 ^ 24) by lia.
    rewrite Z.div_add, Z.div_small by lia. lia. }
  assert (n / 2 ^ 16 mod 256 = digit p 0) as ->.
  { unfold n. replace (_ + _ + _ + _) with (digit p 1 * 2 ^ 8 + digit p 2 + (digit p 0 + zlen p * 256) * 2 ^ 16) by lia.
    rewrite Z.div_add, Z.div_small, Z.add_0_l, Z_mod_plus_full, Z.mod_small by lia. done. }
  assert (n / 2 ^ 8 mod 256 = digit p 1) as ->.
  { unfold n. replace (_ + _ + _ + _) with (digit p 2 + (digit p 1 + (digit p 0 + zlen p * 256) * 256) * 2 ^ 8) by lia.
    rewrite Z.div_add, Z.div_small, Z.add_0_l, Z_mod_plus_full, Z.mod_small by lia. done. }
  assert (n mod 256 = digit p 2) as ->.
  { unfold n. replace (_ + _ + _ + _) with (digit p 2 + (digit p 1 + (digit p 0 + zlen p * 256) * 256) * 256) by lia.
    by rewrite Z_mod_plus_full, Z.mod_small by lia. }
  unfold truncated. unfold zlen. rewrite Nat2Z.id. f_equal; [|f_equal; lia].
  unfold p, digit. destruct l as [|c [|d l]]; cbn; by rewrite ?take_nil.
Qed.

Lemma truncated_value x p :
  payload x p -> exists r, payload (x - r) (truncated p) /\ 0 <= r < 256 ^ Z.max 0 (zlen p - 3) /\ length (truncated p) = length p.
Proof.
  intros Hp. pose proof Hp as [Hb Hv (b & l & Hbl & Hlt) Hmin]. exists (be_value (drop 3 p)).
  assert (bytes_ok (take 3 p) /\ bytes_ok (drop 3 p)) as [Ht Hd] by (apply bytes_ok_app; by rewrite take_drop).
  assert (zlen (drop 3 p) = Z.max 0 (zlen p - 3)) as Hdl by (unfold zlen; rewrite length_drop; lia).
  assert (length (truncated p) = length p) as Hlen.
  { unfold truncated. rewrite length_app, length_take, length_replicate. lia. }
  split_and!; [split| |rewrite <-Hdl; by apply be_value_bound|done].
  - apply bytes_ok_app. split; [done|]. apply Forall_replicate. unfold is_byte. lia.
  - assert (x = be_value (take 3 p) * 256 ^ zlen (drop 3 p) + be_value (drop 3 p)) as Hx by by rewrite <-be_value_app, take_drop.
    unfold truncated. rewrite be_value_app, be_value_zeros.
    assert (zlen (replicate (length p - 3) 0) = zlen (drop 3 p)) as ->; [unfold zlen; rewrite length_replicate, length_drop; lia|]. lia.
  - subst p. unfold truncated. cbn. eauto.
  - subst p. unfold truncated. cbn [take app mpi_minimal] in *. by destruct l as [|c [|d l]].
  - by apply be_value_bound.
Qed.

(** The compact form rounds a target down by less than one part in 2^15 and is stable: for a
    positive target below 2^256, [GetCompact] gives 32 bits that [SetCompact] turns into a positive
    number, at most the target and closer to it than that, whose own compact form is the same. *)
Lemma compact_rounds x :
  0 < x < 2 ^ 256 ->
  let y := SetCompact (GetCompact x) in
  0 <= GetCompact x < 2 ^ 32 /\ 0 < y <= x /\ (x - y) * 2 ^ 15 < x /\ GetCompact y = GetCompact x.
Proof.
  intros Hx y. destruct (bn2mpi_payload x) as (p & Hp & Hpl); [lia|]. pose proof Hpl as [Hb _ _ _].
  pose proof (payload_bounds _ _ Hpl) as Hbd. pose proof (zlen_nonneg p).
  assert (zlen p <= 33) as Hl.
  { apply Z.nlt_ge. intros Hlt. assert (2 ^ 256 <= 2 ^ (8 * zlen p - 9)) by (apply Z.pow_le_mono_r; lia). lia. }
  destruct (truncated_value x p Hpl) as (r & Htr & Hr & Hlen). assert (zlen (truncated p) = zlen p) as Hzl by (unfold zlen; by rewrite Hlen).
  pose proof (GetCompact_payload x p Hp Hb ltac:(lia)) as Hc.
  pose proof (digit_byte p 0 Hb). pose proof (digit_byte p 1 Hb). pose proof (digit_byte p 2 Hb).
  assert (0 <= GetCompact x < 2 ^ 32) as Hc32 by lia.
  assert (y = x - r) as Hy.
  { unfold y. rewrite SetCompact_payload, Hc, (compact_payload_truncated x) by (done || lia). by apply payload_value. }
  pose proof (payload_bounds _ _ Htr) as Hbt. rewrite Hzl in Hbt.
  split; [done|]. rewrite Hy. split; [lia|]. split.
  - replace (x - (x - r)) with r by lia. destruct (decide (zlen p <= 3)).
    + rewrite Z.max_l in Hr by lia. change (256 ^ 0) with 1 in Hr. lia.
    + rewrite Z.max_r in Hr by lia. rewrite <-pow256 in Hr by lia.
      assert (2 ^ (8 * (zlen p - 3)) * 2 ^ 15 = 2 ^ (8 * zlen p - 9)) by (rewrite <-Z.pow_add_r by lia; f_equal; lia). nia.
  - destruct (bn2mpi_payload (x - r)) as (p' & Hp' & Hpl'); [lia|].
    assert (p' = truncated p) as -> by by eapply payload_unique.
    rewrite (GetCompact_payload _ _ Hp' (pl_bytes _ _ Hpl')), Hc, Hzl by lia.
    unfold digit, truncated. by destruct p as [|a [|b [|c p]]].
Qed.

(** ** Proof of work *)

Lemma value_of_bytes b n : bytes_ok b -> length b = (4 * n)%nat ->
  Uint256.uint_ok (Uint256.of_bytes b) /\ length (Uint256.of_bytes b) = n /\ Uint256.value (Uint256.of_bytes b) = le_value b.
Proof.
  revert b. induction n as [|n IH]; intros b Hb Hl; [destruct b; [|done]; by split_and!; [constructor|..]|].
  destruct b as [|b0 [|b1 [|b2 [|b3 b]]]]; cbn in Hl; try lia. change (b0 :: b1 :: b2 :: b3 :: b) with ([b0; b1; b2; b3] ++ b) in Hb.
  apply bytes_ok_app in Hb as [H4 Hb]. destruct (IH b Hb) as (I1 & I2 & I3); [lia|].
  cbn [Uint256.of_bytes length Uint256.value]. rewrite I2, I3. pose proof (le_value_bound _ H4) as Hv.
  split_and!; [constructor; [exact Hv|done]|done|]. cbn [le_value]. lia.
Qed.

Lemma getuint256_value x : 0 < x < 2 ^ 256 ->
  bytes_ok (getuint256 x) /\ length (getuint256 x) = 32%nat /\ le_value (getuint256 x) = x.
Proof.
  intros Hx. destruct (bn2mpi_payload x) as (p & Hp & Hpl); [lia|]. unfold getuint256. rewrite Hp.
  rewrite drop_app_length' by by rewrite length_reverse, length_le_bytes.
  destruct Hpl as [Hb Hv (b & l & -> & Hlt) _]. pose proof Hb as Hb'. apply Forall_cons in Hb' as [Hbb _].
  unfold is_byte in Hbb. rewrite land_127_small by lia.
  set (rp := reverse (b :: l)). assert (bytes_ok rp) as Hrp by by apply Forall_reverse.
  assert (le_value rp = x) as Hrv by exact Hv.
  assert (forall l, bytes_ok l -> le_value (take 32 l ++ replicate (32 - length (take 32 l)) 0) = le_value l mod 2 ^ 256) as Hpad.
  { clear. intros l Hl. assert (forall n, le_value (replicate n 0) = 0) as Hz by (induction n as [|n IH]; [done|cbn [replicate le_value]; lia]).
    rewrite le_value_app, Hz. rewrite <-(take_drop 32 l) at 3. rewrite le_value_app.
    assert (bytes_ok (take 32 l)) as Ht by by apply Forall_take. pose proof (le_value_bound _ Ht) as Hv.
    destruct (decide (32 <= length l)%nat) as [H|H].
    - assert (zlen (take 32 l) = 32) as Hl32 by (unfold zlen; rewrite length_take; lia). rewrite Hl32 in *.
      change (2 ^ 256) with (256 ^ 32). rewrite (Z.mul_comm (256 ^ 32) (le_value (drop 32 l))), Z_mod_plus_full, Z.mod_small by done. lia.
    - rewrite (drop_ge l) by lia. cbn [le_value]. rewrite Z.mod_small; [lia|].
      assert (256 ^ zlen (take 32 l) <= 2 ^ 256); [|lia]. change (2 ^ 256) with (256 ^ 32). apply Z.pow_le_mono_r; [lia|].
      unfold zlen. rewrite length_take. lia. }
  split_and!.
  - apply bytes_ok_app. split; [by apply Forall_take|]. apply Forall_replicate. unfold is_byte. lia.
  - rewrite length_app, length_replicate, length_take. lia.
  - rewrite Hpad, Hrv, Z.mod_small by (done || lia). done.
Qed.

(** [CheckProofOfWork] accepts a hash if it is, as a number, at most the target, and the target is in range. *)
Lemma CheckProofOfWork_spec net hash nBits :
  bytes_ok hash -> length hash = 32%nat -> bnProofOfWorkLimit net < 2 ^ 256 ->
  CheckProofOfWork net hash nBits =
    (0 <? SetCompact nBits) && (SetCompact nBits <=? bnProofOfWorkLimit net) && (le_value hash <=? SetCompact nBits).
Proof.
  intros Hb Hl Hlim. unfold CheckProofOfWork. set (t := SetCompact nBits).
  destruct (Z.leb_spec t 0) as [H1|H1]; cbn [orb]; [by rewrite (proj2 (Z.ltb_ge 0 t))|].
  rewrite (proj2 (Z.ltb_lt 0 t)) by done. rewrite Z.gtb_ltb.
  destruct (Z.ltb_spec (bnProofOfWorkLimit net) t); [by rewrite (proj2 (Z.leb_gt t _))|].
  rewrite (proj2 (Z.leb_le t _)) by lia. cbn [andb].
  destruct (getuint256_value t) as (G1 & G2 & G3); [lia|].
  destruct (value_of_bytes hash 8 Hb Hl) as (V1 & V2 & V3). destruct (value_of_bytes (getuint256 t) 8 G1 G2) as (W1 & W2 & W3).
  unfold Uint256.gtb. rewrite Uint256.gt_lt_loop, Uint256.lt_loop_spec by (done || congruence). rewrite V3, W3, G3.
  rewrite andb_false_r, orb_false_r. by rewrite <-Z.leb_antisym.
Qed.

(** ** Retargeting *)

Lemma retarget_exact old T : 0 < T <= nTargetTimespan -> retarget old T T = old.
Proof.
  intros HT. unfold retarget. set (n := Z.quot nTargetTimespan T).
  assert (1 <= n) as Hn by (unfold n; rewrite Z.quot_div_nonneg by lia; apply Z.div_le_lower_bound; lia).
  replace ((n - 1) * T + T + T) with ((n + 1) * T) by lia. apply Z.quot_mul. nia.
Qed.

Lemma retarget_mono old T a a' : 0 < old -> 0 < T <= nTargetTimespan -> a <= a' -> retarget old T a <= retarget old T a'.
Proof.
  intros Ho HT Ha. unfold retarget. set (n := Z.quot nTargetTimespan T).
  assert (1 <= n) as Hn by (unfold n; rewrite Z.quot_div_nonneg by lia; apply Z.div_le_lower_bound; lia).
  apply Z.quot_le_mono; nia.
Qed.

(** C28 (bounds): the next target is in range and moves the right way. When the chain has two earlier blocks of the
    kind, the limit is a positive 256-bit number, the target spacing is positive and at most the timespan, and the old target is positive,
    [GetNextTargetRequired] is the compact form of the retargeted number or of the limit, whichever is less;
    if that number is positive, the bits stand for a positive target that is no easier than it nor than the
    limit, and a proof of work with these bits is checked against exactly that target; and the number is
    the old target when the last block took the target spacing, no more when it was faster, no less when it
    was slower. *)
Theorem next_target_spec net chain fProofOfStake last prev prevprev rest rest1 rest2 :
  0 < bnProofOfWorkLimit net < 2 ^ 256 ->
  chain = last :: rest ->
  GetLastBlockIndex chain fProofOfStake = prev :: rest1 -> rest1 <> [] ->
  GetLastBlockIndex rest1 fProofOfStake = prevprev :: rest2 -> rest2 <> [] ->
  let T := target_spacing net last prev fProofOfStake in
  let old := SetCompact (bi_nBits prev) in
  0 < T <= nTargetTimespan -> 0 < old ->
  let actual := bi_nTime prev - bi_nTime prevprev in
  let new := retarget old T actual in
  let limit := if fProofOfStake then bnProofOfStakeLimit else bnProofOfWorkLimit net in
  let bits := GetNextTargetRequired net chain fProofOfStake in
  bits = GetCompact (Z.min new limit)
  /\ (0 < new -> 0 <= bits < 2 ^ 32 /\ 0 < SetCompact bits <= Z.min new limit
        /\ (fProofOfStake = false -> forall hash, bytes_ok hash -> length hash = 32%nat ->
              CheckProofOfWork net hash bits = (le_value hash <=? SetCompact bits)))
  /\ (actual = T -> new = old) /\ (actual <= T -> new <= old) /\ (T <= actual -> old <= new).
Proof.
  intros Hlim Hchain Hp Hr1 Hpp Hr2 T old HT Ho actual new limit bits.
  assert (0 < limit < 2 ^ 256) as Hl by (unfold limit; destruct fProofOfStake; [by vm_compute|done]).
  assert (bits = GetCompact (Z.min new limit)) as Hb.
  { unfold bits, GetNextTargetRequired. rewrite Hp, Hchain. destruct rest1 as [|r1 rest1]; [done|].
    rewrite Hpp. destruct rest2 as [|r2 rest2]; [done|]. fold limit T old actual new. f_equal.
    rewrite Z.gtb_ltb. destruct (Z.ltb_spec limit new); lia. }
  split; [exact Hb|]. split; [|split; [|split]].
  - intros Hnew. destruct (compact_rounds (Z.min new limit)) as (C1 & C2 & _ & _); [lia|]. rewrite <-Hb in C1, C2.
    split; [exact C1|]. split; [exact C2|]. intros -> hash Hh Hlen. rewrite CheckProofOfWork_spec by (done || lia).
    rewrite (proj2 (Z.ltb_lt 0 _)), (proj2 (Z.leb_le (SetCompact bits) (bnProofOfWorkLimit net))) by (unfold limit in *; lia). by rewrite andb_true_l.
  - intros Ha. unfold new. rewrite Ha. by apply retarget_exact.
  - intros Ha. rewrite <-(retarget_exact old T) by done. by apply retarget_mono.
  - intros Ha. rewrite <-(retarget_exact old T) at 1 by done. by apply retarget_mono.
Qed.
End laws.

(** ** Rewards *)

(** The subsidy of a block is one of the amounts of the table, or the premine on top of the genesis block. *)
Lemma GetProofOfWorkSubsidy_bounds h : 0 < GetProofOfWorkSubsidy h <= COIN_PREMINE.
Proof.
  unfold GetProofOfWorkSubsidy. destruct (h =? 0); [by vm_compute|]. unfold POW_REWARD_BLOCK. cbn [Inputs.reward_rate fst snd].
  repeat match goal with |- context [if ?b then _ else _] => destruct b end; by vm_compute.
Qed.

(** A day is taken off at every turn of the loop of [ComputeMaxBits], so it ends by its own condition. *)
Lemma max_bits_loop_ends `{MPI} limit r t fuel :
  (Z.to_nat (t / nOneDay + 1) <= fuel)%nat ->
  exists k, 0 <= k /\ max_bits_loop fuel limit r t = r * 2 ^ k
    /\ (t - k * nOneDay <= 0 \/ limit <= r * 2 ^ k).
Proof.
  unfold nOneDay. revert r t. induction fuel as [|fuel IH]; intros r t Hf; cbn [max_bits_loop].
  { exists 0. split_and!; [done|lia|]. left. assert (t / (24 * 60 * 60) < 0) as Ht by lia.
    pose proof (Z.mul_div_le t (24 * 60 * 60)). pose proof (Z.mod_pos_bound t (24 * 60 * 60)).
    pose proof (Z.div_mod t (24 * 60 * 60)). lia. }
  destruct (Z.gtb_spec t 0) as [Ht|Ht]; cbn [andb]; [|exists 0; split_and!; [done|lia|left; lia]].
  destruct (Z.ltb_spec r limit) as [Hr|Hr]; [|exists 0; split_and!; [done|lia|right; lia]].
  destruct (IH (r * 2) (t - 24 * 60 * 60)) as (k & Hk & Hv & Hend).
  - replace (t - 24 * 60 * 60) with (t + (-1) * (24 * 60 * 60)) by lia. rewrite Z.div_add by lia.
    assert (0 <= t / (24 * 60 * 60)) by (apply Z.div_pos; lia). lia.
  - exists (k + 1). unfold nOneDay. rewrite Hv, Z.pow_add_r by lia. split_and!; [lia|lia|].
    destruct Hend; [left; lia|right; lia].
Qed.

(** ** A model of the MPI conversions *)

Definition mpi_payload (x : Z) : bytes :=
  if x =? 0 then []
  else
    let m := Z.abs x in
    let sign := if x <? 0 then 128 else 0 in
    match reverse (le_bytes (Z.to_nat (Z.log2 m / 8 + 1)) m) with
    | b :: l => if b >=? 128 then sign :: b :: l else b + sign :: l
    | [] => []
    end.
#[global] Instance mpi_model : MPI := {
  BN_mpi2bn s := mpi_value (drop 4 s);
  BN_bn2mpi x := reverse (le_bytes 4 (zlen (mpi_payload x))) ++ mpi_payload x }.

(** The first byte of the shortest representation is not zero. *)
Lemma magnitude_head m : 0 < m ->
  exists b l, reverse (le_bytes (Z.to_nat (Z.log2 m / 8 + 1)) m) = b :: l /\ bytes_ok (b :: l) /\ be_value (b :: l) = m /\ 1 <= b.
Proof.
  intros Hm. set (n := Z.log2 m / 8). assert (0 <= n) as Hn by (apply Z.div_pos; [apply Z.log2_nonneg|lia]).
  assert (256 ^ n <= m < 256 ^ (n + 1)) as Hb.
  { rewrite <-!pow256 by lia. destruct (Z.log2_spec m Hm) as [L1 L2]. unfold n. split.
    - transitivity (2 ^ Z.log2 m); [|done]. apply Z.pow_le_mono_r; [lia|]. apply Z.mul_div_le. lia.
    - eapply Z.lt_le_trans; [exact L2|]. apply Z.pow_le_mono_r; [lia|].
      pose proof (Z.mod_pos_bound (Z.log2 m) 8). pose proof (Z.div_mod (Z.log2 m) 8). lia. }
  set (k := Z.to_nat (n + 1)). destruct (reverse (le_bytes k m)) as [|b l] eqn:E.
  { apply (f_equal length) in E. rewrite length_reverse, length_le_bytes in E. unfold k in E. cbn in E. lia. }
  assert (bytes_ok (b :: l)) as Hok by (rewrite <-E; apply Forall_reverse, le_bytes_ok).
  assert (be_value (b :: l) = m) as Hv.
  { unfold be_value. rewrite <-E, reverse_involutive. apply le_value_le_bytes. unfold k. rewrite Z2Nat.id by lia. lia. }
  exists b, l. split_and!; [done..|]. apply Forall_cons in Hok as [Hbb Hl]. unfold is_byte in Hbb.
  destruct (decide (b = 0)) as [->|]; [|lia]. rewrite be_value_cons in Hv. pose proof (be_value_bound l Hl).
  assert (zlen l = n) as Hzl.
  { apply (f_equal length) in E. rewrite length_reverse, length_le_bytes in E. unfold k in E. cbn in E. unfold zlen. lia. }
  rewrite Hzl in *. lia.
Qed.

#[global] Instance mpi_model_laws : MPILaws.
Proof.
  split.
  - intros p. cbn [BN_mpi2bn mpi_model]. by rewrite drop_app_length' by (by rewrite length_reverse, length_le_bytes).
  - intros x. exists (mpi_payload x). split; [done|]. unfold mpi_payload. destruct (Z.eqb_spec x 0) as [->|Hx]; [by split_and!; [constructor|..]|].
    destruct (magnitude_head (Z.abs x)) as (b & l & -> & Hok & Hv & Hb1); [lia|].
    pose proof Hok as [Hb Hl]%Forall_cons. unfold is_byte in Hb.
    destruct (Z.geb_spec b 128) as [H128|H128].
    + assert (is_byte (if x <? 0 then 128 else 0)) as Hs by (unfold is_byte; destruct (x <? 0); lia).
      split_and!; [by constructor| |].
      * cbn [mpi_minimal]. apply orb_true_iff. right. apply Z.geb_le. lia.
      * cbn [mpi_value]. assert (Z.land (if x <? 0 then 128 else 0) 127 = 0) as -> by by destruct (x <? 0).
        rewrite be_value_cons, Hv. destruct (Z.ltb_spec x 0); cbn; lia.
    + assert (Z.land (b + (if x <? 0 then 128 else 0)) 127 = b) as Hland.
      { destruct (x <? 0); [|rewrite Z.add_0_r; apply land_127_small; lia].
        change 127 with (2 ^ 7 - 1). rewrite land_ones_mod by lia. replace (b + 128) with (b + 1 * 2 ^ 7) by lia.
        rewrite Z_mod_plus_full. apply Z.mod_small. lia. }
      split_and!.
      * constructor; [unfold is_byte; destruct (x <? 0); lia|done].
      * cbn [mpi_minimal]. rewrite Hland. by rewrite (proj2 (Z.eqb_neq b 0)) by lia.
      * cbn [mpi_value]. rewrite Hland, Hv. destruct (Z.ltb_spec x 0) as [?|?]; [destruct (Z.geb_spec (b + 128) 128)|destruct (Z.geb_spec (b + 0) 128)]; lia.
Qed.

Lemma ex_compact : SetCompact 0x1e0fffff = 0x0fffff * 2 ^ 216 /\ GetCompact (bnProofOfWorkLimit mainnet) = 0x1e0fffff.
Proof. split; vm_compute; reflexivity. Qed.

Lemma compact_rounds_witness :
  GetCompact (bnProofOfWorkLimit mainnet) = 0x1e0fffff /\ 0 < SetCompact 0x1e0fffff <= bnProofOfWorkLimit mainnet.
Proof.
  destruct (compact_rounds (bnProofOfWorkLimit mainnet)) as (_ & Hy & _); [vm_compute; split; reflexivity|].
  split; [vm_compute; reflexivity|]. revert Hy. change (GetCompact (bnProofOfWorkLimit mainnet)) with (GetCompact (Z.shiftr uint256_max 20)).
  assert (GetCompact (Z.shiftr uint256_max 20) = 0x1e0fffff) as -> by (vm_compute; reflexivity). exact (fun H => H).
Defined.

(** Three proof-of-work entries, the last one ten seconds after the one before *)
Definition ex_entry (height time : Z) : CBlockIndex :=
  set_place 0 height (CBlockIndex_new 0 0 (Block (BlockHeader 6 (uint256_of 0) (uint256_of 0) time 0x1d00ffff 0) [] [])).
Definition ex_chain : list CBlockIndex := [ex_entry 2 1546300810; ex_entry 1 1546300800; ex_entry 0 1546300000].

Lemma next_target_spec_witness :
  GetNextTargetRequired mainnet ex_chain false < 0x1d00ffff
  /\ 0 < SetCompact (GetNextTargetRequired mainnet ex_chain false) <= SetCompact 0x1d00ffff.
Proof.
  destruct (next_target_spec mainnet ex_chain false (ex_entry 2 1546300810) (ex_entry 2 1546300810) (ex_entry 1 1546300800)
    [ex_entry 1 1546300800; ex_entry 0 1546300000] [ex_entry 1 1546300800; ex_entry 0 1546300000] [ex_entry 0 1546300000])
    as (_ & Hpos & _ & Hfast & _).
  - vm_compute; split; reflexivity.
  - reflexivity.
  - vm_compute; reflexivity.
  - discriminate.
  - vm_compute; reflexivity.
  - discriminate.
  - vm_compute; split; [reflexivity|discriminate].
  - vm_compute; reflexivity.
  - split; [vm_compute; reflexivity|]. destruct Hpos as (_ & [H1 H2] & _); [vm_compute; reflexivity|].
    split; [exact H1|]. etransitivity; [exact H2|]. etransitivity; [apply Z.le_min_l|]. apply Hfast. vm_compute. discriminate.
Defined.

End Difficulty.
