(* ===== verification/BlockFile.v ===== *)
(** * BlockFile: the files that hold the blocks ([file_operate/file_open.h], [block/block.cpp])

    Blocks are appended to the files [blk0001.dat], ..., each after a message start and its size, and are read back from the
    position that the block index remembers. The disk is a map from file numbers to contents. *)
From S2P Require Import Prelude ScriptNum Script Serialize Crypto Transaction Merkle Uint256 BlockData Difficulty.
Import Serialize Tx BlockData Difficulty.

Abbreviation disk := (gmap Z bytes).

Module BlockFile.

Definition gpchMessageStart : bytes := [0xe4; 0xe8; 0xe9; 0xe5].

(** [OpenBlockFile] for reading: what follows the position in the file *)
Definition OpenBlockFile (d : disk) (nFile nBlockPos : Z) : option bytes :=
  if (nFile <? 1) || (nFile =? UINT32_MAX) then None
  else drop (Z.to_nat nBlockPos) <$> d !! nFile.

(** [AppendBlockFile]: the number of the file with its contents; opening creates a file. [fuel] bounds the number of files
    that are full. *)
Fixpoint AppendBlockFile (fuel : nat) (d : disk) (nCurrentBlockFile : Z) : option (Z * bytes) :=
  match fuel with
  | O => None
  | S fuel =>
      if (nCurrentBlockFile <? 1) || (nCurrentBlockFile =? UINT32_MAX) then None
      else
        let content := default [] (d !! nCurrentBlockFile) in
        if zlen content <? 0x7F000000 - MAX_SIZE then Some (nCurrentBlockFile, content)
        else AppendBlockFile fuel d (u32 (nCurrentBlockFile + 1))
  end.

(** [WriteToDisk]: the disk, the file and the position of the block in it. [None] is the result [false] or a failed assertion. *)
Definition WriteToDisk (d : disk) (nCurrentBlockFile : Z) (b : CBlock) : option (disk * (Z * Z)) :=
  '(nFile, content) ← AppendBlockFile (S (size d)) d nCurrentBlockFile;
  s ← SerializeBlock b;
  let start := content ++ gpchMessageStart ++ put (uint_le 4) (u32 (zlen s)) in
  Some (<[nFile := start ++ s]> d, (nFile, u32 (zlen start))).

Section read.
Context `{MPI} `{BlockHash}.
Variable net : network.

(** [ReadFromDisk(nFile, nBlockPos)], with its check of the proof of work. The flag that leaves out the transactions has no
    effect on the reader. *)
Definition ReadFromDisk (d : disk) (nFile nBlockPos : Z) (fReadTransactions : bool) : option CBlock :=
  s ← OpenBlockFile d nFile nBlockPos;
  match UnserializeBlock s with
  | inl _ => None
  | inr (b, _) =>
      if fReadTransactions && IsProofOfWork b && negb (CheckProofOfWork net (block_hash b) (bh_nBits (b_header b))) then None else Some b
  end.

(** [ReadFromDisk(pindex)] *)
Definition ReadIndexed (d : disk) (pindex : CBlockIndex) : option CBlock :=
  b ← ReadFromDisk d (bi_nFile pindex) (bi_nBlockPos pindex) true;
  if bool_decide (Some (block_hash b) = bi_phashBlock pindex) then Some b else None.
End read.

(** ** Writing and reading *)

Lemma AppendBlockFile_spec fuel d n nFile content : AppendBlockFile fuel d n = Some (nFile, content) ->
  (nFile <? 1) || (nFile =? UINT32_MAX) = false /\ content = default [] (d !! nFile) /\ zlen content < 0x7F000000 - MAX_SIZE.
Proof.
  revert n. induction fuel as [|fuel IH]; intros n; cbn [AppendBlockFile]; [done|].
  destruct ((n <? 1) || (n =? UINT32_MAX)) eqn:E; [done|]. cbn zeta. destruct (Z.ltb_spec (zlen (default [] (d !! n))) (0x7F000000 - MAX_SIZE)); [|apply IH].
  intros [= <- <-]. done.
Qed.

(** A full file has content, so the search ends at the first number that is not on the disk, if not before. *)
Lemma AppendBlockFile_ends (d : disk) n fuel : 1 <= n -> n + Z.of_nat fuel <= UINT32_MAX ->
  (exists i, (i < fuel)%nat /\ d !! (n + Z.of_nat i) = None) -> is_Some (AppendBlockFile fuel d n).
Proof.
  revert n. induction fuel as [|fuel IH]; intros n Hn Hf (i & Hi & Hd); [lia|]. cbn [AppendBlockFile].
  unfold UINT32_MAX in *. rewrite (proj2 (Z.ltb_ge n 1)), (proj2 (Z.eqb_neq n _)) by lia. cbn [orb]. cbn zeta.
  destruct (Z.ltb_spec (zlen (default [] (d !! n))) (0x7F000000 - MAX_SIZE)) as [Hz|Hz]; [by eexists|].
  rewrite u32_small by lia. apply IH; [lia|lia|]. destruct i as [|i].
  - rewrite Z.add_0_r in Hd. rewrite Hd in Hz. unfold MAX_SIZE, zlen in Hz. cbn in Hz. lia.
  - exists i. split; [lia|]. by replace (n + 1 + Z.of_nat i) with (n + Z.of_nat (S i)) by lia.
Qed.

(** Among more numbers than there are files, one is free. *)
Lemma free_file (d : disk) n : exists i, (i < S (size d))%nat /\ d !! (n + Z.of_nat i) = None.
Proof.
  destruct (decide (Exists (fun i => d !! (n + Z.of_nat i) = None) (seq 0 (S (size d))))) as [Hex|Hno].
  { apply Exists_exists in Hex as (i & Hi & Hd). apply elem_of_seq in Hi. exists i. split; [lia|done]. }
  exfalso. apply not_Exists_Forall in Hno; [|apply _]. rewrite Forall_forall in Hno.
  set (l := (fun i => n + Z.of_nat i) <$> seq 0 (S (size d))).
  assert (l ⊆+ (map_to_list d).*1) as Hsub%submseteq_length.
  { apply NoDup_submseteq; [unfold l; apply NoDup_fmap_2; [intros ? ? ?; lia|apply NoDup_seq]|].
    intros x (i & -> & Hi)%list_elem_of_fmap. specialize (Hno i Hi). cbn beta in Hno.
    destruct (d !! (n + Z.of_nat i)) as [c|] eqn:E; [|done]. apply list_elem_of_fmap. exists (n + Z.of_nat i, c). split; [done|].
    by apply elem_of_map_to_list. }
  unfold l in Hsub. rewrite !length_fmap, length_seq, length_map_to_list in Hsub. lia.
Qed.

(** A block that is written is read back. Writing finds a file as long as the numbers last; it
    keeps every other file and what is before in its own; and reading from the position it returns gives the block, if its
    proof of work is right. *)
Lemma block_file_roundtrip `{MPI} `{BlockHash} net (d : disk) n b s :
  1 <= n -> n + Z.of_nat (S (size d)) <= UINT32_MAX -> block_ok b -> SerializeBlock b = Some s ->
  (IsProofOfWork b = true -> CheckProofOfWork net (block_hash b) (bh_nBits (b_header b)) = true) ->
  exists d' nFile nBlockPos, WriteToDisk d n b = Some (d', (nFile, nBlockPos))
    /\ ReadFromDisk net d' nFile nBlockPos true = Some b
    /\ (forall f, f <> nFile -> d' !! f = d !! f)
    /\ exists new, default [] (d' !! nFile) = default [] (d !! nFile) ++ new.
Proof.
  intros Hn Hlast Hok Hs Hpow. unfold WriteToDisk.
  destruct (AppendBlockFile_ends d n (S (size d)) Hn Hlast (free_file d n)) as [[nFile content] Ha]. rewrite Ha.
  apply AppendBlockFile_spec in Ha as (Hrange & -> & Hlen). cbn [mbind option_bind]. rewrite Hs. cbn [mbind option_bind].
  set (start := default [] (d !! nFile) ++ gpchMessageStart ++ put (uint_le 4) (u32 (zlen s))).
  assert (zlen start = zlen (default [] (d !! nFile)) + 8) as Hstart.
  { unfold start. rewrite !zlen_app. cbn [put uint_le]. change (zlen gpchMessageStart) with 4. unfold zlen at 2. rewrite length_le_bytes. lia. }
  pose proof (zlen_nonneg (default [] (d !! nFile))) as Hnn. unfold Serialize.MAX_SIZE in Hlen.
  eexists _, _, _. split; [done|]. split_and!.
  - unfold ReadFromDisk, OpenBlockFile. rewrite Hrange, lookup_insert_eq. cbn [fmap option_fmap option_map mbind option_bind].
    rewrite (u32_small (zlen start)) by (rewrite Hstart; lia). rewrite drop_app_length' by (unfold zlen; lia).
    rewrite <-(app_nil_r s), (block_roundtrip b [] s) by done.
    destruct (IsProofOfWork b); cbn [andb]; [|done]. by rewrite Hpow.
  - intros f Hf. by rewrite lookup_insert_ne.
  - rewrite lookup_insert_eq. cbn [default from_option id]. unfold start. rewrite <-!app_assoc. by eexists.
Qed.

Definition ex_coinbase : CTransaction := Transaction 1 2000 [TxIn COutPoint_SetNull [1; 100; 0] UINT32_MAX []] [TxOut 0 []] 0.
Definition ex_coinstake : CTransaction :=
  Transaction 1 2000 [TxIn (OutPoint (uint256_of 5) 0) [] UINT32_MAX []] [TxOut 0 []; TxOut 1000 [81]] 0.
Definition ex_block : CBlock :=
  Block (BlockHeader 6 (uint256_of 2) (uint256_of 3) 2000 0x1e0fffff 0) [ex_coinbase; ex_coinstake] [48; 1].
Definition ex_disk : disk := {[1 := [7; 7; 7]]}.
#[local] Instance ex_hash : BlockHash := fun _ => uint256_of 0.

Lemma block_file_roundtrip_witness : exists d',
  WriteToDisk ex_disk 1 ex_block = Some (d', (1, 11)) /\ ReadFromDisk mainnet d' 1 11 true = Some ex_block.
Proof.
  destruct (block_file_roundtrip mainnet ex_disk 1 ex_block (default [] (SerializeBlock ex_block)))
    as (d' & nFile & nBlockPos & Hw & Hr & _).
  - lia.
  - vm_compute. discriminate.
  - assert (forall x l, Forall tx_ok (x :: l) <-> tx_ok x /\ Forall tx_ok l) as Hc by (intros; by rewrite Forall_cons).
    unfold block_ok, header_ok, hash_ok. cbn [b_header b_vtx b_vchBlockSig ex_block bh_nVersion bh_hashPrevBlock bh_hashMerkleRoot
      bh_nTime bh_nBits bh_nNonce]. rewrite !Hc, Forall_nil. unfold tx_ok, txin_ok, txout_ok, outpoint_ok. cbn [vin vout nVersion nTime
      nLockTime ex_coinbase ex_coinstake]. rewrite !Forall_cons, !Forall_nil.
    cbn [prevout scriptSig nSequence scriptWitness op_hash op_n nValue scriptPubKey].
    split_and!; first [done|by vm_compute|vm_compute; congruence].
  - vm_compute. reflexivity.
  - vm_compute. discriminate.
  - assert (nFile = 1 /\ nBlockPos = 11) as [-> ->]; [|by exists d'].
    assert (snd <$> WriteToDisk ex_disk 1 ex_block = Some (1, 11)) as E by (vm_compute; reflexivity).
    rewrite Hw in E. by injection E.
Defined.

End BlockFile.
