(* ===== verification/ChainIndex.v ===== *)
(** * ChainIndex: the block index as a tree, and locators ([block/block.h], [block/block_locator.cpp])

    [mapBlockIndex] holds the entries by their hash, and an entry points to its predecessor, so the entries form a
    tree. A chain is the list of the entries met along [pprev], nearest first. *)
From S2P Require Import Prelude ScriptNum Script Serialize Crypto Transaction Merkle Uint256 BlockData.
Import Tx BlockData.

Abbreviation BlockMap := (gmap uint256 CBlockIndex).

#[global] Instance CBlockIndex_eq_dec : EqDecision CBlockIndex.
Proof. solve_decision. Defined.

Module ChainIndex.

(** [GetBlockHash] *)
Definition GetBlockHash (b : CBlockIndex) : uint256 := default (uint256_of 0) (bi_phashBlock b).

(** [get_pprev] and [get_pnext] *)
Definition get_pprev (m : BlockMap) (b : CBlockIndex) : option CBlockIndex := p ← bi_pprev b; m !! p.
Definition get_pnext (m : BlockMap) (b : CBlockIndex) : option CBlockIndex := p ← bi_pnext b; m !! p.

(** The entry and its predecessors; [fuel] bounds their number. *)
Fixpoint walk (fuel : nat) (m : BlockMap) (b : CBlockIndex) : list CBlockIndex :=
  b :: match fuel, get_pprev m b with
       | S fuel, Some p => walk fuel m p
       | _, _ => []
       end.
Definition chain_of (m : BlockMap) (b : CBlockIndex) : list CBlockIndex := walk (Z.to_nat (bi_nHeight b)) m b.

(** Tracing back: the entries from the first one on that is not higher than [nHeight] *)
Fixpoint down_to (nHeight : Z) (chain : list CBlockIndex) : list CBlockIndex :=
  match chain with
  | [] => []
  | b :: rest => if bi_nHeight b >? nHeight then down_to nHeight rest else chain
  end.

(** [IsInMainChain], for the best block of the given hash *)
Definition IsInMainChain (pindexBest : option uint256) (b : CBlockIndex) : bool :=
  bool_decide (is_Some (bi_pnext b)) || bool_decide (pindexBest = Some (GetBlockHash b)).

(** ** Well-formed indexes *)

(** Every entry knows its hash; it has a predecessor one step lower, or has height 0. *)
Record index_wf (m : BlockMap) : Prop := IndexWf {
  iw_hash : forall h b, m !! h = Some b -> bi_phashBlock b = Some h;
  iw_prev : forall h b p, m !! h = Some b -> bi_pprev b = Some p ->
    exists b', m !! p = Some b' /\ bi_nHeight b = bi_nHeight b' + 1;
  iw_genesis : forall h b, m !! h = Some b -> bi_pprev b = None -> bi_nHeight b = 0;
  iw_height : forall h b, m !! h = Some b -> 0 <= bi_nHeight b }.

Section wf.
Variable m : BlockMap.
Hypothesis Hwf : index_wf m.

Lemma get_pprev_wf h b b' : m !! h = Some b -> get_pprev m b = Some b' ->
  bi_pprev b = Some (GetBlockHash b') /\ m !! GetBlockHash b' = Some b' /\ bi_nHeight b = bi_nHeight b' + 1.
Proof.
  intros Hb Hp. unfold get_pprev in Hp. destruct (bi_pprev b) as [p|] eqn:Ep; [|done]. cbn in Hp.
  destruct (iw_prev m Hwf h b p Hb Ep) as (b2 & Hb2 & Hh). assert (b2 = b') as -> by congruence.
  assert (GetBlockHash b' = p) as -> by (unfold GetBlockHash; by rewrite (iw_hash m Hwf p b' Hp)). done.
Qed.

(** The walk goes down to height 0: the height is enough fuel. *)
Lemma walk_heights fuel h b : m !! h = Some b -> (Z.to_nat (bi_nHeight b) <= fuel)%nat ->
  length (walk fuel m b) = S (Z.to_nat (bi_nHeight b))
  /\ (forall i b', walk fuel m b !! i = Some b' -> bi_nHeight b' = bi_nHeight b - Z.of_nat i /\ m !! GetBlockHash b' = Some b')
  /\ (forall fuel', (Z.to_nat (bi_nHeight b) <= fuel')%nat -> walk fuel' m b = walk fuel m b).
Proof.
  revert h b. induction fuel as [|fuel IH]; intros h b Hb Hf.
  all: assert (m !! GetBlockHash b = Some b) as Hself by (unfold GetBlockHash; by rewrite (iw_hash m Hwf h b Hb)).
  all: pose proof (iw_height m Hwf h b Hb) as Hh0.
  - assert (get_pprev m b = None) as Hn.
    { destruct (get_pprev m b) as [b'|] eqn:Ep; [|done]. destruct (get_pprev_wf h b b' Hb Ep) as (_ & Hb' & Hh).
      pose proof (iw_height m Hwf _ _ Hb'). lia. }
    cbn [walk]. split_and!; [cbn; lia| |].
    + intros [|i] b' Hi; [|done]. injection Hi as <-. split; [lia|done].
    + intros [|fuel'] _; cbn [walk]; by rewrite ?Hn.
  - destruct (get_pprev m b) as [b'|] eqn:Ep.
    + destruct (get_pprev_wf h b b' Hb Ep) as (_ & Hb' & Hh). pose proof (iw_height m Hwf _ _ Hb').
      destruct (IH (GetBlockHash b') b' Hb') as (I1 & I2 & I3); [lia|]. cbn [walk]. rewrite Ep. split_and!.
      * cbn [length]. rewrite I1. lia.
      * intros [|i] b2 Hi; [injection Hi as <-; split; [lia|done]|]. destruct (I2 i b2 Hi) as [-> ?]. split; [lia|done].
      * intros [|fuel'] Hf'; [lia|]. cbn [walk]. rewrite Ep. f_equal. apply I3. lia.
    + cbn [walk]. rewrite Ep. assert (bi_nHeight b = 0) as H0.
      { destruct (bi_pprev b) as [p|] eqn:Eb; [|by apply (iw_genesis m Hwf h)]. unfold get_pprev in Ep. rewrite Eb in Ep. cbn in Ep.
        destruct (iw_prev m Hwf h b p Hb Eb) as (b2 & Hb2 & _). congruence. }
      split_and!; [cbn; lia| |].
      * intros [|i] b' Hi; [|done]. injection Hi as <-. split; [lia|done].
      * intros [|fuel'] _; cbn [walk]; by rewrite ?Ep.
Qed.

Lemma chain_of_spec h b : m !! h = Some b ->
  length (chain_of m b) = S (Z.to_nat (bi_nHeight b))
  /\ (forall i b', chain_of m b !! i = Some b' -> bi_nHeight b' = bi_nHeight b - Z.of_nat i /\ m !! GetBlockHash b' = Some b').
Proof. intros Hb. destruct (walk_heights (Z.to_nat (bi_nHeight b)) h b Hb) as (H1 & H2 & _); [lia|]. done. Qed.

Lemma chain_of_cons h b : m !! h = Some b ->
  chain_of m b = b :: match get_pprev m b with Some p => chain_of m p | None => [] end.
Proof.
  intros Hb. unfold chain_of at 1. destruct (get_pprev m b) as [b'|] eqn:Ep.
  - destruct (get_pprev_wf h b b' Hb Ep) as (_ & Hb' & Hh). pose proof (iw_height m Hwf _ _ Hb').
    replace (Z.to_nat (bi_nHeight b)) with (S (Z.to_nat (bi_nHeight b'))) by lia. cbn [walk]. by rewrite Ep.
  - destruct (Z.to_nat (bi_nHeight b)); cbn [walk]; by rewrite ?Ep.
Qed.

(** A chain from one of its entries is the rest of it. *)
Lemma chain_of_drop h b i b' : m !! h = Some b -> chain_of m b !! i = Some b' -> drop i (chain_of m b) = chain_of m b'.
Proof.
  revert h b. induction i as [|i IH]; intros h b Hb Hi.
  - rewrite (chain_of_cons h) in Hi |- * by done. injection Hi as ->. by rewrite <-(chain_of_cons h).
  - rewrite (chain_of_cons h) in Hi |- * by done. destruct (get_pprev m b) as [p|] eqn:Ep; [|done].
    destruct (get_pprev_wf h b p Hb Ep) as (_ & Hp & _). cbn [drop]. by eapply IH.
Qed.

(** Tracing back a chain reaches the entry of the given height. *)
Lemma down_to_chain h b nHeight : m !! h = Some b -> 0 <= nHeight <= bi_nHeight b ->
  exists b', down_to nHeight (chain_of m b) = chain_of m b' /\ bi_nHeight b' = nHeight
    /\ chain_of m b !! Z.to_nat (bi_nHeight b - nHeight) = Some b' /\ m !! GetBlockHash b' = Some b'.
Proof.
  remember (Z.to_nat (bi_nHeight b - nHeight)) as i eqn:Ei. revert h b Ei. induction i as [|i IH]; intros h b Ei Hb Hh.
  - exists b. assert (m !! GetBlockHash b = Some b) as Hself by (unfold GetBlockHash; by rewrite (iw_hash m Hwf h b Hb)).
    rewrite (chain_of_cons h) by done. cbn [down_to]. rewrite Z.gtb_ltb, (proj2 (Z.ltb_ge _ _)) by lia. split_and!; [done|lia|done|done].
  - rewrite (chain_of_cons h) by done. cbn [down_to]. rewrite Z.gtb_ltb, (proj2 (Z.ltb_lt _ _)) by lia.
    destruct (get_pprev m b) as [p|] eqn:Ep.
    + destruct (get_pprev_wf h b p Hb Ep) as (_ & Hp & Hhp). destruct (IH (GetBlockHash p) p) as (b' & -> & H1 & H2 & H3); [lia|done|lia|].
      by exists b'.
    + destruct (chain_of_spec h b Hb) as [Hlen _]. rewrite (chain_of_cons h b Hb), Ep in Hlen. cbn in Hlen. lia.
Qed.

(** The hashes of a chain are pairwise distinct. *)
Lemma chain_of_nodup h b : m !! h = Some b -> NoDup (GetBlockHash <$> chain_of m b).
Proof.
  intros Hb. destruct (chain_of_spec h b Hb) as [_ Hs]. apply NoDup_alt. intros i j x.
  rewrite !list_lookup_fmap. intros (b1 & Hi & E1)%fmap_Some (b2 & Hj & E2)%fmap_Some.
  apply Hs in Hi as [Hh1 M1]. apply Hs in Hj as [Hh2 M2]. rewrite <-E1 in M1. rewrite <-E2 in M2.
  assert (b1 = b2) by congruence. subst. lia.
Qed.
End wf.
(** A decidable form for concrete indexes *)
Definition entry_wf (m : BlockMap) (e : uint256 * CBlockIndex) : bool :=
  bool_decide (bi_phashBlock e.2 = Some e.1) && (0 <=? bi_nHeight e.2)
  && match bi_pprev e.2 with
     | Some p => match m !! p with Some b' => bi_nHeight e.2 =? bi_nHeight b' + 1 | None => false end
     | None => bi_nHeight e.2 =? 0
     end.
Lemma index_wf_check m : forallb (entry_wf m) (map_to_list m) = true -> index_wf m.
Proof.
  rewrite forallb_forall. intros Hall.
  assert (forall h b, m !! h = Some b -> entry_wf m (h, b) = true) as He.
  { intros h b Hb. apply Hall, list_elem_of_In, elem_of_map_to_list, Hb. }
  unfold entry_wf in He. cbn [fst snd] in He.
  split; intros h b; [..|]; intros; match goal with Hb : m !! h = Some b |- _ => apply He in Hb end;
    match goal with Hb : _ && _ && _ = true |- _ => apply andb_true_iff in Hb as [[Hh Hn]%andb_true_iff Hp] end.
  - by apply bool_decide_eq_true in Hh.
  - destruct (bi_pprev b) as [q|]; simplify_eq. destruct (m !! p) as [b'|]; [|done]. exists b'. split; [done|lia].
  - destruct (bi_pprev b); [done|lia].
  - lia.
Qed.
End ChainIndex.

Module Locator.
Import ChainIndex.

Definition hashGenesisBlock : uint256 := uint256_of 0x0000030d0ed5a5492e703714059aead5e3800d02de651c1f4079b8d55e6963c7.
Definition hashGenesisBlockTestNet : uint256 := uint256_of 0x00002f6601da66030580c89a4652b44cf330102c42e2b4e06d97958df7738478.
Definition genesis (fTestNet : bool) : uint256 := if fTestNet then hashGenesisBlockTestNet else hashGenesisBlock.

(** The loop of [Set]: [n] hashes are collected, and the next step goes [nStep] entries back. *)
Fixpoint locator_loop (fuel : nat) (chain : list CBlockIndex) (nStep n : nat) : list uint256 :=
  match fuel, chain with
  | S fuel, b :: _ =>
      GetBlockHash b :: locator_loop fuel (drop nStep chain) (if (10 <? S n)%nat then 2 * nStep else nStep)%nat (S n)
  | _, _ => []
  end.
Definition Set_ (fTestNet : bool) (chain : list CBlockIndex) : list uint256 :=
  locator_loop (length chain) chain 1 0 ++ [genesis fTestNet].

Section main.
Variables (m : BlockMap) (pindexBest : option uint256).

(** The hash is that of an entry of the main chain. *)
Definition in_main (h : uint256) : bool :=
  match m !! h with Some b => IsInMainChain pindexBest b | None => false end.

Fixpoint GetDistanceBack_loop (vHave : list uint256) (nDistance nStep : Z) : Z :=
  match vHave with
  | [] => nDistance
  | h :: vHave =>
      if in_main h then nDistance
      else
        let nDistance := nDistance + nStep in
        GetDistanceBack_loop vHave nDistance (if nDistance >? 10 then nStep * 2 else nStep)
  end.
Definition GetDistanceBack (vHave : list uint256) : Z := GetDistanceBack_loop vHave 0 1.

Fixpoint first_main (vHave : list uint256) : option uint256 :=
  match vHave with
  | [] => None
  | h :: vHave => if in_main h then Some h else first_main vHave
  end.
Definition GetBlockIndex (pindexGenesisBlock : option CBlockIndex) (vHave : list uint256) : option CBlockIndex :=
  match first_main vHave with Some h => m !! h | None => pindexGenesisBlock end.
Definition GetBlockHash (fTestNet : bool) (vHave : list uint256) : uint256 := default (genesis fTestNet) (first_main vHave).
Definition GetHeight (pindexGenesisBlock : option CBlockIndex) (vHave : list uint256) : Z :=
  match GetBlockIndex pindexGenesisBlock vHave with Some b => bi_nHeight b | None => 0 end.

Lemma first_main_app l k : first_main (l ++ k) = match first_main l with Some h => Some h | None => first_main k end.
Proof. induction l as [|h l IH]; [done|]. cbn. by destruct (in_main h). Qed.

(** The position [p] of the next entry, for the step and the number of hashes collected *)
Definition place (p nStep n : nat) : Prop := (n <= 10 /\ p = n /\ nStep = 1)%nat \/ (11 <= n /\ p = 9 + nStep /\ 2 <= nStep)%nat.

Lemma locator_loop_main full f fuel p nStep n :
  (forall i b, full !! i = Some b -> in_main (ChainIndex.GetBlockHash b) = (f <=? i)%nat) ->
  place p nStep n -> (p <= f)%nat -> (length full - p <= fuel)%nat ->
  match first_main (locator_loop fuel (drop p full) nStep n) with
  | Some h => exists j b, full !! j = Some b /\ h = ChainIndex.GetBlockHash b /\ (f <= j)%nat /\ (j = f \/ j + 11 <= 2 * f)%nat
  | None => (length full <= f \/ length full + 11 <= 2 * f)%nat
  end.
Proof.
  intros Hmain. revert p nStep n. induction fuel as [|fuel IH]; intros p nStep n Hp Hpf Hf; cbn [locator_loop].
  { cbn. left. lia. }
  destruct (drop p full) as [|b rest] eqn:Ed.
  { cbn. left. apply (f_equal length) in Ed. rewrite length_drop in Ed. cbn in Ed. lia. }
  assert (full !! p = Some b) as Hb by (rewrite <-(Nat.add_0_r p), <-lookup_drop, Ed; done).
  cbn [first_main]. rewrite (Hmain p b Hb). destruct (Nat.leb_spec f p) as [Hle|Hlt].
  { exists p, b. split_and!; [done|done|lia|lia]. }
  rewrite <-Ed, drop_drop. set (n' := S n).
  match goal with |- context [locator_loop fuel _ ?s n'] => set (s' := s) end.
  assert (place (p + nStep) s' n') as Hp'.
  { unfold s', n', place in *. destruct (Nat.ltb_spec 10 (S n)); destruct Hp; lia. }
  destruct (decide (p + nStep <= f)%nat) as [Hn|Hn]; [apply IH; [done|lia|destruct Hp; lia]|].
  assert (2 <= nStep /\ p + nStep + 11 <= 2 * f)%nat as [Hs Hgap] by (destruct Hp as [(_ & -> & ->)|(_ & -> & _)]; lia).
  destruct fuel as [|fuel]; [cbn; left; lia|]. cbn [locator_loop].
  destruct (drop (p + nStep) full) as [|b' rest'] eqn:Ed'.
  { cbn. right. apply (f_equal length) in Ed'. rewrite length_drop in Ed'. cbn in Ed'. lia. }
  assert (full !! (p + nStep)%nat = Some b') as Hb' by (rewrite <-(Nat.add_0_r (p + nStep)), <-lookup_drop, Ed'; done).
  cbn [first_main]. rewrite (Hmain _ b' Hb'), (proj2 (Nat.leb_le _ _)) by lia.
  exists (p + nStep)%nat, b'. split_and!; [done|done|lia|by right].
Qed.

(** A locator finds the fork. When a node reads the locator of a chain that leaves its main chain
    after [f] entries (entry [f] and all before it in the chain's history are in the main chain, the [f] nearest
    to the tip are not), the hash it finds is that of an entry at the fork or below, exactly at the fork
    if that is at most eleven back, and never more than twice as far back; or the fork is so deep that the
    locator falls through to the genesis block. *)
Lemma locator_finds_fork fTestNet chain f :
  (forall i b, chain !! i = Some b -> in_main (ChainIndex.GetBlockHash b) = (f <=? i)%nat) ->
  (exists j b, chain !! j = Some b /\ GetBlockHash fTestNet (Set_ fTestNet chain) = ChainIndex.GetBlockHash b
     /\ (f <= j)%nat /\ (j = f \/ j + 11 <= 2 * f)%nat)
  \/ (GetBlockHash fTestNet (Set_ fTestNet chain) = genesis fTestNet /\ (length chain <= f \/ length chain + 11 <= 2 * f)%nat).
Proof.
  intros Hmain. pose proof (locator_loop_main chain f (length chain) 0 1 0 Hmain) as Hl. rewrite drop_0 in Hl.
  unfold GetBlockHash, Set_. rewrite first_main_app.
  destruct (first_main (locator_loop (length chain) chain 1 0)) as [h|].
  - left. destruct Hl as (j & b & Hj & -> & Hrest); [left; lia|lia|lia|]. by exists j, b.
  - right. split; [|apply Hl; [left; lia|lia|lia]]. cbn [first_main]. by destruct (in_main _).
Qed.
End main.

(** A chain of twenty entries; the receiver knows all but the last three. *)
Definition ex_hash (i : nat) : uint256 := uint256_of (Z.of_nat i + 1).
Definition ex_chain_entry (i : nat) : CBlockIndex :=
  set_links (Some (ex_hash i)) None (if (i <? 16)%nat then Some (ex_hash (S i)) else None) (set_place 0 (Z.of_nat i) CBlockIndex_default).
Definition ex_full : list CBlockIndex := ex_chain_entry <$> reverse (seq 0 20).
Definition ex_known : BlockMap := list_to_map ((fun i => (ex_hash i, ex_chain_entry i)) <$> seq 0 17).

Lemma locator_finds_fork_witness :
  length (Set_ false ex_full) = 15%nat /\ GetBlockHash ex_known (Some (ex_hash 16)) false (Set_ false ex_full) = ex_hash 16.
Proof.
  split; [vm_compute; reflexivity|].
  destruct (locator_finds_fork ex_known (Some (ex_hash 16)) false ex_full 3) as [(j & b & Hj & -> & H1 & H2)|[_ H]].
  - assert (forallb (fun p => eqb (in_main ex_known (Some (ex_hash 16)) (ChainIndex.GetBlockHash p.2)) (3 <=? p.1)%nat)
      (imap pair ex_full) = true) as Hall by (vm_compute; reflexivity).
    intros i b Hi. rewrite forallb_forall in Hall.
    apply eqb_prop, (Hall (i, b)), list_elem_of_In, list_elem_of_lookup. exists i. by rewrite list_lookup_imap, Hi.
  - assert (j = 3%nat) as -> by lia. vm_compute in Hj. injection Hj as <-. vm_compute. reflexivity.
  - vm_compute in H. destruct H as [H|H]; lia.
Defined.

End Locator.
