(* ===== verification/Checkpoints.v ===== *)
(** * Checkpoints: hardened, synchronized and automatic checkpoints ([checkpoints.cpp], [prime/autocheckpoint.cpp])

    A hardened checkpoint fixes the hash at a height; the synchronized checkpoint is a block of the index that every new
    block must descend from; automatic checkpoints are kept at prime heights. *)
From Stdlib Require Import Znumtheory.
From S2P Require Import Prelude ScriptNum Script Serialize Crypto Transaction Merkle Uint256 BlockData Difficulty ChainIndex.
Import Tx BlockData Difficulty ChainIndex.

Module Checkpoints.

(** ** Hardened checkpoints *)

Definition mapCheckpoints : list (Z * uint256) :=
  [(0, Locator.hashGenesisBlock);
   (1275, uint256_of 0x000000dd7de58fad01cfa1799b5809df4c1d9c164fc49da39eb2954531e1a36c);
   (4930, uint256_of 0x000000153d5cf5fed61add322826c8ec6f32ffe5f99a714fcbf5ac53aee09b14);
   (6624, uint256_of 0x5130b59e93325dd0a2332f99edb763cdb4189a4e6b0cc481023d1a21fe2327c5);
   (18370, uint256_of 0x00000000f02a6a28449fbec9b50f7eb9e1ccd283ee7130e3ef159111aee803e9);
   (26720, uint256_of 0x00000001edb4be82456835ed10942e0c49e2820021b01753872787738f556562);
   (46092, uint256_of 0x000000003f7e00cee468b4f8ba08cdf804480b8f31315295fa1db223d4183718);
   (60880, uint256_of 0x0000000032ecb49115ca08061cdc29ca7bc9036549d81ecb8f47fd6630cd584e);
   (71270, uint256_of 0x000000001ff29e42c75e57fde60b0fd624c2522bd782a792016fa89f4f0a40c7);
   (155369, uint256_of 0x000000065f542624a28575f960ba5d049f8a9be17996767c0911b20cf508177e);
   (239007, uint256_of 0x0000000000ea3dad03ca3273aa758085933d6e01ea7fc0a560b81c8c137e21c3);
   (351634, uint256_of 0x00000000000084b537f65746dbd28a0abc87adadad97231c7b8bb054027a31f6);
   (434550, uint256_of 0x0000000000060688d53e999a30ad6165fe2d18262820b597aab2f68eaea91359)].
Definition mapCheckpointsTestnet : list (Z * uint256) :=
  [(0, Locator.hashGenesisBlockTestNet); (5330, uint256_of 0x000011410a666bec2c474fe25c847ea903279f96d47422ebe4dda1fd44450406)].
Definition CheckpointLastTime : Z := 1609580025.
Definition CheckpointLastTimeTestnet : Z := 1533660799.
Definition listBanned : list uint256 := [].

Section network.
Variable fTestNet : bool.

Definition checkpoints : list (Z * uint256) := if fTestNet then mapCheckpointsTestnet else mapCheckpoints.
Definition CheckHardened (nHeight : Z) (hash : uint256) : bool :=
  match List.find (fun c => c.1 =? nHeight) checkpoints with
  | None => true
  | Some c => bool_decide (hash = c.2)
  end.
Definition CheckBanned (nHash : uint256) : bool := fTestNet || negb (bool_decide (nHash ∈ listBanned)).
Definition GetTotalBlocksEstimate : Z := List.last (fst <$> checkpoints) 0.
Definition GetLastCheckpointTime : Z := if fTestNet then CheckpointLastTimeTestnet else CheckpointLastTime.
Definition GetLastCheckpoint (m : BlockMap) : option CBlockIndex :=
  head (omap (fun c => m !! c.2) (reverse checkpoints)).

(** ** The synchronized checkpoint *)

Definition CHECKPOINT_MAX_SPAN : Z := nOneHour.
Definition GetLastSyncCheckpoint (m : BlockMap) (hashSyncCheckpoint : uint256) : option CBlockIndex := m !! hashSyncCheckpoint.

(** The result, and [hashInvalidCheckpoint] *)
Definition ValidateSyncCheckpoint (m : BlockMap) (hashSyncCheckpoint hashInvalidCheckpoint hashCheckpoint : uint256) : bool * uint256 :=
  match m !! hashSyncCheckpoint, m !! hashCheckpoint with
  | Some pindexSyncCheckpoint, Some pindexCheckpointRecv =>
      if bi_nHeight pindexCheckpointRecv <=? bi_nHeight pindexSyncCheckpoint then
        match down_to (bi_nHeight pindexCheckpointRecv) (chain_of m pindexSyncCheckpoint) with
        | [] => (false, hashInvalidCheckpoint)
        | pindex :: _ =>
            if bool_decide (GetBlockHash pindex = hashCheckpoint) then (false, hashInvalidCheckpoint) else (false, hashCheckpoint)
        end
      else
        match down_to (bi_nHeight pindexSyncCheckpoint) (chain_of m pindexCheckpointRecv) with
        | [] => (false, hashInvalidCheckpoint)
        | pindex :: _ =>
            if bool_decide (GetBlockHash pindex = hashSyncCheckpoint) then (true, hashInvalidCheckpoint) else (false, hashCheckpoint)
        end
  | _, _ => (false, hashInvalidCheckpoint)
  end.

(** [CheckSync] of a block after the entry [pindexPrev]; [None] is its assertion. *)
Definition CheckSync (m : BlockMap) (hashSyncCheckpoint hashBlock : uint256) (pindexPrev : CBlockIndex) : option bool :=
  if fTestNet then Some true
  else
    let nHeight := bi_nHeight pindexPrev + 1 in
    pindexSync ← m !! hashSyncCheckpoint;
    let descends :=
      if nHeight >? bi_nHeight pindexSync then
        match down_to (bi_nHeight pindexSync) (chain_of m pindexPrev) with
        | [] => false
        | pindex :: _ => negb ((bi_nHeight pindex <? bi_nHeight pindexSync) || negb (bool_decide (GetBlockHash pindex = hashSyncCheckpoint)))
        end
      else true in
    Some (descends
          && negb ((nHeight =? bi_nHeight pindexSync) && negb (bool_decide (hashBlock = hashSyncCheckpoint)))
          && negb ((nHeight <? bi_nHeight pindexSync) && negb (bool_decide (is_Some (m !! hashBlock))))).

(** The walk back from the best block to one that is old and deep enough *)
Fixpoint auto_select (best : CBlockIndex) (chain : list CBlockIndex) : option CBlockIndex :=
  match chain with
  | [] => None
  | b :: rest =>
      match rest with
      | [] => Some b
      | _ =>
          if (bi_nTime b + CHECKPOINT_MAX_SPAN >? bi_nTime best) || (bi_nHeight b + 8 >? bi_nHeight best)
          then auto_select best rest else Some b
      end
  end.
Definition AutoSelectSyncCheckpoint (best_chain : list CBlockIndex) : option uint256 :=
  best ← head best_chain; GetBlockHash <$> auto_select best best_chain.

Definition IsMatureSyncCheckpoint (m : BlockMap) (hashSyncCheckpoint : uint256) (nBestHeight nCoinbaseMaturity nStakeMinAge GetAdjustedTime : Z) :
    option bool :=
  pindexSync ← m !! hashSyncCheckpoint;
  Some ((nBestHeight >=? bi_nHeight pindexSync + nCoinbaseMaturity) || (bi_nTime pindexSync + nStakeMinAge <? GetAdjustedTime)).
End network.

(** ** Automatic checkpoints *)

Definition lowerBlockHeight : Z := 440000.

(** The trial divisors from [i] on *)
Fixpoint trial (fuel : nat) (i in_height : Z) : bool :=
  match fuel with
  | O => true
  | S fuel =>
      if i * i <=? in_height then
        if Z.rem in_height i =? 0 then false
        else if Z.rem in_height (i + 2) =? 0 then false
        else trial fuel (i + 6) in_height
      else true
  end.
Definition is_prime (in_height : Z) : bool :=
  if (in_height <=? lowerBlockHeight) || (in_height >=? 15000000) then false
  else if (Z.rem in_height 2 =? 0) || (Z.rem in_height 3 =? 0) then false
  else trial (Z.to_nat in_height) 5 in_height.

(** [CAutocheckPoint::Check]: the recorded hashes of the last [nCheckBlocks] heights; [None] reads past the chain, which
    throws or crashes. *)
Fixpoint check_back (nCheckBlocks : nat) (i : Z) (mapAutocheck : gmap Z uint256) (nBest : Z) (target : list CBlockIndex) : option bool :=
  match nCheckBlocks with
  | O => Some true
  | S n =>
      match mapAutocheck !! (nBest - i) with
      | None => check_back n (i + 1) mapAutocheck nBest target
      | Some hash =>
          match List.find (fun b => bi_nHeight b =? nBest - i) target with
          | None => None
          | Some b => if bool_decide (hash = GetBlockHash b) then check_back n (i + 1) mapAutocheck nBest target else Some false
          end
      end
  end.
Definition Check (nCheckBlocks : nat) (mapAutocheck : gmap Z uint256) (m : BlockMap) (hashBestChain : uint256) : option bool :=
  if bool_decide (m = ∅) then Some false
  else best ← m !! hashBestChain; check_back nCheckBlocks 0 mapAutocheck (bi_nHeight best) (chain_of m best).

(** ** What the synchronized checkpoint guarantees *)

Section sync.
Variable m : BlockMap.
Hypothesis Hwf : index_wf m.

(** An entry of the index whose hash is on the chain that ends in another entry *)
Definition ancestor (a b : CBlockIndex) : Prop := a ∈ chain_of m b.
#[local] Instance ancestor_dec a b : Decision (ancestor a b).
Proof. unfold ancestor. apply _. Defined.

(** Tracing back to the height of an entry meets the entry exactly if it is an ancestor. *)
Lemma trace_back ha a hb b : m !! ha = Some a -> m !! hb = Some b -> bi_nHeight a <= bi_nHeight b ->
  exists b', head (down_to (bi_nHeight a) (chain_of m b)) = Some b' /\ bi_nHeight b' = bi_nHeight a
    /\ (GetBlockHash b' = ha <-> ancestor a b).
Proof.
  intros Ha Hb Hle. pose proof (iw_height m Hwf ha a Ha) as H0.
  destruct (down_to_chain m Hwf hb b (bi_nHeight a) Hb) as (b' & -> & Hh & Hl & Hm'); [lia|]. exists b'. split_and!.
  - by rewrite (chain_of_cons m Hwf _ b' Hm').
  - done.
  - split.
    + intros E. assert (b' = a) as <- by congruence. by apply list_elem_of_lookup_2 in Hl.
    + intros [i Hi]%list_elem_of_lookup. destruct (chain_of_spec m Hwf hb b Hb) as [_ Hs]. pose proof (Hs i a Hi) as [Hha _].
      assert (i = Z.to_nat (bi_nHeight b - bi_nHeight a)) as -> by lia. assert (a = b') as <- by congruence.
      unfold GetBlockHash. by rewrite (iw_hash m Hwf ha a Ha).
Qed.

Lemma ancestor_height ha a hb b : m !! ha = Some a -> m !! hb = Some b -> ancestor a b -> bi_nHeight a <= bi_nHeight b.
Proof. intros Ha Hb [i Hi]%list_elem_of_lookup. destruct (chain_of_spec m Hwf hb b Hb) as [_ Hs]. apply Hs in Hi as [? _]. lia. Qed.

(** The synchronized checkpoint holds the chain. On the main network a block that is not in the
    index yet passes [CheckSync] exactly if the checkpoint is an ancestor of its predecessor; and a received checkpoint is
    valid exactly if the current one is a proper ancestor of it, so that the checkpoint only ever moves to a
    descendant; a checkpoint on another branch is remembered as invalid. *)
Lemma sync_checkpoint_descends hs sync hp prev hr recv hashInvalidCheckpoint hashBlock :
  m !! hs = Some sync -> m !! hp = Some prev -> m !! hr = Some recv -> m !! hashBlock = None ->
  (CheckSync false m hs hashBlock prev = Some true <-> ancestor sync prev)
  /\ ((ValidateSyncCheckpoint m hs hashInvalidCheckpoint hr).1 = true <-> ancestor sync recv /\ hr <> hs)
  /\ ((ValidateSyncCheckpoint m hs hashInvalidCheckpoint hr).2
      = if decide (ancestor sync recv \/ ancestor recv sync) then hashInvalidCheckpoint else hr).
Proof.
  intros Hs Hp Hr Hnew. assert (hashBlock <> hs) as Hne by congruence. split.
  - unfold CheckSync. rewrite Hs, Hnew. cbn [mbind option_bind]. cbn zeta. rewrite (bool_decide_false (hashBlock = hs)) by done.
    rewrite bool_decide_false by by intros [? ?]. cbn [negb]. rewrite !andb_true_r, Z.gtb_ltb.
    destruct (Z.ltb_spec (bi_nHeight sync) (bi_nHeight prev + 1)) as [Hlt|Hge].
    + destruct (trace_back hs sync hp prev Hs Hp) as (b' & Hhd & Hh & <-); [lia|]. destruct (down_to _ _) as [|b l]; [done|].
      injection Hhd as ->. rewrite (proj2 (Z.ltb_ge _ _)), (proj2 (Z.eqb_neq _ _)), (proj2 (Z.ltb_ge (bi_nHeight prev + 1) _)) by lia.
      cbn [orb negb andb]. rewrite !andb_true_r, negb_involutive. split; [by intros [= ?%bool_decide_eq_true]|].
      intros E. by rewrite bool_decide_true.
    + assert (~ ancestor sync prev) as Hna by (intros ?%(ancestor_height hs sync hp prev Hs Hp); lia). split; [|done].
      intros [= E]. destruct (Z.eqb_spec (bi_nHeight prev + 1) (bi_nHeight sync)); [done|]. by rewrite (proj2 (Z.ltb_lt _ _)) in E by lia.
  - unfold ValidateSyncCheckpoint. rewrite Hs, Hr. destruct (Z.leb_spec (bi_nHeight recv) (bi_nHeight sync)) as [Hle|Hlt].
    + destruct (trace_back hr recv hs sync Hr Hs Hle) as (b' & Hhd & Hh & Hanc). destruct (down_to _ _) as [|b l]; [done|].
      injection Hhd as ->. assert (ancestor sync recv -> hr = hs) as Hsame.
      { intros Ha. pose proof (ancestor_height hs sync hr recv Hs Hr Ha) as H1. apply list_elem_of_lookup in Ha as [i Hi].
        pose proof Hi as Hi'. apply (chain_of_spec m Hwf hr recv Hr) in Hi' as [Hh' _]. assert (i = 0%nat) as -> by lia.
        rewrite (chain_of_cons m Hwf hr recv Hr) in Hi. injection Hi as ->.
        pose proof (iw_hash m Hwf _ _ Hs). pose proof (iw_hash m Hwf _ _ Hr). congruence. }
      split.
      * destruct (bool_decide _); (split; [done|]); intros [Ha Hn]; by destruct Hn, (Hsame Ha).
      * destruct (decide (GetBlockHash b' = hr)) as [E|E]; [rewrite bool_decide_true by done|rewrite bool_decide_false by done]; cbn [snd].
        -- rewrite decide_True by (right; by apply Hanc). done.
        -- rewrite decide_False; [done|]. intros [Ha|Ha]; [|by apply E, Hanc]. apply E, Hanc.
           assert (recv = sync) as -> by (rewrite (Hsame Ha) in Hr; congruence). done.
    + destruct (trace_back hs sync hr recv Hs Hr) as (b' & Hhd & Hh & Hanc); [lia|]. destruct (down_to _ _) as [|b l]; [done|].
      injection Hhd as ->. assert (~ ancestor recv sync) as Hna by (intros ?%(ancestor_height hr recv hs sync Hr Hs); lia).
      destruct (decide (GetBlockHash b' = hs)) as [E|E]; [rewrite bool_decide_true by done|rewrite bool_decide_false by done]; cbn [fst snd].
      * split; [|by rewrite decide_True by (left; by apply Hanc)]. split; [|done]. intros _. split; [by apply Hanc|].
        intros ->. assert (recv = sync) as -> by congruence. lia.
      * split; [by split; [|intros [?%Hanc _]]|]. rewrite decide_False; [done|]. by intros [?%Hanc|?].
Qed.
End sync.

(** The entries of the index of Block number [i] up to 9: a chain of eight and a branch of two from height 5 *)
Definition ex_entry (i : nat) (prev : option nat) (height : Z) : CBlockIndex :=
  set_links (Some (uint256_of (Z.of_nat i))) (uint256_of ∘ Z.of_nat <$> prev) None (set_place 0 height CBlockIndex_default).
Definition ex_entries : list CBlockIndex :=
  ex_entry 0 None 0 :: ((fun i => ex_entry (S i) (Some i) (Z.of_nat (S i))) <$> seq 0 7) ++ [ex_entry 8 (Some 5%nat) 6; ex_entry 9 (Some 8%nat) 7].
Definition ex_index : BlockMap := list_to_map ((fun b => (GetBlockHash b, b)) <$> ex_entries).

(** Entries on different branches, by their hashes *)
Lemma other_branch m a b : forallb (fun e => negb (bool_decide (GetBlockHash e = GetBlockHash a))) (chain_of m b) = true -> ~ ancestor m a b.
Proof.
  rewrite forallb_forall. intros Hall Ha%list_elem_of_In%Hall. apply negb_true_iff, bool_decide_eq_false in Ha. done.
Qed.

Lemma sync_checkpoint_descends_witness :
  CheckSync false ex_index (uint256_of 6) (uint256_of 10) (ex_entry 9 (Some 8%nat) 7) <> Some true
  /\ (ValidateSyncCheckpoint ex_index (uint256_of 6) (uint256_of 0) (uint256_of 9)).2 = uint256_of 9.
Proof.
  destruct (sync_checkpoint_descends ex_index (index_wf_check ex_index ltac:(vm_compute; reflexivity)) (uint256_of 6) (ex_entry 6 (Some 5%nat) 6)
    (uint256_of 9) (ex_entry 9 (Some 8%nat) 7) (uint256_of 9) (ex_entry 9 (Some 8%nat) 7) (uint256_of 0) (uint256_of 10))
    as (Hc & _ & Hi).
  - vm_compute. reflexivity.
  - vm_compute. reflexivity.
  - vm_compute. reflexivity.
  - vm_compute. reflexivity.
  - pose proof (other_branch ex_index (ex_entry 6 (Some 5%nat) 6) (ex_entry 9 (Some 8%nat) 7) ltac:(vm_compute; reflexivity)) as H1.
    pose proof (other_branch ex_index (ex_entry 9 (Some 8%nat) 7) (ex_entry 6 (Some 5%nat) 6) ltac:(vm_compute; reflexivity)) as H2.
    split; [exact (fun H => H1 (proj1 Hc H))|]. rewrite Hi, decide_False; [reflexivity|]. intros [H|H]; [exact (H1 H)|exact (H2 H)].
Defined.

(** ** Prime heights *)

Lemma trial_spec fuel i h : 0 < i ->
  trial fuel i h = true <-> forall k, 0 <= k < Z.of_nat fuel -> (forall l, 0 <= l <= k -> (i + 6 * l) * (i + 6 * l) <= h) ->
    ~ (i + 6 * k | h) /\ ~ (i + 6 * k + 2 | h).
Proof.
  revert i. induction fuel as [|fuel IH]; intros i Hi; cbn [trial]; [split; [lia|done]|].
  assert (forall d, 0 < d -> Z.rem h d = 0 <-> (d | h)) as Hrem by (intros d Hd; rewrite Z.rem_divide by lia; done).
  destruct (Z.leb_spec (i * i) h) as [Hle|Hgt].
  - destruct (Z.eqb_spec (Z.rem h i) 0) as [E|E]; [|destruct (Z.eqb_spec (Z.rem h (i + 2)) 0) as [E'|E']].
    + split; [done|]. intros Hall. destruct (Hall 0) as [Hn _]; [lia|intros l ?; replace (i + 6 * l) with i by lia; done|].
      destruct Hn. apply Hrem in E; [|lia]. by replace (i + 6 * 0) with i by lia.
    + split; [done|]. intros Hall. destruct (Hall 0) as [_ Hn]; [lia|intros l ?; replace (i + 6 * l) with i by lia; done|].
      destruct Hn. apply Hrem in E'; [|lia]. by replace (i + 6 * 0 + 2) with (i + 2) by lia.
    + rewrite IH by lia. rewrite Hrem in E by lia. rewrite Hrem in E' by lia. split; intros Hall k Hk Hl.
      * destruct (decide (k = 0)) as [->|Hk0]; [by rewrite Z.mul_0_r, Z.add_0_r|].
        replace (i + 6 * k) with (i + 6 + 6 * (k - 1)) by lia. apply Hall; [lia|]. intros l Hl'.
        replace (i + 6 + 6 * l) with (i + 6 * (l + 1)) by lia. apply Hl. lia.
      * replace (i + 6 + 6 * k) with (i + 6 * (k + 1)) by lia. apply Hall; [lia|]. intros l Hl'.
        destruct (decide (l = 0)) as [->|]; [by rewrite Z.mul_0_r, Z.add_0_r|].
        replace (i + 6 * l) with (i + 6 + 6 * (l - 1)) by lia. apply Hl. lia.
  - split; [|done]. intros _ k Hk Hl. specialize (Hl 0 ltac:(lia)). lia.
Qed.

(** A number that is not prime has a divisor up to its square root. *)
Lemma small_divisor h : 1 < h -> ~ prime h -> exists d, 1 < d /\ d * d <= h /\ (d | h).
Proof.
  intros Hh Hnp. destruct (not_prime_divide h Hh Hnp) as (n & Hn & q & Hq).
  destruct (Z.leb_spec (n * n) h); [exists n; split_and!; [lia|done|by exists q]|].
  exists q. split_and!; [nia|nia|exists n; lia].
Qed.

(** The automatic checkpoints are at the prime heights. Trial division by the numbers next to the multiples of six
    recognises exactly the primes of the range. *)
Lemma is_prime_spec h : is_prime h = true <-> lowerBlockHeight < h < 15000000 /\ prime h.
Proof.
  unfold is_prime, lowerBlockHeight. rewrite Z.geb_leb. destruct (Z.leb_spec h 440000) as [H1|H1]; cbn [orb]; [split; [done|lia]|].
  destruct (Z.leb_spec 15000000 h) as [H2|H2]; [split; [done|lia]|].
  assert (forall d, 0 < d -> Z.rem h d = 0 <-> (d | h)) as Hrem by (intros d Hd; rewrite Z.rem_divide by lia; done).
  assert (forall d, 1 < d < h -> (d | h) -> ~ prime h) as Hcomp.
  { intros d Hd Hdiv Hp. apply prime_alt in Hp as [_ Hp]. by apply (Hp d). }
  destruct (Z.eqb_spec (Z.rem h 2) 0) as [E2|E2]; [split; [done|]; intros [_ Hp]; exfalso; apply (Hcomp 2); [lia|by apply Hrem|done]|].
  destruct (Z.eqb_spec (Z.rem h 3) 0) as [E3|E3]; [split; [done|]; intros [_ Hp]; exfalso; apply (Hcomp 3); [lia|by apply Hrem|done]|].
  cbn [orb]. rewrite trial_spec, Z2Nat.id by lia. rewrite Hrem in E2, E3 by lia. split.
  - intros Hall. split; [lia|]. destruct (prime_dec h) as [Hp|Hnp]; [done|exfalso].
    destruct (small_divisor h ltac:(lia) Hnp) as (d & Hd1 & Hd2 & Hd).
    assert (~ (2 | d)) as Hd2' by (intros ?; apply E2; by transitivity d).
    assert (~ (3 | d)) as Hd3' by (intros ?; apply E3; by transitivity d).
    assert (d mod 6 = 1 \/ d mod 6 = 5) as Hmod.
    { pose proof (Z.mod_pos_bound d 6 ltac:(lia)) as Hb. pose proof (Z.div_mod d 6 ltac:(lia)) as Hdm.
      destruct (decide (d mod 6 = 0)); [destruct Hd2'; exists (3 * (d / 6)); lia|].
      destruct (decide (d mod 6 = 2)); [destruct Hd2'; exists (3 * (d / 6) + 1); lia|].
      destruct (decide (d mod 6 = 3)); [destruct Hd3'; exists (2 * (d / 6) + 1); lia|].
      destruct (decide (d mod 6 = 4)); [destruct Hd2'; exists (3 * (d / 6) + 2); lia|]. lia. }
    pose proof (Z.div_mod d 6). destruct Hmod as [E|E].
    + destruct (Hall (d / 6 - 1)) as [_ Hn]; [nia|intros l Hl; nia|]. apply Hn. by replace (5 + 6 * (d / 6 - 1) + 2) with d by lia.
    + destruct (Hall (d / 6)) as [Hn _]; [nia|intros l Hl; nia|]. apply Hn. by replace (5 + 6 * (d / 6)) with d by lia.
  - intros [_ Hp] k Hk Hl. specialize (Hl k ltac:(lia)). split; intros Hdiv; (eapply Hcomp; [|exact Hdiv|done]); nia.
Qed.

End Checkpoints.
