(* ===== verification/Kernel.v ===== *)
(** * Kernel: stake modifiers and the proof-of-stake kernel ([kernel.cpp], [kernel_worker.cpp])

    How the modifier of a block is drawn from 64 earlier blocks, how the modifier of a kernel is found, and the
    test of a kernel against the target, weighted by coin age. *)
From stdpp Require Import sorting.
From S2P Require Import Prelude ScriptNum Script Serialize Crypto Transaction Merkle Uint256 BlockData LevelDB.
From S2P Require Import Keys SigCheck Interpreter Solver Inputs Difficulty ChainIndex.
Import Serialize Tx BlockData Script_param Inputs Difficulty ChainIndex.

Module Kernel.

(** The settings of the two networks ([block_check::mainnet], [block_check::testnet]) *)
Record stake_params : Type := StakeParams { sp_fTestNet : bool; sp_nStakeMinAge : Z; sp_nModifierInterval : Z }.
Definition mainnet_stake : stake_params := StakeParams false (8 * nOneHour) (10 * 60).
Definition testnet_stake : stake_params := StakeParams true (2 * nOneHour) (3 * 60).
Definition nStakeMaxAge : Z := 90 * nOneDay.
Definition MODIFIER_INTERVAL_RATIO : Z := 3.

(** A candidate block: its time and its hash *)
Abbreviation candidate := (Z * uint256)%type.

Section kernel.
Variable sp : stake_params.

Definition IsFixedModifierInterval (nTimeBlock : Z) : bool := nTimeBlock >=? GENESIS_TIME_STAMP.

(** ** The modifier of a block *)

(** The last entry that generated a modifier, or the first entry of the chain *)
Fixpoint last_generated (chain : list CBlockIndex) : option CBlockIndex :=
  match chain with
  | [] => None
  | b :: rest =>
      match rest with
      | [] => Some b
      | _ => if bi_GeneratedStakeModifier b then Some b else last_generated rest
      end
  end.

(** The modifier and its time; [None] is the result [false]. *)
Definition GetLastStakeModifier (chain : list CBlockIndex) : option (Z * Z) :=
  b ← last_generated chain;
  if bi_GeneratedStakeModifier b then Some (bi_nStakeModifier b, bi_nTime b) else None.

(** An unsigned product and quotient *)
Definition GetStakeModifierSelectionIntervalSection (nSection : Z) : Z :=
  u32 (sp_nModifierInterval sp * 63) / (63 + (63 - nSection) * (MODIFIER_INTERVAL_RATIO - 1)).
Definition GetStakeModifierSelectionInterval : Z :=
  fold_left (fun n i => n + GetStakeModifierSelectionIntervalSection (Z.of_nat i)) (seq 0 64) 0.

(** The selection hash: that of a proof-of-stake block is divided by 2^32. *)
Definition selection_hash (nStakeModifierPrev : Z) (b : CBlockIndex) : list Z :=
  let hashProof := if bi_IsProofOfStake b then bi_hashProofOfStake b else GetBlockHash b in
  let hashSelection := Uint256.of_bytes (Crypto.Hash (put (flat 32) hashProof ++ put (uint_le 8) nStakeModifierPrev)) in
  if bi_IsProofOfStake b then Uint256.shr hashSelection 32 else hashSelection.

(** The loop of [SelectBlockFromCandidates]: the outer option is [None] on an error, the inner one as long as no
    block is selected. *)
Fixpoint select_loop (m : BlockMap) (mapSelectedBlocks : gset uint256) (nSelectionIntervalStop nStakeModifierPrev : Z)
    (vSortedByTimestamp : list candidate) (best : option (list Z * CBlockIndex)) : option (option (list Z * CBlockIndex)) :=
  match vSortedByTimestamp with
  | [] => Some best
  | item :: rest =>
      match m !! item.2 with
      | None => None
      | Some pindex =>
          if bool_decide (is_Some best) && (bi_nTime pindex >? nSelectionIntervalStop) then Some best
          else if bool_decide (GetBlockHash pindex ∈ mapSelectedBlocks)
          then select_loop m mapSelectedBlocks nSelectionIntervalStop nStakeModifierPrev rest best
          else
            let hashSelection := selection_hash nStakeModifierPrev pindex in
            let best :=
              match best with
              | Some (hashBest, _) => if Uint256.ltb hashSelection hashBest then Some (hashSelection, pindex) else best
              | None => Some (hashSelection, pindex)
              end in
            select_loop m mapSelectedBlocks nSelectionIntervalStop nStakeModifierPrev rest best
      end
  end.
Definition SelectBlockFromCandidates (m : BlockMap) (vSortedByTimestamp : list candidate) (mapSelectedBlocks : gset uint256)
    (nSelectionIntervalStop nStakeModifierPrev : Z) : option CBlockIndex :=
  best ← select_loop m mapSelectedBlocks nSelectionIntervalStop nStakeModifierPrev vSortedByTimestamp None;
  snd <$> best.

(** The order of pairs: by time, then by the hash as a number *)
Definition candidate_le (a b : candidate) : Prop := a.1 < b.1 \/ (a.1 = b.1 /\ le_value a.2 <= le_value b.2).
#[local] Instance candidate_le_dec a b : Decision (candidate_le a b).
Proof. unfold candidate_le. apply _. Defined.

(** The entries of the chain from its tip on whose time is at least [start] *)
Fixpoint candidates (start : Z) (chain : list CBlockIndex) : list candidate :=
  match chain with
  | [] => []
  | b :: rest => if bi_nTime b >=? start then (bi_nTime b, GetBlockHash b) :: candidates start rest else []
  end.

(** The rounds from [nRound] on *)
Fixpoint rounds (n : nat) (m : BlockMap) (vSortedByTimestamp : list candidate) (nStakeModifier : Z) (nRound : Z)
    (nSelectionIntervalStop : Z) (mapSelectedBlocks : gset uint256) (nStakeModifierNew : Z) : option Z :=
  match n with
  | O => Some nStakeModifierNew
  | S n =>
      let nSelectionIntervalStop := nSelectionIntervalStop + GetStakeModifierSelectionIntervalSection nRound in
      pindex ← SelectBlockFromCandidates m vSortedByTimestamp mapSelectedBlocks nSelectionIntervalStop nStakeModifier;
      rounds n m vSortedByTimestamp nStakeModifier (nRound + 1) nSelectionIntervalStop ({[GetBlockHash pindex]} ∪ mapSelectedBlocks)
        (Z.lor nStakeModifierNew (u64 (Z.shiftl (bi_GetStakeEntropyBit pindex) nRound)))
  end.

(** [ComputeNextStakeModifier] of the entry [pindexCurrent] after the chain [prev]: the modifier and whether it
    is a new one *)
Definition ComputeNextStakeModifier (m : BlockMap) (pindexCurrent : CBlockIndex) (prev : list CBlockIndex) : option (Z * bool) :=
  match prev with
  | [] => Some (0, true)
  | pindexPrev :: _ =>
      '(nStakeModifier, nModifierTime) ← GetLastStakeModifier prev;
      let interval := sp_nModifierInterval sp in
      if Z.quot nModifierTime interval >=? Z.quot (bi_nTime pindexPrev) interval then Some (nStakeModifier, false)
      else if (Z.quot nModifierTime interval >=? Z.quot (bi_nTime pindexCurrent) interval)
              && IsFixedModifierInterval (bi_nTime pindexCurrent) then Some (nStakeModifier, false)
      else
        let nSelectionIntervalStart := Z.quot (bi_nTime pindexPrev) interval * interval - GetStakeModifierSelectionInterval in
        let vSortedByTimestamp := merge_sort candidate_le (reverse (candidates nSelectionIntervalStart prev)) in
        nStakeModifierNew ← rounds (Nat.min 64 (length vSortedByTimestamp)) m vSortedByTimestamp nStakeModifier 0
                              nSelectionIntervalStart ∅ 0;
        Some (nStakeModifierNew, true)
  end.

(** The checksum of the modifiers up to an entry *)
Definition GetStakeModifierChecksum (prev : option CBlockIndex) (pindex : CBlockIndex) : Z :=
  let ss := match prev with Some p => put (uint_le 4) (bi_nStakeModifierChecksum p) | None => [] end
            ++ put (uint_le 4) (bi_nFlags pindex) ++ put (flat 32) (bi_hashProofOfStake pindex)
            ++ put (uint_le 8) (bi_nStakeModifier pindex) in
  u32 (Uint256.Get64 0 (Uint256.shr (Uint256.of_bytes (Crypto.Hash ss)) (256 - 32))).

Definition mapStakeModifierCheckpoints : gmap Z Z :=
  list_to_map [(0, 0xe00670b); (377262, 0x10e0e614); (426387, 0xdf71ab5f); (434550, 0x2511363f)].
Definition mapStakeModifierCheckpointsTestNet : gmap Z Z := list_to_map [(0, 0xfd11f4e7)].
Definition CheckStakeModifierCheckpoints (nHeight nStakeModifierChecksum : Z) : bool :=
  match (if sp_fTestNet sp then mapStakeModifierCheckpointsTestNet else mapStakeModifierCheckpoints) !! nHeight with
  | Some c => nStakeModifierChecksum =? c
  | None => true
  end.

(** ** The modifier of a kernel *)

(** The entries after an entry along [pnext]; [fuel] bounds their number. *)
Fixpoint next_chain (fuel : nat) (m : BlockMap) (b : CBlockIndex) : list CBlockIndex :=
  match fuel, get_pnext m b with
  | S fuel, Some n => n :: next_chain fuel m n
  | _, _ => []
  end.

(** The loop along [pnext], from the entry [pindex] on; [stop] is the time to reach. *)
Fixpoint kernel_modifier_loop (stop nStakeModifierTime : Z) (pindex : CBlockIndex) (next : list CBlockIndex) : option Z :=
  if nStakeModifierTime <? stop then
    match next with
    | [] => None
    | n :: next => kernel_modifier_loop stop (if bi_GeneratedStakeModifier n then bi_nTime n else nStakeModifierTime) n next
    end
  else Some (bi_nStakeModifier pindex).
Definition GetKernelStakeModifier (m : BlockMap) (hashBlockFrom : uint256) : option Z :=
  pindexFrom ← m !! hashBlockFrom;
  kernel_modifier_loop (bi_nTime pindexFrom + GetStakeModifierSelectionInterval) (bi_nTime pindexFrom) pindexFrom
    (next_chain (size m) m pindexFrom).

(** ** The kernel *)

Definition GetWeight (nIntervalBeginning nIntervalEnd : Z) : Z :=
  Z.min (nIntervalEnd - nIntervalBeginning - sp_nStakeMinAge sp) nStakeMaxAge.

Definition coin_day_weight (nValueIn nTimeTxPrev nTimeTx : Z) : Z :=
  Z.quot (Z.quot (nValueIn * GetWeight nTimeTxPrev nTimeTx) block_params.COIN) nOneDay.

(** What a kernel hashes *)
Definition kernel_bytes (nStakeModifier nTimeBlockFrom nTxPrevOffset nTimeTxPrev n : Z) : bytes :=
  put (uint_le 8) nStakeModifier ++ put (uint_le 4) nTimeBlockFrom ++ put (uint_le 4) nTxPrevOffset
  ++ put (uint_le 4) nTimeTxPrev ++ put (uint_le 4) n.
Definition kernel_hash (kernel : bytes) (nTimeTx : Z) : uint256 := Crypto.Hash (kernel ++ put (uint_le 4) nTimeTx).

Section target.
Context `{MPI} `{BlockHash}.

(** The hash and the target of the proof of stake, when it is accepted *)
Definition CheckStakeKernelHash (m : BlockMap) (nBits : Z) (blockFrom : CBlockHeader) (nTxPrevOffset : Z) (txPrev : CTransaction)
    (prevout : COutPoint) (nTimeTx : Z) : res (uint256 * uint256) :=
  let! _ := reject_if (nTimeTx <? nTime txPrev) 0 in
  let nTimeBlockFrom := u32 (GetBlockTime blockFrom) in
  let! _ := reject_if (u32 (nTimeBlockFrom + sp_nStakeMinAge sp) >? nTimeTx) 0 in
  let bnTargetPerCoinDay := SetCompact nBits in
  let! o := or_abort (vout txPrev !! Z.to_nat (op_n prevout)) in
  let bnTarget := coin_day_weight (nValue o) (nTime txPrev) nTimeTx * bnTargetPerCoinDay in
  match GetKernelStakeModifier m (header_hash blockFrom) with
  | None => Reject 0
  | Some nStakeModifier =>
      let hashProofOfStake := kernel_hash (kernel_bytes nStakeModifier nTimeBlockFrom nTxPrevOffset (nTime txPrev) (op_n prevout)) nTimeTx in
      let! _ := reject_if (le_value hashProofOfStake >? bnTarget) 0 in
      Ok (hashProofOfStake, getuint256 bnTarget)
  end.

(** The node's files also hold the header of the block at a position. *)
Variable nd : node.
Variable ReadHeader : Z -> Z -> option CBlockHeader.
Context {D : Type} `{!TxDB D} {C : Type} `{!SigChecker C}.
Variables RIPEMD160 SHA1 SHA256 : bytes -> bytes.

Definition CheckProofOfStake (txdb : D) (m : BlockMap) (tx : CTransaction) (nBits : Z) (c : C) : res (uint256 * uint256) :=
  let! _ := reject_if (negb (IsCoinStake tx)) 0 in
  let! txin := or_abort (head (vin tx)) in
  let! prev := ReadFromDisk nd txdb (prevout txin) in
  match prev with
  | None => Reject 1
  | Some (txPrev, txindex) =>
      let! r := or_abort (VerifySignature RIPEMD160 SHA1 SHA256 txPrev tx 0 MANDATORY_SCRIPT_VERIFY_FLAGS 0 c) in
      let! _ := reject_if (negb r.1) 100 in
      match ReadHeader (nFile (pos txindex)) (nBlockPos (pos txindex)) with
      | None => Reject 0
      | Some block =>
          match CheckStakeKernelHash m nBits block (u32 (nTxPos (pos txindex) - nBlockPos (pos txindex))) txPrev (prevout txin) (nTime tx) with
          | Reject _ => Reject 1
          | r => r
          end
      end
  end.

(** ** Scanning for a kernel *)

(** The filter on the hash: the target of the greatest weight, as 256 bits *)
Definition max_target (nBits nValueIn : Z) : uint256 :=
  getuint256 (Z.quot (Z.quot (SetCompact nBits * nValueIn * nStakeMaxAge) block_params.COIN) nOneDay).
Definition kernel_solves (nBits nInputTxTime nValueIn : Z) (hash : uint256) (nTimeTx : Z) : bool :=
  negb (Uint256.gtb (Uint256.of_bytes hash) (Uint256.of_bytes (max_target nBits nValueIn)))
  && (coin_day_weight nValueIn nInputTxTime nTimeTx * SetCompact nBits >=? le_value hash).

(** [ScanKernelBackward]: the times from [first] down to [second] excluded, [n] of them *)
Fixpoint scan_backward (n : nat) (kernel : bytes) (nBits nInputTxTime nValueIn nTimeTx : Z) : option (uint256 * Z) :=
  match n with
  | O => None
  | S n =>
      let hash := kernel_hash (take 24 kernel) nTimeTx in
      if kernel_solves nBits nInputTxTime nValueIn hash nTimeTx then Some (hash, nTimeTx)
      else scan_backward n kernel nBits nInputTxTime nValueIn (nTimeTx - 1)
  end.
Definition ScanKernelBackward (kernel : bytes) (nBits nInputTxTime nValueIn first second : Z) : option (uint256 * Z) :=
  scan_backward (Z.to_nat (first - second)) kernel nBits nInputTxTime nValueIn first.

(** [Do_generic]: every turn of the loop runs into [assert(!...)] of a string, which fails. *)
Definition Do_generic (nIntervalBegin nIntervalEnd : Z) : res (list (uint256 * Z)) :=
  if nIntervalBegin <? nIntervalEnd then Aborts else Ok [].

(** [ScanKernelForward] with the given number of threads: the workers run on consecutive parts. *)
Fixpoint run_workers (n : nat) (nPart nBegin : Z) (solutions : list (uint256 * Z)) : res (list (uint256 * Z)) :=
  match n with
  | O => Ok solutions
  | S n =>
      let! ws := Do_generic (u32 nBegin) (u32 (nBegin + nPart)) in
      run_workers n nPart (nBegin + nPart) (solutions ++ ws)
  end.
Definition ScanKernelForward (nThreads first second : Z) : res (option (list (uint256 * Z))) :=
  let nThreads := if nThreads =? 0 then 1 else nThreads in
  let nPart := u32 (second - first) / nThreads in
  let! solutions := run_workers (Z.to_nat nThreads) nPart first [] in
  Ok (if bool_decide (solutions = []) then None else Some solutions).
End target.
End kernel.
End Kernel.
