(* ===== verification/KernelProps.v ===== *)
(** * KernelProps: what the stake modifiers and kernels of [Kernel] mean

    The rounds that draw a modifier refine an abstract drawing of pairwise distinct blocks; the loop for the
    modifier of a kernel ends; a kernel scan agrees with the check of the kernel. *)
From stdpp Require Import sorting.
From S2P Require Import Prelude ScriptNum Script Serialize Crypto Transaction Merkle Uint256 BlockData LevelDB.
From S2P Require Import Keys SigCheck Interpreter Solver Inputs Difficulty ChainIndex Kernel.
Import Serialize Tx BlockData Script_param Inputs Difficulty ChainIndex Kernel.

Module KernelProps.

(** ** Drawing a block *)

Section draw.
Variables (sp : stake_params) (m : BlockMap) (prev_modifier : Z).

(** What the selection minimises *)
Definition score (b : CBlockIndex) : Z := Uint256.value (selection_hash prev_modifier b).

(** The block of a candidate that is not selected yet *)
Definition unselected (v : list candidate) (sel : gset uint256) (b : CBlockIndex) : Prop :=
  exists c, c ∈ v /\ m !! c.2 = Some b /\ GetBlockHash b ∉ sel.

(** The draw of one round: the least score among the blocks not selected up to the time [stop], or the first
    block there is if none is that early *)
Record picks (v : list candidate) (sel : gset uint256) (stop : Z) (b : CBlockIndex) : Prop := Picks {
  pk_new : unselected v sel b;
  pk_least : bi_nTime b <= stop -> forall b', unselected v sel b' -> bi_nTime b' <= stop -> score b <= score b';
  pk_first : stop < bi_nTime b -> forall b', unselected v sel b' -> bi_nTime b <= bi_nTime b' }.

(** The candidates are entries of the index, with their time and hash. *)
Definition indexed (v : list candidate) : Prop :=
  Forall (fun c => exists b, m !! c.2 = Some b /\ bi_nTime b = c.1 /\ GetBlockHash b = c.2) v.
Definition by_time (v : list candidate) : Prop := StronglySorted (fun a b => a.1 <= b.1) v.

Lemma selection_hash_ok b : Uint256.uint_ok (selection_hash prev_modifier b) /\ length (selection_hash prev_modifier b) = 8%nat.
Proof.
  unfold selection_hash. cbn zeta. set (x := Crypto.Hash _).
  destruct (value_of_bytes x 8 (Crypto.Hash_bytes_ok _)) as (H1 & H2 & _); [apply Crypto.length_Hash|].
  destruct (bi_IsProofOfStake b); [|done]. destruct (Uint256.shr_spec (Uint256.of_bytes x) 32 H1) as (H3 & H4 & _); [lia|].
  split; [done|congruence].
Qed.

Lemma score_lt b b' : Uint256.ltb (selection_hash prev_modifier b) (selection_hash prev_modifier b') = (score b <? score b').
Proof.
  destruct (selection_hash_ok b) as [H1 H2]. destruct (selection_hash_ok b') as [H3 H4].
  unfold Uint256.ltb. rewrite Uint256.lt_loop_spec by congruence. by rewrite andb_false_r, orb_false_r.
Qed.

Lemma unselected_cons c v sel b : unselected (c :: v) sel b <->
  (m !! c.2 = Some b /\ GetBlockHash b ∉ sel) \/ unselected v sel b.
Proof.
  unfold unselected. split.
  - intros (d & [->|Hd]%elem_of_cons & Hm & Hs); [by left|right; by exists d].
  - intros [[Hm Hs]|(d & Hd & Hm & Hs)]; [exists c|exists d]; (split; [|done]); rewrite elem_of_cons; [by left|by right].
Qed.

Lemma unselected_time c v sel b : indexed v -> Forall (fun d => c <= d.1) v -> unselected v sel b -> c <= bi_nTime b.
Proof.
  intros Hi Ht (d & Hd & Hm & _). rewrite Forall_forall in Ht. unfold indexed in Hi. rewrite Forall_forall in Hi.
  destruct (Hi d Hd) as (b' & Hm' & Et & _). specialize (Ht d Hd). assert (b' = b) as -> by congruence. cbn beta in Ht. lia.
Qed.

(** Once a block is selected, the loop keeps the least score up to the time [stop]. *)
Lemma select_loop_some sel stop v b0 : indexed v -> by_time v ->
  exists b, select_loop m sel stop prev_modifier v (Some (selection_hash prev_modifier b0, b0))
      = Some (Some (selection_hash prev_modifier b, b))
    /\ score b <= score b0 /\ (b = b0 \/ (unselected v sel b /\ bi_nTime b <= stop))
    /\ (forall b', unselected v sel b' -> bi_nTime b' <= stop -> score b <= score b').
Proof.
  revert b0. induction v as [|c v IH]; intros b0 Hi Hs; cbn [select_loop].
  { exists b0. split_and!; [done|lia|by left|]. intros b' (c & Hc & _). by apply not_elem_of_nil in Hc. }
  apply Forall_cons in Hi as [(b & Hm & Ht & Hh) Hi]. apply StronglySorted_inv in Hs as [Hs Hle]. rewrite Hm.
  rewrite bool_decide_true by eauto. cbn [andb]. rewrite Z.gtb_ltb. destruct (Z.ltb_spec stop (bi_nTime b)) as [Hlt|Hge].
  { exists b0. split_and!; [done|lia|by left|]. intros b' [[Hb' _]|Hu]%unselected_cons Hst.
    - assert (b' = b) as -> by congruence. lia.
    - rewrite <-Ht in Hle. pose proof (unselected_time _ _ _ _ Hi Hle Hu). lia. }
  destruct (decide (GetBlockHash b ∈ sel)) as [Hsel|Hsel]; [rewrite bool_decide_true by done|rewrite bool_decide_false by done].
  - destruct (IH b0 Hi Hs) as (r & -> & H1 & H2 & H3). exists r. split_and!; [done|done| |].
    + destruct H2 as [->|[Hu Hst]]; [by left|right]. split; [|done]. apply unselected_cons. by right.
    + intros b' [[Hb' Hn]|Hu]%unselected_cons Hst; [congruence|by apply H3].
  - cbn zeta. rewrite score_lt. destruct (Z.ltb_spec (score b) (score b0)) as [Hb|Hb].
    + destruct (IH b Hi Hs) as (r & -> & H1 & H2 & H3). exists r. split_and!; [done|lia| |].
      * right. destruct H2 as [->|[Hu Hst]]; (split; [apply unselected_cons|done]); [by left|by right].
      * intros b' [[Hb' Hn]|Hu]%unselected_cons Hst; [|by apply H3]. assert (b' = b) as -> by congruence. done.
    + destruct (IH b0 Hi Hs) as (r & -> & H1 & H2 & H3). exists r. split_and!; [done|done| |].
      * destruct H2 as [->|[Hu Hst]]; [by left|right]. split; [|done]. apply unselected_cons. by right.
      * intros b' [[Hb' Hn]|Hu]%unselected_cons Hst; [|by apply H3]. assert (b' = b) as -> by congruence. lia.
Qed.

(** [SelectBlockFromCandidates] succeeds as long as a candidate is left, and picks. *)
Lemma select_picks sel stop v b1 : indexed v -> by_time v -> unselected v sel b1 ->
  exists b, SelectBlockFromCandidates m v sel stop prev_modifier = Some b /\ picks v sel stop b.
Proof.
  unfold SelectBlockFromCandidates. induction v as [|c v IH]; intros Hi Hs Hu; cbn [select_loop].
  { destruct Hu as (c & Hc & _). by apply not_elem_of_nil in Hc. }
  apply Forall_cons in Hi as [(b & Hm & Ht & Hh) Hi]. apply StronglySorted_inv in Hs as [Hs Hle]. rewrite Hm.
  rewrite bool_decide_false by (by intros [? ?]). cbn [andb].
  destruct (decide (GetBlockHash b ∈ sel)) as [Hsel|Hsel]; [rewrite bool_decide_true by done|rewrite bool_decide_false by done].
  - apply unselected_cons in Hu as [[Hb1 Hn]|Hu]; [congruence|].
    destruct (IH Hi Hs Hu) as (r & -> & [P1 P2 P3]). exists r. split; [done|]. split.
    + apply unselected_cons. by right.
    + intros Hst b' [[Hb' Hn]|Hu']%unselected_cons Hst'; [congruence|by apply P2].
    + intros Hst b' [[Hb' Hn]|Hu']%unselected_cons; [congruence|by apply P3].
  - cbn zeta. destruct (select_loop_some sel stop v b Hi Hs) as (r & -> & H1 & H2 & H3). cbn. exists r. split; [done|].
    assert (forall b', unselected v sel b' -> bi_nTime b <= bi_nTime b') as Hfirst.
    { intros b' Hu'. rewrite <-Ht in Hle. by apply (unselected_time _ v sel). }
    split.
    + apply unselected_cons. destruct H2 as [->|[? ?]]; [by left|by right].
    + intros Hst b' [[Hb' Hn]|Hu']%unselected_cons Hst'; [|by apply H3]. assert (b' = b) as -> by congruence. done.
    + intros Hst b' Hu'. destruct H2 as [->|[? ?]]; [|lia]. apply unselected_cons in Hu' as [[Hb' Hn]|Hu']; [|by apply Hfirst].
      assert (b' = b) as -> by congruence. lia.
Qed.

(** ** The rounds *)

(** The blocks drawn from a round on: each is picked among those not drawn before, up to a later time. *)
Inductive draws (v : list candidate) : Z -> Z -> gset uint256 -> list CBlockIndex -> Prop :=
  | draws_nil nRound stop sel : draws v nRound stop sel []
  | draws_cons nRound stop sel b bs :
      picks v sel (stop + GetStakeModifierSelectionIntervalSection sp nRound) b ->
      draws v (nRound + 1) (stop + GetStakeModifierSelectionIntervalSection sp nRound) ({[GetBlockHash b]} ∪ sel) bs ->
      draws v nRound stop sel (b :: bs).

(** The number with the entropy bits of the blocks, the first one lowest *)
Fixpoint entropy_bits (bs : list CBlockIndex) : Z :=
  match bs with
  | [] => 0
  | b :: bs => bi_GetStakeEntropyBit b + 2 * entropy_bits bs
  end.

Lemma draws_nodup v nRound stop sel bs : draws v nRound stop sel bs ->
  NoDup (GetBlockHash <$> bs) /\ Forall (fun b => GetBlockHash b ∉ sel) bs.
Proof.
  induction 1 as [nRound stop sel|nRound stop sel b bs [Hu _ _] Hd [Hnd Hf]]; [by split; constructor|].
  destruct Hu as (c & _ & _ & Hn). rewrite Forall_forall in Hf. split.
  - cbn. apply NoDup_cons. split; [|done]. intros (b' & E & Hb')%list_elem_of_fmap. apply (Hf b' Hb').
    rewrite <-E. apply elem_of_union_l. by apply elem_of_singleton.
  - constructor; [done|]. apply Forall_forall. intros b' Hb' Hs. apply (Hf b' Hb'). by apply elem_of_union_r.
Qed.

Lemma entropy_bit b : 0 <= bi_GetStakeEntropyBit b < 2.
Proof.
  unfold bi_GetStakeEntropyBit. change BLOCK_STAKE_ENTROPY with (Z.shiftl 1 1).
  assert (Z.shiftr (Z.land (bi_nFlags b) (Z.shiftl 1 1)) 1 = Z.land (Z.shiftr (bi_nFlags b) 1) (2 ^ 1 - 1)) as ->
    by (rewrite Z.shiftr_land; done).
  rewrite land_ones_mod by lia. apply Z.mod_pos_bound. lia.
Qed.

Lemma left_over (v : list candidate) (sel : gset uint256) : NoDup v.*2 -> (size sel < length v)%nat ->
  exists c, c ∈ v /\ c.2 ∉ sel.
Proof.
  intros Hnd Hlt. destruct (decide (Exists (fun c => c.2 ∉ sel) v)) as [Hex|Hno].
  { apply Exists_exists in Hex as (c & Hc & Hn). by exists c. }
  exfalso. apply not_Exists_Forall in Hno; [|apply _]. rewrite Forall_forall in Hno.
  assert (list_to_set (C := gset uint256) v.*2 ⊆ sel) as Hsub.
  { intros x Hx. apply elem_of_list_to_set, list_elem_of_fmap in Hx as (c & -> & Hc). specialize (Hno c Hc). cbn beta in Hno.
    by apply dec_stable. }
  apply subseteq_size in Hsub. rewrite size_list_to_set in Hsub by done. rewrite length_fmap in Hsub. lia.
Qed.

(** As long as candidates are left the rounds refine the abstract draws, and write one bit each. *)
Lemma rounds_draw n v nRound stop sel acc :
  indexed v -> by_time v -> NoDup v.*2 -> (size sel + n <= length v)%nat -> 0 <= nRound -> nRound + Z.of_nat n <= 64 ->
  0 <= acc < 2 ^ nRound ->
  exists bs, draws v nRound stop sel bs /\ length bs = n
    /\ rounds sp n m v prev_modifier nRound stop sel acc = Some (acc + 2 ^ nRound * entropy_bits bs).
Proof.
  intros Hi Ht Hnd. revert nRound stop sel acc. induction n as [|n IH]; intros nRound stop sel acc Hlen Hr Hr64 Hacc; cbn [rounds].
  { exists []. split_and!; [constructor|done|]. f_equal. cbn. lia. }
  destruct (left_over v sel Hnd) as (c & Hc & Hn); [lia|]. pose proof Hi as Hi'. unfold indexed in Hi'. rewrite Forall_forall in Hi'.
  destruct (Hi' c Hc) as (b0 & Hm0 & _ & Hh0). cbn zeta.
  destruct (select_picks sel (stop + GetStakeModifierSelectionIntervalSection sp nRound) v b0 Hi Ht) as (b & -> & Hp).
  { exists c. by rewrite Hh0. }
  cbn [mbind option_bind]. pose proof (entropy_bit b) as Hb.
  assert (Z.lor acc (u64 (Z.shiftl (bi_GetStakeEntropyBit b) nRound)) = acc + 2 ^ nRound * bi_GetStakeEntropyBit b) as ->.
  { rewrite u64_small.
    - rewrite lor_shiftl_add by lia. lia.
    - rewrite Z.shiftl_mul_pow2 by lia. assert (0 < 2 ^ nRound <= 2 ^ 63) by (split; [lia|apply Z.pow_le_mono_r; lia]). nia. }
  destruct (IH (nRound + 1) (stop + GetStakeModifierSelectionIntervalSection sp nRound) ({[GetBlockHash b]} ∪ sel)
    (acc + 2 ^ nRound * bi_GetStakeEntropyBit b)) as (bs & Hd & Hl & ->).
  - rewrite size_union, size_singleton; [lia|]. destruct Hp as [(d & _ & _ & Hns) _ _]. apply disjoint_singleton_l. exact Hns.
  - lia.
  - lia.
  - rewrite Z.pow_add_r by lia. change (2 ^ 1) with 2. nia.
  - exists (b :: bs). split_and!; [by constructor|cbn; lia|]. cbn [entropy_bits]. f_equal. rewrite Z.pow_add_r by lia. lia.
Qed.
End draw.
(** ** The next modifier *)

#[export] Instance candidate_le_total : Total candidate_le.
Proof. intros a b. unfold candidate_le. lia. Qed.
#[export] Instance candidate_le_trans : Transitive candidate_le.
Proof. intros a b c. unfold candidate_le. lia. Qed.

Lemma merge_sort_by_time v : by_time (merge_sort candidate_le v).
Proof.
  pose proof (StronglySorted_merge_sort candidate_le v) as Hs. unfold by_time. revert Hs. generalize (merge_sort candidate_le v).
  induction 1 as [|c l Hs IH Hf]; constructor; [done|]. eapply Forall_impl; [exact Hf|]. unfold candidate_le. lia.
Qed.

(** The candidates are a prefix of the chain. *)
Lemma candidates_prefix start chain : exists k,
  candidates start chain = (fun b => (bi_nTime b, GetBlockHash b)) <$> take k chain /\ Forall (fun b => start <= bi_nTime b) (take k chain).
Proof.
  induction chain as [|b chain (k & E & Hf)]; [by exists 0%nat|]. cbn [candidates]. rewrite Z.geb_leb.
  destruct (Z.leb_spec start (bi_nTime b)); [|by exists 0%nat]. rewrite E. exists (S k). split; [done|by constructor].
Qed.

Lemma candidates_indexed m start h b : index_wf m -> m !! h = Some b ->
  indexed m (candidates start (chain_of m b)) /\ NoDup (candidates start (chain_of m b)).*2.
Proof.
  intros Hwf Hb. destruct (candidates_prefix start (chain_of m b)) as (k & -> & _). split.
  - unfold indexed. rewrite Forall_fmap. apply Forall_take, Forall_lookup. intros i b' Hi.
    destruct (chain_of_spec m Hwf h b Hb) as [_ Hs]. apply Hs in Hi as [_ Hm]. by exists b'.
  - rewrite <-list_fmap_compose, fmap_take. eapply sublist_NoDup; [apply (chain_of_nodup m Hwf h b Hb)|]. apply sublist_take.
Qed.

(** Whether the modifier is drawn anew: the previous block, and by the fixed protocol the block itself, are in a
    later interval than the last modifier. *)
Definition later_interval (sp : stake_params) (nModifierTime : Z) (prev cur : CBlockIndex) : bool :=
  (nModifierTime ÷ sp_nModifierInterval sp <? bi_nTime prev ÷ sp_nModifierInterval sp)
  && ((nModifierTime ÷ sp_nModifierInterval sp <? bi_nTime cur ÷ sp_nModifierInterval sp)
      || negb (IsFixedModifierInterval (bi_nTime cur))).

(** The stake modifier after a block of a well-formed index. The computation never fails.
    Unless the previous block (and, by the fixed protocol, the block itself) is in a later interval, the last modifier is
    kept. Otherwise the new modifier consists of the entropy bits, the first one lowest, of as many blocks as there
    are candidates, at most 64; the candidates are those entries of the chain from its tip on that
    reach back to the start of the selection interval, and the blocks are the outcome of the abstract draws over
    them: pairwise distinct, each with the least selection hash among the blocks not drawn before up to the end of its
    section of the interval (the earliest block there is if none is that early). *)
Lemma next_modifier_drawn sp m h prev cur nStakeModifier nModifierTime :
  index_wf m -> m !! h = Some prev -> GetLastStakeModifier (chain_of m prev) = Some (nStakeModifier, nModifierTime) ->
  exists new, ComputeNextStakeModifier sp m cur (chain_of m prev) = Some (new, later_interval sp nModifierTime prev cur)
    /\ if later_interval sp nModifierTime prev cur then
         let start := bi_nTime prev ÷ sp_nModifierInterval sp * sp_nModifierInterval sp - GetStakeModifierSelectionInterval sp in
         exists v bs, v ≡ₚ candidates start (chain_of m prev) /\ by_time v
           /\ draws sp m nStakeModifier v 0 start ∅ bs /\ length bs = Nat.min 64 (length v)
           /\ NoDup (GetBlockHash <$> bs) /\ new = entropy_bits bs
       else new = nStakeModifier.
Proof.
  intros Hwf Hp Hlast. unfold ComputeNextStakeModifier. destruct (chain_of m prev) as [|p rest] eqn:Ec.
  { by rewrite (chain_of_cons m Hwf h) in Ec by done. }
  assert (p = prev) as -> by (rewrite (chain_of_cons m Hwf h) in Ec by done; congruence). rewrite <-Ec in Hlast |- *.
  rewrite Hlast. cbn [mbind option_bind]. cbn zeta. unfold later_interval. set (i := sp_nModifierInterval sp).
  rewrite !Z.geb_leb, !(Z.leb_antisym (nModifierTime ÷ i)).
  assert (forall b f : bool, b || negb f = negb (negb b && f)) as -> by by intros [] [].
  destruct (nModifierTime ÷ i <? bi_nTime prev ÷ i); cbn [andb negb]; [|by exists nStakeModifier].
  destruct (_ && IsFixedModifierInterval _); cbn [negb]; [by exists nStakeModifier|].
  set (start := _ - _). set (v := merge_sort candidate_le _).
  assert (v ≡ₚ candidates start (chain_of m prev)) as Hv by (unfold v; by rewrite merge_sort_Permutation, reverse_Permutation).
  destruct (candidates_indexed m start h prev Hwf Hp) as [Hi Hnd].
  destruct (rounds_draw sp m nStakeModifier (Nat.min 64 (length v)) v 0 start ∅ 0) as (bs & Hd & Hl & E).
  - unfold indexed. by rewrite Hv.
  - apply merge_sort_by_time.
  - by rewrite Hv.
  - rewrite size_empty. lia.
  - lia.
  - lia.
  - done.
  - rewrite E. cbn [mbind option_bind]. eexists. split; [done|]. exists v, bs. split_and!; try done.
    + apply merge_sort_by_time.
    + by apply draws_nodup in Hd as [? _].
    + lia.
Qed.
(** Four blocks; the third one, of proof of stake, and the last one carry the entropy bit. *)
Definition ex_entry (i : nat) (time flags : Z) : CBlockIndex :=
  BlockIndex (BlockHeader 1 (uint256_of 0) (uint256_of 0) time 0x1e0fffff 0) (Some (uint256_of (Z.of_nat i)))
    (match i with O => None | S j => Some (uint256_of (Z.of_nat j)) end) None 0 0 0 (Z.of_nat i) 0 0 7 0
    COutPoint_SetNull 0 (uint256_of (100 + Z.of_nat i)) flags.
Definition ex_entries : list CBlockIndex :=
  [ex_entry 0 1546300800 4; ex_entry 1 1546300900 0; ex_entry 2 1546301300 3; ex_entry 3 1546301500 2].
Definition ex_index : BlockMap := list_to_map ((fun b => (GetBlockHash b, b)) <$> ex_entries).

Lemma next_modifier_drawn_witness :
  exists new, ComputeNextStakeModifier mainnet_stake ex_index (ex_entry 4 1546302600 0) (chain_of ex_index (ex_entry 3 1546301500 2)) = Some (new, true).
Proof.
  destruct (next_modifier_drawn mainnet_stake ex_index (uint256_of 3) (ex_entry 3 1546301500 2) (ex_entry 4 1546302600 0) 7 1546300800)
    as (new & H & _).
  - apply index_wf_check. vm_compute. reflexivity.
  - vm_compute. reflexivity.
  - vm_compute. reflexivity.
  - exists new. rewrite H. reflexivity.
Defined.

(** The modifier of these four blocks: those with the entropy bit are the third and fourth to be drawn. *)
Example ex_modifier :
  ComputeNextStakeModifier mainnet_stake ex_index (ex_entry 4 1546302600 0) (chain_of ex_index (ex_entry 3 1546301500 2)) = Some (12, true).
Proof. vm_compute. reflexivity. Qed.

(** ** The modifier of a kernel *)

Section kernel_modifier.
Variables (sp : stake_params) (m : BlockMap).

(** The entries along [pnext] are those after the entry in the main chain: each is one higher. *)
Definition next_wf : Prop := forall h b b', m !! h = Some b -> get_pnext m b = Some b' -> bi_nHeight b' = bi_nHeight b + 1.

(** An entry that ends the search: it generated a modifier, [stop] at the earliest *)
Definition ends_search (stop : Z) (b : CBlockIndex) : bool := bi_GeneratedStakeModifier b && (stop <=? bi_nTime b).

Lemma kernel_modifier_loop_find stop t b next : t < stop ->
  kernel_modifier_loop stop t b next = bi_nStakeModifier <$> List.find (ends_search stop) next.
Proof.
  revert t b. induction next as [|n next IH]; intros t b Ht; cbn [kernel_modifier_loop]; rewrite (proj2 (Z.ltb_lt t stop)) by done; [done|].
  cbn [List.find]. unfold ends_search at 1. destruct (bi_GeneratedStakeModifier n); cbn [andb]; [|by apply IH].
  destruct (Z.leb_spec stop (bi_nTime n)) as [Hs|Hs]; [|by apply IH].
  destruct next; cbn [kernel_modifier_loop]; by rewrite (proj2 (Z.ltb_ge (bi_nTime n) stop)).
Qed.

Lemma next_chain_spec fuel b i b' : next_chain fuel m b !! i = Some b' -> next_wf -> (exists h, m !! h = Some b) ->
  bi_nHeight b' = bi_nHeight b + Z.of_nat i + 1 /\ (exists h, m !! h = Some b').
Proof.
  revert b i. induction fuel as [|fuel IH]; intros b i Hi Hwf [h Hb]; [done|]. cbn [next_chain] in Hi.
  destruct (get_pnext m b) as [n|] eqn:En; [|done]. pose proof (Hwf h b n Hb En) as Hn.
  assert (exists h, m !! h = Some n) as Hm.
  { unfold get_pnext in En. destruct (bi_pnext b) as [p|]; [by exists p|done]. }
  destruct i as [|i]; [injection Hi as <-; split; [lia|done]|]. destruct (IH n i Hi Hwf Hm) as [-> ?]. split; [lia|done].
Qed.

(** The fuel is enough: the entries have different heights, so the index would have to hold more. *)
Lemma next_chain_short b : next_wf -> (exists h, m !! h = Some b) -> (length (next_chain (size m) m b) < size m)%nat.
Proof.
  intros Hwf Hb. set (l := next_chain (size m) m b). set (l' := bi_nHeight <$> b :: l).
  assert (NoDup l') as Hnd.
  { apply NoDup_alt. intros [|i] [|j] x; unfold l'; rewrite !list_lookup_fmap; intros (b1 & H1 & E1)%fmap_Some (b2 & H2 & E2)%fmap_Some;
      cbn in H1, H2; simplify_eq; try done;
      repeat match goal with H : l !! _ = Some _ |- _ => apply next_chain_spec in H as [? _]; [|done..] end; lia. }
  assert (l' ⊆+ (bi_nHeight ∘ snd) <$> map_to_list m) as Hsub%submseteq_length.
  { apply NoDup_submseteq; [done|]. intros x (b1 & -> & Hin)%list_elem_of_fmap. apply list_elem_of_fmap.
    assert (exists h, m !! h = Some b1) as [h Hh]; [|by exists (h, b1); split; [|apply elem_of_map_to_list]].
    apply elem_of_cons in Hin as [->|[i Hi]%list_elem_of_lookup]; [done|]. by apply next_chain_spec in Hi as [_ ?]. }
  unfold l' in Hsub. rewrite !length_fmap, length_map_to_list in Hsub. cbn in Hsub. lia.
Qed.
(** The entries [l] and then [b'] follow the entry along [pnext]. *)
Inductive follows : CBlockIndex -> list CBlockIndex -> CBlockIndex -> Prop :=
  | follows_one b b' : get_pnext m b = Some b' -> follows b [] b'
  | follows_more b n l b' : get_pnext m b = Some n -> follows n l b' -> follows b (n :: l) b'.

Lemma next_chain_follows fuel b l b' : follows b l b' ->
  if decide (length l < fuel)%nat then exists rest, next_chain fuel m b = l ++ b' :: rest else length (next_chain fuel m b) = fuel.
Proof.
  intros Hf. revert fuel. induction Hf as [b b' Hn|b n l b' Hn Hf IH]; intros [|fuel]; cbn [next_chain length app].
  1, 3: by rewrite decide_False by lia.
  - rewrite Hn, decide_True by lia. by eexists.
  - rewrite Hn. specialize (IH fuel). destruct (decide (length l < fuel)%nat).
    + rewrite decide_True by lia. destruct IH as [rest ->]. by exists rest.
    + rewrite decide_False by lia. cbn. by rewrite IH.
Qed.

Lemma follows_next_chain fuel b l b' rest : next_chain fuel m b = l ++ b' :: rest -> follows b l b'.
Proof.
  revert b l. induction fuel as [|fuel IH]; intros b l E; [by destruct l|]. cbn [next_chain] in E.
  destruct (get_pnext m b) as [n|] eqn:En; [|by destruct l]. destruct l as [|x l]; injection E as -> E; [by constructor|].
  apply (follows_more _ _ _ _ En). by apply IH.
Qed.

Lemma find_first {A} (p : A -> bool) l x : List.find p l = Some x <->
  exists before rest, l = before ++ x :: rest /\ Forall (fun y => p y = false) before /\ p x = true.
Proof.
  split.
  - induction l as [|y l IH]; [done|]. cbn. destruct (p y) eqn:E; [intros [= <-]; by exists [], l|].
    intros (before & rest & -> & Hb & Hx)%IH. exists (y :: before), rest. split_and!; [done|by constructor|done].
  - intros (before & rest & -> & Hb & Hx). induction Hb as [|y before Hy Hb IH]; cbn; [by rewrite Hx|by rewrite Hy].
Qed.

(** The modifier a kernel hashes is that of the first entry after the block of the staked output, along
    the main chain, that generated a modifier a selection interval later at the earliest. The search finds it whenever
    there is one (the loop of [GetKernelStakeModifier] cannot run out of entries of a finite index), and otherwise
    fails, having reached the best block. *)
Lemma kernel_modifier_found hashBlockFrom pindexFrom nStakeModifier :
  next_wf -> m !! hashBlockFrom = Some pindexFrom -> 0 < GetStakeModifierSelectionInterval sp ->
  let found := ends_search (bi_nTime pindexFrom + GetStakeModifierSelectionInterval sp) in
  GetKernelStakeModifier sp m hashBlockFrom = Some nStakeModifier <->
  exists l b, follows pindexFrom l b /\ Forall (fun b => found b = false) l /\ found b = true /\ nStakeModifier = bi_nStakeModifier b.
Proof.
  intros Hwf Hm Hpos found. unfold GetKernelStakeModifier. rewrite Hm. cbn [mbind option_bind].
  rewrite kernel_modifier_loop_find by lia. fold found. rewrite fmap_Some. split.
  - intros (b & (l & rest & E & Hl & Hb)%find_first & ->). exists l, b. split_and!; try done. by eapply follows_next_chain.
  - intros (l & b & Hf & Hl & Hb & ->). exists b. split; [|done]. apply find_first.
    assert (length (next_chain (size m) m pindexFrom) < size m)%nat as Hs by (apply next_chain_short; eauto).
    pose proof (next_chain_follows (size m) _ _ _ Hf) as Hn. destruct (decide _); [|lia]. destruct Hn as [rest E]. by exists l, rest.
Qed.
End kernel_modifier.

(** A main chain of three entries, the last one with a modifier a selection interval after the first *)
Definition ex_next (i : nat) (time flags : Z) : CBlockIndex :=
  set_pnext (if (i <? 2)%nat then Some (uint256_of (Z.of_nat (S i))) else None) (ex_entry i time flags).
Definition ex_main : BlockMap :=
  list_to_map ((fun b => (GetBlockHash b, b)) <$> [ex_next 0 1546300800 4; ex_next 1 1546301500 4; ex_next 2 1546401500 4]).

Lemma ex_interval : GetStakeModifierSelectionInterval mainnet_stake = 21135.
Proof. vm_compute. reflexivity. Qed.

Lemma kernel_modifier_found_witness : GetKernelStakeModifier mainnet_stake ex_main (uint256_of 0) = Some 7.
Proof.
  apply (kernel_modifier_found mainnet_stake ex_main (uint256_of 0) (ex_next 0 1546300800 4) 7).
  - intros h b b' Hb Hn. assert (forallb (fun e => match get_pnext ex_main e.2 with Some b' => bi_nHeight b' =? bi_nHeight e.2 + 1 | None => true end)
      (map_to_list ex_main) = true) as Hall by (vm_compute; reflexivity).
    rewrite forallb_forall in Hall. specialize (Hall (h, b) (proj1 (list_elem_of_In _ _) (proj2 (elem_of_map_to_list _ _ _) Hb))).
    cbn [snd] in Hall. rewrite Hn in Hall. lia.
  - vm_compute. reflexivity.
  - rewrite ex_interval. lia.
  - exists [ex_next 1 1546301500 4], (ex_next 2 1546401500 4). rewrite ex_interval. split_and!.
    + apply follows_more; [vm_compute; reflexivity|]. apply follows_one. vm_compute. reflexivity.
    + repeat constructor.
    + reflexivity.
    + reflexivity.
Defined.
(** ** Scanning for a kernel *)

(** Quotients of a product by the greatest weight bound those of a smaller one. *)
Lemma quot_bound t v w a c d : 0 <= t -> 0 <= v -> w <= a -> 0 <= a -> 0 < c -> 0 < d ->
  v * w ÷ c ÷ d * t <= t * v * a ÷ c ÷ d.
Proof.
  intros Ht Hv Hw Ha Hc Hd. rewrite !Z.quot_quot by lia. rewrite (Z.quot_div_nonneg (t * v * a)) by nia.
  transitivity (v * a ÷ (c * d) * t).
  - apply Z.mul_le_mono_nonneg_r; [done|]. apply Z.quot_le_mono; nia.
  - rewrite Z.quot_div_nonneg by nia. rewrite Z.mul_comm, <-Z.mul_assoc. apply Z.div_mul_le; nia.
Qed.

Section scan.
Variable sp : stake_params.
Context `{MPILaws} `{BlockHash}.
Variables (kernel : bytes) (nBits nInputTxTime nValueIn : Z).

(** The hash of a time meets the target. *)
Definition meets (nTimeTx : Z) : Prop :=
  le_value (kernel_hash (take 24 kernel) nTimeTx) <= coin_day_weight sp nValueIn nInputTxTime nTimeTx * SetCompact nBits.
Definition max_target_value : Z := SetCompact nBits * nValueIn * nStakeMaxAge ÷ block_params.COIN ÷ nOneDay.

(** The filter on the greatest target drops no hash that meets its own target. *)
Lemma kernel_solves_meets nTimeTx : 0 <= nValueIn -> 0 <= SetCompact nBits -> 0 < max_target_value < 2 ^ 256 ->
  kernel_solves sp nBits nInputTxTime nValueIn (kernel_hash (take 24 kernel) nTimeTx) nTimeTx = true <-> meets nTimeTx.
Proof.
  intros Hv Ht Hmax. unfold kernel_solves, meets. set (h := kernel_hash _ _).
  destruct (value_of_bytes h 8 (Crypto.Hash_bytes_ok _)) as (V1 & V2 & V3); [apply Crypto.length_Hash|].
  destruct (getuint256_value max_target_value Hmax) as (G1 & G2 & G3).
  destruct (value_of_bytes (max_target nBits nValueIn) 8 G1 G2) as (W1 & W2 & W3).
  unfold Uint256.gtb. rewrite Uint256.gt_lt_loop, Uint256.lt_loop_spec by (done || congruence).
  rewrite V3, W3. change (le_value (max_target nBits nValueIn)) with (le_value (getuint256 max_target_value)). rewrite G3.
  rewrite andb_false_r, orb_false_r, andb_true_iff, negb_true_iff, Z.ltb_ge, Z.geb_leb, Z.leb_le.
  split; [by intros [_ ?]|]. intros Hm. split; [|done]. etransitivity; [exact Hm|].
  unfold coin_day_weight, max_target_value. apply quot_bound; [done|done|unfold GetWeight; apply Z.le_min_r|..]; vm_compute; congruence.
Qed.

Lemma scan_backward_spec n t0 hash t : (forall t, kernel_solves sp nBits nInputTxTime nValueIn (kernel_hash (take 24 kernel) t) t = true <-> meets t) ->
  scan_backward sp n kernel nBits nInputTxTime nValueIn t0 = Some (hash, t) <->
  t0 - Z.of_nat n < t <= t0 /\ hash = kernel_hash (take 24 kernel) t /\ meets t /\ forall t', t < t' <= t0 -> ~ meets t'.
Proof.
  intros Hs. revert t0. induction n as [|n IH]; intros t0; cbn [scan_backward]; [split; [done|lia]|].
  destruct (kernel_solves sp nBits nInputTxTime nValueIn (kernel_hash (take 24 kernel) t0) t0) eqn:E.
  - apply Hs in E. split; [intros [= <- <-]; split_and!; [lia..|done|done|lia]|]. intros (Hr & -> & Hm & Hno).
    destruct (decide (t = t0)) as [->|]; [done|]. by destruct (Hno t0); [lia|].
  - assert (~ meets t0) as Hn by (rewrite <-Hs; congruence). rewrite IH. split; intros (Hr & -> & Hm & Hno); split_and!; try done; try lia.
    + intros t' Ht'. destruct (decide (t' = t0)) as [->|]; [done|apply Hno; lia].
    + destruct (decide (t = t0)) as [->|]; [done|lia].
    + intros t' Ht'. apply Hno. lia.
Qed.
End scan.

Section agree.
Variable sp : stake_params.
Context `{MPILaws} `{BlockHash}.

Lemma kernel_bytes_length md t o tp n : length (kernel_bytes md t o tp n) = 24%nat.
Proof. unfold kernel_bytes. cbn [put uint_le]. by rewrite !length_app, !length_le_bytes. Qed.

(** The minter's scan and the validator's check agree. For a staked output whose modifier is known, over
    an interval of times after the output and its minimal age, [ScanKernelBackward] returns exactly the latest time at which
    [CheckStakeKernelHash] accepts the kernel, with the hash that check computes; the check rejects every later time of
    the interval. The target of the greatest weight is supposed to fit 256 bits, as the scan cuts it there. *)
Lemma scan_agrees_with_check m nBits blockFrom nTxPrevOffset txPrev prevout o nStakeModifier first second hash t :
  vout txPrev !! Z.to_nat (op_n prevout) = Some o -> 0 <= nValue o -> 0 <= SetCompact nBits ->
  0 < max_target_value nBits (nValue o) < 2 ^ 256 ->
  GetKernelStakeModifier sp m (header_hash blockFrom) = Some nStakeModifier ->
  nTime txPrev <= second + 1 -> u32 (u32 (GetBlockTime blockFrom) + sp_nStakeMinAge sp) <= second + 1 ->
  let check := CheckStakeKernelHash sp m nBits blockFrom nTxPrevOffset txPrev prevout in
  ScanKernelBackward sp (kernel_bytes nStakeModifier (u32 (GetBlockTime blockFrom)) nTxPrevOffset (nTime txPrev) (op_n prevout))
    nBits (nTime txPrev) (nValue o) first second = Some (hash, t) <->
  second < t <= first /\ (exists target, check t = Ok (hash, target)) /\ forall t', t < t' <= first -> check t' = Reject 0.
Proof.
  intros Ho Hv Ht Hmax Hmod Htp Hage check. set (kernel := kernel_bytes _ _ _ _ _).
  assert (take 24 kernel = kernel) as Hk by (apply take_ge; unfold kernel; by rewrite kernel_bytes_length).
  set (ms := meets sp kernel nBits (nTime txPrev) (nValue o)).
  assert (forall t', second < t' -> (ms t' -> exists target, check t' = Ok (kernel_hash kernel t', target)) /\ (~ ms t' -> check t' = Reject 0)) as Hc.
  { intros t' Ht'. unfold check, CheckStakeKernelHash, ms, meets. rewrite Hk.
    rewrite (proj2 (Z.ltb_ge _ _)) by lia. cbn [reject_if res_bind]. rewrite Z.gtb_ltb, (proj2 (Z.ltb_ge _ _)) by lia. cbn [reject_if res_bind].
    rewrite Ho. cbn [or_abort res_bind]. rewrite Hmod. fold kernel. rewrite Z.gtb_ltb.
    destruct (Z.ltb_spec (coin_day_weight sp (nValue o) (nTime txPrev) t' * SetCompact nBits) (le_value (kernel_hash kernel t'))); cbn [reject_if res_bind].
    - split; [lia|done].
    - split; [intros _; by eexists|lia]. }
  assert (forall t', Decision (ms t')) as Hdec by (intros; unfold ms, meets; apply _).
  unfold ScanKernelBackward. rewrite scan_backward_spec by (intros; by apply kernel_solves_meets). rewrite Hk. fold ms. split.
  - intros (Hr & -> & Hm & Hno). split_and!; [lia..|by apply Hc; [lia|]|]. intros t' Ht'. apply Hc; [lia|by apply Hno].
  - intros (Hr & (target & Et) & Hno). destruct (Hc t) as [Hy Hn]; [lia|]. destruct (Hdec t) as [Hm|Hm].
    + destruct (Hy Hm) as [? E]. split_and!; [lia|lia|congruence|done|]. intros t' Ht' Hm'. specialize (Hno t' Ht').
      destruct (Hc t') as [Hy' _]; [lia|]. destruct (Hy' Hm') as [? E']. congruence.
    + rewrite (Hn Hm) in Et. done.
Qed.
End agree.
(** A coin staked at the greatest weight, a hundred days after its output *)
Definition ex_prev : CTransaction := Transaction 1 1546300800 [] [TxOut block_params.COIN []] 0.
Definition ex_from : CBlockHeader := BlockHeader 1 (uint256_of 0) (uint256_of 0) 1546300800 0 0.
#[local] Instance ex_block_hash : BlockHash := fun _ => uint256_of 0.
Definition ex_kernel : bytes := kernel_bytes 7 1546300800 81 1546300800 0.
Definition ex_first : Z := 1546300800 + 100 * nOneDay.
Definition ex_solution : uint256 :=
  [212; 184; 73; 147; 138; 67; 141; 74; 188; 109; 171; 98; 254; 192; 121; 238; 215; 255; 210; 21; 92; 38; 106; 23; 114; 249; 251; 51;
   19; 152; 79; 38].

Lemma scan_agrees_with_check_witness : exists target,
  CheckStakeKernelHash mainnet_stake ex_main 0x20010000 ex_from 81 ex_prev (OutPoint (uint256_of 5) 0) (ex_first - 2) = Ok (ex_solution, target).
Proof.
  destruct (scan_agrees_with_check mainnet_stake ex_main 0x20010000 ex_from 81 ex_prev (OutPoint (uint256_of 5) 0)
    (TxOut block_params.COIN []) 7 ex_first (ex_first - 10) ex_solution (ex_first - 2)) as [Hto _].
  - reflexivity.
  - vm_compute. congruence.
  - vm_compute. congruence.
  - vm_compute. split; reflexivity.
  - vm_compute. reflexivity.
  - vm_compute. congruence.
  - vm_compute. congruence.
  - destruct Hto as (_ & Hacc & _); [vm_compute; reflexivity|exact Hacc].
Defined.
(** ** Scanning forward *)

(** [ScanKernelForward] aborts as soon as the interval has a second for each thread: the assertion of a negated
    string in the workers' loop. *)
Lemma scan_forward_aborts nThreads first second : 0 <= nThreads < 2 ^ 32 -> 0 <= first -> second < 2 ^ 32 ->
  Z.max 1 nThreads <= second - first -> ScanKernelForward nThreads first second = Aborts.
Proof.
  intros Hn Hf Hs Hlen. unfold ScanKernelForward. cbn zeta.
  set (k := if nThreads =? 0 then 1 else nThreads). assert (1 <= k <= second - first) as Hk by (unfold k; destruct (Z.eqb_spec nThreads 0); lia).
  rewrite (u32_small (second - first)) by lia. set (nPart := (second - first) / k).
  assert (1 <= nPart <= second - first) as Hp.
  { split; [apply Z.div_le_lower_bound; lia|]. apply Z.div_le_upper_bound; nia. }
  destruct (Z.to_nat k) as [|n] eqn:E; [lia|]. cbn [run_workers]. unfold Do_generic.
  rewrite (u32_small first), (u32_small (first + nPart)) by lia. by rewrite (proj2 (Z.ltb_lt _ _)) by lia.
Qed.
End KernelProps.
