(* ===== verification/InputsProps.v ===== *)
(** * InputsProps: what connecting and disconnecting a transaction guarantees *)
From S2P Require Import Prelude ScriptNum Script Serialize Crypto Transaction BlockData LevelDB Keys SigCheck Interpreter Solver Inputs.
Import Tx BlockData Script_param Inputs.

Module InputsProps.

(** ** Results *)

Lemma res_bind_ok {A B} (m : res A) (k : A -> res B) b :
  res_bind m k = Ok b <-> exists a, m = Ok a /\ k a = Ok b.
Proof.
  split; [destruct m as [a| | |]; [by exists a|done..]|]. by intros (a & -> & Hk).
Qed.
Lemma or_throw_ok {A} (o : option A) a : or_throw o = Ok a <-> o = Some a.
Proof. destruct o; cbn; split; congruence. Qed.
Lemma or_abort_ok {A} (o : option A) a : or_abort o = Ok a <-> o = Some a.
Proof. destruct o; cbn; split; congruence. Qed.
Lemma reject_if_ok b d u : reject_if b d = Ok u <-> b = false.
Proof. by destruct b, u. Qed.

(** [res_inv H] splits a successful computation into the results of its steps. *)
Ltac res_inv H :=
  repeat (rewrite ?res_bind_ok, ?or_throw_ok, ?or_abort_ok, ?reject_if_ok in H;
          match type of H with
          | exists _, _ => let x := fresh "x" in let E := fresh "E" in destruct H as (x & E & H); res_inv E
          | _ => idtac
          end).

Lemma in_range_true p n : 0 <= n -> in_range p n = true <-> n < zlen (vout p.2) /\ n < zlen (vSpent p.1).
Proof. intros Hn. unfold in_range. rewrite negb_true_iff, orb_false_iff. lia. Qed.

(** ** Slots *)

Definition ins_ok (ins : list CTxIn) : Prop := Forall (fun i => 0 <= op_n (prevout i)) ins.

(** The spent pointer of an outpoint in the fetched inputs *)
Definition slot (m : MapPrevTx) (o : COutPoint) : option CDiskTxPos :=
  p ← m !! op_hash o; vSpent p.1 !! Z.to_nat (op_n o).

(** Its output *)
Definition output (m : MapPrevTx) (o : COutPoint) : option CTxOut :=
  p ← m !! op_hash o; vout p.2 !! Z.to_nat (op_n o).

Lemma slot_mark m o o' t tp p s :
  0 <= op_n o -> 0 <= op_n o' -> m !! op_hash o = Some (t, tp) -> vSpent t !! Z.to_nat (op_n o) = Some s ->
  slot (<[op_hash o := (mark_spent t (op_n o) p, tp)]> m) o' = if decide (o' = o) then Some p else slot m o'.
Proof.
  intros Ho Ho' Hm Hs. unfold slot. destruct (decide (op_hash o' = op_hash o)) as [Hh|Hh].
  - rewrite Hh, lookup_insert_eq, Hm. cbn [mbind option_bind fst mark_spent vSpent].
    destruct (decide (o' = o)) as [->|Hne].
    + rewrite list_lookup_insert_eq; [done|]. by eapply lookup_lt_Some.
    + rewrite list_lookup_insert_ne; [done|]. intros Heq. apply Hne.
      destruct o, o'. cbn in *. f_equal; [done|lia].
  - rewrite lookup_insert_ne by done. rewrite decide_False by by intros ->. done.
Qed.

Lemma output_mark m o o' t t' tp :
  m !! op_hash o = Some (t, tp) -> output (<[op_hash o := (t', tp)]> m) o' = output m o'.
Proof.
  intros Hm. unfold output. destruct (decide (op_hash o' = op_hash o)) as [Hh|Hh].
  - by rewrite Hh, lookup_insert_eq, Hm.
  - by rewrite lookup_insert_ne.
Qed.

Section props.
Context {D : Type} `{!TxDB D}.
Context {C : Type} `{!SigChecker C}.
Variables RIPEMD160 SHA1 SHA256 : bytes -> bytes.
Variable nd : node.

Local Abbreviation VerifyScript' tx n flags := (Interpreter.VerifyScript RIPEMD160 SHA1 SHA256 tx n flags 0).
Local Abbreviation ConnectInputs' := (ConnectInputs RIPEMD160 SHA1 SHA256 nd).

(** ** The first loop *)

(** What the first loop has checked of an input that spends the output [o] *)
Record input_checked (tx : CTransaction) (chain : list CBlockIndex) (m : MapPrevTx) (i : CTxIn) (o : CTxOut) : Prop :=
  InputChecked {
    ic_output : output m (prevout i) = Some o;
    ic_value : 0 <= nValue o <= block_params.MAX_MONEY;
    ic_slot : is_Some (slot m (prevout i));
    ic_prev : exists t txPrev, m !! op_hash (prevout i) = Some (t, txPrev) /\ nTime txPrev <= nTime tx
      /\ (IsCoinBase txPrev = true \/ IsCoinStake txPrev = true -> IsImmature nd chain (pos t) = false) }.

Lemma check_input_ok tx chain m i v v' :
  0 <= op_n (prevout i) -> 0 <= v <= block_params.MAX_MONEY ->
  check_input nd tx chain m i v = Ok v' ->
  exists o, input_checked tx chain m i o /\ v' = v + nValue o /\ 0 <= v' <= block_params.MAX_MONEY.
Proof.
  intros Hn Hv H. unfold check_input in H. res_inv H.
  rewrite negb_false_iff in E0. apply in_range_true in E0 as [Ho Hs]; [|done].
  apply orb_false_iff in E4 as [Hr1%negb_false_iff Hr2%negb_false_iff].
  apply MoneyRange_true in Hr1. apply MoneyRange_true in Hr2.
  assert (s64 (v + nValue x3) = v + nValue x3) as Hsum.
  { apply s64_small. unfold block_params.MAX_MONEY, block_params.COIN in *. lia. }
  rewrite Hsum in *. injection H as <-. exists x3. split; [|split; [done|done]].
  destruct x as [t txPrev]. split; [by unfold output; rewrite E|done| |].
  - unfold slot. rewrite E. cbn. apply lookup_lt_is_Some. unfold zlen in Hs. cbn in Hs. lia.
  - exists t, txPrev. split; [done|]. split; [cbn in *; lia|]. intros Hor. cbn in E1.
    destruct (IsImmature nd chain (pos t)); [|done]. rewrite andb_true_r in E1.
    apply orb_false_iff in E1 as [? ?]. destruct Hor; congruence.
Qed.

Lemma check_inputs_ok tx chain m ins v v' :
  ins_ok ins -> 0 <= v <= block_params.MAX_MONEY -> check_inputs nd tx chain m ins v = Ok v' ->
  exists outs, Forall2 (input_checked tx chain m) ins outs /\ v' = v + total outs
    /\ 0 <= v' <= block_params.MAX_MONEY.
Proof.
  intros Hins. revert v. induction Hins as [|i ins Hi Hins IH]; intros v Hv H; cbn [check_inputs] in H.
  { injection H as <-. exists []. split; [constructor|]. cbn [total foldr]. lia. }
  res_inv H. apply check_input_ok in E as (o & Ho & -> & Hr); [|done..].
  apply IH in H as (outs & Houts & -> & Hr'); [|done]. exists (o :: outs).
  split; [by constructor|]. cbn [total foldr]. fold (total outs). split; [lia|done].
Qed.

Lemma GetValueOut_loop_inv outs n v :
  0 <= n <= block_params.MAX_MONEY -> GetValueOut_loop outs n = Some v -> v = n + total outs.
Proof.
  revert n. induction outs as [|o outs IH]; intros n Hn; cbn [GetValueOut_loop total foldr].
  { intros [= <-]. lia. }
  destruct (negb _ || _) eqn:E; [done|]. apply orb_false_iff in E as [E1%negb_false_iff E2%negb_false_iff].
  apply MoneyRange_true in E1. apply MoneyRange_true in E2.
  assert (s64 (n + nValue o) = n + nValue o) as Hs.
  { apply s64_small. unfold block_params.MAX_MONEY, block_params.COIN in *. lia. }
  rewrite Hs in *. intros H. apply IH in H; [|done]. fold (total outs). lia.
Qed.

(** ** The second loop *)

Variables (tx : CTransaction) (posThisTx : CDiskTxPos) (fBlock fMiner : bool) (flags : Z).

Local Abbreviation spend_inputs' fScriptChecks := (spend_inputs RIPEMD160 SHA1 SHA256 tx posThisTx fBlock fMiner fScriptChecks flags).
Local Abbreviation spend_input' fScriptChecks := (spend_input RIPEMD160 SHA1 SHA256 tx posThisTx fBlock fMiner fScriptChecks flags).
Local Abbreviation script_check' := (script_check RIPEMD160 SHA1 SHA256).

(** A script check only touches the deferred checks and the signature checker. *)
Lemma script_check_frame txPrev n pvChecks st r st' :
  script_check' txPrev tx n flags pvChecks st = (r, st') ->
  cs_inputs st' = cs_inputs st /\ cs_pool st' = cs_pool st.
Proof. unfold script_check. intros H. repeat case_match; simplify_eq; done. Qed.

(** The input [i] at position [n], with output [o], has a script that succeeds. *)
Definition script_verified (n : nat) (i : CTxIn) (o : CTxOut) : Prop :=
  exists c c', VerifyScript' tx (Z.of_nat n) flags (scriptSig i) (scriptPubKey o) c = Some (true, c').

Lemma script_check_verified txPrev n i o st st' :
  vin tx !! n = Some i -> vout txPrev !! Z.to_nat (op_n (prevout i)) = Some o ->
  script_check' txPrev tx n flags false st = (Ok tt, st') -> script_verified n i o.
Proof.
  intros Hi Ho. unfold script_check, CScriptCheck_new. rewrite Hi. cbn [mbind option_bind]. rewrite Ho.
  cbn [mbind option_bind]. unfold run_check. cbn [ck_txTo ck_nIn ck_nFlags ck_nHashType ck_scriptPubKey].
  rewrite Hi. cbn [mbind option_bind].
  destruct (Interpreter.VerifyScript _ _ _ _ _ _ _ _ _ _) as [[[] c]|] eqn:E; intros H.
  - by exists (cs_checker st), c.
  - repeat case_match; simplify_eq.
  - done.
Qed.

(** What one turn does when it succeeds *)
Lemma spend_input_ok fScriptChecks pvChecks n i st st' :
  spend_input' fScriptChecks pvChecks n i st = (Ok tt, st') ->
  exists t txPrev s,
    cs_inputs st !! op_hash (prevout i) = Some (t, txPrev)
    /\ vSpent t !! Z.to_nat (op_n (prevout i)) = Some s /\ CDiskTxPos_IsNull s = true
    /\ cs_inputs st' = <[op_hash (prevout i) := (mark_spent t (op_n (prevout i)) posThisTx, txPrev)]> (cs_inputs st)
    /\ cs_pool st' = (if fBlock || fMiner
                      then <[op_hash (prevout i) := mark_spent t (op_n (prevout i)) posThisTx]> (cs_pool st)
                      else cs_pool st)
    /\ (fScriptChecks = true -> exists st1, script_check' txPrev tx n flags pvChecks st = (Ok tt, st1)
          /\ cs_checks st' = cs_checks st1 /\ cs_checker st' = cs_checker st1)
    /\ (fScriptChecks = false -> cs_checks st' = cs_checks st /\ cs_checker st' = cs_checker st).
Proof.
  unfold spend_input. destruct (cs_inputs st !! _) as [[t txPrev]|] eqn:Em; [|done].
  destruct (vSpent t !! _) as [s|] eqn:Es; [|done].
  destruct (CDiskTxPos_IsNull s) eqn:En; cbn [negb]; [|done].
  destruct fScriptChecks.
  - destruct (script_check' txPrev tx n flags pvChecks st) as [r st1] eqn:Ec. intros H.
    destruct (script_check_frame _ _ _ _ _ _ Ec) as [Hin Hpool]. destruct r as [[]| | |]; simplify_eq.
    exists t, txPrev, s. cbn. rewrite Hin, Hpool. split_and!; try done. intros _. by exists st1.
  - intros H. simplify_eq. exists t, txPrev, s. cbn. split_and!; done.
Qed.

(** The scripts of the inputs [ins], which start at position [n], have succeeded. *)
Definition scripts_verified (m : MapPrevTx) (n : nat) (ins : list CTxIn) : Prop :=
  forall k i o, ins !! k = Some i -> output m (prevout i) = Some o -> script_verified (n + k) i o.

Lemma spend_inputs_ok fScriptChecks pvChecks n ins st st' :
  ins_ok ins -> CDiskTxPos_IsNull posThisTx = false ->
  (forall k i, ins !! k = Some i -> vin tx !! (n + k)%nat = Some i) ->
  spend_inputs' fScriptChecks pvChecks n ins st = (Ok tt, st') ->
  NoDup (prevout <$> ins)
  /\ (forall i, i ∈ ins -> exists s, slot (cs_inputs st) (prevout i) = Some s /\ CDiskTxPos_IsNull s = true)
  /\ (forall o, 0 <= op_n o ->
        slot (cs_inputs st') o = if decide (o ∈ prevout <$> ins) then Some posThisTx else slot (cs_inputs st) o)
  /\ (forall o, output (cs_inputs st') o = output (cs_inputs st) o)
  /\ (fScriptChecks = true -> pvChecks = false -> scripts_verified (cs_inputs st) n ins).
Proof.
  intros Hins Hpos. revert n st. induction Hins as [|i ins Hi Hins IH]; intros n st Hvin H; cbn [spend_inputs] in H.
  { injection H as <-. split_and!; [constructor|by intros ? ?%elem_of_nil| |done|].
    - intros o _. rewrite decide_False by (by intros ?%elem_of_nil). done.
    - by intros _ _ k i o Hk. }
  destruct (spend_input' fScriptChecks pvChecks n i st) as [r st1] eqn:E1.
  destruct r as [[]| | |]; try done.
  apply spend_input_ok in E1 as (t & txPrev & s & Hm & Hs & Hnull & Hin1 & Hpool1 & Hck & _).
  apply IH in H as (Hnd & Hnulls & Hslots & Houts & Hscripts).
  2: { intros k j Hk. rewrite Nat.add_succ_comm. by apply (Hvin (S k)). }
  assert (forall o, 0 <= op_n o -> slot (cs_inputs st1) o =
    if decide (o = prevout i) then Some posThisTx else slot (cs_inputs st) o) as Hslot1.
  { intros o Ho. rewrite Hin1. by eapply slot_mark. }
  assert (forall o, output (cs_inputs st1) o = output (cs_inputs st) o) as Hout1.
  { intros o. rewrite Hin1. by eapply output_mark. }
  assert (prevout i ∉ prevout <$> ins) as Hfresh.
  { intros (j & Hj & Hin)%list_elem_of_fmap. destruct (Hnulls j Hin) as (s' & Hs' & Hn').
    rewrite <-Hj, Hslot1, decide_True in Hs' by done. congruence. }
  split_and!.
  - rewrite fmap_cons. by constructor.
  - intros j [->|Hj]%elem_of_cons.
    + exists s. split; [|done]. unfold slot. by rewrite Hm.
    + destruct (Hnulls j Hj) as (s' & Hs' & Hn'). exists s'. split; [|done].
      rewrite Hslot1 in Hs'; [|by eapply Forall_forall in Hins].
      rewrite decide_False in Hs'; [done|]. intros Hjj. apply Hfresh. rewrite <-Hjj.
      by apply list_elem_of_fmap_2.
  - intros o Ho. rewrite Hslots, Hslot1 by done. rewrite fmap_cons.
    destruct (decide (o ∈ prevout <$> ins)).
    + rewrite decide_True; [done|]. by right.
    + destruct (decide (o = prevout i)) as [->|Hne].
      * rewrite decide_True; [done|]. by left.
      * rewrite decide_False; [done|]. by intros [?|?]%elem_of_cons.
  - intros o. by rewrite Houts.
  - intros -> -> k j o Hk Ho. destruct k as [|k]; cbn in Hk.
    + injection Hk as <-. rewrite Nat.add_0_r. destruct Hck as (st2 & Hc2 & _); [done|].
      eapply script_check_verified; [|by unfold output in Ho; rewrite Hm in Ho|exact Hc2].
      specialize (Hvin 0%nat i eq_refl). by rewrite Nat.add_0_r in Hvin.
    + rewrite <-Nat.add_succ_comm. eapply Hscripts; [done..|exact Hk|]. by rewrite Hout1.
Qed.

(** ** [ConnectInputs] *)

Lemma ConnectInputs_ok txdb inputs pool chain fScriptChecks pvChecks checks c st :
  IsCoinBase tx = false ->
  ConnectInputs' txdb inputs pool tx posThisTx chain fBlock fMiner fScriptChecks flags pvChecks checks c = (Ok tt, st) ->
  exists nValueIn,
    check_inputs nd tx chain inputs (vin tx) 0 = Ok nValueIn
    /\ spend_inputs' fScriptChecks pvChecks 0%nat (vin tx) (CState inputs pool checks c) = (Ok tt, st)
    /\ check_amounts nd txdb tx nValueIn = Ok tt.
Proof.
  intros Hcb. unfold ConnectInputs. rewrite Hcb.
  destruct (check_inputs nd tx chain inputs (vin tx) 0) as [v| | |] eqn:E1; try done.
  destruct (spend_inputs' fScriptChecks pvChecks 0%nat (vin tx) (CState inputs pool checks c)) as [r st1] eqn:E2.
  destruct r as [[]| | |]; intros H; try done. injection H as Ha <-. by exists v.
Qed.

(** What a transaction may create, given the sum of its inputs *)
Definition amounts_allowed (txdb : D) (nValueIn : Z) : Prop :=
  if IsCoinStake tx then
    GetLastCheckpointTime nd < nTime tx ->
    exists size nCoinAge,
      GetSerializeSize tx = Some size /\ GetCoinAge nd txdb tx = Ok nCoinAge
      /\ s64 (total (vout tx) - nValueIn)
         <= s64 (s64 (GetProofOfStakeReward (GetTime nd) (s64 nCoinAge) - GetMinFee tx 1 false GMF_BLOCK size)
                 + block_params.CENT)
  else total (vout tx) <= nValueIn.

Lemma check_amounts_ok txdb v :
  0 <= v <= block_params.MAX_MONEY -> check_amounts nd txdb tx v = Ok tt -> amounts_allowed txdb v.
Proof.
  intros Hv. unfold check_amounts, amounts_allowed. destruct (IsCoinStake tx).
  - intros H Ht. destruct (nTime tx >? GetLastCheckpointTime nd) eqn:Et; [|lia]. res_inv H.
    unfold GetSerializeSize_member in E. destruct (nVersion tx =? 1); [|done].
    apply GetValueOut_loop_inv in E1; [|by apply MAX_MONEY_nonneg]. rewrite Z.add_0_l in E1. subst.
    exists x, x0. split_and!; [done..|]. lia.
  - intros H. res_inv H. apply GetValueOut_loop_inv in E; [|by apply MAX_MONEY_nonneg]. lia.
Qed.


(** C13 (safety): no double spend. When [ConnectInputs] accepts a transaction, its inputs name pairwise
    different outpoints, each of them was unspent, each script succeeded under the given flags
    (unless the checks were switched off or deferred), and afterwards exactly the slots of these outpoints
    point to the transaction. *)
Theorem ConnectInputs_spends txdb inputs pool chain fScriptChecks pvChecks checks c st :
  IsCoinBase tx = false -> ins_ok (vin tx) -> CDiskTxPos_IsNull posThisTx = false ->
  ConnectInputs' txdb inputs pool tx posThisTx chain fBlock fMiner fScriptChecks flags pvChecks checks c = (Ok tt, st) ->
  NoDup (prevout <$> vin tx)
  /\ (forall i, i ∈ vin tx -> exists s, slot inputs (prevout i) = Some s /\ CDiskTxPos_IsNull s = true)
  /\ (forall o, 0 <= op_n o ->
        slot (cs_inputs st) o = if decide (o ∈ prevout <$> vin tx) then Some posThisTx else slot inputs o)
  /\ (fScriptChecks = true -> pvChecks = false -> scripts_verified inputs 0 (vin tx)).
Proof.
  intros Hcb Hins Hpos H. apply ConnectInputs_ok in H as (v & _ & Hs & _); [|done].
  apply spend_inputs_ok in Hs as (H1 & H2 & H3 & _ & H5); [|done..]. done.
Qed.

(** ** Deferred checks *)

Lemma run_checks_snoc ks k c0 c c' :
  run_checks RIPEMD160 SHA1 SHA256 ks c0 = Some (true, c) ->
  run_checks RIPEMD160 SHA1 SHA256 (ks ++ [k]) c0 = Some (true, c')
  <-> run_check RIPEMD160 SHA1 SHA256 k c = Some (true, c').
Proof.
  revert c0. induction ks as [|k0 ks IH]; intros c0; cbn [run_checks app].
  - intros [= ->]. destruct (run_check _ _ _ k c) as [[[] c1]|]; cbn; split; congruence.
  - destruct (run_check _ _ _ k0 c0) as [[[] c1]|]; cbn [mbind option_bind]; [apply IH|done..].
Qed.

Lemma run_checks_app ks1 ks2 c0 c :
  run_checks RIPEMD160 SHA1 SHA256 (ks1 ++ ks2) c0 = Some (true, c) <->
  exists c1, run_checks RIPEMD160 SHA1 SHA256 ks1 c0 = Some (true, c1)
    /\ run_checks RIPEMD160 SHA1 SHA256 ks2 c1 = Some (true, c).
Proof.
  revert c0. induction ks1 as [|k ks1 IH]; intros c0; cbn [run_checks app].
  - split; [by exists c0|by intros (c1 & [= ->] & H)].
  - destruct (run_check _ _ _ k c0) as [[[] c1]|]; cbn [mbind option_bind].
    + apply IH.
    + split; [done|by intros (? & ? & _)].
    + split; [done|by intros (? & ? & _)].
Qed.

Lemma deferred_extends ins n st st' :
  spend_inputs' true true n ins st = (Ok tt, st') ->
  exists ks, cs_checks st' = cs_checks st ++ ks /\ cs_checker st' = cs_checker st.
Proof.
  revert n st. induction ins as [|i ins IH]; intros n st; cbn [spend_inputs].
  { intros [= ->]. exists []. by rewrite app_nil_r. }
  destruct (spend_input' true true n i st) as [r st1] eqn:E. destruct r as [[]| | |]; try done. intros H.
  apply spend_input_ok in E as (t & txPrev & s & _ & _ & _ & _ & _ & Hck & _).
  destruct Hck as (st2 & Hck & Hks & Hc); [done|]. apply IH in H as (ks & Hks' & Hc').
  unfold script_check in Hck. case_match; simplify_eq. cbn in *.
  exists ([c] ++ ks). rewrite Hks', Hks. split; [by rewrite <-app_assoc|congruence].
Qed.

(** The second loop with inline checks succeeds if and only if the loop with deferred checks does and the
    checks it collects succeed. *)
Lemma spend_inputs_deferred ins n m pool ks cd c0 m' pool' c' :
  (spend_inputs' true false n ins (CState m pool [] c0) = (Ok tt, CState m' pool' [] c'))
  <-> exists ks', spend_inputs' true true n ins (CState m pool ks cd) = (Ok tt, CState m' pool' (ks ++ ks') cd)
      /\ run_checks RIPEMD160 SHA1 SHA256 ks' c0 = Some (true, c').
Proof.
  revert n m pool ks c0. induction ins as [|i ins IH]; intros n m pool ks c0; cbn [spend_inputs].
  { split.
    - intros [= <- <- <-]. exists []. by rewrite app_nil_r.
    - intros (ks' & [= <- <- Hk] & Hr). rewrite <-(app_nil_r ks) in Hk at 1. apply app_inv_head in Hk as <-.
      by injection Hr as <-. }
  unfold spend_input. cbn [cs_inputs].
  destruct (m !! _) as [[t txPrev]|]; [|split; [done|by intros (? & ? & _)]].
  destruct (vSpent t !! _) as [s|]; [|split; [done|by intros (? & ? & _)]].
  destruct (CDiskTxPos_IsNull s); cbn [negb]; [|split; [done|by intros (? & ? & _)]].
  unfold script_check. destruct (CScriptCheck_new _ _ _ _ _) as [k|]; [|split; [done|by intros (? & ? & _)]].
  cbn [cs_inputs cs_pool cs_checks cs_checker].
  set (m1 := <[_ := _]> m). set (pool1 := if fBlock || fMiner then _ else _).
  assert ((exists ks', spend_inputs' true true (S n) ins (CState m1 pool1 (ks ++ [k]) cd)
             = (Ok tt, CState m' pool' (ks ++ ks') cd)
           /\ run_checks RIPEMD160 SHA1 SHA256 ks' c0 = Some (true, c'))
    <-> exists c1, run_check RIPEMD160 SHA1 SHA256 k c0 = Some (true, c1)
        /\ spend_inputs' true false (S n) ins (CState m1 pool1 [] c1) = (Ok tt, CState m' pool' [] c')) as ->.
  { split.
    - intros (ks' & Hs & Hr). destruct (deferred_extends _ _ _ _ Hs) as (ks2 & Hks & _). cbn in Hks.
      rewrite <-app_assoc in Hks. apply app_inv_head in Hks as ->. cbn [app run_checks] in Hr.
      destruct (run_check _ _ _ k c0) as [[[] c1]|] eqn:Ek; cbn [mbind option_bind] in Hr; [|done|done].
      exists c1. split; [done|]. rewrite (IH _ _ _ (ks ++ [k])). exists ks2.
      split; [|done]. rewrite <-app_assoc. exact Hs.
    - intros (c1 & Hk & Hs). rewrite (IH _ _ _ (ks ++ [k])) in Hs. destruct Hs as (ks2 & Hs & Hr).
      exists ([k] ++ ks2). rewrite app_assoc. split; [done|]. cbn [app run_checks]. by rewrite Hk. }
  destruct (run_check RIPEMD160 SHA1 SHA256 k c0) as [[[] c1]|].
  - split; [by exists c1|by intros (? & [= <-] & ?)].
  - split; [|by intros (? & ? & _)]. intros H. repeat case_match; simplify_eq.
  - split; [done|by intros (? & ? & _)].
Qed.

(** Deferring the script checks changes nothing. [ConnectInputs] with inline checks
    accepts a transaction, leaving a given test pool and signature cache, if and only if [ConnectInputs]
    with deferred checks accepts it with the same test pool and the checks it hands over all succeed,
    leaving that signature cache. *)
Lemma ConnectInputs_deferred txdb inputs pool chain c m' pool' c' :
  ConnectInputs' txdb inputs pool tx posThisTx chain fBlock fMiner true flags false [] c
    = (Ok tt, CState m' pool' [] c')
  <-> exists ks,
      ConnectInputs' txdb inputs pool tx posThisTx chain fBlock fMiner true flags true [] c
        = (Ok tt, CState m' pool' ks c)
      /\ run_checks RIPEMD160 SHA1 SHA256 ks c = Some (true, c').
Proof.
  unfold ConnectInputs. destruct (IsCoinBase tx).
  { split; [intros [= <- <- <-]; by exists []|]. intros (ks & [= <- <- <-] & Hr). by injection Hr as <-. }
  destruct (check_inputs nd tx chain inputs (vin tx) 0) as [v| | |];
    [|split; [done|by intros (? & ? & _)]..].
  pose proof (spend_inputs_deferred (vin tx) 0 inputs pool [] c c m' pool' c') as Hd. cbn [app] in Hd.
  destruct (spend_inputs' true false 0%nat (vin tx) (CState inputs pool [] c)) as [r1 st1].
  destruct (spend_inputs' true true 0%nat (vin tx) (CState inputs pool [] c)) as [r2 st2].
  destruct (check_amounts nd txdb tx v) as [[]| | |] eqn:Ea; destruct r1 as [[]| | |], r2 as [[]| | |];
    try exact Hd; (split; [intros H; try done|intros (ks & H & Hr); try done]).
Qed.
End props.

(** ** Connecting, then disconnecting *)

(** The slots of the outpoints of [ins] with hash [h] are set to [p]. *)
Definition marks (h : uint256) (p : CDiskTxPos) (ins : list CTxIn) (t : CTxIndex) : CTxIndex :=
  fold_left (fun t i => if decide (op_hash (prevout i) = h) then mark_spent t (op_n (prevout i)) p else t) ins t.

#[local] Arguments marks : simpl never.

Lemma marks_cons h p i ins t :
  marks h p (i :: ins) t =
  marks h p ins (if decide (op_hash (prevout i) = h) then mark_spent t (op_n (prevout i)) p else t).
Proof. done. Qed.

Lemma marks_pos h p ins t : pos (marks h p ins t) = pos t.
Proof.
  revert t. induction ins as [|i ins IH]; intros t; [done|]. unfold marks in *. cbn [fold_left].
  rewrite IH. by destruct (decide _).
Qed.

Lemma marks_lookup h p ins t k :
  vSpent (marks h p ins t) !! k =
    if decide (Exists (fun i => op_hash (prevout i) = h /\ Z.to_nat (op_n (prevout i)) = k) ins)
    then (fun _ => p) <$> vSpent t !! k else vSpent t !! k.
Proof.
  revert t. induction ins as [|i ins IH]; intros t.
  { rewrite decide_False; [done|]. by intros H%Exists_nil. }
  rewrite marks_cons, IH. clear IH.
  assert (vSpent (if decide (op_hash (prevout i) = h) then mark_spent t (op_n (prevout i)) p else t) !! k
    = if decide (op_hash (prevout i) = h /\ Z.to_nat (op_n (prevout i)) = k)
      then (fun _ => p) <$> vSpent t !! k else vSpent t !! k) as ->.
  { destruct (decide (op_hash (prevout i) = h)) as [Hh|Hh].
    - cbn [mark_spent vSpent]. destruct (decide (Z.to_nat (op_n (prevout i)) = k)) as [<-|Hk].
      + rewrite decide_True by done. destruct (vSpent t !! _) as [s|] eqn:E; cbn.
        * rewrite list_lookup_insert_eq; [done|by eapply lookup_lt_Some].
        * rewrite list_insert_ge; [done|by apply lookup_ge_None].
      + rewrite list_lookup_insert_ne by done. by rewrite decide_False by naive_solver.
    - by rewrite decide_False by naive_solver. }
  destruct (decide (Exists _ ins)) as [He|He], (decide (_ /\ _)) as [Hi|Hi].
  - rewrite decide_True by (by constructor). by destruct (vSpent t !! k).
  - by rewrite decide_True by (by constructor).
  - by rewrite decide_True by (by constructor).
  - rewrite decide_False; [done|]. by intros [?|?]%Exists_cons.
Qed.

Lemma marks_skip h p ins t : ~ Exists (fun i => op_hash (prevout i) = h) ins -> marks h p ins t = t.
Proof.
  intros He. induction ins as [|i ins IH]; [done|]. unfold marks in *. cbn [fold_left].
  rewrite decide_False by (intros Hi; apply He; by left). apply IH. intros H. apply He. by right.
Qed.

Lemma marks_length h p ins t : length (vSpent (marks h p ins t)) = length (vSpent t).
Proof.
  revert t. induction ins as [|i ins IH]; intros t; [done|].
  rewrite marks_cons, IH. destruct (decide _); [|done]. cbn. by rewrite length_insert.
Qed.

Lemma txindex_eq (a b : CTxIndex) : pos a = pos b -> vSpent a = vSpent b -> a = b.
Proof. destruct a, b. cbn. congruence. Qed.

(** Marking free slots and freeing them again *)
Lemma marks_inverse h p ins t :
  (forall i, i ∈ ins -> op_hash (prevout i) = h ->
     vSpent t !! Z.to_nat (op_n (prevout i)) = Some CDiskTxPos_SetNull) ->
  marks h CDiskTxPos_SetNull ins (marks h p ins t) = t.
Proof.
  intros H. assert (vSpent (marks h CDiskTxPos_SetNull ins (marks h p ins t)) = vSpent t) as Hv.
  { apply list_eq. intros k. rewrite !marks_lookup. destruct (decide _) as [He|]; [|done].
    apply Exists_exists in He as (i & Hi & Hh & <-). by rewrite (H i Hi Hh). }
  apply txindex_eq; [by rewrite !marks_pos|done].
Qed.

Section roundtrip.
Context {D : Type} `{!TxDB D} {db_ok : D -> Prop} {key_ok : uint256 -> Prop} {entry_ok : CTxIndex -> Prop}
  `{!TxDBLaws D db_ok key_ok entry_ok}.
Context {C : Type} `{!SigChecker C}.
Variables RIPEMD160 SHA1 SHA256 : bytes -> bytes.
Variable nd : node.
Variables (tx : CTransaction) (posThisTx : CDiskTxPos).

Definition keys_ok (ins : list CTxIn) : Prop := Forall (fun i => key_ok (op_hash (prevout i))) ins.

(** The entries that marking the slots of [tx] produces can be stored. *)
Hypothesis mark_ok : forall t n p, entry_ok t -> p = posThisTx \/ p = CDiskTxPos_SetNull -> entry_ok (mark_spent t n p).

Lemma marks_ok h p ins t : entry_ok t -> p = posThisTx \/ p = CDiskTxPos_SetNull -> entry_ok (marks h p ins t).
Proof.
  intros Ht Hp. revert t Ht. induction ins as [|i ins IH]; intros t Ht; [done|].
  apply IH. destruct (decide _); [|done]. by apply mark_ok.
Qed.

(** *** The second loop, as a function on entries *)

Lemma spend_inputs_marks fMiner fScriptChecks flags pvChecks n ins st st' :
  spend_inputs RIPEMD160 SHA1 SHA256 tx posThisTx true fMiner fScriptChecks flags pvChecks n ins st = (Ok tt, st') ->
  (forall h, cs_inputs st' !! h = (fun p => (marks h posThisTx ins p.1, p.2)) <$> cs_inputs st !! h)
  /\ (forall h, cs_pool st' !! h = if decide (Exists (fun i => op_hash (prevout i) = h) ins)
                                   then fst <$> cs_inputs st' !! h else cs_pool st !! h).
Proof.
  revert n st. induction ins as [|i ins IH]; intros n st H; cbn [spend_inputs] in H.
  { injection H as <-. split.
    - intros h. by destruct (cs_inputs st !! h) as [[t p]|].
    - intros h. rewrite decide_False; [done|]. by intros ?%Exists_nil. }
  destruct (spend_input _ _ _ _ _ _ _ _ _ _ _ _ _) as [r st1] eqn:E. destruct r as [[]| | |]; try done.
  apply spend_input_ok in E as (t & txPrev & s & Hm & _ & _ & Hin & Hpool & _). cbn [orb] in Hpool.
  apply IH in H as [H1 H2].
  assert (forall h, cs_inputs st' !! h = (fun p => (marks h posThisTx (i :: ins) p.1, p.2)) <$> cs_inputs st !! h) as H1'.
  { intros h. rewrite H1, Hin. unfold marks. cbn [fold_left].
    destruct (decide (op_hash (prevout i) = h)) as [<-|Hh].
    - rewrite lookup_insert_eq, Hm. done.
    - by rewrite lookup_insert_ne. }
  split; [done|]. intros h. rewrite H2.
  destruct (decide (Exists (fun i => op_hash (prevout i) = h) ins)) as [He|He].
  - rewrite decide_True; [done|]. by right.
  - rewrite Hpool. destruct (decide (op_hash (prevout i) = h)) as [Hh|Hh].
    + rewrite decide_True by by left. rewrite H1', <-Hh, lookup_insert_eq, Hm. cbn.
      f_equal. unfold marks. cbn [fold_left]. rewrite decide_True by done.
      symmetry. apply marks_skip. by rewrite Hh.
    + rewrite lookup_insert_ne by done. rewrite decide_False; [done|]. by intros [?|?]%Exists_cons.
Qed.

(** *** The database *)

Lemma unspend_ok ins db :
  db_ok db -> keys_ok ins -> ins_ok ins ->
  (forall i, i ∈ ins -> exists t, ReadTxIndex db (op_hash (prevout i)) = Some (Some t) /\ entry_ok t
     /\ op_n (prevout i) < zlen (vSpent t)) ->
  exists db', unspend ins db = (Ok tt, db') /\ db_ok db'
    /\ forall h, key_ok h -> ReadTxIndex db' h = fmap (M := option) (marks h CDiskTxPos_SetNull ins) <$> ReadTxIndex db h.
Proof.
  intros Hdb Hk Hn. revert db Hdb. induction Hk as [|i ins Hi Hk IH]; intros db Hdb Hread; cbn [unspend].
  { exists db. split_and!; [done..|]. intros h _. by destruct (ReadTxIndex db h) as [[]|]. }
  apply Forall_cons_1 in Hn as [Hni Hn].
  destruct (Hread i) as (t & Ht & Hto & Hlen); [by left|]. rewrite Ht.
  replace (op_n (prevout i) >=? zlen (vSpent t)) with false by lia.
  destruct (update_ok db (op_hash (prevout i)) (mark_spent t (op_n (prevout i)) CDiskTxPos_SetNull))
    as (db1 & -> & Hdb1 & Hr1); [done..|apply mark_ok; auto|].
  destruct (IH Hn db1 Hdb1) as (db2 & Hu & Hdb2 & Hr2).
  { intros j Hj. destruct (Hread j) as (t' & Ht' & Hto' & Hlen'); [by right|].
    rewrite Hr1 by by eapply Forall_forall in Hk. destruct (decide _) as [He|He]; [|by exists t'].
    exists (mark_spent t (op_n (prevout i)) CDiskTxPos_SetNull). split; [done|]. split; [apply mark_ok; auto|].
    rewrite He in Ht'. assert (t' = t) as -> by congruence. unfold zlen in *. cbn. by rewrite length_insert. }
  exists db2. split_and!; [done..|]. intros h Hh. rewrite Hr2, Hr1 by done.
  destruct (decide (h = op_hash (prevout i))) as [->|Hne].
  - rewrite Ht. cbn. by rewrite marks_cons, decide_True.
  - destruct (ReadTxIndex db h) as [[t'|]|]; cbn; [|done..]. by rewrite marks_cons, decide_False by congruence.
Qed.

Lemma write_queued_ok l db :
  db_ok db -> NoDup l.*1 -> Forall (fun p => key_ok p.1 /\ entry_ok p.2) l ->
  exists db', write_queued l db = (Ok tt, db') /\ db_ok db'
    /\ forall h, key_ok h -> ReadTxIndex db' h =
         match (list_to_map l : gmap uint256 CTxIndex) !! h with Some t => Some (Some t) | None => ReadTxIndex db h end.
Proof.
  intros Hdb Hnd Hl. revert db Hdb Hnd.
  induction Hl as [|[h t] l [Hk Ht] Hl IH]; intros db Hdb Hnd; cbn [write_queued]; [by exists db|].
  cbn in Hnd. apply NoDup_cons in Hnd as [Hfresh Hnd]. cbn in Hk, Ht.
  destruct (update_ok db h t) as (db1 & -> & Hdb1 & Hr1); [done..|].
  destruct (IH db1 Hdb1 Hnd) as (db2 & Hw & Hdb2 & Hr2). exists db2. split_and!; [done..|].
  intros h' Hh'. rewrite Hr2, Hr1 by done. cbn [list_to_map foldr uncurry fst snd].
  change (foldr (fun p m => <[p.1 := p.2]> m) ∅ l) with (list_to_map l : gmap uint256 CTxIndex).
  destruct (decide (h' = h)) as [->|Hne].
  - rewrite lookup_insert_eq. by rewrite (not_elem_of_list_to_map_1 l h).
  - by rewrite lookup_insert_ne.
Qed.

(** *** Connecting a transaction of a block *)

(** The previous transactions of a block without queued changes come from the database. *)
Lemma fetch_all_db db mempool fMiner ins m m' :
  fetch_all nd db mempool ∅ true fMiner ins m = Ok m' ->
  (forall h p, m !! h = Some p -> ReadTxIndex db h = Some (Some p.1)) ->
  forall h p, m' !! h = Some p -> ReadTxIndex db h = Some (Some p.1).
Proof.
  revert m. induction ins as [|i ins IH]; intros m H Hm; cbn [fetch_all] in H; [by injection H as <-|].
  case_bool_decide; [by eapply IH|]. res_inv H. apply (IH _ H). intros h p.
  destruct (decide (h = op_hash (prevout i))) as [->|Hne]; [|rewrite lookup_insert_ne by done; apply Hm].
  rewrite lookup_insert_eq. intros [= ->]. unfold fetch_one in E. cbn [orb] in E. rewrite lookup_empty in E.
  res_inv E. destruct x as [t|]; [|done]. case_bool_decide.
  - res_inv E. by injection E as <-.
  - destruct (ReadTx nd (pos t)); [|done]. by injection E as <-.
Qed.

(** A free slot of a stored entry is the null position. *)
Definition canonical (t : CTxIndex) : Prop :=
  Forall (fun p => CDiskTxPos_IsNull p = true -> p = CDiskTxPos_SetNull) (vSpent t).

(** What connecting [tx] leaves in the database, hash by hash *)
Definition connected (hash : uint256) (db db1 : D) : Prop :=
  forall h, key_ok h -> ReadTxIndex db1 h =
    if decide (h = hash) then Some (Some (CTxIndex_new posThisTx (length (vout tx))))
    else fmap (M := option) (marks h posThisTx (vin tx)) <$> ReadTxIndex db h.

Lemma write_queued_connected db inputs st fMiner fScriptChecks flags pvChecks pool0 checks c hash :
  db_ok db -> keys_ok (vin tx) -> key_ok hash -> entry_ok (CTxIndex_new posThisTx (length (vout tx))) ->
  pool0 = ∅ ->
  (forall h t, ReadTxIndex db h = Some (Some t) -> entry_ok t) ->
  (forall h p, inputs !! h = Some p -> ReadTxIndex db h = Some (Some p.1)) ->
  (forall i, i ∈ vin tx -> is_Some (inputs !! op_hash (prevout i))) ->
  spend_inputs RIPEMD160 SHA1 SHA256 tx posThisTx true fMiner fScriptChecks flags pvChecks 0 (vin tx)
    (CState inputs pool0 checks c) = (Ok tt, st) ->
  exists db1, write_queued (map_to_list (<[hash := CTxIndex_new posThisTx (length (vout tx))]> (cs_pool st))) db = (Ok tt, db1)
    /\ db_ok db1 /\ connected hash db db1.
Proof.
  intros Hdb Hkeys Hkh Hnew -> Hentry Hread Hins Hs.
  apply spend_inputs_marks in Hs as [Hin Hpool]. cbn [cs_inputs cs_pool] in Hin, Hpool.
  set (m := <[hash := _]> (cs_pool st)).
  destruct (write_queued_ok (map_to_list m) db) as (db1 & Hw & Hdb1 & Hr).
  - done.
  - apply NoDup_fst_map_to_list.
  - apply Forall_forall. intros [h t] Hht%elem_of_map_to_list. cbn. unfold m in Hht.
    destruct (decide (h = hash)) as [->|Hne]; [rewrite lookup_insert_eq in Hht; by injection Hht as <-|].
    rewrite lookup_insert_ne, Hpool in Hht by done. destruct (decide _) as [He|]; [|done].
    apply Exists_exists in He as (i & Hi & <-). split; [by eapply Forall_forall in Hkeys|].
    rewrite Hin in Hht. destruct (inputs !! op_hash (prevout i)) as [p|] eqn:Ep; [|done]. injection Hht as <-.
    apply marks_ok; [|by left]. exact (Hentry _ _ (Hread _ _ Ep)).
  - exists db1. split; [done|]. split; [done|]. intros h Hh. rewrite Hr, list_to_map_to_list by done. unfold m.
    destruct (decide (h = hash)) as [->|Hne]; [by rewrite lookup_insert_eq|].
    rewrite lookup_insert_ne, Hpool by done. destruct (decide _) as [He|He].
    + apply Exists_exists in He as (i & Hi & <-). destruct (Hins i Hi) as [p Hp].
      rewrite Hin, Hp. cbn. by rewrite (Hread (op_hash (prevout i)) p Hp).
    + rewrite lookup_empty. destruct (ReadTxIndex db h) as [[t|]|]; cbn; [|done..]. by rewrite marks_skip.
Qed.

(** Disconnecting undoes connecting. When a transaction of a block, new to the index, is
    fetched and connected, the queued index changes and its own entry are written, and
    [DisconnectInputs] is then run, the write and the disconnection succeed, in between every
    spent slot points to the transaction, and in the end every entry of the index is what it was. *)
Lemma connect_disconnect db mempool inputs fInvalid chain fScriptChecks flags pvChecks checks c st hash :
  db_ok db -> IsCoinBase tx = false -> ins_ok (vin tx) -> keys_ok (vin tx) ->
  CDiskTxPos_IsNull posThisTx = false -> GetHash tx = Some hash -> key_ok hash ->
  entry_ok (CTxIndex_new posThisTx (length (vout tx))) ->
  (forall h t, ReadTxIndex db h = Some (Some t) -> entry_ok t /\ canonical t) ->
  ReadTxIndex db hash = Some None ->
  FetchInputs nd db mempool ∅ tx true false ∅ = (Ok inputs, fInvalid) ->
  ConnectInputs RIPEMD160 SHA1 SHA256 nd db inputs ∅ tx posThisTx chain true false fScriptChecks flags pvChecks checks c
    = (Ok tt, st) ->
  exists db1 db2,
    write_queued (map_to_list (<[hash := CTxIndex_new posThisTx (length (vout tx))]> (cs_pool st))) db = (Ok tt, db1)
    /\ (forall i, i ∈ vin tx -> exists t, ReadTxIndex db1 (op_hash (prevout i)) = Some (Some t)
          /\ vSpent t !! Z.to_nat (op_n (prevout i)) = Some posThisTx)
    /\ DisconnectInputs db1 tx = (Ok tt, db2) /\ db_ok db2
    /\ forall h, key_ok h -> ReadTxIndex db2 h = ReadTxIndex db h.
Proof.
  intros Hdb Hcb Hins Hkeys Hpos Hhash Hkh Hnew Hstore Hfresh Hf Hc.
  unfold FetchInputs in Hf. rewrite Hcb in Hf.
  destruct (fetch_all nd db mempool ∅ true false (vin tx) ∅) as [m| | |] eqn:Ef; try done.
  assert (m = inputs) as -> by (by destruct (fetch_valid m (vin tx)); simplify_eq).
  pose proof (fetch_all_db _ _ _ _ _ _ Ef) as Hread. specialize (Hread ltac:(intros h p; by rewrite lookup_empty)).
  apply ConnectInputs_ok in Hc as (v & _ & Hs & _); [|done].
  pose proof Hs as Hs'. apply spend_inputs_ok in Hs' as (_ & Hnull & _); [|done..]. cbn [cs_inputs] in Hnull.
  assert (forall i, i ∈ vin tx -> exists t tp, inputs !! op_hash (prevout i) = Some (t, tp)
    /\ vSpent t !! Z.to_nat (op_n (prevout i)) = Some CDiskTxPos_SetNull) as Hslot.
  { intros i Hi. destruct (Hnull i Hi) as (s & Hsl & Hn). unfold slot in Hsl.
    destruct (inputs !! _) as [[t tp]|] eqn:Ep; [|done]. exists t, tp. split; [done|]. cbn in Hsl.
    destruct (Hstore _ _ (Hread _ _ Ep)) as [_ Hcan]. rewrite Hsl. f_equal.
    by eapply Forall_lookup_1 in Hcan; [apply Hcan|]. }
  destruct (write_queued_connected db inputs st false fScriptChecks flags pvChecks ∅ checks c hash)
    as (db1 & Hw & Hdb1 & Hcon); try done.
  { intros h t Ht. by apply (Hstore h t). }
  { intros i Hi. destruct (Hslot i Hi) as (t & tp & -> & _). done. }
  assert (forall i, i ∈ vin tx -> exists t, ReadTxIndex db (op_hash (prevout i)) = Some (Some t) /\ entry_ok t
    /\ vSpent t !! Z.to_nat (op_n (prevout i)) = Some CDiskTxPos_SetNull
    /\ op_hash (prevout i) <> hash /\ key_ok (op_hash (prevout i))
    /\ ReadTxIndex db1 (op_hash (prevout i)) = Some (Some (marks (op_hash (prevout i)) posThisTx (vin tx) t))) as Hin1.
  { intros i Hi. destruct (Hslot i Hi) as (t & tp & Hp & Ht). apply Hread in Hp. cbn in Hp. exists t.
    assert (op_hash (prevout i) <> hash) as Hne by congruence.
    assert (key_ok (op_hash (prevout i))) as Hk by (by eapply Forall_forall in Hkeys).
    split_and!; [done|by eapply Hstore|done..|]. rewrite Hcon, decide_False by done. by rewrite Hp. }
  destruct (unspend_ok (vin tx) db1) as (db2 & Hu & Hdb2 & Hr2); [done..| |].
  { intros i Hi. destruct (Hin1 i Hi) as (t & _ & Hto & Ht & _ & _ & ->). eexists. split; [done|].
    split; [by apply marks_ok; auto|]. unfold zlen. rewrite marks_length. apply lookup_lt_Some in Ht.
    eapply Forall_forall in Hins; [|done]. cbn in Hins. lia. }
  destruct (erase_ok db2 hash) as (db3 & He & Hdb3 & Hr3); [done..|].
  exists db1, db3. split_and!; [done| | |done|].
  - intros i Hi. destruct (Hin1 i Hi) as (t & _ & _ & Ht & _ & _ & ->). eexists. split; [done|].
    rewrite marks_lookup, decide_True by (apply Exists_exists; by exists i). by rewrite Ht.
  - unfold DisconnectInputs. rewrite Hcb. cbn [negb]. by rewrite Hu, Hhash, He.
  - intros h Hh. rewrite Hr3 by done. destruct (decide (h = hash)) as [->|Hne]; [done|].
    rewrite Hr2, Hcon, decide_False by done.
    destruct (ReadTxIndex db h) as [[t|]|] eqn:Er; cbn; [|done..]. do 2 f_equal. apply marks_inverse.
    intros i Hi Hh'. destruct (Hin1 i Hi) as (t' & Ht' & _ & Hn & _). rewrite Hh', Er in Ht'. congruence.
Qed.
End roundtrip.


(** ** A worked example

    A transaction that spends the only output of a transaction on disk, locked by [OP_1]. *)
Definition ex_prev_hash : uint256 := uint256_of 7.
Definition ex_prev_pos : CDiskTxPos := DiskTxPos 1 8 9.
Definition ex_prev : CTransaction :=
  Transaction 1 1000 [TxIn (OutPoint (uint256_of 5) 0) [] SEQUENCE_FINAL []] [TxOut 50000 [0x51]] 0.
Definition ex_tx : CTransaction :=
  Transaction 1 2000 [TxIn (OutPoint ex_prev_hash 0) [] SEQUENCE_FINAL []] [TxOut 40000 [0x51]] 0.
Definition ex_hash : uint256 := default [] (GetHash ex_tx).
Definition ex_pos : CDiskTxPos := DiskTxPos 1 100 200.
Definition ex_node : node :=
  Node (fun p => if decide (p = ex_prev_pos) then Some ex_prev else None) (fun _ _ => Some 900) 15 0 0 5000.
Definition ex_index : CTxIndex := CTxIndex_new ex_prev_pos 1.
Definition ex_inputs : MapPrevTx := {[ ex_prev_hash := (ex_index, ex_prev) ]}.
Definition ex_db : LevelDB.CLevelDB := default LevelDB.empty_db (snd <$> UpdateTxIndex LevelDB.empty_db ex_prev_hash ex_index).

#[local] Instance ex_checker : SigChecker unit := SigCheck.pure_checker SigCheck.toy_verify.

Definition ex_connect (pvChecks : bool) : res unit * cstate :=
  ConnectInputs Crypto.RIPEMD160 Crypto.SHA1 Crypto.SHA256 ex_node ex_db ex_inputs ∅ ex_tx ex_pos [] true false true
    SCRIPT_VERIFY_P2SH pvChecks [] tt.


Lemma ConnectInputs_spends_witness :
  slot (cs_inputs (ex_connect false).2) (OutPoint ex_prev_hash 0) = Some ex_pos
  /\ script_verified Crypto.RIPEMD160 Crypto.SHA1 Crypto.SHA256 ex_tx SCRIPT_VERIFY_P2SH 0
       (TxIn (OutPoint ex_prev_hash 0) [] SEQUENCE_FINAL []) (TxOut 50000 [0x51]).
Proof.
  destruct (ConnectInputs_spends Crypto.RIPEMD160 Crypto.SHA1 Crypto.SHA256 ex_node ex_tx ex_pos true false SCRIPT_VERIFY_P2SH
    ex_db ex_inputs ∅ [] true false [] tt (ex_connect false).2) as (_ & _ & Hs & Hv).
  - vm_compute. reflexivity.
  - apply Forall_singleton. cbn. lia.
  - vm_compute. reflexivity.
  - vm_compute. reflexivity.
  - split.
    + rewrite Hs by (cbn; lia). vm_compute. reflexivity.
    + apply (Hv eq_refl eq_refl 0%nat); vm_compute; reflexivity.
Defined.

Lemma ex_index_ok : txindex_ok ex_index.
Proof.
  split; [|split]; [unfold diskpos_ok; cbn; lia|by vm_compute|].
  apply Forall_singleton. unfold diskpos_ok. cbn. unfold UINT32_MAX. lia.
Qed.

Lemma ex_db_reads h :
  ReadTxIndex ex_db h = if decide (h = ex_prev_hash) then Some (Some ex_index) else Some None.
Proof.
  destruct (update_ok LevelDB.empty_db ex_prev_hash ex_index) as (d & Hd & _ & Hr); [by split|done|by apply ex_index_ok|].
  unfold ex_db. rewrite Hd. cbn [fmap option_fmap option_map snd default from_option id]. by rewrite Hr.
Qed.

Lemma mark_spent_ok t n p : txindex_ok t -> diskpos_ok p -> txindex_ok (mark_spent t n p).
Proof.
  intros (Hp & Hl & Hv) Hpos. split_and!; [done| |].
  - unfold zlen in *. cbn. by rewrite length_insert.
  - by apply Forall_insert.
Qed.

Lemma connect_disconnect_witness :
  exists db1 db2,
    write_queued (map_to_list (<[ex_hash := CTxIndex_new ex_pos 1]> (cs_pool (ex_connect false).2))) ex_db = (Ok tt, db1)
    /\ DisconnectInputs db1 ex_tx = (Ok tt, db2)
    /\ ReadTxIndex db2 ex_prev_hash = ReadTxIndex ex_db ex_prev_hash.
Proof.
  destruct (connect_disconnect (entry_ok := txindex_ok) Crypto.RIPEMD160 Crypto.SHA1 Crypto.SHA256 ex_node ex_tx ex_pos)
    with (db := ex_db) (mempool := ∅ : gmap uint256 CTransaction) (inputs := ex_inputs) (fInvalid := false)
      (chain := @nil CBlockIndex) (fScriptChecks := true) (flags := SCRIPT_VERIFY_P2SH) (pvChecks := false)
      (checks := @nil CScriptCheck) (c := tt) (st := (ex_connect false).2) (hash := ex_hash)
    as (db1 & db2 & Hw & _ & Hd & _ & Hr).
  - intros t n p Ht Hp. apply mark_spent_ok; [done|]. destruct Hp as [->| ->]; unfold diskpos_ok; cbn; unfold UINT32_MAX; lia.
  - by split.
  - reflexivity.
  - apply Forall_singleton. cbn. lia.
  - apply Forall_singleton. done.
  - reflexivity.
  - vm_compute. reflexivity.
  - done.
  - split; [|split]; [unfold diskpos_ok; cbn; lia|by vm_compute|].
    apply Forall_singleton. unfold diskpos_ok. cbn. unfold UINT32_MAX. lia.
  - intros h t. rewrite ex_db_reads. destruct (decide _); [|done]. intros [= <-].
    split; [apply ex_index_ok|]. by apply Forall_singleton.
  - rewrite ex_db_reads. rewrite decide_False; [done|]. vm_compute. discriminate.
  - vm_compute. reflexivity.
  - vm_compute. reflexivity.
  - exists db1, db2. split; [exact Hw|]. split; [exact Hd|]. by apply Hr.
Defined.

End InputsProps.
