(* ===== verification/Block.v ===== *)
(** * Block: checking, connecting and disconnecting blocks ([block/block.cpp])

    The context-free checks of a block ([CheckBlock]) and the two operations that apply a block to the
    transaction index and take it back ([ConnectBlock] and [DisconnectBlock]). The queued changes are a map; the
    code writes them in the order of the hashes, the model in some order: the keys differ. *)
From stdpp Require Import strings.
From S2P Require Import Prelude ScriptNum Script Serialize Crypto Transaction Merkle Uint256 BlockData LevelDB.
From S2P Require Import Keys SigCheck Interpreter Solver Inputs Difficulty.
Import Tx BlockData Script_param Inputs Difficulty.

(** ** The part of the database that holds the block index

    [CTxDB_impl]: [None] is a failed assertion, as in [TxDB]. *)
Class BlockDB (D : Type) : Type := {
  WriteBlockIndex : D -> CDiskBlockIndex -> option (bool * D);
  WriteHashBestChain : D -> uint256 -> option (bool * D)
}.

(** Both writes succeed and leave the transaction index alone. *)
Class BlockDBLaws (D : Type) `{!TxDB D, !BlockDB D} (db_ok : D -> Prop) : Prop := {
  write_index_ok d i : db_ok d ->
    exists d', WriteBlockIndex d i = Some (true, d') /\ db_ok d' /\ forall h, ReadTxIndex d' h = ReadTxIndex d h;
  write_best_ok d h : db_ok d ->
    exists d', WriteHashBestChain d h = Some (true, d') /\ db_ok d' /\ forall h', ReadTxIndex d' h' = ReadTxIndex d h'
}.

Module Block.

(** ** Computations that can fail and change a state *)

Definition M (S A : Type) : Type := S -> res A * S.
Definition mret {S A} (a : A) : M S A := fun s => (Ok a, s).
Definition lift {S A} (r : res A) : M S A := fun s => (r, s).
Definition mget {S} : M S S := fun s => (Ok s, s).
Definition modify {S} (f : S -> S) : M S unit := fun s => (Ok tt, f s).
Definition M_bind {S A B} (m : M S A) (k : A -> M S B) : M S B := fun s =>
  match m s with
  | (Ok a, s) => k a s
  | (Reject d, s) => (Reject d, s)
  | (Throws, s) => (Throws, s)
  | (Aborts, s) => (Aborts, s)
  end.

Declare Scope block_scope.
Notation "'do!' x := m 'in' k" := (M_bind m (fun x => k))
  (at level 10, x binder, m at level 100, k at level 200) : block_scope.
Open Scope block_scope.

Fixpoint mapM_ {S A} (f : A -> M S unit) (l : list A) : M S unit :=
  match l with
  | [] => mret tt
  | a :: l => do! _ := f a in mapM_ f l
  end.

(** ** Settings *)

Definition MAX_BLOCK_SIGOPS : Z := block_params.MAX_BLOCK_SIZE / 50.
Definition CHECKLOCKTIMEVERIFY_SWITCH_TIME : Z := 1556668800.
Definition PastDrift (nTime : Z) : Z := nTime - 2 * nOneHour.
Definition FutureDrift (nTime : Z) : Z := nTime + 2 * nOneHour.

(** What a node knows besides its files: the network, the adjusted time, the height up to which the checkpoints
    vouch for the scripts, the number of script check threads, the height of the best chain *)
Record env : Type := Env {
  e_net : network; e_GetAdjustedTime : Z; e_GetTotalBlocksEstimate : Z;
  e_nScriptCheckThreads : Z; e_nBestHeight : Z }.

Section block.
Context `{MPI} `{BlockHash}.
Context {D : Type} `{!TxDB D, !BlockDB D}.
Context {C : Type} `{!SigChecker C}.
Variables RIPEMD160 SHA1 SHA256 : bytes -> bytes.
(** [CPubKey::Verify(hash, vchSig)] *)
Variable Verify : bytes -> uint256 -> bytes -> bool.
Variable nd : node.
Variable ev : env.

(** ** [CheckBlock] *)

Definition CheckBlockSignature (b : CBlock) : res bool :=
  if bool_decide (b_vchBlockSig b = []) then Ok false
  else
    let! tx := or_abort (b_vtx b !! 1%nat) in
    let! o := or_abort (vout tx !! 1%nat) in
    let '(solved, whichType, vSolutions) := Solver.Solver (scriptPubKey o) in
    if negb solved then Ok false
    else if bool_decide (whichType = TxnOutputType.TX_PUBKEY) then
      let! vchPubKey := or_abort (head vSolutions) in
      let key := CPubKey.Set_ vchPubKey in
      Ok (CPubKey.IsValid key && Verify key (block_hash b) (b_vchBlockSig b))
    else Ok false.

(** [CheckTransaction], with its score *)
Definition check_tx (tx : CTransaction) : res unit :=
  let! v := or_abort (CheckTransaction tx) in reject_if (negb (accepted v)) (dos v).

(** The state of the loop: the hashes met and the signature operations counted *)
Definition count_tx (tx : CTransaction) (st : gset uint256 * Z) : res (gset uint256 * Z) :=
  let! hash := or_abort (GetHash tx) in Ok ({[hash]} ∪ st.1, u32 (st.2 + GetLegacySigOpCount tx)).

(** The loop over the other transactions *)
Fixpoint check_txs (nBlockTime : Z) (txs : list CTransaction) (st : gset uint256 * Z) : res (gset uint256 * Z) :=
  match txs with
  | [] => Ok st
  | tx :: txs =>
      let! _ := reject_if (IsCoinBase tx) 100 in
      let! _ := reject_if (IsCoinStake tx) 100 in
      let! _ := reject_if (nBlockTime <? nTime tx) 50 in
      let! _ := check_tx tx in
      let! st := count_tx tx st in
      check_txs nBlockTime txs st
  end.

(** The checks of a proof-of-stake block on its first two transactions *)
Definition check_stake (b : CBlock) (coinbase : CTransaction) (fCheckSig : bool) (st : gset uint256 * Z) :
    res (gset uint256 * Z) :=
  let! _ := reject_if (negb (bh_nNonce (b_header b) =? 0)) 100 in
  let! _ := reject_if (match vout coinbase with [o] => negb (CTxOut_IsEmpty o) | _ => true end) 100 in
  let! coinstake := or_abort (b_vtx b !! 1%nat) in
  let! _ := reject_if (negb (GetBlockTime (b_header b) =? nTime coinstake)) 50 in
  let! sig := (if fCheckSig then CheckBlockSignature b else Ok true) in
  let! _ := reject_if (negb sig) 100 in
  let! _ := check_tx coinstake in
  count_tx coinstake st.

(** The checks of a proof-of-work block on its header *)
Definition check_work (b : CBlock) (coinbase : CTransaction) (fCheckPOW : bool) : res unit :=
  let! _ := reject_if (fCheckPOW && negb (CheckProofOfWork (e_net ev) (block_hash b) (bh_nBits (b_header b)))) 50 in
  let! _ := reject_if (GetBlockTime (b_header b) >? FutureDrift (e_GetAdjustedTime ev)) 0 in
  reject_if (GetBlockTime (b_header b) <? PastDrift (nTime coinbase)) 50.

(** The size is computed only if there are not too many transactions. *)
Definition check_size (b : CBlock) : res unit :=
  let! _ := reject_if (bool_decide (b_vtx b = []) || (zlen (b_vtx b) >? block_params.MAX_BLOCK_SIZE)) 100 in
  let! size := or_abort (GetBlockSize b) in
  reject_if (size >? block_params.MAX_BLOCK_SIZE) 100.

Definition CheckBlock (b : CBlock) (fCheckPOW fCheckMerkleRoot fCheckSig : bool) : res unit :=
  let! _ := check_size b in
  let fProofOfStake := IsProofOfStake b in
  let! coinbase := or_abort (head (b_vtx b)) in
  let! _ := reject_if (negb (IsCoinBase coinbase)) 100 in
  let! _ := check_tx coinbase in
  let! st := count_tx coinbase (∅, 0) in
  let! st := (if fProofOfStake then check_stake b coinbase fCheckSig st
              else let! _ := check_work b coinbase fCheckPOW in Ok st) in
  let! st := check_txs (GetBlockTime (b_header b)) (drop (if fProofOfStake then 2 else 1) (b_vtx b)) st in
  let! _ := reject_if (negb (Z.of_nat (size st.1) =? zlen (b_vtx b))) 100 in
  let! _ := reject_if (st.2 >? MAX_BLOCK_SIGOPS) 100 in
  if fCheckMerkleRoot then
    let! root := or_abort (block_merkle_root b) in
    reject_if (negb (bool_decide (bh_hashMerkleRoot (b_header b) = root))) 100
  else Ok tt.

(** ** [ConnectBlock] *)

(** The local variables of the loop over the transactions *)
Record connecting : Type := Connecting {
  cb_nTxPos : Z; cb_nFees : Z; cb_nValueIn : Z; cb_nValueOut : Z; cb_nSigOps : Z;
  cb_pool : gmap uint256 CTxIndex; cb_checks : list CScriptCheck; cb_checker : C }.

Definition advance (nSize : Z) (s : connecting) : connecting :=
  Connecting (u32 (cb_nTxPos s + nSize)) (cb_nFees s) (cb_nValueIn s) (cb_nValueOut s) (cb_nSigOps s)
    (cb_pool s) (cb_checks s) (cb_checker s).
Definition add_values (nFee nIn nOut : Z) (s : connecting) : connecting :=
  Connecting (cb_nTxPos s) (s64 (cb_nFees s + nFee)) (s64 (cb_nValueIn s + nIn)) (s64 (cb_nValueOut s + nOut)) (cb_nSigOps s)
    (cb_pool s) (cb_checks s) (cb_checker s).
Definition add_sigops (n : Z) (s : connecting) : connecting :=
  Connecting (cb_nTxPos s) (cb_nFees s) (cb_nValueIn s) (cb_nValueOut s) (u32 (cb_nSigOps s + n))
    (cb_pool s) (cb_checks s) (cb_checker s).
Definition queue (hash : uint256) (t : CTxIndex) (s : connecting) : connecting :=
  Connecting (cb_nTxPos s) (cb_nFees s) (cb_nValueIn s) (cb_nValueOut s) (cb_nSigOps s)
    (<[hash := t]> (cb_pool s)) (cb_checks s) (cb_checker s).

Definition count_sigops (n : Z) : M connecting unit :=
  do! _ := modify (add_sigops n) in
  do! s := mget in
  lift (reject_if (cb_nSigOps s >? MAX_BLOCK_SIGOPS) 100).

(** The flags of the script checks *)
Definition block_flags (tx : CTransaction) : Z :=
  let nFlags := Z.lor SCRIPT_VERIFY_NOCACHE SCRIPT_VERIFY_P2SH in
  if nTime tx >=? CHECKLOCKTIMEVERIFY_SWITCH_TIME then Z.lor nFlags SCRIPT_VERIFY_CHECKLOCKTIMEVERIFY else nFlags.

(** [ConnectInputs] on the queued changes; the checks that it collects are handed to the queue. *)
Definition connect_inputs (txdb : D) (inputs : MapPrevTx) (tx : CTransaction) (posThisTx : CDiskTxPos)
    (chain : list CBlockIndex) (fScriptChecks : bool) : M connecting unit := fun s =>
  let '(r, st) := ConnectInputs RIPEMD160 SHA1 SHA256 nd txdb inputs (cb_pool s) tx posThisTx chain true false fScriptChecks
                    (block_flags tx) (negb (e_nScriptCheckThreads ev =? 0)) [] (cb_checker s) in
  (r, Connecting (cb_nTxPos s) (cb_nFees s) (cb_nValueIn s) (cb_nValueOut s) (cb_nSigOps s) (cs_pool st)
        (match r with Ok _ => cb_checks s ++ cs_checks st | _ => cb_checks s end) (cs_checker st)).

(** The inputs of a transaction that is not a coinbase *)
Definition connect_spending (txdb : D) (mempool : gmap uint256 CTransaction) (chain : list CBlockIndex)
    (fScriptChecks : bool) (posThisTx : CDiskTxPos) (tx : CTransaction) : M connecting unit :=
  do! s := mget in
  do! mapInputs := lift (FetchInputs nd txdb mempool (cb_pool s) tx true false ∅).1 in
  do! n := lift (GetP2SHSigOpCount tx mapInputs) in
  do! _ := count_sigops n in
  do! nTxValueIn := lift (GetValueIn tx mapInputs) in
  do! nTxValueOut := lift (or_throw (GetValueOut tx)) in
  do! _ := modify (add_values (if IsCoinStake tx then 0 else s64 (nTxValueIn - nTxValueOut)) nTxValueIn nTxValueOut) in
  connect_inputs txdb mapInputs tx posThisTx chain fScriptChecks.

(** BIP30: the entry of the same hash has an output that is not spent. *)
Definition overwrites (old : option CTxIndex) : bool :=
  match old with Some t => existsb CDiskTxPos_IsNull (vSpent t) | None => false end.

(** One turn of the loop; [pindex :: ancestors] is the chain that ends in the block. *)
Definition connect_tx (txdb : D) (mempool : gmap uint256 CTransaction) (pindex : CBlockIndex) (ancestors : list CBlockIndex)
    (fJustCheck fScriptChecks : bool) (tx : CTransaction) : M connecting unit :=
  do! hashTx := lift (or_abort (GetHash tx)) in
  do! txindexOld := lift (or_abort (ReadTxIndex txdb hashTx)) in
  do! _ := lift (reject_if (overwrites txindexOld) 0) in
  do! _ := count_sigops (GetLegacySigOpCount tx) in
  do! s := mget in
  let posThisTx := DiskTxPos (bi_nFile pindex) (bi_nBlockPos pindex) (cb_nTxPos s) in
  do! _ := (if fJustCheck then mret tt else do! n := lift (or_abort (GetSerializeSize tx)) in modify (advance n)) in
  do! _ := (if IsCoinBase tx then do! v := lift (or_throw (GetValueOut tx)) in modify (add_values 0 0 v)
            else connect_spending txdb mempool (pindex :: ancestors) fScriptChecks posThisTx tx) in
  modify (queue hashTx (CTxIndex_new posThisTx (length (vout tx)))).

(** [control.Wait()], or the destructor of [control]: the result of the checks, as the script check queue gives
    it, and what they leave in the signature cache *)
Definition control_wait (s : connecting) : option (bool * C) := run_checks RIPEMD160 SHA1 SHA256 (cb_checks s) (cb_checker s).

(** The state of [ConnectBlock] and [DisconnectBlock]: the database, the entry of the block, the
    signature cache, and the calls of [SyncWithWallets(tx, this, fUpdate, fConnect)], in order *)
Record bstate : Type := BState {
  bs_db : D; bs_index : CBlockIndex; bs_checker : C; bs_synced : list (CTransaction * bool * bool) }.

(** The loop, and then the wait for the script checks: they are waited for on an early return too. *)
Definition connect_txs (mempool : gmap uint256 CTransaction) (b : CBlock) (ancestors : list CBlockIndex)
    (fJustCheck fScriptChecks : bool) (nTxPos : Z) : M bstate connecting := fun bs =>
  let '(r, s) := mapM_ (connect_tx (bs_db bs) mempool (bs_index bs) ancestors fJustCheck fScriptChecks) (b_vtx b)
                   (Connecting nTxPos 0 0 0 0 ∅ [] (bs_checker bs)) in
  match control_wait s with
  | None => (Aborts, bs)
  | Some (ok, c) =>
      let bs := BState (bs_db bs) (bs_index bs) c (bs_synced bs) in
      match r with
      | Ok _ => if ok : bool then (Ok s, bs) else (Reject 100, bs)
      | Reject d => (Reject d, bs)
      | Throws => (Throws, bs)
      | Aborts => (Aborts, bs)
      end
  end.

Definition CBlock_default : CBlock := Block CBlockHeader_SetNull [] [].

(** The position of the first transaction in the file *)
Definition first_tx_pos (b : CBlock) (pindex : CBlockIndex) (fJustCheck : bool) : option Z :=
  if fJustCheck then Some 1
  else
    n ← GetBlockSize CBlock_default;
    Some (u32 (bi_nBlockPos pindex + n - 2 * Serialize.GetSizeOfCompactSize 0 + Serialize.GetSizeOfCompactSize (zlen (b_vtx b)))).

(** Operations on the database *)
Definition on_db {A} (f : D -> res A * D) : M bstate A := fun bs =>
  let '(r, db) := f (bs_db bs) in (r, BState db (bs_index bs) (bs_checker bs) (bs_synced bs)).
Definition db_write (w : D -> option (bool * D)) : M bstate unit := on_db (fun db =>
  match w db with
  | None => (Aborts, db)
  | Some (false, db) => (Reject 0, db)
  | Some (true, db) => (Ok tt, db)
  end).
Definition write_index (d : CDiskBlockIndex) : M bstate unit := db_write (fun db => WriteBlockIndex db d).

Definition set_index (f : CBlockIndex -> CBlockIndex) : M bstate unit :=
  modify (fun bs => BState (bs_db bs) (f (bs_index bs)) (bs_checker bs) (bs_synced bs)).
Definition SyncWithWallets (fUpdate fConnect : bool) (b : CBlock) : M bstate unit :=
  modify (fun bs => BState (bs_db bs) (bs_index bs) (bs_checker bs)
                      (bs_synced bs ++ ((fun tx => (tx, fUpdate, fConnect)) <$> b_vtx b))).

(** The coinbase of a proof-of-work block takes at most the subsidy and the fees. *)
Definition check_reward (b : CBlock) (nFees : Z) : res unit :=
  if IsProofOfWork b then
    let! coinbase := or_abort (head (b_vtx b)) in
    let! nValueOut := or_throw (GetValueOut coinbase) in
    reject_if (nValueOut >? GetProofOfWorkReward (e_nBestHeight ev) nFees) 0
  else Ok tt.

Definition ConnectBlock (mempool : gmap uint256 CTransaction) (b : CBlock) (ancestors : list CBlockIndex)
    (fJustCheck : bool) : M bstate unit :=
  do! _ := lift (CheckBlock b (negb fJustCheck) (negb fJustCheck) false) in
  do! bs := mget in
  let fScriptChecks := bi_nHeight (bs_index bs) >=? e_GetTotalBlocksEstimate ev in
  do! nTxPos := lift (or_abort (first_tx_pos b (bs_index bs) fJustCheck)) in
  do! s := connect_txs mempool b ancestors fJustCheck fScriptChecks nTxPos in
  do! _ := lift (check_reward b (cb_nFees s)) in
  let nPrevSupply := match ancestors with prev :: _ => bi_nMoneySupply prev | [] => 0 end in
  do! _ := set_index (set_money (s64 (cb_nValueOut s - cb_nValueIn s + cb_nFees s))
                        (s64 (nPrevSupply + cb_nValueOut s - cb_nValueIn s))) in
  do! bs := mget in
  do! _ := write_index (CDiskBlockIndex_new (bs_index bs)) in
  if fJustCheck then mret tt
  else
    do! _ := on_db (write_queued (map_to_list (cb_pool s))) in
    do! _ := (match ancestors with
              | prev :: _ =>
                  do! hash := lift (or_abort (bi_phashBlock (bs_index bs))) in
                  write_index (set_hashNext hash (CDiskBlockIndex_new prev))
              | [] => mret tt
              end) in
    SyncWithWallets true true b.

(** ** [DisconnectBlock] *)

Definition DisconnectBlock (b : CBlock) (ancestors : list CBlockIndex) : M bstate unit :=
  do! _ := mapM_ (fun tx => on_db (fun db => DisconnectInputs db tx)) (reverse (b_vtx b)) in
  do! _ := (match ancestors with
            | prev :: _ => write_index (set_hashNext (uint256_of 0) (CDiskBlockIndex_new prev))
            | [] => mret tt
            end) in
  SyncWithWallets false false b.
End block.

(** ** The database of the program *)

(** [CTxDB_impl::WriteBlockIndex]. The entries that are written here are new objects without a cached hash, so
    the fast index makes no difference. *)
#[global] Instance CTxDB_blocks `{BlockHash} : BlockDB LevelDB.CLevelDB := {
  WriteBlockIndex db blockindex :=
    let '(hash, blockindex) := di_GetBlockHash false blockindex in
    LevelDB.Write (LevelDB.pair_key "blockindex"%string hash) (Serialize.put disk_index_codec blockindex) true db;
  WriteHashBestChain db hash := LevelDB.WriteHashBestChain hash db
}.

Lemma Write_other key v db :
  LevelDB.writable db -> (forall h, LevelDB.pair_key "tx"%string h <> key) ->
  exists db', LevelDB.Write key v true db = Some (true, db') /\ LevelDB.writable db'
    /\ forall h, ReadTxIndex db' h = ReadTxIndex db h.
Proof.
  intros Hdb Hkey. destruct (LevelDB.Write_view key v db Hdb) as (d' & Hw & Hd' & Hv & _). exists d'. split_and!; [done..|].
  intros h. cbn [ReadTxIndex LevelDB.CTxDB]. unfold LevelDB.Read. destruct Hdb as [_ ->], Hd' as [_ ->].
  rewrite !LevelDB.ReadNormal_view, Hv. rewrite lookup_insert_ne; [done|]. intros He. by apply (Hkey h).
Qed.

#[global] Instance CTxDB_block_laws `{BlockHash} : BlockDBLaws LevelDB.CLevelDB LevelDB.writable.
Proof.
  split.
  - intros d i Hd. cbn [WriteBlockIndex CTxDB_blocks]. destruct (di_GetBlockHash false i) as [hash i'].
    by apply Write_other.
  - intros d h Hd. by apply Write_other.
Qed.

End Block.
