(* ===== verification/BlockProps.v ===== *)
(** * BlockProps: what checking, connecting and disconnecting a block guarantees *)
From S2P Require Import Prelude ScriptNum Script Serialize Crypto Transaction Merkle Uint256 BlockData LevelDB.
From S2P Require Import Keys SigCheck Interpreter Solver Inputs InputsProps Difficulty Block.
Import Tx BlockData Script_param Inputs InputsProps Difficulty Block.

Module BlockProps.

(** ** Computations with a state *)

Lemma M_bind_ok {S A B} (m : M S A) (k : A -> M S B) s b s' :
  M_bind m k s = (Ok b, s') <-> exists a s1, m s = (Ok a, s1) /\ k a s1 = (Ok b, s').
Proof.
  unfold M_bind. destruct (m s) as [[a| | |] s1].
  - split; [by exists a, s1|]. by intros (a' & s1' & [= -> ->] & Hk).
  - split; [done|]. by intros (a' & s1' & ? & _).
  - split; [done|]. by intros (a' & s1' & ? & _).
  - split; [done|]. by intros (a' & s1' & ? & _).
Qed.
Lemma lift_ok {S A} (r : res A) (s s' : S) a : lift r s = (Ok a, s') <-> r = Ok a /\ s' = s.
Proof. unfold lift. split; [by intros [= -> ->]|]. by intros [-> ->]. Qed.

(** [m_inv H] splits a successful computation into its steps. *)
Ltac m_inv H :=
  repeat (lazymatch type of H with
          | M_bind _ _ _ = (Ok _, _) =>
              let a := fresh "a" in let s := fresh "s" in let E := fresh "E" in
              apply M_bind_ok in H as (a & s & E & H); m_inv E
          | lift _ _ = (Ok _, _) => let E := fresh "Es" in apply lift_ok in H as [H E]; subst
          | modify _ _ = (Ok _, _) => injection H as H; subst
          | mget _ = (Ok _, _) => let E := fresh "Es" in injection H as H E; subst
          | mret _ _ = (Ok _, _) => let E := fresh "Es" in injection H as H E; subst
          end).

Lemma mapM_nil {S A} (f : A -> M S unit) s s' : mapM_ f [] s = (Ok tt, s') <-> s' = s.
Proof. cbn. unfold mret. split; congruence. Qed.
Lemma mapM_cons {S A} (f : A -> M S unit) a l s s' :
  mapM_ f (a :: l) s = (Ok tt, s') <-> exists s1, f a s = (Ok tt, s1) /\ mapM_ f l s1 = (Ok tt, s').
Proof.
  cbn [mapM_]. rewrite M_bind_ok. split; [intros ([] & s1 & H1 & H2); by exists s1|intros (s1 & H1 & H2); by exists tt, s1].
Qed.

Lemma mapM_app_ok {S A} (f : A -> M S unit) l k s s' :
  mapM_ f (l ++ k) s = (Ok tt, s') <-> exists s1, mapM_ f l s = (Ok tt, s1) /\ mapM_ f k s1 = (Ok tt, s').
Proof.
  revert s. induction l as [|a l IH]; intros s; cbn [app].
  - setoid_rewrite mapM_nil. split; [by exists s|by intros (? & -> & ?)].
  - setoid_rewrite mapM_cons. setoid_rewrite IH. split.
    + intros (s1 & ? & s2 & ? & ?). exists s2. split; [by exists s1|done].
    + intros (s2 & (s1 & ? & ?) & ?). exists s1. split; [done|]. by exists s2.
Qed.

(** ** [CheckBlock] *)

Section check.
Context `{MPI} `{BlockHash}.
Variable Verify : bytes -> uint256 -> bytes -> bool.
Variable ev : env.

(** What both kinds of blocks must satisfy *)
Record stake_checked (b : CBlock) (coinbase coinstake : CTransaction) (fCheckSig : bool) : Prop := StakeChecked {
  sc_nonce : bh_nNonce (b_header b) = 0;
  sc_empty : exists o, vout coinbase = [o] /\ CTxOut_IsEmpty o = true;
  sc_time : bh_nTime (b_header b) = nTime coinstake;
  sc_sig : fCheckSig = true -> CheckBlockSignature Verify b = Ok true }.

Record work_checked (b : CBlock) (coinbase : CTransaction) (fCheckPOW : bool) : Prop := WorkChecked {
  wc_pow : fCheckPOW = true -> CheckProofOfWork (e_net ev) (block_hash b) (bh_nBits (b_header b)) = true;
  wc_future : bh_nTime (b_header b) <= FutureDrift (e_GetAdjustedTime ev);
  wc_past : PastDrift (nTime coinbase) <= bh_nTime (b_header b) }.

(** A block that passes the checks that need no context *)
Record block_checked (b : CBlock) (fCheckPOW fCheckMerkleRoot fCheckSig : bool) : Prop := BlockChecked {
  bc_count : 0 < zlen (b_vtx b) <= block_params.MAX_BLOCK_SIZE;
  bc_size : exists n, GetBlockSize b = Some n /\ n <= block_params.MAX_BLOCK_SIZE;
  bc_coinbase : forall i tx, b_vtx b !! i = Some tx -> IsCoinBase tx = bool_decide (i = 0%nat);
  bc_coinstake : forall i tx, b_vtx b !! i = Some tx -> IsCoinStake tx = true -> i = 1%nat;
  bc_txs : forall tx, tx ∈ b_vtx b -> CheckTransaction tx = Some Accept;
  bc_unique : exists hashes, mapM GetHash (b_vtx b) = Some hashes /\ NoDup hashes;
  bc_sigops : fold_left (fun n tx => u32 (n + GetLegacySigOpCount tx)) (b_vtx b) 0 <= MAX_BLOCK_SIGOPS;
  bc_times : forall i tx, ((if IsProofOfStake b then 2 else 1) <= i)%nat -> b_vtx b !! i = Some tx -> nTime tx <= bh_nTime (b_header b);
  bc_kind : exists coinbase, b_vtx b !! 0%nat = Some coinbase /\
    if IsProofOfStake b then exists coinstake, b_vtx b !! 1%nat = Some coinstake /\ stake_checked b coinbase coinstake fCheckSig
    else work_checked b coinbase fCheckPOW;
  bc_merkle : fCheckMerkleRoot = true -> block_merkle_root b = Some (bh_hashMerkleRoot (b_header b)) }.

Lemma check_tx_ok tx u : check_tx tx = Ok u <-> CheckTransaction tx = Some Accept.
Proof.
  unfold check_tx. rewrite res_bind_ok. setoid_rewrite or_abort_ok. setoid_rewrite reject_if_ok. split.
  - intros (v & Hv & Ha%negb_false_iff). by rewrite (CheckTransaction_accepts tx v Hv Ha) in Hv.
  - intros Hv. by exists Accept.
Qed.

(** Counting the transactions [txs] from [st] *)
Definition counted (txs : list CTransaction) (st st' : gset uint256 * Z) : Prop :=
  exists hashes, mapM GetHash txs = Some hashes /\ st'.1 = list_to_set hashes ∪ st.1
    /\ st'.2 = fold_left (fun n tx => u32 (n + GetLegacySigOpCount tx)) txs st.2.

Lemma mapM_app {A B} (f : A -> option B) l k hs :
  mapM f (l ++ k) = Some hs <-> exists h1 h2, mapM f l = Some h1 /\ mapM f k = Some h2 /\ hs = h1 ++ h2.
Proof.
  rewrite !mapM_Some. split.
  - intros (h1 & h2 & ? & ? & ->)%Forall2_app_inv_l. exists h1, h2. by rewrite !mapM_Some.
  - intros (h1 & h2 & ?%mapM_Some & ?%mapM_Some & ->). by apply Forall2_app.
Qed.

Lemma counted_nil st st' : counted [] st st' <-> st' = st.
Proof.
  unfold counted. cbn [mapM fold_left]. split.
  - intros (hs & [= <-] & H1 & H2). destruct st, st'. cbn [fst snd list_to_set] in *. rewrite (left_id_L ∅ (∪)) in H1. by subst.
  - intros ->. exists []. cbn [list_to_set]. by rewrite (left_id_L ∅ (∪)).
Qed.

Lemma counted_cons tx txs st st' :
  counted (tx :: txs) st st' <->
  exists h, GetHash tx = Some h /\ counted txs ({[h]} ∪ st.1, u32 (st.2 + GetLegacySigOpCount tx)) st'.
Proof.
  unfold counted. cbn [mapM fold_left fst snd]. split.
  - intros (hs & Hm & H1 & H2). destruct (GetHash tx) as [h|]; [|done]. cbn in Hm. destruct (mapM GetHash txs) as [hs'|]; [|done].
    injection Hm as <-. exists h. split; [done|]. exists hs'. split_and!; [done| |done].
    rewrite H1, list_to_set_cons, (assoc_L (∪)). by rewrite (comm_L (∪) {[h]} (list_to_set hs')).
  - intros (h & -> & hs & -> & H1 & H2). exists (h :: hs). split_and!; [done| |done].
    rewrite H1, list_to_set_cons, (assoc_L (∪)). by rewrite (comm_L (∪) {[h]} (list_to_set hs)).
Qed.

Lemma count_tx_ok tx st st' : count_tx tx st = Ok st' <-> counted [tx] st st'.
Proof.
  unfold count_tx. rewrite res_bind_ok, counted_cons. setoid_rewrite or_abort_ok. setoid_rewrite counted_nil. split.
  - intros (h & Hh & [= <-]). by exists h.
  - intros (h & Hh & ->). by exists h.
Qed.

Lemma counted_app a b st1 st3 : counted (a ++ b) st1 st3 <-> exists st2, counted a st1 st2 /\ counted b st2 st3.
Proof.
  revert st1. induction a as [|tx a IH]; intros st1; cbn [app].
  - setoid_rewrite counted_nil. split; [by exists st1|by intros (? & -> & ?)].
  - setoid_rewrite counted_cons. setoid_rewrite IH. split.
    + intros (h & Hh & st2 & ? & ?). exists st2. split; [by exists h|done].
    + intros (st2 & (h & Hh & ?) & ?). exists h. split; [done|]. by exists st2.
Qed.

(** A transaction that is neither a coinbase nor a coinstake and not younger than the block *)
Definition plain_tx (nBlockTime : Z) (tx : CTransaction) : Prop :=
  IsCoinBase tx = false /\ IsCoinStake tx = false /\ nTime tx <= nBlockTime /\ CheckTransaction tx = Some Accept.

Lemma check_txs_ok t txs st st' : check_txs t txs st = Ok st' <-> Forall (plain_tx t) txs /\ counted txs st st'.
Proof.
  revert st. induction txs as [|tx txs IH]; intros st; cbn [check_txs].
  { rewrite counted_nil. split; [by intros [= <-]|by intros [_ ->]]. }
  rewrite Forall_cons, (counted_app [tx] txs). split.
  - intros Hc. res_inv Hc. apply check_tx_ok in E2. apply count_tx_ok in E3. apply IH in Hc as [Hp Hc].
    split; [split; [split_and!; [done..|lia|done]|done]|by exists x3].
  - intros [[(Hcb & Hcs & Ht & Hck) Hp] (st2 & H1%count_tx_ok & H2)]. apply check_tx_ok with (u := tt) in Hck.
    rewrite Hcb, Hcs, Hck, H1, (proj2 (Z.ltb_ge _ _)) by lia. cbn [reject_if res_bind]. by apply IH.
Qed.

Lemma size_list_to_set_le (l : list uint256) : (size (list_to_set l : gset uint256) <= length l)%nat.
Proof.
  induction l as [|h l IH]; [by cbn [list_to_set]; rewrite size_empty|]. cbn [list_to_set length].
  rewrite size_union_alt, size_singleton. etransitivity; [apply Nat.add_le_mono_l, (subseteq_size _ (list_to_set l))|lia].
  by apply subseteq_difference_l.
Qed.

(** The hashes are pairwise different if the set of them is as large as the block. *)
Lemma unique_size (hashes : list uint256) n :
  length hashes = n -> size (list_to_set hashes : gset uint256) = n <-> NoDup hashes.
Proof.
  intros <-. split; [|apply size_list_to_set].
  induction hashes as [|h hs IH]; [constructor|]. cbn [list_to_set length]. intros Hs.
  destruct (decide (h ∈ hs)) as [Hin|Hin].
  - rewrite subseteq_union_1_L in Hs by (by apply singleton_subseteq_l, elem_of_list_to_set).
    pose proof (size_list_to_set_le hs). lia.
  - rewrite size_union, size_singleton in Hs by (by apply disjoint_singleton_l; rewrite elem_of_list_to_set).
    constructor; [done|]. apply IH. lia.
Qed.

Lemma counted_unique txs st :
  counted txs (∅, 0) st ->
  (Z.of_nat (size st.1) = zlen txs <-> exists hashes, mapM GetHash txs = Some hashes /\ NoDup hashes)
  /\ st.2 = fold_left (fun n tx => u32 (n + GetLegacySigOpCount tx)) txs 0.
Proof.
  intros (hs & Hm & H1 & H2). split; [|done]. cbn [fst] in H1. rewrite (right_id_L ∅ (∪)) in H1.
  assert (length hs = length txs) as Hl by (symmetry; by eapply Forall2_length, mapM_Some).
  rewrite H1. unfold zlen. split.
  - intros Hs. exists hs. split; [done|]. apply (unique_size hs (length txs) Hl). lia.
  - intros (hs' & Hm' & Hnd). assert (hs' = hs) as -> by congruence.
    apply (unique_size hs (length txs) Hl) in Hnd. by rewrite Hnd.
Qed.

(** The checks after the first transactions *)
Lemma check_rest b (fCheckMerkleRoot : bool) st :
  counted (b_vtx b) (∅, 0) st ->
  (let! _ := reject_if (negb (Z.of_nat (size st.1) =? zlen (b_vtx b))) 100 in
   let! _ := reject_if (st.2 >? MAX_BLOCK_SIGOPS) 100 in
   if fCheckMerkleRoot then
     let! root := or_abort (block_merkle_root b) in
     reject_if (negb (bool_decide (bh_hashMerkleRoot (b_header b) = root))) 100
   else Ok tt) = Ok tt
  <-> (exists hashes, mapM GetHash (b_vtx b) = Some hashes /\ NoDup hashes)
      /\ fold_left (fun n tx => u32 (n + GetLegacySigOpCount tx)) (b_vtx b) 0 <= MAX_BLOCK_SIGOPS
      /\ (fCheckMerkleRoot = true -> block_merkle_root b = Some (bh_hashMerkleRoot (b_header b))).
Proof.
  intros [Hu <-]%counted_unique. rewrite <-Hu, !res_bind_ok. setoid_rewrite reject_if_ok. split.
  - intros (_ & Hs%negb_false_iff & Hr). res_inv Hr. split_and!; [lia|lia|]. intros ->. res_inv Hr.
    apply negb_false_iff, bool_decide_eq_true in Hr. congruence.
  - intros (Hs & Hn & Hm). exists tt. split; [lia|].
    assert ((st.2 >? MAX_BLOCK_SIGOPS) = false) as -> by lia. cbn [reject_if res_bind].
    destruct fCheckMerkleRoot; [|done]. rewrite (Hm eq_refl). cbn [or_abort res_bind]. by rewrite bool_decide_true.
Qed.

Lemma check_size_ok b :
  check_size b = Ok tt <-> 0 < zlen (b_vtx b) <= block_params.MAX_BLOCK_SIZE
    /\ exists n, GetBlockSize b = Some n /\ n <= block_params.MAX_BLOCK_SIZE.
Proof.
  unfold check_size. split.
  - intros Hc. res_inv Hc. apply orb_false_iff in E as [E1%bool_decide_eq_false E2]. split; [|exists x0; split; [done|lia]].
    destruct (b_vtx b); [done|]. rewrite zlen_cons in *. pose proof (zlen_nonneg l). lia.
  - intros (Hn & n & -> & Hs). assert (b_vtx b <> []) as Hne by (intros He; rewrite He in Hn; destruct Hn; discriminate).
    rewrite bool_decide_false by done.
    replace (zlen (b_vtx b) >? block_params.MAX_BLOCK_SIZE) with false by lia. cbn [orb reject_if res_bind or_abort].
    apply reject_if_ok. lia.
Qed.

Lemma check_stake_ok b coinbase sg st st' :
  check_stake Verify b coinbase sg st = Ok st' <->
  exists coinstake, b_vtx b !! 1%nat = Some coinstake /\ stake_checked b coinbase coinstake sg
    /\ CheckTransaction coinstake = Some Accept /\ counted [coinstake] st st'.
Proof.
  unfold check_stake. split.
  - intros Hc. res_inv Hc. exists x1. split; [done|]. apply check_tx_ok in E5. apply count_tx_ok in Hc. split; [|done].
    unfold GetBlockTime in E2. split.
    + apply negb_false_iff in E. lia.
    + destruct (vout coinbase) as [|o [|]]; [done| |done]. exists o. split; [done|]. by apply negb_false_iff.
    + apply negb_false_iff in E2. lia.
    + intros ->. apply negb_false_iff in E4. congruence.
  - intros (cs & -> & [H1 (o & H2 & H3) H4 H5] & H6 & H7). apply check_tx_ok with (u := tt) in H6. apply count_tx_ok in H7.
    rewrite H2, H3. unfold GetBlockTime. rewrite H1, H4, Z.eqb_refl. cbn [negb reject_if res_bind or_abort]. rewrite Z.eqb_refl. cbn [negb reject_if res_bind].
    assert ((if sg then CheckBlockSignature Verify b else Ok true) = Ok true) as -> by (destruct sg; auto).
    cbn [negb reject_if res_bind]. rewrite H6. exact H7.
Qed.

Lemma check_work_ok b coinbase pow :
  check_work ev b coinbase pow = Ok tt <-> work_checked b coinbase pow.
Proof.
  unfold check_work, GetBlockTime. split.
  - intros Hc. res_inv Hc. split; [|lia|lia]. intros ->. by apply negb_false_iff in E.
  - intros [H1 H2 H3].
    assert (pow && negb (CheckProofOfWork (e_net ev) (block_hash b) (bh_nBits (b_header b))) = false) as ->.
    { destruct pow; [|done]. by rewrite H1. }
    replace (bh_nTime (b_header b) >? _) with false by lia. cbn [reject_if res_bind]. apply reject_if_ok. lia.
Qed.

Lemma coinstake_not_coinbase tx : IsCoinStake tx = true -> IsCoinBase tx = false.
Proof.
  unfold IsCoinStake, IsCoinBase. destruct (vin tx) as [|i [|]]; [done| |done].
  destruct (vout tx) as [|o [|]]; [done|done|]. by destruct (COutPoint_IsNull (prevout i)).
Qed.

(** The steps of [CheckBlock] *)
Lemma CheckBlock_steps b pow mk sg :
  CheckBlock Verify ev b pow mk sg = Ok tt <->
  check_size b = Ok tt /\ exists coinbase st1 st2 st3,
    b_vtx b !! 0%nat = Some coinbase /\ IsCoinBase coinbase = true /\ CheckTransaction coinbase = Some Accept
    /\ counted [coinbase] (∅, 0) st1
    /\ (if IsProofOfStake b then check_stake Verify b coinbase sg st1 = Ok st2
        else work_checked b coinbase pow /\ st2 = st1)
    /\ Forall (plain_tx (bh_nTime (b_header b))) (drop (if IsProofOfStake b then 2 else 1) (b_vtx b))
    /\ counted (drop (if IsProofOfStake b then 2 else 1) (b_vtx b)) st2 st3
    /\ (let! _ := reject_if (negb (Z.of_nat (size st3.1) =? zlen (b_vtx b))) 100 in
        let! _ := reject_if (st3.2 >? MAX_BLOCK_SIGOPS) 100 in
        if mk then
          let! root := or_abort (block_merkle_root b) in
          reject_if (negb (bool_decide (bh_hashMerkleRoot (b_header b) = root))) 100
        else Ok tt) = Ok tt.
Proof.
  unfold CheckBlock, GetBlockTime. rewrite head_lookup. split.
  - intros Hc. apply res_bind_ok in Hc as ([] & Hs & Hc). split; [done|].
    apply res_bind_ok in Hc as (cb & Hcb%or_abort_ok & Hc). apply res_bind_ok in Hc as (_ & Hbase%reject_if_ok & Hc).
    apply res_bind_ok in Hc as (_ & Hck%check_tx_ok & Hc). apply res_bind_ok in Hc as (st1 & H1%count_tx_ok & Hc).
    apply res_bind_ok in Hc as (st2 & H2 & Hc). apply res_bind_ok in Hc as (st3 & [H3 H4]%check_txs_ok & Hc).
    exists cb, st1, st2, st3. apply negb_false_iff in Hbase. split_and!; try done.
    destruct (IsProofOfStake b); [done|]. apply res_bind_ok in H2 as ([] & H2%check_work_ok & [= ->]). done.
  - intros (-> & cb & st1 & st2 & st3 & -> & Hbase & Hck & H1 & H2 & H3 & H4 & Hr).
    apply check_tx_ok with (u := tt) in Hck. apply count_tx_ok in H1. cbn [res_bind or_abort]. rewrite Hbase, Hck, H1.
    cbn [negb reject_if res_bind].
    assert ((if IsProofOfStake b then check_stake Verify b cb sg st1 else let! _ := check_work ev b cb pow in Ok st1) = Ok st2) as ->.
    { destruct (IsProofOfStake b); [done|]. destruct H2 as [H2%check_work_ok ->]. by rewrite H2. }
    cbn [res_bind]. rewrite (proj2 (check_txs_ok _ _ _ st3)) by done. exact Hr.
Qed.

Lemma plain_lookup t k txs :
  Forall (plain_tx t) (drop k txs) <-> forall i tx, (k <= i)%nat -> txs !! i = Some tx -> plain_tx t tx.
Proof.
  rewrite Forall_lookup. setoid_rewrite lookup_drop. split.
  - intros Hf i tx Hi Htx. apply (Hf (i - k)%nat). by replace (k + (i - k))%nat with i by lia.
  - intros Hf i tx Htx. by apply (Hf (k + i)%nat); [lia|].
Qed.

(** The transactions of an accepted block, by position *)
Lemma block_positions b cb st1 st2 st3 sg pow :
  b_vtx b !! 0%nat = Some cb -> CheckTransaction cb = Some Accept -> counted [cb] (∅, 0) st1 ->
  (if IsProofOfStake b then check_stake Verify b cb sg st1 = Ok st2 else work_checked b cb pow /\ st2 = st1) ->
  Forall (plain_tx (bh_nTime (b_header b))) (drop (if IsProofOfStake b then 2 else 1) (b_vtx b)) ->
  counted (drop (if IsProofOfStake b then 2 else 1) (b_vtx b)) st2 st3 ->
  counted (b_vtx b) (∅, 0) st3 /\ forall i tx, b_vtx b !! i = Some tx ->
    (i = 0%nat /\ tx = cb) \/ (i = 1%nat /\ IsProofOfStake b = true /\ IsCoinStake tx = true /\ CheckTransaction tx = Some Accept)
    \/ (((if IsProofOfStake b then 2 else 1) <= i)%nat /\ plain_tx (bh_nTime (b_header b)) tx).
Proof.
  intros Hcb Hck H1 H2 H3 H4. pose proof (proj1 (plain_lookup _ _ _) H3) as Hplain.
  destruct (b_vtx b) as [|c rest] eqn:Ev; [done|]. injection Hcb as ->. destruct (IsProofOfStake b) eqn:Ep.
  - apply check_stake_ok in H2 as (cs & Hcs & Hsc & Hckc & H2). rewrite Ev in Hcs. destruct rest as [|c rest]; [done|].
    injection Hcs as ->. split.
    + apply (counted_app [cb] (cs :: rest)). exists st1. split; [done|]. apply (counted_app [cs] rest). by exists st2.
    + intros [|[|i]] tx Htx; [injection Htx as ->; by left|right; left|right; right; split; [lia|apply (Hplain (S (S i))); [lia|done]]].
      injection Htx as <-. unfold IsProofOfStake in Ep. by rewrite Ev in Ep.
  - destruct H2 as [_ ->]. split; [apply (counted_app [cb] rest); by exists st1|].
    intros [|i] tx Htx; [injection Htx as ->; by left|right; right; split; [lia|apply (Hplain (S i)); [lia|done]]].
Qed.

Lemma CheckBlock_sound b pow mk sg : CheckBlock Verify ev b pow mk sg = Ok tt -> block_checked b pow mk sg.
Proof.
  rewrite CheckBlock_steps, check_size_ok. intros ([Hn Hs] & cb & st1 & st2 & st3 & Hcb & Hbase & Hck & H1 & H2 & H3 & H4 & Hr).
  destruct (block_positions b cb st1 st2 st3 sg pow) as [Hcnt Hpos]; [done..|].
  destruct (proj1 (check_rest b mk st3 Hcnt) Hr) as (Hu & Hops & Hm). split; try done.
  - intros i tx Htx. destruct (Hpos i tx Htx) as [[-> ->]|[(-> & _ & Hst & _)|[Hi (Hp & _)]]].
    + by rewrite bool_decide_true.
    + by apply coinstake_not_coinbase.
    + rewrite Hp, bool_decide_false; [done|]. destruct (IsProofOfStake b); lia.
  - intros i tx Htx Hst. destruct (Hpos i tx Htx) as [[-> ->]|[(-> & _)|[_ (_ & Hp & _)]]]; [|done|congruence].
    apply coinstake_not_coinbase in Hst. congruence.
  - intros tx [i Htx]%list_elem_of_lookup. destruct (Hpos i tx Htx) as [[-> ->]|[(_ & _ & _ & ?)|[_ (_ & _ & _ & ?)]]]; done.
  - intros i tx Hi Htx. destruct (Hpos i tx Htx) as [[-> ->]|[(-> & Hp & _)|[_ (_ & _ & ? & _)]]]; [| |done].
    + destruct (IsProofOfStake b); lia.
    + rewrite Hp in Hi. lia.
  - exists cb. split; [done|]. destruct (IsProofOfStake b); [|by destruct H2].
    apply check_stake_ok in H2 as (cs & Hcs & Hsc & _). by exists cs.
Qed.

Lemma CheckBlock_complete b pow mk sg : block_checked b pow mk sg -> CheckBlock Verify ev b pow mk sg = Ok tt.
Proof.
  intros [Hn Hs Hbase Hstake Htxs Hu Hops Hti (cb & Hcb & Hkind) Hm]. apply CheckBlock_steps. rewrite check_size_ok.
  split; [done|]. pose proof Hu as (hs & Hhs & _). set (t := bh_nTime (b_header b)).
  assert (counted (b_vtx b) (∅, 0) (list_to_set hs ∪ ∅, fold_left (fun n tx => u32 (n + GetLegacySigOpCount tx)) (b_vtx b) 0)) as Hcnt
    by by exists hs.
  pose proof (proj2 (check_rest b mk _ Hcnt) (conj Hu (conj Hops Hm))) as Hr.
  assert (Forall (plain_tx t) (drop (if IsProofOfStake b then 2 else 1) (b_vtx b))) as Hplain.
  { apply plain_lookup. intros i tx Hi Htx. split_and!; [| |by apply (Hti i)|apply Htxs; by eapply list_elem_of_lookup_2].
    - rewrite (Hbase i tx Htx). apply bool_decide_false. destruct (IsProofOfStake b); lia.
    - destruct (IsCoinStake tx) eqn:Est; [|done]. pose proof (Hstake i tx Htx Est) as ->.
      destruct (IsProofOfStake b) eqn:Ep; [lia|]. unfold IsProofOfStake in Ep. destruct (b_vtx b) as [|? [|]]; [done|done|].
      injection Htx as ->. congruence. }
  exists cb. pose proof (Hbase _ _ Hcb) as Hcb1. pose proof (Htxs cb (list_elem_of_lookup_2 _ _ _ Hcb)) as Hck.
  destruct (b_vtx b) as [|c rest] eqn:Ev; [done|]. injection Hcb as ->.
  apply (counted_app [cb] rest) in Hcnt as (st1 & H1 & Hcnt). exists st1. destruct (IsProofOfStake b) eqn:Ep.
  - destruct Hkind as (cs & Hcs & Hsc). destruct rest as [|c rest]; [done|]. injection Hcs as ->.
    apply (counted_app [cs] rest) in Hcnt as (st2 & H2 & Hcnt). exists st2. eexists. split_and!; try done.
    apply check_stake_ok. exists cs. rewrite Ev. split_and!; [done..|apply Htxs; right; left|done].
  - exists st1. eexists. by split_and!.
Qed.

End check.
End BlockProps.
