(* ===== verification/BlockConnect.v ===== *)
(** * BlockConnect: applying the transactions of a block to the index *)
From S2P Require Import Prelude ScriptNum Script Serialize Crypto Transaction Merkle Uint256 BlockData LevelDB.
From S2P Require Import Keys SigCheck Interpreter Solver Inputs InputsProps Difficulty Block BlockProps.
Import Tx BlockData Script_param Inputs InputsProps Difficulty Block BlockProps.

Module BlockConnect.

(** The inputs of a transaction that spend outputs *)
Definition spent_ins (tx : CTransaction) : list CTxIn := if IsCoinBase tx then [] else vin tx.
Definition spends (tx : CTransaction) : list COutPoint := prevout <$> spent_ins tx.

(** An index, as a function *)
Abbreviation index := (uint256 -> option (option CTxIndex)).

(** The index after a transaction at the position [p]: a new entry for its own hash, and its position in the slots
    it spends *)
Definition index_after (hash : uint256) (tx : CTransaction) (p : CDiskTxPos) (E : index) : index := fun h =>
  if decide (h = hash) then Some (Some (CTxIndex_new p (length (vout tx))))
  else fmap (M := option) (marks h p (spent_ins tx)) <$> E h.
Definition tx_effect (hash : uint256) (tx : CTransaction) (p : CDiskTxPos) (E E' : index) : Prop :=
  forall h, E' h = if decide (h = hash) then Some (Some (CTxIndex_new p (length (vout tx))))
                   else fmap (M := option) (marks h p (spent_ins tx)) <$> E h.

(** The outpoint names a slot of an entry, and the slot is free. *)
Definition unspent (E : index) (o : COutPoint) : Prop :=
  exists t s, E (op_hash o) = Some (Some t) /\ vSpent t !! Z.to_nat (op_n o) = Some s /\ CDiskTxPos_IsNull s = true.

(** ... or it is taken. *)
Definition used (E : index) (o : COutPoint) : Prop :=
  exists t s, E (op_hash o) = Some (Some t) /\ vSpent t !! Z.to_nat (op_n o) = Some s /\ CDiskTxPos_IsNull s = false.

Lemma used_not_unspent E o : used E o -> ~ unspent E o.
Proof. intros (t & s & H1 & H2 & H3) (t' & s' & H1' & H2' & H3'). congruence. Qed.

(** ** Effects on a slot *)

Section effect.
Variables (hash : uint256) (tx : CTransaction) (p : CDiskTxPos) (E E' : index).
Hypothesis Heff : tx_effect hash tx p E E'.
Hypothesis Hp : CDiskTxPos_IsNull p = false.

Lemma effect_lookup o t :
  op_hash o <> hash -> E (op_hash o) = Some (Some t) ->
  E' (op_hash o) = Some (Some (marks (op_hash o) p (spent_ins tx) t)).
Proof. intros Hne HE. by rewrite Heff, decide_False, HE. Qed.

Lemma effect_used o : op_hash o <> hash -> used E o -> used E' o.
Proof.
  intros Hne (t & s & HE & Hs & Hn). eexists _, (if decide (Exists (fun i => op_hash (prevout i) = op_hash o /\ Z.to_nat (op_n (prevout i)) = Z.to_nat (op_n o)) (spent_ins tx)) then p else s).
  split; [by apply effect_lookup|]. rewrite marks_lookup, Hs. by destruct (decide _).
Qed.

Lemma effect_spends o : op_hash o <> hash -> o ∈ spends tx -> unspent E o -> used E' o.
Proof.
  intros Hne (i & -> & Hi)%list_elem_of_fmap (t & s & HE & Hs & Hn). eexists _, p. split; [by apply effect_lookup|].
  rewrite marks_lookup, Hs, decide_True; [done|]. apply Exists_exists. by exists i.
Qed.

Lemma effect_unspent o : op_hash o <> hash -> unspent E' o -> unspent E o.
Proof.
  intros Hne (t & s & HE & Hs & Hn). rewrite Heff, decide_False in HE by done.
  destruct (E (op_hash o)) as [[t0|]|] eqn:E0; [|done..]. injection HE as <-. rewrite marks_lookup in Hs.
  destruct (vSpent t0 !! Z.to_nat (op_n o)) as [s0|] eqn:Es; [|by destruct (decide _)].
  exists t0, s0. split_and!; [done..|]. destruct (decide _); cbn in Hs; congruence.
Qed.
End effect.

(** ** Effects of a list of transactions

    [connected_all db txs hashes E E']: connecting [txs], whose hashes are [hashes] and are new to the
    database, turns the index [E] into [E']. *)

(** BIP30 for the transaction *)
Definition new_hash (E0 : index) (hash : uint256) (tx : CTransaction) : Prop :=
  GetHash tx = Some hash /\ exists old, E0 hash = Some old /\ overwrites old = false.

Inductive connected_all (E0 : index) : list CTransaction -> list uint256 -> list CDiskTxPos -> index -> index -> Prop :=
  | connected_nil E : connected_all E0 [] [] [] E E
  | connected_cons tx hash p txs hashes ps E E1 E2 :
      new_hash E0 hash tx -> tx_effect hash tx p E E1 -> CDiskTxPos_IsNull p = false ->
      NoDup (spends tx) -> Forall (unspent E) (spends tx) ->
      connected_all E0 txs hashes ps E1 E2 -> connected_all E0 (tx :: txs) (hash :: hashes) (p :: ps) E E2.

Lemma new_hash_used E0 hash tx o : new_hash E0 hash tx -> op_hash o = hash -> ~ unspent E0 o.
Proof.
  intros (_ & old & Hr & Ho) Hh (t & s & Ht & Hs & Hn). rewrite Hh, Hr in Ht. injection Ht as ->. cbn [overwrites] in Ho.
  apply existsb_false in Ho. eapply Forall_lookup_1 in Ho; [|exact Hs]. congruence.
Qed.

Lemma connected_new E0 txs hashes ps E E' o :
  connected_all E0 txs hashes ps E E' -> op_hash o ∈ hashes -> ~ unspent E0 o.
Proof.
  induction 1 as [|tx hash p txs hashes ps E E1 E2 Hnew _ _ _ _ _ IH]; [by intros ?%elem_of_nil|].
  intros [Hh|Hh]%elem_of_cons; [by eapply new_hash_used|by apply IH].
Qed.

(** Every outpoint is spent once: [done_] are the hashes of the transactions before. *)
Lemma connected_spends E0 txs hashes ps E E' done_ :
  connected_all E0 txs hashes ps E E' -> NoDup hashes -> (forall h, h ∈ done_ -> h ∉ hashes) ->
  (forall o, op_hash o ∉ done_ -> unspent E o -> unspent E0 o) ->
  NoDup (concat (spends <$> txs)) /\ Forall (used E') (concat (spends <$> txs))
  /\ (forall o, used E o -> op_hash o ∉ hashes -> (o ∉ concat (spends <$> txs)) /\ used E' o)
  /\ Forall (fun o => unspent E0 o \/ op_hash o ∈ done_ ++ hashes) (concat (spends <$> txs)).
Proof.
  intros Hc. revert done_. induction Hc as [E|tx hash p txs hashes ps E E1 E2 Hnew Heff Hp Hnd Hun Hc IH]; intros done_ Hhs Hdone Hinv.
  { cbn. split_and!; [constructor|constructor| |constructor]. intros o Ho _. split; [by intros ?%elem_of_nil|done]. }
  apply NoDup_cons in Hhs as [Hfresh Hhs].
  destruct (IH (hash :: done_)) as (N1 & N2 & N3 & N4); [done| | |].
  { intros h [->|Hh]%elem_of_cons; [done|]. intros Hh'. apply (Hdone h Hh). by right. }
  { intros o [Hne Ho]%not_elem_of_cons Hu. apply Hinv; [done|]. by eapply effect_unspent. }
  assert (forall o, o ∈ spends tx -> op_hash o <> hash /\ op_hash o ∉ hashes) as Hout.
  { intros o Ho. apply not_elem_of_cons. intros Hh. pose proof (proj1 (Forall_forall _ _) Hun o Ho) as Huo.
    apply (connected_new E0 (tx :: txs) (hash :: hashes) (p :: ps) E E2 o); [by econstructor|done|].
    apply Hinv; [|done]. intros Hd. by apply (Hdone _ Hd). }
  assert (forall o, o ∈ spends tx -> (o ∉ concat (spends <$> txs)) /\ used E2 o) as Hspent.
  { intros o Ho. destruct (Hout o Ho) as [Hne Hh]. apply N3; [|done]. eapply effect_spends; [done..|].
    by apply (proj1 (Forall_forall _ _) Hun o). }
  cbn [fmap list_fmap concat]. split_and!.
  - apply NoDup_app. split_and!; [done| |done]. intros o Ho. by apply Hspent.
  - apply Forall_app. split; [|done]. apply Forall_forall. intros o Ho. by apply Hspent.
  - intros o Hu Hh. apply not_elem_of_cons in Hh as [Hne Hh].
    destruct (N3 o) as [H1 H2]; [by eapply effect_used|done|]. split; [|done].
    intros [Ho|Ho]%elem_of_app; [|done]. apply (used_not_unspent E o Hu). by apply (proj1 (Forall_forall _ _) Hun o).
  - apply Forall_app. split.
    + apply Forall_forall. intros o Ho. pose proof (proj1 (Forall_forall _ _) Hun o Ho) as Huo. rewrite elem_of_app.
      destruct (decide (op_hash o ∈ done_)); [by right; left|left; by apply Hinv].
    + eapply Forall_impl; [exact N4|]. cbn. intros o. repeat setoid_rewrite elem_of_app || setoid_rewrite elem_of_cons. tauto.
Qed.

Section connect.
Context `{MPI} `{BlockHash}.
Context {D : Type} `{!TxDB D, !BlockDB D}.
Context {C : Type} `{!SigChecker C}.
Variables RIPEMD160 SHA1 SHA256 : bytes -> bytes.
Variable nd : node.
Variable ev : env.

(** What [FetchInputs] sees of an index with queued changes *)
Definition sees (db : D) (pool : gmap uint256 CTxIndex) (h : uint256) : option (option CTxIndex) :=
  match pool !! h with Some t => Some (Some t) | None => ReadTxIndex db h end.

(** The transaction that an entry points to *)
Definition previous_tx (mempool : gmap uint256 CTransaction) (hash : uint256) (t : CTxIndex) : option CTransaction :=
  if bool_decide (pos t = pos_memory) then mempool !! hash else ReadTx nd (pos t).

(** The fetched inputs are those of the index. *)
Definition inputs_at (mempool : gmap uint256 CTransaction) (E : index) (m : MapPrevTx) : Prop :=
  forall h t txPrev, m !! h = Some (t, txPrev) -> E h = Some (Some t) /\ previous_tx mempool h t = Some txPrev.

Lemma fetch_one_at db mempool pool hash p :
  fetch_one nd db mempool pool true false hash = Ok p -> sees db pool hash = Some (Some p.1) /\ previous_tx mempool hash p.1 = Some p.2.
Proof.
  unfold fetch_one, sees, previous_tx. cbn [orb]. intros Hf. res_inv Hf. destruct x as [t|]; [|done].
  assert (p.1 = t /\ (if bool_decide (pos t = pos_memory) then mempool !! hash else ReadTx nd (pos t)) = Some p.2) as [-> Hp].
  { case_bool_decide; [destruct (mempool !! hash)|destruct (ReadTx nd (pos t))]; try done; by injection Hf as <-. }
  split; [|done]. destruct (pool !! hash) as [t'|]; [by injection E as ->|by apply or_abort_ok in E].
Qed.

Lemma fetch_all_at db mempool pool ins m m' :
  fetch_all nd db mempool pool true false ins m = Ok m' -> inputs_at mempool (sees db pool) m -> inputs_at mempool (sees db pool) m'.
Proof.
  revert m. induction ins as [|i ins IH]; intros m Hf Hm; cbn [fetch_all] in Hf; [by injection Hf as <-|].
  case_bool_decide; [by eapply IH|]. res_inv Hf. apply (IH _ Hf). intros h t txPrev.
  destruct (decide (h = op_hash (prevout i))) as [->|Hne]; [|rewrite lookup_insert_ne by done; apply Hm].
  rewrite lookup_insert_eq. intros [= ->]. by apply fetch_one_at in E.
Qed.

Lemma FetchInputs_at db mempool pool tx m :
  IsCoinBase tx = false -> (FetchInputs nd db mempool pool tx true false ∅).1 = Ok m -> inputs_at mempool (sees db pool) m.
Proof.
  intros Hcb. unfold FetchInputs. rewrite Hcb.
  destruct (fetch_all nd db mempool pool true false (vin tx) ∅) as [m1| | |] eqn:Ef; try done. intros Hm.
  assert (m1 = m) as -> by (destruct (fetch_valid m1 (vin tx)); cbn in Hm; congruence).
  apply (fetch_all_at _ _ _ _ _ _ Ef). intros h t txPrev. by rewrite lookup_empty.
Qed.

Lemma FetchInputs_sees db mempool pool tx m :
  IsCoinBase tx = false -> (FetchInputs nd db mempool pool tx true false ∅).1 = Ok m ->
  forall h p, m !! h = Some p -> sees db pool h = Some (Some p.1).
Proof. intros Hcb Hf h [t txPrev] Hm. by apply (FetchInputs_at _ _ _ _ _ Hcb Hf) in Hm as [? _]. Qed.

(** ** One transaction *)

Variables (mempool : gmap uint256 CTransaction) (pindex : CBlockIndex) (ancestors : list CBlockIndex) (fJustCheck fScriptChecks : bool).

Local Abbreviation connect_tx' txdb :=
  (connect_tx RIPEMD160 SHA1 SHA256 nd ev txdb mempool pindex ancestors fJustCheck fScriptChecks).
Local Abbreviation ConnectInputs' txdb inputs pool tx p c :=
  (ConnectInputs RIPEMD160 SHA1 SHA256 nd txdb inputs pool tx p (pindex :: ancestors) true false fScriptChecks
     (block_flags tx) (negb (e_nScriptCheckThreads ev =? 0)) [] c).

(** The position of the next transaction *)
Definition this_pos (s : connecting (C := C)) : CDiskTxPos := DiskTxPos (bi_nFile pindex) (bi_nBlockPos pindex) (cb_nTxPos s).

Definition next_pos (tx : CTransaction) (n : Z) : option Z :=
  if fJustCheck then Some n else size ← GetSerializeSize tx; Some (u32 (n + size)).
Lemma next_pos_bound tx n n' : 0 <= n < 2 ^ 32 -> next_pos tx n = Some n' -> 0 <= n' < 2 ^ 32.
Proof.
  unfold next_pos. intros Hn. destruct fJustCheck; [by intros [= <-]|]. destruct (GetSerializeSize tx); [|done].
  cbn. intros [= <-]. unfold u32. by apply Z.mod_pos_bound.
Qed.

(** What a turn of the loop for a coinbase does when it succeeds *)
Definition coinbase_connected (hash : uint256) (tx : CTransaction) (s s' : connecting (C := C)) : Prop :=
  IsCoinBase tx = true /\ exists nOut, GetValueOut tx = Some nOut
    /\ cb_nFees s' = s64 (cb_nFees s + 0) /\ cb_nValueIn s' = s64 (cb_nValueIn s + 0) /\ cb_nValueOut s' = s64 (cb_nValueOut s + nOut)
    /\ cb_pool s' = <[hash := CTxIndex_new (this_pos s) (length (vout tx))]> (cb_pool s)
    /\ cb_checks s' = cb_checks s /\ cb_checker s' = cb_checker s.

(** ... and for another transaction *)
Definition spending_connected (txdb : D) (hash : uint256) (tx : CTransaction) (s s' : connecting (C := C)) : Prop :=
  IsCoinBase tx = false /\ exists inputs nIn nOut st,
    (FetchInputs nd txdb mempool (cb_pool s) tx true false ∅).1 = Ok inputs
    /\ GetValueIn tx inputs = Ok nIn /\ GetValueOut tx = Some nOut
    /\ ConnectInputs' txdb inputs (cb_pool s) tx (this_pos s) (cb_checker s) = (Ok tt, st)
    /\ cb_nFees s' = s64 (cb_nFees s + if IsCoinStake tx then 0 else s64 (nIn - nOut))
    /\ cb_nValueIn s' = s64 (cb_nValueIn s + nIn) /\ cb_nValueOut s' = s64 (cb_nValueOut s + nOut)
    /\ cb_pool s' = <[hash := CTxIndex_new (this_pos s) (length (vout tx))]> (cs_pool st)
    /\ cb_checks s' = cb_checks s ++ cs_checks st /\ cb_checker s' = cs_checker st.

Lemma count_sigops_ok n (s s' : connecting (C := C)) u : count_sigops n s = (Ok u, s') -> s' = add_sigops n s.
Proof. unfold count_sigops. intros Hc. m_inv Hc. done. Qed.

Lemma connect_spending_ok txdb chain p tx s s' u :
  connect_spending RIPEMD160 SHA1 SHA256 nd ev txdb mempool chain fScriptChecks p tx s = (Ok u, s') ->
  exists inputs nIn nOut st,
    (FetchInputs nd txdb mempool (cb_pool s) tx true false ∅).1 = Ok inputs
    /\ GetValueIn tx inputs = Ok nIn /\ GetValueOut tx = Some nOut
    /\ ConnectInputs RIPEMD160 SHA1 SHA256 nd txdb inputs (cb_pool s) tx p chain true false fScriptChecks
         (block_flags tx) (negb (e_nScriptCheckThreads ev =? 0)) [] (cb_checker s) = (Ok tt, st)
    /\ exists ops, s' = Connecting (cb_nTxPos s) (s64 (cb_nFees s + if IsCoinStake tx then 0 else s64 (nIn - nOut)))
         (s64 (cb_nValueIn s + nIn)) (s64 (cb_nValueOut s + nOut)) ops (cs_pool st) (cb_checks s ++ cs_checks st) (cs_checker st).
Proof.
  unfold connect_spending. intros Hc. m_inv Hc. apply count_sigops_ok in E1 as ->.
  unfold connect_inputs in Hc. cbn [add_values add_sigops cb_nTxPos cb_nFees cb_nValueIn cb_nValueOut cb_nSigOps cb_pool cb_checks cb_checker] in Hc.
  destruct (ConnectInputs _ _ _ _ _ _ _ _ _ _ _ _ _ _ _ _ _) as [r st] eqn:Ec. injection Hc as -> <-. destruct u.
  apply or_throw_ok in E3. exists a, a2, a3, st. split_and!; [done..|]. by eexists.
Qed.

Lemma connect_tx_ok txdb tx s s' :
  connect_tx' txdb tx s = (Ok tt, s') ->
  exists hash, new_hash (ReadTxIndex txdb) hash tx /\ (coinbase_connected hash tx s s' \/ spending_connected txdb hash tx s s')
    /\ next_pos tx (cb_nTxPos s) = Some (cb_nTxPos s').
Proof.
  unfold connect_tx. intros Hc. m_inv Hc. apply or_abort_ok in E, E0. apply reject_if_ok in E1.
  apply count_sigops_ok in E2 as ->. exists a. split; [split; [done|by exists a0]|].
  assert (exists n, next_pos tx (cb_nTxPos s) = Some n /\ s0 = Connecting n (cb_nFees s) (cb_nValueIn s) (cb_nValueOut s) (u32 (cb_nSigOps s + GetLegacySigOpCount tx))
    (cb_pool s) (cb_checks s) (cb_checker s)) as (n & Hn & ->).
  { unfold next_pos. destruct fJustCheck; m_inv E3; [by eexists|]. apply or_abort_ok in E2 as ->. by eexists. }
  destruct (IsCoinBase tx) eqn:Ecb.
  - m_inv E4. apply or_throw_ok in E2. split; [left|exact Hn]. split; [done|]. by exists a5.
  - apply connect_spending_ok in E4 as (inputs & nIn & nOut & st & Hf & Hin & Hout & Hc & ops & ->).
    split; [right|exact Hn]. split; [done|]. by exists inputs, nIn, nOut, st.
Qed.

Lemma spending_effect txdb hash tx s s' :
  spending_connected txdb hash tx s s' -> ins_ok (vin tx) -> CDiskTxPos_IsNull (this_pos s) = false ->
  tx_effect hash tx (this_pos s) (sees txdb (cb_pool s)) (sees txdb (cb_pool s'))
  /\ NoDup (spends tx) /\ Forall (unspent (sees txdb (cb_pool s))) (spends tx).
Proof.
  intros (Hcb & inputs & nIn & nOut & st & Hf & _ & _ & Hc & _ & _ & _ & Hpool & _) Hins Hpos.
  pose proof (FetchInputs_sees _ _ _ _ _ Hcb Hf) as Hsees. unfold spends, spent_ins. rewrite Hcb.
  apply ConnectInputs_ok in Hc as (v & _ & Hs & _); [|done].
  pose proof Hs as Hs'. apply spend_inputs_ok in Hs' as (Hnd & Hnull & _); [|done..]. cbn [cs_inputs] in Hnull.
  apply spend_inputs_marks in Hs as [Hin Hp]. cbn [cs_inputs cs_pool] in Hin, Hp. split_and!; [|done|].
  - intros h. unfold spent_ins. rewrite Hcb. unfold sees at 1. rewrite Hpool. destruct (decide (h = hash)) as [->|Hne]; [by rewrite lookup_insert_eq|].
    rewrite lookup_insert_ne, Hp by done. destruct (decide _) as [He|He].
    + apply Exists_exists in He as (i & Hi & <-). destruct (Hnull i Hi) as (sl & Hsl & _). unfold slot in Hsl.
      rewrite Hin. destruct (inputs !! op_hash (prevout i)) as [q|] eqn:Eq; [|done]. cbn. by rewrite (Hsees _ _ Eq).
    + change (match cb_pool s !! h with Some t => Some (Some t) | None => ReadTxIndex txdb h end) with (sees txdb (cb_pool s) h).
      destruct (sees txdb (cb_pool s) h) as [[t|]|]; cbn; [|done..]. by rewrite marks_skip.
  - apply Forall_fmap, Forall_forall. intros i Hi. cbn. destruct (Hnull i Hi) as (sl & Hsl & Hn). unfold slot in Hsl.
    destruct (inputs !! op_hash (prevout i)) as [q|] eqn:Eq; [|done]. exists q.1, sl. by rewrite (Hsees _ _ Eq).
Qed.

Lemma coinbase_effect txdb hash tx s s' :
  coinbase_connected hash tx s s' -> tx_effect hash tx (this_pos s) (sees txdb (cb_pool s)) (sees txdb (cb_pool s')).
Proof.
  intros (Hcb & nOut & _ & _ & _ & _ & Hpool & _) h. unfold spent_ins. rewrite Hcb. unfold sees. rewrite Hpool.
  destruct (decide (h = hash)) as [->|Hne]; [by rewrite lookup_insert_eq|]. rewrite lookup_insert_ne by done.
  destruct (cb_pool s !! h); [done|]. by destruct (ReadTxIndex txdb h) as [[t|]|].
Qed.

Lemma connect_tx_effect txdb tx s s' :
  connect_tx' txdb tx s = (Ok tt, s') -> ins_ok (vin tx) -> bi_nFile pindex <> UINT32_MAX ->
  exists hash, new_hash (ReadTxIndex txdb) hash tx
    /\ tx_effect hash tx (this_pos s) (sees txdb (cb_pool s)) (sees txdb (cb_pool s'))
    /\ NoDup (spends tx) /\ Forall (unspent (sees txdb (cb_pool s))) (spends tx).
Proof.
  intros (hash & Hnew & [Hc|Hc] & _)%connect_tx_ok Hins Hfile; exists hash; (split; [done|]).
  - split; [by eapply coinbase_effect|]. unfold spends, spent_ins. destruct Hc as [-> _]. by split; constructor.
  - apply (spending_effect _ _ _ _ _ Hc Hins). unfold CDiskTxPos_IsNull, this_pos. cbn. lia.
Qed.

(** ** The loop over the transactions *)

Local Abbreviation connect_all' txdb := (mapM_ (connect_tx' txdb)).

Lemma connect_all_effect txdb txs s s' :
  connect_all' txdb txs s = (Ok tt, s') -> Forall (fun tx => ins_ok (vin tx)) txs -> bi_nFile pindex <> UINT32_MAX ->
  0 <= cb_nTxPos s < 2 ^ 32 ->
  exists hashes ps, mapM GetHash txs = Some hashes
    /\ Forall (fun p => exists n, p = DiskTxPos (bi_nFile pindex) (bi_nBlockPos pindex) n /\ 0 <= n < 2 ^ 32) ps
    /\ connected_all (ReadTxIndex txdb) txs hashes ps (sees txdb (cb_pool s)) (sees txdb (cb_pool s')).
Proof.
  intros Hc Hins Hfile. revert s Hc. induction Hins as [|tx txs Hi Hins IH]; intros s Hc Hpos.
  { apply mapM_nil in Hc as ->. exists [], []. split; [done|]. split; constructor. }
  apply mapM_cons in Hc as (s1 & H1 & Hc). apply IH in Hc as (hashes & ps & Hm & Hps & Hc).
  2: { apply connect_tx_ok in H1 as (_ & _ & _ & Hn). by eapply next_pos_bound. }
  apply connect_tx_effect in H1 as (hash & Hnew & Heff & Hnd & Hun); [|done..].
  exists (hash :: hashes), (this_pos s :: ps). cbn [mapM]. rewrite (proj1 Hnew), Hm. split; [done|].
  split; [constructor; [by exists (cb_nTxPos s)|done]|].
  econstructor; [done..| |done|done|done]. unfold CDiskTxPos_IsNull, this_pos. cbn. lia.
Qed.

(** The keys of the queued changes are the hashes and the spent hashes. *)
Lemma connect_tx_keys txdb tx s s' h :
  connect_tx' txdb tx s = (Ok tt, s') -> ins_ok (vin tx) -> bi_nFile pindex <> UINT32_MAX -> is_Some (cb_pool s' !! h) ->
  is_Some (cb_pool s !! h) \/ GetHash tx = Some h \/ h ∈ op_hash <$> spends tx.
Proof.
  intros (hash & [Hh _] & [Hc|Hc] & _)%connect_tx_ok Hins Hfile.
  - destruct Hc as (_ & nOut & _ & _ & _ & _ & -> & _). destruct (decide (h = hash)) as [->|Hne]; [by right; left|].
    rewrite lookup_insert_ne by done. by left.
  - destruct Hc as (Hcb & inputs & nIn & nOut & st & _ & _ & _ & Hc & _ & _ & _ & -> & _).
    destruct (decide (h = hash)) as [->|Hne]; [by right; left|]. rewrite lookup_insert_ne by done.
    apply ConnectInputs_ok in Hc as (v & _ & Hs & _); [|done]. apply spend_inputs_marks in Hs as [_ Hp]. rewrite Hp.
    destruct (decide _) as [He|He]; [|by left]. intros _. right. right. apply Exists_exists in He as (i & Hi & <-).
    unfold spends, spent_ins. rewrite Hcb. apply list_elem_of_fmap_2. by apply list_elem_of_fmap_2.
Qed.

Lemma connect_all_keys txdb txs s s' h :
  connect_all' txdb txs s = (Ok tt, s') -> Forall (fun tx => ins_ok (vin tx)) txs -> bi_nFile pindex <> UINT32_MAX ->
  is_Some (cb_pool s' !! h) ->
  is_Some (cb_pool s !! h) \/ Exists (fun tx => GetHash tx = Some h \/ h ∈ op_hash <$> spends tx) txs.
Proof.
  intros Hc Hins Hfile Hh. revert s Hc. induction Hins as [|tx txs Hi Hins IH]; intros s Hc.
  { apply mapM_nil in Hc as ->. by left. }
  apply mapM_cons in Hc as (s1 & H1 & Hc). destruct (IH s1 Hc) as [Hs|Hs]; [|by right; right].
  eapply connect_tx_keys in Hs as [Hs|Hs]; [by left|by right; left|done..].
Qed.
End connect.

(** ** Taking transactions back *)

Section disconnect.
Context {D : Type} `{!TxDB D} {db_ok : D -> Prop} {key_ok : uint256 -> Prop} {entry_ok : CTxIndex -> Prop}
  `{!TxDBLaws D db_ok key_ok entry_ok}.
Variable pos_ok : CDiskTxPos -> Prop.
(** The entries that marking slots with these positions produces can be stored. *)
Hypothesis mark_ok : forall t n p, entry_ok t -> pos_ok p \/ p = CDiskTxPos_SetNull -> entry_ok (mark_spent t n p).

Definition reads (d : D) (E : index) : Prop := forall h, key_ok h -> ReadTxIndex d h = E h.

(** The entries of an index can be stored, and their free slots are null positions. *)
Definition index_ok (E : index) : Prop := forall h t, E h = Some (Some t) -> entry_ok t /\ canonical t.

(** What a transaction needs to be taken back *)
Record tx_storable (tx : CTransaction) : Prop := TxStorable {
  ts_keys : Forall (fun o => key_ok (op_hash o)) (spends tx);
  ts_hash : forall h, GetHash tx = Some h -> key_ok h;
  ts_ins : ins_ok (vin tx);
  ts_new : forall p, pos_ok p -> entry_ok (CTxIndex_new p (length (vout tx))) }.

Lemma marks_storable h p ins t : pos_ok p -> entry_ok t -> entry_ok (marks h p ins t).
Proof. intros Hp Ht. apply (marks_ok p); [|done|by left]. intros t' n q Ht' [->| ->]; apply mark_ok; auto. Qed.

Lemma effect_index_ok hash tx p E E' :
  tx_effect hash tx p E E' -> CDiskTxPos_IsNull p = false -> pos_ok p -> tx_storable tx -> index_ok E -> index_ok E'.
Proof.
  intros Heff Hp Hpos Hst HE h t Ht. rewrite Heff in Ht. destruct (decide (h = hash)).
  - injection Ht as <-. split; [by apply Hst|]. unfold canonical. cbn. by apply Forall_replicate.
  - destruct (E h) as [[t0|]|] eqn:Et; [|done..]. injection Ht as <-. destruct (HE h t0 Et) as [Hok Hcan].
    split; [by apply marks_storable|]. unfold canonical. apply Forall_lookup. intros k q. rewrite marks_lookup.
    destruct (vSpent t0 !! k) as [q0|] eqn:Eq; [|by destruct (decide _)].
    destruct (decide _); cbn; intros [= <-] Hn; [congruence|]. by eapply Forall_lookup_1 in Hcan; [apply Hcan|].
Qed.

Lemma connected_index_ok E0 txs hashes ps E E' :
  connected_all E0 txs hashes ps E E' -> Forall pos_ok ps -> Forall tx_storable txs -> index_ok E -> index_ok E'.
Proof.
  induction 1 as [|tx hash p txs hashes ps E E1 E2 _ Heff Hp _ _ _ IH]; [done|].
  intros [Hpos Hps]%Forall_cons [Hst Hsts]%Forall_cons HE. apply IH; [done..|]. by eapply effect_index_ok.
Qed.

Lemma disconnect_effect hash tx p E E' d :
  tx_effect hash tx p E E' -> GetHash tx = Some hash -> E hash = Some None -> pos_ok p -> tx_storable tx ->
  Forall (unspent E) (spends tx) -> index_ok E -> db_ok d -> reads d E' ->
  exists d', DisconnectInputs d tx = (Ok tt, d') /\ db_ok d' /\ reads d' E.
Proof.
  intros Heff Hhash Hnone Hpos [Hkeys Hkh Hins _] Hun HE Hd Hr. specialize (Hkh _ Hhash).
  assert (forall i, i ∈ spent_ins tx -> exists t, E (op_hash (prevout i)) = Some (Some t) /\ op_hash (prevout i) <> hash
    /\ key_ok (op_hash (prevout i)) /\ vSpent t !! Z.to_nat (op_n (prevout i)) = Some CDiskTxPos_SetNull) as Hslot.
  { intros i Hi. assert (prevout i ∈ spends tx) as Ho by by apply list_elem_of_fmap_2.
    destruct (proj1 (Forall_forall _ _) Hun _ Ho) as (t & s & Ht & Hs & Hn). exists t.
    split_and!; [done|congruence|by apply (proj1 (Forall_forall _ _) Hkeys _ Ho)|]. rewrite Hs. f_equal.
    destruct (HE _ _ Ht) as [_ Hcan]. by eapply Forall_lookup_1 in Hcan; [apply Hcan|]. }
  assert (ins_ok (spent_ins tx)) as Hins' by (unfold spent_ins; destruct (IsCoinBase tx); [constructor|done]).
  assert (forall t n q, entry_ok t -> q = p \/ q = CDiskTxPos_SetNull -> entry_ok (mark_spent t n q)) as Hmark.
  { intros t n q Ht [->| ->]; apply mark_ok; auto. }
  destruct (unspend_ok p Hmark (spent_ins tx) d) as (d1 & Hu & Hd1 & Hr1); [done| |done| |].
  { apply Forall_forall. intros i Hi. by destruct (Hslot i Hi) as (t & _ & _ & ? & _). }
  { intros i Hi. destruct (Hslot i Hi) as (t & Ht & Hne & Hk & Hs). eexists. rewrite (Hr _ Hk), Heff, decide_False, Ht by done.
    split; [done|]. split; [apply marks_storable; [done|by apply (HE _ _ Ht)]|]. unfold zlen. rewrite marks_length.
    apply lookup_lt_Some in Hs. pose proof (proj1 (Forall_forall _ _) Hins' i Hi). cbn in *. lia. }
  destruct (erase_ok d1 hash) as (d2 & He & Hd2 & Hr2); [done..|]. exists d2. split_and!; [|done|].
  - unfold DisconnectInputs.
    assert ((if negb (IsCoinBase tx) then unspend (vin tx) d else (Ok tt, d)) = (Ok tt, d1)) as ->
      by (rewrite <-Hu; unfold spent_ins; by destruct (IsCoinBase tx)).
    by rewrite Hhash, He.
  - intros h Hh. rewrite Hr2 by done. destruct (decide (h = hash)) as [->|Hne]; [done|].
    rewrite Hr1, Hr, Heff, decide_False by done. destruct (E h) as [[t|]|] eqn:Et; cbn; [|done..]. do 2 f_equal.
    apply marks_inverse. intros i Hi Hh'. destruct (Hslot i Hi) as (t' & Ht' & _ & _ & Hs). congruence.
Qed.

Lemma disconnect_all {C} E0 txs hashes ps E E' d i (c : C) w :
  connected_all E0 txs hashes ps E E' -> NoDup hashes -> (forall h, h ∈ hashes -> E h = Some None) ->
  Forall pos_ok ps -> Forall tx_storable txs -> index_ok E -> db_ok d -> reads d E' ->
  exists d', mapM_ (fun tx => on_db (fun db => DisconnectInputs db tx)) (reverse txs) (BState d i c w) = (Ok tt, BState d' i c w)
    /\ db_ok d' /\ reads d' E.
Proof.
  intros Hc. revert d. induction Hc as [E|tx hash p txs hashes ps E E1 E2 Hnew Heff Hp Hnd Hun Hc IH]; intros d Hhs Hnone Hps Hst HE Hd Hr.
  { exists d. by split_and!. }
  apply NoDup_cons in Hhs as [Hfresh Hhs]. apply Forall_cons in Hps as [Hpos Hps]. apply Forall_cons in Hst as [Hst1 Hst].
  destruct (IH d) as (d1 & Hm & Hd1 & Hr1); [done| |done..|by eapply effect_index_ok|done|done|].
  { intros h Hh. rewrite Heff, decide_False by by intros ->. by rewrite (Hnone h) by by right. }
  destruct (disconnect_effect hash tx p E E1 d1) as (d2 & Hdis & Hd2 & Hr2); [done|by apply Hnew|by apply Hnone; left|done..|].
  exists d2. split; [|done]. rewrite reverse_cons. apply mapM_app_ok. eexists. split; [exact Hm|].
  cbn [mapM_]. unfold M_bind, on_db. cbn [bs_db bs_index bs_checker bs_synced]. by rewrite Hdis.
Qed.
End disconnect.

End BlockConnect.
