(* ===== verification/BlockSpec.v ===== *)
(** * BlockSpec: what [ConnectBlock] guarantees of a block, and [DisconnectBlock] after it *)
From S2P Require Import Prelude ScriptNum Script Serialize Crypto Transaction Merkle Uint256 BlockData LevelDB.
From S2P Require Import Keys SigCheck Interpreter Solver Inputs InputsProps Difficulty Block BlockProps BlockConnect.
Import Tx BlockData Script_param Inputs InputsProps Difficulty Block BlockProps BlockConnect.

Module BlockSpec.

(** The outpoints that the transactions of a block spend, in order *)
Definition block_spends (b : CBlock) : list COutPoint := concat (spends <$> b_vtx b).

Section spec.
Context `{MPI} `{BlockHash}.
Context {D : Type} `{!TxDB D, !BlockDB D} {db_ok : D -> Prop} {key_ok : uint256 -> Prop} {entry_ok : CTxIndex -> Prop}
  `{!TxDBLaws D db_ok key_ok entry_ok, !BlockDBLaws D db_ok}.
Context {C : Type} `{!SigChecker C}.
Variables RIPEMD160 SHA1 SHA256 : bytes -> bytes.
Variable Verify : bytes -> uint256 -> bytes -> bool.
Variable nd : node.
Variable ev : env.
Variables (mempool : gmap uint256 CTransaction) (b : CBlock) (ancestors : list CBlockIndex) (fJustCheck : bool).

Local Abbreviation ConnectBlock' := (ConnectBlock RIPEMD160 SHA1 SHA256 Verify nd ev mempool b ancestors fJustCheck).
Local Abbreviation connect_all' bs fScriptChecks :=
  (mapM_ (connect_tx RIPEMD160 SHA1 SHA256 nd ev (bs_db bs) mempool (bs_index bs) ancestors fJustCheck fScriptChecks)).

(** ** The steps of [ConnectBlock] *)

(** Whether the scripts are checked *)
Definition script_checks (bs : bstate (D := D) (C := C)) : bool := bi_nHeight (bs_index bs) >=? e_GetTotalBlocksEstimate ev.

(** The entry of the block with its amounts *)
Definition with_money (s : connecting (C := C)) (i : CBlockIndex) : CBlockIndex :=
  set_money (s64 (cb_nValueOut s - cb_nValueIn s + cb_nFees s))
    (s64 (match ancestors with prev :: _ => bi_nMoneySupply prev | [] => 0 end + cb_nValueOut s - cb_nValueIn s)) i.

(** The steps up to the first write *)
Record block_connected (bs bs' : bstate (D := D) (C := C)) (s : connecting (C := C)) : Prop := BlockConnected {
  bk_check : CheckBlock Verify ev b (negb fJustCheck) (negb fJustCheck) false = Ok tt;
  bk_loop : exists nTxPos, first_tx_pos b (bs_index bs) fJustCheck = Some nTxPos /\
    connect_all' bs (script_checks bs) (b_vtx b) (Connecting nTxPos 0 0 0 0 ∅ [] (bs_checker bs)) = (Ok tt, s);
  bk_scripts : exists c, control_wait RIPEMD160 SHA1 SHA256 s = Some (true, c);
  bk_reward : check_reward ev b (cb_nFees s) = Ok tt;
  bk_index : bs_index bs' = with_money s (bs_index bs) }.

Lemma write_index_reads d (bs bs' : bstate (D := D) (C := C)) u :
  write_index d bs = (Ok u, bs') -> db_ok (bs_db bs) ->
  bs_index bs' = bs_index bs /\ bs_synced bs' = bs_synced bs /\ db_ok (bs_db bs')
  /\ forall h, ReadTxIndex (bs_db bs') h = ReadTxIndex (bs_db bs) h.
Proof.
  unfold write_index, db_write, on_db. intros Hw Hdb. destruct (write_index_ok (bs_db bs) d Hdb) as (d' & He & Hd' & Hr).
  rewrite He in Hw. injection Hw as _ <-. done.
Qed.

Lemma connect_txs_ok (bs bs' : bstate (D := D) (C := C)) fs nTxPos s :
  connect_txs RIPEMD160 SHA1 SHA256 nd ev mempool b ancestors fJustCheck fs nTxPos bs = (Ok s, bs') ->
  connect_all' bs fs (b_vtx b) (Connecting nTxPos 0 0 0 0 ∅ [] (bs_checker bs)) = (Ok tt, s)
  /\ exists c, control_wait RIPEMD160 SHA1 SHA256 s = Some (true, c) /\ bs' = BState (bs_db bs) (bs_index bs) c (bs_synced bs).
Proof.
  unfold connect_txs. destruct (mapM_ _ _ _) as [r s1]. destruct (control_wait _ _ _ s1) as [[ok c]|] eqn:Ec; [|done].
  destruct r as [[]| | |]; [|done..]. destruct ok; [|done]. intros [= -> <-]. split; [done|]. by exists c.
Qed.

Lemma SyncWithWallets_ok u c (bs bs' : bstate (D := D) (C := C)) x :
  SyncWithWallets u c b bs = (Ok x, bs') -> bs_db bs' = bs_db bs /\ bs_index bs' = bs_index bs.
Proof. unfold SyncWithWallets, modify. by intros [= _ <-]. Qed.

(** A state that differs by writes of block index entries only *)
Definition same_index (bs bs' : bstate (D := D) (C := C)) : Prop :=
  bs_index bs' = bs_index bs
  /\ (db_ok (bs_db bs) -> db_ok (bs_db bs') /\ forall h, ReadTxIndex (bs_db bs') h = ReadTxIndex (bs_db bs) h).

Lemma same_index_write d (bs bs' : bstate (D := D) (C := C)) u : write_index d bs = (Ok u, bs') -> same_index bs bs'.
Proof.
  intros Hw. split.
  - unfold write_index, db_write, on_db in Hw. destruct (WriteBlockIndex (bs_db bs) d) as [[[] ?]|]; by injection Hw as _ <-.
  - intros Hdb. by apply write_index_reads in Hw as (_ & _ & ? & ?).
Qed.
Lemma same_index_refl bs bs' : bs' = bs -> same_index bs bs'.
Proof. by intros ->. Qed.

(** The link from the previous block, and the wallets *)
Lemma link_and_sync (o : option uint256) bs bs' u :
  (do! _ := (match ancestors with
             | prev :: _ => do! hash := lift (or_abort o) in write_index (set_hashNext hash (CDiskBlockIndex_new prev))
             | [] => mret tt
             end) in SyncWithWallets true true b) bs = (Ok u, bs') -> same_index bs bs'.
Proof.
  intros Hc. m_inv Hc. apply SyncWithWallets_ok in Hc as [Hd Hi].
  assert (same_index bs s) as [H1 H2].
  { destruct ancestors as [|prev l]; m_inv E; [by apply same_index_refl|by eapply same_index_write]. }
  split; [congruence|]. by rewrite Hd.
Qed.

(** A block that is accepted passes the steps, and the database it leaves is the one it found with the queued changes. *)
Lemma ConnectBlock_ok bs bs' :
  ConnectBlock' bs = (Ok tt, bs') -> db_ok (bs_db bs) ->
  exists s, block_connected bs bs' s
    /\ (fJustCheck = false -> exists db1 db2, db_ok db1 /\ (forall h, ReadTxIndex db1 h = ReadTxIndex (bs_db bs) h)
        /\ write_queued (map_to_list (cb_pool s)) db1 = (Ok tt, db2)
        /\ (db_ok db2 -> db_ok (bs_db bs') /\ forall h, ReadTxIndex (bs_db bs') h = ReadTxIndex db2 h)).
Proof.
  unfold ConnectBlock. intros Hc Hdb. apply M_bind_ok in Hc as ([] & ? & [Hck ->]%lift_ok & Hc).
  apply M_bind_ok in Hc as (? & ? & Hg & Hc). m_inv Hg. subst.
  apply M_bind_ok in Hc as (nTxPos & ? & [Hpos%or_abort_ok ->]%lift_ok & Hc).
  apply M_bind_ok in Hc as (s & ? & (Hloop & c & Hw & ->)%connect_txs_ok & Hc).
  apply M_bind_ok in Hc as ([] & ? & [Hrew ->]%lift_ok & Hc).
  apply M_bind_ok in Hc as (? & s2 & Hs & Hc). unfold set_index, modify in Hs. injection Hs as _ <-.
  apply M_bind_ok in Hc as (? & ? & Hg & Hc). m_inv Hg. subst. cbn [bs_db bs_index bs_checker bs_synced] in Hc.
  apply M_bind_ok in Hc as (? & s1 & (Hi & _ & Hd1 & Hr1)%write_index_reads & Hc); [|done]. cbn [bs_db bs_index] in *.
  assert (bs_index bs' = bs_index s1 /\ (fJustCheck = false -> exists db2, write_queued (map_to_list (cb_pool s)) (bs_db s1) = (Ok tt, db2)
    /\ (db_ok db2 -> db_ok (bs_db bs') /\ forall h, ReadTxIndex (bs_db bs') h = ReadTxIndex db2 h))) as [Hidx Hdbs].
  { destruct fJustCheck; [by injection Hc as <-|]. apply M_bind_ok in Hc as (u & s3 & Hwq & [Hi3 Hd3]%link_and_sync).
    unfold on_db in Hwq. destruct (write_queued (map_to_list (cb_pool s)) (bs_db s1)) as [r db2] eqn:Ewq.
    injection Hwq as -> <-. destruct u. split; [exact Hi3|]. intros _. by exists db2. }
  exists s. split.
  - split; [done|by exists nTxPos|by exists c|done|by rewrite Hidx].
  - intros Hj. destruct (Hdbs Hj) as (db2 & Hwq & Hdb2). by exists (bs_db s1), db2.
Qed.

(** ** The transactions of an accepted block *)

Lemma first_tx_pos_bound i n : first_tx_pos b i fJustCheck = Some n -> 0 <= n < 2 ^ 32.
Proof.
  unfold first_tx_pos. destruct fJustCheck; [by intros [= <-]|].
  destruct (GetBlockSize CBlock_default); [|done]. cbn. intros [= <-]. unfold u32. by apply Z.mod_pos_bound.
Qed.

(** An input index that is not negative, a file number that does not mark a free slot *)
Definition block_ins_ok : Prop := Forall (fun tx => ins_ok (vin tx)) (b_vtx b).

Lemma block_effect bs bs' s :
  block_connected bs bs' s -> block_ins_ok -> bi_nFile (bs_index bs) <> UINT32_MAX ->
  exists hashes ps, mapM GetHash (b_vtx b) = Some hashes /\ NoDup hashes
    /\ Forall (fun p => exists n, p = DiskTxPos (bi_nFile (bs_index bs)) (bi_nBlockPos (bs_index bs)) n /\ 0 <= n < 2 ^ 32) ps
    /\ connected_all (ReadTxIndex (bs_db bs)) (b_vtx b) hashes ps (sees (bs_db bs) ∅) (sees (bs_db bs) (cb_pool s)).
Proof.
  intros [Hck (nTxPos & Hpos & Hloop) _ _ _] Hins Hfile.
  apply CheckBlock_sound in Hck as [_ _ _ _ _ (hs & Hm & Hnd) _ _ _ _].
  apply connect_all_effect in Hloop as (hashes & ps & Hm' & Hps & Hall); [|done|done|by eapply first_tx_pos_bound].
  exists hashes, ps. assert (hs = hashes) as -> by congruence. done.
Qed.

Lemma sees_empty (d : D) h : sees d ∅ h = ReadTxIndex d h.
Proof. unfold sees. by rewrite lookup_empty. Qed.

Lemma unspent_ext (E E' : index) o : (forall h, E h = E' h) -> unspent E o -> unspent E' o.
Proof. intros HE (t & s & Ht & Hs). exists t, s. by rewrite <-HE. Qed.

(** ** The database after the block *)

Variable pos_ok : CDiskTxPos -> Prop.
Hypothesis mark_ok : forall t n p, entry_ok t -> pos_ok p \/ p = CDiskTxPos_SetNull -> entry_ok (mark_spent t n p).

(** What the entries of a block need to be stored: keys, entries and positions are in range. *)
Record block_storable (bs : bstate (D := D) (C := C)) : Prop := BlockStorable {
  bt_file : bi_nFile (bs_index bs) <> UINT32_MAX;
  bt_pos : forall n, 0 <= n < 2 ^ 32 -> pos_ok (DiskTxPos (bi_nFile (bs_index bs)) (bi_nBlockPos (bs_index bs)) n);
  bt_txs : Forall (tx_storable (key_ok := key_ok) (entry_ok := entry_ok) pos_ok) (b_vtx b);
  bt_index : index_ok (entry_ok := entry_ok) (ReadTxIndex (bs_db bs)) }.

Lemma storable_ins bs : block_storable bs -> block_ins_ok.
Proof. intros [_ _ Htxs _]. eapply Forall_impl; [exact Htxs|]. intros tx []. done. Qed.

Lemma ConnectBlock_reads bs bs' s :
  fJustCheck = false -> block_connected bs bs' s -> block_storable bs -> db_ok (bs_db bs) ->
  (exists db1 db2, db_ok db1 /\ (forall h, ReadTxIndex db1 h = ReadTxIndex (bs_db bs) h)
     /\ write_queued (map_to_list (cb_pool s)) db1 = (Ok tt, db2)
     /\ (db_ok db2 -> db_ok (bs_db bs') /\ forall h, ReadTxIndex (bs_db bs') h = ReadTxIndex db2 h)) ->
  db_ok (bs_db bs') /\ reads (key_ok := key_ok) (bs_db bs') (sees (bs_db bs) (cb_pool s)).
Proof.
  intros Hj Hbk Hst Hdb (db1 & db2 & Hd1 & Hr1 & Hw & Hrest). pose proof (storable_ins _ Hst) as Hins.
  pose proof Hst as [Hfile Hpos Htxs Hidx].
  destruct (block_effect _ _ _ Hbk Hins Hfile) as (hashes & ps & Hm & Hnd & Hps & Hall).
  assert (Forall pos_ok ps) as Hpok by (eapply Forall_impl; [exact Hps|]; cbn; intros p (n & -> & Hn); by apply Hpos).
  assert (index_ok (entry_ok := entry_ok) (sees (bs_db bs) (cb_pool s))) as Hok.
  { eapply (connected_index_ok pos_ok mark_ok); [exact Hall|done|done|]. intros h t. rewrite sees_empty. apply Hidx. }
  pose proof Hbk as [_ (nTxPos & _ & Hloop) _ _ _].
  destruct (write_queued_ok (map_to_list (cb_pool s)) db1) as (db2' & Hw' & Hd2 & Hr2); [done|apply NoDup_fst_map_to_list| |].
  { apply Forall_forall. intros [h t] Hht%elem_of_map_to_list. cbn. split.
    - destruct (connect_all_keys _ _ _ _ _ _ _ _ _ _ _ _ _ _ h Hloop Hins Hfile) as [Hh|Hh]; [by exists t| |].
      + cbn in Hh. rewrite lookup_empty in Hh. by destruct Hh.
      + apply Exists_exists in Hh as (tx & Htx & Hh). apply (proj1 (Forall_forall _ _) Htxs) in Htx as [Hk Hkh _ _].
        destruct Hh as [Hh|Hh]; [by apply Hkh|]. apply list_elem_of_fmap in Hh as (o & -> & Ho). by apply (proj1 (Forall_forall _ _) Hk).
    - apply (Hok h). unfold sees. by rewrite Hht. }
  assert (db2' = db2) as -> by congruence. destruct (Hrest Hd2) as [Hd' Hr']. split; [done|].
  intros h Hh. rewrite Hr', Hr2, list_to_map_to_list by done. unfold sees. by rewrite Hr1.
Qed.

Lemma used_reads (d : D) (E : index) o : reads (key_ok := key_ok) d E -> key_ok (op_hash o) -> used E o -> used (ReadTxIndex d) o.
Proof. intros Hr Hk (t & s & Ht & Hs). exists t, s. by rewrite (Hr _ Hk). Qed.

(** C1 (safety): no output is spent twice by the blocks of a chain. When [ConnectBlock] accepts a block, the
    outpoints its transactions spend are pairwise different, across the whole block; each of them was free in the
    index before the block or is an output of a transaction of the block; and in the index that the block
    leaves, each of them is taken. *)
Theorem ConnectBlock_no_double_spend bs bs' :
  ConnectBlock' bs = (Ok tt, bs') -> db_ok (bs_db bs) -> block_storable bs ->
  NoDup (block_spends b)
  /\ (exists hashes, mapM GetHash (b_vtx b) = Some hashes
      /\ Forall (fun o => unspent (ReadTxIndex (bs_db bs)) o \/ op_hash o ∈ hashes) (block_spends b))
  /\ (fJustCheck = false -> Forall (used (ReadTxIndex (bs_db bs'))) (block_spends b)).
Proof.
  intros Hc Hdb Hst. destruct (ConnectBlock_ok _ _ Hc Hdb) as (s & Hbk & Hw). pose proof (storable_ins _ Hst) as Hins.
  destruct (block_effect _ _ _ Hbk Hins (bt_file _ Hst)) as (hashes & ps & Hm & Hnd & Hps & Hall).
  destruct (connected_spends _ _ _ _ _ _ [] Hall Hnd) as (N1 & N2 & _ & N4); [by intros h ?%elem_of_nil| |].
  { intros o _. apply unspent_ext, sees_empty. }
  split; [done|]. split; [by exists hashes|]. intros Hj.
  destruct (ConnectBlock_reads _ _ _ Hj Hbk Hst Hdb (Hw Hj)) as [_ Hr]. apply Forall_forall. intros o Ho.
  eapply used_reads; [exact Hr| |by apply (proj1 (Forall_forall _ _) N2)].
  unfold block_spends in Ho. apply list_elem_of_In, in_concat in Ho as (os & Hin%list_elem_of_In & Ho%list_elem_of_In).
  apply list_elem_of_fmap in Hin as (tx & -> & Htx).
  apply (proj1 (Forall_forall _ _) (bt_txs _ Hst)) in Htx as [Hk _ _ _]. by apply (proj1 (Forall_forall _ _) Hk).
Qed.

(** C3 (roundtrip): disconnecting a block undoes connecting it. When [ConnectBlock] accepts a block whose
    transactions are all new to the index, [DisconnectBlock] on the state it leaves succeeds, and every entry
    of the transaction index is again what it was, also for chains of transactions inside of the block. *)
Theorem ConnectBlock_DisconnectBlock bs bs' :
  fJustCheck = false -> ConnectBlock' bs = (Ok tt, bs') -> db_ok (bs_db bs) -> block_storable bs ->
  (forall tx h, tx ∈ b_vtx b -> GetHash tx = Some h -> ReadTxIndex (bs_db bs) h = Some None) ->
  exists bs'', DisconnectBlock b ancestors bs' = (Ok tt, bs'') /\ db_ok (bs_db bs'')
    /\ forall h, key_ok h -> ReadTxIndex (bs_db bs'') h = ReadTxIndex (bs_db bs) h.
Proof.
  intros Hj Hc Hdb Hst Hnew. destruct (ConnectBlock_ok _ _ Hc Hdb) as (s & Hbk & Hw). pose proof (storable_ins _ Hst) as Hins.
  destruct (block_effect _ _ _ Hbk Hins (bt_file _ Hst)) as (hashes & ps & Hm & Hnd & Hps & Hall).
  destruct (ConnectBlock_reads _ _ _ Hj Hbk Hst Hdb (Hw Hj)) as [Hd' Hr]. destruct bs' as [d' i' c' w']. cbn [bs_db] in *.
  destruct (disconnect_all pos_ok mark_ok _ _ _ _ _ _ d' i' c' w' Hall Hnd) as (d1 & Hdis & Hd1 & Hr1).
  - intros h Hh. rewrite sees_empty. apply mapM_Some in Hm. apply list_elem_of_lookup in Hh as [k Hk].
    destruct (Forall2_lookup_r _ _ _ _ _ Hm Hk) as (tx & Htx & Hh). apply (Hnew tx); [by eapply list_elem_of_lookup_2|done].
  - eapply Forall_impl; [exact Hps|]. cbn. intros p (n & -> & Hn). by apply (bt_pos _ Hst).
  - apply Hst.
  - intros h t. rewrite sees_empty. by apply Hst.
  - done.
  - done.
  - unfold DisconnectBlock.
    assert (exists bs2, (match ancestors with
        | prev :: _ => write_index (set_hashNext (uint256_of 0) (CDiskBlockIndex_new prev))
        | [] => mret tt end) (BState d1 i' c' w') = (Ok tt, bs2) /\ same_index (BState d1 i' c' w') bs2) as (bs2 & Hlink & _ & Hsame).
    { destruct ancestors as [|prev l]; [by eexists|]. unfold write_index, db_write, on_db. cbn [bs_db bs_index bs_checker bs_synced].
      destruct (write_index_ok d1 (set_hashNext (uint256_of 0) (CDiskBlockIndex_new prev)) Hd1) as (d2 & -> & Hd2 & Hr2).
      eexists. split; [done|]. split; [done|]. by intros _. }
    destruct (Hsame Hd1) as [Hd2 Hr2]. cbn [bs_db] in Hr2. eexists. unfold M_bind. rewrite Hdis, Hlink.
    split; [done|]. cbn [bs_db]. split; [done|]. intros h Hh. rewrite Hr2, Hr1 by done. apply sees_empty.
Qed.

(** ** The index that each transaction meets

    The index of the database for the first one, and then what the transactions before have added and marked. A transaction is at the
    position of the block and the offset that its size and those of the transactions before give. *)
Fixpoint indexes (i : CBlockIndex) (E : index) (nTxPos : Z) (txs : list CTransaction) : option (list index) :=
  match txs with
  | [] => Some []
  | tx :: txs =>
      hash ← GetHash tx;
      n ← next_pos fJustCheck tx nTxPos;
      Es ← indexes i (index_after hash tx (DiskTxPos (bi_nFile i) (bi_nBlockPos i) nTxPos) E) n txs;
      Some (E :: Es)
  end.
Definition block_indexes (bs : bstate (D := D) (C := C)) : option (list index) :=
  n ← first_tx_pos b (bs_index bs) fJustCheck; indexes (bs_index bs) (ReadTxIndex (bs_db bs)) n (b_vtx b).

(** The turns of the loop that connects the transactions *)
Inductive turns (bs : bstate (D := D) (C := C)) (fs : bool) : list index -> list CTransaction -> connecting (C := C) -> connecting (C := C) -> Prop :=
  | turns_nil s : turns bs fs [] [] s s
  | turns_cons E Es tx txs s s1 s' :
      (forall h, E h = sees (bs_db bs) (cb_pool s) h) ->
      connect_tx RIPEMD160 SHA1 SHA256 nd ev (bs_db bs) mempool (bs_index bs) ancestors fJustCheck fs tx s = (Ok tt, s1) ->
      turns bs fs Es txs s1 s' -> turns bs fs (E :: Es) (tx :: txs) s s'.

Lemma index_after_ext hash tx p (E E' : index) h : E h = E' h -> index_after hash tx p E h = index_after hash tx p E' h.
Proof. unfold index_after. by intros ->. Qed.

Lemma connect_all_turns (bs : bstate (D := D) (C := C)) fs txs s s' E :
  connect_all' bs fs txs s = (Ok tt, s') -> Forall (fun tx => ins_ok (vin tx)) txs -> bi_nFile (bs_index bs) <> UINT32_MAX ->
  (forall h, E h = sees (bs_db bs) (cb_pool s) h) ->
  exists Es, indexes (bs_index bs) E (cb_nTxPos s) txs = Some Es /\ turns bs fs Es txs s s'.
Proof.
  intros Hc Hins Hfile. revert s E Hc. induction Hins as [|tx txs Hi Hins IH]; intros s E Hc HE.
  { apply mapM_nil in Hc as ->. exists []. split; [done|constructor]. }
  apply mapM_cons in Hc as (s1 & H1 & Hc). pose proof H1 as H2. pose proof H1 as H3. apply connect_tx_ok in H2 as (hash & [Hh _] & _ & Hn).
  apply connect_tx_effect in H3 as (hash' & [Hh' _] & Heff & _); [|done..]. assert (hash' = hash) as -> by congruence.
  destruct (IH s1 (index_after hash tx (this_pos (bs_index bs) s) E) Hc) as (Es & HEs & Ht).
  { intros h. rewrite Heff. by apply index_after_ext. }
  exists (E :: Es). cbn [indexes]. rewrite Hh. cbn. rewrite Hn. cbn. unfold this_pos in HEs. rewrite HEs. split; [done|by econstructor].
Qed.

Lemma block_turns bs bs' s : block_connected bs bs' s -> block_ins_ok -> bi_nFile (bs_index bs) <> UINT32_MAX ->
  exists Es n, block_indexes bs = Some Es
    /\ turns bs (script_checks bs) Es (b_vtx b) (Connecting n 0 0 0 0 ∅ [] (bs_checker bs)) s.
Proof.
  intros [_ (n & Hn & Hl) _ _ _] Hins Hfile. unfold block_indexes. rewrite Hn. cbn [mbind option_bind].
  destruct (connect_all_turns _ _ _ _ _ (ReadTxIndex (bs_db bs)) Hl Hins Hfile) as (Es & HEs & Ht).
  - intros h. symmetry. apply sees_empty.
  - by exists Es, n.
Qed.

(** The output that an outpoint names: the transaction that the entry of its hash points to has it. *)
Definition spent_output (E : index) (o : COutPoint) (t : CTxIndex) (txPrev : CTransaction) (out : CTxOut) : Prop :=
  E (op_hash o) = Some (Some t) /\ previous_tx nd mempool (op_hash o) t = Some txPrev /\ vout txPrev !! Z.to_nat (op_n o) = Some out.

Lemma inputs_at_output E m o out : inputs_at nd mempool E m -> output m o = Some out -> exists t txPrev,
  m !! op_hash o = Some (t, txPrev) /\ spent_output E o t txPrev out.
Proof.
  intros Hm. unfold output. destruct (m !! op_hash o) as [[t txPrev]|] eqn:E1; [|done]. cbn. intros Ho. exists t, txPrev. split; [done|].
  by destruct (Hm _ _ _ E1).
Qed.

(** A turn that spends, with its inputs in terms of the index *)
Lemma turn_inputs (bs : bstate (D := D) (C := C)) fs hash tx s s' E :
  spending_connected RIPEMD160 SHA1 SHA256 nd ev mempool (bs_index bs) ancestors fs (bs_db bs) hash tx s s' ->
  (forall h, E h = sees (bs_db bs) (cb_pool s) h) ->
  exists inputs, (FetchInputs nd (bs_db bs) mempool (cb_pool s) tx true false ∅).1 = Ok inputs /\ inputs_at nd mempool E inputs.
Proof.
  intros (Hcb & inputs & _ & _ & _ & Hf & _) HE. exists inputs. split; [done|]. intros h t txPrev Hm. rewrite HE.
  by eapply FetchInputs_at in Hf; [apply Hf|].
Qed.

(** ** Amounts *)

(** What is checked of an input that spends the output [out] *)
Definition input_spends (E : index) (chain : list CBlockIndex) (tx : CTransaction) (i : CTxIn) (out : CTxOut) : Prop :=
  exists t txPrev, spent_output E (prevout i) t txPrev out
    /\ 0 <= nValue out <= block_params.MAX_MONEY /\ nTime txPrev <= nTime tx
    /\ (IsCoinBase txPrev = true \/ IsCoinStake txPrev = true -> IsImmature nd chain (pos t) = false).

Lemma input_checked_spends E chain tx m i out : inputs_at nd mempool E m -> input_checked nd tx chain m i out -> input_spends E chain tx i out.
Proof.
  intros Hm [Ho Hv _ (t & txPrev & Hp & Ht & Hi)]. destruct (inputs_at_output _ _ _ _ Hm Ho) as (t' & txPrev' & Hp' & Hs).
  assert (t' = t /\ txPrev' = txPrev) as [-> ->] by (split; congruence). by exists t, txPrev.
Qed.

(** The inputs of [tx] are worth [v.1], its outputs [v.2]: the inputs are outputs of the index in the money range, and the
    outputs are covered by them, or by the reward of a coinstake. *)
Definition tx_values (txdb : D) (chain : list CBlockIndex) (E : index) (tx : CTransaction) (v : Z * Z) : Prop :=
  0 <= v.1 <= block_params.MAX_MONEY /\ 0 <= v.2 <= block_params.MAX_MONEY /\ v.2 = total (vout tx) /\
  if IsCoinBase tx then v.1 = 0
  else exists outs, Forall2 (input_spends E chain tx) (vin tx) outs /\ v.1 = total outs /\ amounts_allowed nd tx txdb v.1.

Definition sum (f : CTransaction -> Z * Z -> Z) (txs : list CTransaction) (vs : list (Z * Z)) : Z :=
  foldr (fun p n => f p.1 p.2 + n) 0 (combine txs vs).
Definition fee (tx : CTransaction) (v : Z * Z) : Z := if IsCoinBase tx || IsCoinStake tx then 0 else v.1 - v.2.

Lemma GetValueIn_total tx chain m ins outs n :
  Forall2 (input_checked nd tx chain m) ins outs -> 0 <= n -> n + total outs <= block_params.MAX_MONEY ->
  GetValueIn_loop m ins n = Ok (n + total outs) /\ 0 <= total outs.
Proof.
  intros Ho. revert n. induction Ho as [|i o ins outs Hi Ho IH]; intros n Hn Hs; cbn [GetValueIn_loop total foldr].
  { split; [f_equal; lia|lia]. }
  fold (total outs) in *. destruct Hi as [Hout Hv _ _]. cbn [total foldr] in Hs. fold (total outs) in Hs.
  assert (0 <= total outs) as Ht.
  { clear -Ho. induction Ho as [|? o ? ? [_ ? _ _] _ IH]; cbn [total foldr]; [lia|fold (total l'); lia]. }
  unfold GetOutputFor. unfold output in Hout. destruct (m !! op_hash (prevout i)) as [q|]; [|done]. cbn [mbind option_bind] in Hout.
  cbn [or_throw res_bind]. rewrite Hout. cbn [or_throw res_bind].
  rewrite s64_small by (unfold block_params.MAX_MONEY, block_params.COIN in *; lia).
  destruct (IH (n + nValue o)) as [-> _]; [lia|lia|]. split; [f_equal; lia|lia].
Qed.

Lemma GetValueOut_loop_range outs n v :
  0 <= n <= block_params.MAX_MONEY -> GetValueOut_loop outs n = Some v -> 0 <= v <= block_params.MAX_MONEY.
Proof.
  revert n. induction outs as [|o outs IH]; intros n Hn Hv; cbn [GetValueOut_loop] in Hv; [by injection Hv as <-|].
  destruct (negb _ || _) eqn:Em; [done|]. apply orb_false_iff in Em as [_ Em%negb_false_iff%MoneyRange_true]. by apply (IH _ Em).
Qed.
Lemma GetValueOut_range tx v : GetValueOut tx = Some v -> v = total (vout tx) /\ 0 <= v <= block_params.MAX_MONEY.
Proof.
  intros Hv. pose proof MAX_MONEY_nonneg as Hn.
  split; [by apply (GetValueOut_loop_inv (vout tx) 0)|by apply (GetValueOut_loop_range (vout tx) 0)].
Qed.

Lemma tx_step_values (bs : bstate (D := D) (C := C)) fs E tx s s' :
  connect_tx RIPEMD160 SHA1 SHA256 nd ev (bs_db bs) mempool (bs_index bs) ancestors fJustCheck fs tx s = (Ok tt, s') ->
  (forall h, E h = sees (bs_db bs) (cb_pool s) h) -> ins_ok (vin tx) ->
  exists v, tx_values (bs_db bs) (bs_index bs :: ancestors) E tx v /\ cb_nFees s' = s64 (cb_nFees s + fee tx v)
    /\ cb_nValueIn s' = s64 (cb_nValueIn s + v.1) /\ cb_nValueOut s' = s64 (cb_nValueOut s + v.2).
Proof.
  intros (hash & _ & [Hc|Hc] & _)%connect_tx_ok HE Hins.
  - destruct Hc as (Hcb & nOut & [-> Hr]%GetValueOut_range & -> & -> & -> & _). exists (0, total (vout tx)).
    unfold tx_values, fee. rewrite Hcb. cbn [fst snd orb]. split_and!; try done; lia.
  - destruct (turn_inputs _ _ _ _ _ _ _ Hc HE) as (inputs' & Hf' & Hat).
    destruct Hc as (Hcb & inputs & nIn & nOut & st & Hf & Hin & [-> Hr]%GetValueOut_range & Hc & -> & -> & -> & _).
    assert (inputs' = inputs) as -> by congruence.
    apply ConnectInputs_ok in Hc as (v & Hv & _ & Ham); [|done].
    apply check_inputs_ok in Hv as (outs & Houts & -> & Hvr); [|done|by apply MAX_MONEY_nonneg].
    apply check_amounts_ok in Ham; [|done]. unfold GetValueIn in Hin. rewrite Hcb in Hin.
    destruct (GetValueIn_total _ _ _ _ _ 0 Houts) as [Hg _]; [lia|lia|]. rewrite Hg in Hin. injection Hin as <-.
    exists (0 + total outs, total (vout tx)). unfold tx_values, fee. rewrite Hcb. cbn [fst snd orb]. split_and!; try done; try lia.
    + exists outs. split_and!; [|lia|done]. eapply Forall2_impl; [exact Houts|]. intros i out. by apply input_checked_spends.
    + do 2 f_equal. destruct (IsCoinStake tx); [done|]. apply s64_small. unfold block_params.MAX_MONEY, block_params.COIN in *. lia.
Qed.

(** The totals of the loop are exact: a million amounts in the money range fit an [int64_t]. *)
Lemma turns_values (bs : bstate (D := D) (C := C)) fs Es txs s s' k :
  turns bs fs Es txs s s' -> Forall (fun tx => ins_ok (vin tx)) txs ->
  0 <= k -> k + zlen txs <= block_params.MAX_BLOCK_SIZE ->
  0 <= cb_nFees s <= k * block_params.MAX_MONEY -> 0 <= cb_nValueIn s <= k * block_params.MAX_MONEY ->
  0 <= cb_nValueOut s <= k * block_params.MAX_MONEY ->
  exists vs, Forall3 (tx_values (bs_db bs) (bs_index bs :: ancestors)) Es txs vs
    /\ cb_nFees s' = cb_nFees s + sum fee txs vs /\ cb_nValueIn s' = cb_nValueIn s + sum (fun _ v => v.1) txs vs
    /\ cb_nValueOut s' = cb_nValueOut s + sum (fun _ v => v.2) txs vs
    /\ 0 <= cb_nFees s' <= block_params.MAX_BLOCK_SIZE * block_params.MAX_MONEY.
Proof.
  intros Ht. revert k. induction Ht as [s|E Es tx txs s s1 s' HE H1 Ht IH]; intros k Hins Hk Hn HF HI HO.
  { exists []. unfold zlen in Hn. cbn in Hn |- *. split; [constructor|]. unfold block_params.MAX_BLOCK_SIZE, block_params.MAX_MONEY, block_params.COIN in *. split_and!; lia. }
  rewrite zlen_cons in Hn. pose proof (zlen_nonneg txs). apply Forall_cons in Hins as [Hi Hins].
  apply (tx_step_values _ _ E) in H1 as (v & Hv & HF1 & HI1 & HO1); [|done..]. pose proof Hv as (Hv1 & Hv2 & Hvt & Hv3).
  assert (0 <= fee tx v <= block_params.MAX_MONEY) as Hfee.
  { unfold fee. destruct (IsCoinBase tx); [cbn [orb]; lia|]. destruct Hv3 as (outs & _ & Hs & Ham). unfold amounts_allowed in Ham.
    destruct (IsCoinStake tx); cbn [orb]; lia. }
  assert ((k + 1) * block_params.MAX_MONEY < 2 ^ 63) as Hbig by (unfold block_params.MAX_BLOCK_SIZE, block_params.MAX_MONEY, block_params.COIN in *; nia).
  rewrite s64_small in HF1, HI1, HO1 by lia.
  destruct (IH (k + 1) Hins) as (vs & Hvs & HF2 & HI2 & HO2 & Hb); [lia..|]. exists (v :: vs).
  unfold sum in *. cbn [combine foldr fst snd]. split_and!; [by constructor|lia..].
Qed.

(** What the transactions create *)
Definition created (txs : list CTransaction) (vs : list (Z * Z)) : Z := sum (fun _ v => v.2 - v.1) txs vs.

Lemma sum_cons f tx txs v vs : sum f (tx :: txs) (v :: vs) = f tx v + sum f txs vs.
Proof. done. Qed.
Lemma created_split txs vs : created txs vs = sum (fun _ v => v.2) txs vs - sum (fun _ v => v.1) txs vs.
Proof.
  unfold created. revert vs. induction txs as [|tx txs IH]; intros [|v vs]; [done..|]. rewrite !sum_cons, IH. lia.
Qed.

(** Transactions that are neither coinbases nor coinstakes create nothing: they pay fees. *)
Lemma plain_created txdb chain Es txs vs :
  Forall3 (tx_values txdb chain) Es txs vs -> Forall (fun tx => IsCoinBase tx = false /\ IsCoinStake tx = false) txs ->
  created txs vs = - sum fee txs vs /\ created txs vs <= 0.
Proof.
  unfold created. induction 1 as [|E tx v Es txs vs Hv _ IH]; [done|]. intros [[Hcb Hcs] Hp]%Forall_cons. destruct (IH Hp) as [He Hle].
  rewrite !sum_cons. destruct Hv as (_ & _ & Hvt & Hv3). rewrite Hcb in Hv3. destruct Hv3 as (outs & _ & _ & Ham).
  unfold amounts_allowed in Ham. rewrite Hcs in Ham. assert (fee tx v = v.1 - v.2) as -> by (unfold fee; by rewrite Hcb, Hcs). cbn beta. lia.
Qed.

Lemma total_empty o : CTxOut_IsEmpty o = true -> total [o] = 0.
Proof. unfold CTxOut_IsEmpty. cbn [total foldr]. lia. Qed.

(** The shape of a checked block *)
Lemma checked_shape pow mk sg :
  block_checked Verify ev b pow mk sg ->
  exists coinbase rest, b_vtx b = coinbase :: rest /\ IsCoinBase coinbase = true /\
    if IsProofOfStake b then exists coinstake rest', rest = coinstake :: rest' /\ IsCoinBase coinstake = false
      /\ IsCoinStake coinstake = true /\ total (vout coinbase) = 0
      /\ Forall (fun tx => IsCoinBase tx = false /\ IsCoinStake tx = false) rest'
    else Forall (fun tx => IsCoinBase tx = false /\ IsCoinStake tx = false) rest.
Proof.
  intros [_ _ Hbase Hstake _ _ _ _ (cb & Hcb & Hkind) _]. destruct (b_vtx b) as [|cb' rest] eqn:Ev; [done|]. injection Hcb as ->.
  exists cb, rest. split; [done|]. split; [by apply (Hbase 0%nat)|]. destruct (IsProofOfStake b) eqn:Ep.
  - destruct Hkind as (cs & Hcs & [_ (o & Ho & He) _ _]). destruct rest as [|cs' rest]; [done|]. injection Hcs as ->.
    exists cs, rest. split; [done|]. split; [by apply (Hbase 1%nat)|]. split; [unfold IsProofOfStake in Ep; by rewrite Ev in Ep|].
    split; [rewrite Ho; by apply total_empty|]. apply Forall_lookup. intros i tx Htx. split; [by apply (Hbase (S (S i)))|].
    destruct (IsCoinStake tx) eqn:Est; [|done]. by specialize (Hstake (S (S i)) tx Htx Est).
  - apply Forall_lookup. intros i tx Htx. split; [by apply (Hbase (S i))|]. destruct (IsCoinStake tx) eqn:Est; [|done].
    specialize (Hstake (S i) tx Htx Est). destruct i; [|done]. unfold IsProofOfStake in Ep. rewrite Ev in Ep.
    destruct rest; [done|]. injection Htx as ->. congruence.
Qed.

(** C2 (safety): a block creates no more money than its reward. When [ConnectBlock] accepts a block, each of its
    transactions that is not a coinbase spends outputs that exist: each outpoint has an entry in the index that the transaction meets,
    the index of the database with what the transactions before it in the block have added and marked, and the output is the one of that number of the transaction
    on disk to which the entry points (of the memory pool, at the position that stands for it). These outputs are in the money range, mature and not newer than the transaction, and they cover
    the outputs of the transaction unless it is a coinstake, which may take its reward. With the values of these outputs, the money
    supply of the new entry is that of the previous one plus exactly what the transactions create; a proof-of-work
    block creates at most the subsidy for the height of the best block that the node knows (which is what the code asks for, not
    the height of the block); and a proof-of-stake block at most what its coinstake earns. *)
Theorem ConnectBlock_supply bs bs' :
  ConnectBlock' bs = (Ok tt, bs') -> db_ok (bs_db bs) -> block_ins_ok -> bi_nFile (bs_index bs) <> UINT32_MAX ->
  exists Es vs, block_indexes bs = Some Es
    /\ Forall3 (tx_values (bs_db bs) (bs_index bs :: ancestors)) Es (b_vtx b) vs
    /\ bi_nMoneySupply (bs_index bs') =
         s64 (match ancestors with prev :: _ => bi_nMoneySupply prev | [] => 0 end + created (b_vtx b) vs)
    /\ bi_nMint (bs_index bs') = s32 (s64 (created (b_vtx b) vs + sum fee (b_vtx b) vs))
    /\ if IsProofOfStake b
       then exists coinstake v, b_vtx b !! 1%nat = Some coinstake /\ IsCoinStake coinstake = true /\ vs !! 1%nat = Some v
              /\ created (b_vtx b) vs <= v.2 - v.1
       else created (b_vtx b) vs <= GetProofOfWorkSubsidy (e_nBestHeight ev).
Proof.
  intros Hc Hdb Hins Hfile. destruct (ConnectBlock_ok _ _ Hc Hdb) as (s & Hbk & _).
  destruct (block_turns _ _ _ Hbk Hins Hfile) as (Es & n & HEs & Ht). destruct Hbk as [Hck _ _ Hrew Hidx].
  apply CheckBlock_sound in Hck. pose proof (bc_count _ _ _ _ _ _ Hck) as [_ Hcount].
  destruct (turns_values _ _ _ _ _ _ 0 Ht Hins) as (vs & Hvs & HF & HI & HO & Hfees); [lia|lia|cbn;lia..|]. cbn [cb_nFees cb_nValueIn cb_nValueOut] in *.
  exists Es, vs. split; [done|]. split; [done|]. rewrite Hidx. unfold with_money. cbn [set_money bi_nMoneySupply bi_nMint].
  pose proof (created_split (b_vtx b) vs) as Hcr. split; [f_equal; lia|]. split; [do 2 f_equal; lia|].
  destruct (checked_shape _ _ _ Hck) as (cb & rest & Hv & Hcb & Hkind). rewrite Hv in *.
  apply Forall3_cons_inv_m in Hvs as (E0 & Es0 & v & vs0 & -> & -> & Hv0 & Hvs).
  unfold created, fee in *. rewrite sum_cons in *. destruct Hv0 as (_ & _ & Hv0 & Hin0). rewrite Hcb in *. cbn [orb] in *.
  destruct (IsProofOfStake b) eqn:Ep.
  - destruct Hkind as (cs & rest' & -> & Hcsb & Hcs & Hz & Hplain).
    apply Forall3_cons_inv_m in Hvs as (E1 & Es1 & v1 & vs1 & -> & -> & Hv1 & Hvs). exists cs, v1. split_and!; [done..|].
    destruct (plain_created _ _ _ _ _ Hvs Hplain) as [_ Hle]. unfold created in Hle. rewrite sum_cons. lia.
  - destruct (plain_created _ _ _ _ _ Hvs Hkind) as [He _]. unfold created in He.
    unfold check_reward, IsProofOfWork in Hrew. rewrite Ep, Hv in Hrew. cbn [negb head or_abort res_bind] in Hrew.
    apply res_bind_ok in Hrew as (k & [-> _]%or_throw_ok%GetValueOut_range & Hrew%reject_if_ok).
    unfold GetProofOfWorkReward in Hrew. pose proof (GetProofOfWorkSubsidy_bounds (e_nBestHeight ev)) as Hsub.
    rewrite s64_small in Hrew by (unfold COIN_PREMINE, block_params.MAX_BLOCK_SIZE, block_params.MAX_MONEY, block_params.COIN in *; lia).
    unfold fee in He. lia.
Qed.

(** ** Scripts *)

(** Each input of [tx] names an output of the index, whose script succeeds with the input's under the flags of the block. *)
Definition tx_scripts_verified (E : index) (tx : CTransaction) : Prop :=
  forall k i, vin tx !! k = Some i -> exists t txPrev out, spent_output E (prevout i) t txPrev out
    /\ script_verified RIPEMD160 SHA1 SHA256 tx (block_flags tx) k i out.

Lemma run_checks_prefix ks1 ks2 (c0 c : C) :
  run_checks RIPEMD160 SHA1 SHA256 (ks1 ++ ks2) c0 = Some (true, c) ->
  exists c1, run_checks RIPEMD160 SHA1 SHA256 ks1 c0 = Some (true, c1).
Proof. intros (c1 & Hc & _)%run_checks_app. by exists c1. Qed.

(** A turn of the loop checks the scripts at once, or leaves checks that do. *)
Lemma tx_scripts (bs : bstate (D := D) (C := C)) E hash tx s s' :
  spending_connected RIPEMD160 SHA1 SHA256 nd ev mempool (bs_index bs) ancestors true (bs_db bs) hash tx s s' ->
  (forall h, E h = sees (bs_db bs) (cb_pool s) h) -> ins_ok (vin tx) -> bi_nFile (bs_index bs) <> UINT32_MAX ->
  exists ks, cb_checks s' = cb_checks s ++ ks
    /\ (forall c0 c1, run_checks RIPEMD160 SHA1 SHA256 ks c0 = Some (true, c1) -> tx_scripts_verified E tx).
Proof.
  intros Hsp HE Hins Hfile. destruct (turn_inputs _ _ _ _ _ _ _ Hsp HE) as (inputs' & Hf' & Hat).
  destruct Hsp as (Hcb & inputs & nIn & nOut & st & Hf & _ & _ & Hc & _ & _ & _ & _ & -> & _).
  assert (inputs' = inputs) as -> by congruence.
  exists (cs_checks st). split; [done|]. intros c0 c1 Hrun.
  assert (CDiskTxPos_IsNull (this_pos (bs_index bs) s) = false) as Hpos by (unfold CDiskTxPos_IsNull, this_pos; cbn; lia).
  apply ConnectInputs_ok in Hc as (v & Hck & Hs & _); [|done].
  apply check_inputs_ok in Hck as (outs & Houts & _ & _); [|done|by apply MAX_MONEY_nonneg].
  enough (scripts_verified RIPEMD160 SHA1 SHA256 tx (block_flags tx) inputs 0 (vin tx)) as Hv.
  { intros k i Hi. destruct (Forall2_lookup_l _ _ _ _ _ Houts Hi) as (out & _ & [Ho _ _ _]).
    destruct (inputs_at_output _ _ _ _ Hat Ho) as (t & txPrev & _ & Hso). exists t, txPrev, out. split; [done|]. by apply (Hv k i). }
  destruct (e_nScriptCheckThreads ev =? 0); cbn [negb] in Hs.
  - by apply spend_inputs_ok in Hs as (_ & _ & _ & _ & Hv); [apply Hv|..].
  - destruct (deferred_extends _ _ _ _ _ _ _ _ _ _ _ _ Hs) as (ks & Hks & Hck). cbn [cs_checks cs_checker app] in Hks, Hck.
    destruct st as [m' pool' ks' cd]. cbn [cs_checks cs_checker] in *. subst ks' cd.
    pose proof (proj2 (spend_inputs_deferred RIPEMD160 SHA1 SHA256 tx (this_pos (bs_index bs) s) true false (block_flags tx)
      (vin tx) 0 inputs (cb_pool s) [] (cb_checker s) c0 m' pool' c1)) as Hinl. cbn [app] in Hinl.
    by apply spend_inputs_ok in Hinl as (_ & _ & _ & _ & Hv); [apply Hv| | | |exists ks].
Qed.

Lemma turns_scripts (bs : bstate (D := D) (C := C)) Es txs s s' :
  turns bs true Es txs s s' -> Forall (fun tx => ins_ok (vin tx)) txs -> bi_nFile (bs_index bs) <> UINT32_MAX ->
  exists ks, cb_checks s' = cb_checks s ++ ks
    /\ (forall c0 c, run_checks RIPEMD160 SHA1 SHA256 ks c0 = Some (true, c) ->
          Forall2 (fun E tx => IsCoinBase tx = false -> tx_scripts_verified E tx) Es txs).
Proof.
  intros Ht Hins Hfile. induction Ht as [s|E Es tx txs s s1 s' HE H1 Ht IH]; [exists []; rewrite app_nil_r; by split; [|constructor]|].
  apply Forall_cons in Hins as [Hi Hins]. destruct (IH Hins) as (ks & Hks & Hv).
  apply connect_tx_ok in H1 as (hash & _ & [Hcb|Hsp] & _).
  - destruct Hcb as (Hcb & nOut & _ & _ & _ & _ & _ & Heq & _). exists ks. split; [congruence|]. intros c0 c Hrun.
    constructor; [congruence|by eapply Hv].
  - destruct (tx_scripts _ _ _ _ _ _ Hsp HE Hi Hfile) as (ks1 & Hks1 & Hv1). exists (ks1 ++ ks).
    split; [by rewrite Hks, Hks1, app_assoc|]. intros c0 c (c1 & Hr1 & Hr2)%run_checks_app.
    constructor; [intros _; by eapply Hv1|by eapply Hv].
Qed.

(** C4 (safety): every script of an accepted block was run. When [ConnectBlock] accepts a block at a height that
    the checkpoints do not vouch for, each input of each transaction that is not a coinbase names an output that exists, in the
    transaction to which the index points: the index of the database with what the transactions before it in the block have added and
    marked. And its script succeeds against the script of that output under the flags of the block, whether the checks are run at
    once or handed to the script check threads. *)
Theorem ConnectBlock_scripts bs bs' :
  ConnectBlock' bs = (Ok tt, bs') -> db_ok (bs_db bs) -> block_ins_ok -> bi_nFile (bs_index bs) <> UINT32_MAX ->
  e_GetTotalBlocksEstimate ev <= bi_nHeight (bs_index bs) ->
  exists Es, block_indexes bs = Some Es /\ Forall2 (fun E tx => IsCoinBase tx = false -> tx_scripts_verified E tx) Es (b_vtx b).
Proof.
  intros Hc Hdb Hins Hfile Hh. destruct (ConnectBlock_ok _ _ Hc Hdb) as (s & Hbk & _).
  destruct (block_turns _ _ _ Hbk Hins Hfile) as (Es & n & HEs & Ht). destruct Hbk as [_ _ (c & Hw) _ _].
  unfold script_checks in Ht. rewrite (proj2 (Z.geb_le _ _) Hh) in Ht.
  destruct (turns_scripts _ _ _ _ _ Ht Hins Hfile) as (ks & Hks & Hv). cbn [cb_checks app] in Hks.
  exists Es. split; [done|]. unfold control_wait in Hw. rewrite Hks in Hw. by eapply Hv.
Qed.
End spec.

(** ** A worked example

    A proof-of-work block at height 100 with a coinbase and the transaction of the example of [InputsProps]. The hash
    of a header is constant here, and the script checks are deferred. *)
#[local] Instance ex_block_hash : BlockHash := fun _ => uint256_of 1.
#[local] Instance ex_block_checker : SigChecker unit := SigCheck.pure_checker SigCheck.toy_verify.

Definition ex_coinbase : CTransaction :=
  Transaction 1 2000 [TxIn COutPoint_SetNull [1; 100] SEQUENCE_FINAL []] [TxOut 1010000 [0x51]] 0.
Definition ex_header (root : uint256) : CBlockHeader := BlockHeader 6 (uint256_of 2) root 2000 0x1e0fffff 7.
Definition ex_block : CBlock :=
  let vtx := [ex_coinbase; ex_tx] in
  Block (ex_header (default [] (block_merkle_root (Block (ex_header []) vtx [])))) vtx [].
Definition ex_prev_entry : CBlockIndex :=
  set_money 0 5000000 (set_links (Some (uint256_of 2)) None None (set_place 0 99 CBlockIndex_default)).
Definition ex_entry : CBlockIndex :=
  set_links (Some (uint256_of 1)) (Some (uint256_of 2)) None (set_place 0 100 (CBlockIndex_new 1 1000 ex_block)).
Definition ex_env : env := Env mainnet 2000 50 4 100.
Definition ex_state : bstate := BState ex_db ex_entry tt [].
Definition ex_connect_block : res unit * bstate :=
  ConnectBlock Crypto.RIPEMD160 Crypto.SHA1 Crypto.SHA256 SigCheck.toy_verify ex_node ex_env ∅ ex_block [ex_prev_entry] false ex_state.

Lemma ex_connect_block_ok :
  ConnectBlock Crypto.RIPEMD160 Crypto.SHA1 Crypto.SHA256 SigCheck.toy_verify ex_node ex_env ∅ ex_block [ex_prev_entry] false ex_state
  = (Ok tt, ex_connect_block.2).
Proof. vm_compute. reflexivity. Qed.

(** The transactions of the block are new to the index. *)
Lemma ex_block_new : forallb (fun tx => negb (bool_decide (GetHash tx = Some ex_prev_hash))) (b_vtx ex_block) = true.
Proof. vm_compute. reflexivity. Qed.

Lemma ex_block_storable : block_storable (key_ok := fun _ => True) (entry_ok := txindex_ok) ex_block diskpos_ok ex_state.
Proof.
  assert (forall p, diskpos_ok p -> txindex_ok (CTxIndex_new p 1)) as Hnew.
  { intros p Hp. split; [done|]. split; [by vm_compute|]. apply Forall_singleton. unfold diskpos_ok. cbn. unfold UINT32_MAX. lia. }
  split.
  - done.
  - intros n Hn. unfold diskpos_ok. cbn. lia.
  - assert (forall tx, ins_ok (vin tx) -> length (vout tx) = 1%nat ->
      tx_storable (key_ok := fun _ => True) (entry_ok := txindex_ok) diskpos_ok tx) as Htx.
    { intros tx Hi Hl. split; [by apply Forall_forall|done|done|]. intros p Hp. rewrite Hl. by apply Hnew. }
    repeat apply Forall_cons_2; [..|apply Forall_nil_2]; apply Htx; try done; apply Forall_singleton; cbn; unfold UINT32_MAX; lia.
  - intros h t. cbn [ex_state bs_db]. rewrite ex_db_reads. destruct (decide _); [|done]. intros [= <-].
    split; [apply ex_index_ok|]. by apply Forall_singleton.
Qed.

Lemma ConnectBlock_no_double_spend_witness :
  NoDup (block_spends ex_block) /\ Forall (used (ReadTxIndex (bs_db ex_connect_block.2))) (block_spends ex_block).
Proof.
  destruct (ConnectBlock_no_double_spend (entry_ok := txindex_ok) Crypto.RIPEMD160 Crypto.SHA1 Crypto.SHA256 SigCheck.toy_verify
    ex_node ex_env ∅ ex_block [ex_prev_entry] false diskpos_ok) with (bs := ex_state) (bs' := ex_connect_block.2) as (H1 & _ & H3).
  - intros t n p Ht [Hp| ->]; apply mark_spent_ok; try done; unfold diskpos_ok; cbn; unfold UINT32_MAX; lia.
  - apply ex_connect_block_ok.
  - by split.
  - apply ex_block_storable.
  - split; [exact H1|by apply H3].
Defined.

Lemma ConnectBlock_DisconnectBlock_witness :
  exists bs'', DisconnectBlock ex_block [ex_prev_entry] ex_connect_block.2 = (Ok tt, bs'')
    /\ forall h, ReadTxIndex (bs_db bs'') h = ReadTxIndex ex_db h.
Proof.
  destruct (ConnectBlock_DisconnectBlock (entry_ok := txindex_ok) Crypto.RIPEMD160 Crypto.SHA1 Crypto.SHA256 SigCheck.toy_verify
    ex_node ex_env ∅ ex_block [ex_prev_entry] false diskpos_ok) with (bs := ex_state) (bs' := ex_connect_block.2) as (bs'' & H1 & _ & H3).
  - intros t n p Ht [Hp| ->]; apply mark_spent_ok; try done; unfold diskpos_ok; cbn; unfold UINT32_MAX; lia.
  - reflexivity.
  - apply ex_connect_block_ok.
  - by split.
  - apply ex_block_storable.
  - intros tx h Htx Hh. cbn [ex_state bs_db]. rewrite ex_db_reads, decide_False; [done|]. intros ->.
    pose proof ex_block_new as Hnew. rewrite forallb_forall in Hnew. apply list_elem_of_In, Hnew, negb_true_iff, bool_decide_eq_false in Htx.
    contradiction.
  - exists bs''. split; [exact H1|]. intros h. by apply H3.
Defined.

(** The block creates what the coinbase takes beyond the fees: one coin. *)
Lemma ConnectBlock_supply_witness :
  exists Es vs, block_indexes ex_block false ex_state = Some Es
    /\ Forall3 (tx_values ex_node ∅ ex_db [ex_entry; ex_prev_entry]) Es (b_vtx ex_block) vs
    /\ created (b_vtx ex_block) vs <= 1000000 /\ bi_nMoneySupply (bs_index ex_connect_block.2) = s64 (5000000 + created (b_vtx ex_block) vs).
Proof.
  destruct (ConnectBlock_supply (db_ok := LevelDB.writable) Crypto.RIPEMD160 Crypto.SHA1 Crypto.SHA256 SigCheck.toy_verify
    ex_node ex_env ∅ ex_block [ex_prev_entry] false ex_state ex_connect_block.2) as (Es & vs & HEs & Hvs & H1 & _ & H2).
  - apply ex_connect_block_ok.
  - by split.
  - exact (storable_ins _ _ _ ex_block_storable).
  - discriminate.
  - exists Es, vs. split; [exact HEs|]. split; [exact Hvs|]. split; [exact H2|exact H1].
Defined.

(** The second transaction meets the index of the database with the entry of the coinbase. *)
Lemma ConnectBlock_scripts_witness :
  exists E0 E1, block_indexes ex_block false ex_state = Some [E0; E1]
    /\ tx_scripts_verified Crypto.RIPEMD160 Crypto.SHA1 Crypto.SHA256 ex_node ∅ E1 ex_tx.
Proof.
  destruct (ConnectBlock_scripts (db_ok := LevelDB.writable) Crypto.RIPEMD160 Crypto.SHA1 Crypto.SHA256 SigCheck.toy_verify
    ex_node ex_env ∅ ex_block [ex_prev_entry] false ex_state ex_connect_block.2 ex_connect_block_ok (conj eq_refl eq_refl)
    (storable_ins _ _ _ ex_block_storable) ltac:(discriminate) ltac:(vm_compute; discriminate)) as (Es & HEs & Hf).
  inversion Hf as [|E0 ? Es0 ? _ Hf2]; subst. inversion Hf2 as [|E1 ? Es1 ? Htx Hf3]; subst. inversion Hf3; subst.
  exists E0, E1. split; [exact HEs|by apply Htx].
Defined.

End BlockSpec.
