(* ===== verification/Mempool.v ===== *)
(** * Mempool: the transaction memory pool ([block/transaction.h], [block/transaction.cpp])

    [CTxMemPool]: its two maps, its operations and [accept]. A [CInPoint], which holds a pointer to an
    element of [mapTx], is modelled by the key of that element and the index. The lock that each
    operation takes makes it one step. *)
From stdpp Require Import strings sorting.
From S2P Require Import Prelude ScriptNum Script Serialize Crypto Transaction BlockData LevelDB Keys SigCheck Interpreter Solver Inputs.
Import Tx BlockData Script_param Inputs.

Module Mempool.

Record CTxMemPool : Type := MkPool {
  mapTx : gmap uint256 CTransaction;
  mapNextTx : gmap COutPoint (uint256 * nat);
  nTransactionsUpdated : Z  (* [block_info::nTransactionsUpdated], an unsigned int *)
}.

Definition empty_pool : CTxMemPool := MkPool ∅ ∅ 0.

Definition addUnchecked (hash : uint256) (tx : CTransaction) (p : CTxMemPool) : CTxMemPool :=
  MkPool (<[hash := tx]> (mapTx p))
    (foldl (fun m ni => <[prevout ni.2 := (hash, ni.1)]> m) (mapNextTx p) (imap pair (vin tx)))
    (u32 (nTransactionsUpdated p + 1)).

Definition remove (tx : CTransaction) (p : CTxMemPool) : option CTxMemPool :=
  hash ← GetHash tx;
  Some (if bool_decide (is_Some (mapTx p !! hash)) then
    MkPool (delete hash (mapTx p)) (foldl (fun m i => delete (prevout i) m) (mapNextTx p) (vin tx))
      (u32 (nTransactionsUpdated p + 1))
  else p).

Definition clear (p : CTxMemPool) : CTxMemPool := MkPool ∅ ∅ (u32 (nTransactionsUpdated p + 1)).

Definition size (p : CTxMemPool) : Z := Z.of_nat (base.size (mapTx p)).
Definition exists_ (hash : uint256) (p : CTxMemPool) : bool := bool_decide (is_Some (mapTx p !! hash)).

(** [lookup] uses [operator[]], which adds a default transaction where there is none. *)
Definition lookup (GetAdjustedTime : Z) (hash : uint256) (p : CTxMemPool) : CTransaction * CTxMemPool :=
  match mapTx p !! hash with
  | Some tx => (tx, p)
  | None =>
      let tx := CTransaction_SetNull GetAdjustedTime in
      (tx, MkPool (<[hash := tx]> (mapTx p)) (mapNextTx p) (nTransactionsUpdated p))
  end.

(** [queryHashes]: the keys in the order of the map, which compares hashes as numbers. *)
Definition hash_le (a b : uint256) : Prop := le_value a <= le_value b.
#[local] Instance hash_le_dec a b : Decision (hash_le a b).
Proof. unfold hash_le. apply _. Defined.
Definition queryHashes (p : CTxMemPool) : list uint256 := merge_sort hash_le (fst <$> map_to_list (mapTx p)).

Definition FutureDrift (nTime : Z) : Z := nTime + 2 * (60 * 60).
Definition INT_MAX : Z := 2147483647.

Section accept.
Context {D : Type} `{!TxDB D}.
Context {C : Type} `{!SigChecker C}.
Variables RIPEMD160 SHA1 SHA256 : bytes -> bytes.
Variable nd : node.
(** The adjusted time, the network, the chain that ends in the best block, and the answer of the limiter of free
    transactions (its decaying average is a [double], and it spares the wallet's own transactions) *)
Variables (GetAdjustedTime : Z) (fTestNet : bool) (best_chain : list CBlockIndex) (rate_limited : bool).

(** The tests before the inputs are looked at *)
Definition accept_stateless (tx : CTransaction) : res unit :=
  let! _ := reject_if (nTime tx >? FutureDrift GetAdjustedTime) 10 in
  let! v := or_abort (CheckTransaction tx) in
  let! _ := reject_if (negb (accepted v)) (dos v) in
  let! _ := reject_if (IsCoinBase tx) 100 in
  let! _ := reject_if (IsCoinStake tx) 100 in
  let! _ := reject_if (nLockTime tx >? INT_MAX) 0 in
  reject_if (negb fTestNet && negb (bool_decide (IsStandard tx = None))) 0.

(** The tests of the inputs; the flag is [*pfMissingInputs]. (What an exception leaves in the signature
    cache is not tracked.) *)
Definition accept_inputs (txdb : D) (tx : CTransaction) (p : CTxMemPool) (c : C) : res unit * bool * C :=
  match FetchInputs nd txdb (mapTx p) ∅ tx false false ∅ with
  | (Ok mapInputs, _) =>
      match AreInputsStandard RIPEMD160 SHA1 SHA256 tx mapInputs c with
      | Ok (standard, c) =>
          match
            (let! _ := reject_if (negb standard && negb fTestNet) 0 in
             let! nValueIn := GetValueIn tx mapInputs in
             let! nValueOut := or_throw (GetValueOut tx) in
             let! nSize := or_abort (GetSerializeSize tx) in
             let nFees := s64 (nValueIn - nValueOut) in
             let! _ := reject_if (nFees <? GetMinFee tx 1000 true GMF_RELAY nSize) 0 in
             reject_if ((nFees <? block_params.MIN_RELAY_TX_FEE) && rate_limited) 0)
          with
          | Ok _ =>
              let '(r, st) := ConnectInputs RIPEMD160 SHA1 SHA256 nd txdb mapInputs ∅ tx pos_memory best_chain
                                false false true STRICT_FLAGS false [] c in
              (r, false, cs_checker st)
          | r => (r, false, c)
          end
      | Reject d => (Reject d, false, c)
      | Throws => (Throws, false, c)
      | Aborts => (Aborts, false, c)
      end
  | (Reject d, fInvalid) => (Reject d, negb fInvalid, c)
  | (Throws, _) => (Throws, false, c)
  | (Aborts, _) => (Aborts, false, c)
  end.

(** [accept]: the result, [*pfMissingInputs], the pool and the signature cache. Replacement of
    transactions is switched off: any input that is already spent in the pool is a conflict. *)
Definition accept (txdb : D) (tx : CTransaction) (fCheckInputs : bool) (p : CTxMemPool) (c : C) :
    res unit * bool * CTxMemPool * C :=
  match accept_stateless tx with
  | Ok _ =>
      match GetHash tx with
      | None => (Aborts, false, p, c)
      | Some hash =>
          if exists_ hash p then (Reject 0, false, p, c)
          else
            match (if fCheckInputs then ContainsTx txdb hash else Some false) with
            | None => (Aborts, false, p, c)
            | Some true => (Reject 0, false, p, c)
            | Some false =>
                if existsb (fun i => bool_decide (is_Some (mapNextTx p !! prevout i))) (vin tx)
                then (Reject 0, false, p, c)
                else if fCheckInputs then
                  match accept_inputs txdb tx p c with
                  | (Ok _, missing, c) => (Ok tt, missing, addUnchecked hash tx p, c)
                  | (r, missing, c) => (r, missing, p, c)
                  end
                else (Ok tt, false, addUnchecked hash tx p, c)
            end
      end
  | Reject d => (Reject d, false, p, c)
  | Throws => (Throws, false, p, c)
  | Aborts => (Aborts, false, p, c)
  end.

Definition AcceptToMemoryPool := accept.
End accept.

End Mempool.
