(* ===== verification/BestChain.v ===== *)
(** * BestChain: the best chain and its reorganization ([block/block.cpp], [block/block_check.cpp])

    A new block joins the block index; if its chain has more trust than the best one it becomes the tip, either directly or by
    a reorganization, which disconnects the blocks down to the fork and connects those of the new branch in one database
    transaction. Pointers into the index are hashes. *)
From stdpp Require Import strings.
From S2P Require Import Prelude ScriptNum Script Serialize Crypto Transaction Merkle Uint256 BlockData LevelDB.
From S2P Require Import Keys SigCheck Interpreter Solver Inputs Difficulty BlockFile ChainIndex Kernel Block Mempool.
Import Serialize Tx BlockData Script_param Inputs Difficulty ChainIndex Block.
Open Scope block_scope.

(** ** Transactions of the database, and its other writes

    [TxnBegin] asserts that no transaction is open, [TxnCommit] that one is. [Reopen] is a new [CTxDB] object on the same
    database. *)
Class ChainDB (D : Type) : Type := {
  TxnBegin : D -> option (bool * D);
  TxnCommit : D -> option (bool * D);
  TxnAbort : D -> option (bool * D);
  Reopen : D -> D;
  ReadHashBestChain : D -> option (option uint256);
  WriteSyncCheckpoint : D -> uint256 -> option (bool * D);
  WriteBestInvalidTrust : D -> Z -> option (bool * D)
}.

Module BestChain.

(** ** Trust *)

Definition nPoWBase : Z := 0x00000000ffff0000000000000000000000000000000000000000000000000000.

(** The entries of the loops over the last 12 blocks that satisfy [p]; [None] reads past the chain. *)
Fixpoint count_last (p : CBlockIndex -> bool) (nHeight : Z) (chain : list CBlockIndex) : option Z :=
  match chain with
  | [] => None
  | b :: chain =>
      if nHeight - bi_nHeight b <? 12 then n ← count_last p nHeight chain; Some ((if p b then 1 else 0) + n) else Some 0
  end.

Section trust.
Context `{MPI}.

Definition getuint (x : Z) : Z := le_value (getuint256 x).
Definition uint256_sub (a b : Z) : Z := (a - b) mod 2 ^ 256.
Definition uint256_add (a b : Z) : Z := (a + b) mod 2 ^ 256.

(** [GetBlockTrust] of the entry after the chain [prev] *)
Definition GetBlockTrust (b : CBlockIndex) (prev : list CBlockIndex) : option Z :=
  let bnTarget := SetCompact (bi_nBits b) in
  if bnTarget <=? 0 then Some 0
  else
    match prev with
    | [] => Some 1
    | pprev :: rest =>
        if bi_nHeight pprev <? 12 then Some 1
        else if bi_IsProofOfStake b then
          let bnNewTrust := Z.quot (2 ^ 256) (bnTarget + 1) in
          if negb (bi_IsProofOfWork pprev) then Some (getuint (Z.quot bnNewTrust 3))
          else
            nPoWCount ← count_last bi_IsProofOfWork (bi_nHeight pprev) prev;
            Some (getuint (if nPoWCount <? 3 then Z.quot bnNewTrust 3 else bnNewTrust))
        else
          let bnPoWTrust := Z.max (Z.quot nPoWBase (bnTarget + 1)) 1 in
          match rest with
          | [] => None
          | pprev2 :: _ =>
              let bnLastBlockTrust := uint256_sub (bi_nChainTrust pprev) (bi_nChainTrust pprev2) in
              let reduced := getuint (bnPoWTrust + Z.quot (2 * bnLastBlockTrust) 3) in
              if negb (bi_IsProofOfStake pprev && bi_IsProofOfStake pprev2) then Some reduced
              else
                nPoSCount ← count_last bi_IsProofOfStake (bi_nHeight pprev) prev;
                if nPoSCount <? 7 then Some reduced
                else
                  let bnTarget := SetCompact (bi_nBits pprev) in
                  if bnTarget <=? 0 then Some 0
                  else Some (getuint (bnPoWTrust + Z.quot (2 ^ 256) (bnTarget + 1)))
          end
    end.
End trust.

(** ** The fork of two chains *)

Definition same_entry (a b : CBlockIndex) : bool := bool_decide (GetBlockHash a = GetBlockHash b).

(** The loop of [Reorganize] that finds the fork: [pfork] walks down the first chain, [plonger] down the second one.
    [None] is the result [false]. *)
Fixpoint find_fork (fork longer : list CBlockIndex) : option CBlockIndex :=
  match fork, longer with
  | pfork :: fork, plonger :: _ =>
      if same_entry pfork plonger then Some pfork
      else
        match down_to (bi_nHeight pfork) longer with
        | [] => None
        | (plonger :: _) as longer => if same_entry pfork plonger then Some pfork else find_fork fork longer
        end
  | _, _ => None
  end.

(** The hashes of the entries of a chain before the fork *)
Fixpoint before_fork (pfork : CBlockIndex) (chain : list CBlockIndex) : list uint256 :=
  match chain with
  | [] => []
  | b :: chain => if same_entry b pfork then [] else GetBlockHash b :: before_fork pfork chain
  end.

(** [SetBestChain] postpones the entries whose predecessor has more trust than the best block: these entries, the
    highest first, and the first one that is not postponed. *)
Fixpoint postpone (nBestTrust : Z) (chain : list CBlockIndex) : list CBlockIndex * option CBlockIndex :=
  match chain with
  | [] => ([], None)
  | b :: rest =>
      match rest with
      | p :: _ => if bi_nChainTrust p >? nBestTrust then let '(secondary, i) := postpone nBestTrust rest in (b :: secondary, i) else ([], Some b)
      | [] => ([], Some b)
      end
  end.

(** [set_pprev()->set_pnext(...)] *)
Definition set_next (h : option uint256) (next : option uint256) (m : BlockMap) : BlockMap :=
  match h with Some h => alter (set_pnext next) h m | None => m end.
Definition pprev_of (m : BlockMap) (h : uint256) : option uint256 := b ← m !! h; bi_pprev b.
Definition unlink (m : BlockMap) (h : uint256) : BlockMap := set_next (pprev_of m h) None m.
Definition link (m : BlockMap) (h : uint256) : BlockMap := set_next (pprev_of m h) (Some h) m.

(** ** The state *)

(** The variables of [block_info] about the best block *)
Record best_block : Type := BestBlock {
  hashBestChain : uint256; pindexBest : option uint256; nBestHeight : Z; nBestChainTrust : Z; nTimeBestReceived : Z }.

(** [block_info], the database, the memory pool, the signature cache, what the wallets were told: of transactions
    ([SyncWithWallets], [bs_synced]) and of new best chains, whether the warning of an obsolete version is set, the stakes seen, and the
    hashes of the proofs of stake that [ProcessBlock] found *)
Record chainstate {D C : Type} : Type := CState {
  cs_index : BlockMap; cs_genesis : option uint256; cs_best : best_block; cs_nBestInvalidTrust : Z; cs_nTransactionsUpdated : Z;
  cs_db : D; cs_pool : Mempool.CTxMemPool; cs_checker : C; cs_synced : list (CTransaction * bool * bool);
  cs_locators : list (list uint256); cs_obsolete : bool;
  cs_setStakeSeen : gset (COutPoint * Z); cs_mapProofOfStake : gmap uint256 uint256 }.
Arguments chainstate : clear implicits.
Arguments CState {D C}.

Section setters.
Context {D C : Type}.
Implicit Type s : chainstate D C.

Definition upd_index (f : BlockMap -> BlockMap) s : chainstate D C :=
  CState (f (cs_index s)) (cs_genesis s) (cs_best s) (cs_nBestInvalidTrust s) (cs_nTransactionsUpdated s) (cs_db s) (cs_pool s)
    (cs_checker s) (cs_synced s) (cs_locators s) (cs_obsolete s) (cs_setStakeSeen s) (cs_mapProofOfStake s).
Definition upd_genesis (g : option uint256) s : chainstate D C :=
  CState (cs_index s) g (cs_best s) (cs_nBestInvalidTrust s) (cs_nTransactionsUpdated s) (cs_db s) (cs_pool s)
    (cs_checker s) (cs_synced s) (cs_locators s) (cs_obsolete s) (cs_setStakeSeen s) (cs_mapProofOfStake s).
Definition upd_best (b : best_block) s : chainstate D C :=
  CState (cs_index s) (cs_genesis s) b (cs_nBestInvalidTrust s) (u32 (cs_nTransactionsUpdated s + 1)) (cs_db s) (cs_pool s)
    (cs_checker s) (cs_synced s) (cs_locators s) (cs_obsolete s) (cs_setStakeSeen s) (cs_mapProofOfStake s).
Definition upd_invalid (t : Z) s : chainstate D C :=
  CState (cs_index s) (cs_genesis s) (cs_best s) t (cs_nTransactionsUpdated s) (cs_db s) (cs_pool s)
    (cs_checker s) (cs_synced s) (cs_locators s) (cs_obsolete s) (cs_setStakeSeen s) (cs_mapProofOfStake s).
Definition upd_db (d : D) s : chainstate D C :=
  CState (cs_index s) (cs_genesis s) (cs_best s) (cs_nBestInvalidTrust s) (cs_nTransactionsUpdated s) d (cs_pool s)
    (cs_checker s) (cs_synced s) (cs_locators s) (cs_obsolete s) (cs_setStakeSeen s) (cs_mapProofOfStake s).
Definition upd_pool (p : Mempool.CTxMemPool) (c : C) s : chainstate D C :=
  CState (cs_index s) (cs_genesis s) (cs_best s) (cs_nBestInvalidTrust s) (cs_nTransactionsUpdated s) (cs_db s) p
    c (cs_synced s) (cs_locators s) (cs_obsolete s) (cs_setStakeSeen s) (cs_mapProofOfStake s).
Definition upd_connected (m : BlockMap) (d : D) (c : C) (w : list (CTransaction * bool * bool)) s : chainstate D C :=
  CState m (cs_genesis s) (cs_best s) (cs_nBestInvalidTrust s) (cs_nTransactionsUpdated s) d (cs_pool s)
    c w (cs_locators s) (cs_obsolete s) (cs_setStakeSeen s) (cs_mapProofOfStake s).
Definition upd_notify (l : list uint256) s : chainstate D C :=
  CState (cs_index s) (cs_genesis s) (cs_best s) (cs_nBestInvalidTrust s) (cs_nTransactionsUpdated s) (cs_db s) (cs_pool s)
    (cs_checker s) (cs_synced s) (cs_locators s ++ [l]) (cs_obsolete s) (cs_setStakeSeen s) (cs_mapProofOfStake s).
Definition upd_obsolete s : chainstate D C :=
  CState (cs_index s) (cs_genesis s) (cs_best s) (cs_nBestInvalidTrust s) (cs_nTransactionsUpdated s) (cs_db s) (cs_pool s)
    (cs_checker s) (cs_synced s) (cs_locators s) true (cs_setStakeSeen s) (cs_mapProofOfStake s).
Definition upd_seen (st : COutPoint * Z) s : chainstate D C :=
  CState (cs_index s) (cs_genesis s) (cs_best s) (cs_nBestInvalidTrust s) (cs_nTransactionsUpdated s) (cs_db s) (cs_pool s)
    (cs_checker s) (cs_synced s) (cs_locators s) (cs_obsolete s) ({[st]} ∪ cs_setStakeSeen s) (cs_mapProofOfStake s).
End setters.

(** A handler of a failed step *)
Definition on_reject {S A} (m : M S A) (handle : Z -> M S A) : M S A := fun s =>
  match m s with
  | (Reject d, s) => handle d s
  | r => r
  end.
Definition require {S} (m : M S bool) : M S unit := do! ok := m in lift (reject_if (negb ok) 0).

(** The chain that ends in the entry with the given hash *)
Definition chain_to (m : BlockMap) (h : uint256) : list CBlockIndex := match m !! h with Some b => chain_of m b | None => [] end.

Section chain.
Context `{MPI} `{BlockHash}.
Context {D : Type} `{!TxDB D, !BlockDB D, !ChainDB D}.
Context {C : Type} `{!SigChecker C}.
Variables RIPEMD160 SHA1 SHA256 : bytes -> bytes.
Variable Verify : bytes -> uint256 -> bytes -> bool.
Variable nd : node.
Variable ev : env.
Variable files : disk.
(** [IsInitialBlockDownload], the result of a rule on the clock and the checkpoints *)
Variable fIsInitialDownload : bool.

Abbreviation chainstate := (chainstate D C).
Abbreviation CM := (M chainstate).

(** An operation on the database: a failed assertion, or its result *)
Definition db_op (w : D -> option (bool * D)) : CM bool := fun s =>
  match w (cs_db s) with
  | None => (Aborts, s)
  | Some (ok, d) => (Ok ok, upd_db d s)
  end.

Definition entry (h : uint256) : CM CBlockIndex := do! s := mget in lift (or_abort (cs_index s !! h)).

(** [CBlock::ReadFromDisk] of an entry; the result [false] rejects. *)
Definition read_block (h : uint256) : CM CBlock :=
  do! i := entry h in
  lift (match BlockFile.ReadIndexed (e_net ev) files i with Some b => Ok b | None => Reject 0 end).

(** [ConnectBlock] or [DisconnectBlock] of the block of an entry: the chain before it is read along [pprev]. *)
Definition with_block (h : uint256) (f : list CBlockIndex -> M (bstate (D := D) (C := C)) unit) : CM unit :=
  do! i := entry h in
  do! s := mget in
  let ancestors := match get_pprev (cs_index s) i with Some p => chain_of (cs_index s) p | None => [] end in
  let '(r, bs) := f ancestors (BState (cs_db s) i (cs_checker s) (cs_synced s)) in
  do! _ := modify (upd_connected (<[h := bs_index bs]> (cs_index s)) (bs_db bs) (bs_checker bs) (bs_synced bs)) in
  lift r.

(** The reward depends on the height of the best block that the node knows of. *)
Definition env_of (s : chainstate) : env :=
  Env (e_net ev) (e_GetAdjustedTime ev) (e_GetTotalBlocksEstimate ev) (e_nScriptCheckThreads ev) (nBestHeight (cs_best s)).
Definition connect (b : CBlock) (h : uint256) : CM unit :=
  do! s := mget in
  with_block h (fun ancestors =>
    ConnectBlock RIPEMD160 SHA1 SHA256 Verify nd (env_of s) (Mempool.mapTx (cs_pool s)) b ancestors false).
Definition disconnect (b : CBlock) (h : uint256) : CM unit := with_block h (fun ancestors => DisconnectBlock b ancestors).

(** What is printed about an entry needs its predecessor. *)
Definition log_trust (h : uint256) : CM unit :=
  do! i := entry h in
  if bi_nHeight i =? 0 then mret tt
  else do! s := mget in do! _ := lift (or_abort (get_pprev (cs_index s) i)) in mret tt.

Definition best_entry : CM CBlockIndex :=
  do! s := mget in do! h := lift (or_abort (pindexBest (cs_best s))) in entry h.

(** [InvalidChainFound]; it is called when no transaction of the database is open. *)
Definition InvalidChainFound (pindexNew : uint256) : CM unit :=
  do! i := entry pindexNew in
  do! s := mget in
  do! _ := (if bi_nChainTrust i >? cs_nBestInvalidTrust s then
              do! _ := modify (upd_invalid (bi_nChainTrust i)) in
              do! _ := db_op (fun d => WriteBestInvalidTrust d (bi_nChainTrust i)) in mret tt
            else mret tt) in
  do! _ := lift (or_abort (get_pprev (cs_index s) i)) in
  do! best := best_entry in
  log_trust (GetBlockHash best).

(** The transactions of the memory pool that a block makes redundant *)
Definition pool_remove (tx : CTransaction) : CM unit :=
  do! s := mget in
  do! p := lift (or_abort (Mempool.remove tx (cs_pool s))) in
  modify (upd_pool p (cs_checker s)).

Definition SetBestChainInner (b : CBlock) (pindexNew : uint256) : CM unit :=
  do! _ := on_reject
    (do! _ := connect b pindexNew in require (db_op (fun d => WriteHashBestChain d (block_hash b))))
    (fun nDoS => do! _ := db_op TxnAbort in do! _ := InvalidChainFound pindexNew in lift (Reject nDoS)) in
  do! _ := require (db_op TxnCommit) in
  do! s := mget in
  do! prev := lift (or_abort (pprev_of (cs_index s) pindexNew)) in
  do! _ := modify (upd_index (set_next (Some prev) (Some pindexNew))) in
  mapM_ pool_remove (b_vtx b).

(** ** Reorganization *)

(** The blocks of the shorter branch, the tip first: the transactions to resurrect *)
Fixpoint disconnect_branch (vDisconnect : list uint256) (vResurrect : list CTransaction) : CM (list CTransaction) :=
  match vDisconnect with
  | [] => mret vResurrect
  | h :: vDisconnect =>
      do! b := read_block h in
      do! _ := disconnect b h in
      disconnect_branch vDisconnect (vResurrect ++ base.filter (fun tx => negb (IsCoinBase tx || IsCoinStake tx) = true) (b_vtx b))
  end.

(** The blocks of the longer branch, the lowest first: the transactions to delete *)
Fixpoint connect_branch (vConnect : list uint256) (vDelete : list CTransaction) : CM (list CTransaction) :=
  match vConnect with
  | [] => mret vDelete
  | h :: vConnect =>
      do! b := read_block h in
      do! _ := connect b h in
      connect_branch vConnect (vDelete ++ b_vtx b)
  end.

(** [AcceptToMemoryPool(txdb, false)], whose result is not looked at *)
Definition resurrect (tx : CTransaction) : CM unit := fun s =>
  let best_chain := match pindexBest (cs_best s) with Some h => chain_to (cs_index s) h | None => [] end in
  let '(r, _, p, c) := Mempool.AcceptToMemoryPool RIPEMD160 SHA1 SHA256 nd (e_GetAdjustedTime ev) (fTestNet (e_net ev)) best_chain false
                         (cs_db s) tx false (cs_pool s) (cs_checker s) in
  match r with
  | Ok _ | Reject _ => (Ok tt, upd_pool p c s)
  | Throws => (Throws, upd_pool p c s)
  | Aborts => (Aborts, upd_pool p c s)
  end.

Definition Reorganize (pindexNew : uint256) : CM unit :=
  do! best := best_entry in
  do! new := entry pindexNew in
  do! s := mget in
  let shorter := chain_of (cs_index s) best in
  let longer := chain_of (cs_index s) new in
  match find_fork shorter longer with
  | None => lift (Reject 0)
  | Some pfork =>
      let vDisconnect := before_fork pfork shorter in
      let vConnect := reverse (before_fork pfork longer) in
      do! vResurrect := disconnect_branch vDisconnect [] in
      do! vDelete := connect_branch vConnect [] in
      do! _ := require (db_op (fun d => WriteHashBestChain d (GetBlockHash new))) in
      do! _ := require (db_op TxnCommit) in
      do! _ := modify (upd_index (fun m => fold_left link vConnect (fold_left unlink vDisconnect m))) in
      do! _ := mapM_ resurrect vResurrect in
      mapM_ pool_remove vDelete
  end.

(** ** [SetBestChain] *)

(** The postponed blocks, the lowest first: an error ends the loop and is not fatal. *)
Fixpoint reconnect (postponed : list uint256) : CM unit :=
  match postponed with
  | [] => mret tt
  | h :: postponed =>
      do! i := entry h in
      match BlockFile.ReadIndexed (e_net ev) files i with
      | None => mret tt
      | Some b =>
          do! began := db_op TxnBegin in
          if negb began then mret tt
          else
            do! ok := on_reject (do! _ := SetBestChainInner b h in mret true) (fun _ => mret false) in
            if ok : bool then reconnect postponed else mret tt
      end
  end.

(** The blocks of the last 100 with a version above the one of the new block *)
Definition obsolete (nVersion : Z) (chain : list CBlockIndex) : bool :=
  (50 <? length (base.filter (fun b => (bi_nVersion b >? nVersion) = true) (take 100 chain)))%nat.

(** The three ways to a new best chain *)
Definition switch_chain (b : CBlock) (pindexNew : uint256) : CM unit :=
  let hash := block_hash b in
  do! s := mget in
  if bool_decide (cs_genesis s = None) && bool_decide (hash = Locator.genesis (fTestNet (e_net ev))) then
    do! _ := db_op (fun d => WriteHashBestChain d hash) in
    do! _ := require (db_op TxnCommit) in
    modify (upd_genesis (Some pindexNew))
  else if bool_decide (bh_hashPrevBlock (b_header b) = hashBestChain (cs_best s)) then SetBestChainInner b pindexNew
  else
    do! best := best_entry in
    let '(vpindexSecondary, pindexIntermediate) := postpone (bi_nChainTrust best) (chain_to (cs_index s) pindexNew) in
    do! i := lift (or_abort pindexIntermediate) in
    do! _ := on_reject (Reorganize (GetBlockHash i))
      (fun _ => do! _ := db_op TxnAbort in do! _ := InvalidChainFound pindexNew in lift (Reject 0)) in
    reconnect (reverse (GetBlockHash <$> vpindexSecondary)).

(** What follows: the wallets are told, and the best block is the new one, whatever was reconnected. *)
Definition new_best (b : CBlock) (pindexNew : uint256) : CM unit :=
  do! s := mget in
  do! _ := (if fIsInitialDownload then mret tt
            else modify (upd_notify (Locator.Set_ (fTestNet (e_net ev)) (chain_to (cs_index s) pindexNew)))) in
  do! i := entry pindexNew in
  do! _ := modify (upd_best (BestBlock (block_hash b) (Some pindexNew) (bi_nHeight i) (bi_nChainTrust i) (GetTime nd))) in
  do! _ := log_trust pindexNew in
  if negb fIsInitialDownload && obsolete (bh_nVersion (b_header b)) (chain_to (cs_index s) pindexNew)
  then modify upd_obsolete else mret tt.

Definition SetBestChain (b : CBlock) (pindexNew : uint256) : CM unit :=
  do! _ := require (db_op TxnBegin) in
  do! _ := switch_chain b pindexNew in
  new_best b pindexNew.

(** ** [AddToBlockIndex] *)

Variable sp : Kernel.stake_params.
Import Kernel.

(** The new entry after its predecessor, with its trust, entropy bit, proof of stake and stake modifier. [Reject] is the
    result [false]. *)
Definition new_entry (b : CBlock) (nFile nBlockPos : Z) (s : chainstate) : res CBlockIndex :=
  let hash := block_hash b in
  let m := cs_index s in
  let hashPrev := bh_hashPrevBlock (b_header b) in
  let prev := m !! hashPrev in
  let chain := chain_to m hashPrev in
  let i := set_links (Some hash) (match prev with Some _ => Some hashPrev | None => None end) None (CBlockIndex_new nFile nBlockPos b) in
  let i := set_place (bi_nChainTrust i) (match prev with Some p => bi_nHeight p + 1 | None => bi_nHeight i end) i in
  let! trust := or_abort (GetBlockTrust i chain) in
  let i := set_place (uint256_add (match prev with Some p => bi_nChainTrust p | None => 0 end) trust) (bi_nHeight i) i in
  let! i := (match SetStakeEntropyBit (GetStakeEntropyBit b) i with Some i => Ok i | None => Reject 0 end) in
  let! i := (if bi_IsProofOfStake i then
               match cs_mapProofOfStake s !! hash with
               | Some proof => Ok (set_flags (bi_nFlags i) (bi_nStakeModifier i) (bi_nStakeModifierChecksum i) proof i)
               | None => Reject 0
               end
             else Ok i) in
  match ComputeNextStakeModifier sp m i chain with
  | None => Reject 0
  | Some (nStakeModifier, fGeneratedStakeModifier) =>
      let i := SetStakeModifier nStakeModifier fGeneratedStakeModifier i in
      let! _ := (if bool_decide (is_Some prev) || bool_decide (hash = Locator.genesis (fTestNet (e_net ev))) then Ok tt else Aborts) in
      let nChecksum := GetStakeModifierChecksum prev i in
      let i := set_flags (bi_nFlags i) (bi_nStakeModifier i) nChecksum (bi_hashProofOfStake i) i in
      let! _ := reject_if (negb (CheckStakeModifierCheckpoints sp (bi_nHeight i) nChecksum)) 0 in
      Ok i
  end.

Definition AddToBlockIndex (b : CBlock) (nFile nBlockPos : Z) : CM unit :=
  let hash := block_hash b in
  do! s := mget in
  do! _ := lift (reject_if (bool_decide (is_Some (cs_index s !! hash))) 0) in
  do! i := lift (new_entry b nFile nBlockPos s) in
  do! _ := modify (upd_index (<[hash := i]>)) in
  do! _ := (if bi_IsProofOfStake i then modify (upd_seen (bi_prevoutStake i, bi_nStakeTime i)) else mret tt) in
  do! _ := modify (fun s => upd_db (Reopen (cs_db s)) s) in
  do! _ := require (db_op TxnBegin) in
  do! _ := db_op (fun d => WriteBlockIndex d (CDiskBlockIndex_new i)) in
  do! _ := require (db_op TxnCommit) in
  if bi_nChainTrust i >? nBestChainTrust (cs_best s) then SetBestChain b hash else mret tt.

End chain.

(** ** The database of the program *)

Definition write_invalid_trust `{MPI} (db : LevelDB.CLevelDB) (t : Z) : option (bool * LevelDB.CLevelDB) :=
  LevelDB.Write (LevelDB.name_key "bnBestInvalidTrust"%string) (put byte_vector (reverse (drop 4 (BN_bn2mpi t)))) true db.
#[global] Instance CTxDB_chain `{MPI} : ChainDB LevelDB.CLevelDB := {
  TxnBegin := LevelDB.TxnBegin;
  TxnCommit := LevelDB.TxnCommit;
  TxnAbort := LevelDB.TxnAbort;
  Reopen := LevelDB.Close;
  ReadHashBestChain := LevelDB.ReadHashBestChain;
  WriteSyncCheckpoint db h := LevelDB.WriteSyncCheckpoint h db;
  WriteBestInvalidTrust := write_invalid_trust
}.
End BestChain.
