(* ===== verification/BestChainLinks.v ===== *)
(** * BestChainLinks: the links of the main chain

    The entries of the main chain are linked by [pnext]; a new tip and a reorganization move the links so that they follow the new
    chain. The proofs are about the index alone. *)
From S2P Require Import Prelude ScriptNum Script Serialize Crypto Transaction Merkle Uint256 BlockData LevelDB.
From S2P Require Import Keys SigCheck Interpreter Solver Inputs Difficulty BlockFile ChainIndex Kernel Block Mempool BestChain.
Import Tx BlockData ChainIndex BestChain.

Module BestChainLinks.

(** ** The shape of an index *)

(** What places an entry in the tree with its trust, and its link *)
Definition place (b : CBlockIndex) : option uint256 * option uint256 * Z * Z := (bi_phashBlock b, bi_pprev b, bi_nHeight b, bi_nChainTrust b).
Definition same_tree (m m' : BlockMap) : Prop := forall h, place <$> m !! h = place <$> m' !! h.
Definition pnext_of (m : BlockMap) (h : uint256) : option uint256 := b ← m !! h; bi_pnext b.
Definition same_links (m m' : BlockMap) : Prop := same_tree m m' /\ forall h, pnext_of m h = pnext_of m' h.

(** ... and the same entries, but for the amounts that [ConnectBlock] writes to them *)
Definition but_money (b : CBlockIndex) : CBlockIndex := set_money 0 0 b.
Definition same_entries (m m' : BlockMap) : Prop := forall h, but_money <$> m !! h = but_money <$> m' !! h.

#[export] Instance same_entries_equiv : Equivalence same_entries.
Proof. split; [by intros m h|by intros m m' H h|intros m1 m2 m3 H1 H2 h; by rewrite H1]. Qed.
#[export] Instance same_tree_equiv : Equivalence same_tree.
Proof. split; [by intros m h|by intros m m' H h|intros m1 m2 m3 H1 H2 h; by rewrite H1]. Qed.
#[export] Instance same_links_equiv : Equivalence same_links.
Proof.
  split; [by intros m|intros m m' [H1 H2]; split; [by symmetry|done]|].
  intros m1 m2 m3 [H1 H2] [H3 H4]. split; [by transitivity m2|]. intros h. by rewrite H2.
Qed.

Lemma same_entries_links m m' : same_entries m m' -> same_links m m'.
Proof.
  intros Hm. assert (forall {A} (f : CBlockIndex -> A) h, (forall b, f (but_money b) = f b) -> f <$> m !! h = f <$> m' !! h) as Hf.
  { intros A f h He. specialize (Hm h). destruct (m !! h) as [b|], (m' !! h) as [b'|]; try done. apply (inj Some) in Hm. cbn.
    by rewrite <-(He b), <-(He b'), Hm. }
  split; [intros h; by apply Hf|]. intros h. unfold pnext_of. specialize (Hf _ bi_pnext h (fun _ => eq_refl)).
  destruct (m !! h), (m' !! h); cbn in *; congruence.
Qed.

Lemma same_tree_lookup m m' h b : same_tree m m' -> m !! h = Some b -> exists b', m' !! h = Some b' /\ place b = place b'.
Proof. intros Ht Hb. specialize (Ht h). rewrite Hb in Ht. symmetry in Ht. apply fmap_Some in Ht as (b' & ? & ?). by exists b'. Qed.

Lemma same_tree_wf m m' : same_tree m m' -> index_wf m -> index_wf m'.
Proof.
  intros Ht Hwf. symmetry in Ht. split; intros h b.
  - intros Hb. destruct (same_tree_lookup _ _ h b Ht Hb) as (b' & Hb' & [= E1 E2 E3 _]). rewrite E1. by apply (iw_hash m Hwf).
  - intros p Hb Hp. destruct (same_tree_lookup _ _ h b Ht Hb) as (b' & Hb' & [= E1 E2 E3 _]). rewrite E2 in Hp.
    destruct (iw_prev m Hwf h b' p Hb' Hp) as (q & Hq & Hh). symmetry in Ht.
    destruct (same_tree_lookup _ _ p q Ht Hq) as (q' & Hq' & [= F1 F2 F3 _]). exists q'. split; [done|]. congruence.
  - intros Hb Hp. destruct (same_tree_lookup _ _ h b Ht Hb) as (b' & Hb' & [= E1 E2 E3 _]). rewrite E2 in Hp. rewrite E3. by apply (iw_genesis m Hwf h).
  - intros Hb. destruct (same_tree_lookup _ _ h b Ht Hb) as (b' & Hb' & [= E1 E2 E3 _]). rewrite E3. by apply (iw_height m Hwf h).
Qed.

(** The hashes of the chain that ends in an entry *)
Definition hashes (m : BlockMap) (h : uint256) : list uint256 := GetBlockHash <$> chain_to m h.

Lemma pprev_of_tree m m' h : same_tree m m' -> pprev_of m h = pprev_of m' h.
Proof. intros Ht. specialize (Ht h). unfold pprev_of. destruct (m !! h), (m' !! h); try done. by injection Ht. Qed.

Section wf.
Variable m : BlockMap.
Hypothesis Hwf : index_wf m.

Lemma get_pprev_of h b : m !! h = Some b -> get_pprev m b = p ← pprev_of m h; m !! p.
Proof. intros Hb. unfold get_pprev, pprev_of. by rewrite Hb. Qed.

Lemma hash_of h b : m !! h = Some b -> GetBlockHash b = h.
Proof. intros Hb. unfold GetBlockHash. by rewrite (iw_hash m Hwf h b Hb). Qed.

Lemma hashes_cons h b : m !! h = Some b -> hashes m h = h :: match pprev_of m h with Some p => hashes m p | None => [] end.
Proof.
  intros Hb. unfold hashes, chain_to. rewrite Hb, (chain_of_cons m Hwf h b Hb). cbn [fmap list_fmap]. rewrite (hash_of h b Hb). f_equal.
  rewrite (get_pprev_of h b Hb). destruct (pprev_of m h) as [p|]; [|done]. cbn [mbind option_bind]. by destruct (m !! p).
Qed.

Lemma hashes_in h n : n ∈ hashes m h -> exists b, m !! n = Some b.
Proof.
  unfold hashes, chain_to. destruct (m !! h) as [b|] eqn:Hb; [|by intros ?%not_elem_of_nil].
  intros (b' & -> & [i Hi]%list_elem_of_lookup)%list_elem_of_fmap. apply (chain_of_spec m Hwf h b Hb) in Hi as [_ ?]. by exists b'.
Qed.

Lemma hashes_self h b : m !! h = Some b -> h ∈ hashes m h.
Proof. intros Hb. rewrite (hashes_cons h b Hb). by left. Qed.

Lemma hashes_nodup h : NoDup (hashes m h).
Proof. unfold hashes, chain_to. destruct (m !! h) as [b|] eqn:Hb; [by apply (chain_of_nodup m Hwf h b)|constructor]. Qed.

(** On a chain an entry is determined by its predecessor. *)
Lemma same_pprev h n n' p : n ∈ hashes m h -> n' ∈ hashes m h -> pprev_of m n = Some p -> pprev_of m n' = Some p -> n = n'.
Proof.
  unfold hashes, chain_to, pprev_of. destruct (m !! h) as [b|] eqn:Hb; [|by intros ?%not_elem_of_nil].
  intros (b1 & -> & [i Hi]%list_elem_of_lookup)%list_elem_of_fmap (b2 & -> & [j Hj]%list_elem_of_lookup)%list_elem_of_fmap.
  pose proof (chain_of_spec m Hwf h b Hb) as [_ Hs]. pose proof (Hs i b1 Hi) as [H1 M1]. pose proof (Hs j b2 Hj) as [H2 M2].
  rewrite M1, M2. cbn [mbind option_bind]. intros P1 P2.
  destruct (iw_prev m Hwf _ _ _ M1 P1) as (q & Q1 & Hq1). destruct (iw_prev m Hwf _ _ _ M2 P2) as (q' & Q2 & Hq2).
  assert (q' = q) as -> by congruence. assert (i = j) as -> by lia. congruence.
Qed.

(** A predecessor on the chain of [h] is not [h] itself, and is on the chain. *)
Lemma pprev_in h n p : n ∈ hashes m h -> pprev_of m n = Some p -> p ∈ hashes m h /\ p <> h.
Proof.
  unfold hashes, chain_to, pprev_of. destruct (m !! h) as [b|] eqn:Hb; [|by intros ?%not_elem_of_nil].
  intros (b1 & -> & [i Hi]%list_elem_of_lookup)%list_elem_of_fmap. destruct (chain_of_spec m Hwf h b Hb) as [Hlen Hs].
  pose proof (Hs i b1 Hi) as [H1 M1]. rewrite M1. cbn [mbind option_bind]. intros P1. destruct (iw_prev m Hwf _ _ _ M1 P1) as (q & Q1 & Hq1).
  pose proof (iw_height m Hwf _ _ Q1). split.
  - destruct (lookup_lt_is_Some_2 (chain_of m b) (S i)) as [q' Hq']; [lia|]. rewrite <-(hash_of p q Q1).
    apply list_elem_of_fmap. exists q. split; [done|]. apply list_elem_of_lookup. exists (S i). rewrite Hq'. f_equal.
    pose proof (chain_of_drop m Hwf h b i b1 Hb Hi) as Hd. rewrite (chain_of_cons m Hwf _ b1 M1) in Hd.
    assert (get_pprev m b1 = Some q) as Hg by (unfold get_pprev; by rewrite P1). rewrite Hg, (chain_of_cons m Hwf p q Q1) in Hd.
    pose proof (f_equal (fun l => l !! 1%nat) Hd) as Hd1. cbn beta in Hd1. rewrite lookup_drop in Hd1. replace (i + 1)%nat with (S i) in Hd1 by lia.
    rewrite Hq' in Hd1. by injection Hd1.
  - intros ->. assert (q = b) by congruence. subst. lia.
Qed.
End wf.

Lemma hashes_tree m m' h : index_wf m -> same_tree m m' -> hashes m h = hashes m' h.
Proof.
  intros Hwf Ht. pose proof (same_tree_wf m m' Ht Hwf) as Hwf'.
  destruct (m !! h) as [b|] eqn:Hb.
  2: { unfold hashes, chain_to. specialize (Ht h). rewrite Hb in Ht |- *. destruct (m' !! h); [discriminate|done]. }
  remember (Z.to_nat (bi_nHeight b)) as n eqn:En. revert h b Hb En. induction n as [|n IH]; intros h b Hb En.
  all: destruct (same_tree_lookup m m' h b Ht Hb) as (b' & Hb' & Hpl).
  all: rewrite (hashes_cons m Hwf h b Hb), (hashes_cons m' Hwf' h b' Hb'), <-(pprev_of_tree m m' h Ht); f_equal.
  all: destruct (pprev_of m h) as [p|] eqn:Ep; [|done]; unfold pprev_of in Ep; rewrite Hb in Ep; cbn in Ep.
  all: destruct (iw_prev m Hwf h b p Hb Ep) as (q & Hq & Hh); pose proof (iw_height m Hwf _ _ Hq).
  - lia.
  - apply (IH p q Hq). lia.
Qed.

(** ** The main chain *)

(** The links follow the chain that ends in [tip]: an entry links to another one exactly if that is on the chain and has it as
    predecessor. *)
Definition main_chain (m : BlockMap) (tip : uint256) : Prop :=
  forall h n, pnext_of m h = Some n <-> n ∈ hashes m tip /\ pprev_of m n = Some h.

(** What [IsInMainChain] says, for the tip as best block *)
Lemma main_chain_spec m tip h b : index_wf m -> main_chain m tip -> is_Some (m !! tip) -> m !! h = Some b ->
  IsInMainChain (Some tip) b = true <-> h ∈ hashes m tip.
Proof.
  intros Hwf Hm [t Ht] Hb. unfold IsInMainChain. rewrite (hash_of m Hwf h b Hb), orb_true_iff, !bool_decide_eq_true.
  assert (bi_pnext b = pnext_of m h) as -> by (unfold pnext_of; by rewrite Hb). split.
  - intros [[n Hn]|[= <-]]; [|by apply (hashes_self m Hwf tip t)]. apply Hm in Hn as [Hin Hp].
    by apply (pprev_in m Hwf tip n h).
  - intros Hin. destruct (decide (h = tip)) as [->|Hne]; [by right|left].
    revert Hin. rewrite (hashes_cons m Hwf tip t Ht). intros [->|Hin]%elem_of_cons; [done|].
    destruct (pprev_of m tip) as [p|] eqn:Ep; [|by apply not_elem_of_nil in Hin].
    assert (exists n, n ∈ hashes m tip /\ pprev_of m n = Some h) as (n & Hn & Hp); [|exists n; by apply Hm].
    assert (forall k x, m !! x = Some k -> h ∈ hashes m x -> h <> x -> exists n, n ∈ hashes m x /\ pprev_of m n = Some h) as Hfind.
    { clear -Hwf. intros k x. remember (Z.to_nat (bi_nHeight k)) as l eqn:El. revert k x El. induction l as [|l IH]; intros k x El Hk Hin Hne.
      all: rewrite (hashes_cons m Hwf x k Hk) in Hin |- *; apply elem_of_cons in Hin as [->|Hin]; [done|].
      all: destruct (pprev_of m x) as [p|] eqn:Ep; [|by apply not_elem_of_nil in Hin].
      all: assert (bi_pprev k = Some p) as Hkp by (unfold pprev_of in Ep; by rewrite Hk in Ep).
      all: destruct (iw_prev m Hwf x k p Hk Hkp) as (q & Hq & Hh); pose proof (iw_height m Hwf _ _ Hq).
      1: lia.
      destruct (decide (h = p)) as [->|Hp]; [exists x; split; [by left|done]|].
      destruct (IH q p ltac:(lia) Hq Hin Hp) as (n & Hn & Hnp). exists n. split; [by right|done]. }
    apply (Hfind t tip Ht); [|done]. rewrite (hashes_cons m Hwf tip t Ht), Ep. by right.
Qed.

Lemma set_next_tree p n m : same_tree m (set_next p n m).
Proof.
  destruct p as [p|]; [|done]. intros h. cbn [set_next]. destruct (decide (p = h)) as [->|Hne].
  - rewrite lookup_alter_eq. destruct (m !! h); reflexivity.
  - by rewrite lookup_alter_ne.
Qed.

Lemma set_next_pnext p n m h : pnext_of (set_next (Some p) n m) h = if decide (h = p /\ is_Some (m !! p)) then n else pnext_of m h.
Proof.
  unfold pnext_of. cbn [set_next]. destruct (decide (p = h)) as [->|Hne].
  - rewrite lookup_alter_eq. destruct (m !! h) as [b|] eqn:E; cbn; [rewrite decide_True by (split; [done|by eexists]); done|].
    rewrite decide_False; [done|]. by intros [_ [? ?]].
  - rewrite lookup_alter_ne by done. rewrite decide_False; [done|]. by intros [-> _].
Qed.

Lemma find_app {A} (p : A -> bool) l k : List.find p (l ++ k) = match List.find p l with Some x => Some x | None => List.find p k end.
Proof. induction l as [|x l IH]; [done|]. cbn. by destruct (p x). Qed.

(** A fold of links or of removals, over entries of [vs] with predecessors in the index *)
Section fold.
Variables (m : BlockMap) (step : BlockMap -> uint256 -> BlockMap) (value : uint256 -> option uint256).
Hypothesis step_eq : forall m v, step m v = set_next (pprev_of m v) (value v) m.

Lemma fold_step_tree vs m' : same_tree m m' -> same_tree m (fold_left step vs m').
Proof.
  revert m'. induction vs as [|v vs IH]; intros m' Ht; [done|]. cbn. apply IH. rewrite step_eq.
  transitivity m'; [done|apply set_next_tree].
Qed.

Lemma fold_step_pnext vs m' h : index_wf m -> same_tree m m' ->
  pnext_of (fold_left step vs m') h
  = match List.find (fun v => bool_decide (pprev_of m v = Some h)) (reverse vs) with Some v => value v | None => pnext_of m' h end.
Proof.
  intros Hwf. revert m'. induction vs as [|v vs IH]; intros m' Ht; [done|]. cbn [fold_left].
  assert (same_tree m (step m' v)) as Ht' by (rewrite step_eq; transitivity m'; [done|apply set_next_tree]).
  rewrite IH by done. rewrite reverse_cons, find_app. destruct (List.find _ (reverse vs)); [done|]. cbn [List.find].
  rewrite step_eq, <-(pprev_of_tree m m' v Ht). destruct (pprev_of m v) as [p|] eqn:Ep; [|by rewrite bool_decide_false].
  rewrite set_next_pnext. destruct (decide (p = h)) as [->|Hne].
  - rewrite bool_decide_true by done. rewrite decide_True; [done|]. split; [done|].
    unfold pprev_of in Ep. destruct (m !! v) as [b|] eqn:Hb; [|done]. destruct (iw_prev m Hwf v b h Hb Ep) as (q & Hq & _).
    destruct (same_tree_lookup m m' h q Ht Hq) as (q' & -> & _). by eexists.
  - rewrite bool_decide_false by congruence. rewrite decide_False; [done|]. by intros [-> _].
Qed.
End fold.

(** ** Moving the links *)

Lemma find_fork_in fork longer f : find_fork fork longer = Some f -> f ∈ fork /\ GetBlockHash f ∈ GetBlockHash <$> longer.
Proof.
  revert longer. induction fork as [|a fork IH]; intros [|b longer]; cbn [find_fork]; [done..|].
  assert (forall h (l : list CBlockIndex), down_to h l `sublist_of` l) as Hsub.
  { intros h l. induction l as [|x l IHl]; [done|]. cbn [down_to]. destruct (_ >? _); [by apply sublist_cons|done]. }
  assert (forall x y, same_entry x y = true -> GetBlockHash x = GetBlockHash y) as Hsame by (unfold same_entry; by intros x y ?%bool_decide_eq_true).
  destruct (same_entry a b) eqn:E1; [intros [= <-]; split; [by left|]; rewrite (Hsame _ _ E1); by left|].
  pose proof (Hsub (bi_nHeight a) (b :: longer)) as Hs. destruct (down_to (bi_nHeight a) (b :: longer)) as [|c l] eqn:Ed; [done|].
  assert (forall x, x ∈ GetBlockHash <$> (c :: l) -> x ∈ GetBlockHash <$> (b :: longer)) as Hin.
  { intros x (y & -> & Hy)%list_elem_of_fmap. apply list_elem_of_fmap. exists y. split; [done|]. by eapply elem_of_sublist. }
  destruct (same_entry a c) eqn:E2; [intros [= <-]; split; [by left|]; apply Hin; rewrite (Hsame _ _ E2); by left|].
  intros [H1 H2]%IH. split; [by right|by apply Hin].
Qed.

(** The chain splits at the fork. *)
Lemma before_fork_split m h f : index_wf m -> f ∈ chain_to m h -> hashes m h = before_fork f (chain_to m h) ++ hashes m (GetBlockHash f).
Proof.
  intros Hwf. unfold hashes, chain_to. destruct (m !! h) as [b|] eqn:Hb; [|by intros ?%not_elem_of_nil].
  remember (Z.to_nat (bi_nHeight b)) as n eqn:En. revert h b Hb En. induction n as [|n IH]; intros h b Hb En Hf.
  all: assert (m !! GetBlockHash b = Some b) as Hself by by rewrite (hash_of m Hwf h b Hb).
  all: assert (f = b \/ f <> b /\ GetBlockHash f <> GetBlockHash b /\ m !! GetBlockHash f = Some f) as [->|(Hne & Hneh & Hmf)]
    by (pose proof Hf as [i Hi]%list_elem_of_lookup; apply (chain_of_spec m Hwf h b Hb) in Hi as [_ Hmf];
        destruct (decide (f = b)) as [->|]; [by left|right; split_and!; [done|congruence|done]]).
  1, 3: rewrite (chain_of_cons m Hwf h b Hb) at 2; cbn [before_fork]; unfold same_entry; rewrite bool_decide_true by done;
    cbn [app]; by rewrite Hself.
  all: rewrite (chain_of_cons m Hwf h b Hb) in Hf |- *; cbn [before_fork fmap list_fmap]; unfold same_entry at 1;
    rewrite bool_decide_false by congruence; cbn [app]; f_equal; apply elem_of_cons in Hf as [?|Hf]; [done|].
  all: destruct (get_pprev m b) as [q|] eqn:Eq; [|by apply not_elem_of_nil in Hf].
  all: destruct (get_pprev_wf m Hwf h b q Hb Eq) as (_ & Hq & Hh); pose proof (iw_height m Hwf _ _ Hq).
  - lia.
  - apply (IH (GetBlockHash q) q Hq); [lia|done].
Qed.

(** The link that a new tip adds *)
Lemma extend_main_chain m tip new : index_wf m -> is_Some (m !! tip) -> main_chain m tip -> pprev_of m new = Some tip ->
  main_chain (set_next (Some tip) (Some new) m) new.
Proof.
  intros Hwf [t Ht] Hm Hp h n. set (m' := set_next (Some tip) (Some new) m).
  assert (same_tree m m') as Htree by apply set_next_tree. rewrite <-(hashes_tree m m' new Hwf Htree), <-(pprev_of_tree m m' n Htree).
  unfold m'. rewrite set_next_pnext. assert (is_Some (m !! new)) as [b Hb] by (unfold pprev_of in Hp; destruct (m !! new); [by eexists|done]).
  rewrite (hashes_cons m Hwf new b Hb), Hp. destruct (decide _) as [[-> _]|Hne].
  - split; [intros [= <-]; split; [by left|done]|]. intros [[->|Hin]%elem_of_cons Hpn]; [done|].
    by destruct (pprev_in m Hwf tip n tip Hin Hpn) as [_ ?].
  - rewrite (Hm h n). split; intros [Hin Hpn]; (split; [|done]); [by right|]. apply elem_of_cons in Hin as [->|?]; [|done].
    destruct Hne. split; [congruence|by eexists].
Qed.

(** The links that a reorganization moves *)
Lemma reorganize_main_chain m old new a b f : index_wf m -> m !! old = Some a -> m !! new = Some b -> main_chain m old ->
  find_fork (chain_of m a) (chain_of m b) = Some f ->
  let vDisconnect := before_fork f (chain_of m a) in
  let vConnect := reverse (before_fork f (chain_of m b)) in
  main_chain (fold_left link vConnect (fold_left unlink vDisconnect m)) new.
Proof.
  intros Hwf Ha Hb Hm [Hfa Hfb]%find_fork_in vD vC h n.
  assert (f ∈ chain_of m b) as Hfb'.
  { apply list_elem_of_fmap in Hfb as (f' & E & Hf'). pose proof Hfa as [i Hi]%list_elem_of_lookup. pose proof Hf' as [j Hj]%list_elem_of_lookup.
    apply (chain_of_spec m Hwf old a Ha) in Hi as [_ Hi]. apply (chain_of_spec m Hwf new b Hb) in Hj as [_ Hj].
    assert (f' = f) as -> by congruence. done. }
  assert (hashes m old = vD ++ hashes m (GetBlockHash f)) as Hold.
  { unfold vD. pose proof (before_fork_split m old f Hwf) as H. unfold chain_to in H. rewrite Ha in H. by apply H. }
  assert (hashes m new = reverse vC ++ hashes m (GetBlockHash f)) as Hnew.
  { unfold vC. rewrite reverse_involutive. pose proof (before_fork_split m new f Hwf) as H. unfold chain_to in H. rewrite Hb in H. by apply H. }
  set (m1 := fold_left unlink vD m). set (m2 := fold_left link vC m1).
  assert (same_tree m m1) as Ht1 by (apply (fold_step_tree m unlink (fun _ => None)); done).
  assert (same_tree m m2) as Ht2 by (apply (fold_step_tree m link Some); done).
  rewrite <-(hashes_tree m m2 new Hwf Ht2), <-(pprev_of_tree m m2 n Ht2). unfold m2, m1.
  rewrite (fold_step_pnext m link Some) by done. rewrite (fold_step_pnext m unlink (fun _ => None)) by done.
  pose proof (hashes_nodup m Hwf old) as Ndo. pose proof (hashes_nodup m Hwf new) as Ndn. rewrite Hold in Ndo. rewrite Hnew in Ndn.
  apply NoDup_app in Ndo as (_ & Ndo & _). apply NoDup_app in Ndn as (_ & Ndn & _).
  destruct (List.find _ (reverse vC)) as [v|] eqn:Ec.
  - apply find_some in Ec as [Hv%list_elem_of_In Hpv%bool_decide_eq_true].
    assert (v ∈ hashes m new) as Hvn by (rewrite Hnew; apply elem_of_app; by left). split; [by intros [= <-]|]. intros [Hn Hpn].
    f_equal. by apply (same_pprev m Hwf new v n h).
  - pose proof (find_none _ _ Ec) as Hnone. rewrite Hnew.
    assert (forall x, x ∈ reverse vC -> pprev_of m x <> Some h) as Hc.
    { intros x Hx Hpx. specialize (Hnone x (proj1 (list_elem_of_In _ _) Hx)). cbn beta in Hnone. by rewrite bool_decide_true in Hnone. }
    assert (forall x, x ∈ hashes m (GetBlockHash f) -> x ∈ hashes m old) as Hfo by (intros x Hx; rewrite Hold; apply elem_of_app; by right).
    destruct (List.find _ (reverse vD)) as [v|] eqn:Ed.
    + apply find_some in Ed as [Hv%list_elem_of_In Hpv%bool_decide_eq_true]. rewrite elem_of_reverse in Hv.
      split; [done|]. intros [[Hn|Hn]%elem_of_app Hpn]; [by apply Hc in Hpn|].
      assert (v ∈ hashes m old) as Hvo by (rewrite Hold; apply elem_of_app; by left).
      assert (n = v) as -> by (apply (same_pprev m Hwf old n v h); auto). by apply Ndo in Hv.
    + pose proof (find_none _ _ Ed) as HnoneD. rewrite (Hm h n), Hold, !elem_of_app. split; intros [[Hn|Hn] Hpn].
      * specialize (HnoneD n). rewrite <-list_elem_of_In, elem_of_reverse in HnoneD. specialize (HnoneD Hn). cbn beta in HnoneD.
        by rewrite bool_decide_true in HnoneD.
      * split; [by right|done].
      * by apply Hc in Hpn.
      * split; [by right|done].
Qed.

(** A decidable form for concrete indexes *)
Definition links_ok (m : BlockMap) (tip : uint256) : bool :=
  forallb (fun e => match bi_pnext e.2 with
                    | Some n => bool_decide (n ∈ hashes m tip) && bool_decide (pprev_of m n = Some e.1)
                    | None => true
                    end) (map_to_list m)
  && forallb (fun n => match pprev_of m n with Some h => bool_decide (pnext_of m h = Some n) | None => true end) (hashes m tip).
Lemma main_chain_check m tip : links_ok m tip = true -> main_chain m tip.
Proof.
  intros [H1 H2]%andb_true_iff h n. rewrite forallb_forall in H1, H2. split.
  - unfold pnext_of. destruct (m !! h) as [b|] eqn:Hb; [|done]. cbn. intros Hn.
    specialize (H1 (h, b) ltac:(by apply list_elem_of_In, elem_of_map_to_list)). cbn in H1. rewrite Hn in H1.
    by apply andb_true_iff in H1 as [?%bool_decide_eq_true ?%bool_decide_eq_true].
  - intros [Hn Hp]. apply list_elem_of_In, H2 in Hn. rewrite Hp in Hn. by apply bool_decide_eq_true in Hn.
Qed.

End BestChainLinks.
