(* ===== verification/BestChainProps.v ===== *)
(** * BestChainProps: what becoming the best chain does and does not change

    A block that cannot be connected leaves the chain, the links, the memory pool and the database as they were; a block that becomes
    the tip leaves links and a database that follow the chain that was connected. *)
From stdpp Require Import strings.
From S2P Require Import Prelude ScriptNum Script Serialize Crypto Transaction Merkle Uint256 BlockData LevelDB.
From S2P Require Import Keys SigCheck Interpreter Solver Inputs Difficulty BlockFile ChainIndex Kernel Block BlockProps InputsProps Mempool BestChain.
From S2P Require Import BestChainLinks.
Import Tx BlockData Script_param Inputs Difficulty ChainIndex Block BlockProps BestChain BestChainLinks.
Open Scope block_scope.

(** ** The database

    [db_ok] databases do not assert; [opened] holds while a transaction is open; [disk_of] is what a transaction that is aborted
    leaves. *)
Definition same_reads {D} `{!TxDB D, !ChainDB D} (d d' : D) : Prop :=
  (forall h, ReadTxIndex d h = ReadTxIndex d' h) /\ ReadHashBestChain d = ReadHashBestChain d'.

Class ChainDBLaws (D : Type) `{!TxDB D, !BlockDB D, !ChainDB D} (db_ok opened : D -> Prop) {X : Type} (disk_of : D -> X) : Prop := {
  begin_ok d : db_ok d -> ~ opened d ->
    exists d', TxnBegin d = Some (true, d') /\ db_ok d' /\ opened d' /\ disk_of d' = disk_of d /\ same_reads d d';
  commit_ok d : db_ok d -> opened d -> exists d', TxnCommit d = Some (true, d') /\ db_ok d' /\ ~ opened d' /\ same_reads d d';
  abort_ok d : db_ok d -> exists d', TxnAbort d = Some (true, d') /\ db_ok d' /\ ~ opened d' /\ disk_of d' = disk_of d;
  idle_reads d d' : db_ok d -> db_ok d' -> ~ opened d -> ~ opened d' -> disk_of d = disk_of d' -> same_reads d d';
  update_keeps d h t r d' : db_ok d -> opened d -> UpdateTxIndex d h t = Some (r, d') -> db_ok d' /\ opened d' /\ disk_of d' = disk_of d;
  erase_keeps d h r d' : db_ok d -> opened d -> EraseTxIndex d h = Some (r, d') -> db_ok d' /\ opened d' /\ disk_of d' = disk_of d;
  entry_keeps d i r d' : db_ok d -> opened d -> WriteBlockIndex d i = Some (r, d') ->
    db_ok d' /\ opened d' /\ disk_of d' = disk_of d /\ same_reads d d';
  best_keeps d h r d' : db_ok d -> opened d -> WriteHashBestChain d h = Some (r, d') ->
    db_ok d' /\ opened d' /\ disk_of d' = disk_of d /\ (zlen h = 32 -> ReadHashBestChain d' = Some (Some h));
  trust_reads d t r d' : db_ok d -> ~ opened d -> WriteBestInvalidTrust d t = Some (r, d') -> db_ok d' /\ ~ opened d' /\ same_reads d d';
  reopen_ok d : db_ok d -> db_ok (Reopen d) /\ ~ opened (Reopen d) /\ disk_of (Reopen d) = disk_of d
}.

Module BestChainProps.

#[export] Instance same_reads_equiv {D} `{!TxDB D, !ChainDB D} : Equivalence (same_reads (D := D)).
Proof.
  split; [by intros d|intros d d' [H1 H2]; split; [by intros h; rewrite H1|done]|].
  intros d1 d2 d3 [H1 H2] [H3 H4]. split; [intros h; by rewrite H1|by rewrite H2].
Qed.

(** ** Relations that computations preserve *)

Section preserves.
Context {S : Type} (R : S -> S -> Prop) `{!PreOrder R}.

(** Whatever the result, the state changes along [R]. *)
Definition preserves {A} (m : M S A) : Prop := forall s r s', m s = (r, s') -> R s s'.

Lemma preserves_ret {A} (a : A) : preserves (mret a).
Proof. by intros s r s' [= _ <-]. Qed.
Lemma preserves_lift {A} (r0 : res A) : preserves (lift r0).
Proof. by intros s r s' [= _ <-]. Qed.
Lemma preserves_get : preserves mget.
Proof. by intros s r s' [= _ <-]. Qed.
Lemma preserves_modify f : (forall s, R s (f s)) -> preserves (modify f).
Proof. by intros Hf s r s' [= _ <-]. Qed.
Lemma preserves_bind {A B} (m : M S A) (k : A -> M S B) : preserves m -> (forall a, preserves (k a)) -> preserves (M_bind m k).
Proof.
  intros Hm Hk s r s'. unfold M_bind. destruct (m s) as [[a|d| |] s1] eqn:E; apply Hm in E; [|by intros [= _ <-]..].
  intros Ek. apply Hk in Ek. by transitivity s1.
Qed.
Lemma preserves_mapM {A} (f : A -> M S unit) l : (forall a, preserves (f a)) -> preserves (mapM_ f l).
Proof. intros Hf. induction l as [|a l IH]; cbn [mapM_]; [apply preserves_ret|by apply preserves_bind]. Qed.
Lemma preserves_on_reject {A} (m : M S A) h : preserves m -> (forall d, preserves (h d)) -> preserves (on_reject m h).
Proof.
  intros Hm Hh s r s'. unfold on_reject. destruct (m s) as [[a|d| |] s1] eqn:E; apply Hm in E; try by intros [= _ <-].
  intros Ek. apply Hh in Ek. by transitivity s1.
Qed.
Lemma preserves_require (m : M S bool) : preserves m -> preserves (require m).
Proof. intros Hm. apply preserves_bind; [done|]. intros a. apply preserves_lift. Qed.
End preserves.

Ltac preserve := repeat lazymatch goal with
  | |- preserves _ (mret _) => apply preserves_ret; apply _
  | |- preserves _ (lift _) => apply preserves_lift; apply _
  | |- preserves _ mget => apply preserves_get; apply _
  | |- preserves _ (require _) => apply preserves_require; [apply _|]
  | |- preserves _ (M_bind _ _) => apply preserves_bind; [apply _| |intros ?]
  | |- preserves _ (mapM_ _ _) => apply preserves_mapM; [apply _|intros ?]
  | |- preserves _ (on_reject _ _) => apply preserves_on_reject; [apply _| |intros ?]
  end.

(** The two ways a sequence is rejected *)
Lemma bind_reject {S A B} (m : M S A) (k : A -> M S B) s d s' :
  M_bind m k s = (Reject d, s') <-> m s = (Reject d, s') \/ exists a s1, m s = (Ok a, s1) /\ k a s1 = (Reject d, s').
Proof.
  unfold M_bind. destruct (m s) as [[a|d'| |] s1]; split.
  - intros H. right. by exists a, s1.
  - by intros [?|(a' & s2 & [= <- <-] & ?)].
  - intros [= <- <-]. by left.
  - by intros [[= <- <-]|(a' & s2 & ? & ?)].
  - done.
  - by intros [?|(a' & s2 & ? & ?)].
  - done.
  - by intros [?|(a' & s2 & ? & ?)].
Qed.

Definition never_rejects {S A} (m : M S A) : Prop := forall s d s', m s <> (Reject d, s').
Lemma never_rejects_bind {S A B} (m : M S A) (k : A -> M S B) : never_rejects m -> (forall a, never_rejects (k a)) -> never_rejects (M_bind m k).
Proof. intros Hm Hk s d s' [H|(a & s1 & _ & H)]%bind_reject; [by apply Hm in H|by apply Hk in H]. Qed.
Lemma never_rejects_mapM {S A} (f : A -> M S unit) l : (forall a, never_rejects (f a)) -> never_rejects (mapM_ f l).
Proof. intros Hf. induction l as [|a l IH]; cbn [mapM_]; [done|by apply never_rejects_bind]. Qed.
Lemma never_rejects_or_abort {S A} (o : option A) : never_rejects (S := S) (lift (or_abort o)).
Proof. intros s d s'. by destruct o. Qed.

Section rejects.
Context {S : Type} (P : S -> Prop) (R : S -> S -> Prop) `{!PreOrder R}.
Hypothesis P_stable : forall s s', P s -> R s s' -> P s'.

(** From a state of [P], a rejection has changed the state along [R]. *)
Definition rejects_as {A} (m : M S A) : Prop := forall s d s', P s -> m s = (Reject d, s') -> R s s'.
Lemma rejects_as_bind {A B} (m : M S A) (k : A -> M S B) : preserves R m -> (forall a, rejects_as (k a)) -> rejects_as (M_bind m k).
Proof.
  intros Hm Hk s d s' HP [E|(a & s1 & E1 & E2)]%bind_reject; [by eapply Hm|]. apply Hm in E1. transitivity s1; [done|].
  eapply Hk; [|exact E2]. by eapply P_stable.
Qed.
Lemma rejects_as_never {A} (m : M S A) : never_rejects m -> rejects_as m.
Proof. intros Hm s d s' _ E. by apply Hm in E. Qed.
Lemma rejects_as_after {A B} (m : M S A) (k : A -> M S B) : rejects_as m -> (forall a, never_rejects (k a)) -> rejects_as (M_bind m k).
Proof. intros Hm Hk s d s' HP [E|(a & s1 & _ & E2)]%bind_reject; [by eapply Hm|by apply Hk in E2]. Qed.
End rejects.

Section props.
Context `{MPI} `{BlockHash}.
Context {D : Type} `{!TxDB D, !BlockDB D, !ChainDB D} {db_ok opened : D -> Prop} {X : Type} {disk_of : D -> X}
  `{!ChainDBLaws D db_ok opened disk_of}.
Context {C : Type} `{!SigChecker C}.
Variables RIPEMD160 SHA1 SHA256 : bytes -> bytes.
Variable Verify : bytes -> uint256 -> bytes -> bool.
Variable nd : node.
Variable ev : env.
Variable files : disk.
Variable fIsInitialDownload : bool.

Abbreviation chainstate := (chainstate D C).

(** ** Attempts

    Inside a transaction, the database on disk stays, and so does everything but the signature cache, the amounts of the index entries
    and what the wallets were told. *)
Definition keeps (d d' : D) : Prop := db_ok d -> opened d -> db_ok d' /\ opened d' /\ disk_of d' = disk_of d.
#[local] Instance keeps_pre : PreOrder keeps.
Proof.
  split; [by intros d|]. intros d1 d2 d3 H1 H2 Hok Ho. destruct (H1 Hok Ho) as (Hok2 & Ho2 & <-). by apply H2.
Qed.

Definition attempt_block (bs bs' : bstate (D := D) (C := C)) : Prop :=
  keeps (bs_db bs) (bs_db bs') /\ but_money (bs_index bs) = but_money (bs_index bs').
#[local] Instance attempt_block_pre : PreOrder attempt_block.
Proof. split; [by intros bs|]. intros b1 b2 b3 [H1 E1] [H2 E2]. split; [by transitivity (bs_db b2)|congruence]. Qed.

Lemma write_queued_keeps l d r d' : write_queued l d = (r, d') -> keeps d d'.
Proof.
  revert d. induction l as [|[h t] l IH]; intros d; cbn [write_queued]; [by intros [= _ <-]|].
  destruct (UpdateTxIndex d h t) as [[[] d1]|] eqn:E; [| |by intros [= _ <-]].
  - intros Hw%IH. transitivity d1; [|done]. intros Hok Ho. by apply (update_keeps d h t true d1).
  - intros [= _ <-] Hok Ho. by apply (update_keeps d h t false d1).
Qed.

Lemma unspend_keeps ins d r d' : unspend ins d = (r, d') -> keeps d d'.
Proof.
  revert d. induction ins as [|i ins IH]; intros d; cbn [unspend]; [by intros [= _ <-]|].
  destruct (ReadTxIndex d _) as [[t|]|]; [|by intros [= _ <-]..]. destruct (_ >=? _); [by intros [= _ <-]|].
  destruct (UpdateTxIndex d _ _) as [[[] d1]|] eqn:E; [| |by intros [= _ <-]].
  - intros Hw%IH. transitivity d1; [|done]. intros Hok Ho. by eapply update_keeps.
  - intros [= _ <-] Hok Ho. by eapply update_keeps.
Qed.

Lemma DisconnectInputs_keeps tx d r d' : DisconnectInputs d tx = (r, d') -> keeps d d'.
Proof.
  unfold DisconnectInputs. destruct (if negb (IsCoinBase tx) then unspend (vin tx) d else (Ok tt, d)) as [r1 d1] eqn:E.
  assert (keeps d d1) as Hk by (destruct (negb (IsCoinBase tx)); [by apply unspend_keeps in E|by injection E as _ <-]).
  destruct r1 as [u|n| |]; [|by intros [= _ <-]..]. destruct (GetHash tx) as [h|]; [|by intros [= _ <-]].
  destruct (EraseTxIndex d1 h) as [[ok d2]|] eqn:Ee; intros [= _ <-]; [|done]. transitivity d1; [done|].
  intros Hok Ho. by eapply erase_keeps.
Qed.

Lemma on_db_attempt {A} (f : D -> res A * D) : (forall d r d', f d = (r, d') -> keeps d d') -> preserves attempt_block (on_db f).
Proof. intros Hf bs r bs'. unfold on_db. destruct (f (bs_db bs)) as [r1 d1] eqn:E. intros [= _ <-]. split; [by eapply Hf|done]. Qed.

Lemma write_index_attempt i : preserves attempt_block (write_index i).
Proof.
  apply on_db_attempt. intros d r d'. destruct (WriteBlockIndex d i) as [[[] d1]|] eqn:E; intros [= _ <-] Hok Ho; try done;
    by eapply entry_keeps in E as (? & ? & ? & _).
Qed.

Lemma sync_attempt u c b : preserves attempt_block (SyncWithWallets u c b).
Proof. by intros bs r bs' [= _ <-]. Qed.

Lemma connect_txs_attempt ev' mempool b anc j fs n : preserves attempt_block (connect_txs RIPEMD160 SHA1 SHA256 nd ev' mempool b anc j fs n).
Proof.
  intros bs r bs'. unfold connect_txs. destruct (mapM_ _ _ _) as [r1 s1]. destruct (control_wait _ _ _ s1) as [[ok c]|]; [|by intros [= _ <-]].
  destruct r1; [destruct ok|..]; by intros [= _ <-].
Qed.

Lemma ConnectBlock_attempt ev' mempool b anc : preserves attempt_block (ConnectBlock RIPEMD160 SHA1 SHA256 Verify nd ev' mempool b anc false).
Proof.
  unfold ConnectBlock. preserve; try apply connect_txs_attempt; try apply write_index_attempt.
  - by intros bs r bs' [= _ <-].
  - apply on_db_attempt. intros d r d'. apply write_queued_keeps.
  - destruct anc; preserve. apply write_index_attempt.
  - apply sync_attempt.
Qed.

Lemma DisconnectBlock_attempt b anc : preserves attempt_block (DisconnectBlock b anc).
Proof.
  unfold DisconnectBlock. preserve.
  - apply on_db_attempt. intros d r d'. apply DisconnectInputs_keeps.
  - destruct anc; preserve. apply write_index_attempt.
  - apply sync_attempt.
Qed.

(** Everything of the state that an attempt leaves alone, apart from the index *)
Definition settled (s : chainstate) :=
  (cs_genesis s, cs_best s, cs_nTransactionsUpdated s, cs_pool s, cs_locators s, cs_obsolete s, cs_setStakeSeen s, cs_mapProofOfStake s).
Definition calm (s s' : chainstate) : Prop := same_entries (cs_index s) (cs_index s') /\ settled s = settled s'.
#[local] Instance calm_pre : PreOrder calm.
Proof. split; [by intros s|]. intros s1 s2 s3 [H1 E1] [H2 E2]. split; [by transitivity (cs_index s2)|congruence]. Qed.
Lemma calm_links s s' : calm s s' -> same_links (cs_index s) (cs_index s').
Proof. intros [Hm _]. by apply same_entries_links. Qed.
Definition attempt (s s' : chainstate) : Prop :=
  calm s s' /\ keeps (cs_db s) (cs_db s') /\ cs_nBestInvalidTrust s' = cs_nBestInvalidTrust s.
#[local] Instance attempt_pre : PreOrder attempt.
Proof.
  split; [by intros s|]. intros s1 s2 s3 (H1 & E1 & T1) (H2 & E2 & T2).
  split_and!; [by transitivity s2|by transitivity (cs_db s2)|congruence].
Qed.

Lemma preserves_weaken {S A} (R R' : S -> S -> Prop) (m : M S A) : (forall s s', R s s' -> R' s s') -> preserves R m -> preserves R' m.
Proof. intros HR Hm s r s' E. by eapply HR, Hm. Qed.

Lemma entry_preserves (R : chainstate -> chainstate -> Prop) `{!PreOrder R} h : preserves R (entry h).
Proof. unfold entry. preserve. Qed.

Lemma db_op_attempt (w : D -> option (bool * D)) : (forall d r d', w d = Some (r, d') -> keeps d d') -> preserves attempt (db_op (C := C) w).
Proof.
  intros Hw s r s'. unfold db_op. destruct (w (cs_db s)) as [[ok d]|] eqn:E; intros [= _ <-]; [|done]. split_and!; [done| |done]. by eapply Hw.
Qed.
Lemma write_best_attempt h : preserves attempt (db_op (C := C) (fun d => WriteHashBestChain d h)).
Proof. apply db_op_attempt. intros d r d' E Hok Ho. by eapply best_keeps in E as (? & ? & ? & _). Qed.

Lemma same_entries_insert m h i i' : m !! h = Some i -> but_money i = but_money i' -> same_entries m (<[h := i']> m).
Proof.
  intros Hm He h'. destruct (decide (h = h')) as [<-|Hne]; [by rewrite lookup_insert_eq, Hm; cbn; rewrite He|by rewrite lookup_insert_ne].
Qed.

Lemma with_block_attempt h f : (forall anc, preserves attempt_block (f anc)) -> preserves attempt (with_block h f).
Proof.
  intros Hf. unfold with_block. intros s r s' E.
  assert (forall i (s : chainstate), cs_index s !! h = Some i -> forall anc r bs, f anc (BState (cs_db s) i (cs_checker s) (cs_synced s)) = (r, bs) ->
    attempt s (upd_connected (<[h := bs_index bs]> (cs_index s)) (bs_db bs) (bs_checker bs) (bs_synced bs) s)) as Hstep.
  { intros i s0 Hi anc r0 bs [Hk Hl]%Hf. cbn in Hk, Hl. split_and!; [|exact Hk|done]. split; [|done]. by apply (same_entries_insert _ h i). }
  unfold M_bind at 1 in E. unfold entry, M_bind, mget, lift in E. destruct (cs_index s !! h) as [i|] eqn:Hi; cbn [or_abort] in E; [|by injection E as _ <-].
  destruct (f _ _) as [r1 bs] eqn:Ef. unfold modify in E. injection E as _ <-. by eapply Hstep.
Qed.

Lemma connect_attempt b h : preserves attempt (connect RIPEMD160 SHA1 SHA256 Verify nd ev b h).
Proof. unfold connect. preserve. apply with_block_attempt. intros anc. apply ConnectBlock_attempt. Qed.
Lemma disconnect_attempt b h : preserves attempt (disconnect b h).
Proof. apply with_block_attempt. intros anc. apply DisconnectBlock_attempt. Qed.
Lemma read_block_attempt h : preserves attempt (read_block ev files h).
Proof. unfold read_block. preserve. apply entry_preserves, _. Qed.

Lemma disconnect_branch_attempt l v : preserves attempt (disconnect_branch ev files l v).
Proof.
  revert v. induction l as [|h l IH]; intros v; cbn [disconnect_branch]; preserve; [apply read_block_attempt|apply disconnect_attempt|apply IH].
Qed.
Lemma connect_branch_attempt l v : preserves attempt (connect_branch RIPEMD160 SHA1 SHA256 Verify nd ev files l v).
Proof.
  revert v. induction l as [|h l IH]; intros v; cbn [connect_branch]; preserve; [apply read_block_attempt|apply connect_attempt|apply IH].
Qed.

(** ** The memory pool and the log *)

Lemma pool_remove_quiet tx (s s' : chainstate) r : pool_remove tx s = (r, s') -> cs_index s' = cs_index s /\ cs_db s' = cs_db s /\ cs_best s' = cs_best s
  /\ cs_genesis s' = cs_genesis s.
Proof. unfold pool_remove, M_bind, mget, lift. destruct (Mempool.remove tx (cs_pool s)); by intros [= _ <-]. Qed.
Lemma pool_remove_accepts tx : never_rejects (pool_remove (D := D) (C := C) tx).
Proof. apply never_rejects_bind; [done|]. intros s. apply never_rejects_bind; [apply never_rejects_or_abort|done]. Qed.
Lemma resurrect_quiet tx (s s' : chainstate) r : resurrect RIPEMD160 SHA1 SHA256 nd ev tx s = (r, s') ->
  cs_index s' = cs_index s /\ cs_db s' = cs_db s /\ cs_best s' = cs_best s /\ cs_genesis s' = cs_genesis s.
Proof. unfold resurrect. destruct (Mempool.AcceptToMemoryPool _ _ _ _ _ _ _ _ _ _ _ _ _) as [[[r1 b] p] c]. destruct r1; by intros [= _ <-]. Qed.
Lemma resurrect_accepts tx : never_rejects (resurrect RIPEMD160 SHA1 SHA256 nd ev tx : M chainstate unit).
Proof.
  intros s d s'. unfold resurrect. destruct (Mempool.AcceptToMemoryPool _ _ _ _ _ _ _ _ _ _ _ _ _) as [[[r1 b] p] c]. by destruct r1.
Qed.

(** ** Failure *)

(** A database between transactions *)
Definition idle (d : D) : Prop := db_ok d /\ ~ opened d.
Definition same_store (s s' : chainstate) : Prop := idle (cs_db s) -> idle (cs_db s') /\ same_reads (cs_db s) (cs_db s').
#[local] Instance same_store_pre : PreOrder same_store.
Proof.
  split; [by intros s|]. intros s1 s2 s3 H1 H2 Hi. destruct (H1 Hi) as [Hi2 Hr2]. destruct (H2 Hi2) as [Hi3 Hr3]. split; [done|by etransitivity].
Qed.
Definition unchanged (s s' : chainstate) : Prop := calm s s' /\ same_store s s'.
#[local] Instance unchanged_pre : PreOrder unchanged.
Proof. split; [by intros s|]. intros s1 s2 s3 [H1 E1] [H2 E2]. split; by etransitivity. Qed.

Lemma InvalidChainFound_unchanged h : preserves unchanged (InvalidChainFound (D := D) (C := C) h).
Proof.
  unfold InvalidChainFound, best_entry, log_trust. preserve; try apply entry_preserves, _.
  - destruct (_ >? _); preserve; [by apply preserves_modify|].
    intros s r s'. unfold db_op. destruct (WriteBestInvalidTrust (cs_db s) _) as [[ok d]|] eqn:E; intros [= _ <-]; [|done].
    split; [done|]. intros [Hok Ho]. destruct (trust_reads _ _ _ _ Hok Ho E) as (H1 & H2 & H3). done.
  - destruct (_ =? _); preserve.
Qed.

(** After an attempt the abort takes the database back. *)
Lemma abort_attempt s s1 s2 r : idle (cs_db s) -> attempt (upd_db (default (cs_db s) (snd <$> TxnBegin (cs_db s))) s) s1 ->
  db_op TxnAbort s1 = (r, s2) -> r = Ok true /\ calm s s2 /\ idle (cs_db s2) /\ disk_of (cs_db s2) = disk_of (cs_db s)
    /\ cs_nBestInvalidTrust s2 = cs_nBestInvalidTrust s.
Proof.
  intros [Hok Hno] (Hc & Hk & Ht). destruct (begin_ok (cs_db s) Hok Hno) as (d1 & Hb & Hok1 & Ho1 & Hd1 & _).
  rewrite Hb in Hk. cbn in Hk. destruct (Hk Hok1 Ho1) as (Hok2 & Ho2 & Hd2). unfold db_op.
  destruct (abort_ok (cs_db s1) Hok2) as (d3 & Ha & Hok3 & Hno3 & Hd3). rewrite Ha. intros [= <- <-]. cbn in Ht. split_and!; [done|exact Hc|by split|cbn; congruence|done].
Qed.

(** What [InvalidChainFound] writes to the database: the trust of the chain, when it is the highest of the refused ones *)
Definition trust_written (i : CBlockIndex) (best : Z) (d d' : D) : Prop :=
  if bi_nChainTrust i >? best then exists ok, WriteBestInvalidTrust d (bi_nChainTrust i) = Some (ok, d') else d' = d.
Lemma InvalidChainFound_ok h (s s' : chainstate) u : InvalidChainFound h s = (Ok u, s') ->
  exists i, cs_index s !! h = Some i /\ calm s s' /\ cs_nBestInvalidTrust s' = Z.max (cs_nBestInvalidTrust s) (bi_nChainTrust i)
    /\ trust_written i (cs_nBestInvalidTrust s) (cs_db s) (cs_db s').
Proof.
  unfold InvalidChainFound, trust_written. unfold entry at 1, M_bind at 1 2, mget at 1, lift at 1.
  destruct (cs_index s !! h) as [i|] eqn:Ei; [cbn [or_abort]|done]. intros E. exists i. split; [done|]. apply M_bind_ok in E as (x & s0 & E0 & E).
  injection E0 as <- <-.
  apply M_bind_ok in E as (x & s1 & E1 & E). assert (s' = s1) as ->.
  { apply M_bind_ok in E as (y & s2 & [_ ->]%lift_ok & E).
    assert (preserves eq (do! best := best_entry in log_trust (GetBlockHash best) : M chainstate unit)) as Hp.
    { unfold best_entry, log_trust. preserve; try apply entry_preserves, _. destruct (_ =? _); preserve. }
    by apply Hp in E. }
  destruct (_ >? _) eqn:Eg.
  - apply M_bind_ok in E1 as (y & s2 & [= _ <-] & E1). unfold M_bind, db_op in E1.
    destruct (WriteBestInvalidTrust _ _) as [[ok d]|] eqn:Ew; [|done]. injection E1 as _ <-. cbn in *.
    split_and!; [done|lia|by exists ok].
  - injection E1 as _ <-. split_and!; [done|lia|done].
Qed.

(** A chain that is refused: the abort takes the database back, and then the chain is reported. *)
Definition reported (h : uint256) (s s' : chainstate) : Prop :=
  calm s s' /\ exists d i, idle d /\ disk_of d = disk_of (cs_db s) /\ cs_index s !! h = Some i
    /\ cs_nBestInvalidTrust s' = Z.max (cs_nBestInvalidTrust s) (bi_nChainTrust i)
    /\ trust_written i (cs_nBestInvalidTrust s) d (cs_db s').
Lemma reported_unchanged h s s' : idle (cs_db s) -> reported h s s' -> unchanged s s'.
Proof.
  intros [Hok Hno] (Hc & d & i & [Hok1 Hno1] & Hd & _ & _ & Hw). split; [done|]. intros _.
  assert (same_reads (cs_db s) d) as Hr by by apply idle_reads. unfold trust_written in Hw. destruct (_ >? _).
  - destruct Hw as (ok & Hw). destruct (trust_reads _ _ _ _ Hok1 Hno1 Hw) as (? & ? & ?). split; [by split|by etransitivity].
  - rewrite Hw. by split.
Qed.

Definition in_transaction (s : chainstate) : Prop := db_ok (cs_db s) /\ opened (cs_db s).
Lemma in_transaction_stable s s' : in_transaction s -> attempt s s' -> in_transaction s'.
Proof. intros [Hok Ho] (_ & Hk & _). by destruct (Hk Hok Ho) as (? & ? & _). Qed.

Lemma commit_accepts : rejects_as in_transaction attempt (require (db_op (C := C) TxnCommit)).
Proof.
  intros s d s' [Hok Ho] [E|(ok & s1 & E1 & E2)]%bind_reject; unfold db_op in *.
  - destruct (TxnCommit (cs_db s)) as [[ok d1]|]; done.
  - destruct (commit_ok (cs_db s) Hok Ho) as (d1 & Hc & _). rewrite Hc in E1. injection E1 as <- <-. done.
Qed.

Lemma db_op_accepts (w : D -> option (bool * D)) : never_rejects (db_op (C := C) w).
Proof. intros s d s'. unfold db_op. by destruct (w (cs_db s)) as [[ok d1]|]. Qed.
Lemma entry_accepts h : never_rejects (entry (D := D) (C := C) h).
Proof. apply never_rejects_bind; [done|]. intros s. apply never_rejects_or_abort. Qed.
Lemma best_entry_accepts : never_rejects (best_entry (D := D) (C := C)).
Proof. apply never_rejects_bind; [done|]. intros s. apply never_rejects_bind; [apply never_rejects_or_abort|]. intros h. apply entry_accepts. Qed.

Lemma log_trust_accepts h : never_rejects (log_trust (D := D) (C := C) h).
Proof.
  unfold log_trust. apply never_rejects_bind; [apply entry_accepts|]. intros i. destruct (_ =? _); [done|].
  apply never_rejects_bind; [done|]. intros s. apply never_rejects_bind; [apply never_rejects_or_abort|done].
Qed.
Lemma InvalidChainFound_accepts h : never_rejects (InvalidChainFound (D := D) (C := C) h).
Proof.
  unfold InvalidChainFound. apply never_rejects_bind; [apply entry_accepts|]. intros i. apply never_rejects_bind; [done|]. intros s.
  apply never_rejects_bind.
  { destruct (_ >? _); [|done]. apply never_rejects_bind; [done|]. intros u. apply never_rejects_bind; [apply db_op_accepts|done]. }
  intros u. apply never_rejects_bind; [apply never_rejects_or_abort|]. intros p. apply never_rejects_bind; [apply best_entry_accepts|].
  intros best. apply log_trust_accepts.
Qed.

Lemma Reorganize_rejects h : rejects_as in_transaction attempt (Reorganize RIPEMD160 SHA1 SHA256 Verify nd ev files h).
Proof.
  unfold Reorganize. pose proof in_transaction_stable as Hst.
  apply rejects_as_bind; [apply _|done|unfold best_entry; preserve; apply entry_preserves, _|intros best].
  apply rejects_as_bind; [apply _|done|apply entry_preserves, _|intros new].
  apply rejects_as_bind; [apply _|done|apply preserves_get, _|intros s].
  destruct (find_fork _ _) as [f|]; [|by intros s1 d s2 _ [= _ <-]].
  apply rejects_as_bind; [apply _|done|apply disconnect_branch_attempt|intros vR].
  apply rejects_as_bind; [apply _|done|apply connect_branch_attempt|intros vD].
  apply rejects_as_bind; [apply _|done|preserve; apply write_best_attempt|intros _].
  apply rejects_as_after; [apply commit_accepts|intros _].
  apply never_rejects_bind; [done|intros _]. apply never_rejects_bind; [apply never_rejects_mapM, resurrect_accepts|intros _].
  apply never_rejects_mapM, pool_remove_accepts.
Qed.

(** The handlers of a failure: the transaction is aborted and the chain is reported. *)
Lemma handler_reports s d1 s2 p n m s' : idle (cs_db s) -> TxnBegin (cs_db s) = Some (true, d1) -> attempt (upd_db d1 s) s2 ->
  (do! _ := db_op TxnAbort in do! _ := InvalidChainFound p in lift (Reject n : res unit)) s2 = (Reject m, s') -> reported p s s'.
Proof.
  intros Hi Hb Ha. unfold M_bind at 1. destruct (db_op TxnAbort s2) as [r3 s3] eqn:E3.
  destruct (abort_attempt s s2 s3 r3 Hi) as (-> & Hc & Hi3 & Hd3 & Ht3); [by rewrite Hb|done|]. intros E.
  apply bind_reject in E as [E|(u & s4 & E & [= _ <-])]; [by apply InvalidChainFound_accepts in E|].
  apply InvalidChainFound_ok in E as (i3 & Hi4 & Hc4 & Ht4 & Hw). rewrite Ht3 in *. split; [by transitivity s3|].
  pose proof (proj1 Hc p) as Hp. rewrite Hi4 in Hp. destruct (cs_index s !! p) as [i|] eqn:Ei; [|done].
  assert (bi_nChainTrust i = bi_nChainTrust i3) as E by (injection Hp; congruence).
  exists (cs_db s3), i. unfold trust_written in *. rewrite E. by split_and!.
Qed.

Lemma inner_reports b h s d1 n s' : idle (cs_db s) -> TxnBegin (cs_db s) = Some (true, d1) ->
  SetBestChainInner RIPEMD160 SHA1 SHA256 Verify nd ev b h (upd_db d1 s) = (Reject n, s') -> reported h s s'.
Proof.
  intros Hi Hb. unfold SetBestChainInner.
  assert (preserves attempt (do! _ := connect RIPEMD160 SHA1 SHA256 Verify nd ev b h in require (db_op (C := C) (fun d => WriteHashBestChain d (block_hash b))))) as Hp.
  { preserve; [apply connect_attempt|apply write_best_attempt]. }
  assert (in_transaction (upd_db d1 s)) as Ht.
  { destruct Hi as [Hok Hno]. destruct (begin_ok (cs_db s) Hok Hno) as (d2 & Hb2 & Hok2 & Ho2 & _). cbn. unfold in_transaction. cbn.
    assert (d2 = d1) as -> by congruence. done. }
  intros [E|(u & s1 & E1 & E2)]%bind_reject.
  - unfold on_reject in E. destruct ((do! _ := connect _ _ _ _ _ _ _ _ in _) (upd_db d1 s)) as [r2 s2] eqn:E2.
    apply Hp in E2. destruct r2; try done. by eapply handler_reports.
  - exfalso. unfold on_reject in E1. destruct ((do! _ := connect _ _ _ _ _ _ _ _ in _) (upd_db d1 s)) as [r2 s2] eqn:E3.
    apply Hp in E3. assert (s1 = s2) as ->.
    { destruct r2; [by injection E1| |done..]. exfalso. revert E1. unfold M_bind at 1. destruct (db_op TxnAbort s2) as [[| | |] s3]; try done.
      unfold M_bind. by destruct (InvalidChainFound h s3) as [[| | |] s4]. }
    apply bind_reject in E2 as [E2|(u2 & s3 & _ & E2)].
    + apply bind_reject in E2 as [E2|(ok & s3 & E2 & E4)]; [by apply db_op_accepts in E2|]. unfold db_op in E2.
      destruct (in_transaction_stable _ _ Ht E3) as [Hok Ho]. destruct (commit_ok (cs_db s2) Hok Ho) as (d3 & Hc & _).
      rewrite Hc in E2. by injection E2 as <- <-.
    + revert E2. apply never_rejects_bind; [done|]. intros s4. apply never_rejects_bind; [apply never_rejects_or_abort|]. intros p.
      apply never_rejects_bind; [done|]. intros _. apply never_rejects_mapM, pool_remove_accepts.
Qed.

Lemma inner_rejects b h s d1 n s' : idle (cs_db s) -> TxnBegin (cs_db s) = Some (true, d1) ->
  SetBestChainInner RIPEMD160 SHA1 SHA256 Verify nd ev b h (upd_db d1 s) = (Reject n, s') -> unchanged s s'.
Proof. intros Hi Hb E. by eapply reported_unchanged, inner_reports. Qed.

Lemma reconnect_accepts l : never_rejects (reconnect RIPEMD160 SHA1 SHA256 Verify nd ev files l : M chainstate unit).
Proof.
  induction l as [|h l IH]; cbn [reconnect]; [done|]. apply never_rejects_bind; [apply entry_accepts|]. intros i.
  destruct (BlockFile.ReadIndexed _ _ _) as [b|]; [|done]. apply never_rejects_bind; [apply db_op_accepts|]. intros began.
  destruct (negb began); [done|]. apply never_rejects_bind; [|by intros []].
  intros s d s'. unfold on_reject. by destruct (M_bind _ _ s) as [[| | |] s1].
Qed.

Lemma new_best_accepts b h : never_rejects (new_best nd ev fIsInitialDownload b h : M chainstate unit).
Proof.
  unfold new_best. apply never_rejects_bind; [done|]. intros s. apply never_rejects_bind; [by destruct fIsInitialDownload|]. intros _.
  apply never_rejects_bind; [apply entry_accepts|]. intros i. apply never_rejects_bind; [done|]. intros _.
  apply never_rejects_bind; [|intros _; by destruct (_ && _)]. unfold log_trust. apply never_rejects_bind; [apply entry_accepts|].
  intros j. destruct (_ =? _); [done|]. apply never_rejects_bind; [done|]. intros s1.
  apply never_rejects_bind; [apply never_rejects_or_abort|done].
Qed.

Lemma SetBestChain_reports b pindexNew (s s' : chainstate) nDoS :
  idle (cs_db s) ->
  SetBestChain RIPEMD160 SHA1 SHA256 Verify nd ev files fIsInitialDownload b pindexNew s = (Reject nDoS, s') -> reported pindexNew s s'.
Proof.
  intros Hi E. pose proof Hi as [Hok Hno].
  destruct (begin_ok (cs_db s) Hok Hno) as (d1 & Hb & Hok1 & Ho1 & _).
  assert (in_transaction (upd_db d1 s)) as Ht by done. unfold SetBestChain in E.
  apply bind_reject in E as [E|(u & s1 & E1 & E)].
  { apply bind_reject in E as [E|(ok & s1 & E1 & E)]; [by apply db_op_accepts in E|]. unfold db_op in E1. rewrite Hb in E1.
    by injection E1 as <- <-. }
  unfold require, M_bind, db_op in E1. rewrite Hb in E1. injection E1 as _ <-.
  apply bind_reject in E as [E|(u2 & s2 & _ & E)]; [|by apply new_best_accepts in E].
  unfold switch_chain in E. unfold M_bind at 1, mget in E. destruct (_ && _).
  - exfalso. apply bind_reject in E as [E|(ok & s2 & E1 & E)]; [by apply db_op_accepts in E|].
    apply write_best_attempt in E1. apply bind_reject in E as [E|(u2 & s3 & _ & E)]; [|done].
    pose proof (in_transaction_stable _ _ Ht E1) as [Hok2 Ho2]. apply bind_reject in E as [E|(ok2 & s3 & E2 & E)]; [by apply db_op_accepts in E|].
    unfold db_op in E2. destruct (commit_ok (cs_db s2) Hok2 Ho2) as (d3 & Hcm & _). rewrite Hcm in E2. by injection E2 as <- <-.
  - destruct (bool_decide _); [by eapply inner_reports|].
    apply bind_reject in E as [E|(best & s2 & E1 & E)]; [by apply best_entry_accepts in E|].
    assert (s2 = upd_db d1 s) as ->.
    { unfold best_entry, entry, M_bind, mget, lift in E1. destruct (pindexBest _); [|done]. cbn in E1. by destruct (_ !! _); [injection E1|]. }
    destruct (postpone _ _) as [sec i]. apply bind_reject in E as [E|(i' & s2 & E2 & E)]; [by apply never_rejects_or_abort in E|].
    assert (s2 = upd_db d1 s) as -> by (destruct i; [by injection E2|done]).
    apply bind_reject in E as [E|(u2 & s3 & _ & E)]; [|by apply reconnect_accepts in E].
    unfold on_reject in E. destruct (Reorganize _ _ _ _ _ _ _ _ (upd_db d1 s)) as [r2 s2] eqn:E3. destruct r2; try done.
    apply Reorganize_rejects in E3; [|done]. by eapply handler_reports.
Qed.

Lemma SetBestChain_rejects b pindexNew (s s' : chainstate) nDoS :
  idle (cs_db s) ->
  SetBestChain RIPEMD160 SHA1 SHA256 Verify nd ev files fIsInitialDownload b pindexNew s = (Reject nDoS, s') -> unchanged s s'.
Proof. intros Hi E. by eapply reported_unchanged, SetBestChain_reports. Qed.

End props.

(** ** The database of the program *)

Lemma same_view (d d' : LevelDB.CLevelDB) `{MPI} : LevelDB.writable d -> LevelDB.writable d' -> LevelDB.view d = LevelDB.view d' -> same_reads d d'.
Proof.
  intros [_ Hs] [_ Hs'] Hv. split; [intros h|]; cbn; unfold LevelDB.ReadHashBestChain, LevelDB.Read; by rewrite Hs, Hs', !LevelDB.ReadNormal_view, Hv.
Qed.

(** A write to another key changes no read. *)
Lemma Write_same_reads key v d r d' `{MPI} : LevelDB.writable d ->
  (forall h, LevelDB.pair_key "tx"%string h <> key) -> LevelDB.name_key "hashBestChain"%string <> key ->
  LevelDB.Write key v true d = Some (r, d') -> LevelDB.writable d' /\ LevelDB.no_batch d' = LevelDB.no_batch d /\ same_reads d d'.
Proof.
  intros Hd Hk1 Hk2. destruct (LevelDB.Write_view key v d Hd) as (d1 & -> & Hd1 & Hv & Hb & _). intros [= _ <-]. split_and!; [done..|].
  destruct Hd as [_ Hs], Hd1 as [_ Hs1].
  split; [intros h; specialize (Hk1 h)|]; cbn [ReadTxIndex LevelDB.CTxDB ReadHashBestChain CTxDB_chain]; unfold LevelDB.ReadHashBestChain, LevelDB.Read;
    rewrite Hs, Hs1, !LevelDB.ReadNormal_view, Hv, lookup_insert_ne; congruence.
Qed.

(** Inside a transaction, writes leave the store alone. *)
Lemma Write_keeps key v d r d' : LevelDB.writable d -> LevelDB.no_batch d = false -> LevelDB.Write key v true d = Some (r, d') ->
  LevelDB.writable d' /\ LevelDB.no_batch d' = false /\ LevelDB.pdb d' = LevelDB.pdb d.
Proof.
  intros Hd Hb. destruct (LevelDB.Write_view key v d Hd) as (d1 & -> & Hd1 & _ & Hb1 & Hp). intros [= _ <-]. split_and!; [done|congruence|by apply Hp].
Qed.

#[global] Instance CTxDB_chain_laws `{MPI} `{BlockHash} :
  ChainDBLaws LevelDB.CLevelDB LevelDB.writable (fun d => LevelDB.no_batch d = false) LevelDB.pdb.
Proof.
  assert (forall d, LevelDB.no_batch d <> false -> LevelDB.activeBatch d = None) as Hidle by (intros d; unfold LevelDB.no_batch; by destruct (LevelDB.activeBatch d)).
  assert (forall d, LevelDB.no_batch d = false -> exists b, LevelDB.activeBatch d = Some b) as Hopen
    by (intros d; unfold LevelDB.no_batch; destruct (LevelDB.activeBatch d); [by eexists|done]).
  split.
  - intros d [Hr Hs] Hb%Hidle. cbn. unfold LevelDB.TxnBegin. rewrite Hs, Hb. eexists. split; [done|]. split_and!; [done..|].
    apply same_view; [done..|]. unfold LevelDB.view. by rewrite Hb.
  - intros d [Hr Hs] [b Hb]%Hopen. cbn. unfold LevelDB.TxnCommit. rewrite Hs, Hb. eexists. split; [done|]. split_and!; [done..|].
    apply same_view; [done..|]. unfold LevelDB.view. by rewrite Hb.
  - intros d [Hr Hs]. cbn. unfold LevelDB.TxnAbort. rewrite Hs. eexists. split; [done|]. by split_and!.
  - intros d d' Hd Hd' Hb%Hidle Hb'%Hidle Hp. apply same_view; [done..|]. unfold LevelDB.view. by rewrite Hb, Hb'.
  - intros d h t r d' Hd Hb. apply Write_keeps; done.
  - intros d h r d' Hd Hb. cbn [EraseTxIndex LevelDB.CTxDB]. destruct (LevelDB.Erase_view (LevelDB.pair_key "tx"%string h) d Hd) as (d1 & -> & Hd1 & _ & Hb1 & Hp).
    intros [= _ <-]. split_and!; [done|congruence|by apply Hp].
  - intros d i r d' Hd Hb. cbn [WriteBlockIndex CTxDB_blocks]. destruct (di_GetBlockHash false i) as [hash i']. intros E.
    pose proof (Write_keeps _ _ d r d' Hd Hb E) as (? & ? & ?). split_and!; [done..|].
    eapply Write_same_reads in E as (_ & _ & Hr); [exact Hr|done|intros h; vm_compute; discriminate|vm_compute; discriminate].
  - intros d h r d' Hd Hb E. cbn [WriteHashBestChain CTxDB_blocks ReadHashBestChain CTxDB_chain] in *. pose proof (Write_keeps _ _ d r d' Hd Hb E) as (Hd' & Hb' & Hp). split_and!; [done..|].
    intros Hh. destruct (LevelDB.Write_view (LevelDB.name_key "hashBestChain"%string) (Serialize.put LevelDB.hash_codec h) d Hd) as (d1 & Hw & _ & Hv & _).
    assert (d1 = d') as -> by (unfold LevelDB.WriteHashBestChain in E; congruence).
    unfold LevelDB.ReadHashBestChain, LevelDB.Read. destruct Hd' as [_ ->]. rewrite LevelDB.ReadNormal_view, Hv, lookup_insert_eq.
    apply (LevelDB.cdb_get_put LevelDB.hash_codec (fun b => zlen b = 32)); [done|]. intros Hn. cbn in Hn. by subst h.
  - intros d t r d' Hd Hb E. cbn [WriteBestInvalidTrust CTxDB_chain] in E. unfold write_invalid_trust in E.
    eapply Write_same_reads in E as (Hd' & Hb' & Hr); [|done|intros h; vm_compute; discriminate|vm_compute; discriminate].
    split_and!; [done|congruence|done].
  - intros d [Hr Hs]. by split.
Qed.

(** The store with the trust of a refused chain *)
Definition store_trust `{MPI} (t : Z) (m : gmap bytes bytes) : gmap bytes bytes :=
  <[LevelDB.name_key "bnBestInvalidTrust" := Serialize.put Serialize.byte_vector (reverse (drop 4 (BN_bn2mpi t)))]> m.

(** C7 (safety): what a refused chain leaves behind. When [SetBestChain] on the database of the program returns false, the whole
    key-value store is what it was before, entry by entry, but for one key: the abort takes back every write of the blocks
    that were disconnected and connected, to the transaction index, to the block index and to the best hash, and [InvalidChainFound]
    then records the trust of the refused chain under [bnBestInvalidTrust], and in [nBestInvalidTrust], if it is the highest so
    far. No database transaction is left open. In memory the index has the same entries, but for
    [nMint] and [nMoneySupply], and the best block, the genesis block, the memory pool, the locators sent to wallets
    and the counters are unchanged. Nothing is said of the signature cache and of the transactions that were shown to the wallets
    on the way, which the code does not take back. *)
Theorem SetBestChain_failure `{MPI} `{BlockHash} {C : Type} `{!SigChecker C} RIPEMD160 SHA1 SHA256 Verify nd ev files fIsInitialDownload
    b pindexNew (s s' : chainstate LevelDB.CLevelDB C) nDoS :
  LevelDB.writable (cs_db s) -> LevelDB.no_batch (cs_db s) = true ->
  SetBestChain RIPEMD160 SHA1 SHA256 Verify nd ev files fIsInitialDownload b pindexNew s = (Reject nDoS, s') ->
  calm s s' /\ LevelDB.writable (cs_db s') /\ LevelDB.no_batch (cs_db s') = true
  /\ exists i, cs_index s !! pindexNew = Some i
     /\ cs_nBestInvalidTrust s' = Z.max (cs_nBestInvalidTrust s) (bi_nChainTrust i)
     /\ LevelDB.pdb (cs_db s') = if bi_nChainTrust i >? cs_nBestInvalidTrust s then store_trust (bi_nChainTrust i) (LevelDB.pdb (cs_db s))
                                 else LevelDB.pdb (cs_db s).
Proof.
  intros Hok Hno E. apply (SetBestChain_reports (db_ok := LevelDB.writable) (disk_of := LevelDB.pdb)) in E
    as (Hc & d & i & [Hokd Hnod%not_false_iff_true] & Hd & Hi & Ht & Hw); [|split; [done|by rewrite Hno]]. rewrite <-Hd.
  assert (LevelDB.writable (cs_db s') /\ LevelDB.no_batch (cs_db s') = true /\ LevelDB.pdb (cs_db s') =
    if bi_nChainTrust i >? cs_nBestInvalidTrust s then store_trust (bi_nChainTrust i) (LevelDB.pdb d) else LevelDB.pdb d) as (H1 & H2 & H3);
    [|split_and!; [done..|by exists i]]. unfold trust_written in Hw.
  destruct (_ >? _); [|by rewrite Hw]. destruct Hw as (ok & Hw). cbn [WriteBestInvalidTrust CTxDB_chain] in Hw. unfold write_invalid_trust in Hw.
  destruct (LevelDB.Write_view (LevelDB.name_key "bnBestInvalidTrust") (Serialize.put Serialize.byte_vector (reverse (drop 4 (BN_bn2mpi (bi_nChainTrust i))))) d Hokd)
    as (d1 & Hw1 & Hok1 & Hv & Hb & _). rewrite Hw in Hw1. injection Hw1 as _ <-. rewrite Hb. split_and!; [done..|].
  unfold LevelDB.view, LevelDB.no_batch in *. destruct (LevelDB.activeBatch d); [done|]. by destruct (LevelDB.activeBatch (cs_db s')).
Qed.

(** ** A worked example

    A block without transactions on top of the best one: it is refused, and the trust of its chain is recorded. *)
#[local] Instance ex_hash : BlockHash := fun b => uint256_of (le_value (drop 76 b)).
#[local] Instance ex_checker : SigChecker unit := SigCheck.pure_checker SigCheck.toy_verify.
Definition ex_bad : CBlock := Block (BlockHeader 6 (uint256_of 1) (uint256_of 0) 2000 0x1e0fffff 2) [] [].
Definition ex_bad_index : BlockMap :=
  {[ uint256_of 1 := set_links (Some (uint256_of 1)) None None CBlockIndex_default;
     uint256_of 2 := set_links (Some (uint256_of 2)) (Some (uint256_of 1)) None (set_place 7 1 (CBlockIndex_new 1 0 ex_bad)) ]}.
Definition ex_bad_state : chainstate LevelDB.CLevelDB unit :=
  CState ex_bad_index (Some (uint256_of 1)) (BestBlock (uint256_of 1) (Some (uint256_of 1)) 0 0 0) 0 0 LevelDB.empty_db Mempool.empty_pool tt
    [] [] false ∅ ∅.
Definition ex_bad_run : res unit * chainstate LevelDB.CLevelDB unit :=
  SetBestChain Crypto.RIPEMD160 Crypto.SHA1 Crypto.SHA256 SigCheck.toy_verify InputsProps.ex_node (Env mainnet 2000 50 4 0) ∅ false
    ex_bad (uint256_of 2) ex_bad_state.

Lemma SetBestChain_failure_witness :
  ex_bad_run.1 = Reject 100 /\ calm ex_bad_state ex_bad_run.2 /\ cs_nBestInvalidTrust ex_bad_run.2 = 7
  /\ LevelDB.pdb (cs_db ex_bad_run.2) = {[ LevelDB.name_key "bnBestInvalidTrust" := [1; 7] ]}.
Proof.
  assert (ex_bad_run = (Reject 100, ex_bad_run.2)) as E by (vm_compute; reflexivity).
  split; [by rewrite E|].
  destruct (SetBestChain_failure Crypto.RIPEMD160 Crypto.SHA1 Crypto.SHA256 SigCheck.toy_verify InputsProps.ex_node (Env mainnet 2000 50 4 0) ∅ false
    ex_bad (uint256_of 2) ex_bad_state ex_bad_run.2 100) as (H1 & _ & _ & i & Hi & Ht & Hd); [by split|reflexivity|exact E|].
  split; [exact H1|]. assert (bi_nChainTrust i = 7) as Hi7.
  { assert (bi_nChainTrust <$> cs_index ex_bad_state !! uint256_of 2 = Some 7) as H7 by (vm_compute; reflexivity).
    rewrite Hi in H7. by injection H7. }
  rewrite Hi7 in Ht, Hd. split; [exact Ht|]. etransitivity; [exact Hd|]. vm_compute. reflexivity.
Defined.
End BestChainProps.
