(* ===== verification/BestChainMain.v ===== *)
(** * BestChainMain: the chain that becomes the best one

    After a success the links, the database and the variables of the best block agree: the links follow a chain of the new block,
    the database names its tip, and that tip is the new block unless the connection of postponed blocks stopped early. *)
From stdpp Require Import strings.
From S2P Require Import Prelude ScriptNum Script Serialize Crypto Transaction Merkle Uint256 BlockData LevelDB.
From S2P Require Import Keys SigCheck Interpreter Solver Inputs Difficulty BlockFile ChainIndex Kernel Block BlockProps InputsProps Mempool BestChain.
From S2P Require Import BestChainLinks BestChainProps.
Import Tx BlockData Script_param Inputs InputsProps Difficulty ChainIndex Block BlockProps BestChain BestChainLinks BestChainProps.
Open Scope block_scope.

Module BestChainMain.

(** ** Links and relations *)

Lemma set_next_links p n m m' : same_links m m' -> same_links (set_next p n m) (set_next p n m').
Proof.
  intros [Ht Hn]. split.
  - transitivity m; [symmetry; apply set_next_tree|]. transitivity m'; [done|apply set_next_tree].
  - destruct p as [p|]; [|done]. intros h. rewrite !set_next_pnext, Hn. specialize (Ht p).
    assert (is_Some (m !! p) <-> is_Some (m' !! p)) as Hs by (destruct (m !! p), (m' !! p); done).
    destruct (decide (h = p /\ is_Some (m !! p))), (decide (h = p /\ is_Some (m' !! p))); tauto.
Qed.

Lemma unlink_links m m' h : same_links m m' -> same_links (unlink m h) (unlink m' h).
Proof. intros Hl. unfold unlink. rewrite (pprev_of_tree m m' h) by apply Hl. by apply set_next_links. Qed.
Lemma link_links m m' h : same_links m m' -> same_links (link m h) (link m' h).
Proof. intros Hl. unfold link. rewrite (pprev_of_tree m m' h) by apply Hl. by apply set_next_links. Qed.
Lemma fold_links (step : BlockMap -> uint256 -> BlockMap) vs m m' : (forall m m' h, same_links m m' -> same_links (step m h) (step m' h)) ->
  same_links m m' -> same_links (fold_left step vs m) (fold_left step vs m').
Proof. intros Hs. revert m m'. induction vs as [|v vs IH]; intros m m' Hl; [done|]. cbn. by apply IH, Hs. Qed.

Lemma main_chain_links m m' t : index_wf m -> same_links m m' -> main_chain m t -> main_chain m' t.
Proof. intros Hwf [Ht Hn] Hm h n. rewrite <-Hn, <-(hashes_tree m m' t Hwf Ht), <-(pprev_of_tree m m' n Ht). apply Hm. Qed.

Lemma same_tree_is_Some m m' h : same_tree m m' -> is_Some (m !! h) <-> is_Some (m' !! h).
Proof. intros Ht. specialize (Ht h). by destruct (m !! h), (m' !! h). Qed.

(** ** What is postponed *)

(** The postponed entries continue the chain of the first one that is not. *)
Inductive continues (m : BlockMap) : uint256 -> list uint256 -> Prop :=
  | continues_nil h : continues m h []
  | continues_cons h n l : pprev_of m n = Some h -> continues m n l -> continues m h (n :: l).

Lemma continues_tree m m' h l : same_tree m m' -> continues m h l -> continues m' h l.
Proof. intros Ht. induction 1; constructor; [|done]. by erewrite <-pprev_of_tree. Qed.

Lemma continues_snoc m h l x : continues m h l -> pprev_of m x = Some (List.last l h) -> continues m h (l ++ [x]).
Proof.
  induction 1 as [h|h n l Hp Hc IH]; intros Hx; [by repeat constructor|]. cbn [app]. constructor; [done|]. apply IH.
  destruct l as [|y l]; [done|]. cbn [List.last] in Hx |- *. rewrite Hx. f_equal. clear.
  revert y. induction l as [|z l IH]; intros y; [done|]. apply (IH z).
Qed.

Lemma last_snoc {A} (l : list A) x d : List.last (l ++ [x]) d = x.
Proof. induction l as [|y l IH]; [done|]. cbn. rewrite IH. by destruct (l ++ [x]) eqn:E; [destruct l|]. Qed.

Section postponed.
Variable m : BlockMap.
Hypothesis Hwf : index_wf m.

Lemma postpone_cons T b p l : postpone T (b :: p :: l)
  = if bi_nChainTrust p >? T then let '(sec, i) := postpone T (p :: l) in (b :: sec, i) else ([], Some b).
Proof. done. Qed.

Lemma postpone_spec T h b : m !! h = Some b ->
  exists i bi, m !! i = Some bi /\ (postpone T (chain_of m b)).2 = Some bi /\ i ∈ hashes m h
    /\ let l := reverse (GetBlockHash <$> (postpone T (chain_of m b)).1) in
       continues m i l /\ List.last l i = h /\ (forall x, x ∈ l -> x ∈ hashes m h)
       /\ (l <> [] -> exists p, get_pprev m b = Some p /\ bi_nChainTrust p > T).
Proof.
  remember (Z.to_nat (bi_nHeight b)) as k eqn:Ek. revert h b Ek. induction k as [|k IH]; intros h b Ek Hb.
  all: assert (h ∈ hashes m h) as Hself by by apply (hashes_self m Hwf h b).
  all: rewrite (chain_of_cons m Hwf h b Hb); destruct (get_pprev m b) as [p|] eqn:Ep;
    [|exists h, b; cbn zeta; split_and!; [done|done|done|by constructor|done|by intros x ?%not_elem_of_nil|done]].
  all: destruct (get_pprev_wf m Hwf h b p Hb Ep) as (Hpp & Hp & Hh); pose proof (iw_height m Hwf _ _ Hp) as Hh0.
  { lia. }
  assert (exists l, chain_of m p = p :: l) as [l El] by (rewrite (chain_of_cons m Hwf _ p Hp); by eexists).
  rewrite El, postpone_cons, <-El, Z.gtb_ltb. destruct (Z.ltb_spec T (bi_nChainTrust p)) as [Hgt|Hle];
    [|exists h, b; cbn zeta; split_and!; [done|done|done|by constructor|done|by intros x ?%not_elem_of_nil|done]].
  destruct (IH (GetBlockHash p) p ltac:(lia) Hp) as (i & bi & Hi & H2 & Hin & Hc & Hl & Hx & _).
  destruct (postpone T (chain_of m p)) as [sec o]. cbn [fst snd] in *. cbn zeta in *.
  assert (pprev_of m h = Some (GetBlockHash p)) as Hph by (unfold pprev_of; by rewrite Hb).
  assert (forall x, x ∈ hashes m (GetBlockHash p) -> x ∈ hashes m h) as Hup.
  { intros x Hxp. rewrite (hashes_cons m Hwf h b Hb), Hph. by right. }
  exists i, bi. cbn zeta. split_and!; [done|done|by apply Hup|..]; cbn [fst]; rewrite fmap_cons, reverse_cons, (hash_of m Hwf h b Hb).
  - apply continues_snoc; [done|]. by rewrite Hl.
  - apply last_snoc.
  - intros x [Hxl|Hxl]%elem_of_app; [by apply Hup, Hx|]. by apply list_elem_of_singleton in Hxl as ->.
  - intros _. exists p. split; [done|lia].
Qed.
End postponed.

Section main.
Context `{MPI} `{BlockHash}.
Context {D : Type} `{!TxDB D, !BlockDB D, !ChainDB D} {db_ok opened : D -> Prop} {X : Type} {disk_of : D -> X}
  `{!ChainDBLaws D db_ok opened disk_of}.
Context {C : Type} `{!SigChecker C}.
Variables RIPEMD160 SHA1 SHA256 : bytes -> bytes.
Variable Verify : bytes -> uint256 -> bytes -> bool.
Variable nd : node.
Variable ev : env.
Variable files : disk.
Variable fIsInitialDownload : bool.

Abbreviation chainstate := (chainstate D C).
Abbreviation idle := (idle (db_ok := db_ok) (opened := opened)).
Abbreviation in_transaction := (in_transaction (db_ok := db_ok) (opened := opened) (C := C)).
Abbreviation attempt := (attempt (db_ok := db_ok) (opened := opened) (disk_of := disk_of) (C := C)).

(** ** Consistent states

    Between transactions the links follow the chain of [tip], which the database names. *)
Record consistent (s : chainstate) (tip : uint256) : Prop := Consistent {
  co_index : index_wf (cs_index s);
  co_tip : is_Some (cs_index s !! tip);
  co_links : main_chain (cs_index s) tip;
  co_idle : idle (cs_db s);
  co_disk : ReadHashBestChain (cs_db s) = Some (Some tip) }.

Lemma consistent_unchanged s s' tip : consistent s tip -> unchanged (db_ok := db_ok) (opened := opened) s s' -> consistent s' tip.
Proof.
  intros [H1 H2 H3 H4 H5] [[Ht Hn]%calm_links Hst]. destruct (Hst H4) as [Hi [_ Hr]]. split; [by eapply same_tree_wf| | |done|congruence].
  - by apply (same_tree_is_Some _ _ _ Ht).
  - by apply (main_chain_links (cs_index s)).
Qed.

(** ** Steps that succeed *)

Lemma db_op_ok (w : D -> option (bool * D)) (s : chainstate) ok s' :
  db_op w s = (Ok ok, s') <-> exists d, w (cs_db s) = Some (ok, d) /\ s' = upd_db d s.
Proof.
  unfold db_op. destruct (w (cs_db s)) as [[ok' d]|]; [|split; [done|by intros (d & ? & _)]].
  split; [intros [= <- <-]; by exists d|intros (d' & [= -> ->] & ->)]. done.
Qed.
Lemma require_true {S} (m : M S bool) s u s' : require m s = (Ok u, s') <-> m s = (Ok true, s').
Proof.
  unfold require. rewrite M_bind_ok. destruct u. split.
  - intros ([] & s1 & E1 & E2); cbv in E2; by simplify_eq.
  - intros E. by exists true, s'.
Qed.

(** What is left alone when transactions enter and leave the memory pool *)
Definition quiet (s s' : chainstate) : Prop :=
  cs_index s' = cs_index s /\ cs_db s' = cs_db s /\ cs_best s' = cs_best s /\ cs_genesis s' = cs_genesis s.
#[local] Instance quiet_pre : PreOrder quiet.
Proof. split; [by intros s|]. intros s1 s2 s3 (E1 & E2 & E3 & E4) (F1 & F2 & F3 & F4). split_and!; congruence. Qed.
Lemma pool_removes_quiet l : preserves quiet (mapM_ pool_remove l).
Proof. apply preserves_mapM; [apply _|]. intros tx s r s' E. by eapply pool_remove_quiet. Qed.
Lemma resurrects_quiet l : preserves quiet (mapM_ (resurrect RIPEMD160 SHA1 SHA256 nd ev) l).
Proof. apply preserves_mapM; [apply _|]. intros tx s r s' E. by eapply resurrect_quiet. Qed.

Lemma begin_idle s ok s' : idle (cs_db s) -> db_op TxnBegin s = (Ok ok, s') ->
  exists d1, TxnBegin (cs_db s) = Some (true, d1) /\ ok = true /\ s' = upd_db d1 s /\ in_transaction s'.
Proof.
  intros [Hok Hno] (d & E & ->)%db_op_ok. destruct (begin_ok (cs_db s) Hok Hno) as (d1 & E1 & Hok1 & Ho1 & _).
  rewrite E1 in E. injection E as <- <-. by exists d1.
Qed.

(** The last steps of a transaction *)
Lemma write_best_ok h s s' : in_transaction s -> db_op (fun d => WriteHashBestChain d h) s = (Ok true, s') ->
  exists d, s' = upd_db d s /\ in_transaction s' /\ (zlen h = 32 -> ReadHashBestChain d = Some (Some h)).
Proof.
  intros [Hok Ho] (d & E & ->)%db_op_ok. eapply best_keeps in E as (Hok1 & Ho1 & _ & Hr); [|done..]. by exists d.
Qed.
Lemma commit_ok_state s s' : in_transaction s -> db_op TxnCommit s = (Ok true, s') ->
  exists d, s' = upd_db d s /\ idle d /\ same_reads (cs_db s) d.
Proof.
  intros [Hok Ho] (d & E & ->)%db_op_ok. destruct (commit_ok (cs_db s) Hok Ho) as (d1 & E1 & Hok1 & Hno1 & Hr).
  rewrite E1 in E. injection E as <-. by exists d1.
Qed.

Lemma attempt_in_transaction {A} (m : M chainstate A) s r s' :
  preserves attempt m -> in_transaction s -> m s = (r, s') -> calm s s' /\ in_transaction s'.
Proof. intros Hp Ht E%Hp. split; [apply E|]. by eapply in_transaction_stable. Qed.

Lemma inner_ok b h (s s' : chainstate) d1 u : in_transaction (upd_db d1 s) ->
  SetBestChainInner RIPEMD160 SHA1 SHA256 Verify nd ev b h (upd_db d1 s) = (Ok u, s') ->
  exists m1 p, same_links (cs_index s) m1 /\ pprev_of m1 h = Some p /\ cs_index s' = set_next (Some p) (Some h) m1
    /\ cs_best s' = cs_best s /\ cs_genesis s' = cs_genesis s /\ idle (cs_db s')
    /\ (zlen (block_hash b) = 32 -> ReadHashBestChain (cs_db s') = Some (Some (block_hash b))).
Proof.
  intros Ht. unfold SetBestChainInner. intros ([] & s1 & E & E1)%M_bind_ok. unfold on_reject in E.
  destruct ((do! _ := connect _ _ _ _ _ _ _ _ in _) (upd_db d1 s)) as [r2 s2] eqn:E2. destruct r2 as [[]|n| |]; try done.
  2: { exfalso. revert E. intros ([] & s3 & _ & ([] & s4 & _ & E)%M_bind_ok)%M_bind_ok; done. }
  injection E as ->. apply M_bind_ok in E2 as ([] & s3 & E3 & E4%require_true).
  destruct (attempt_in_transaction _ _ _ _ (connect_attempt RIPEMD160 SHA1 SHA256 Verify nd ev b h) Ht E3) as [Hc Ht3].
  pose proof (calm_links _ _ Hc) as Hl. destruct Hc as [_ Hs].
  apply write_best_ok in E4 as (d & -> & Ht4 & Hr); [|done].
  apply M_bind_ok in E1 as ([] & s5 & E5%require_true & E1). apply commit_ok_state in E5 as (d5 & -> & Hi5 & [_ Hr5]); [|done].
  apply M_bind_ok in E1 as (? & ? & [= <- <-] & E1). apply M_bind_ok in E1 as (p & ? & [Hp%or_abort_ok ->]%lift_ok & E1).
  apply M_bind_ok in E1 as ([] & ? & [= <-] & E1). apply pool_removes_quiet in E1 as (Ei & Ed & Eb & Eg).
  cbn [cs_index cs_db cs_best cs_genesis upd_db upd_index] in *. unfold settled in Hs. injection Hs as Hs1 Hs2 _ _ _ _ _ _.
  cbn [cs_index cs_db cs_best cs_genesis upd_db upd_index] in Hs1, Hs2, Hl. exists (cs_index s3), p. rewrite Ei, Ed, Eb, Eg.
  split_and!; [done..|congruence|congruence|done|]. intros Hz. rewrite <-Hr5. by apply Hr.
Qed.

Lemma best_entry_ok (s : chainstate) best s' : best_entry s = (Ok best, s') ->
  s' = s /\ exists h, pindexBest (cs_best s) = Some h /\ cs_index s !! h = Some best.
Proof.
  unfold best_entry, entry. intros (? & ? & [= <- <-] & E)%M_bind_ok. apply M_bind_ok in E as (h & ? & [Hh%or_abort_ok ->]%lift_ok & E).
  apply M_bind_ok in E as (? & ? & [= <- <-] & [E%or_abort_ok ->]%lift_ok). split; [done|]. by exists h.
Qed.
Lemma entry_ok (s : chainstate) h i s' : entry h s = (Ok i, s') -> s' = s /\ cs_index s !! h = Some i.
Proof. unfold entry. intros (? & ? & [= <- <-] & [E%or_abort_ok ->]%lift_ok)%M_bind_ok. done. Qed.

Lemma Reorganize_ok (s s' : chainstate) old new u :
  in_transaction s -> index_wf (cs_index s) -> pindexBest (cs_best s) = Some old -> main_chain (cs_index s) old -> zlen new = 32 ->
  Reorganize RIPEMD160 SHA1 SHA256 Verify nd ev files new s = (Ok u, s') ->
  consistent s' new /\ same_tree (cs_index s) (cs_index s') /\ cs_best s' = cs_best s /\ cs_genesis s' = cs_genesis s.
Proof.
  intros Ht Hwf Hold Hm Hz. unfold Reorganize. intros (a & ? & [-> (h & Hh & Ha)]%best_entry_ok & E)%M_bind_ok.
  assert (h = old) as -> by congruence. apply M_bind_ok in E as (b & ? & [-> Hb]%entry_ok & E). apply M_bind_ok in E as (? & ? & [= <- <-] & E).
  destruct (find_fork _ _) as [f|] eqn:Ef; [|done].
  pose proof (reorganize_main_chain (cs_index s) old new a b f Hwf Ha Hb Hm Ef) as Hmain. cbn zeta in Hmain.
  set (vD := before_fork f (chain_of (cs_index s) a)) in *. set (vC := reverse (before_fork f (chain_of (cs_index s) b))) in *.
  apply M_bind_ok in E as (vR & s1 & E1 & E). apply M_bind_ok in E as (vX & s2 & E2 & E).
  apply (attempt_in_transaction _ s) in E1 as [Hc1 Ht1]; [|apply disconnect_branch_attempt|done].
  apply (attempt_in_transaction _ s1) in E2 as [Hc2 Ht2]; [|apply connect_branch_attempt|done].
  apply M_bind_ok in E as ([] & s3 & E3%require_true & E). apply write_best_ok in E3 as (d3 & -> & Ht3 & Hr3); [|done].
  apply M_bind_ok in E as ([] & s4 & E4%require_true & E). apply commit_ok_state in E4 as (d4 & -> & Hi4 & [_ Hr4]); [|done].
  apply M_bind_ok in E as ([] & s5 & [= <-] & E). apply M_bind_ok in E as ([] & s6 & E5%resurrects_quiet & E6%pool_removes_quiet).
  destruct E5 as (Ei & Ed & Eb & Eg), E6 as (Fi & Fd & Fb & Fg). cbn [cs_index cs_db cs_best cs_genesis upd_db upd_index] in *.
  assert (same_links (cs_index s) (cs_index s2)) as Hl by (transitivity (cs_index s1); by apply calm_links).
  assert (settled s = settled s2) as Hs by (destruct Hc1 as [_ ->], Hc2 as [_ ->]; done). unfold settled in Hs. injection Hs as Hs1 Hs2 _ _ _ _ _ _.
  assert (same_links (fold_left link vC (fold_left unlink vD (cs_index s))) (cs_index s')) as Hl'.
  { rewrite Fi, Ei. apply fold_links; [apply link_links|]. apply fold_links; [apply unlink_links|done]. }
  assert (same_tree (cs_index s) (fold_left link vC (fold_left unlink vD (cs_index s)))) as Htm.
  { apply (fold_step_tree _ link Some); [done|]. by apply (fold_step_tree _ unlink (fun _ => None)). }
  assert (same_tree (cs_index s) (cs_index s')) as Ht' by (etransitivity; [exact Htm|apply Hl']).
  split; [|split_and!; [done|congruence..]]. split.
  - by apply (same_tree_wf (cs_index s)).
  - apply (same_tree_is_Some _ _ new Ht'). by eexists.
  - eapply main_chain_links; [|exact Hl'|done]. by apply (same_tree_wf (cs_index s)).
  - rewrite Fd, Ed. exact Hi4.
  - rewrite Fd, Ed, <-Hr4, Hr3, (hash_of (cs_index s) Hwf new b Hb); [done|]. by rewrite (hash_of (cs_index s) Hwf new b Hb).
Qed.

(** The connection of one block on top of the tip *)
Lemma inner_consistent b h (s s' : chainstate) d1 u tip :
  index_wf (cs_index s) -> is_Some (cs_index s !! tip) -> main_chain (cs_index s) tip -> idle (cs_db s) -> TxnBegin (cs_db s) = Some (true, d1) ->
  block_hash b = h -> zlen h = 32 -> pprev_of (cs_index s) h = Some tip ->
  SetBestChainInner RIPEMD160 SHA1 SHA256 Verify nd ev b h (upd_db d1 s) = (Ok u, s') ->
  consistent s' h /\ same_tree (cs_index s) (cs_index s') /\ cs_best s' = cs_best s /\ cs_genesis s' = cs_genesis s.
Proof.
  intros Hwf Htip Hm Hi Hb <- Hz Hp E. destruct (begin_idle s true (upd_db d1 s) Hi) as (d2 & Hb2 & _ & Hd & Ht).
  { apply db_op_ok. by exists d1. }
  apply inner_ok in E as (m1 & p & [Hl Hn] & Hp1 & Ei & Eb & Eg & Hi' & Hr); [|done].
  assert (p = tip) as -> by (rewrite (pprev_of_tree _ _ _ Hl) in Hp; congruence).
  assert (same_tree (cs_index s) (cs_index s')) as Ht' by (rewrite Ei; transitivity m1; [done|apply set_next_tree]).
  split; [|split_and!; [done|congruence..]]. assert (index_wf m1) as Hwf1 by by eapply same_tree_wf. split.
  - by apply (same_tree_wf (cs_index s)).
  - apply (same_tree_is_Some _ _ _ Ht'). unfold pprev_of in Hp. destruct (cs_index s !! block_hash b); [by eexists|done].
  - rewrite Ei. apply extend_main_chain; [done| |by apply (main_chain_links (cs_index s))|done].
    by apply (same_tree_is_Some _ _ _ Hl).
  - done.
  - by apply Hr.
Qed.

Lemma ReadIndexed_hash net d i b : BlockFile.ReadIndexed net d i = Some b -> bi_phashBlock i = Some (block_hash b).
Proof.
  unfold BlockFile.ReadIndexed. destruct (BlockFile.ReadFromDisk net d _ _ true) as [b'|]; [|done]. cbn.
  destruct (decide (Some (block_hash b') = bi_phashBlock i)) as [Heq|]; [rewrite bool_decide_true by done|by rewrite bool_decide_false].
  by intros [= ->].
Qed.

Lemma reconnect_ok l (s s' : chainstate) tip u :
  consistent s tip -> continues (cs_index s) tip l -> (forall h, is_Some (cs_index s !! h) -> zlen h = 32) ->
  reconnect RIPEMD160 SHA1 SHA256 Verify nd ev files l s = (Ok u, s') ->
  exists tip', tip' ∈ tip :: l /\ consistent s' tip'
    /\ same_tree (cs_index s) (cs_index s') /\ cs_best s' = cs_best s /\ cs_genesis s' = cs_genesis s.
Proof.
  revert s tip. induction l as [|h l IH]; intros s tip Hco Hc Hk; cbn [reconnect].
  { intros [= _ <-]. exists tip. split_and!; [by left|done..]. }
  intros (i & ? & [-> Hi]%entry_ok & E)%M_bind_ok. destruct (BlockFile.ReadIndexed _ _ _) as [b|] eqn:Er.
  2: { injection E as _ <-. exists tip. split_and!; [by left|done..]. }
  pose proof Hco as [Hwf Htip Hm Hidle Hdisk]. apply M_bind_ok in E as (began & s1 & E1 & E).
  apply begin_idle in E1 as (d1 & Hb & -> & -> & Ht); [|done]. cbn [negb] in E. apply M_bind_ok in E as (ok & s2 & E2 & E).
  unfold on_reject in E2. destruct (M_bind _ _ (upd_db d1 s)) as [r3 s3] eqn:E3. destruct r3 as [ok3|n| |]; [|..|done|done].
  - injection E2 as -> ->. apply M_bind_ok in E3 as (u3 & s4 & E3 & [= <- <-]).
    inversion Hc as [|? ? ? Hp Hc']; subst. apply ReadIndexed_hash in Er. rewrite (iw_hash _ Hwf h i Hi) in Er. injection Er as Eh.
    apply (inner_consistent b h s s4 d1 u3 tip) in E3 as (Hco4 & Ht4 & Eb4 & Eg4); [|done..|by apply Hk; eexists|done].
    apply (IH s4 h) in E as (tip' & Hin & Hco' & Ht' & Eb' & Eg'); [|done| |].
    + exists tip'. split_and!; [by right|done|by transitivity (cs_index s4)|congruence..].
    + by apply (continues_tree (cs_index s)).
    + intros x Hx. by apply Hk, (same_tree_is_Some _ _ x Ht4).
  - injection E2 as <- <-. injection E as _ <-. apply bind_reject in E3 as [E3|(? & ? & _ & ?)]; [|done].
    apply (inner_rejects RIPEMD160 SHA1 SHA256 Verify nd ev b h s d1) in E3 as Hu; [|done..].
    exists tip. split_and!; [by left|by eapply consistent_unchanged|by apply (same_entries_links _ _ (proj1 (proj1 Hu)))|..]; destruct Hu as [[_ Hs] _]; unfold settled in Hs; congruence.
Qed.

Lemma new_best_ok b h (s s' : chainstate) u : new_best nd ev fIsInitialDownload b h s = (Ok u, s') ->
  cs_index s' = cs_index s /\ cs_db s' = cs_db s /\ cs_genesis s' = cs_genesis s
  /\ exists i, cs_index s !! h = Some i
    /\ cs_best s' = BestBlock (block_hash b) (Some h) (bi_nHeight i) (bi_nChainTrust i) (GetTime nd).
Proof.
  unfold new_best. intros (? & ? & [= <- <-] & E)%M_bind_ok. apply M_bind_ok in E as (u1 & s1 & E1 & E).
  assert (cs_index s1 = cs_index s /\ cs_db s1 = cs_db s /\ cs_genesis s1 = cs_genesis s) as (Ei & Ed & Eg)
    by (destruct fIsInitialDownload; by injection E1 as _ <-).
  apply M_bind_ok in E as (i & ? & [-> Hi]%entry_ok & E). rewrite Ei in Hi.
  apply M_bind_ok in E as (u2 & s2 & [= _ <-] & E). apply M_bind_ok in E as (u3 & s3 & E3 & E).
  assert (s3 = upd_best (BestBlock (block_hash b) (Some h) (bi_nHeight i) (bi_nChainTrust i) (GetTime nd)) s1) as ->.
  { unfold log_trust in E3. apply M_bind_ok in E3 as (j & ? & [-> Hj]%entry_ok & E3). destruct (_ =? 0); [by injection E3 as _ <-|].
    apply M_bind_ok in E3 as (? & ? & [= <- <-] & E3). apply M_bind_ok in E3 as (p & ? & [Hp%or_abort_ok ->]%lift_ok & E3). by injection E3 as _ <-. }
  assert (cs_index s' = cs_index s1 /\ cs_db s' = cs_db s1 /\ cs_genesis s' = cs_genesis s1
    /\ cs_best s' = BestBlock (block_hash b) (Some h) (bi_nHeight i) (bi_nChainTrust i) (GetTime nd)) as (Fi & Fd & Fg & Fb)
    by (destruct (_ && _); injection E as _ <-; done).
  split_and!; [congruence..|]. by exists i.
Qed.

Lemma SetBestChain_accepts b new (s s' : chainstate) tip :
  consistent s tip -> pindexBest (cs_best s) = Some tip -> hashBestChain (cs_best s) = tip -> is_Some (cs_genesis s) ->
  (forall h, is_Some (cs_index s !! h) -> zlen h = 32) ->
  block_hash b = new -> pprev_of (cs_index s) new = Some (bh_hashPrevBlock (b_header b)) ->
  SetBestChain RIPEMD160 SHA1 SHA256 Verify nd ev files fIsInitialDownload b new s = (Ok tt, s') ->
  exists tip', consistent s' tip' /\ tip' ∈ hashes (cs_index s') new /\ same_tree (cs_index s) (cs_index s')
    /\ (exists i, cs_index s !! new = Some i /\ cs_best s' = BestBlock new (Some new) (bi_nHeight i) (bi_nChainTrust i) (GetTime nd))
    /\ (tip' = new \/ exists t p, cs_index s !! tip = Some t /\ cs_index s !! bh_hashPrevBlock (b_header b) = Some p
                              /\ bi_nChainTrust p > bi_nChainTrust t).
Proof.
  intros Hco Hbest Hhash [g Hg] Hk <- Hp. pose proof Hco as [Hwf [t Ht] Hm Hidle _]. unfold SetBestChain.
  intros (u1 & s1 & E1%require_true & E)%M_bind_ok. apply begin_idle in E1 as (d1 & Hb & _ & -> & Htr); [|done].
  apply M_bind_ok in E as (u2 & s2 & E & (Ei & Ed & _ & i' & Hi' & Eb)%new_best_ok).
  assert (exists i, cs_index s !! block_hash b = Some i) as [i Hi] by (unfold pprev_of in Hp; destruct (cs_index s !! block_hash b); [by eexists|done]).
  assert (zlen (block_hash b) = 32) as Hz by (apply Hk; by eexists).
  assert (exists tip', consistent s2 tip' /\ tip' ∈ hashes (cs_index s) (block_hash b) /\ same_tree (cs_index s) (cs_index s2)
    /\ (tip' = block_hash b \/ exists t p, cs_index s !! tip = Some t /\ cs_index s !! bh_hashPrevBlock (b_header b) = Some p
                              /\ bi_nChainTrust p > bi_nChainTrust t)) as (tip' & Hco2 & Hin & Htree & Hlast).
  2: { exists tip'. rewrite Ei, Eb, <-(hashes_tree _ _ _ Hwf Htree). destruct (same_tree_lookup _ _ _ i Htree Hi) as (j & Hj & [= _ _ F1 F2]).
       assert (j = i') as -> by congruence. rewrite <-F1, <-F2. split_and!; try done; [|by exists i].
       destruct Hco2 as [J1 J2 J3 J4 J5]. by split; rewrite ?Ei, ?Ed. }
  unfold switch_chain in E. apply M_bind_ok in E as (? & ? & [= <- <-] & E). cbn [cs_genesis cs_best cs_index upd_db] in E.
  rewrite (bool_decide_false (cs_genesis s = None)) in E by congruence. cbn [andb] in E. rewrite Hhash in E.
  case_bool_decide as Hprev.
  { rewrite Hprev in Hp. apply (inner_consistent b (block_hash b) s s2 d1 u2 tip) in E as (Hco2 & Htree & _); [|done|by eexists|done..].
    exists (block_hash b). split_and!; [done|by apply (hashes_self _ Hwf _ i)|done|by left]. }
  apply M_bind_ok in E as (best & ? & [-> (h & Hh & Hbe)]%best_entry_ok & E). cbn [cs_best cs_index upd_db] in Hh, Hbe.
  assert (h = tip) as -> by congruence. assert (best = t) as -> by congruence. unfold chain_to in E. rewrite Hi in E.
  destruct (postpone_spec (cs_index s) Hwf (bi_nChainTrust t) (block_hash b) i Hi) as (m & mi & Hmi & Hpost & Hmin & Hcont & Hl & Hx & Htrust).
  destruct (postpone _ _) as [sec o]. cbn [fst snd] in *. subst o. apply M_bind_ok in E as (? & ? & [[= <-]%or_abort_ok ->]%lift_ok & E).
  rewrite (hash_of _ Hwf m mi Hmi) in E. apply M_bind_ok in E as (u3 & s3 & E3 & E).
  unfold on_reject in E3. destruct (Reorganize _ _ _ _ _ _ _ _ _) as [r4 s4] eqn:E4. destruct r4 as [u4|n| |]; [|..|done|done].
  2: { exfalso. revert E3. intros (? & ? & _ & (? & ? & _ & E3)%M_bind_ok)%M_bind_ok. done. }
  injection E3 as -> ->. apply (Reorganize_ok _ s3 tip m u3) in E4 as (Hco3 & Htree3 & _ & _); [|done..|by apply Hk; eexists].
  cbn [cs_index upd_db] in Htree3. apply (reconnect_ok _ s3 s2 m u2) in E as (tip' & Hin & Hco2 & Htree2 & _); [|done| |].
  - exists tip'. split_and!; [done| |by transitivity (cs_index s3)|].
    + apply elem_of_cons in Hin as [->|Hin]; [done|by apply Hx].
    + destruct (decide (tip' = block_hash b)) as [->|Hne]; [by left|right]. destruct Htrust as (p & Hpp & Hgt).
      * intros Hnil. rewrite Hnil in Hin, Hl. cbn in Hl. apply list_elem_of_singleton in Hin. congruence.
      * exists t, p. split_and!; [done| |done]. rewrite (get_pprev_of _ (block_hash b) i Hi), Hp in Hpp. done.
  - by apply (continues_tree (cs_index s)).
  - intros x Hx'. by apply Hk, (same_tree_is_Some _ _ x Htree3).
Qed.

(** C6 (refinement): a new best chain is one chain everywhere. From a consistent state (a well-formed index whose links follow the
    chain of the best block, named by the database, between transactions), when [SetBestChain] returns true for an indexed block, the
    state is consistent again for the chain of some [tip'] of the new block's ancestry: the links from entry to entry
    follow that chain and no other one, the database names [tip'], the tree of entries is the same and no transaction is
    open. The variables of the best block are those of the new block, and [tip'] is the new block too, except where blocks were postponed, that is,
    where the predecessor of the new block has already more trust than the old best block, and an error stopped their connection. *)
Theorem SetBestChain_main_chain b new (s s' : chainstate) tip :
  consistent s tip -> pindexBest (cs_best s) = Some tip -> hashBestChain (cs_best s) = tip -> is_Some (cs_genesis s) ->
  (forall h, is_Some (cs_index s !! h) -> zlen h = 32) ->
  block_hash b = new -> pprev_of (cs_index s) new = Some (bh_hashPrevBlock (b_header b)) ->
  SetBestChain RIPEMD160 SHA1 SHA256 Verify nd ev files fIsInitialDownload b new s = (Ok tt, s') ->
  exists tip', consistent s' tip' /\ tip' ∈ hashes (cs_index s') new /\ same_tree (cs_index s) (cs_index s')
    /\ (exists i, cs_index s !! new = Some i /\ cs_best s' = BestBlock new (Some new) (bi_nHeight i) (bi_nChainTrust i) (GetTime nd))
    /\ (tip' = new \/ exists t p, cs_index s !! tip = Some t /\ cs_index s !! bh_hashPrevBlock (b_header b) = Some p
                              /\ bi_nChainTrust p > bi_nChainTrust t).
Proof. apply SetBestChain_accepts. Qed.

End main.

(** ** A worked example: a reorganization

    The best block 2 and the branch of the blocks 3 and 4 follow the genesis block 1; the block 4 has the most trust. The hash of a header
    is its nonce here, and the blocks are on disk. *)
#[local] Instance ex_hash : BlockHash := fun b => uint256_of (le_value (drop 76 b)).
#[local] Instance ex_checker : SigChecker unit := SigCheck.pure_checker SigCheck.toy_verify.
Definition ex_coinbase (n : Z) : CTransaction := Transaction 1 2000 [TxIn COutPoint_SetNull [1; n] UINT32_MAX []] [TxOut 1000000 [0x51]] 0.
Definition ex_block (prev n : Z) : CBlock :=
  let vtx := [ex_coinbase n] in
  let header root := BlockHeader 6 (uint256_of prev) root 2000 0x1e0fffff n in
  Block (header (default [] (block_merkle_root (Block (header []) vtx [])))) vtx [].
Definition ex_written : disk * list (Z * Z) :=
  foldl (fun w b => match BlockFile.WriteToDisk w.1 1 b with Some (d, p) => (d, w.2 ++ [p]) | None => w end) (∅, [])
    [ex_block 1 2; ex_block 1 3; ex_block 3 4].
Definition ex_indexed (prev n trust nHeight : Z) (pos : Z * Z) : CBlockIndex :=
  set_links (Some (uint256_of n)) (Some (uint256_of prev)) None (set_place trust nHeight (CBlockIndex_new pos.1 pos.2 (ex_block prev n))).
Definition ex_index : BlockMap :=
  let pos i := default (0, 0) (ex_written.2 !! i) in
  {[ uint256_of 1 := set_links (Some (uint256_of 1)) None (Some (uint256_of 2))
       (set_place 1 0 (set_flags BLOCK_STAKE_MODIFIER 0 0 (uint256_of 0) (CBlockIndex_new 1 0 (ex_block 0 1))));
     uint256_of 2 := ex_indexed 1 2 5 1 (pos 0%nat);
     uint256_of 3 := ex_indexed 1 3 5 1 (pos 1%nat);
     uint256_of 4 := ex_indexed 3 4 6 2 (pos 2%nat) ]}.
Definition ex_best_db : LevelDB.CLevelDB := default LevelDB.empty_db (snd <$> LevelDB.WriteHashBestChain (uint256_of 2) LevelDB.empty_db).
Definition ex_state : chainstate LevelDB.CLevelDB unit :=
  CState ex_index (Some (uint256_of 1)) (BestBlock (uint256_of 2) (Some (uint256_of 2)) 1 5 0) 0 0 ex_best_db Mempool.empty_pool tt
    [] [] false ∅ ∅.
Definition ex_run : res unit * chainstate LevelDB.CLevelDB unit :=
  SetBestChain Crypto.RIPEMD160 Crypto.SHA1 Crypto.SHA256 SigCheck.toy_verify ex_node (Env mainnet 2000 50 4 1) ex_written.1 false
    (ex_block 3 4) (uint256_of 4) ex_state.

Lemma keys_check (m : BlockMap) : forallb (fun e => zlen e.1 =? 32) (map_to_list m) = true -> forall h, is_Some (m !! h) -> zlen h = 32.
Proof. rewrite forallb_forall. intros Hall h [b Hb]. by apply Z.eqb_eq, (Hall (h, b)), list_elem_of_In, elem_of_map_to_list. Qed.

Lemma SetBestChain_main_chain_witness :
  main_chain (cs_index ex_run.2) (uint256_of 4) /\ ReadHashBestChain (cs_db ex_run.2) = Some (Some (uint256_of 4))
  /\ pnext_of (cs_index ex_state) (uint256_of 1) = Some (uint256_of 2).
Proof.
  assert (consistent (db_ok := LevelDB.writable) (opened := fun d => LevelDB.no_batch d = false) ex_state (uint256_of 2)) as Hco.
  { split.
    - apply index_wf_check. vm_compute. reflexivity.
    - apply (bool_decide_unpack _). vm_compute. exact I.
    - apply main_chain_check. vm_compute. reflexivity.
    - split; [split; vm_compute; reflexivity|vm_compute; discriminate].
    - vm_compute. reflexivity. }
  assert (ex_run.1 = Ok tt) as E by (vm_compute; reflexivity).
  destruct (SetBestChain_main_chain (disk_of := LevelDB.pdb) Crypto.RIPEMD160 Crypto.SHA1 Crypto.SHA256 SigCheck.toy_verify ex_node
    (Env mainnet 2000 50 4 1) ex_written.1 false (ex_block 3 4) (uint256_of 4) ex_state ex_run.2 (uint256_of 2) Hco)
    as (tip' & [_ _ Hm _ Hr] & _ & _ & _ & Hlast).
  - reflexivity.
  - reflexivity.
  - by eexists.
  - apply keys_check. vm_compute. reflexivity.
  - vm_compute. reflexivity.
  - vm_compute. reflexivity.
  - rewrite <-E. apply surjective_pairing.
  - assert (tip' = uint256_of 4) as ->.
    { destruct Hlast as [->|(t & p & Ht & Hp & Hgt)]; [done|]. exfalso.
      assert (bi_nChainTrust <$> cs_index ex_state !! uint256_of 2 = Some 5) as Et by (vm_compute; reflexivity).
      assert (bi_nChainTrust <$> cs_index ex_state !! bh_hashPrevBlock (b_header (ex_block 3 4)) = Some 5) as Ep by (vm_compute; reflexivity).
      rewrite Ht in Et. rewrite Hp in Ep. injection Et as Et. injection Ep as Ep. lia. }
    split_and!; [exact Hm|exact Hr|vm_compute; reflexivity].
Defined.

End BestChainMain.
