(* ===== verification/BlockIndexProps.v ===== *)
(** * BlockIndexProps: a block that joins the index

    A new entry is a leaf of the tree: it changes no chain and no link, so a consistent state stays consistent, whether the new
    block becomes the best one or not. *)
From stdpp Require Import strings.
From S2P Require Import Prelude ScriptNum Script Serialize Crypto Transaction Merkle Uint256 BlockData LevelDB.
From S2P Require Import Keys SigCheck Interpreter Solver Inputs Difficulty BlockFile ChainIndex Kernel Block BlockProps InputsProps Mempool BestChain.
From S2P Require Import BestChainLinks BestChainProps BestChainMain.
Import Tx BlockData Script_param Inputs InputsProps Difficulty ChainIndex Block BlockProps BestChain BestChainLinks BestChainProps BestChainMain.
Open Scope block_scope.

Module BlockIndexProps.

(** ** A new leaf *)

Section leaf.
Variables (m : BlockMap) (h p : uint256) (i q : CBlockIndex).
Hypothesis Hwf : index_wf m.
Hypothesis Hnew : m !! h = None.
Hypothesis Hprev : m !! p = Some q.
(** [i] is an entry that follows [p]. *)
Definition leaf : Prop := (bi_phashBlock i, bi_pprev i, bi_nHeight i, bi_pnext i) = (Some h, Some p, bi_nHeight q + 1, None).
Hypothesis Hleaf : leaf.

Lemma leaf_ne x b : m !! x = Some b -> x <> h.
Proof. intros Hx ->. congruence. Qed.

Lemma leaf_lookup x : x <> h -> <[h := i]> m !! x = m !! x.
Proof. intros Hx. by rewrite lookup_insert_ne. Qed.

Lemma leaf_wf : index_wf (<[h := i]> m).
Proof.
  pose proof Hleaf as [= L1 L2 L3 _]. split; intros x b.
  - intros [[<- <-]|[Hne Hb]]%lookup_insert_Some; [done|]. by apply (iw_hash m Hwf).
  - intros y [[<- <-]|[Hne Hb]]%lookup_insert_Some Hy.
    + assert (y = p) as -> by congruence. exists q. rewrite leaf_lookup by (by eapply leaf_ne). by split.
    + destruct (iw_prev m Hwf x b y Hb Hy) as (b' & Hb' & Hh). exists b'. rewrite leaf_lookup by (by eapply leaf_ne). by split.
  - intros [[<- <-]|[Hne Hb]]%lookup_insert_Some Hy; [congruence|]. by apply (iw_genesis m Hwf x).
  - intros [[<- <-]|[Hne Hb]]%lookup_insert_Some; [|by apply (iw_height m Hwf x)].
    pose proof (iw_height m Hwf _ _ Hprev). lia.
Qed.

Lemma leaf_pprev x : x <> h -> pprev_of (<[h := i]> m) x = pprev_of m x.
Proof. intros Hx. unfold pprev_of. by rewrite leaf_lookup. Qed.
Lemma leaf_pnext x : pnext_of (<[h := i]> m) x = pnext_of m x.
Proof.
  unfold pnext_of. destruct (decide (x = h)) as [->|Hx]; [|by rewrite leaf_lookup]. rewrite lookup_insert_eq, Hnew. cbn. by injection Hleaf.
Qed.

Lemma leaf_hashes x b : m !! x = Some b -> hashes (<[h := i]> m) x = hashes m x.
Proof.
  remember (Z.to_nat (bi_nHeight b)) as k eqn:Ek. revert x b Ek. induction k as [|k IH]; intros x b Ek Hb.
  all: pose proof (leaf_ne x b Hb) as Hne.
  all: rewrite (hashes_cons m Hwf x b Hb), (hashes_cons _ leaf_wf x b) by (by rewrite leaf_lookup); rewrite leaf_pprev by done; f_equal.
  all: destruct (pprev_of m x) as [y|] eqn:Ep; [|done]; unfold pprev_of in Ep; rewrite Hb in Ep; cbn in Ep.
  all: destruct (iw_prev m Hwf x b y Hb Ep) as (b' & Hb' & Hh); pose proof (iw_height m Hwf _ _ Hb').
  - lia.
  - apply (IH y b'); [lia|done].
Qed.

Lemma leaf_main_chain tip : is_Some (m !! tip) -> main_chain m tip -> main_chain (<[h := i]> m) tip.
Proof.
  intros [t Ht] Hm x n. rewrite leaf_pnext, (leaf_hashes tip t Ht), (Hm x n).
  split; intros [Hn Hp]; (split; [done|]); destruct (hashes_in m Hwf tip n Hn) as [b Hb]; apply leaf_ne in Hb; by rewrite leaf_pprev in *.
Qed.
End leaf.

Section index.
Context `{MPI} `{BlockHash}.
Context {D : Type} `{!TxDB D, !BlockDB D, !ChainDB D} {db_ok opened : D -> Prop} {X : Type} {disk_of : D -> X}
  `{!ChainDBLaws D db_ok opened disk_of}.
Context {C : Type} `{!SigChecker C}.
Variables RIPEMD160 SHA1 SHA256 : bytes -> bytes.
Variable Verify : bytes -> uint256 -> bytes -> bool.
Variable nd : node.
Variable ev : env.
Variable files : disk.
Variable fIsInitialDownload : bool.
Variable sp : Kernel.stake_params.

Abbreviation chainstate := (chainstate D C).
Abbreviation consistent := (consistent (db_ok := db_ok) (opened := opened) (C := C)).

Lemma entropy_place n b b' : SetStakeEntropyBit n b = Some b' -> place b' = place b /\ bi_pnext b' = bi_pnext b.
Proof. unfold SetStakeEntropyBit. destruct (n >? 1); [done|]. by intros [= <-]. Qed.

(** Where a new entry is placed *)
Lemma new_entry_leaf b nFile nBlockPos (s : chainstate) q i :
  cs_index s !! bh_hashPrevBlock (b_header b) = Some q ->
  new_entry ev sp b nFile nBlockPos s = Ok i -> leaf (block_hash b) (bh_hashPrevBlock (b_header b)) i q.
Proof.
  intros Hq. unfold new_entry. rewrite Hq. intros (trust & _ & E)%res_bind_ok.
  apply res_bind_ok in E as (i1 & E1 & E). destruct (SetStakeEntropyBit _ _) as [i0|] eqn:E0; [|done]. injection E1 as <-.
  apply entropy_place in E0 as [Hp0 Hn0]. apply res_bind_ok in E as (i2 & E2 & E).
  assert (place i2 = place i0 /\ bi_pnext i2 = bi_pnext i0) as [Hp2 Hn2].
  { destruct (bi_IsProofOfStake i0); [|by injection E2 as <-]. destruct (cs_mapProofOfStake s !! _); [|done]. by injection E2 as <-. }
  destruct (Kernel.ComputeNextStakeModifier sp _ i2 _) as [[nMod fGen]|]; [|done].
  apply res_bind_ok in E as (u & _ & E). apply res_bind_ok in E as (u2 & _ & [= <-]).
  injection Hp0 as A1 A2 A3 _. injection Hp2 as B1 B2 B3 _. unfold leaf. cbn in *. congruence.
Qed.

(** A computation that returns, with a value or rejecting *)
Definition returns {A} (r : res A) : Prop := match r with Ok _ | Reject _ => True | _ => False end.
Lemma bind_returns {S A B} (m : M S A) (k : A -> M S B) s r s' : M_bind m k s = (r, s') -> returns r ->
  (exists a s1, m s = (Ok a, s1) /\ k a s1 = (r, s')) \/ (exists d, r = Reject d /\ m s = (Reject d, s')).
Proof.
  unfold M_bind. destruct (m s) as [[a|d| |] s1].
  - intros E _. left. by exists a, s1.
  - intros [= <- <-] _. right. by exists d.
  - by intros [= <- <-] ?.
  - by intros [= <- <-] ?.
Qed.

(** The transaction that writes the new entry succeeds. *)
Lemma write_entry d (k : M chainstate unit) s r s' : idle (db_ok := db_ok) (opened := opened) (cs_db s) ->
  (do! _ := require (db_op TxnBegin) in do! _ := db_op (fun x => WriteBlockIndex x d) in do! _ := require (db_op TxnCommit) in k) s = (r, s') ->
  returns r -> exists d', idle (db_ok := db_ok) (opened := opened) d' /\ ReadHashBestChain d' = ReadHashBestChain (cs_db s) /\ k (upd_db d' s) = (r, s').
Proof.
  intros [Hok Hno] E Hr. destruct (begin_ok (cs_db s) Hok Hno) as (d1 & Hb & Hok1 & Ho1 & _ & [_ Hr1]).
  unfold require at 1, M_bind at 1 2, db_op at 1 in E. rewrite Hb in E. cbn [negb reject_if lift] in E.
  apply bind_returns in E as [(ok & s3 & (d3 & E3 & ->)%db_op_ok & E)|(n & _ & E)]; [|by apply db_op_accepts in E|done].
  cbn [cs_db upd_db] in E3. destruct (entry_keeps d1 d ok d3 Hok1 Ho1 E3) as (Hok3 & Ho3 & _ & [_ Hr3]).
  destruct (commit_ok d3 Hok3 Ho3) as (d4 & Hc & Hok4 & Hno4 & [_ Hr4]).
  unfold require, M_bind, db_op in E. cbn [cs_db upd_db] in E. rewrite Hc in E. exists d4. split_and!; [done|congruence|exact E].
Qed.

(** What [AddToBlockIndex] does before [SetBestChain] *)
Lemma AddToBlockIndex_steps b nFile nBlockPos (s s' : chainstate) q r :
  idle (db_ok := db_ok) (opened := opened) (cs_db s) -> cs_index s !! bh_hashPrevBlock (b_header b) = Some q ->
  AddToBlockIndex RIPEMD160 SHA1 SHA256 Verify nd ev files fIsInitialDownload sp b nFile nBlockPos s = (r, s') -> returns r ->
  (exists d, r = Reject d) /\ s' = s
  \/ exists i s1, leaf (block_hash b) (bh_hashPrevBlock (b_header b)) i q /\ cs_index s !! block_hash b = None
    /\ cs_index s1 = <[block_hash b := i]> (cs_index s) /\ cs_best s1 = cs_best s /\ cs_genesis s1 = cs_genesis s
    /\ idle (db_ok := db_ok) (opened := opened) (cs_db s1) /\ ReadHashBestChain (cs_db s1) = ReadHashBestChain (cs_db s)
    /\ if bi_nChainTrust i >? nBestChainTrust (cs_best s)
       then SetBestChain RIPEMD160 SHA1 SHA256 Verify nd ev files fIsInitialDownload b (block_hash b) s1 = (r, s') else (r, s') = (Ok tt, s1).
Proof.
  intros [Hok Hno] Hq E Hr. unfold AddToBlockIndex in E. unfold M_bind at 1, mget in E.
  apply bind_returns in E as [(? & ? & [Hnew%reject_if_ok ->]%lift_ok & E)|(d & -> & E)]; [| |done]; [|left; injection E as _ <-; by split; [eexists|]].
  apply bool_decide_eq_false in Hnew. apply bind_returns in E as [(i & ? & [Hi ->]%lift_ok & E)|(d & -> & E)]; [| |done];
    [right|left; injection E as _ <-; by split; [eexists|]].
  exists i. unfold M_bind at 1, modify at 1 in E. set (s2 := upd_index _ s) in E.
  apply bind_returns in E as [(? & s3 & E3 & E)|(d & -> & E)]; [| |done]; [|by destruct (bi_IsProofOfStake i)].
  assert (exists seen, s3 = seen s2 /\ forall x, cs_index (seen x) = cs_index x /\ cs_best (seen x) = cs_best x /\ cs_genesis (seen x) = cs_genesis x
    /\ cs_db (seen x) = cs_db x) as (seen & -> & Hseen).
  { destruct (bi_IsProofOfStake i); injection E3 as _ <-; [by exists (upd_seen (bi_prevoutStake i, bi_nStakeTime i))|by exists (fun x => x)]. }
  destruct (Hseen s2) as (F1 & F2 & F3 & F4). unfold M_bind at 1, modify at 1 in E. destruct (reopen_ok (cs_db s) Hok) as (Hok5 & Hno5 & Hd5).
  apply write_entry in E as (d' & Hi' & Hr' & E); [|cbn [cs_db upd_db]; by rewrite F4|done].
  exists (upd_db d' (seen s2)). cbn [cs_index cs_best cs_genesis cs_db upd_db] in *. rewrite F1, F2, F3. split_and!; try done.
  - by eapply new_entry_leaf.
  - by apply eq_None_not_Some.
  - rewrite Hr', F4. destruct (idle_reads (cs_db s) (Reopen (cs_db s)) Hok Hok5 Hno Hno5 (eq_sym Hd5)) as [_ ->]. done.
  - destruct (bi_nChainTrust i >? _); [exact E|by injection E as <- <-].
Qed.


(** The entries of [m] are entries of [m'] at the same place. *)
Definition tree_grows (m m' : BlockMap) : Prop := forall h b, m !! h = Some b -> place <$> m' !! h = Some (place b).

Lemma leaf_grows m h i : m !! h = None -> tree_grows m (<[h := i]> m).
Proof. intros Hn x b Hb. rewrite lookup_insert_ne by congruence. by rewrite Hb. Qed.
Lemma grows_tree m m' m'' : tree_grows m m' -> same_tree m' m'' -> tree_grows m m''.
Proof. intros Hg Ht x b Hb. rewrite <-(Ht x). by apply Hg. Qed.

(** C8 (invariant): adding a block keeps the chain consistent, whatever the outcome. Take a state whose links, database and
    best block agree on the chain of [tip]; when [AddToBlockIndex] of a block with a known predecessor returns, with success or
    failure, the state is consistent for some [tip'], and no entry of the index has moved or lost its trust. Either the best block is
    what it was, or the call succeeded, the best block is the new one with strictly more trust than before, and the links follow a
    chain of its ancestry, that of the block itself unless blocks had to be postponed. *)
Theorem AddToBlockIndex_consistent b nFile nBlockPos (s s' : chainstate) r tip q :
  consistent s tip -> pindexBest (cs_best s) = Some tip -> hashBestChain (cs_best s) = tip -> is_Some (cs_genesis s) ->
  (forall h, is_Some (cs_index s !! h) -> zlen h = 32) -> zlen (block_hash b) = 32 ->
  cs_index s !! bh_hashPrevBlock (b_header b) = Some q ->
  AddToBlockIndex RIPEMD160 SHA1 SHA256 Verify nd ev files fIsInitialDownload sp b nFile nBlockPos s = (r, s') -> returns r ->
  exists tip', consistent s' tip' /\ tree_grows (cs_index s) (cs_index s')
    /\ (tip' = tip /\ cs_best s' = cs_best s
        \/ r = Ok tt /\ tip' ∈ hashes (cs_index s') (block_hash b)
           /\ pindexBest (cs_best s') = Some (block_hash b) /\ hashBestChain (cs_best s') = block_hash b
           /\ nBestChainTrust (cs_best s) < nBestChainTrust (cs_best s')
           /\ (tip' = block_hash b \/ exists t, cs_index s !! tip = Some t /\ bi_nChainTrust t < bi_nChainTrust q)).
Proof.
  intros Hco Hbest Hhash Hg Hk Hz Hq E Hr. pose proof Hco as [Hwf [t Ht] Hm Hidle Hdisk].
  apply (AddToBlockIndex_steps b nFile nBlockPos s s' q r Hidle Hq) in E as [[_ ->]|(i & s1 & Hl & Hn & Ei & Eb & Eg & Hi1 & Hr1 & E)]; [| |done].
  { exists tip. split_and!; [done| |by left]. intros x y Hx. by rewrite Hx. }
  pose proof (leaf_wf _ _ _ _ _ Hwf Hn Hq Hl) as Hwf1. pose proof (leaf_grows _ (block_hash b) i Hn) as Hgrow. rewrite <-Ei in Hwf1, Hgrow.
  assert (tip <> block_hash b) as Htn by congruence. assert (bh_hashPrevBlock (b_header b) <> block_hash b) as Hqn by congruence.
  assert (consistent s1 tip) as Hco1.
  { split; [done| | |done|congruence]; rewrite Ei; [rewrite lookup_insert_ne by congruence; by eexists|].
    apply (leaf_main_chain _ _ _ _ _ Hwf Hn Hq Hl); [by eexists|done]. }
  destruct (Z.gtb_spec (bi_nChainTrust i) (nBestChainTrust (cs_best s))) as [Hgt|_].
  2: { injection E as -> ->. exists tip. split_and!; [done..|by left]. }
  destruct r as [[]|n| |]; [| |done..].
  - apply (SetBestChain_accepts (disk_of := disk_of)) with (tip := tip) in E as (tip' & Hco2 & Hin & Htree & (j & Hj & Hb2) & Hlast); try done; [|congruence..| | |].
    + exists tip'. rewrite Hb2. rewrite Ei, lookup_insert_eq in Hj. injection Hj as <-.
      split_and!; [done|by eapply grows_tree|right; split_and!; try done].
      destruct Hlast as [->|(t' & p & Ht' & Hp & Hlt)]; [by left|right]. rewrite Ei, lookup_insert_ne in Ht', Hp by congruence.
      exists t'. split; [done|]. assert (p = q) by congruence. subst. lia.
    + by rewrite Eg.
    + intros x. rewrite Ei, lookup_insert_is_Some. intros [<-|[_ Hx]]; [done|by apply Hk].
    + rewrite Ei. unfold pprev_of. rewrite lookup_insert_eq. cbn. by injection Hl.
  - apply (SetBestChain_rejects (disk_of := disk_of)) in E as Hu; [|done]. exists tip. split_and!.
    + by eapply consistent_unchanged.
    + eapply grows_tree; [exact Hgrow|]. by destruct Hu as [[? _]%calm_links _].
    + left. split; [done|]. destruct Hu as [[_ Hs] _]. unfold settled in Hs. congruence.
Qed.

End index.

(** The example of [BestChainMain], before the block 4 is known *)
#[local] Instance ex_hash : BlockHash := BestChainMain.ex_hash.
#[local] Instance ex_checker : SigChecker unit := BestChainMain.ex_checker.
Definition ex_before : chainstate LevelDB.CLevelDB unit := upd_index (delete (uint256_of 4)) ex_state.
Definition ex_add : res unit * chainstate LevelDB.CLevelDB unit :=
  AddToBlockIndex Crypto.RIPEMD160 Crypto.SHA1 Crypto.SHA256 SigCheck.toy_verify ex_node (Env mainnet 2000 50 4 1) ex_written.1 false
    Kernel.mainnet_stake (ex_block 3 4) 1 322 ex_before.

Lemma AddToBlockIndex_consistent_witness :
  ex_add.1 = Ok tt /\ exists tip', consistent (db_ok := LevelDB.writable) (opened := fun d => LevelDB.no_batch d = false) ex_add.2 tip'.
Proof.
  assert (ex_add.1 = Ok tt) as E by (vm_compute; reflexivity). split; [exact E|].
  destruct (cs_index ex_before !! uint256_of 3) as [q|] eqn:Hq; [|vm_compute in Hq; discriminate].
  destruct (AddToBlockIndex_consistent (disk_of := LevelDB.pdb) (db_ok := LevelDB.writable) (opened := fun d => LevelDB.no_batch d = false)
    Crypto.RIPEMD160 Crypto.SHA1 Crypto.SHA256 SigCheck.toy_verify ex_node
    (Env mainnet 2000 50 4 1) ex_written.1 false Kernel.mainnet_stake (ex_block 3 4) 1 322 ex_before ex_add.2 ex_add.1 (uint256_of 2) q)
    as (tip' & Hco & _); [..|by exists tip'].
  - split.
    + apply index_wf_check. vm_compute. reflexivity.
    + apply (bool_decide_unpack _). vm_compute. exact I.
    + apply main_chain_check. vm_compute. reflexivity.
    + split; [split; vm_compute; reflexivity|vm_compute; discriminate].
    + vm_compute. reflexivity.
  - reflexivity.
  - reflexivity.
  - by eexists.
  - apply keys_check. vm_compute. reflexivity.
  - vm_compute. reflexivity.
  - exact Hq.
  - apply surjective_pairing.
  - rewrite E. exact I.
Defined.
End BlockIndexProps.
