(* ===== verification/ProcessBlock.v ===== *)
(** * ProcessBlock: blocks as they arrive ([block/block_process.cpp], [block/block.cpp], [checkpoints.cpp])

    A block is checked, kept as an orphan while its predecessor is unknown, or accepted: checked against its predecessor and the checkpoints,
    written to disk and added to the index; then the orphans that waited for it are tried. The synchronized checkpoint moves with the
    messages of its master. *)
From S2P Require Import Prelude ScriptNum Script Serialize Crypto Transaction Merkle Uint256 BlockData LevelDB.
From S2P Require Import Keys SigCheck Interpreter Solver Inputs Difficulty BlockFile ChainIndex Checkpoints Kernel Block Mempool BestChain.
Import Serialize Tx BlockData Script_param Inputs Difficulty ChainIndex Block BestChain.
Open Scope block_scope.

Module ProcessBlock.

(** ** The state *)

(** [CSyncCheckpoint]: the unsigned part and the two byte strings that are sent *)
Record CSyncCheckpoint : Type := SyncCheckpoint { sc_nVersion : Z; sc_hashCheckpoint : uint256; sc_vchMsg : bytes; sc_vchSig : bytes }.
Definition CSyncCheckpoint_new (hash : uint256) : CSyncCheckpoint := SyncCheckpoint 1 hash [] [].
(** [SetNull] of the derived class keeps the unsigned part. *)
Definition SetNull (c : CSyncCheckpoint) : CSyncCheckpoint := SyncCheckpoint (sc_nVersion c) (sc_hashCheckpoint c) [] [].
Definition IsNull (c : CSyncCheckpoint) : bool := bool_decide (sc_hashCheckpoint c = uint256_of 0).

Definition unsigned_codec : codec (Z * uint256) := pair int32_le (flat 32).
Definition strMasterPubKey : bytes :=
  reverse (le_bytes 65 0x04fe7e627322f81286be111dd5280f32827911128d20d1f54c5078a9bcbb31e41d94e625b9623dca5e3879edb9268a2037954a61d78d539b3d2355f1160f1c87eb).

(** The variables of [Checkpoints] *)
Record sync_state : Type := Sync {
  hashSyncCheckpoint : uint256; hashInvalidCheckpoint : uint256; hashPendingCheckpoint : uint256;
  checkpointMessage : CSyncCheckpoint; checkpointMessagePending : CSyncCheckpoint }.

(** The orphan blocks by hash and by the hash of their predecessor (in the order of arrival), and their stakes *)
Record orphan_state : Type := Orphans {
  mapOrphanBlocks : gmap uint256 CBlock; mapOrphanBlocksByPrev : gmap uint256 (list CBlock); setStakeSeenOrphan : gset (COutPoint * Z) }.

(** What is asked of, sent to and held against peers *)
Inductive event : Type :=
  | Misbehaving (n : Z)
  | PushGetBlocks (pindexBest : option uint256) (hash : uint256)
  | AskForBlock (hash : uint256)
  | RelayInventory (hash : uint256)
  | RelayCheckpoint (c : CSyncCheckpoint)
  | Warning.

(** [CheckpointsMode] *)
Inductive CPMode : Type := STRICT | ADVISORY | PERMISSIVE.
#[global] Instance CPMode_eq_dec : EqDecision CPMode.
Proof. solve_decision. Defined.

(** [ps_download] holds [nLastUpdate] and [pindexLastBest] of [IsInitialBlockDownload], [ps_counter] the [counter] of
    [AddToBlockIndex]. *)
Record pstate {D C : Type} : Type := PState {
  ps_chain : chainstate D C; ps_disk : disk; ps_nCurrentBlockFile : Z; ps_sync : sync_state; ps_orphans : orphan_state;
  ps_download : Z * option uint256; ps_counter : Z; ps_events : list event }.
Arguments pstate : clear implicits.
Arguments PState {D C}.

(** Settings and what the model does not compute: the mode, the automatic checkpoints, whether there is room on the disk, the signature of
    the checkpoint master (on its node), and [CPubKey::ReserealizeSignature], which calls OpenSSL *)
Record settings : Type := Settings {
  CheckpointsMode : CPMode; mapAutocheck : gmap Z uint256; CheckDiskSpace : bool;
  MasterSign : option (uint256 -> option bytes); ReserealizeSignature : bytes -> option bytes }.

Definition nCheckBlocks : nat := 25.
Definition DONOT_ACCEPT_BLOCKS_ADMIT_HOURS : Z := 36.
Definition DONOT_ACCEPT_BLOCKS_ADMIT_HOURS_TESTNET : Z := 168.
Definition BLOCKS_ADMIT_HOURS_SWITCH_TIME : Z := 1556668800.

Section setters.
Context {D C : Type}.
Implicit Type s : pstate D C.
Definition upd_chain (c : chainstate D C) s : pstate D C := PState c (ps_disk s) (ps_nCurrentBlockFile s) (ps_sync s) (ps_orphans s) (ps_download s) (ps_counter s) (ps_events s).
Definition upd_disk (d : disk) (n : Z) s : pstate D C := PState (ps_chain s) d n (ps_sync s) (ps_orphans s) (ps_download s) (ps_counter s) (ps_events s).
Definition upd_sync (f : sync_state -> sync_state) s : pstate D C :=
  PState (ps_chain s) (ps_disk s) (ps_nCurrentBlockFile s) (f (ps_sync s)) (ps_orphans s) (ps_download s) (ps_counter s) (ps_events s).
Definition upd_orphans (f : orphan_state -> orphan_state) s : pstate D C :=
  PState (ps_chain s) (ps_disk s) (ps_nCurrentBlockFile s) (ps_sync s) (f (ps_orphans s)) (ps_download s) (ps_counter s) (ps_events s).
Definition upd_download (p : Z * option uint256) s : pstate D C :=
  PState (ps_chain s) (ps_disk s) (ps_nCurrentBlockFile s) (ps_sync s) (ps_orphans s) p (ps_counter s) (ps_events s).
Definition upd_counter (n : Z) s : pstate D C :=
  PState (ps_chain s) (ps_disk s) (ps_nCurrentBlockFile s) (ps_sync s) (ps_orphans s) (ps_download s) n (ps_events s).
Definition emit (e : event) s : pstate D C :=
  PState (ps_chain s) (ps_disk s) (ps_nCurrentBlockFile s) (ps_sync s) (ps_orphans s) (ps_download s) (ps_counter s) (ps_events s ++ [e]).
End setters.

(** [mapProofOfStake.insert], which keeps an entry that is there *)
Definition see_proof {D C} (hash proof : uint256) (c : chainstate D C) : chainstate D C :=
  CState (cs_index c) (cs_genesis c) (cs_best c) (cs_nBestInvalidTrust c) (cs_nTransactionsUpdated c) (cs_db c) (cs_pool c) (cs_checker c)
    (cs_synced c) (cs_locators c) (cs_obsolete c) (cs_setStakeSeen c)
    (<[hash := default proof (cs_mapProofOfStake c !! hash)]> (cs_mapProofOfStake c)).
Definition set_invalid (h : uint256) (c : sync_state) : sync_state :=
  Sync (hashSyncCheckpoint c) h (hashPendingCheckpoint c) (checkpointMessage c) (checkpointMessagePending c).
Definition set_pending (h : uint256) (msg : CSyncCheckpoint) (c : sync_state) : sync_state :=
  Sync (hashSyncCheckpoint c) (hashInvalidCheckpoint c) h (checkpointMessage c) msg.
Definition set_current (h : uint256) (c : sync_state) : sync_state :=
  Sync h (hashInvalidCheckpoint c) (hashPendingCheckpoint c) (checkpointMessage c) (checkpointMessagePending c).
Definition set_message (msg : CSyncCheckpoint) (c : sync_state) : sync_state :=
  Sync (hashSyncCheckpoint c) (hashInvalidCheckpoint c) (hashPendingCheckpoint c) msg (checkpointMessagePending c).
Definition no_pending (c : sync_state) : sync_state := set_pending (uint256_of 0) (SetNull (checkpointMessagePending c)) c.

(** The block that no other orphan block precedes; [fuel] bounds the number of blocks. *)
Fixpoint orphan_root (fuel : nat) (m : gmap uint256 CBlock) (b : CBlock) : option CBlock :=
  match m !! bh_hashPrevBlock (b_header b) with
  | None => Some b
  | Some p => match fuel with O => None | S fuel => orphan_root fuel m p end
  end.

(** Conversion to an 8-bit signed integer *)
Definition s8 (x : Z) : Z := (x + 2 ^ 7) mod 2 ^ 8 - 2 ^ 7.

(** A computation that fails with [false] or not, as a boolean *)
Definition succeeds {S} (m : M S unit) : M S bool := on_reject (do! _ := m in mret true) (fun _ => mret false).

Section process.
Context `{MPI} `{BlockHash}.
Context {D : Type} `{!TxDB D, !BlockDB D, !ChainDB D}.
Context {C : Type} `{!SigChecker C}.
Variables RIPEMD160 SHA1 SHA256 : bytes -> bytes.
Variable Verify : bytes -> uint256 -> bytes -> bool.
Variable nd : node.
Variable ev : env.
Variable GetTime : Z.
Variable sp : Kernel.stake_params.
Variable cfg : settings.

Abbreviation pstate := (pstate D C).
Abbreviation PM := (M pstate).

Definition on_chain {A} (m : disk -> M (chainstate D C) A) : PM A := fun s =>
  let '(r, c) := m (ps_disk s) (ps_chain s) in (r, upd_chain c s).

(** The variables of [IsInitialBlockDownload] change when it sees a new best block. *)
Definition IsInitialBlockDownload : PM bool :=
  do! s := mget in
  let best := cs_best (ps_chain s) in
  match pindexBest best with
  | None => mret true
  | Some h =>
      if nBestHeight best <? Checkpoints.GetTotalBlocksEstimate (fTestNet (e_net ev)) then mret true
      else
        let '(nLastUpdate, pindexLastBest) := ps_download s in
        let fNew := negb (bool_decide (pindexLastBest = Some h)) in
        let nLastUpdate := if fNew then GetTime else nLastUpdate in
        do! _ := (if fNew then modify (upd_download (GetTime, Some h)) else mret tt) in
        do! i := lift (or_abort (cs_index (ps_chain s) !! h)) in
        mret ((GetTime - nLastUpdate <? 10) && (bi_nTime i <? GetTime - nOneDay))
  end.

(** The end of [AddToBlockIndex]: [IsInitialBlockDownload] is asked for most blocks, to decide whether the user interface
    repaints. *)
Definition count_block : PM unit :=
  do! s := mget in
  let counter := s8 (ps_counter s + 1) in
  do! _ := modify (upd_counter counter) in
  if Z.land counter 0x0F =? 0 then mret tt else do! _ := IsInitialBlockDownload in mret tt.

Definition GetOrphanRoot (o : orphan_state) (b : CBlock) : option uint256 :=
  block_hash <$> orphan_root (size (mapOrphanBlocks o)) (mapOrphanBlocks o) b.
Definition WantedByOrphan (o : orphan_state) (b : CBlock) : option uint256 :=
  (fun b => bh_hashPrevBlock (b_header b)) <$> orphan_root (size (mapOrphanBlocks o)) (mapOrphanBlocks o) b.
Definition WantedByPendingSyncCheckpoint (c : sync_state) (o : orphan_state) (hashBlock : uint256) : option bool :=
  if bool_decide (hashPendingCheckpoint c = uint256_of 0) then Some false
  else if bool_decide (hashBlock = hashPendingCheckpoint c) then Some true
  else
    match mapOrphanBlocks o !! hashPendingCheckpoint c with
    | Some b => w ← WantedByOrphan o b; Some (bool_decide (hashBlock = w))
    | None => Some false
    end.

(** ** The synchronized checkpoint *)

(** [IsInitialBlockDownload] is asked before: the best block changes at the end only. *)
Definition SetBestChain_block (h : uint256) (b : CBlock) : PM unit :=
  do! fIsInitialDownload := IsInitialBlockDownload in
  on_chain (fun files => SetBestChain RIPEMD160 SHA1 SHA256 Verify nd ev files fIsInitialDownload b h).

(** [WriteSyncCheckpoint], on a database object of its own *)
Definition WriteSyncCheckpoint (h : uint256) : PM unit :=
  do! _ := on_chain (fun _ =>
    do! _ := modify (fun s => BestChain.upd_db (Reopen (cs_db s)) s) in
    do! _ := db_op TxnBegin in
    do! ok := db_op (fun d => BestChain.WriteSyncCheckpoint d h) in
    if negb ok then do! _ := db_op TxnAbort in lift (Reject 0) else require (db_op TxnCommit)) in
  modify (upd_sync (set_current h)).

(** The chain of an entry that is not in the main chain becomes the best one. *)
Definition to_main_chain (h : uint256) (on_fail : PM unit) : PM unit :=
  do! s := mget in
  do! i := lift (or_abort (cs_index (ps_chain s) !! h)) in
  if IsInMainChain (pindexBest (cs_best (ps_chain s))) i then mret tt
  else
    match BlockFile.ReadIndexed (e_net ev) (ps_disk s) i with
    | None => lift (Reject 0)
    | Some b => on_reject (SetBestChain_block h b) (fun _ => do! _ := on_fail in lift (Reject 0))
    end.

(** [ValidateSyncCheckpoint] of the received hash *)
Definition validate (h : uint256) : PM bool :=
  do! s := mget in
  let c := ps_sync s in
  let '(ok, invalid) := Checkpoints.ValidateSyncCheckpoint (cs_index (ps_chain s)) (hashSyncCheckpoint c) (hashInvalidCheckpoint c) h in
  do! _ := modify (upd_sync (set_invalid invalid)) in mret ok.

Definition AcceptPendingSyncCheckpoint : PM unit :=
  do! s := mget in
  let pending := hashPendingCheckpoint (ps_sync s) in
  if negb (bool_decide (pending = uint256_of 0)) && bool_decide (is_Some (cs_index (ps_chain s) !! pending)) then
    do! ok := validate pending in
    if negb ok then do! _ := modify (upd_sync no_pending) in lift (Reject 0)
    else
      do! _ := to_main_chain pending (modify (upd_sync (set_invalid pending))) in
      do! _ := WriteSyncCheckpoint pending in
      do! _ := modify (upd_sync (fun c => no_pending (set_message (checkpointMessagePending c) c))) in
      do! s := mget in
      let msg := checkpointMessage (ps_sync s) in
      if negb (IsNull msg) then modify (emit (RelayCheckpoint msg)) else mret tt
  else lift (Reject 0).

(** The hardened checkpoint of the greatest height that is in the main chain *)
Fixpoint reset_to (l : list (Z * uint256)) : PM unit :=
  match l with
  | [] => lift (Reject 0)
  | (_, hash) :: l =>
      do! s := mget in
      match cs_index (ps_chain s) !! hash with
      | Some i => if IsInMainChain (pindexBest (cs_best (ps_chain s))) i then WriteSyncCheckpoint hash else reset_to l
      | None => reset_to l
      end
  end.
Definition ResetSyncCheckpoint : PM unit :=
  do! c := lift (or_abort (last Checkpoints.mapCheckpoints)) in
  let hash := c.2 in
  do! s := mget in
  do! _ := (if bool_decide (is_Some (cs_index (ps_chain s) !! hash)) then to_main_chain hash (mret tt)
            else modify (upd_sync (fun c => set_pending hash (SetNull (checkpointMessagePending c)) c))) in
  reset_to (reverse Checkpoints.mapCheckpoints).

Definition AskForPendingSyncCheckpoint (pfrom : bool) : PM unit :=
  do! s := mget in
  let pending := hashPendingCheckpoint (ps_sync s) in
  if pfrom && negb (bool_decide (pending = uint256_of 0)) && negb (bool_decide (is_Some (cs_index (ps_chain s) !! pending)))
     && negb (bool_decide (is_Some (mapOrphanBlocks (ps_orphans s) !! pending)))
  then modify (emit (AskForBlock pending)) else mret tt.

(** [CheckSignature]: the signed bytes are read after the signature has been verified; bytes that are too short throw. *)
Definition CheckSignature (c : CSyncCheckpoint) : res CSyncCheckpoint :=
  if Verify strMasterPubKey (Crypto.Hash (sc_vchMsg c)) (sc_vchSig c) then
    match get unsigned_codec (sc_vchMsg c) with
    | inr ((v, h), _) => Ok (SyncCheckpoint v h (sc_vchMsg c) (sc_vchSig c))
    | inl _ => Throws
    end
  else Reject 0.

Definition ProcessSyncCheckpoint (pfrom : bool) (msg : CSyncCheckpoint) : PM CSyncCheckpoint :=
  do! msg := lift (CheckSignature msg) in
  let hash := sc_hashCheckpoint msg in
  do! s := mget in
  if bool_decide (is_Some (cs_index (ps_chain s) !! hash)) then
    do! ok := validate hash in
    if negb ok then lift (Reject 0)
    else
      do! _ := to_main_chain hash (modify (upd_sync (set_invalid hash))) in
      do! _ := WriteSyncCheckpoint hash in
      do! _ := modify (upd_sync (fun c => no_pending (set_message msg c))) in
      mret msg
  else
    do! _ := modify (upd_sync (set_pending hash msg)) in
    do! _ := (if pfrom then
                do! _ := modify (emit (PushGetBlocks (pindexBest (cs_best (ps_chain s))) hash)) in
                do! w := (match mapOrphanBlocks (ps_orphans s) !! hash with
                          | Some b => lift (or_abort (WantedByOrphan (ps_orphans s) b))
                          | None => mret hash
                          end) in
                modify (emit (AskForBlock w))
              else mret tt) in
    lift (Reject 0).

(** [SendSyncCheckpoint] on the node of the master *)
Definition SendSyncCheckpoint (hash : uint256) : PM unit :=
  let c := CSyncCheckpoint_new hash in
  let vchMsg := put unsigned_codec (sc_nVersion c, hash) in
  match MasterSign cfg with
  | None => lift (Reject 0)
  | Some sign =>
      match sign (Crypto.Hash vchMsg) with
      | None => lift (Reject 0)
      | Some vchSig =>
          do! msg := ProcessSyncCheckpoint false (SyncCheckpoint (sc_nVersion c) hash vchMsg vchSig) in
          modify (emit (RelayCheckpoint msg))
      end
  end.

(** ** [AcceptBlock] *)

Definition nMaxOffset (pindexPrev : CBlockIndex) : Z :=
  (if fTestNet (e_net ev) || (bi_nTime pindexPrev <? BLOCKS_ADMIT_HOURS_SWITCH_TIME)
   then DONOT_ACCEPT_BLOCKS_ADMIT_HOURS_TESTNET else DONOT_ACCEPT_BLOCKS_ADMIT_HOURS) * nOneHour.

(** The coinbase starts with the height. *)
Definition height_in_coinbase (nHeight : Z) (b : CBlock) : option bool :=
  tx ← head (b_vtx b); i ← head (vin tx);
  let expect := CScript.push_int64 [] nHeight in
  Some (negb (zlen (scriptSig i) <? zlen expect) && bool_decide (take (length expect) (scriptSig i) = expect)).

(** The rules on a block after [chain], the chain of its predecessor *)
Definition check_context (b : CBlock) (chain : list CBlockIndex) (nBestHeight : Z) : res Z :=
  let! pindexPrev := or_abort (head chain) in
  let h := b_header b in
  let nHeight := bi_nHeight pindexPrev + 1 in
  let! _ := reject_if (negb (bh_nBits h =? GetNextTargetRequired (e_net ev) chain (IsProofOfStake b))) 100 in
  let nMedianTimePast := GetMedianTimePast chain in
  let! _ := reject_if ((GetBlockTime h <=? nMedianTimePast) || (FutureDrift (GetBlockTime h) <? bi_nTime pindexPrev)) 0 in
  let! _ := reject_if ((bi_nHeight pindexPrev >? 1) && (nMedianTimePast + nMaxOffset pindexPrev <? GetBlockTime h)) 0 in
  let! _ := reject_if (negb (forallb (fun tx => IsFinal nBestHeight (e_GetAdjustedTime ev) tx nHeight (GetBlockTime h)) (b_vtx b))) 10 in
  let! _ := reject_if (negb (Checkpoints.CheckHardened (fTestNet (e_net ev)) nHeight (block_hash b))) 100 in
  Ok nHeight.

Definition AcceptBlock (b : CBlock) : PM unit :=
  let hash := block_hash b in
  do! s := mget in
  let m := cs_index (ps_chain s) in
  do! _ := lift (reject_if (bool_decide (is_Some (m !! hash))) 0) in
  match m !! bh_hashPrevBlock (b_header b) with
  | None => lift (Reject 10)
  | Some pindexPrev =>
      do! nHeight := lift (check_context b (chain_of m pindexPrev) (nBestHeight (cs_best (ps_chain s)))) in
      do! cpSatisfies := lift (or_abort (Checkpoints.CheckSync (fTestNet (e_net ev)) m (hashSyncCheckpoint (ps_sync s)) hash pindexPrev)) in
      do! _ := lift (reject_if (bool_decide (CheckpointsMode cfg = STRICT) && negb cpSatisfies) 0) in
      do! _ := (if bool_decide (CheckpointsMode cfg = ADVISORY) && negb cpSatisfies then modify (emit Warning) else mret tt) in
      do! ok := lift (or_abort (height_in_coinbase nHeight b)) in
      do! _ := lift (reject_if (negb ok) 100) in
      do! _ := lift (reject_if (negb (CheckDiskSpace cfg)) 0) in
      match BlockFile.WriteToDisk (ps_disk s) (ps_nCurrentBlockFile s) b with
      | None => lift (Reject 0)
      | Some (d, (nFile, nBlockPos)) =>
          do! _ := modify (upd_disk d nFile) in
          do! fIsInitialDownload := IsInitialBlockDownload in
          do! _ := on_chain (fun files =>
            AddToBlockIndex RIPEMD160 SHA1 SHA256 Verify nd ev files fIsInitialDownload sp b nFile nBlockPos) in
          do! _ := count_block in
          do! s := mget in
          do! _ := (if bool_decide (hashBestChain (cs_best (ps_chain s)) = hash) then modify (emit (RelayInventory hash)) else mret tt) in
          do! _ := succeeds AcceptPendingSyncCheckpoint in
          do! s := mget in
          do! ok := lift (or_abort (Checkpoints.Check nCheckBlocks (mapAutocheck cfg) (cs_index (ps_chain s)) (hashBestChain (cs_best (ps_chain s))))) in
          lift (reject_if (negb ok) 0)
      end
  end.

(** ** Orphan blocks *)

Definition add_orphan (hash : uint256) (b : CBlock) (o : orphan_state) : orphan_state :=
  let prev := bh_hashPrevBlock (b_header b) in
  Orphans (<[hash := b]> (mapOrphanBlocks o)) (<[prev := default [] (mapOrphanBlocksByPrev o !! prev) ++ [b]]> (mapOrphanBlocksByPrev o))
    (setStakeSeenOrphan o).
Definition see_stake (st : COutPoint * Z) (o : orphan_state) : orphan_state :=
  Orphans (mapOrphanBlocks o) (mapOrphanBlocksByPrev o) ({[st]} ∪ setStakeSeenOrphan o).
Definition drop_orphan (b : CBlock) (o : orphan_state) : orphan_state :=
  Orphans (delete (block_hash b) (mapOrphanBlocks o)) (mapOrphanBlocksByPrev o) (setStakeSeenOrphan o ∖ {[GetProofOfStake b]}).
Definition drop_prev (prev : uint256) (o : orphan_state) : orphan_state :=
  Orphans (mapOrphanBlocks o) (delete prev (mapOrphanBlocksByPrev o)) (setStakeSeenOrphan o).

(** The orphans that waited for one block: the hashes of those that were accepted *)
Fixpoint try_orphans (l : list CBlock) : PM (list uint256) :=
  match l with
  | [] => mret []
  | b :: l =>
      do! ok := succeeds (AcceptBlock b) in
      do! _ := modify (upd_orphans (drop_orphan b)) in
      do! hs := try_orphans l in
      mret (if ok : bool then block_hash b :: hs else hs)
  end.
(** A turn of the loop over the work queue: the block at the front is done, the orphans that waited for it are
    tried, and the hashes of those that were accepted join the back. *)
Definition queue_turn (hashPrev : uint256) (vWorkQueue : list uint256) : PM (list uint256) :=
  do! s := mget in
  do! hs := try_orphans (default [] (mapOrphanBlocksByPrev (ps_orphans s) !! hashPrev)) in
  do! _ := modify (upd_orphans (drop_prev hashPrev)) in
  mret (vWorkQueue ++ hs).
(** The loop, with [fuel] for its turns; that it never runs out is [OrphanBlocks.orphan_loops_end]. *)
Fixpoint work_queue (fuel : nat) (vWorkQueue : list uint256) : PM unit :=
  match fuel, vWorkQueue with
  | _, [] => mret tt
  | O, _ => lift Aborts
  | S fuel, hashPrev :: vWorkQueue =>
      do! vWorkQueue := queue_turn hashPrev vWorkQueue in
      work_queue fuel vWorkQueue
  end.

(** ** [ProcessBlock] *)

Definition IsCanonicalBlockSignature (b : CBlock) : bool :=
  if IsProofOfWork b then bool_decide (b_vchBlockSig b = []) else SigEncoding.IsDERSignature (b_vchBlockSig b) false false.
Definition ReserealizeBlockSignature (b : CBlock) : option CBlock :=
  if IsProofOfWork b then Some (Block (b_header b) (b_vtx b) [])
  else sig ← ReserealizeSignature cfg (b_vchBlockSig b); Some (Block (b_header b) (b_vtx b) sig).
(** The stake of a block may be seen again if an orphan waits for the block, or the pending checkpoint does. *)
Definition duplicate_stake (seen : gset (COutPoint * Z)) (hash : uint256) (b : CBlock) (s : pstate) : res unit :=
  if IsProofOfStake b && bool_decide (GetProofOfStake b ∈ seen)
     && negb (bool_decide (is_Some (mapOrphanBlocksByPrev (ps_orphans s) !! hash)))
  then let! w := or_abort (WantedByPendingSyncCheckpoint (ps_sync s) (ps_orphans s) hash) in reject_if (negb w) 0
  else Ok tt.

(** The proof of stake is recorded if there is none for the block. The signatures it checks are not added to the cache here. *)
Definition check_stake (hash : uint256) (b : CBlock) : PM unit :=
  if IsProofOfStake b then
    do! s := mget in
    do! tx := lift (or_abort (b_vtx b !! 1%nat)) in
    let ReadHeader nFile nBlockPos := b_header <$> BlockFile.ReadFromDisk (e_net ev) (ps_disk s) nFile nBlockPos false in
    do! r := lift (match Kernel.CheckProofOfStake sp nd ReadHeader RIPEMD160 SHA1 SHA256 (cs_db (ps_chain s)) (cs_index (ps_chain s))
                           tx (bh_nBits (b_header b)) (cs_checker (ps_chain s)) with Reject _ => Reject 0 | r => r end) in
    on_chain (fun _ => modify (see_proof hash r.1))
  else mret tt.

(** The least work or stake that a block after the last synchronized checkpoint can have *)
Definition required_target (m : BlockMap) (pcheckpoint : CBlockIndex) (b : CBlock) : option Z :=
  let deltaTime := GetBlockTime (b_header b) - bi_nTime pcheckpoint in
  last ← head (GetLastBlockIndex (chain_of m pcheckpoint) (IsProofOfStake b));
  Some (SetCompact (if IsProofOfStake b then ComputeMinStake (e_net ev) (bi_nBits last) deltaTime (bh_nTime (b_header b))
                    else ComputeMinWork (e_net ev) (bi_nBits last) deltaTime)).
Definition check_spam (pfrom : bool) (hash : uint256) (b : CBlock) : PM unit :=
  do! s := mget in
  match Checkpoints.GetLastSyncCheckpoint (cs_index (ps_chain s)) (hashSyncCheckpoint (ps_sync s)) with
  | None => mret tt
  | Some pcheckpoint =>
      if bool_decide (bh_hashPrevBlock (b_header b) = hashBestChain (cs_best (ps_chain s))) then mret tt
      else
        do! w := lift (or_abort (WantedByPendingSyncCheckpoint (ps_sync s) (ps_orphans s) hash)) in
        if w : bool then mret tt
        else
          do! bnRequired := lift (or_abort (required_target (cs_index (ps_chain s)) pcheckpoint b)) in
          if SetCompact (bh_nBits (b_header b)) >? bnRequired then
            do! _ := (if pfrom then modify (emit (Misbehaving 100)) else mret tt) in lift (Reject 0)
          else mret tt
  end.

(** A block without its predecessor waits; its sender is asked for what is missing. *)
Definition hold_orphan (pfrom : bool) (hash : uint256) (b : CBlock) : PM unit :=
  do! s := mget in
  do! _ := lift (duplicate_stake (setStakeSeenOrphan (ps_orphans s)) hash b s) in
  do! _ := (if IsProofOfStake b then modify (upd_orphans (see_stake (GetProofOfStake b))) else mret tt) in
  do! _ := modify (upd_orphans (add_orphan hash b)) in
  if pfrom then
    do! s := mget in
    do! root := lift (or_abort (GetOrphanRoot (ps_orphans s) b)) in
    do! _ := modify (emit (PushGetBlocks (pindexBest (cs_best (ps_chain s))) root)) in
    do! fInitial := IsInitialBlockDownload in
    if fInitial : bool then mret tt
    else do! w := lift (or_abort (WantedByOrphan (ps_orphans s) b)) in modify (emit (AskForBlock w))
  else mret tt.

(** The checks on a block before its predecessor is looked up: the block, with its signature in the canonical form *)
Definition preliminary (pfrom : bool) (b : CBlock) : PM CBlock :=
  let hash := block_hash b in
  do! s := mget in
  do! _ := lift (reject_if (bool_decide (is_Some (cs_index (ps_chain s) !! hash))) 0) in
  do! _ := lift (reject_if (bool_decide (is_Some (mapOrphanBlocks (ps_orphans s) !! hash))) 0) in
  do! _ := (if negb (Checkpoints.CheckBanned (fTestNet (e_net ev)) hash) then
              do! _ := (if pfrom then modify (emit (Misbehaving 100)) else mret tt) in lift (Reject 0)
            else mret tt) in
  do! _ := lift (duplicate_stake (cs_setStakeSeen (ps_chain s)) hash b s) in
  let b := if IsCanonicalBlockSignature b then b else default b (ReserealizeBlockSignature b) in
  do! _ := lift (CheckBlock Verify ev b true true
                   (Checkpoints.GetLastCheckpointTime (fTestNet (e_net ev)) <? bh_nTime (b_header b))) in
  mret b.

Definition ProcessBlock (pfrom : bool) (b : CBlock) : PM unit :=
  let hash := block_hash b in
  do! b := preliminary pfrom b in
  do! _ := check_stake hash b in
  do! _ := check_spam pfrom hash b in
  do! fInitial := IsInitialBlockDownload in
  do! _ := (if fInitial : bool then mret tt else AskForPendingSyncCheckpoint pfrom) in
  do! s := mget in
  if bool_decide (is_Some (cs_index (ps_chain s) !! bh_hashPrevBlock (b_header b))) then
    do! _ := AcceptBlock b in
    do! s := mget in
    do! _ := work_queue (S (size (mapOrphanBlocks (ps_orphans s)))) [hash] in
    if pfrom && bool_decide (is_Some (MasterSign cfg)) then
      do! s := mget in
      do! h := lift (or_abort (pindexBest (cs_best (ps_chain s)))) in
      do! best := lift (or_abort (cs_index (ps_chain s) !! h)) in
      do! target := lift (or_abort (Checkpoints.AutoSelectSyncCheckpoint (chain_of (cs_index (ps_chain s)) best))) in
      do! _ := succeeds (SendSyncCheckpoint target) in mret tt
    else mret tt
  else hold_orphan pfrom hash b.

End process.
End ProcessBlock.
