(* ===== verification/ProcessBlockProps.v ===== *)
(** * ProcessBlockProps: the index, the orphan blocks and the synchronized checkpoint as blocks arrive

    Whatever arrives, no entry of the index moves, and the synchronized checkpoint only moves to its descendants; the two maps of orphan
    blocks agree; the work queue ends and leaves no orphan behind that waits for an accepted block; and what [AcceptBlock] accepts. *)
From S2P Require Import Prelude ScriptNum Script Serialize Crypto Transaction Merkle Uint256 BlockData LevelDB.
From S2P Require Import Keys SigCheck Interpreter Solver Inputs Difficulty BlockFile ChainIndex Checkpoints Kernel Block BlockProps InputsProps Mempool BestChain.
From S2P Require Import BestChainLinks BestChainProps BestChainMain BlockIndexProps ProcessBlock.
Import Tx BlockData Script_param Inputs InputsProps Difficulty ChainIndex Block BlockProps BestChain BestChainLinks BestChainProps BestChainMain.
Import BlockIndexProps ProcessBlock.
Open Scope block_scope.

Module ProcessBlockProps.

(** ** Growing indexes *)

#[export] Instance tree_grows_pre : PreOrder tree_grows.
Proof.
  split; [by intros m h b ->|]. intros m1 m2 m3 H1 H2 h b Hb%H1. apply fmap_Some in Hb as (b2 & Hb2%H2 & ->). done.
Qed.

(** Any new entry without predecessor of height 0, or after an entry of the index *)
Definition new_leaf (m : BlockMap) (h : uint256) (i : CBlockIndex) : Prop :=
  bi_phashBlock i = Some h /\
  match bi_pprev i with Some p => exists q, m !! p = Some q /\ bi_nHeight i = bi_nHeight q + 1 | None => bi_nHeight i = 0 end.

Lemma new_leaf_wf m h i : index_wf m -> m !! h = None -> new_leaf m h i -> index_wf (<[h := i]> m).
Proof.
  intros Hwf Hn [Hh Hi]. split; intros x b.
  - intros [[<- <-]|[Hne Hb]]%lookup_insert_Some; [done|]. by apply (iw_hash m Hwf).
  - intros y [[<- <-]|[Hne Hb]]%lookup_insert_Some Hy.
    + rewrite Hy in Hi. destruct Hi as (q & Hq & Hl). exists q. by rewrite lookup_insert_ne by congruence.
    + destruct (iw_prev m Hwf x b y Hb Hy) as (b' & Hb' & Hl). exists b'. by rewrite lookup_insert_ne by congruence.
  - intros [[<- <-]|[Hne Hb]]%lookup_insert_Some Hy; [by rewrite Hy in Hi|]. by apply (iw_genesis m Hwf x).
  - intros [[<- <-]|[Hne Hb]]%lookup_insert_Some; [|by apply (iw_height m Hwf x)].
    destruct (bi_pprev i) as [p|]; [|lia]. destruct Hi as (q & Hq & ->). pose proof (iw_height m Hwf _ _ Hq). lia.
Qed.

(** The chain of hashes up to an entry does not depend on later entries. *)
Lemma grows_hashes m m' h : index_wf m -> index_wf m' -> tree_grows m m' -> is_Some (m !! h) -> hashes m' h = hashes m h.
Proof.
  intros Hwf Hwf' Hg [b Hb]. remember (Z.to_nat (bi_nHeight b)) as k eqn:Ek. revert h b Ek Hb. induction k as [|k IH]; intros h b Ek Hb.
  all: pose proof (Hg h b Hb) as Hpl; destruct (m' !! h) as [b'|] eqn:Hb'; [|done]; injection Hpl as E1 E2 E3 E4.
  all: rewrite (hashes_cons m Hwf h b Hb), (hashes_cons m' Hwf' h b' Hb'); f_equal; unfold pprev_of; rewrite Hb, Hb'; cbn; rewrite E2.
  all: destruct (bi_pprev b) as [p|] eqn:Ep; [|done]; destruct (iw_prev m Hwf h b p Hb Ep) as (q & Hq & Hl); pose proof (iw_height m Hwf _ _ Hq).
  - lia.
  - apply (IH p q); [lia|done].
Qed.

(** [a] is on the chain up to [b]. *)
Definition descends (m : BlockMap) (a b : uint256) : Prop := a ∈ hashes m b.

Lemma descends_grows m m' a b : index_wf m -> index_wf m' -> tree_grows m m' -> is_Some (m !! b) -> descends m a b -> descends m' a b.
Proof. intros Hwf Hwf' Hg Hb. unfold descends. by rewrite (grows_hashes m m'). Qed.

Lemma descends_trans m a b c : index_wf m -> descends m a b -> descends m b c -> descends m a c.
Proof.
  intros Hwf Hab Hbc. destruct (hashes_in m Hwf c b Hbc) as [bb Hb]. unfold descends in *.
  unfold hashes, chain_to in Hbc. destruct (m !! c) as [bc|] eqn:Hc; [|by apply not_elem_of_nil in Hbc].
  apply list_elem_of_fmap in Hbc as (x & Hx & Hin). apply list_elem_of_lookup in Hin as [k Hk].
  destruct (chain_of_spec m Hwf c bc Hc) as [_ Hs]. pose proof (Hs k x Hk) as [_ Hxm]. rewrite <-Hx in Hxm.
  assert (bb = x) as -> by congruence. pose proof (chain_of_drop m Hwf c bc k x Hc Hk) as Hd.
  unfold hashes, chain_to in *. rewrite Hb in Hab. rewrite Hc. rewrite <-(take_drop k (chain_of m bc)), fmap_app, Hd. apply elem_of_app. by right.
Qed.

(** ** What keeps the index a tree *)

Section chain.
Context `{MPI} `{BlockHash}.
Context {D : Type} `{!TxDB D, !BlockDB D, !ChainDB D} {db_ok opened : D -> Prop} {X : Type} {disk_of : D -> X}
  `{!ChainDBLaws D db_ok opened disk_of}.
Context {C : Type} `{!SigChecker C}.
Variables RIPEMD160 SHA1 SHA256 : bytes -> bytes.
Variable Verify : bytes -> uint256 -> bytes -> bool.
Variable nd : node.
Variable ev : env.
Variable sp : Kernel.stake_params.

Abbreviation chainstate := (chainstate D C).

Definition kept (c c' : chainstate) : Prop :=
  index_wf (cs_index c) -> index_wf (cs_index c') /\ tree_grows (cs_index c) (cs_index c').
#[export] Instance kept_pre : PreOrder kept.
Proof.
  split; [by intros c|]. intros c1 c2 c3 H1 H2 Hw. destruct (H1 Hw) as [Hw2 G2]. destruct (H2 Hw2) as [Hw3 G3].
  split; [done|by transitivity (cs_index c2)].
Qed.

Lemma same_tree_kept (c c' : chainstate) : same_tree (cs_index c) (cs_index c') -> kept c c'.
Proof. intros Ht Hw. split; [by eapply same_tree_wf|]. intros h b Hb. by rewrite <-Ht, Hb. Qed.
Lemma same_index_kept (c c' : chainstate) : cs_index c' = cs_index c -> kept c c'.
Proof. intros E. apply same_tree_kept. by rewrite E. Qed.
Lemma attempt_kept {A} (m : M chainstate A) :
  preserves (attempt (db_ok := db_ok) (opened := opened) (disk_of := disk_of)) m -> preserves kept m.
Proof. apply preserves_weaken. intros c c' [[Ht _]%calm_links _]. by apply same_tree_kept. Qed.

Lemma db_op_kept w : preserves kept (db_op (C := C) w).
Proof. intros c r c'. unfold db_op. by destruct (w (cs_db c)) as [[ok d]|]; intros [= _ <-]. Qed.
Lemma set_next_kept p n : preserves kept (modify (upd_index (D := D) (C := C) (set_next p n))).
Proof. apply preserves_modify. intros c. apply same_tree_kept, set_next_tree. Qed.
Lemma pool_remove_kept tx : preserves kept (pool_remove (D := D) (C := C) tx).
Proof. intros c r c' (E & _)%pool_remove_quiet. by apply same_index_kept. Qed.
Lemma resurrect_kept tx : preserves kept (resurrect RIPEMD160 SHA1 SHA256 nd ev tx : M chainstate unit).
Proof. intros c r c' (E & _)%resurrect_quiet. by apply same_index_kept. Qed.
Lemma InvalidChainFound_kept h : preserves kept (InvalidChainFound (D := D) (C := C) h).
Proof.
  eapply preserves_weaken; [|apply (InvalidChainFound_unchanged (disk_of := disk_of) (db_ok := db_ok) (opened := opened))].
  intros c c' [[Ht _]%calm_links _]. by apply same_tree_kept.
Qed.

Ltac keep := preserve; repeat (lazymatch goal with
  | |- preserves kept (db_op _) => apply db_op_kept
  | |- preserves kept (pool_remove _) => apply pool_remove_kept
  | |- preserves kept (resurrect _ _ _ _ _ _) => apply resurrect_kept
  | |- preserves kept (InvalidChainFound _) => apply InvalidChainFound_kept
  | |- preserves kept (entry _) => apply entry_preserves, _
  | |- preserves kept (connect _ _ _ _ _ _ _ _) => apply attempt_kept, connect_attempt
  | |- preserves kept (read_block _ _ _) => apply attempt_kept, read_block_attempt
  | |- preserves kept (disconnect_branch _ _ _ _) => apply attempt_kept, disconnect_branch_attempt
  | |- preserves kept (connect_branch _ _ _ _ _ _ _ _ _) => apply attempt_kept, connect_branch_attempt
  end; preserve).

Lemma SetBestChainInner_kept b h : preserves kept (SetBestChainInner RIPEMD160 SHA1 SHA256 Verify nd ev b h : M chainstate unit).
Proof. unfold SetBestChainInner. keep. apply set_next_kept. Qed.

Lemma Reorganize_kept files h : preserves kept (Reorganize RIPEMD160 SHA1 SHA256 Verify nd ev files h : M chainstate unit).
Proof.
  unfold Reorganize, best_entry. keep. destruct (find_fork _ _) as [f|]; [|keep]. keep.
  apply preserves_modify. intros c. apply same_tree_kept. cbn [cs_index upd_index].
  by apply (fold_step_tree _ link Some), (fold_step_tree _ unlink (fun _ => None)).
Qed.

Lemma reconnect_kept files l : preserves kept (reconnect RIPEMD160 SHA1 SHA256 Verify nd ev files l : M chainstate unit).
Proof.
  induction l as [|h l IH]; cbn [reconnect]; keep. destruct (BlockFile.ReadIndexed _ _ _) as [b|]; keep.
  destruct (negb _); keep; [apply SetBestChainInner_kept|]. match goal with |- context [if ?ok then _ else _] => destruct ok end; keep. apply IH.
Qed.

Lemma SetBestChain_kept files init b h : preserves kept (SetBestChain RIPEMD160 SHA1 SHA256 Verify nd ev files init b h : M chainstate unit).
Proof.
  unfold SetBestChain, switch_chain, new_best, best_entry, log_trust. keep.
  - destruct (_ && _); keep; [by apply preserves_modify|]. destruct (bool_decide _); keep; [apply SetBestChainInner_kept|].
    destruct (postpone _ _); keep; [apply Reorganize_kept|apply reconnect_kept].
  - destruct init; keep. by apply preserves_modify.
  - by apply preserves_modify.
  - destruct (_ =? _); keep.
  - destruct (_ && _); keep. by apply preserves_modify.
Qed.

(** A new entry follows its predecessor, or is the genesis block. *)
Lemma new_entry_new_leaf b nFile nBlockPos (c : chainstate) i :
  new_entry ev sp b nFile nBlockPos c = Ok i -> new_leaf (cs_index c) (block_hash b) i.
Proof.
  destruct (cs_index c !! bh_hashPrevBlock (b_header b)) as [q|] eqn:Hq.
  - intros [= L1 L2 L3 _]%(new_entry_leaf _ _ _ _ _ _ _ _ Hq). split; [done|]. rewrite L2. by exists q.
  - unfold new_entry. rewrite Hq. intros (trust & _ & E)%res_bind_ok.
    apply res_bind_ok in E as (i1 & E1 & E). destruct (SetStakeEntropyBit _ _) as [i0|] eqn:E0; [|done]. injection E1 as <-.
    apply entropy_place in E0 as [Hp0 Hn0]. apply res_bind_ok in E as (i2 & E2 & E).
    assert (place i2 = place i0) as Hp2.
    { destruct (bi_IsProofOfStake i0); [|by injection E2 as <-]. destruct (cs_mapProofOfStake c !! _); [|done]. by injection E2 as <-. }
    destruct (Kernel.ComputeNextStakeModifier sp _ i2 _) as [[nMod fGen]|]; [|done].
    apply res_bind_ok in E as (u & _ & E). apply res_bind_ok in E as (u2 & _ & [= <-]).
    injection Hp0 as A1 A2 A3 _. injection Hp2 as B1 B2 B3 _. split; cbn in *; [congruence|]. rewrite B2, A2. congruence.
Qed.

Lemma AddToBlockIndex_inserts files init b nFile nBlockPos (c c' : chainstate) r :
  AddToBlockIndex RIPEMD160 SHA1 SHA256 Verify nd ev files init sp b nFile nBlockPos c = (r, c') ->
  (r <> Ok tt /\ c' = c) \/ exists i, cs_index c !! block_hash b = None /\ new_entry ev sp b nFile nBlockPos c = Ok i
    /\ kept (upd_index (<[block_hash b := i]>) c) c'.
Proof.
  unfold AddToBlockIndex. unfold M_bind at 1, mget. unfold M_bind at 1, lift at 1.
  destruct (reject_if _ 0) as [u|n| |] eqn:Hnew; [|by intros [= <- <-]; left..]. apply reject_if_ok, bool_decide_eq_false, eq_None_not_Some in Hnew.
  unfold M_bind at 1, lift at 1. destruct (new_entry _ _ _ _ _ _) as [i|n| |] eqn:Hi; [|by intros [= <- <-]; left..].
  unfold M_bind at 1, modify at 1. intros E. right. exists i. split; [done|]. split; [done|].
  revert E. match goal with |- ?m ?s = _ -> _ => enough (preserves kept m) as Hp by apply Hp end. keep.
  - destruct (bi_IsProofOfStake i); keep. by apply preserves_modify.
  - by apply preserves_modify.
  - destruct (_ >? _); keep. apply SetBestChain_kept.
Qed.

Lemma AddToBlockIndex_kept files init b nFile nBlockPos :
  preserves kept (AddToBlockIndex RIPEMD160 SHA1 SHA256 Verify nd ev files init sp b nFile nBlockPos : M chainstate unit).
Proof.
  intros c r c' [[_ ->]|(i & Hn & Hi & Hk)]%AddToBlockIndex_inserts; [done|]. apply new_entry_new_leaf in Hi.
  transitivity (upd_index (<[block_hash b := i]>) c); [|done]. intros Hw. split; [by apply new_leaf_wf|by apply leaf_grows].
Qed.

End chain.

(** ** The synchronized checkpoint *)

Lemma valid_descends m hs hi h : index_wf m -> (Checkpoints.ValidateSyncCheckpoint m hs hi h).1 = true -> is_Some (m !! h) /\ descends m hs h.
Proof.
  intros Hwf. unfold Checkpoints.ValidateSyncCheckpoint. destruct (m !! hs) as [sync|] eqn:Hs; [|done]. destruct (m !! h) as [recv|] eqn:Hr; [|done].
  intros E. split; [by eexists|]. destruct (Z.leb_spec (bi_nHeight recv) (bi_nHeight sync)) as [Hle|Hlt].
  { destruct (down_to _ _); [done|]. by destruct (bool_decide _). }
  destruct (Checkpoints.trace_back m Hwf hs sync h recv Hs Hr) as (b' & Hhd & _ & Hiff); [lia|].
  destruct (down_to _ _) as [|x l]; [done|]. injection Hhd as ->. destruct (bool_decide_reflect (GetBlockHash b' = hs)) as [Eh|]; [|done].
  apply Hiff in Eh. unfold descends, hashes, chain_to. rewrite Hr. apply list_elem_of_fmap. exists sync. split; [|done].
  by rewrite (hash_of m Hwf hs sync Hs).
Qed.

Section process.
Context `{MPI} `{BlockHash}.
Context {D : Type} `{!TxDB D, !BlockDB D, !ChainDB D} {db_ok opened : D -> Prop} {X : Type} {disk_of : D -> X}
  `{!ChainDBLaws D db_ok opened disk_of}.
Context {C : Type} `{!SigChecker C}.
Variables RIPEMD160 SHA1 SHA256 : bytes -> bytes.
Variable Verify : bytes -> uint256 -> bytes -> bool.
Variable nd : node.
Variable ev : env.
Variable GetTime : Z.
Variable sp : Kernel.stake_params.
Variable cfg : settings.

Abbreviation pstate := (pstate D C).
Abbreviation PM := (M pstate).
Abbreviation index s := (cs_index (ps_chain s)).
Abbreviation sync_hash s := (hashSyncCheckpoint (ps_sync s)).

(** The entries of the index stay, and the checkpoint does. *)
Definition still (s s' : pstate) : Prop := kept (ps_chain s) (ps_chain s') /\ sync_hash s' = sync_hash s.
#[local] Instance still_pre : PreOrder still.
Proof. split; [by intros s|]. intros s1 s2 s3 [H1 E1] [H2 E2]. split; [by transitivity (ps_chain s2)|congruence]. Qed.

(** The checkpoint is a block of the index. *)
Definition anchored (s : pstate) : Prop := index_wf (index s) /\ is_Some (index s !! sync_hash s).
(** Entries stay where they are, and the checkpoint stays or moves to a block of the index that descends from it. *)
Definition advances (s s' : pstate) : Prop :=
  anchored s -> anchored s' /\ tree_grows (index s) (index s') /\ descends (index s') (sync_hash s) (sync_hash s').
#[local] Instance advances_pre : PreOrder advances.
Proof.
  split.
  - intros s [Hw [b Hb]]. split; [split; [done|by eexists]|]. split; [reflexivity|by eapply hashes_self].
  - intros s1 s2 s3 H1 H2 A1. destruct (H1 A1) as (A2 & G2 & D2). destruct (H2 A2) as (A3 & G3 & D3). split; [done|]. split; [by transitivity (index s2)|].
    eapply descends_trans; [apply A3| |exact D3]. eapply descends_grows; [apply A2|apply A3|done|apply A2|done].
Qed.

Lemma still_advances s s' : still s s' -> advances s s'.
Proof.
  intros [Hk Hs] [Hw [b Hb]]. destruct (Hk Hw) as [Hw' Hg]. apply Hg in Hb. destruct (index s' !! sync_hash s) as [b'|] eqn:Hb'; [|done].
  split; [split; [done|rewrite Hs; by eexists]|]. split; [done|]. rewrite Hs. by eapply hashes_self.
Qed.
Lemma still_weaken {A} (m : PM A) : preserves still m -> preserves advances m.
Proof. apply preserves_weaken, still_advances. Qed.

Lemma on_chain_still {A} (m : disk -> M (chainstate D C) A) : (forall d, preserves kept (m d)) -> preserves still (on_chain m).
Proof.
  intros Hm s r s'. unfold on_chain. destruct (m (ps_disk s) (ps_chain s)) as [r1 c] eqn:E. intros [= _ <-]. split; [|done]. by eapply Hm.
Qed.
Lemma emit_still e : preserves still (modify (emit e : pstate -> pstate)).
Proof. by apply preserves_modify. Qed.
Lemma orphans_still f : preserves still (modify (upd_orphans f : pstate -> pstate)).
Proof. by apply preserves_modify. Qed.
Lemma sync_still f : (forall c, hashSyncCheckpoint (f c) = hashSyncCheckpoint c) -> preserves still (modify (upd_sync f : pstate -> pstate)).
Proof. intros Hf. apply preserves_modify. intros s. split; [done|]. apply Hf. Qed.

Ltac quiet := preserve; repeat (lazymatch goal with
  | |- preserves still (modify (emit _)) => apply emit_still
  | |- preserves still (modify (upd_orphans _)) => apply orphans_still
  | |- preserves still (modify (upd_sync _)) => apply sync_still; done
  end; preserve).

Lemma IsInitialBlockDownload_still : preserves still (IsInitialBlockDownload ev GetTime : PM bool).
Proof.
  unfold IsInitialBlockDownload. quiet. destruct (pindexBest _); quiet. destruct (_ <? _); quiet. destruct (ps_download _).
  quiet. destruct (negb _); quiet. by apply preserves_modify.
Qed.
Lemma count_block_still : preserves still (count_block ev GetTime : PM unit).
Proof.
  unfold count_block. quiet; [by apply preserves_modify|]. destruct (_ =? 0); quiet. apply IsInitialBlockDownload_still.
Qed.
Lemma IsInitialBlockDownload_index (s s' : pstate) r : IsInitialBlockDownload ev GetTime s = (r, s') -> index s' = index s.
Proof.
  revert s r s'. match goal with |- forall s r s', ?m s = _ -> _ => change (preserves (fun s s' : pstate => index s' = index s) m) end.
  assert (PreOrder (fun s s' : pstate => index s' = index s)) as Hpre by (split; [by intros s|intros s1 s2 s3; congruence]).
  unfold IsInitialBlockDownload. preserve. destruct (pindexBest _); preserve. destruct (_ <? _); preserve. destruct (ps_download _).
  preserve. destruct (negb _); preserve. by apply preserves_modify.
Qed.
Lemma SetBestChain_block_still h b : preserves still (SetBestChain_block RIPEMD160 SHA1 SHA256 Verify nd ev GetTime h b : PM unit).
Proof.
  unfold SetBestChain_block. preserve; [apply IsInitialBlockDownload_still|]. apply on_chain_still. intros d.
  apply (SetBestChain_kept (db_ok := db_ok) (opened := opened) (disk_of := disk_of)).
Qed.
Lemma to_main_chain_still h (on_fail : PM unit) : preserves still on_fail ->
  preserves still (to_main_chain RIPEMD160 SHA1 SHA256 Verify nd ev GetTime h on_fail).
Proof.
  intros Hf. unfold to_main_chain. quiet. destruct (IsInMainChain _ _); quiet. destruct (BlockFile.ReadIndexed _ _ _); quiet; [|done].
  apply SetBestChain_block_still.
Qed.
Lemma validate_still h : preserves still (validate h : PM bool).
Proof. unfold validate. quiet. destruct (Checkpoints.ValidateSyncCheckpoint _ _ _ _). quiet. Qed.

(** [WriteSyncCheckpoint] sets the checkpoint or leaves it. *)
Lemma WriteSyncCheckpoint_sets h (s s' : pstate) r : WriteSyncCheckpoint h s = (r, s') ->
  index s' = index s /\ (sync_hash s' = h \/ sync_hash s' = sync_hash s).
Proof.
  unfold WriteSyncCheckpoint, M_bind at 1. destruct (on_chain _ s) as [r1 s1] eqn:E1.
  assert (index s1 = index s /\ sync_hash s1 = sync_hash s) as [<- <-].
  { revert E1. unfold on_chain. match goal with |- context [let '(_, _) := ?m ?c in _] => destruct (m c) as [r2 c2] eqn:E2 end.
    intros [= _ <-]. cbn. split; [|done]. revert E2. match goal with |- ?m _ = _ -> _ => enough (preserves (fun c c' => cs_index c' = cs_index c) m) as Hp by apply Hp end.
    assert (PreOrder (fun c c' : chainstate D C => cs_index c' = cs_index c)) as Hpre by (split; [by intros c|intros c1 c2' c3; congruence]).
    assert (forall w, preserves (fun c c' : chainstate D C => cs_index c' = cs_index c) (db_op (C := C) w)) as Hdb
      by (intros w c r' c'; unfold db_op; destruct (w (cs_db c)) as [[ok d]|]; by intros [= _ <-]).
    preserve; [by apply preserves_modify|apply Hdb..|]. destruct (negb _); preserve; apply Hdb. }
  destruct r1 as [u|n| |]; intros [= _ <-]; (split; [done|]); [by left|by right..].
Qed.

(** A validated checkpoint takes the place of one that it descends from. *)
Lemma checkpoint_step h (on_fail : PM unit) {A} (refuse k : PM A) :
  preserves advances refuse -> preserves still on_fail -> preserves advances k ->
  preserves advances (do! ok := validate h in if negb ok then refuse else
    do! _ := to_main_chain RIPEMD160 SHA1 SHA256 Verify nd ev GetTime h on_fail in do! _ := WriteSyncCheckpoint h in k).
Proof.
  intros Hr Hf Hk s r s'. unfold M_bind at 1. destruct (validate h s) as [r1 s1] eqn:E1. pose proof E1 as Hv. apply validate_still in Hv.
  assert (r1 = Ok true -> index_wf (index s) -> is_Some (index s1 !! h) /\ descends (index s1) (sync_hash s1) h) as Hok.
  { intros ->. unfold validate, M_bind, mget in E1. destruct (Checkpoints.ValidateSyncCheckpoint _ _ _ _) as [ok invalid] eqn:Ev. injection E1 as -> <-.
    cbn. intros Hw. eapply valid_descends; [done|]. by rewrite Ev. }
  apply still_advances in Hv. destruct r1 as [[]|n| |]; [|intros E; etransitivity; [exact Hv|by eapply Hr]|by intros [= _ <-]..].
  unfold M_bind at 1. cbn [negb]. destruct (to_main_chain _ _ _ _ _ _ _ _ _ s1) as [r2 s2] eqn:E2. apply to_main_chain_still in E2; [|done].
  destruct r2 as [u|n| |]; [|by intros [= _ <-]; transitivity s1; [done|apply still_advances]..].
  unfold M_bind at 1. destruct (WriteSyncCheckpoint h s2) as [r3 s3] eqn:E3. apply WriteSyncCheckpoint_sets in E3 as [Ei Hs].
  assert (advances s s3) as H3.
  { intros A1. destruct (Hv A1) as (A2 & G2 & D2). destruct (still_advances _ _ E2 A2) as (A3 & G3 & D3). destruct (Hok eq_refl (proj1 A1)) as [Hh Hd].
    pose proof (proj1 A2) as W2. pose proof (proj1 A3) as W3.
    assert (is_Some (index s2 !! h)) as Hh2 by (destruct Hh as [x Hx]; apply G3 in Hx; by destruct (index s2 !! h)).
    assert (descends (index s2) (sync_hash s) (sync_hash s1)) as D2' by (by eapply descends_grows; [..|apply A2|exact D2]).
    assert (descends (index s2) (sync_hash s1) h) as Hd' by (by apply (descends_grows (index s1))).
    unfold anchored. rewrite Ei. split; [|split; [by transitivity (index s1)|]].
    - split; [done|]. destruct Hs as [->| ->]; [done|apply A3].
    - destruct Hs as [->| ->]; [by eapply descends_trans|]. by eapply descends_trans. }
  destruct r3 as [v|n| |]; [intros E4; transitivity s3; [done|by eapply Hk]|by intros [= _ <-]..].
Qed.

Lemma AcceptPendingSyncCheckpoint_advances : preserves advances (AcceptPendingSyncCheckpoint RIPEMD160 SHA1 SHA256 Verify nd ev GetTime : PM unit).
Proof.
  unfold AcceptPendingSyncCheckpoint. apply preserves_bind; [apply _|apply still_weaken; quiet|intros s].
  destruct (_ && _); [|apply still_weaken; quiet].
  apply checkpoint_step; [apply still_weaken; quiet|quiet|]. apply still_weaken. quiet. destruct (negb _); quiet.
Qed.

Lemma ProcessSyncCheckpoint_advances pfrom msg :
  preserves advances (ProcessSyncCheckpoint RIPEMD160 SHA1 SHA256 Verify nd ev GetTime pfrom msg : PM CSyncCheckpoint).
Proof.
  unfold ProcessSyncCheckpoint. apply preserves_bind; [apply _|apply still_weaken; quiet|intros m].
  apply preserves_bind; [apply _|apply still_weaken; quiet|intros s]. destruct (bool_decide _).
  - apply checkpoint_step; [apply still_weaken; quiet|quiet|]. apply still_weaken. quiet.
  - apply still_weaken. quiet. destruct pfrom; quiet. destruct (mapOrphanBlocks _ !! _); quiet.
Qed.

Lemma succeeds_advances (m : PM unit) : preserves advances m -> preserves advances (succeeds m).
Proof. intros Hm. unfold succeeds. preserve. apply Hm. Qed.

Lemma AcceptBlock_advances b : preserves advances (AcceptBlock RIPEMD160 SHA1 SHA256 Verify nd ev GetTime sp cfg b : PM unit).
Proof.
  unfold AcceptBlock. preserve. destruct (_ !! _) as [prev|]; preserve.
  - destruct (_ && _); preserve. by apply still_weaken, emit_still.
  - destruct (BlockFile.WriteToDisk _ _ _) as [[d [nFile pos]]|]; preserve.
    + apply still_weaken. by apply preserves_modify.
    + apply still_weaken, IsInitialBlockDownload_still.
    + apply still_weaken, on_chain_still. intros files. apply (AddToBlockIndex_kept (db_ok := db_ok) (opened := opened) (disk_of := disk_of)).
    + apply still_weaken, count_block_still.
    + destruct (bool_decide _); preserve. apply still_weaken, emit_still.
    + apply succeeds_advances, AcceptPendingSyncCheckpoint_advances.
Qed.

(** What [CheckSync] lets through on the main network *)
Lemma CheckSync_descends m hs hash prev hp : index_wf m -> m !! hp = Some prev -> m !! hash = None -> is_Some (m !! hs) ->
  Checkpoints.CheckSync false m hs hash prev = Some true -> descends m hs hp.
Proof.
  intros Hwf Hp Hn [sync Hs]. unfold Checkpoints.CheckSync. rewrite Hs, Hn. cbn [mbind option_bind]. cbn zeta. rewrite Z.gtb_ltb.
  rewrite (bool_decide_false (hash = hs)), (bool_decide_false (is_Some None)) by (congruence || by intros [? ?]). cbn [negb]. rewrite !andb_true_r.
  destruct (Z.ltb_spec (bi_nHeight sync) (bi_nHeight prev + 1)) as [Hlt|Hge].
  - destruct (Checkpoints.trace_back m Hwf hs sync hp prev Hs Hp) as (b' & Hhd & Hh & Hiff); [lia|]. destruct (down_to _ _) as [|x l]; [done|].
    injection Hhd as ->. rewrite (proj2 (Z.ltb_ge _ _)) by lia. cbn [orb]. destruct (bool_decide_reflect (GetBlockHash b' = hs)) as [Eh|]; [|done].
    intros _. apply Hiff in Eh. unfold descends, hashes, chain_to. rewrite Hp. apply list_elem_of_fmap. exists sync. split; [|done].
    by rewrite (hash_of m Hwf hs sync Hs).
  - intros E. exfalso. destruct (Z.eqb_spec (bi_nHeight prev + 1) (bi_nHeight sync)); [done|]. by rewrite (proj2 (Z.ltb_lt _ _)) in E by lia.
Qed.

(** The rules on a block after [chain] *)
Record fits (b : CBlock) (chain : list CBlockIndex) (nHeight nBestHeight : Z) : Prop := Fits {
  ft_bits : bh_nBits (b_header b) = GetNextTargetRequired (e_net ev) chain (IsProofOfStake b);
  ft_time : GetMedianTimePast chain < GetBlockTime (b_header b);
  ft_final : Forall (fun tx => IsFinal nBestHeight (e_GetAdjustedTime ev) tx nHeight (GetBlockTime (b_header b)) = true) (b_vtx b);
  ft_hardened : forall h, (nHeight, h) ∈ Checkpoints.checkpoints (fTestNet (e_net ev)) -> block_hash b = h;
  ft_coinbase : exists tx i script, head (b_vtx b) = Some tx /\ head (vin tx) = Some i /\ scriptSig i = CScript.push_int64 [] nHeight ++ script }.

Lemma CheckHardened_spec t n h x : Checkpoints.CheckHardened t n h = true -> (n, x) ∈ Checkpoints.checkpoints t -> h = x.
Proof.
  unfold Checkpoints.CheckHardened. destruct (List.find _ _) as [[n' y]|] eqn:Ef.
  - intros E%bool_decide_eq_true Hx. cbn in E. subst. apply List.find_some in Ef as [Hy Hn%Z.eqb_eq]. cbn in Hn. subst n'.
    apply list_elem_of_In in Hy. assert (NoDup (fst <$> Checkpoints.checkpoints t)) as Hnd by (destruct t; by apply (bool_decide_unpack _); vm_compute).
    revert Hx Hy Hnd. generalize (Checkpoints.checkpoints t). intros l Hx Hy Hnd. induction l as [|[m z] l IH]; [by apply not_elem_of_nil in Hx|].
    cbn in Hnd. apply NoDup_cons in Hnd as [Hm Hnd].
    apply elem_of_cons in Hx, Hy. destruct Hx as [Ex|Hx], Hy as [Ey|Hy]; [congruence| | |by apply IH]; exfalso; apply Hm, list_elem_of_fmap.
    + injection Ex as <- <-. by exists (n, y).
    + injection Ey as <- <-. by exists (n, x).
  - intros _ Hx%list_elem_of_In. apply (List.find_none _ _ Ef) in Hx. cbn in Hx. lia.
Qed.
Lemma check_context_fits b chain nBestHeight nHeight : check_context ev b chain nBestHeight = Ok nHeight -> height_in_coinbase nHeight b = Some true ->
  (exists prev, head chain = Some prev /\ nHeight = bi_nHeight prev + 1) /\ fits b chain nHeight nBestHeight.
Proof.
  unfold check_context. intros (prev & Hp & E)%res_bind_ok Hc. destruct (head chain) as [q|]; [|done]. injection Hp as ->. cbn zeta in E.
  apply res_bind_ok in E as (u1 & H1%reject_if_ok & E). apply res_bind_ok in E as (u2 & H2%reject_if_ok & E).
  apply res_bind_ok in E as (u3 & _ & E). apply res_bind_ok in E as (u4 & H4%reject_if_ok & E). apply res_bind_ok in E as (u5 & H5%reject_if_ok & [= <-]).
  split; [by exists prev|]. apply negb_false_iff in H1, H4, H5. apply orb_false_iff in H2 as [H2%Z.leb_gt _]. split.
  - by apply Z.eqb_eq.
  - done.
  - apply Forall_forall. intros tx Htx%list_elem_of_In. rewrite forallb_forall in H4. by apply H4.
  - intros h. by apply CheckHardened_spec.
  - unfold height_in_coinbase in Hc. destruct (head (b_vtx b)) as [tx|]; [|done]. cbn [mbind option_bind] in Hc. destruct (head (vin tx)) as [i|] eqn:Ei; [|done].
    cbn [mbind option_bind] in Hc. injection Hc as [_ Hc%bool_decide_eq_true]%andb_true_iff.
    exists tx, i, (drop (length (CScript.push_int64 [] (bi_nHeight prev + 1))) (scriptSig i)). split_and!; [done..|].
    rewrite <-Hc at 1. by rewrite take_drop.
Qed.

(** A block that [AcceptBlock] accepts obeys the rules after its predecessor and is in the index. *)
Lemma AcceptBlock_accepts b (s s' : pstate) : anchored s -> AcceptBlock RIPEMD160 SHA1 SHA256 Verify nd ev GetTime sp cfg b s = (Ok tt, s') ->
  exists prev i, index s !! bh_hashPrevBlock (b_header b) = Some prev /\ index s !! block_hash b = None
    /\ index s' !! block_hash b = Some i /\ bi_pprev i = Some (bh_hashPrevBlock (b_header b)) /\ bi_nHeight i = bi_nHeight prev + 1
    /\ fits b (chain_of (index s) prev) (bi_nHeight i) (nBestHeight (cs_best (ps_chain s)))
    /\ (CheckpointsMode cfg = STRICT -> fTestNet (e_net ev) = false -> descends (index s) (sync_hash s) (bh_hashPrevBlock (b_header b))).
Proof.
  intros [Hw Hs] E. unfold AcceptBlock in E. apply M_bind_ok in E as (? & ? & [= <- <-] & E).
  apply M_bind_ok in E as (u1 & s1 & [Hn%reject_if_ok ->]%lift_ok & E). apply bool_decide_eq_false, eq_None_not_Some in Hn.
  destruct (index s !! bh_hashPrevBlock (b_header b)) as [prev|] eqn:Hp; [|done].
  apply M_bind_ok in E as (nHeight & s1 & [Hctx ->]%lift_ok & E). apply M_bind_ok in E as (cp & s1 & [Hcp ->]%lift_ok & E).
  apply M_bind_ok in E as (u2 & s1 & [Hstrict%reject_if_ok ->]%lift_ok & E).
  assert (Checkpoints.CheckSync (fTestNet (e_net ev)) (index s) (sync_hash s) (block_hash b) prev = Some cp) as Hcp' by by destruct (Checkpoints.CheckSync _ _ _ _ _); [injection Hcp as ->|].
  apply M_bind_ok in E as (u3 & s1 & Ewarn & E). assert (index s1 = index s /\ sync_hash s1 = sync_hash s) as [E1 S1].
  { revert Ewarn. clear. destruct (_ && _); unfold modify, mret; intros E; by inversion E. }
  apply M_bind_ok in E as (ok & s2 & [Hok ->]%lift_ok & E). destruct (height_in_coinbase nHeight b) as [ok'|] eqn:Hcb; [|done]. injection Hok as ->.
  apply M_bind_ok in E as (u4 & s2 & [->%reject_if_ok%negb_false_iff ->]%lift_ok & E). apply M_bind_ok in E as (u5 & s2 & [_ ->]%lift_ok & E).
  destruct (BlockFile.WriteToDisk _ _ _) as [[d [nFile pos]]|]; [|done]. apply M_bind_ok in E as (u6 & s2 & [= _ <-] & E).
  destruct (check_context_fits _ _ _ _ Hctx Hcb) as [(prev' & Hhd & ->) Hfit].
  assert (prev' = prev) as -> by (rewrite (chain_of_cons _ Hw _ prev Hp) in Hhd; cbn in Hhd; congruence).
  apply M_bind_ok in E as (init & s2 & E2 & E). pose proof (IsInitialBlockDownload_index _ _ _ E2) as Ei.
  apply IsInitialBlockDownload_still in E2 as [_ S2].
  apply M_bind_ok in E as ([] & s3 & E3 & E). unfold on_chain in E3. destruct (AddToBlockIndex _ _ _ _ _ _ _ _ _ _ _ _ (ps_chain s2)) as [r3 c3] eqn:E4.
  injection E3 as -> <-. apply AddToBlockIndex_inserts in E4 as [[? _]|(i & Hn2 & Hi & Hk)]; [done|].
  assert (index s2 = index s) as E2i by (rewrite Ei; exact E1). rewrite E2i in *.
  assert (new_leaf (index s) (block_hash b) i) as Hnl by (rewrite <-E2i; by eapply new_entry_new_leaf).
  assert (leaf (block_hash b) (bh_hashPrevBlock (b_header b)) i prev) as [= L1 L2 L3 _] by (eapply new_entry_leaf; [by rewrite E2i|exact Hi]).
  assert (index_wf (<[block_hash b := i]> (index s))) as Hw3 by by apply new_leaf_wf.
  destruct Hk as [Hw4 Hg4]; [cbn; by rewrite E2i|]. cbn in Hg4. rewrite E2i in Hg4.
  set (s4 := upd_chain c3 s2) in *. assert (place <$> index s4 !! block_hash b = Some (place i)) as H4.
  { apply Hg4. by rewrite lookup_insert_eq. }
  assert (anchored s4) as A4.
  { split; [done|]. change (sync_hash s4) with (sync_hash s2). rewrite S2. change (is_Some (index s4 !! sync_hash s1)). rewrite S1.
    destruct Hs as [x Hx]. assert (place <$> index s4 !! sync_hash s = Some (place x)) as (y & Hy & _)%fmap_Some; [|by exists y].
    apply Hg4. rewrite lookup_insert_ne; [done|congruence]. }
  assert (advances s4 s') as Hadv.
  { revert E. match goal with |- ?m _ = _ -> _ => enough (preserves advances m) as Hpr by apply Hpr end.
    preserve; [apply still_weaken, count_block_still|match goal with |- context [if ?c then _ else _] => destruct c end; preserve; apply still_weaken, emit_still|apply succeeds_advances, AcceptPendingSyncCheckpoint_advances]. }
  destruct (Hadv A4) as (_ & Hg & _). apply fmap_Some in H4 as (j & Hj & Epl). pose proof (Hg _ _ Hj) as (k & Hk & Epk)%fmap_Some.
  exists prev, k. assert (place k = place i) as [= P1 P2 P3 P4] by congruence. rewrite P2, P3, L2, L3. split_and!; try done.
  intros Hm Ht. rewrite Hm, bool_decide_true in Hstrict by done. cbn [andb] in Hstrict. apply negb_false_iff in Hstrict as ->. rewrite Ht in Hcp'.
  by eapply CheckSync_descends.
Qed.

(** C9 (safety): what is accepted obeys the rules of its place. When [AcceptBlock] accepts a block, its predecessor was in
    the index and the block was not; now it is, one above its predecessor; it has the difficulty that the chain
    before it asks for and is later than the median of that chain, all its transactions are final, its hash is the hardened checkpoint of its
    height if there is one, and its coinbase starts with the height; and in strict mode on the main network it descends from the
    synchronized checkpoint. *)
Theorem AcceptBlock_sound b (s s' : pstate) :
  index_wf (index s) -> is_Some (index s !! sync_hash s) ->
  AcceptBlock RIPEMD160 SHA1 SHA256 Verify nd ev GetTime sp cfg b s = (Ok tt, s') ->
  exists prev i, index s !! bh_hashPrevBlock (b_header b) = Some prev /\ index s !! block_hash b = None
    /\ index s' !! block_hash b = Some i /\ bi_pprev i = Some (bh_hashPrevBlock (b_header b)) /\ bi_nHeight i = bi_nHeight prev + 1
    /\ fits b (chain_of (index s) prev) (bi_nHeight i) (nBestHeight (cs_best (ps_chain s)))
    /\ (CheckpointsMode cfg = STRICT -> fTestNet (e_net ev) = false -> sync_hash s ∈ hashes (index s) (bh_hashPrevBlock (b_header b))).
Proof. intros Hw Hs. apply AcceptBlock_accepts. by split. Qed.

Lemma try_orphans_advances l : preserves advances (try_orphans RIPEMD160 SHA1 SHA256 Verify nd ev GetTime sp cfg l : PM (list uint256)).
Proof.
  induction l as [|b l IH]; cbn [try_orphans]; preserve; [apply succeeds_advances, AcceptBlock_advances| |apply IH].
  apply still_weaken, orphans_still.
Qed.
Lemma work_queue_advances fuel v : preserves advances (work_queue RIPEMD160 SHA1 SHA256 Verify nd ev GetTime sp cfg fuel v : PM unit).
Proof.
  revert v. induction fuel as [|fuel IH]; intros [|h v]; cbn [work_queue]; unfold queue_turn; preserve; [apply try_orphans_advances| |apply IH].
  apply still_weaken, orphans_still.
Qed.

Lemma preliminary_still pfrom b : preserves still (preliminary Verify ev cfg pfrom b : PM CBlock).
Proof. unfold preliminary. quiet. destruct (negb _); quiet. destruct pfrom; quiet. Qed.
Lemma check_stake_still hash b : preserves still (check_stake RIPEMD160 SHA1 SHA256 nd ev sp hash b : PM unit).
Proof.
  unfold check_stake. destruct (IsProofOfStake b); quiet. apply on_chain_still. intros d. apply preserves_modify. intros c. by apply same_index_kept.
Qed.
Lemma check_spam_still pfrom hash b : preserves still (check_spam ev pfrom hash b : PM unit).
Proof.
  unfold check_spam. quiet. destruct (Checkpoints.GetLastSyncCheckpoint _ _); quiet. destruct (bool_decide _); quiet.
  match goal with |- context [if ?w then _ else _] => destruct w end; quiet. destruct (_ >? _); quiet. destruct pfrom; quiet.
Qed.
Lemma AskForPending_still pfrom : preserves still (AskForPendingSyncCheckpoint pfrom : PM unit).
Proof. unfold AskForPendingSyncCheckpoint. quiet. destruct (_ && _); quiet. Qed.
Lemma hold_orphan_still pfrom hash b : preserves still (hold_orphan ev GetTime pfrom hash b : PM unit).
Proof.
  unfold hold_orphan. quiet; [destruct (IsProofOfStake b); quiet|]. destruct pfrom; quiet; [apply IsInitialBlockDownload_still|].
  match goal with |- context [if ?w then _ else _] => destruct w end; quiet.
Qed.
Lemma SendSyncCheckpoint_advances hash : preserves advances (SendSyncCheckpoint RIPEMD160 SHA1 SHA256 Verify nd ev GetTime cfg hash : PM unit).
Proof.
  unfold SendSyncCheckpoint. destruct (MasterSign cfg) as [sign|]; [|apply still_weaken; quiet]. destruct (sign _); [|apply still_weaken; quiet].
  preserve; [apply ProcessSyncCheckpoint_advances|]. apply still_weaken, emit_still.
Qed.

Lemma ProcessBlock_advances pfrom b : preserves advances (ProcessBlock RIPEMD160 SHA1 SHA256 Verify nd ev GetTime sp cfg pfrom b : PM unit).
Proof.
  unfold ProcessBlock. preserve.
  - apply still_weaken, preliminary_still.
  - apply still_weaken, check_stake_still.
  - apply still_weaken, check_spam_still.
  - apply still_weaken, IsInitialBlockDownload_still.
  - match goal with |- context [if ?w then _ else _] => destruct w end; preserve. apply still_weaken, AskForPending_still.
  - destruct (bool_decide _); [|apply still_weaken, hold_orphan_still]. preserve; [apply AcceptBlock_advances|apply work_queue_advances|].
    destruct (_ && _); preserve. apply succeeds_advances, SendSyncCheckpoint_advances.
Qed.

(** C10 (invariant): the index is a tree that only grows and the synchronized checkpoint is an anchor that only moves
    forward. Let the index be well-formed and hold the checkpoint. Then whatever block arrives from whomever, with its orphans,
    with success, failure or an exception half way, the index is well-formed afterwards, every entry is where it was with the
    same trust, and the checkpoint is an entry of the index that is the old one or descends from it. *)
Theorem ProcessBlock_anchored pfrom b (s s' : pstate) r :
  index_wf (index s) -> is_Some (index s !! sync_hash s) ->
  ProcessBlock RIPEMD160 SHA1 SHA256 Verify nd ev GetTime sp cfg pfrom b s = (r, s') ->
  index_wf (index s') /\ tree_grows (index s) (index s')
  /\ is_Some (index s' !! sync_hash s') /\ sync_hash s ∈ hashes (index s') (sync_hash s').
Proof. intros Hw Hs E%ProcessBlock_advances. by destruct E as ([? ?] & ? & ?). Qed.

End process.

(** ** An example

    The chain of [BestChainMain]: the blocks 2 and 3 follow 1, and 2 is the best one. Block 4 after 3 arrives while the checkpoint 1 is
    about to move to it, and 5 waits for it. *)
#[local] Instance ex_hash : BlockHash := BestChainMain.ex_hash.
#[local] Instance ex_checker : SigChecker unit := BestChainMain.ex_checker.
Definition ex_mined (prev n nHeight nBits : Z) : CBlock :=
  let vtx := [Transaction 1 2000 [TxIn COutPoint_SetNull [80 + nHeight; n] UINT32_MAX []] [TxOut 1000000 [0x51]] 0] in
  let h root := BlockHeader 6 (uint256_of prev) root (2000 + n) nBits n in
  Block (h (default [] (block_merkle_root (Block (h []) vtx [])))) vtx [].
Definition ex_sync : sync_state := Sync (uint256_of 1) (uint256_of 0) (uint256_of 4) (CSyncCheckpoint_new (uint256_of 0)) (CSyncCheckpoint_new (uint256_of 4)).
Definition ex_orphans : orphan_state := add_orphan (uint256_of 5) (ex_mined 4 5 3 504363821) (Orphans ∅ ∅ ∅).
Definition ex_node_state : pstate LevelDB.CLevelDB unit :=
  PState (upd_index (delete (uint256_of 4)) ex_state) ex_written.1 1 ex_sync ex_orphans (0, None) 0 [].
Definition ex_settings : settings := Settings STRICT ∅ true None (fun _ => None).
Definition ex_process (b : CBlock) (s : pstate LevelDB.CLevelDB unit) : res unit * pstate LevelDB.CLevelDB unit :=
  ProcessBlock Crypto.RIPEMD160 Crypto.SHA1 Crypto.SHA256 SigCheck.toy_verify ex_node (Env mainnet 2000 50 4 1) 3000 Kernel.mainnet_stake ex_settings true b s.
Definition ex_after : res unit * pstate LevelDB.CLevelDB unit := ex_process (ex_mined 3 4 2 0x1e0fffff) ex_node_state.

(** Both blocks join the best chain, the checkpoint moves, and no orphan is left. *)
Lemma ex_after_ok : ex_after.1 = Ok tt /\ hashSyncCheckpoint (ps_sync ex_after.2) = uint256_of 4
  /\ hashBestChain (cs_best (ps_chain ex_after.2)) = uint256_of 5 /\ mapOrphanBlocks (ps_orphans ex_after.2) = ∅.
Proof.
  assert (match ex_after with (Ok _, s) =>
    bool_decide ((hashSyncCheckpoint (ps_sync s), hashBestChain (cs_best (ps_chain s)), size (mapOrphanBlocks (ps_orphans s))) = (uint256_of 4, uint256_of 5, 0%nat))
    | _ => false end = true) as E by (vm_compute; reflexivity).
  destruct ex_after as [[[]|d| |] s]; [|done..]. apply bool_decide_eq_true in E.
  injection E as E1 E2 E3%map_size_empty_inv. split; [reflexivity|]. split; [exact E1|]. split; [exact E2|exact E3].
Qed.

Lemma ProcessBlock_anchored_witness :
  hashSyncCheckpoint (ps_sync ex_node_state) = uint256_of 1
  /\ uint256_of 1 ∈ hashes (cs_index (ps_chain ex_after.2)) (uint256_of 4).
Proof.
  destruct ex_after_ok as (_ & <- & _). split; [reflexivity|].
  apply (ProcessBlock_anchored (disk_of := LevelDB.pdb) (db_ok := LevelDB.writable) (opened := fun d => LevelDB.no_batch d = false)
    Crypto.RIPEMD160 Crypto.SHA1 Crypto.SHA256 SigCheck.toy_verify ex_node (Env mainnet 2000 50 4 1) 3000 Kernel.mainnet_stake ex_settings true
    (ex_mined 3 4 2 0x1e0fffff) ex_node_state ex_after.2 ex_after.1).
  - apply index_wf_check. vm_compute. reflexivity.
  - apply (bool_decide_unpack _). vm_compute. exact I.
  - apply surjective_pairing.
Defined.

Definition ex_accept : res unit * pstate LevelDB.CLevelDB unit :=
  AcceptBlock Crypto.RIPEMD160 Crypto.SHA1 Crypto.SHA256 SigCheck.toy_verify ex_node (Env mainnet 2000 50 4 1) 3000 Kernel.mainnet_stake ex_settings
    (ex_mined 2 6 2 0x1e0fffff) ex_node_state.
Lemma AcceptBlock_sound_witness :
  ex_accept.1 = Ok tt /\ exists i, cs_index (ps_chain ex_accept.2) !! block_hash (ex_mined 2 6 2 0x1e0fffff) = Some i
    /\ uint256_of 1 ∈ hashes (cs_index (ps_chain ex_node_state)) (uint256_of 2).
Proof.
  assert (ex_accept.1 = Ok tt) as E by (vm_compute; reflexivity). split; [exact E|].
  destruct (AcceptBlock_sound (disk_of := LevelDB.pdb) (db_ok := LevelDB.writable) (opened := fun d => LevelDB.no_batch d = false)
    Crypto.RIPEMD160 Crypto.SHA1 Crypto.SHA256 SigCheck.toy_verify ex_node (Env mainnet 2000 50 4 1) 3000 Kernel.mainnet_stake ex_settings
    (ex_mined 2 6 2 0x1e0fffff) ex_node_state ex_accept.2) as (prev & i & _ & _ & Hi & _ & _ & _ & Hd).
  - apply index_wf_check. vm_compute. reflexivity.
  - apply (bool_decide_unpack _). vm_compute. exact I.
  - rewrite <-E. apply surjective_pairing.
  - exists i. split; [exact Hi|]. by apply Hd.
Defined.
End ProcessBlockProps.
