(* ===== verification/OrphanBlocks.v ===== *)
(** * OrphanBlocks: the blocks that wait for their predecessor

    The map by hash and the map by predecessor hold the same blocks; the work queue ends; it leaves no block waiting for one that was
    accepted; the root of an orphan is found. *)
From S2P Require Import Prelude ScriptNum Script Serialize Crypto Transaction Merkle Uint256 BlockData LevelDB.
From S2P Require Import Keys SigCheck Interpreter Solver Inputs Difficulty BlockFile ChainIndex Checkpoints Kernel Block BlockProps InputsProps Mempool BestChain.
From S2P Require Import BestChainProps BestChainMain BlockIndexProps ProcessBlock ProcessBlockProps.
Import Tx BlockData Script_param Inputs InputsProps Difficulty ChainIndex Block BlockProps BestChain BestChainProps BlockIndexProps ProcessBlock.
Open Scope block_scope.

Module OrphanBlocks.

(** ** The two maps *)

Section maps.
Context `{BlockHash}.

Definition prev_of (b : CBlock) : uint256 := bh_hashPrevBlock (b_header b).
Definition waiting (o : orphan_state) (p : uint256) : list CBlock := default [] (mapOrphanBlocksByPrev o !! p).

Record orphans_ok (o : orphan_state) : Prop := OrphansOk {
  oo_waits : forall h b, mapOrphanBlocks o !! h = Some b -> block_hash b = h /\ b ∈ waiting o (prev_of b);
  oo_known : forall p b, b ∈ waiting o p -> prev_of b = p /\ mapOrphanBlocks o !! block_hash b = Some b;
  oo_once : forall p, NoDup (block_hash <$> waiting o p) }.

Lemma add_orphan_ok b o : orphans_ok o -> mapOrphanBlocks o !! block_hash b = None -> orphans_ok (add_orphan (block_hash b) b o).
Proof.
  intros [H1 H2 H3] Hn. assert (forall p, waiting (add_orphan (block_hash b) b o) p = waiting o p ++ (if decide (p = prev_of b) then [b] else [])) as Hw.
  { intros p. unfold waiting, add_orphan, prev_of. cbn. destruct (decide _) as [->|Hne]; [by rewrite lookup_insert_eq|].
    by rewrite lookup_insert_ne, app_nil_r by congruence. }
  split.
  - intros h c. cbn. intros [[<- <-]|[Hne Hc]]%lookup_insert_Some; rewrite Hw.
    + split; [done|]. rewrite decide_True by done. apply elem_of_app. right. by apply list_elem_of_singleton.
    + apply H1 in Hc as [? ?]. split; [done|]. apply elem_of_app. by left.
  - intros p c. rewrite Hw. cbn. intros [Hc|Hc]%elem_of_app.
    + apply H2 in Hc as [? Hc]. split; [done|]. rewrite lookup_insert_ne; [done|congruence].
    + destruct (decide _) as [->|]; [|by apply not_elem_of_nil in Hc]. apply list_elem_of_singleton in Hc as ->. by rewrite lookup_insert_eq.
  - intros p. rewrite Hw, fmap_app. apply NoDup_app. split; [apply H3|]. split; [|destruct (decide _); [apply NoDup_singleton|constructor]].
    intros h (c & -> & Hc)%list_elem_of_fmap. apply H2 in Hc as [_ Hc]. destruct (decide _); [|apply not_elem_of_nil].
    cbn. rewrite list_elem_of_singleton. congruence.
Qed.

Lemma see_stake_ok st o : orphans_ok o -> orphans_ok (see_stake st o).
Proof. by intros [H1 H2 H3]. Qed.

(** Between the removal of a list from the one map and from the other *)
Record draining (p : uint256) (l : list CBlock) (o o0 : orphan_state) : Prop := Draining {
  dr_prev : mapOrphanBlocksByPrev o = mapOrphanBlocksByPrev o0;
  dr_map : forall h b, mapOrphanBlocks o !! h = Some b <-> mapOrphanBlocks o0 !! h = Some b /\ (b ∈ waiting o0 p -> b ∈ l) }.

Lemma drain_one p b l o o0 : orphans_ok o0 -> (forall c, c ∈ b :: l -> c ∈ waiting o0 p) -> NoDup (block_hash <$> b :: l) ->
  draining p (b :: l) o o0 -> draining p l (drop_orphan b o) o0.
Proof.
  intros [H1 H2 H3] Hl Hnd [D1 D2]. split; [done|]. intros h c. cbn. rewrite lookup_delete_Some, D2. cbn in Hnd. apply NoDup_cons in Hnd as [Hb _].
  split.
  - intros (Hne & Hc & Hw). split; [done|]. intros Hcw. apply H1 in Hc as [Hh _]. apply Hw in Hcw as [->|?]%elem_of_cons; [congruence|done].
  - intros [Hc Hw]. pose proof (H1 h c Hc) as [Hh _]. split_and!; [|done|intros Hcw; right; by apply Hw].
    intros <-. apply Hb. assert (c = b) as -> by (pose proof (H2 p b (Hl b (list_elem_of_here _ _))) as [_ Hb2]; congruence).
    apply list_elem_of_fmap_2, Hw, Hl. by left.
Qed.

Lemma drained_ok p o o0 : orphans_ok o0 -> draining p [] o o0 -> orphans_ok (drop_prev p o).
Proof.
  intros [H1 H2 H3] [D1 D2]. assert (forall q, waiting (drop_prev p o) q = if decide (q = p) then [] else waiting o0 q) as Hw.
  { intros q. unfold waiting, drop_prev. cbn. rewrite D1. destruct (decide _) as [->|Hne]; [by rewrite lookup_delete_eq|by rewrite lookup_delete_ne]. }
  split.
  - intros h b. cbn. intros [Hb Hn]%D2. apply H1 in Hb as [Hh Hb]. split; [done|]. rewrite Hw. destruct (decide _) as [E|]; [|done].
    rewrite E in Hb. by apply Hn in Hb.
  - intros q b. rewrite Hw. destruct (decide _) as [|Hne]; [by intros ?%not_elem_of_nil|]. intros Hb. pose proof (H2 q b Hb) as [Hq Hm].
    split; [done|]. cbn. apply D2. split; [done|]. intros Hb2. apply H2 in Hb2 as [? _]. congruence.
  - intros q. rewrite Hw. destruct (decide _); [constructor|apply H3].
Qed.

(** Blocks only leave. *)
Definition shrinks (o o' : orphan_state) : Prop :=
  mapOrphanBlocks o' ⊆ mapOrphanBlocks o /\ forall q, waiting o' q = waiting o q \/ waiting o' q = [].
#[export] Instance shrinks_pre : PreOrder shrinks.
Proof.
  split; [intros o; split; [done|by left]|]. intros o1 o2 o3 [H1 W1] [H2 W2]. split; [by etransitivity|].
  intros q. destruct (W2 q) as [->| ->]; [apply W1|by right].
Qed.

Lemma drained_shrinks p o o0 : draining p [] o o0 -> shrinks o0 (drop_prev p o) /\ waiting (drop_prev p o) p = [].
Proof.
  intros [D1 D2]. unfold waiting, drop_prev. cbn. rewrite D1, lookup_delete_eq. split; [|done]. split.
  - apply map_subseteq_spec. intros h b [Hb _]%D2. done.
  - intros q. destruct (decide (q = p)) as [->|Hne]; [right|left]; unfold waiting; cbn; [by rewrite lookup_delete_eq|by rewrite lookup_delete_ne].
Qed.

Lemma draining_refl p o : draining p (waiting o p) o o.
Proof. split; [done|]. intros h b. tauto. Qed.
End maps.

(** ** The root of an orphan *)

(** No block is its own ancestor. *)
Definition acyclic `{BlockHash} (m : gmap uint256 CBlock) : Prop :=
  exists rank : uint256 -> nat, forall h b p, m !! h = Some b -> m !! prev_of b = Some p -> (rank (prev_of b) < rank h)%nat.

Lemma orphan_root_ends `{BlockHash} m b : acyclic m -> exists root, orphan_root (size m) m b = Some root /\ m !! prev_of root = None.
Proof.
  intros [rank Hr]. set (below := fun n : nat => filter (fun e : uint256 * CBlock => (rank e.1 <= n)%nat) m).
  enough (forall fuel b, (forall p, m !! prev_of b = Some p -> size (below (rank (prev_of b))) <= fuel)%nat ->
    exists root, orphan_root fuel m b = Some root /\ m !! prev_of root = None) as Hf.
  { apply Hf. intros p _. apply map_subseteq_size, map_filter_subseteq. }
  induction fuel as [|fuel IH]; intros c Hc; cbn [orphan_root]; fold (prev_of c); destruct (m !! prev_of c) as [p|] eqn:Ep;
    [|by exists c| |by exists c]; specialize (Hc p eq_refl).
  - exfalso. assert (below (rank (prev_of c)) !! prev_of c = Some p) as Hp by by apply map_lookup_filter_Some.
    assert (size (below (rank (prev_of c))) = 0)%nat as E0%map_size_empty_inv by lia. by rewrite E0, lookup_empty in Hp.
  - apply IH. intros q Eq. pose proof (Hr _ _ _ Ep Eq) as Hlt.
    enough (size (below (rank (prev_of p))) < size (below (rank (prev_of c))))%nat by lia. apply map_subset_size, map_subset_alt. split.
    + apply map_subseteq_spec. intros h x [Hx Hle]%map_lookup_filter_Some. apply map_lookup_filter_Some. cbn in *. split; [done|lia].
    + exists (prev_of c). split; [|by exists p; apply map_lookup_filter_Some]. apply map_lookup_filter_None. right. intros x _. cbn. lia.
Qed.

Lemma acyclic_one `{BlockHash} h b : prev_of b <> h -> acyclic (<[h := b]> ∅).
Proof.
  intros Hne. exists (fun _ => 0%nat). intros x c p [[<- <-]|[_ Hc]]%lookup_insert_Some Hp; [|by rewrite lookup_empty in Hc].
  by rewrite lookup_insert_ne, lookup_empty in Hp.
Qed.

(** ** What leaves the orphans alone *)

Section process.
Context `{MPI} `{BlockHash}.
Context {D : Type} `{!TxDB D, !BlockDB D, !ChainDB D}.
Context {C : Type} `{!SigChecker C}.
Variables RIPEMD160 SHA1 SHA256 : bytes -> bytes.
Variable Verify : bytes -> uint256 -> bytes -> bool.
Variable nd : node.
Variable ev : env.
Variable GetTime : Z.
Variable sp : Kernel.stake_params.
Variable cfg : settings.

Abbreviation pstate := (pstate D C).
Abbreviation PM := (M pstate).

Definition same_orphans (s s' : pstate) : Prop := ps_orphans s' = ps_orphans s.
#[local] Instance same_orphans_pre : PreOrder same_orphans.
Proof. split; [by intros s|]. unfold same_orphans. intros s1 s2 s3. congruence. Qed.

Lemma on_chain_orphans {A} (m : disk -> M (chainstate D C) A) : preserves same_orphans (on_chain m).
Proof. intros s r s'. unfold on_chain. destruct (m (ps_disk s) (ps_chain s)) as [r1 c]. by intros [= _ <-]. Qed.

Ltac quiet := preserve; repeat (lazymatch goal with
  | |- preserves same_orphans (modify _) => by apply preserves_modify
  | |- preserves same_orphans (on_chain _) => apply on_chain_orphans
  | |- preserves same_orphans (if ?b then _ else _) => destruct b
  | |- preserves same_orphans (match ?b with _ => _ end) => destruct b
  end; preserve).

Lemma IsInitialBlockDownload_orphans : preserves same_orphans (IsInitialBlockDownload ev GetTime : PM bool).
Proof. unfold IsInitialBlockDownload. quiet. Qed.
Lemma count_block_orphans : preserves same_orphans (count_block ev GetTime : PM unit).
Proof. unfold count_block. quiet. apply IsInitialBlockDownload_orphans. Qed.
Lemma SetBestChain_block_orphans h b : preserves same_orphans (SetBestChain_block RIPEMD160 SHA1 SHA256 Verify nd ev GetTime h b : PM unit).
Proof. unfold SetBestChain_block. quiet. apply IsInitialBlockDownload_orphans. Qed.
Lemma validate_orphans h : preserves same_orphans (validate h : PM bool).
Proof. unfold validate. quiet. Qed.
Lemma to_main_chain_orphans h f : preserves same_orphans (modify f : PM unit) ->
  preserves same_orphans (to_main_chain RIPEMD160 SHA1 SHA256 Verify nd ev GetTime h (modify f) : PM unit).
Proof. intros Hf. unfold to_main_chain. quiet; [apply SetBestChain_block_orphans|done]. Qed.
Lemma WriteSyncCheckpoint_orphans h : preserves same_orphans (WriteSyncCheckpoint h : PM unit).
Proof. unfold WriteSyncCheckpoint. quiet. Qed.
Lemma AcceptPendingSyncCheckpoint_orphans :
  preserves same_orphans (AcceptPendingSyncCheckpoint RIPEMD160 SHA1 SHA256 Verify nd ev GetTime : PM unit).
Proof.
  unfold AcceptPendingSyncCheckpoint. quiet; [apply validate_orphans|apply to_main_chain_orphans; by apply preserves_modify|apply WriteSyncCheckpoint_orphans].
Qed.
Lemma ProcessSyncCheckpoint_orphans pfrom msg :
  preserves same_orphans (ProcessSyncCheckpoint RIPEMD160 SHA1 SHA256 Verify nd ev GetTime pfrom msg : PM CSyncCheckpoint).
Proof.
  unfold ProcessSyncCheckpoint. quiet; [apply validate_orphans|apply to_main_chain_orphans; by apply preserves_modify|apply WriteSyncCheckpoint_orphans].
Qed.
Lemma succeeds_orphans (m : PM unit) : preserves same_orphans m -> preserves same_orphans (succeeds m).
Proof. intros Hm. unfold succeeds. preserve. apply Hm. Qed.
Lemma AcceptBlock_orphans b : preserves same_orphans (AcceptBlock RIPEMD160 SHA1 SHA256 Verify nd ev GetTime sp cfg b : PM unit).
Proof.
  unfold AcceptBlock. quiet; [apply IsInitialBlockDownload_orphans|apply count_block_orphans|apply succeeds_orphans, AcceptPendingSyncCheckpoint_orphans].
Qed.
Lemma SendSyncCheckpoint_orphans hash : preserves same_orphans (SendSyncCheckpoint RIPEMD160 SHA1 SHA256 Verify nd ev GetTime cfg hash : PM unit).
Proof. unfold SendSyncCheckpoint. quiet. apply ProcessSyncCheckpoint_orphans. Qed.

(** ** The work queue *)

Abbreviation try_orphans := (try_orphans RIPEMD160 SHA1 SHA256 Verify nd ev GetTime sp cfg).
Abbreviation queue_turn := (queue_turn RIPEMD160 SHA1 SHA256 Verify nd ev GetTime sp cfg).
Abbreviation work_queue := (work_queue RIPEMD160 SHA1 SHA256 Verify nd ev GetTime sp cfg).

Lemma succeeds_spec (m : PM unit) s r s' : succeeds m s = (r, s') -> returns r -> exists ok, r = Ok ok.
Proof.
  unfold succeeds, on_reject, M_bind. destruct (m s) as [[u|d| |] s1]; cbn; intros [= <- _]; try done; by eexists.
Qed.

Lemma try_orphans_spec o0 p l s r s' : orphans_ok o0 -> draining p l (ps_orphans s) o0 ->
  (forall b, b ∈ l -> b ∈ waiting o0 p) -> NoDup (block_hash <$> l) -> try_orphans l s = (r, s') -> returns r ->
  exists hs, r = Ok hs /\ draining p [] (ps_orphans s') o0 /\ (length hs <= length l)%nat
    /\ (size (mapOrphanBlocks (ps_orphans s')) + length l = size (mapOrphanBlocks (ps_orphans s)))%nat.
Proof.
  intros Hok. revert s r s'. induction l as [|b l IH]; intros s r s' Hd Hl Hnd; cbn [ProcessBlock.try_orphans].
  { intros [= <- <-] _. exists []. split_and!; [done|done|done|cbn [length]; lia]. }
  intros E Hr. apply bind_returns in E as [(ok & s1 & E1 & E)|(d & -> & E)]; [| |done].
  2: { apply succeeds_spec in E as [ok E]; [|done]. done. }
  apply succeeds_orphans in E1; [|apply AcceptBlock_orphans]. rewrite <-E1 in Hd.
  unfold M_bind at 1, modify in E. set (s2 := upd_orphans _ s1) in E.
  assert (draining p l (ps_orphans s2) o0) as Hd2 by by apply drain_one.
  assert (mapOrphanBlocks (ps_orphans s1) !! block_hash b = Some b) as Hb.
  { apply (dr_map _ _ _ _ Hd). split; [|intros _; by left]. apply (oo_known o0 Hok p b), Hl. by left. }
  assert (size (mapOrphanBlocks (ps_orphans s)) = S (size (mapOrphanBlocks (ps_orphans s2)))) as Hsz.
  { rewrite <-E1. change (mapOrphanBlocks (ps_orphans s2)) with (delete (block_hash b) (mapOrphanBlocks (ps_orphans s1))).
    rewrite map_size_delete_Some by by eexists. assert (size (mapOrphanBlocks (ps_orphans s1)) <> 0)%nat; [|lia].
    apply map_size_non_empty_iff. intros E0. by rewrite E0, lookup_empty in Hb. }
  apply bind_returns in E as [(hs & s3 & E3 & E)|(d & -> & E)]; [| |done].
  - apply IH in E3 as (hs' & [= <-] & Hd3 & Hlen & Hsz3); [|done|intros c Hc; apply Hl; by right|by apply NoDup_cons in Hnd as [_ ?]|done].
    injection E as <- <-. eexists. split_and!; [done|done| |cbn [length]; lia]. destruct ok; cbn [length]; lia.
  - apply IH in E as (hs' & ? & _); [done|done|intros c Hc; apply Hl; by right|by apply NoDup_cons in Hnd as [_ ?]|done].
Qed.

(** One turn of the queue *)
Lemma try_turn h (s : pstate) r1 s1 : orphans_ok (ps_orphans s) -> try_orphans (waiting (ps_orphans s) h) s = (r1, s1) -> returns r1 ->
  exists hs, r1 = Ok hs /\ let o := drop_prev h (ps_orphans s1) in
    orphans_ok o /\ shrinks (ps_orphans s) o /\ waiting o h = []
    /\ (length hs + size (mapOrphanBlocks o) <= size (mapOrphanBlocks (ps_orphans s)))%nat.
Proof.
  intros Hok E Hr. destruct (try_orphans_spec _ h _ s r1 s1 Hok (draining_refl h _)) as (hs & -> & Hd & Hl & Hs); [done|apply oo_once, Hok|done..|].
  destruct (drained_shrinks h _ _ Hd) as [H1 H2]. exists hs. cbn zeta. split_and!; [done|by eapply drained_ok|done|done|cbn; lia].
Qed.

Lemma work_queue_cons fuel h v (s : pstate) : work_queue (S fuel) (h :: v) s =
  match try_orphans (waiting (ps_orphans s) h) s with
  | (Ok hs, s1) => work_queue fuel (v ++ hs) (upd_orphans (drop_prev h) s1)
  | (Reject d, s1) => (Reject d, s1) | (Throws, s1) => (Throws, s1) | (Aborts, s1) => (Aborts, s1)
  end.
Proof. cbn [ProcessBlock.work_queue]. unfold ProcessBlock.queue_turn, M_bind, mget, modify. by destruct (try_orphans _ s) as [[| | |] s1]. Qed.

(** The runs of the loop that end, without fuel: after [n] turns, with the result and the state [out]. *)
Inductive queue_run : nat -> list uint256 -> pstate -> res unit * pstate -> Prop :=
  | queue_empty s : queue_run 0 [] s (Ok tt, s)
  | queue_next n hashPrev v s v' s1 out :
      queue_turn hashPrev v s = (Ok v', s1) -> queue_run n v' s1 out -> queue_run (S n) (hashPrev :: v) s out
  | queue_rejects hashPrev v s d s1 : queue_turn hashPrev v s = (Reject d, s1) -> queue_run 1 (hashPrev :: v) s (Reject d, s1)
  | queue_throws hashPrev v s s1 : queue_turn hashPrev v s = (Throws, s1) -> queue_run 1 (hashPrev :: v) s (Throws, s1)
  | queue_aborts hashPrev v s s1 : queue_turn hashPrev v s = (Aborts, s1) -> queue_run 1 (hashPrev :: v) s (Aborts, s1).

Lemma work_queue_runs fuel v (s : pstate) : orphans_ok (ps_orphans s) -> (length v + size (mapOrphanBlocks (ps_orphans s)) <= fuel)%nat ->
  exists n, (n <= length v + size (mapOrphanBlocks (ps_orphans s)))%nat /\ queue_run n v s (work_queue fuel v s).
Proof.
  revert v s. induction fuel as [|fuel IH]; intros [|h v] s Hok Hf; cbn [length] in Hf; try lia;
    [exists 0%nat; split; [lia|constructor]..|].
  rewrite work_queue_cons. destruct (try_orphans (waiting (ps_orphans s) h) s) as [r s1] eqn:E.
  assert (queue_turn h v s = match r with Ok hs => (Ok (v ++ hs), upd_orphans (drop_prev h) s1)
    | Reject d => (Reject d, s1) | Throws => (Throws, s1) | Aborts => (Aborts, s1) end) as Ht.
  { unfold ProcessBlock.queue_turn, M_bind, mget, modify. fold (waiting (ps_orphans s) h). rewrite E. by destruct r. }
  destruct r as [hs|d| |]; [|exists 1%nat; cbn [length]; split; [lia|by constructor]..].
  apply try_turn in E as (hs' & [= <-] & Hok1 & _ & _ & Hl); [|done..].
  destruct (IH (v ++ hs) (upd_orphans (drop_prev h) s1)) as (n & Hn & Hrun); [done|rewrite length_app; cbn in *; lia|].
  exists (S n). cbn [length]. split; [rewrite length_app in Hn; cbn in *; lia|by econstructor].
Qed.

Lemma work_queue_drains fuel v (s s' : pstate) : orphans_ok (ps_orphans s) -> work_queue fuel v s = (Ok tt, s') ->
  orphans_ok (ps_orphans s') /\ shrinks (ps_orphans s) (ps_orphans s') /\ forall h, h ∈ v -> waiting (ps_orphans s') h = [].
Proof.
  revert v s. induction fuel as [|fuel IH]; intros [|h v] s Hok; try done.
  1,2: by intros [= <-]; split_and!; [..|intros h ?%not_elem_of_nil].
  rewrite work_queue_cons. destruct (try_orphans _ s) as [[hs|d| |] s1] eqn:E; try done.
  apply try_turn in E as (hs' & [= <-] & Hok1 & Hsh & Hw & _); [|done..]. intros E. apply IH in E as (Hok' & Hsh' & Hw'); [|done].
  split_and!; [done|by etransitivity|]. intros x [->|Hx]%elem_of_cons; [|apply Hw', elem_of_app; by left].
  destruct Hsh' as [_ Hq]. by destruct (Hq h) as [->| ->].
Qed.

Lemma work_queue_accepts fuel v (s s' : pstate) d : orphans_ok (ps_orphans s) -> work_queue fuel v s <> (Reject d, s').
Proof.
  revert v s. induction fuel as [|fuel IH]; intros [|h v] s Hok; try done. rewrite work_queue_cons.
  destruct (try_orphans _ s) as [[hs|n| |] s1] eqn:E; try done.
  - apply try_turn in E as (hs' & [= <-] & Hok1 & _); [|done..]. by apply IH.
  - by apply try_turn in E as (hs' & ? & _).
Qed.

(** ** [ProcessBlock] *)

Lemma block_hash_reserealized b : block_hash (default b (ReserealizeBlockSignature cfg b)) = block_hash b.
Proof. unfold ReserealizeBlockSignature. destruct (IsProofOfWork b); [done|]. by destruct (ReserealizeSignature cfg _). Qed.

(** Up to the predecessor the index and the orphans stay. *)
Definition same_blocks (s s' : pstate) : Prop := (ps_orphans s', cs_index (ps_chain s')) = (ps_orphans s, cs_index (ps_chain s)).
#[local] Instance same_blocks_pre : PreOrder same_blocks.
Proof. split; [by intros s|]. unfold same_blocks. intros s1 s2 s3. congruence. Qed.
Ltac same := preserve; repeat (lazymatch goal with
  | |- preserves same_blocks (modify _) => by apply preserves_modify
  | |- preserves same_blocks (if ?b then _ else _) => destruct b
  | |- preserves same_blocks (match ?b with _ => _ end) => destruct b
  end; preserve).

Lemma IsInitialBlockDownload_same : preserves same_blocks (IsInitialBlockDownload ev GetTime : PM bool).
Proof. unfold IsInitialBlockDownload. same. Qed.
Lemma check_stake_same hash b : preserves same_blocks (check_stake RIPEMD160 SHA1 SHA256 nd ev sp hash b : PM unit).
Proof. unfold check_stake. same. by intros s r s' [= _ <-]. Qed.
Lemma check_spam_same pfrom hash b : preserves same_blocks (check_spam ev pfrom hash b : PM unit).
Proof. unfold check_spam. same. Qed.
Lemma AskForPending_same pfrom : preserves same_blocks (AskForPendingSyncCheckpoint pfrom : PM unit).
Proof. unfold AskForPendingSyncCheckpoint. same. Qed.
Lemma preliminary_same pfrom b : preserves same_blocks (preliminary Verify ev cfg pfrom b : PM CBlock).
Proof. unfold preliminary. same. Qed.

Lemma preliminary_spec pfrom b (s s' : pstate) b' : preliminary Verify ev cfg pfrom b s = (Ok b', s') ->
  block_hash b' = block_hash b /\ prev_of b' = prev_of b
  /\ cs_index (ps_chain s) !! block_hash b = None /\ mapOrphanBlocks (ps_orphans s) !! block_hash b = None.
Proof.
  unfold preliminary. intros (x & s1 & [= <- <-] & E)%M_bind_ok.
  apply M_bind_ok in E as (u1 & s1 & [H1%reject_if_ok ->]%lift_ok & E). apply M_bind_ok in E as (u2 & s1 & [H2%reject_if_ok ->]%lift_ok & E).
  apply M_bind_ok in E as (u3 & s1 & _ & E). apply M_bind_ok in E as (u4 & s2 & _ & E). apply M_bind_ok in E as (u5 & s3 & _ & [= <- _]).
  apply bool_decide_eq_false, eq_None_not_Some in H1, H2. split_and!; [| |done|done].
  - destruct (IsCanonicalBlockSignature b); [done|apply block_hash_reserealized].
  - destruct (IsCanonicalBlockSignature b); [done|]. unfold ReserealizeBlockSignature.
    destruct (IsProofOfWork b); [done|]. by destruct (ReserealizeSignature cfg _).
Qed.

Lemma hold_orphan_spec pfrom b (s s' : pstate) r : orphans_ok (ps_orphans s) -> mapOrphanBlocks (ps_orphans s) !! block_hash b = None ->
  hold_orphan ev GetTime pfrom (block_hash b) b s = (r, s') -> returns r ->
  orphans_ok (ps_orphans s') /\ match r with
    | Ok _ => mapOrphanBlocks (ps_orphans s') = <[block_hash b := b]> (mapOrphanBlocks (ps_orphans s))
    | _ => ps_orphans s' = ps_orphans s end.
Proof.
  intros Hok Hn. unfold hold_orphan. unfold M_bind at 1, mget at 1. intros E Hr.
  apply bind_returns in E as [(u & s1 & [_ ->]%lift_ok & E)|(d & -> & [= _ <-])]; [|done|done].
  assert (exists o, orphans_ok o /\ mapOrphanBlocks o = mapOrphanBlocks (ps_orphans s) /\ forall k : PM unit,
    M_bind (if IsProofOfStake b then modify (upd_orphans (see_stake (GetProofOfStake b))) else mret tt) (fun _ => k) s
    = k (upd_orphans (fun _ => o) s)) as (o & Ho & Em & Ek).
  { destruct (IsProofOfStake b); [exists (see_stake (GetProofOfStake b) (ps_orphans s))|exists (ps_orphans s)];
      (split; [first [done|by apply see_stake_ok]|split; [done|intros k; unfold M_bind; by destruct s]]). }
  rewrite Ek in E. clear Ek. unfold M_bind at 1, modify at 1 in E. set (s2 := upd_orphans (add_orphan _ _) _) in E.
  assert (orphans_ok (ps_orphans s2)) as Hok2 by (apply add_orphan_ok; [done|change (mapOrphanBlocks o !! block_hash b = None); by rewrite Em]).
  assert (mapOrphanBlocks (ps_orphans s2) = <[block_hash b := b]> (mapOrphanBlocks (ps_orphans s))) as E2 by (change (<[block_hash b := b]> (mapOrphanBlocks o) = <[block_hash b := b]> (mapOrphanBlocks (ps_orphans s))); by rewrite Em).
  assert (ps_orphans s' = ps_orphans s2) as Es.
  { destruct pfrom; [|by injection E as _ <-]. revert E. match goal with |- ?m _ = _ -> _ => enough (preserves same_orphans m) as Hp by apply Hp end.
    quiet. apply IsInitialBlockDownload_orphans. }
  rewrite Es. split; [done|]. destruct r as [v|d| |]; try done. exfalso. clear -E.
  destruct pfrom; [|done]. revert E. apply never_rejects_bind; [done|]. intros x. apply never_rejects_bind; [apply never_rejects_or_abort|]. intros y.
  apply never_rejects_bind; [done|]. intros []. apply never_rejects_bind; [|intros []; [done|]; apply never_rejects_bind; [apply never_rejects_or_abort|done]].
  unfold IsInitialBlockDownload. apply never_rejects_bind; [done|]. intros z. destruct (pindexBest _); [|done]. destruct (_ <? _); [done|].
  destruct (ps_download z). apply never_rejects_bind; [by destruct (negb _)|]. intros []. apply never_rejects_bind; [apply never_rejects_or_abort|done].
Qed.

Lemma same_step s s1 {A B} (m : PM A) (k : A -> PM B) r s' : M_bind m k s1 = (r, s') -> returns r -> same_blocks s s1 -> preserves same_blocks m ->
  ((exists d, r = Reject d) /\ same_blocks s s') \/ exists a s2, same_blocks s s2 /\ m s1 = (Ok a, s2) /\ k a s2 = (r, s').
Proof.
  intros E Hr Hs Hm. apply bind_returns in E as [(a & s2 & E1 & E)|(d & -> & E1)]; [| |done]; pose proof (Hm _ _ _ E1).
  - right. exists a, s2. split_and!; [by etransitivity|done..].
  - left. split; [by eexists|by etransitivity].
Qed.

(** [ProcessBlock] up to the look at the predecessor *)
Lemma ProcessBlock_steps pfrom b (s s' : pstate) r : ProcessBlock RIPEMD160 SHA1 SHA256 Verify nd ev GetTime sp cfg pfrom b s = (r, s') -> returns r ->
  (exists d, r = Reject d) /\ same_blocks s s'
  \/ exists b' s1, same_blocks s s1 /\ block_hash b' = block_hash b /\ prev_of b' = prev_of b
    /\ cs_index (ps_chain s) !! block_hash b = None /\ mapOrphanBlocks (ps_orphans s) !! block_hash b = None
    /\ if bool_decide (is_Some (cs_index (ps_chain s) !! prev_of b))
       then (do! _ := AcceptBlock RIPEMD160 SHA1 SHA256 Verify nd ev GetTime sp cfg b' in
             do! s := mget in
             do! _ := work_queue (S (size (mapOrphanBlocks (ps_orphans s)))) [block_hash b] in
             if pfrom && bool_decide (is_Some (MasterSign cfg)) then
               do! s := mget in
               do! h := lift (or_abort (pindexBest (cs_best (ps_chain s)))) in
               do! best := lift (or_abort (cs_index (ps_chain s) !! h)) in
               do! target := lift (or_abort (Checkpoints.AutoSelectSyncCheckpoint (chain_of (cs_index (ps_chain s)) best))) in
               do! _ := succeeds (SendSyncCheckpoint RIPEMD160 SHA1 SHA256 Verify nd ev GetTime cfg target) in mret tt
             else mret tt) s1 = (r, s')
       else hold_orphan ev GetTime pfrom (block_hash b) b' s1 = (r, s').
Proof.
  intros E Hr. unfold ProcessBlock in E.
  apply (same_step s s) in E as [?|(b' & s1 & H1 & E1 & E)]; [by left| |done|reflexivity|apply preliminary_same].
  apply preliminary_spec in E1 as (Eh & Ep & Hnew & Hno).
  apply (same_step s s1) in E as [?|(u2 & s2 & H2 & _ & E)]; [by left| |done|done|apply check_stake_same].
  apply (same_step s s2) in E as [?|(u3 & s3 & H3 & _ & E)]; [by left| |done|done|apply check_spam_same].
  apply (same_step s s3) in E as [?|(init & s4 & H4 & _ & E)]; [by left| |done|done|apply IsInitialBlockDownload_same].
  apply (same_step s s4) in E as [?|(u5 & s5 & H5 & _ & E)]; [by left| |done|done|destruct init; [same|apply AskForPending_same]].
  right. exists b', s5. split_and!; [done..|]. unfold M_bind at 1, mget at 1 in E. pose proof H5 as [= _ Ei].
  change (bh_hashPrevBlock (b_header b')) with (prev_of b') in E. rewrite Ei, Ep in E. by destruct (bool_decide _).
Qed.

(** C11 (invariant): the two maps of orphan blocks agree, and nobody waits for a block that came. When [ProcessBlock]
    returns, with success or failure, each block of [mapOrphanBlocks] is under its hash there and once in
    [mapOrphanBlocksByPrev], under its predecessor, and that map holds no other block, if it was so before. At a success the block
    whose predecessor was unknown has joined the orphans; in all other cases orphans have only left, and after
    the success of a block with a known predecessor no orphan waits for it. *)
Theorem ProcessBlock_orphans pfrom b (s s' : pstate) r : orphans_ok (ps_orphans s) ->
  ProcessBlock RIPEMD160 SHA1 SHA256 Verify nd ev GetTime sp cfg pfrom b s = (r, s') -> returns r ->
  orphans_ok (ps_orphans s') /\
  match r, cs_index (ps_chain s) !! prev_of b with
  | Ok _, None => exists b', block_hash b' = block_hash b /\ prev_of b' = prev_of b
      /\ mapOrphanBlocks (ps_orphans s') = <[block_hash b := b']> (mapOrphanBlocks (ps_orphans s))
  | Ok _, Some _ => shrinks (ps_orphans s) (ps_orphans s') /\ waiting (ps_orphans s') (block_hash b) = []
  | _, _ => ps_orphans s' = ps_orphans s
  end.
Proof.
  intros Hok E Hr. apply ProcessBlock_steps in E as [[[d ->] Hs]|(b' & s1 & [= Ho Ei] & Eh & Ep & Hnew & Hno & E)]; [| |done].
  { injection Hs as -> _. by split. }
  rewrite <-Ho in Hok, Hno |- *. destruct (cs_index (ps_chain s) !! prev_of b) as [q|]; [rewrite bool_decide_true in E by by eexists|].
  - apply bind_returns in E as [(u & s2 & E2%AcceptBlock_orphans & E)|(d & -> & E2%AcceptBlock_orphans)]; [| |done]; rewrite <-E2 in *; [|by split].
    unfold M_bind at 1, mget at 1 in E. apply bind_returns in E as [([] & s3 & E3 & E)|(d & -> & E3)]; [| |done].
    + apply work_queue_drains in E3 as (Hok3 & Hsh & Hw); [|done]. assert (ps_orphans s' = ps_orphans s3) as ->.
      { revert E. match goal with |- ?m _ = _ -> _ => enough (preserves same_orphans m) as Hp by apply Hp end. destruct (_ && _); quiet.
        apply succeeds_orphans, SendSyncCheckpoint_orphans. }
      split; [done|]. destruct r as [v|d| |]; try done.
      * split; [done|]. apply Hw. by left.
      * exfalso. destruct (_ && _); [|done]. revert E. apply never_rejects_bind; [done|intros x]. do 3 (apply never_rejects_bind; [apply never_rejects_or_abort|intros ?]).
        apply never_rejects_bind; [|done]. intros x2 d2 x3 E. by apply succeeds_spec in E as [ok ?].
    + exfalso. by eapply work_queue_accepts.
  - rewrite bool_decide_false in E by by intros [? ?]. rewrite <-Eh in E, Hno |- *. pose proof E as E2. apply hold_orphan_spec in E2 as [Hok2 Hm]; [|done..].
    split; [done|]. destruct r; [by exists b'|done..].
Qed.

(** C12 (termination): the loops over orphan blocks end. The loop of [ProcessBlock] over its work queue, as a relation
    that holds only of runs of finitely many turns, has a run from the accepted block, of at most one turn more than there are
    orphans; and its result and state are those that the model computes, which therefore never runs out of fuel. And if
    no block precedes itself, walking back from an orphan ends at a block whose predecessor is not an
    orphan, within as many steps as there are orphans. *)
Theorem orphan_loops_end h (s : pstate) b : orphans_ok (ps_orphans s) -> acyclic (mapOrphanBlocks (ps_orphans s)) ->
  (exists n, (n <= S (size (mapOrphanBlocks (ps_orphans s))))%nat
     /\ queue_run n [h] s (work_queue (S (size (mapOrphanBlocks (ps_orphans s)))) [h] s))
  /\ exists root, orphan_root (size (mapOrphanBlocks (ps_orphans s))) (mapOrphanBlocks (ps_orphans s)) b = Some root
     /\ mapOrphanBlocks (ps_orphans s) !! prev_of root = None
     /\ WantedByOrphan (ps_orphans s) b = Some (prev_of root) /\ GetOrphanRoot (ps_orphans s) b = Some (block_hash root).
Proof.
  intros Hok Ha. split; [apply (work_queue_runs _ [h]); [done|cbn [length]; lia]|].
  destruct (orphan_root_ends _ b Ha) as (root & Hr & Hn). exists root. unfold WantedByOrphan, GetOrphanRoot. by rewrite Hr.
Qed.

End process.

(** ** The example of [ProcessBlockProps] *)

#[local] Instance ex_hash : BlockHash := BestChainMain.ex_hash.
#[local] Instance ex_checker : SigChecker unit := BestChainMain.ex_checker.
Lemma no_orphans_ok st : orphans_ok (Orphans ∅ ∅ st).
Proof.
  split.
  - intros h b. cbn. by rewrite lookup_empty.
  - intros p b. unfold waiting. cbn. rewrite lookup_empty. by intros ?%not_elem_of_nil.
  - intros p. unfold waiting. cbn. rewrite lookup_empty. constructor.
Qed.
Lemma ex_orphans_ok : orphans_ok ProcessBlockProps.ex_orphans.
Proof.
  assert (uint256_of 5 = block_hash (ProcessBlockProps.ex_mined 4 5 3 504363821)) as E by (vm_compute; reflexivity).
  unfold ProcessBlockProps.ex_orphans. rewrite E. apply add_orphan_ok; [apply no_orphans_ok|apply lookup_empty].
Qed.

Lemma ex_prev_known :
  is_Some (cs_index (ps_chain ProcessBlockProps.ex_node_state) !! prev_of (ProcessBlockProps.ex_mined 3 4 2 0x1e0fffff)).
Proof. apply (bool_decide_unpack _). vm_compute. exact I. Qed.

Lemma ProcessBlock_orphans_witness :
  waiting ProcessBlockProps.ex_orphans (uint256_of 4) <> [] /\ orphans_ok (ps_orphans ProcessBlockProps.ex_after.2)
  /\ waiting (ps_orphans ProcessBlockProps.ex_after.2) (uint256_of 4) = [].
Proof.
  destruct ProcessBlockProps.ex_after_ok as (E & _). split; [by vm_compute|].
  pose proof (ProcessBlock_orphans Crypto.RIPEMD160 Crypto.SHA1 Crypto.SHA256 SigCheck.toy_verify ex_node (Env mainnet 2000 50 4 1) 3000
    Kernel.mainnet_stake ProcessBlockProps.ex_settings true (ProcessBlockProps.ex_mined 3 4 2 0x1e0fffff) ProcessBlockProps.ex_node_state
    ProcessBlockProps.ex_after.2 ProcessBlockProps.ex_after.1 ex_orphans_ok (surjective_pairing _)) as Hw.
  rewrite E in Hw. destruct (Hw I) as [Hok Hc]. split; [exact Hok|]. destruct ex_prev_known as [q Hq]. rewrite Hq in Hc. apply Hc.
Defined.
Lemma orphan_loops_end_witness :
  GetOrphanRoot ProcessBlockProps.ex_orphans (ProcessBlockProps.ex_mined 5 6 4 1) = Some (uint256_of 5).
Proof.
  destruct (orphan_loops_end Crypto.RIPEMD160 Crypto.SHA1 Crypto.SHA256 SigCheck.toy_verify ex_node (Env mainnet 2000 50 4 1) 3000
    Kernel.mainnet_stake ProcessBlockProps.ex_settings (uint256_of 4) ProcessBlockProps.ex_node_state (ProcessBlockProps.ex_mined 5 6 4 1))
    as (_ & root & Hr & _ & _ & H).
  - apply ex_orphans_ok.
  - apply acyclic_one. apply (bool_decide_unpack _). vm_compute. exact I.
  - assert (orphan_root (size (mapOrphanBlocks ProcessBlockProps.ex_orphans)) (mapOrphanBlocks ProcessBlockProps.ex_orphans)
      (ProcessBlockProps.ex_mined 5 6 4 1) = Some (ProcessBlockProps.ex_mined 4 5 3 504363821)) as Hr2 by (vm_compute; reflexivity).
    assert (Some root = Some (ProcessBlockProps.ex_mined 4 5 3 504363821)) as [= ->] by exact (eq_trans (eq_sym Hr) Hr2).
    etransitivity; [exact H|]. vm_compute. reflexivity.
Defined.
End OrphanBlocks.
