(* ===== verification/MempoolProps.v ===== *)
(** * MempoolProps: invariants of the memory pool and what [accept] guarantees *)
From S2P Require Import Prelude ScriptNum Script Serialize Crypto Transaction BlockData LevelDB Keys SigCheck Interpreter Solver.
From S2P Require Import Inputs InputsProps Mempool.
Import Tx BlockData Script_param Inputs InputsProps Mempool.

Module MempoolProps.

(** ** The two maps agree *)

Record pool_ok (p : CTxMemPool) : Prop := PoolOk {
  po_tx : forall h tx, mapTx p !! h = Some tx ->
    GetHash tx = Some h /\ forall n i, vin tx !! n = Some i -> mapNextTx p !! prevout i = Some (h, n);
  po_next : forall o h n, mapNextTx p !! o = Some (h, n) ->
    exists tx i, mapTx p !! h = Some tx /\ vin tx !! n = Some i /\ prevout i = o;
  po_checked : forall h tx, mapTx p !! h = Some tx ->
    exists size, GetSerializeSize tx = Some size /\ checked tx size
      /\ IsCoinBase tx = false /\ IsCoinStake tx = false }.

Lemma empty_ok : pool_ok empty_pool.
Proof. split; intros *; cbn; by rewrite lookup_empty. Qed.

(** Inserting the inputs of a transaction *)
Lemma insert_inputs_ne (g : nat -> nat) hash ins (m : gmap COutPoint (uint256 * nat)) o :
  o ∉ prevout <$> ins ->
  foldl (fun m ni => <[prevout ni.2 := (hash, ni.1)]> m) m (imap (fun n i => (g n, i)) ins) !! o = m !! o.
Proof.
  revert g m. induction ins as [|i ins IH]; intros g m Ho; [done|].
  rewrite fmap_cons, not_elem_of_cons in Ho. destruct Ho as [Hne Ho]. cbn [imap foldl].
  rewrite (IH (g ∘ S)) by done. by rewrite lookup_insert_ne.
Qed.

Lemma insert_inputs_eq (g : nat -> nat) hash ins (m : gmap COutPoint (uint256 * nat)) n i :
  NoDup (prevout <$> ins) -> ins !! n = Some i ->
  foldl (fun m ni => <[prevout ni.2 := (hash, ni.1)]> m) m (imap (fun n i => (g n, i)) ins) !! prevout i
  = Some (hash, g n).
Proof.
  revert g m n. induction ins as [|j ins IH]; intros g m n Hnd Hn; [done|].
  rewrite fmap_cons in Hnd. apply NoDup_cons in Hnd as [Hj Hnd]. cbn [imap foldl].
  destruct n as [|n]; cbn in Hn.
  - injection Hn as <-. rewrite (insert_inputs_ne (g ∘ S)) by done. cbn. by rewrite lookup_insert_eq.
  - by rewrite (IH (g ∘ S) _ n).
Qed.

Lemma addUnchecked_ok hash tx p size :
  pool_ok p -> GetHash tx = Some hash -> mapTx p !! hash = None ->
  (forall i, i ∈ vin tx -> mapNextTx p !! prevout i = None) ->
  GetSerializeSize tx = Some size -> checked tx size -> IsCoinBase tx = false -> IsCoinStake tx = false ->
  pool_ok (addUnchecked hash tx p).
Proof.
  intros Hp Hhash Hnew Hfree Hsize Hck Hcb Hcs. pose proof (checked_inputs _ _ Hck) as Hnd.
  assert (forall o, o ∈ prevout <$> vin tx -> mapNextTx p !! o = None) as Hfree'.
  { intros o (i & -> & Hi)%list_elem_of_fmap. by apply Hfree. }
  split; unfold addUnchecked; cbn [mapTx mapNextTx].
  - intros h t Ht. destruct (decide (h = hash)) as [->|Hne].
    + rewrite lookup_insert_eq in Ht. injection Ht as <-. split; [done|]. intros n i Hn.
      by apply (insert_inputs_eq (fun n => n)).
    + rewrite lookup_insert_ne in Ht by done. destruct (po_tx _ Hp h t Ht) as [Hh Hi]. split; [done|].
      intros n i Hn. specialize (Hi n i Hn). rewrite (insert_inputs_ne (fun n => n)); [done|].
      intros Hin. by rewrite Hfree' in Hi.
  - intros o h n. destruct (decide (o ∈ prevout <$> vin tx)) as [Hin|Hnin].
    + apply list_elem_of_fmap in Hin as (i & -> & (k & Hk)%list_elem_of_lookup).
      rewrite (insert_inputs_eq (fun n => n) _ _ _ k) by done. intros [= <- <-].
      exists tx, i. by rewrite lookup_insert_eq.
    + rewrite (insert_inputs_ne (fun n => n)) by done. intros Ho.
      destruct (po_next _ Hp o h n Ho) as (t & i & Ht & Hi). exists t, i. split; [|done].
      rewrite lookup_insert_ne; [done|]. intros ->. congruence.
  - intros h t Ht. destruct (decide (h = hash)) as [->|Hne].
    + rewrite lookup_insert_eq in Ht. injection Ht as <-. by exists size.
    + rewrite lookup_insert_ne in Ht by done. by apply (po_checked _ Hp h).
Qed.

(** ** Removing a transaction *)

Lemma delete_inputs ins (m : gmap COutPoint (uint256 * nat)) o :
  foldl (fun m i => delete (prevout i) m) m ins !! o = if decide (o ∈ prevout <$> ins) then None else m !! o.
Proof.
  revert m. induction ins as [|i ins IH]; intros m; [done|]. cbn [foldl]. rewrite IH, fmap_cons.
  destruct (decide (o ∈ prevout <$> ins)) as [H|H].
  - rewrite decide_True; [done|]. by right.
  - destruct (decide (o = prevout i)) as [->|Hne].
    + rewrite lookup_delete_eq, decide_True; [done|]. by left.
    + rewrite lookup_delete_ne, decide_False; [done| |done]. by intros [?|?]%elem_of_cons.
Qed.

(** The transaction to be removed has the inputs of the stored transaction with its hash: no
    collision of the transaction hash. *)
Definition no_collision (tx : CTransaction) (p : CTxMemPool) : Prop :=
  forall h tx', GetHash tx = Some h -> mapTx p !! h = Some tx' -> prevout <$> vin tx' = prevout <$> vin tx.

Lemma remove_ok tx p p' : pool_ok p -> no_collision tx p -> remove tx p = Some p' -> pool_ok p'.
Proof.
  intros Hp Hcol. unfold remove. destruct (GetHash tx) as [hash|] eqn:Hh; [|done]. cbn [mbind option_bind].
  intros [= <-]. case_bool_decide as Hin; [|done]. destruct Hin as [t0 Ht0].
  pose proof (Hcol hash t0 Hh Ht0) as Hins. destruct (po_tx _ Hp hash t0 Ht0) as [_ H0].
  split; cbn [mapTx mapNextTx].
  - intros h t [Hne Ht]%lookup_delete_Some. destruct (po_tx _ Hp h t Ht) as [Hth Hi]. split; [done|].
    intros n i Hn. rewrite delete_inputs. specialize (Hi n i Hn). destruct (decide _) as [Hd|]; [|done].
    rewrite <-Hins in Hd. apply list_elem_of_fmap in Hd as (j & Hj & (k & Hk)%list_elem_of_lookup).
    specialize (H0 k j Hk). rewrite <-Hj in H0. congruence.
  - intros o h n. rewrite delete_inputs. destruct (decide _) as [|Hd]; [done|]. intros Ho.
    destruct (po_next _ Hp o h n Ho) as (t & i & Ht & Hi & <-). exists t, i. split; [|done].
    rewrite lookup_delete_ne; [done|]. intros ->. apply Hd. rewrite <-Hins.
    assert (t = t0) as -> by congruence. apply list_elem_of_fmap_2. by eapply list_elem_of_lookup_2.
  - intros h t [_ Ht]%lookup_delete_Some. by apply (po_checked _ Hp h).
Qed.

Section accept.
Context {D : Type} `{!TxDB D}.
Context {C : Type} `{!SigChecker C}.
Variables RIPEMD160 SHA1 SHA256 : bytes -> bytes.
Variable nd : node.

Local Abbreviation accept' := (accept RIPEMD160 SHA1 SHA256 nd).

Lemma accept_stateless_ok adj fTestNet tx :
  accept_stateless adj fTestNet tx = Ok tt ->
  nTime tx <= FutureDrift adj /\ nLockTime tx <= INT_MAX /\ IsCoinBase tx = false /\ IsCoinStake tx = false
  /\ (fTestNet = false -> IsStandard tx = None)
  /\ exists size, GetSerializeSize tx = Some size /\ checked tx size.
Proof.
  intros H. unfold accept_stateless in H. res_inv H.
  apply negb_false_iff in E1. pose proof (CheckTransaction_accepts _ _ E0 E1) as ->.
  assert (exists size, GetSerializeSize tx = Some size) as [size Hsize].
  { unfold CheckTransaction in E0. repeat case_match; simplify_eq; by eexists. }
  split_and!; [lia|lia|done|done| |].
  - intros ->. cbn in H. apply negb_false_iff in H. by apply bool_decide_eq_true in H.
  - exists size. split; [done|]. by apply CheckTransaction_checked.
Qed.

(** Every accepting run of [accept] adds the transaction, and all other runs leave the pool alone. *)
Lemma accept_inv adj fTestNet chain limited txdb tx fCheckInputs p c r missing p' c' :
  accept' adj fTestNet chain limited txdb tx fCheckInputs p c = (r, missing, p', c') ->
  r <> Ok tt /\ p' = p \/
  exists hash, r = Ok tt /\ p' = addUnchecked hash tx p /\ GetHash tx = Some hash /\ mapTx p !! hash = None
    /\ (forall i, i ∈ vin tx -> mapNextTx p !! prevout i = None)
    /\ accept_stateless adj fTestNet tx = Ok tt
    /\ (fCheckInputs = true ->
        accept_inputs RIPEMD160 SHA1 SHA256 nd fTestNet chain limited txdb tx p c = (Ok tt, missing, c')).
Proof.
  unfold accept. destruct (accept_stateless adj fTestNet tx) as [[]| | |] eqn:Es;
    [|intros; simplify_eq; by left..].
  destruct (GetHash tx) as [hash|] eqn:Hh; [|intros; simplify_eq; by left].
  unfold exists_. case_bool_decide as Hex; [intros; simplify_eq; by left|].
  apply eq_None_not_Some in Hex.
  destruct (if fCheckInputs then ContainsTx txdb hash else Some false) as [[]|]; [intros; simplify_eq; by left| |intros; simplify_eq; by left].
  destruct (existsb _ (vin tx)) eqn:Ec; [intros; simplify_eq; by left|].
  assert (forall i, i ∈ vin tx -> mapNextTx p !! prevout i = None) as Hfree.
  { intros i Hi. apply existsb_false in Ec. eapply Forall_forall in Ec; [|exact Hi].
    apply bool_decide_eq_false in Ec. by apply eq_None_not_Some. }
  destruct fCheckInputs.
  - destruct (accept_inputs _ _ _ _ _ _ _ _ _ _ _) as [[[[]| | |] m] c1] eqn:Ei;
      intros H; simplify_eq; [|by left..].
    right. exists hash. by split_and!.
  - intros H. simplify_eq. right. exists hash. by split_and!.
Qed.

(** ** The pool as a state machine *)

Inductive step : CTxMemPool -> CTxMemPool -> Prop :=
  | step_accept adj fTestNet chain limited txdb tx fCheckInputs p c r missing p' c' :
      accept' adj fTestNet chain limited txdb tx fCheckInputs p c = (r, missing, p', c') -> step p p'
  | step_remove tx p p' : no_collision tx p -> remove tx p = Some p' -> step p p'
  | step_clear p : step p (clear p).

Definition reachable : CTxMemPool -> Prop := rtc step empty_pool.

Lemma step_ok p p' : pool_ok p -> step p p' -> pool_ok p'.
Proof.
  intros Hp Hs. destruct Hs as [adj fTestNet chain limited txdb tx fCheckInputs p c r missing p' c' Ha|tx p p' Hc Hr|p].
  - apply accept_inv in Ha as [[_ ->]|(hash & _ & -> & Hh & Hn & Hf & Hs & _)]; [done|].
    apply accept_stateless_ok in Hs as (_ & _ & Hcb & Hcs & _ & size & Hsize & Hck).
    by apply (addUnchecked_ok hash tx p size).
  - by eapply remove_ok.
  - split; intros *; cbn; by rewrite lookup_empty.
Qed.

(** C22 (invariant): in every state of the memory pool that acceptances, removals and clearings can
    reach, as long as no transaction that is removed has the hash of another one in the pool, the map of spent outpoints lists exactly the inputs of the stored transactions; so no two
    inputs, of one transaction or of two, spend the same outpoint, every transaction is stored under
    its hash, has passed [CheckTransaction] and is neither coinbase nor coinstake. *)
Theorem mempool_invariant p :
  reachable p ->
  pool_ok p
  /\ forall h1 h2 tx1 tx2 n1 n2 i1 i2,
      mapTx p !! h1 = Some tx1 -> mapTx p !! h2 = Some tx2 ->
      vin tx1 !! n1 = Some i1 -> vin tx2 !! n2 = Some i2 -> prevout i1 = prevout i2 ->
      h1 = h2 /\ n1 = n2.
Proof.
  intros Hr. assert (pool_ok p) as Hp.
  { unfold reachable in Hr. revert Hr. generalize empty_ok. generalize empty_pool.
    intros p0 H0 Hr. induction Hr as [|p1 p2 p3 Hs _ IH]; [done|]. apply IH. by eapply step_ok. }
  split; [done|]. intros h1 h2 tx1 tx2 n1 n2 i1 i2 H1 H2 Hi1 Hi2 Heq.
  destruct (po_tx _ Hp h1 tx1 H1) as [_ Hn1]. destruct (po_tx _ Hp h2 tx2 H2) as [_ Hn2].
  specialize (Hn1 n1 i1 Hi1). specialize (Hn2 n2 i2 Hi2). rewrite Heq in Hn1. rewrite Hn1 in Hn2. by injection Hn2.
Qed.

(** ** What an accepted transaction satisfies *)

Lemma GetValueIn_checked tx chain m ins outs v :
  Forall2 (input_checked nd tx chain m) ins outs ->
  0 <= v -> v + total outs <= block_params.MAX_MONEY -> GetValueIn_loop m ins v = Ok (v + total outs).
Proof.
  intros Hf. revert v. induction Hf as [|i o ins outs Hi Hf IH]; intros v Hv Ht; cbn [GetValueIn_loop total foldr] in *.
  { by rewrite Z.add_0_r. }
  fold (total outs) in *. destruct Hi as [Ho Hval _ _]. unfold GetOutputFor. unfold output in Ho.
  destruct (m !! op_hash (prevout i)) as [p|]; [|done]. cbn [mbind option_bind] in Ho. cbn [or_throw res_bind].
  rewrite Ho. cbn [or_throw res_bind].
  assert (0 <= total outs).
  { clear -Hf. induction Hf as [|? o ? outs [_ Hv _ _] _ IH]; cbn [total foldr]; [lia|]. fold (total outs). lia. }
  assert (s64 (v + nValue o) = v + nValue o) as ->.
  { apply s64_small. unfold block_params.MAX_MONEY, block_params.COIN in *. lia. }
  rewrite IH by lia. f_equal. lia.
Qed.

(** C23 (safety): the acceptance policy. When [accept] with input checks admits a transaction, the pool
    is changed only by adding it under its hash; it is timely, standard (off the test network),
    complete, not in the pool, in conflict with no pool transaction, all its inputs were fetched and are unspent,
    their scripts succeed under the strict flags, and they exceed the outputs by at least the relay
    fee. When [accept] does not admit a transaction, the pool is unchanged. *)
Theorem accept_policy adj fTestNet chain limited txdb tx p c r missing p' c' :
  ins_ok (vin tx) ->
  accept' adj fTestNet chain limited txdb tx true p c = (r, missing, p', c') ->
  r <> Ok tt /\ p' = p \/
  exists hash size inputs outs,
    r = Ok tt /\ p' = addUnchecked hash tx p /\ GetHash tx = Some hash /\ mapTx p !! hash = None
    /\ (forall i, i ∈ vin tx -> mapNextTx p !! prevout i = None)
    /\ nTime tx <= FutureDrift adj /\ (fTestNet = false -> IsStandard tx = None)
    /\ GetSerializeSize tx = Some size /\ checked tx size
    /\ FetchInputs nd txdb (mapTx p) ∅ tx false false ∅ = (Ok inputs, false)
    /\ Forall2 (input_checked nd tx chain inputs) (vin tx) outs
    /\ (forall i, i ∈ vin tx -> exists s, slot inputs (prevout i) = Some s /\ CDiskTxPos_IsNull s = true)
    /\ scripts_verified RIPEMD160 SHA1 SHA256 tx STRICT_FLAGS inputs 0 (vin tx)
    /\ GetMinFee tx 1000 true GMF_RELAY size <= total outs - total (vout tx).
Proof.
  intros Hins H. apply accept_inv in H as [[? ->]|(hash & -> & -> & Hh & Hn & Hf & Hs & Hi)]; [by left|right].
  apply accept_stateless_ok in Hs as (Ht & _ & Hcb & Hcs & Hstd & size & Hsize & Hck).
  specialize (Hi eq_refl). unfold accept_inputs in Hi.
  destruct (FetchInputs nd txdb (mapTx p) ∅ tx false false ∅) as [[inputs| | |] fInvalid] eqn:Ef; try done.
  assert (fInvalid = false) as ->.
  { unfold FetchInputs in Ef. rewrite Hcb in Ef. repeat case_match; simplify_eq; done. }
  destruct (AreInputsStandard _ _ _ _ _ _) as [[std c1]| | |]; try done.
  destruct (let! _ := reject_if (negb std && negb fTestNet) 0 in _) as [[]| | |] eqn:Ec; try done.
  destruct (ConnectInputs _ _ _ _ _ _ _ _ _ _ _ _ _ _ _ _ _) as [rr st] eqn:Econ.
  injection Hi as -> <- _.
  apply ConnectInputs_ok in Econ as (v & Hv & Hsp & Ha); [|done].
  apply check_inputs_ok in Hv as (outs & Houts & -> & Hr); [|done|by apply MAX_MONEY_nonneg].
  apply spend_inputs_ok in Hsp as (_ & Hnull & _ & _ & Hver); [|done..]. rewrite Z.add_0_l in Hr.
  exists hash, size, inputs, outs. split_and!; try done.
  - by apply Hver.
  - res_inv Ec. unfold GetValueIn in E0. rewrite Hcb in E0.
    rewrite (GetValueIn_checked tx chain inputs (vin tx) outs) in E0 by (done || lia).
    injection E0 as <-. rewrite Z.add_0_l in *.
    assert (GetValueOut tx = Some (total (vout tx))) as Hvo.
    { destruct Hck as [_ _ _ Hfo Htot _ _]. unfold GetValueOut.
      rewrite GetValueOut_loop_spec; [by rewrite Z.add_0_l|by apply MAX_MONEY_nonneg| |lia].
      eapply Forall_impl; [exact Hfo|]. by intros o [Ho _]. }
    rewrite Hvo in E1. injection E1 as <-. rewrite Hsize in E2. injection E2 as <-.
    assert (0 <= total (vout tx) <= block_params.MAX_MONEY) as Hvr.
    { destruct Hck as [_ _ _ Hfo Htot _ _]. split; [by eapply total_nonneg|done]. }
    rewrite s64_small in E3; [lia|]. unfold block_params.MAX_MONEY, block_params.COIN in *. lia.
Qed.
End accept.

(** ** The worked example of [InputsProps] in the pool of a test network *)

#[local] Instance ex_checker : SigChecker unit := SigCheck.pure_checker SigCheck.toy_verify.

Definition ex_accept : res unit * bool * CTxMemPool * unit :=
  accept Crypto.RIPEMD160 Crypto.SHA1 Crypto.SHA256 ex_node 2000 true [] false ex_db ex_tx true empty_pool tt.

Lemma mempool_invariant_witness :
  mapTx (addUnchecked ex_hash ex_tx empty_pool) !! ex_hash = Some ex_tx
  /\ pool_ok (addUnchecked ex_hash ex_tx empty_pool).
Proof.
  split; [vm_compute; reflexivity|].
  apply (mempool_invariant (D := LevelDB.CLevelDB) Crypto.RIPEMD160 Crypto.SHA1 Crypto.SHA256 ex_node).
  apply rtc_once.
  apply (step_accept Crypto.RIPEMD160 Crypto.SHA1 Crypto.SHA256 ex_node 2000 true [] false ex_db ex_tx true empty_pool tt (Ok tt) false _ tt).
  vm_compute. reflexivity.
Defined.

Lemma accept_policy_witness :
  exists p', ex_accept = (Ok tt, false, p', tt)
  /\ (Ok tt <> Ok tt /\ p' = empty_pool \/
      exists hash size inputs outs,
        Ok tt = Ok tt /\ p' = addUnchecked hash ex_tx empty_pool /\ GetHash ex_tx = Some hash
        /\ mapTx empty_pool !! hash = None
        /\ (forall i, i ∈ vin ex_tx -> mapNextTx empty_pool !! prevout i = None)
        /\ nTime ex_tx <= FutureDrift 2000 /\ (true = false -> IsStandard ex_tx = None)
        /\ GetSerializeSize ex_tx = Some size /\ checked ex_tx size
        /\ FetchInputs ex_node ex_db (mapTx empty_pool) ∅ ex_tx false false ∅ = (Ok inputs, false)
        /\ Forall2 (input_checked ex_node ex_tx [] inputs) (vin ex_tx) outs
        /\ (forall i, i ∈ vin ex_tx -> exists s, slot inputs (prevout i) = Some s /\ CDiskTxPos_IsNull s = true)
        /\ scripts_verified Crypto.RIPEMD160 Crypto.SHA1 Crypto.SHA256 ex_tx STRICT_FLAGS inputs 0 (vin ex_tx)
        /\ GetMinFee ex_tx 1000 true GMF_RELAY size <= total outs - total (vout ex_tx)).
Proof.
  exists (addUnchecked ex_hash ex_tx empty_pool).
  assert (ex_accept = (Ok tt, false, addUnchecked ex_hash ex_tx empty_pool, tt)) as H by (vm_compute; reflexivity).
  split; [exact H|].
  refine (accept_policy Crypto.RIPEMD160 Crypto.SHA1 Crypto.SHA256 ex_node 2000 true [] false ex_db ex_tx empty_pool tt _ _ _ _ _ H).
  apply Forall_singleton. cbn. lia.
Defined.

End MempoolProps.
