(* ===== verification/Keystore.v ===== *)
(** * Keystore: the key stores ([keystore.h], [keystore.cpp], [crypter.cpp])

    [CBasicKeyStore] keeps secrets by key identifier, malleable keys, redeem scripts and watched
    scripts; [CCryptoKeyStore] adds the encrypted maps, the master key and the flag that says which
    maps are in use. One record holds the fields of both. An operation returns its result and the
    store; [None] is a [key_error] exception. The elliptic curve (public keys, variants of malleable
    keys) and AES are parameters. Iterations over a map run in the order of [map_to_list]; the code's
    order is that of the keys, which only matters for the view found first when several match. *)
From S2P Require Import Prelude Script Crypto Keys Transaction Solver.
Import Solver Script_const.

Module Keystore.

(** [CKey] with a secret set: the secret and the form of its public key *)
Record CKey : Set := Key { k_secret : bytes; k_compressed : bool }.

(** [CMalleableKeyView]: the secret L and the public key H *)
Record CMalleableKeyView : Set := View { v_secretL : bytes; v_pubH : bytes }.

(** The identifier of a [CPubKey] and its hash *)
Definition KeyID (pk : bytes) : bytes := Crypto.Hash160 (CPubKey.data pk).
Definition GetHash (pk : bytes) : bytes := Crypto.Hash (CPubKey.data pk).

(** The maps keyed by views compare the identifiers of H only; the value keeps the view. *)
Record store : Type := Store {
  mapKeys : gmap bytes (bytes * bool);
  mapMalleableKeys : gmap bytes (CMalleableKeyView * bytes);
  mapScripts : gmap bytes bytes;
  setWatchOnly : gset bytes;
  mapCryptedKeys : gmap bytes (bytes * bytes);
  mapCryptedMalleableKeys : gmap bytes (CMalleableKeyView * bytes);
  vMasterKey : bytes;
  fUseCrypto : bool;
  fWalletUnlockMintOnly : bool }.

Definition with_mapKeys f s := Store (f (mapKeys s)) (mapMalleableKeys s) (mapScripts s) (setWatchOnly s)
  (mapCryptedKeys s) (mapCryptedMalleableKeys s) (vMasterKey s) (fUseCrypto s) (fWalletUnlockMintOnly s).
Definition with_mapMalleableKeys f s := Store (mapKeys s) (f (mapMalleableKeys s)) (mapScripts s) (setWatchOnly s)
  (mapCryptedKeys s) (mapCryptedMalleableKeys s) (vMasterKey s) (fUseCrypto s) (fWalletUnlockMintOnly s).
Definition with_mapScripts f s := Store (mapKeys s) (mapMalleableKeys s) (f (mapScripts s)) (setWatchOnly s)
  (mapCryptedKeys s) (mapCryptedMalleableKeys s) (vMasterKey s) (fUseCrypto s) (fWalletUnlockMintOnly s).
Definition with_setWatchOnly f s := Store (mapKeys s) (mapMalleableKeys s) (mapScripts s) (f (setWatchOnly s))
  (mapCryptedKeys s) (mapCryptedMalleableKeys s) (vMasterKey s) (fUseCrypto s) (fWalletUnlockMintOnly s).
Definition with_mapCryptedKeys f s := Store (mapKeys s) (mapMalleableKeys s) (mapScripts s) (setWatchOnly s)
  (f (mapCryptedKeys s)) (mapCryptedMalleableKeys s) (vMasterKey s) (fUseCrypto s) (fWalletUnlockMintOnly s).
Definition with_mapCryptedMalleableKeys f s := Store (mapKeys s) (mapMalleableKeys s) (mapScripts s) (setWatchOnly s)
  (mapCryptedKeys s) (f (mapCryptedMalleableKeys s)) (vMasterKey s) (fUseCrypto s) (fWalletUnlockMintOnly s).
Definition with_vMasterKey m s := Store (mapKeys s) (mapMalleableKeys s) (mapScripts s) (setWatchOnly s)
  (mapCryptedKeys s) (mapCryptedMalleableKeys s) m (fUseCrypto s) (fWalletUnlockMintOnly s).
Definition with_fUseCrypto b s := Store (mapKeys s) (mapMalleableKeys s) (mapScripts s) (setWatchOnly s)
  (mapCryptedKeys s) (mapCryptedMalleableKeys s) (vMasterKey s) b (fWalletUnlockMintOnly s).
Definition with_mintOnly b s := Store (mapKeys s) (mapMalleableKeys s) (mapScripts s) (setWatchOnly s)
  (mapCryptedKeys s) (mapCryptedMalleableKeys s) (vMasterKey s) (fUseCrypto s) b.

(** A fresh [CCryptoKeyStore] *)
Definition CCryptoKeyStore_new : store := Store ∅ ∅ ∅ ∅ ∅ ∅ [] false false.

(** [map[view] = secret]: an equal key already in the map is kept. *)
Definition view_insert {B} (v : CMalleableKeyView) (x : B) (m : gmap bytes (CMalleableKeyView * B)) :
    gmap bytes (CMalleableKeyView * B) :=
  let id := KeyID (v_pubH v) in
  match m !! id with Some (v0, _) => <[id := (v0, x)]> m | None => <[id := (v, x)]> m end.

Definition WALLET_CRYPTO_KEY_SIZE : Z := 32.

Section store.
(** [CKey::GetPubKey], for a secret and a form *)
Variable Pub : bytes -> bool -> bytes.
(** AES-256-CBC under a key and an initialization vector *)
Variables aes_encrypt aes_decrypt : bytes -> bytes -> bytes -> option bytes.
(** [CMalleableKeyView::CheckKeyVariant], [CMalleableKey::CheckKeyVariant] of the secrets L and H, and
    the identifier of the malleable public key of a view *)
Variable CheckKeyVariant : CMalleableKeyView -> bytes -> bytes -> bool.
Variable PrivVariant : bytes * bytes -> bytes -> bytes -> option CKey.
Variable ViewID : CMalleableKeyView -> bytes.

Definition GetPubKey_of (k : CKey) : bytes := Pub (k_secret k) (k_compressed k).

(** [CKey::SetSecret]: the exception of a secret that is not 32 bytes long *)
Definition SetSecret (vchSecret : bytes) (fCompressed : bool) : option CKey :=
  if zlen vchSecret =? 32 then Some (Key vchSecret fCompressed) else None.

(** ** [crypter] *)

Definition EncryptSecret (vMasterKey vchPlaintext nIV : bytes) : option bytes :=
  if negb (zlen vMasterKey =? WALLET_CRYPTO_KEY_SIZE) then None else aes_encrypt vMasterKey nIV vchPlaintext.
Definition DecryptSecret (vMasterKey vchCiphertext nIV : bytes) : option bytes :=
  if negb (zlen vMasterKey =? WALLET_CRYPTO_KEY_SIZE) then None else aes_decrypt vMasterKey nIV vchCiphertext.

(** ** [CBasicKeyStore] *)

Definition Basic_AddKey (key : CKey) (s : store) : bool * store :=
  (true, with_mapKeys (<[KeyID (GetPubKey_of key) := (k_secret key, k_compressed key)]>) s).
Definition Basic_AddMalleableKey (keyView : CMalleableKeyView) (vchSecretH : bytes) (s : store) : bool * store :=
  (true, with_mapMalleableKeys (view_insert keyView vchSecretH) s).
Definition Basic_GetMalleableKey (keyView : CMalleableKeyView) (s : store) : option (bytes * bytes) :=
  '(v, secretH) ← mapMalleableKeys s !! KeyID (v_pubH keyView); Some (v_secretL v, secretH).
Definition Basic_HaveKey (address : bytes) (s : store) : bool := bool_decide (is_Some (mapKeys s !! address)).
Definition Basic_GetKeys (s : store) : gset bytes := dom (mapKeys s).
(** The outer [option] is the exception of [SetSecret]. *)
Definition Basic_GetKey (address : bytes) (s : store) : option (option CKey) :=
  match mapKeys s !! address with
  | Some (secret, fCompressed) => k ← SetSecret secret fCompressed; Some (Some k)
  | None => Some None
  end.
Definition AddCScript (redeemScript : bytes) (s : store) : bool * store :=
  if zlen redeemScript >? MAX_SCRIPT_ELEMENT_SIZE then (false, s)
  else (true, with_mapScripts (<[Crypto.Hash160 redeemScript := redeemScript]>) s).
Definition HaveCScript (hash : bytes) (s : store) : bool := bool_decide (is_Some (mapScripts s !! hash)).
Definition GetCScript (hash : bytes) (s : store) : option bytes := mapScripts s !! hash.
Definition RemoveWatchOnly (dest : bytes) (s : store) : bool * store :=
  (true, with_setWatchOnly (.∖ {[dest]}) s).
Definition HaveWatchOnly (dest : bytes) (s : store) : bool := bool_decide (dest ∈ setWatchOnly s).
Definition HaveWatchOnly_any (s : store) : bool := negb (bool_decide (setWatchOnly s = ∅)).

(** The first view that owns the pair, with its value. *)
Fixpoint find_variant {B} (l : list (bytes * (CMalleableKeyView * B))) (pubKeyVariant R : bytes) :
    option (CMalleableKeyView * B) :=
  match l with
  | [] => None
  | (_, (v, x)) :: l => if CheckKeyVariant v R pubKeyVariant then Some (v, x) else find_variant l pubKeyVariant R
  end.

Definition Basic_CheckOwnership (pubKeyVariant R : bytes) (s : store) : option CMalleableKeyView :=
  fst <$> find_variant (map_to_list (mapMalleableKeys s)) pubKeyVariant R.
Definition Basic_CreatePrivKey (pubKeyVariant R : bytes) (s : store) : option CKey :=
  '(v, secretH) ← find_variant (map_to_list (mapMalleableKeys s)) pubKeyVariant R;
  PrivVariant (v_secretL v, secretH) R pubKeyVariant.
Definition Basic_ListMalleableViews (s : store) : list CMalleableKeyView :=
  (fun p => p.2.1) <$> map_to_list (mapMalleableKeys s).
Definition Basic_GetMalleableView (mpkID : bytes) (s : store) : option CMalleableKeyView :=
  List.find (fun v => bool_decide (ViewID v = mpkID)) (Basic_ListMalleableViews s).

(** ** [CCryptoKeyStore] *)

Definition IsCrypted (s : store) : bool := fUseCrypto s.
Definition IsLocked (s : store) : bool := if negb (IsCrypted s) then false else bool_decide (vMasterKey s = []).

Definition SetCrypted (s : store) : bool * store :=
  if fUseCrypto s then (true, s)
  else if negb (bool_decide (mapKeys s = ∅)) then (false, s)
  else (true, with_fUseCrypto true s).

Definition Lock (s : store) : bool * store :=
  let '(ok, s) := SetCrypted s in
  if negb ok then (false, s) else (true, with_mintOnly false (with_vMasterKey [] s)).

Definition HaveKey (address : bytes) (s : store) : bool :=
  if negb (IsCrypted s) then Basic_HaveKey address s
  else bool_decide (is_Some (mapCryptedKeys s !! address)).
Definition GetKeys (s : store) : gset bytes :=
  if negb (IsCrypted s) then Basic_GetKeys s else dom (mapCryptedKeys s).

(** What the code does with an encrypted secret of a public key before it uses it: [Some None] is
    [return false]. *)
Definition decrypt_key (master : bytes) (vchPubKey vchCryptedSecret : bytes) : option CKey :=
  vchSecret ← DecryptSecret master vchCryptedSecret (GetHash vchPubKey);
  if negb (zlen vchSecret =? 32) then None else Some (Key vchSecret (CPubKey.IsCompressed vchPubKey)).

Definition GetKey (address : bytes) (s : store) : option (option CKey) :=
  if negb (IsCrypted s) then Basic_GetKey address s
  else Some ('(vchPubKey, ct) ← mapCryptedKeys s !! address; decrypt_key (vMasterKey s) vchPubKey ct).

(** [CKeyStore::GetPubKey] asks the virtual [GetKey]. *)
Definition GetPubKey (address : bytes) (s : store) : option (option bytes) :=
  if negb (IsCrypted s) then (fun k : option CKey => GetPubKey_of <$> k) <$> GetKey address s
  else Some (fst <$> mapCryptedKeys s !! address).

(** [CKeyStore::GetSecret] *)
Definition GetSecret (address : bytes) (s : store) : option (option (bytes * bool)) :=
  (fun k : option CKey => (fun k => (k_secret k, k_compressed k)) <$> k) <$> GetKey address s.

Definition AddCryptedKey (vchPubKey vchCryptedSecret : bytes) (s : store) : bool * store :=
  let '(ok, s) := SetCrypted s in
  if negb ok then (false, s)
  else (true, with_mapCryptedKeys (<[KeyID vchPubKey := (vchPubKey, vchCryptedSecret)]>) s).

Definition AddCryptedMalleableKey (keyView : CMalleableKeyView) (vchCryptedSecretH : bytes) (s : store) : bool * store :=
  let '(ok, s) := SetCrypted s in
  if negb ok then (false, s)
  else (true, with_mapCryptedMalleableKeys (view_insert keyView vchCryptedSecretH) s).

(** [CBasicKeyStore::AddWatchOnly]; the key it looks for is the null identifier when the
    destination is not a key. *)
Definition AddWatchOnly (dest : bytes) (s : store) : bool * store :=
  let refused :=
    match ExtractDestination dest with
    | Some (CKeyID h) => HaveKey h s
    | Some _ => HaveKey (replicate 20 0) s
    | None => false
    end in
  if refused then (false, s) else (true, with_setWatchOnly ({[dest]} ∪.) s).

Definition AddKey (key : CKey) (s : store) : bool * store :=
  let pk := GetPubKey_of key in
  let script := default [] (SetDestination (CKeyID (KeyID pk))) in
  if HaveWatchOnly script s then (false, s)
  else if negb (IsCrypted s) then Basic_AddKey key s
  else if IsLocked s then (false, s)
  else match EncryptSecret (vMasterKey s) (k_secret key) (GetHash pk) with
       | None => (false, s)
       | Some ct => AddCryptedKey pk ct s
       end.

Definition AddMalleableKey (keyView : CMalleableKeyView) (vchSecretH : bytes) (s : store) : option (bool * store) :=
  let '(ok, s) := SetCrypted s in
  if negb ok then Some (Basic_AddMalleableKey keyView vchSecretH s)
  else if IsLocked s then Some (false, s)
  else
    keyH ← SetSecret vchSecretH true;
    Some (match EncryptSecret (vMasterKey s) vchSecretH (GetHash (GetPubKey_of keyH)) with
          | None => (false, s)
          | Some ct => AddCryptedMalleableKey keyView ct s
          end).

(** The malleable secret H behind an encrypted entry *)
Definition decrypt_malleable (master : bytes) (H ct : bytes) : option bytes :=
  vchSecretH ← DecryptSecret master ct (GetHash H);
  if negb (zlen vchSecretH =? 32) then None else Some vchSecretH.

Definition GetMalleableKey (keyView : CMalleableKeyView) (s : store) : option (bytes * bytes) :=
  if negb (IsCrypted s) then Basic_GetMalleableKey keyView s
  else
    '(v, ct) ← mapCryptedMalleableKeys s !! KeyID (v_pubH keyView);
    vchSecretH ← decrypt_malleable (vMasterKey s) (v_pubH keyView) ct;
    Some (v_secretL v, vchSecretH).

Definition CheckOwnership (pubKeyVariant R : bytes) (s : store) : option CMalleableKeyView :=
  if negb (IsCrypted s) then Basic_CheckOwnership pubKeyVariant R s
  else fst <$> find_variant (map_to_list (mapCryptedMalleableKeys s)) pubKeyVariant R.

(** The result and the key it sets, [None] when the argument is left as it was. *)
Definition CreatePrivKey (pubKeyVariant R : bytes) (s : store) : bool * option CKey :=
  if negb (IsCrypted s) then
    match Basic_CreatePrivKey pubKeyVariant R s with Some k => (true, Some k) | None => (false, None) end
  else match find_variant (map_to_list (mapCryptedMalleableKeys s)) pubKeyVariant R with
       | Some (v, ct) =>
           match decrypt_malleable (vMasterKey s) (v_pubH v) ct with
           | None => (false, None)
           | Some secretH =>
               match PrivVariant (v_secretL v, secretH) R pubKeyVariant with
               | Some k => (true, Some k)
               | None => (false, None)
               end
           end
       | None => (true, None)
       end.

Definition ListMalleableViews (s : store) : list CMalleableKeyView :=
  if negb (IsCrypted s) then Basic_ListMalleableViews s
  else (fun p => p.2.1) <$> map_to_list (mapCryptedMalleableKeys s).
Definition GetMalleableView (mpkID : bytes) (s : store) : option CMalleableKeyView :=
  List.find (fun v => bool_decide (ViewID v = mpkID)) (ListMalleableViews s).

(** [Unlock]: only the first encrypted key is tried. *)
Definition Unlock (vMasterKeyIn : bytes) (s : store) : bool * store :=
  let '(ok, s) := SetCrypted s in
  if negb ok then (false, s)
  else match map_to_list (mapCryptedKeys s) with
       | [] => (true, with_vMasterKey vMasterKeyIn s)
       | (_, (vchPubKey, ct)) :: _ =>
           match decrypt_key vMasterKeyIn vchPubKey ct with
           | None => (false, s)
           | Some key =>
               if bool_decide (GetPubKey_of key = vchPubKey) then (true, with_vMasterKey vMasterKeyIn s) else (false, s)
           end
       end.

Fixpoint encrypt_keys (master : bytes) (l : list (bytes * (bytes * bool))) (s : store) : option (bool * store) :=
  match l with
  | [] => Some (true, s)
  | (_, (secret, fCompressed)) :: l =>
      key ← SetSecret secret fCompressed;
      let vchPubKey := GetPubKey_of key in
      match EncryptSecret master (k_secret key) (GetHash vchPubKey) with
      | None => Some (false, s)
      | Some ct =>
          let '(ok, s) := AddCryptedKey vchPubKey ct s in
          if negb ok then Some (false, s) else encrypt_keys master l s
      end
  end.

Fixpoint encrypt_malleable (master : bytes) (l : list (bytes * (CMalleableKeyView * bytes))) (s : store) : bool * store :=
  match l with
  | [] => (true, s)
  | (_, (v, secretH)) :: l =>
      match EncryptSecret master secretH (GetHash (v_pubH v)) with
      | None => (false, s)
      | Some ct =>
          let '(ok, s) := AddCryptedMalleableKey v ct s in
          if negb ok then (false, s) else encrypt_malleable master l s
      end
  end.

Definition EncryptKeys (vMasterKeyIn : bytes) (s : store) : option (bool * store) :=
  if negb (bool_decide (mapCryptedKeys s = ∅)) || IsCrypted s then Some (false, s)
  else
    '(ok, s) ← encrypt_keys vMasterKeyIn (map_to_list (mapKeys s)) (with_fUseCrypto true s);
    if negb ok then Some (false, s)
    else
      let s := with_mapKeys (fun _ => ∅) s in
      let '(ok, s) := encrypt_malleable vMasterKeyIn (map_to_list (mapMalleableKeys s)) s in
      if negb ok then Some (false, s) else Some (true, with_mapMalleableKeys (fun _ => ∅) s).

Fixpoint decrypt_keys (master : bytes) (l : list (bytes * (bytes * bytes))) (s : store) : bool * store :=
  match l with
  | [] => (true, s)
  | (_, (vchPubKey, ct)) :: l =>
      match decrypt_key master vchPubKey ct with
      | None => (false, s)
      | Some key => let '(_, s) := Basic_AddKey key s in decrypt_keys master l s
      end
  end.

Fixpoint decrypt_malleables (master : bytes) (l : list (bytes * (CMalleableKeyView * bytes))) (s : store) : bool * store :=
  match l with
  | [] => (true, s)
  | (_, (v, ct)) :: l =>
      match decrypt_malleable master (v_pubH v) ct with
      | None => (false, s)
      | Some secretH => let '(_, s) := Basic_AddMalleableKey v secretH s in decrypt_malleables master l s
      end
  end.

Definition DecryptKeys (vMasterKeyIn : bytes) (s : store) : bool * store :=
  if negb (IsCrypted s) then (false, s)
  else
    let '(ok, s) := decrypt_keys vMasterKeyIn (map_to_list (mapCryptedKeys s)) s in
    if negb ok then (false, s)
    else
      let s := with_mapCryptedKeys (fun _ => ∅) s in
      let '(ok, s) := decrypt_malleables vMasterKeyIn (map_to_list (mapCryptedMalleableKeys s)) s in
      if negb ok then (false, s) else (true, with_mapCryptedMalleableKeys (fun _ => ∅) s).
End store.

End Keystore.
