(* ===== verification/KeystoreProps.v ===== *)
(** * KeystoreProps: invariant, encryption and locking of the key store

    The two sentences the header states about the flag [fUseCrypto] hold in every reachable state;
    encrypting a wallet and unlocking it with the same master key gives every key back; and
    decrypting it leaves the flag set, so that no key is found afterwards. The store is an instance
    of the interface [KeyStore] of the signing code, with its laws. *)
From S2P Require Import Prelude Script Crypto Keys Transaction Solver Keystore.
Import Script_const Keystore.

Module KeystoreProps.

Section props.
Variable Pub : bytes -> bool -> bytes.
Variables aes_encrypt aes_decrypt : bytes -> bytes -> bytes -> option bytes.
Variable CheckKeyVariant : CMalleableKeyView -> bytes -> bytes -> bool.
Variable PrivVariant : bytes * bytes -> bytes -> bytes -> option CKey.

(** ** The invariant *)

(** The two sentences of the header, and the shape of the entries. *)
Record inv (s : store) : Prop := {
  inv_crypted : fUseCrypto s = true -> mapKeys s = ∅;
  inv_plain : fUseCrypto s = false -> vMasterKey s = [] /\ mapCryptedKeys s = ∅;
  inv_keys : map_Forall (fun id k => zlen k.1 = 32 /\ id = KeyID (Pub k.1 k.2)) (mapKeys s);
  inv_crypted_keys : map_Forall (fun id e => id = KeyID e.1) (mapCryptedKeys s);
  inv_scripts : map_Forall (fun h sc => h = Crypto.Hash160 sc /\ zlen sc <= MAX_SCRIPT_ELEMENT_SIZE) (mapScripts s) }.

(** One call that changes the store. Only a successful [EncryptKeys] counts: the wallet exits
    otherwise. [DecryptKeys] is left out. *)
Inductive step (s : store) : store -> Prop :=
  | step_AddKey k b s' : zlen (k_secret k) = 32 -> AddKey Pub aes_encrypt k s = (b, s') -> step s s'
  | step_AddMalleableKey v x b s' : AddMalleableKey Pub aes_encrypt v x s = Some (b, s') -> step s s'
  | step_AddCScript sc b s' : AddCScript sc s = (b, s') -> step s s'
  | step_AddWatchOnly d b s' : AddWatchOnly d s = (b, s') -> step s s'
  | step_RemoveWatchOnly d b s' : RemoveWatchOnly d s = (b, s') -> step s s'
  | step_AddCryptedKey pk ct b s' : AddCryptedKey pk ct s = (b, s') -> step s s'
  | step_AddCryptedMalleableKey v ct b s' : AddCryptedMalleableKey v ct s = (b, s') -> step s s'
  | step_Lock b s' : Lock s = (b, s') -> step s s'
  | step_Unlock mk b s' : Unlock Pub aes_decrypt mk s = (b, s') -> step s s'
  | step_EncryptKeys mk s' : EncryptKeys Pub aes_encrypt mk s = Some (true, s') -> step s s'.

Inductive reachable : store -> Prop :=
  | reach_new : reachable CCryptoKeyStore_new
  | reach_step s s' : reachable s -> step s s' -> reachable s'.

Lemma inv_new : inv CCryptoKeyStore_new.
Proof. split; cbn; done. Qed.

Lemma SetCrypted_inv s b s' : inv s -> SetCrypted s = (b, s') -> inv s' /\ (b = true -> fUseCrypto s' = true).
Proof.
  intros Hi H. unfold SetCrypted in H. destruct (fUseCrypto s) eqn:E; [by injection H as <- <-|].
  case_bool_decide as Hk; cbn in H; injection H as <- <-; [|done]. destruct Hi.
  split; [|done]. split; cbn; try done.
Qed.

(** Changes of the fields the invariant leaves free. *)
Lemma inv_watch f s : inv s -> inv (with_setWatchOnly f s).
Proof. by intros []; split. Qed.
Lemma inv_malleable f s : inv s -> inv (with_mapMalleableKeys f s).
Proof. by intros []; split. Qed.
Lemma inv_crypted_malleable f s : inv s -> inv (with_mapCryptedMalleableKeys f s).
Proof. by intros []; split. Qed.
Lemma inv_mint b s : inv s -> inv (with_mintOnly b s).
Proof. by intros []; split. Qed.
Lemma inv_master m s : inv s -> fUseCrypto s = true -> inv (with_vMasterKey m s).
Proof. intros [] E. split; cbn; try done. congruence. Qed.

Lemma AddCryptedKey_inv pk ct s b s' : inv s -> AddCryptedKey pk ct s = (b, s') -> inv s'.
Proof.
  unfold AddCryptedKey. destruct (SetCrypted s) as [ok s1] eqn:E. intros Hi H.
  apply SetCrypted_inv in E as [[] Hc]; [|done]. destruct ok; cbn in H; injection H as <- <-; [|by split].
  split; cbn; try done; [rewrite Hc by done; done|]. apply map_Forall_insert_2; done.
Qed.

Lemma AddCryptedMalleableKey_inv v ct s b s' : inv s -> AddCryptedMalleableKey v ct s = (b, s') -> inv s'.
Proof.
  unfold AddCryptedMalleableKey. destruct (SetCrypted s) as [ok s1] eqn:E. intros Hi H.
  apply SetCrypted_inv in E as [Hi' _]; [|done]. destruct ok; cbn in H; injection H as <- <-; [|done].
  by apply inv_crypted_malleable.
Qed.

Lemma AddKey_inv k s b s' : inv s -> zlen (k_secret k) = 32 -> AddKey Pub aes_encrypt k s = (b, s') -> inv s'.
Proof.
  intros Hi Hk H. unfold AddKey in H. destruct (HaveWatchOnly _ _); [by injection H as _ <-|].
  unfold IsCrypted in H. destruct (fUseCrypto s) eqn:E; cbn [negb] in H.
  - destruct (IsLocked s); [by injection H as _ <-|].
    destruct (EncryptSecret _ _ _ _); [by eapply AddCryptedKey_inv|by injection H as _ <-].
  - injection H as _ <-. destruct Hi. split; cbn; try done; [congruence|].
    apply map_Forall_insert_2; done.
Qed.

Lemma AddMalleableKey_inv v x s b s' : inv s -> AddMalleableKey Pub aes_encrypt v x s = Some (b, s') -> inv s'.
Proof.
  intros Hi H. unfold AddMalleableKey in H. destruct (SetCrypted s) as [ok s1] eqn:E.
  apply SetCrypted_inv in E as [Hi1 _]; [|done]. destruct ok; cbn [negb] in H.
  - destruct (IsLocked s1); [by injection H as _ <-|]. apply bind_Some in H as (kH & _ & H).
    destruct (EncryptSecret _ _ _ _); injection H as H; [by eapply AddCryptedMalleableKey_inv|by subst].
  - injection H as _ <-. by apply inv_malleable.
Qed.

Lemma Lock_inv s b s' : inv s -> Lock s = (b, s') -> inv s'.
Proof.
  intros Hi H. unfold Lock in H. destruct (SetCrypted s) as [ok s1] eqn:E.
  apply SetCrypted_inv in E as [Hi1 Hc]; [|done]. destruct ok; injection H as _ <-; [|done].
  apply inv_mint, inv_master; auto.
Qed.

Lemma Unlock_inv mk s b s' : inv s -> Unlock Pub aes_decrypt mk s = (b, s') -> inv s'.
Proof.
  intros Hi H. unfold Unlock in H. destruct (SetCrypted s) as [ok s1] eqn:E.
  apply SetCrypted_inv in E as [Hi1 Hc]; [|done]. destruct ok; cbn [negb] in H; [|by injection H as _ <-].
  repeat case_match; injection H as _ <-; try done; apply inv_master; auto.
Qed.

(** ** Encrypting every key *)

(** The encrypted entry of a key under a master key. *)
Definition encrypted (master : bytes) (secret : bytes) (c : bool) (e : bytes * bytes) : Prop :=
  e.1 = Pub secret c /\ EncryptSecret aes_encrypt master secret (GetHash e.1) = Some e.2.

(** The fields the loops leave alone. *)
Definition same_frame (s s' : store) : Prop :=
  mapKeys s' = mapKeys s /\ mapScripts s' = mapScripts s /\ setWatchOnly s' = setWatchOnly s
  /\ vMasterKey s' = vMasterKey s /\ fUseCrypto s' = fUseCrypto s.

Lemma AddCryptedKey_crypted pk ct s :
  fUseCrypto s = true ->
  AddCryptedKey pk ct s = (true, with_mapCryptedKeys (<[KeyID pk := (pk, ct)]>) s).
Proof. intros E. unfold AddCryptedKey, SetCrypted. by rewrite E. Qed.

Lemma AddCryptedMalleableKey_crypted v ct s :
  fUseCrypto s = true ->
  AddCryptedMalleableKey v ct s = (true, with_mapCryptedMalleableKeys (view_insert v ct) s).
Proof. intros E. unfold AddCryptedMalleableKey, SetCrypted. by rewrite E. Qed.

Lemma encrypt_keys_spec master l s s' :
  fUseCrypto s = true -> NoDup l.*1 -> Forall (fun e => e.1 = KeyID (Pub e.2.1 e.2.2)) l ->
  encrypt_keys Pub aes_encrypt master l s = Some (true, s') ->
  same_frame s s'
  /\ (forall id secret c, (id, (secret, c)) ∈ l -> exists e, mapCryptedKeys s' !! id = Some e /\ encrypted master secret c e)
  /\ (forall id, id ∉ l.*1 -> mapCryptedKeys s' !! id = mapCryptedKeys s !! id).
Proof.
  revert s. induction l as [|[id [secret c]] l IH]; intros s Hf Hnd Hall H.
  { injection H as <-. split_and!; [done| |done]. intros ? ? ? []%not_elem_of_nil. }
  cbn [fmap list_fmap fst] in Hnd. apply NoDup_cons in Hnd as [Hid Hnd]. apply Forall_cons_1 in Hall as [Hk Hall].
  cbn [fst snd] in Hk. cbn [encrypt_keys] in H. unfold SetSecret in H. destruct (zlen secret =? 32); [|done].
  cbn in H. destruct (EncryptSecret _ _ _ _) as [ct|] eqn:Ect; [|done].
  rewrite AddCryptedKey_crypted in H by done. cbn [negb] in H.
  apply IH in H as ((F1 & F2 & F3 & F4 & F5) & Hin & Hout); [|done|done|done]. unfold GetPubKey_of in *. cbn in *.
  rewrite <-Hk in *. split_and!; [done| |].
  - intros id' secret' c' [[= -> -> ->]|H]%elem_of_cons; [|by apply Hin].
    exists (Pub secret c, ct). rewrite Hout by done. cbn. rewrite lookup_insert_eq. done.
  - intros id' [Hne Hn]%not_elem_of_cons. rewrite Hout by done. cbn. by rewrite lookup_insert_ne.
Qed.

Lemma encrypt_malleable_frame master l s s' :
  fUseCrypto s = true -> encrypt_malleable aes_encrypt master l s = (true, s') ->
  same_frame s s' /\ mapCryptedKeys s' = mapCryptedKeys s.
Proof.
  revert s. induction l as [|[id [v x]] l IH]; intros s Hf H; [by injection H as <-|].
  cbn [encrypt_malleable] in H. destruct (EncryptSecret _ _ _ _); [|done].
  rewrite AddCryptedMalleableKey_crypted in H by done. by apply IH in H.
Qed.

(** What a successful [EncryptKeys] leaves. *)
Lemma EncryptKeys_spec master s s' :
  inv s -> EncryptKeys Pub aes_encrypt master s = Some (true, s') ->
  fUseCrypto s = false /\ fUseCrypto s' = true /\ mapKeys s' = ∅ /\ vMasterKey s' = []
  /\ mapScripts s' = mapScripts s
  /\ (forall id, match mapKeys s !! id with
                | Some (secret, c) => exists e, mapCryptedKeys s' !! id = Some e /\ encrypted master secret c e
                | None => mapCryptedKeys s' !! id = None
                end).
Proof.
  intros [_ Hplain Hkeys _ _] H. unfold EncryptKeys, IsCrypted in H. destruct (fUseCrypto s) eqn:Ef.
  { by rewrite orb_true_r in H. }
  destruct (Hplain eq_refl) as [Hm Hc]. rewrite bool_decide_true in H by done. cbn [negb orb] in H.
  apply bind_Some in H as ([ok s1] & H1 & H). destruct ok; cbn [negb] in H; [|done].
  apply encrypt_keys_spec in H1 as ((F1 & F2 & F3 & F4 & F5) & Hin & Hout); [|done|apply NoDup_fst_map_to_list|].
  2:{ apply Forall_forall. intros [id [secret c]] Hin%elem_of_map_to_list. by apply Hkeys in Hin as [_ ->]. }
  destruct (encrypt_malleable _ _ _ _) as [ok s2] eqn:E2. destruct ok; cbn [negb] in H; [|done]. injection H as <-.
  apply encrypt_malleable_frame in E2 as ((G1 & G2 & G3 & G4 & G5) & G6); [|by cbn; rewrite F5]. cbn in *.
  split_and!; [done|congruence|done|congruence|congruence|]. intros id. rewrite G6.
  destruct (mapKeys s !! id) as [[secret c]|] eqn:Eid.
  - apply Hin. by apply elem_of_map_to_list.
  - rewrite Hout; [by rewrite Hc|]. intros ([id' k] & -> & Hk%elem_of_map_to_list)%list_elem_of_fmap. cbn in Eid. by rewrite Eid in Hk.
Qed.

Lemma EncryptKeys_inv master s s' : inv s -> EncryptKeys Pub aes_encrypt master s = Some (true, s') -> inv s'.
Proof.
  intros Hi H. destruct (EncryptKeys_spec master s s' Hi H) as (_ & E1 & E2 & E3 & E4 & Hk). split.
  - done.
  - congruence.
  - by rewrite E2.
  - intros id e He. specialize (Hk id). destruct (mapKeys s !! id) as [[secret c]|] eqn:Eid.
    + destruct Hk as (e' & He' & Hpk & _). rewrite He in He'. injection He' as <-. rewrite Hpk.
      by apply (inv_keys s Hi) in Eid as [_ ?].
    + congruence.
  - rewrite E4. by destruct Hi.
Qed.

(** C36 (invariant): in every state reached from a new store by its public operations the header's two
    sentences hold - no plain key is kept once the store is encrypted, no master key (and no encrypted
    key) before - and every key and script is filed under its own hash. *)
Theorem keystore_invariant s : reachable s -> inv s.
Proof.
  induction 1 as [|s s' _ IH Hs]; [apply inv_new|].
  destruct Hs as [k b s' Hk H|v x b s' H|sc b s' H|d b s' H|d b s' H|pk ct b s' H|v ct b s' H|b s' H|mk b s' H|mk s' H].
  - by eapply AddKey_inv.
  - by eapply AddMalleableKey_inv.
  - unfold AddCScript in H. destruct (_ >? _) eqn:E; injection H as _ <-; [done|].
    destruct IH. split; cbn; try done. apply map_Forall_insert_2; [|done]. split; [done|].
    rewrite Z.gtb_ltb in E. by apply Z.ltb_ge in E.
  - unfold AddWatchOnly in H. cbv zeta in H.
    match type of H with (if ?b then _ else _) = _ => destruct b end; injection H as _ <-; [done|by apply inv_watch].
  - injection H as _ <-. by apply inv_watch.
  - by eapply AddCryptedKey_inv.
  - by eapply AddCryptedMalleableKey_inv.
  - by eapply Lock_inv.
  - by eapply Unlock_inv.
  - by eapply EncryptKeys_inv.
Qed.

(** ** Locking and unlocking *)

(** AES decrypts what it encrypted, and a public key has the form it was asked for. *)
Hypothesis aes_roundtrip : forall k iv p c, aes_encrypt k iv p = Some c -> aes_decrypt k iv c = Some p.
Hypothesis Pub_form : forall secret c, zlen secret = 32 -> CPubKey.IsCompressed (Pub secret c) = c.

Lemma decrypt_encrypted master secret c e :
  zlen secret = 32 -> encrypted master secret c e -> decrypt_key aes_decrypt master e.1 e.2 = Some (Key secret c).
Proof.
  intros Hs [Hpk He]. unfold decrypt_key, DecryptSecret. unfold EncryptSecret in He.
  destruct (negb _); [done|]. apply aes_roundtrip in He. rewrite He. cbn. rewrite Hs, Hpk, Pub_form by done. done.
Qed.

(** C37 (round trip): after a successful [EncryptKeys] the store is locked and gives out no key; it is
    unlocked by the master key it was encrypted with, and then every address has the key, secret,
    form and public key it had before. *)
Theorem encrypt_unlock_roundtrip master s s1 :
  inv s -> EncryptKeys Pub aes_encrypt master s = Some (true, s1) ->
  IsLocked s1 = true /\ (forall a, GetKey aes_decrypt a s1 = Some None)
  /\ exists s2, Unlock Pub aes_decrypt master s1 = (true, s2)
     /\ forall a, HaveKey a s2 = HaveKey a s /\ GetKey aes_decrypt a s2 = GetKey aes_decrypt a s
        /\ GetPubKey Pub aes_decrypt a s2 = GetPubKey Pub aes_decrypt a s.
Proof.
  intros Hi H. destruct (EncryptKeys_spec master s s1 Hi H) as (Ef & Ef1 & _ & Em1 & _ & Hk).
  split; [unfold IsLocked, IsCrypted; rewrite Ef1, Em1; done|]. split.
  { intros a. unfold GetKey, IsCrypted. rewrite Ef1. cbn [negb]. rewrite Em1.
    destruct (mapCryptedKeys s1 !! a) as [[pk ct]|]; done. }
  exists (with_vMasterKey master s1). split.
  - unfold Unlock, SetCrypted. rewrite Ef1. cbn [negb].
    destruct (map_to_list (mapCryptedKeys s1)) as [|[id [pk ct]] l] eqn:El; [done|].
    assert (mapCryptedKeys s1 !! id = Some (pk, ct)) as Hid.
    { apply elem_of_map_to_list. rewrite El. by apply elem_of_cons; left. }
    specialize (Hk id). destruct (mapKeys s !! id) as [[secret c]|] eqn:Eid; [|congruence].
    destruct Hk as (e & He & Henc). rewrite Hid in He. injection He as <-.
    apply (inv_keys s Hi) in Eid as [Hs _]. cbn [fst snd] in Hs.
    pose proof (decrypt_encrypted _ _ _ _ Hs Henc) as Hd. cbn [fst snd] in Hd. rewrite Hd.
    rewrite bool_decide_true; [done|]. by destruct Henc.
  - intros a. unfold HaveKey, GetKey, GetPubKey, IsCrypted. cbn [with_vMasterKey fUseCrypto mapCryptedKeys vMasterKey].
    rewrite Ef1, Ef. cbn [negb]. unfold GetKey, IsCrypted, Basic_HaveKey, Basic_GetKey. rewrite Ef. cbn [negb].
    specialize (Hk a). destruct (mapKeys s !! a) as [[secret c]|] eqn:Ea.
    + destruct Hk as ([pk ct] & -> & Henc). apply (inv_keys s Hi) in Ea as [Hs _]. cbn [fst snd] in Hs.
      pose proof (decrypt_encrypted _ _ _ _ Hs Henc) as Hd. cbn [fst snd] in Hd. destruct Henc as [Hpk _].
      cbn [base.mbind option_bind]. rewrite Hd. unfold SetSecret. rewrite Hs. cbn in Hpk |- *. subst pk. done.
    + rewrite Hk. done.
Qed.

(** ** Decrypting *)

(** The key of an encrypted entry *)
Definition entry_key (master : bytes) (e : bytes * (bytes * bytes)) : option CKey := decrypt_key aes_decrypt master e.2.1 e.2.2.
Definition filed (m : gmap bytes (bytes * bool)) (key : CKey) : Prop :=
  m !! KeyID (GetPubKey_of Pub key) = Some (k_secret key, k_compressed key).

Lemma decrypt_keys_spec master l s s' :
  decrypt_keys Pub aes_decrypt master l s = (true, s') ->
  fUseCrypto s' = fUseCrypto s
  /\ (forall e, e ∈ l -> exists key, entry_key master e = Some key)
  /\ (forall a, (exists e key, e ∈ l /\ entry_key master e = Some key /\ KeyID (GetPubKey_of Pub key) = a /\ filed (mapKeys s') key)
             \/ (forall e key, e ∈ l -> entry_key master e = Some key -> KeyID (GetPubKey_of Pub key) <> a)
                /\ mapKeys s' !! a = mapKeys s !! a).
Proof.
  revert s. induction l as [|[id [pk ct]] l IH]; intros s H; cbn [decrypt_keys] in H.
  { injection H as <-. split_and!; [done|by intros e ?%elem_of_nil|]. intros a. right. split; [|done]. by intros e key ?%elem_of_nil. }
  destruct (decrypt_key _ _ _ _) as [key|] eqn:Ek; [|done]. cbn in H. apply IH in H as (Hf & Hall & Hmap). split_and!; [done| |].
  - intros e [->|He]%elem_of_cons; [by exists key|by apply Hall].
  - intros a. destruct (Hmap a) as [(e & key' & He & Hk)|[Hne Ha]]; [left; exists e, key'; split; [by right|done]|].
    cbn in Ha. destruct (decide (KeyID (GetPubKey_of Pub key) = a)) as [<-|Hka].
    + left. exists (id, (pk, ct)), key. split_and!; [by left|done|done|]. unfold filed. by rewrite Ha, lookup_insert_eq.
    + right. rewrite Ha, lookup_insert_ne by done. split; [|done].
      intros e key' [->|He]%elem_of_cons; [|by apply Hne]. unfold entry_key. cbn. rewrite Ek. by intros [= <-].
Qed.

Lemma decrypt_malleables_frame master l s b s' :
  decrypt_malleables aes_decrypt master l s = (b, s') ->
  fUseCrypto s' = fUseCrypto s /\ mapCryptedKeys s' = mapCryptedKeys s /\ mapKeys s' = mapKeys s.
Proof.
  revert s. induction l as [|[id [v ct]] l IH]; intros s H; cbn [decrypt_malleables] in H; [by injection H as _ <-|].
  destruct (decrypt_malleable _ _ _ _); [|by injection H as _ <-]. cbn in H. by apply IH in H.
Qed.

(** C38 (error): [DecryptKeys] restores the plain keys where nobody finds them. When it succeeds, every encrypted key of
    the store was decrypted, and [mapKeys] holds, next to what it held before, the secret and the form of each of them under the hash of its
    public key (of one of them, should hashes collide); no encrypted key is left. But the store is still marked as encrypted, against the header, which wants
    [mapKeys] empty then: so [HaveKey], [GetKey] and [GetPubKey] look among the encrypted keys only and find no key at all. *)
Theorem DecryptKeys_hides_keys master s s' :
  DecryptKeys Pub aes_decrypt master s = (true, s') ->
  (forall e, e ∈ map_to_list (mapCryptedKeys s) -> exists key, entry_key master e = Some key)
  /\ (forall a, (exists e key, e ∈ map_to_list (mapCryptedKeys s) /\ entry_key master e = Some key
                  /\ KeyID (GetPubKey_of Pub key) = a /\ filed (mapKeys s') key)
             \/ (forall e key, e ∈ map_to_list (mapCryptedKeys s) -> entry_key master e = Some key -> KeyID (GetPubKey_of Pub key) <> a)
                /\ mapKeys s' !! a = mapKeys s !! a)
  /\ mapCryptedKeys s' = ∅ /\ IsCrypted s' = true
  /\ forall a, HaveKey a s' = false /\ GetKey aes_decrypt a s' = Some None /\ GetPubKey Pub aes_decrypt a s' = Some None.
Proof.
  unfold DecryptKeys, IsCrypted. destruct (fUseCrypto s) eqn:Ef; cbn [negb]; [|done].
  destruct (decrypt_keys _ _ _ _ _) as [ok s1] eqn:E1. destruct ok; cbn [negb]; [|done]. apply decrypt_keys_spec in E1 as (E1 & Hall & Hmap).
  destruct (decrypt_malleables _ _ _ _) as [ok s2] eqn:E2. apply decrypt_malleables_frame in E2 as (F2 & C2 & M2). cbn in F2, C2, M2.
  destruct ok; cbn [negb]; [|done]. intros [= <-]. cbn. rewrite F2, E1, Ef, M2. split_and!; [done..|].
  intros a. unfold HaveKey, GetKey, GetPubKey, IsCrypted. cbn. by rewrite F2, E1, Ef, C2, lookup_empty.
Qed.

(** A malleable key added to a store without plain keys is refused, and the store is from then on an
    encrypted one that can take no key until it is unlocked. *)
Lemma AddMalleableKey_encrypts v x s :
  fUseCrypto s = false -> mapKeys s = ∅ -> vMasterKey s = [] ->
  exists s', AddMalleableKey Pub aes_encrypt v x s = Some (false, s') /\ IsLocked s' = true
    /\ forall k, (AddKey Pub aes_encrypt k s').1 = false.
Proof.
  intros Hf Hk Hm. exists (with_fUseCrypto true s).
  assert (IsLocked (with_fUseCrypto true s) = true) as HL by by apply bool_decide_true.
  unfold AddMalleableKey, SetCrypted. rewrite Hf, bool_decide_true by done. cbn [negb]. rewrite HL.
  split; [done|]. split; [done|]. intros k. unfold AddKey. rewrite HL. by destruct (HaveWatchOnly _ _).
Qed.

(** Where the plain store fails, the encrypted one reports success and sets no key. *)
Lemma CreatePrivKey_unknown pubKeyVariant R s :
  mapCryptedMalleableKeys s = ∅ -> mapMalleableKeys s = ∅ ->
  CreatePrivKey aes_decrypt CheckKeyVariant PrivVariant pubKeyVariant R s = (IsCrypted s, None).
Proof.
  intros H1 H2. unfold CreatePrivKey, Basic_CreatePrivKey. rewrite H1, H2, map_to_list_empty.
  by destruct (IsCrypted s).
Qed.

(** ** The interface of the signing code *)

(** An exception of [GetKey] ends the caller, as a missing key would; a key that is not set cannot
    sign, as if it were missing. *)
#[global] Instance keystore_interface : KeyStore store CKey CMalleableKeyView := {
  Solver.HaveKey s a := HaveKey a s;
  Solver.GetKey s a := default None (GetKey aes_decrypt a s);
  Solver.GetPubKey s a := default None (GetPubKey Pub aes_decrypt a s);
  Solver.GetCScript s h := GetCScript h s;
  Solver.HaveWatchOnly s d := HaveWatchOnly d s;
  Solver.CheckOwnership s pk R := CheckOwnership CheckKeyVariant pk R s;
  Solver.CreatePrivKey s pk R := (CreatePrivKey aes_decrypt CheckKeyVariant PrivVariant pk R s).2 }.

End props.

(** ** Witnesses *)

Definition toy_pub (secret : bytes) (c : bool) : bytes := (if c then 2 else 4) :: secret.
Definition toy_aes (_ _ text : bytes) : option bytes := Some text.
Definition toy_key : CKey := Key (replicate 32 5) true.
Definition one_key : store := (AddKey toy_pub toy_aes toy_key CCryptoKeyStore_new).2.
Definition one_crypted : store := default one_key (snd <$> EncryptKeys toy_pub toy_aes (replicate 32 9) one_key).
Definition one_decrypted : store := (DecryptKeys toy_pub toy_aes (replicate 32 9) one_crypted).2.

Lemma one_key_reachable : reachable toy_pub toy_aes toy_aes one_key.
Proof.
  eapply reach_step; [apply reach_new|]. eapply (step_AddKey _ _ _ _ toy_key); [reflexivity|]. apply surjective_pairing.
Qed.

Lemma keystore_invariant_witness : mapKeys one_key <> ∅ /\ inv toy_pub one_key.
Proof.
  split; [apply insert_non_empty|]. apply (keystore_invariant toy_pub toy_aes toy_aes). exact one_key_reachable.
Defined.

Lemma encrypt_unlock_roundtrip_witness :
  IsLocked one_crypted = true /\ (forall a, GetKey toy_aes a one_crypted = Some None)
  /\ exists s2, Unlock toy_pub toy_aes (replicate 32 9) one_crypted = (true, s2)
     /\ forall a, HaveKey a s2 = HaveKey a one_key /\ GetKey toy_aes a s2 = GetKey toy_aes a one_key
        /\ GetPubKey toy_pub toy_aes a s2 = GetPubKey toy_pub toy_aes a one_key.
Proof.
  apply (encrypt_unlock_roundtrip toy_pub toy_aes toy_aes).
  - by intros k iv p c [= <-].
  - intros secret c Hs. by destruct c.
  - apply (AddKey_inv toy_pub toy_aes toy_key CCryptoKeyStore_new true); [apply inv_new|reflexivity|].
    unfold one_key. vm_compute. reflexivity.
  - vm_compute. reflexivity.
Defined.

Lemma DecryptKeys_hides_keys_witness :
  mapKeys one_crypted = ∅ /\ mapKeys one_decrypted = mapKeys one_key /\ size (mapKeys one_decrypted) = 1%nat
  /\ (exists a e key, entry_key toy_aes (replicate 32 9) e = Some key /\ KeyID (GetPubKey_of toy_pub key) = a
         /\ filed toy_pub (mapKeys one_decrypted) key)
  /\ IsCrypted one_decrypted = true
  /\ forall a, HaveKey a one_decrypted = false /\ GetKey toy_aes a one_decrypted = Some None
      /\ GetPubKey toy_pub toy_aes a one_decrypted = Some None.
Proof.
  split; [vm_compute; reflexivity|]. split; [vm_compute; reflexivity|]. split; [vm_compute; reflexivity|].
  destruct (DecryptKeys_hides_keys toy_pub toy_aes (replicate 32 9) one_crypted one_decrypted) as (_ & H1 & _ & H2); [vm_compute; reflexivity|].
  split; [|exact H2]. destruct (H1 (KeyID (GetPubKey_of toy_pub toy_key))) as [(e & key & _ & H)|[_ H]].
  - eexists _, e, key. exact H.
  - exfalso. assert (is_Some (mapKeys one_decrypted !! KeyID (GetPubKey_of toy_pub toy_key))) as Hs by (apply (bool_decide_unpack _); vm_compute; exact I).
    rewrite H in Hs. apply (bool_decide_pack _) in Hs. vm_compute in Hs. exact Hs.
Defined.

End KeystoreProps.
