(* ===== verification/Limbs.v ===== *)
(** Multi-limb arithmetic shared by the scalar and the field of key/pubkey.cpp:
    a number as a list of limbs, least significant first ([num]); the 64-bit
    carry chain `t += x; r = t & 0xFFFFFFFF; t >>= 32` ([chain]); and the
    96-bit accumulator (c0,c1,c2) of the macros `muladd`, `muladd2`, `sumadd`,
    `extract` and their `_fast` forms, each with its VERIFY_CHECKs, which are
    live asserts in this build (key/pubkey.h defines VERIFY): a failed assert
    is [None].

    The straight-line code that uses the macros is a list of [acc_op], run in
    order by [run].  [run_exact] is the one lemma about such code: when the
    accumulator stays within bounds for the largest operands ([safe], decided
    by computation), it stays within bounds for all smaller ones, no assert
    fails, and the extracted words spell the exact value [total]. *)
From S2P Require Import Prelude.

Local Open Scope Z_scope.

Notation "l .[ i ]" := (nth i l 0) (at level 1, left associativity, format "l .[ i ]") : Z_scope.

(** ** Numbers as limbs *)

Fixpoint num (w : Z) (l : list Z) : Z :=
  match l with
  | [] => 0
  | x :: l => x + 2 ^ w * num w l
  end.

Definition limb (w x : Z) : Prop := 0 <= x < 2 ^ w.
Definition limbs (w : Z) (l : list Z) : Prop := Forall (limb w) l.

Lemma pow_zlen_cons {A} w (x : A) l : 0 <= w -> 2 ^ (w * zlen (x :: l)) = 2 ^ w * 2 ^ (w * zlen l).
Proof.
  intros Hw. rewrite zlen_cons, <- Z.pow_add_r by (pose proof (zlen_nonneg l); nia).
  f_equal. ring.
Qed.

Lemma num_app w l k : 0 <= w -> num w (l ++ k) = num w l + 2 ^ (w * zlen l) * num w k.
Proof.
  intros Hw. induction l as [|x l IH]; cbn [app num].
  - rewrite (@zlen_nil Z), Z.mul_0_r. lia.
  - rewrite IH, pow_zlen_cons by done. ring.
Qed.

Lemma num_bound w l : 0 <= w -> limbs w l -> 0 <= num w l < 2 ^ (w * zlen l).
Proof.
  intros Hw Hl. induction Hl as [|x l [Hx0 Hx1] Hl IH]; cbn [num].
  - rewrite (@zlen_nil Z), Z.mul_0_r. lia.
  - rewrite pow_zlen_cons by done. nia.
Qed.

Lemma num_inj w l k : 0 <= w -> limbs w l -> limbs w k -> length l = length k -> num w l = num w k -> l = k.
Proof.
  intros Hw Hl. revert k. induction Hl as [|x l Hx Hl IH]; intros [|y k] Hk Hlen Hnum; try discriminate; [done|].
  apply Forall_cons in Hk as [Hy Hk]. unfold limb in Hx, Hy. cbn [num] in Hnum.
  assert (x = y) as ->.
  { rewrite <- (Z.mod_small x (2 ^ w)), <- (Z.mod_small y (2 ^ w)) by lia.
    rewrite <- (Z_mod_plus_full x (num w l) (2 ^ w)), <- (Z_mod_plus_full y (num w k) (2 ^ w)).
    f_equal. lia. }
  f_equal. apply IH; [done|by injection Hlen|nia].
Qed.

Lemma limbs_nth w l i : limbs w l -> (i < length l)%nat -> limb w l.[i].
Proof. intros Hl Hi. by apply Forall_nth. Qed.

(** The limbs of a number below 2^(w*n). *)
Fixpoint split (w : Z) (n : nat) (x : Z) : list Z :=
  match n with
  | O => []
  | S n => x mod 2 ^ w :: split w n (x / 2 ^ w)
  end.

Lemma split_length w n x : length (split w n x) = n.
Proof. revert x. induction n as [|n IH]; intros x; cbn; [done|by rewrite IH]. Qed.
Lemma split_limbs w n x : 0 <= w -> limbs w (split w n x).
Proof.
  intros Hw. revert x. induction n as [|n IH]; intros x; cbn [split]; constructor; [|apply IH].
  apply Z.mod_pos_bound. lia.
Qed.
Lemma num_split w n x : 0 <= w -> 0 <= x < 2 ^ (w * Z.of_nat n) -> num w (split w n x) = x.
Proof.
  intros Hw. revert x. induction n as [|n IH]; intros x Hx; cbn [split num].
  - rewrite Z.mul_0_r in Hx. lia.
  - assert (w * Z.of_nat (S n) = w + w * Z.of_nat n) as E by lia.
    rewrite E, Z.pow_add_r in Hx by lia.
    rewrite IH; [symmetry; rewrite Z.add_comm; apply Z.div_mod; lia|].
    split; [apply Z.div_pos; lia|apply Z.div_lt_upper_bound; lia].
Qed.

(** ** The 64-bit carry chain *)

(** `t += x_i; r[i] = t & 0xFFFFFFFF; t >>= 32;` for each x_i in turn, [t] a
    uint64_t.  Returns the words and the last [t]. *)
Fixpoint chain (t : Z) (xs : list Z) : list Z * Z :=
  match xs with
  | [] => ([], t)
  | x :: xs =>
      let t := u64 (t + x) in
      let '(r, t') := chain (Z.shiftr t 32) xs in
      (Z.land t 0xFFFFFFFF :: r, t')
  end.

Lemma chain_exact t xs :
  0 <= t < 2 ^ 32 -> Forall (fun x => 0 <= x < 2 ^ 63) xs ->
  exists r t', chain t xs = (r, t') /\ limbs 32 r /\ length r = length xs /\
    0 <= t' < 2 ^ 32 /\ num 32 r + 2 ^ (32 * zlen xs) * t' = t + num 32 xs.
Proof.
  intros Ht Hxs. revert t Ht. induction Hxs as [|x xs Hx Hxs IH]; intros t Ht; cbn [chain].
  - exists [], t. repeat split; [constructor|lia..|]. rewrite (@zlen_nil Z). cbn [num]. lia.
  - rewrite u64_small by lia.
    rewrite Z.shiftr_div_pow2 by lia.
    destruct (IH ((t + x) / 2 ^ 32)) as (r & t' & E & Hr & Hlen & Ht' & Hv).
    { split; [apply Z.div_pos; lia|apply Z.div_lt_upper_bound; lia]. }
    rewrite E. exists ((t + x) mod 2 ^ 32 :: r), t'.
    repeat split; [rewrite <- land_ones_mod by lia; reflexivity| |cbn; congruence|lia|lia|].
    + constructor; [|done]. apply Z.mod_pos_bound. lia.
    + rewrite pow_zlen_cons by lia. cbn [num].
      pose proof (Z.div_mod (t + x) (2 ^ 32) ltac:(lia)). nia.
Qed.

(** ** The 96-bit accumulator *)

Record acc := Acc { c0 : Z; c1 : Z; c2 : Z }.

Definition acc_val (s : acc) : Z := c0 s + 2 ^ 32 * c1 s + 2 ^ 64 * c2 s.
Definition acc_ok (s : acc) : Prop := limb 32 (c0 s) /\ limb 32 (c1 s) /\ limb 32 (c2 s).

(** A comparison used as a number, and VERIFY_CHECK. *)
Notation "⟦ b ⟧" := (Z.b2z b) : Z_scope.
Definition check {A} (b : bool) (k : option A) : option A := if b then k else None.

Definition muladd_fast (a b : Z) (s : acc) : option acc :=
  let t := u64 (a * b) in
  let th := Z.shiftr t 32 in
  let tl := u32 t in
  let c0' := u32 (c0 s + tl) in
  let th := u32 (th + ⟦c0' <? tl⟧) in
  let c1' := u32 (c1 s + th) in
  check (th <=? c1') (Some (Acc c0' c1' (c2 s))).

Definition muladd (a b : Z) (s : acc) : option acc :=
  let t := u64 (a * b) in
  let th := Z.shiftr t 32 in
  let tl := u32 t in
  let c0' := u32 (c0 s + tl) in
  let th := u32 (th + ⟦c0' <? tl⟧) in
  let c1' := u32 (c1 s + th) in
  let c2' := u32 (c2 s + ⟦c1' <? th⟧) in
  check ((th <=? c1') || negb (c2' =? 0)) (Some (Acc c0' c1' c2')).

Definition muladd2 (a b : Z) (s : acc) : option acc :=
  let t := u64 (a * b) in
  let th := Z.shiftr t 32 in
  let tl := u32 t in
  let th2 := u32 (th + th) in
  let c2' := u32 (c2 s + ⟦th2 <? th⟧) in
  check ((th <=? th2) || negb (c2' =? 0)) (
  let tl2 := u32 (tl + tl) in
  let th2 := u32 (th2 + ⟦tl2 <? tl⟧) in
  let c0' := u32 (c0 s + tl2) in
  let th2 := u32 (th2 + ⟦c0' <? tl2⟧) in
  let c2' := u32 (c2' + ⟦(c0' <? tl2) && (th2 =? 0)⟧) in
  check ((tl2 <=? c0') || negb (th2 =? 0) || negb (c2' =? 0)) (
  let c1' := u32 (c1 s + th2) in
  let c2' := u32 (c2' + ⟦c1' <? th2⟧) in
  check ((th2 <=? c1') || negb (c2' =? 0)) (Some (Acc c0' c1' c2')))).

Definition sumadd_fast (a : Z) (s : acc) : option acc :=
  let c0' := u32 (c0 s + a) in
  let c1' := u32 (c1 s + ⟦c0' <? a⟧) in
  check (negb (c1' =? 0) || (a <=? c0')) (check (c2 s =? 0) (Some (Acc c0' c1' (c2 s)))).

Definition sumadd (a : Z) (s : acc) : option acc :=
  let c0' := u32 (c0 s + a) in
  let over := ⟦c0' <? a⟧ in
  let c1' := u32 (c1 s + over) in
  let c2' := u32 (c2 s + ⟦c1' <? over⟧) in
  Some (Acc c0' c1' c2').

Definition extract_fast (s : acc) : option (Z * acc) :=
  check (c2 s =? 0) (Some (c0 s, Acc (c1 s) 0 (c2 s))).

Definition extract (s : acc) : option (Z * acc) := Some (c0 s, Acc (c1 s) (c2 s) 0).

(** *** What each macro adds, and the number it may not reach *)

(** u32 of a sum of two words: the sum, or the sum less 2^32 with the carry
    that a comparison with either summand reveals. *)
Lemma u32_sum x y :
  0 <= x < 2 ^ 32 -> 0 <= y < 2 ^ 32 ->
  (x + y < 2 ^ 32 /\ u32 (x + y) = x + y /\ (u32 (x + y) <? y) = false) \/
  (2 ^ 32 <= x + y /\ u32 (x + y) = x + y - 2 ^ 32 /\ (u32 (x + y) <? y) = true).
Proof.
  intros Hx Hy. destruct (Z.lt_ge_cases (x + y) (2 ^ 32)) as [H|H].
  - left. rewrite u32_small by lia. split; [done|split; [done|]]. apply Z.ltb_ge. lia.
  - right. assert (u32 (x + y) = x + y - 2 ^ 32) as ->.
    { unfold u32. symmetry. apply Z.mod_unique_pos with 1; lia. }
    split; [done|split; [done|]]. apply Z.ltb_lt. lia.
Qed.

Lemma product_words a b :
  0 <= a < 2 ^ 32 -> 0 <= b < 2 ^ 32 ->
  let t := u64 (a * b) in
  0 <= u32 t < 2 ^ 32 /\ 0 <= Z.shiftr t 32 <= 2 ^ 32 - 2 /\ u32 t + 2 ^ 32 * Z.shiftr t 32 = a * b.
Proof.
  intros Ha Hb. cbn zeta. rewrite u64_small by nia. rewrite Z.shiftr_div_pow2 by lia.
  pose proof (Z.div_mod (a * b) (2 ^ 32) ltac:(lia)) as D.
  pose proof (Z.mod_pos_bound (a * b) (2 ^ 32) ltac:(lia)) as M. unfold u32.
  assert (a * b <= (2 ^ 32 - 1) * (2 ^ 32 - 1)) by nia.
  split; [lia|]. split; [|lia]. split; [apply Z.div_pos; nia|].
  apply Z.lt_succ_r, Z.div_lt_upper_bound; lia.
Qed.

(** Resolves one u32 sum in the goal into its two cases. *)
Ltac sum_case x y :=
  let H := fresh "S" in let E := fresh "E" in let C := fresh "C" in
  destruct (u32_sum x y) as [(H & E & C)|(H & E & C)];
  [lia|lia|rewrite ?C, ?E; rewrite E in C|rewrite ?C, ?E; rewrite E in C]; cbn [Z.b2z].

Lemma muladd_fast_ok a b s :
  acc_ok s -> limb 32 a -> limb 32 b -> acc_val s + a * b < 2 ^ 64 ->
  exists s', muladd_fast a b s = Some s' /\ acc_ok s' /\ acc_val s' = acc_val s + a * b.
Proof.
  destruct s as [x0 x1 x2]. unfold acc_ok, acc_val, limb, muladd_fast. cbn [c0 c1 c2].
  intros (H0 & H1 & H2) Ha Hb Hv.
  destruct (product_words a b Ha Hb) as (Hl & Hh & Hp).
  set (tl := u32 (u64 (a * b))) in *. set (th := Z.shiftr (u64 (a * b)) 32) in *. cbn zeta.
  sum_case x0 tl.
  - rewrite (u32_small (th + 0)) by lia. sum_case x1 (th + 0); [|lia].
    rewrite (proj2 (Z.leb_le _ _)) by lia. eexists. split; [reflexivity|]. cbn [c0 c1 c2]. lia.
  - rewrite (u32_small (th + 1)) by lia. sum_case x1 (th + 1); [|lia].
    rewrite (proj2 (Z.leb_le _ _)) by lia. eexists. split; [reflexivity|]. cbn [c0 c1 c2]. lia.
Qed.

(** A VERIFY_CHECK that holds. *)
Lemma check_true {A} b (k : option A) : b = true -> check b k = k.
Proof. by intros ->. Qed.

Ltac check_lia :=
  rewrite check_true;
  [|repeat match goal with
      | |- context [?x <=? ?y] => destruct (Z.leb_spec x y)
      | |- context [?x =? ?y] => destruct (Z.eqb_spec x y)
      end; solve [reflexivity|lia|exfalso; lia]].

Lemma muladd_ok a b s :
  acc_ok s -> limb 32 a -> limb 32 b -> acc_val s + a * b < 2 ^ 96 ->
  exists s', muladd a b s = Some s' /\ acc_ok s' /\ acc_val s' = acc_val s + a * b.
Proof.
  destruct s as [x0 x1 x2]. unfold acc_ok, acc_val, limb, muladd. cbn [c0 c1 c2].
  intros (H0 & H1 & H2) Ha Hb Hv.
  destruct (product_words a b Ha Hb) as (Hl & Hh & Hp).
  set (tl := u32 (u64 (a * b))) in *. set (th := Z.shiftr (u64 (a * b)) 32) in *. cbn zeta.
  sum_case x0 tl.
  - rewrite (u32_small (th + 0)) by lia. sum_case x1 (th + 0); rewrite (u32_small (x2 + _)) by lia;
      check_lia; (eexists; split; [reflexivity|]); cbn [c0 c1 c2]; lia.
  - rewrite (u32_small (th + 1)) by lia. sum_case x1 (th + 1); rewrite (u32_small (x2 + _)) by lia;
      check_lia; (eexists; split; [reflexivity|]); cbn [c0 c1 c2]; lia.
Qed.

Lemma sumadd_fast_ok a s :
  acc_ok s -> limb 32 a -> acc_val s + a < 2 ^ 64 ->
  exists s', sumadd_fast a s = Some s' /\ acc_ok s' /\ acc_val s' = acc_val s + a.
Proof.
  destruct s as [x0 x1 x2]. unfold acc_ok, acc_val, limb, sumadd_fast. cbn [c0 c1 c2].
  intros (H0 & H1 & H2) Ha Hv. cbn zeta.
  sum_case x0 a; rewrite (u32_small (x1 + _)) by lia; check_lia; check_lia;
    (eexists; split; [reflexivity|]); cbn [c0 c1 c2]; lia.
Qed.

Lemma sumadd_ok a s :
  acc_ok s -> limb 32 a -> acc_val s + a < 2 ^ 96 ->
  exists s', sumadd a s = Some s' /\ acc_ok s' /\ acc_val s' = acc_val s + a.
Proof.
  destruct s as [x0 x1 x2]. unfold acc_ok, acc_val, limb, sumadd. cbn [c0 c1 c2].
  intros (H0 & H1 & H2) Ha Hv. cbn zeta.
  sum_case x0 a; (eexists; split; [reflexivity|]); cbn [c0 c1 c2].
  - sum_case x1 0; try lia. rewrite u32_small by lia. lia.
  - sum_case x1 1; rewrite u32_small by lia; lia.
Qed.

Lemma muladd2_ok a b s :
  acc_ok s -> limb 32 a -> limb 32 b -> acc_val s + 2 * (a * b) < 2 ^ 96 ->
  exists s', muladd2 a b s = Some s' /\ acc_ok s' /\ acc_val s' = acc_val s + 2 * (a * b).
Proof.
  destruct s as [x0 x1 x2]. unfold acc_ok, acc_val, limb, muladd2. cbn [c0 c1 c2].
  intros (H0 & H1 & H2) Ha Hb Hv.
  destruct (product_words a b Ha Hb) as (Hl & Hh & Hp).
  set (tl := u32 (u64 (a * b))) in *. set (th := Z.shiftr (u64 (a * b)) 32) in *. cbn zeta.
  clearbody tl th.
  (* the doubled high word, then the doubled low word, each with its carry out *)
  assert (exists k h2, (k = 0 \/ k = 1) /\ th + th = h2 + 2 ^ 32 * k /\ 0 <= h2 <= 2 ^ 32 - 2 /\
    u32 (th + th) = h2 /\ ⟦h2 <? th⟧ = k /\ (th <= h2 \/ k = 1)) as (k & h2 & Hk & Eh & Hh2 & -> & Ck & Ok).
  { sum_case th th; [exists 0, (th + th)|exists 1, (th + th - 2 ^ 32)]; rewrite ?C; cbn [Z.b2z]; lia. }
  assert (exists j l2, (j = 0 \/ j = 1) /\ tl + tl = l2 + 2 ^ 32 * j /\ 0 <= l2 < 2 ^ 32 /\
    u32 (tl + tl) = l2 /\ ⟦l2 <? tl⟧ = j) as (j & l2 & Hj & El & Hl2 & -> & Cj).
  { sum_case tl tl; [exists 0, (tl + tl)|exists 1, (tl + tl - 2 ^ 32)]; rewrite ?C; cbn [Z.b2z]; lia. }
  rewrite Ck, Cj. rewrite (u32_small (x2 + k)), (u32_small (h2 + j)) by lia.
  check_lia.
  sum_case x0 l2; cbn [andb Z.b2z].
  - rewrite (u32_small (h2 + j + 0)) by lia. rewrite (u32_small (x2 + k + 0)) by lia. check_lia.
    sum_case x1 (h2 + j + 0); rewrite (u32_small (x2 + k + 0 + _)) by lia; check_lia;
      (eexists; split; [reflexivity|]); cbn [c0 c1 c2]; lia.
  - sum_case (h2 + j) 1.
    + rewrite (proj2 (Z.eqb_neq _ _)) by lia. cbn [Z.b2z]. rewrite (u32_small (x2 + k + 0)) by lia. check_lia.
      sum_case x1 (h2 + j + 1); rewrite (u32_small (x2 + k + 0 + _)) by lia; check_lia;
        (eexists; split; [reflexivity|]); cbn [c0 c1 c2]; lia.
    + rewrite (proj2 (Z.eqb_eq _ _)) by lia. cbn [Z.b2z]. rewrite (u32_small (x2 + k + 1)) by lia. check_lia.
      replace (h2 + j + 1 - 2 ^ 32) with 0 by lia.
      sum_case x1 0; [|lia]. rewrite (u32_small (x2 + k + 1 + 0)) by lia. check_lia.
      eexists; split; [reflexivity|]; cbn [c0 c1 c2]; lia.
Qed.

(** A computation that succeeds, in the option monad.  [bind_step] rewrites
    with it instead of computing, so that the computation is never unfolded. *)
Lemma bind_some {A B} (x : option A) a (f : A -> option B) : x = Some a -> (x ≫= f) = f a.
Proof. by intros ->. Qed.

Ltac bind_step E := rewrite (bind_some _ _ _ E); cbn beta iota; clear E.

(** ** Straight-line accumulator code *)

Inductive acc_op :=
| MULADD_FAST (a b : Z)
| MULADD (a b : Z)
| MULADD2 (a b : Z)
| SUMADD_FAST (a : Z)
| SUMADD (a : Z)
| EXTRACT_FAST
| EXTRACT.

Definition acc_step (o : acc_op) (s : acc) : option (list Z * acc) :=
  match o with
  | MULADD_FAST a b => s ← muladd_fast a b s; Some ([], s)
  | MULADD a b => s ← muladd a b s; Some ([], s)
  | MULADD2 a b => s ← muladd2 a b s; Some ([], s)
  | SUMADD_FAST a => s ← sumadd_fast a s; Some ([], s)
  | SUMADD a => s ← sumadd a s; Some ([], s)
  | EXTRACT_FAST => '(n, s) ← extract_fast s; Some ([n], s)
  | EXTRACT => '(n, s) ← extract s; Some ([n], s)
  end.

(** Runs the code; the extracted words in order, and the accumulator left. *)
Fixpoint run (p : list acc_op) (s : acc) : option (list Z * acc) :=
  match p with
  | [] => Some ([], s)
  | o :: p =>
      '(out, s) ← acc_step o s;
      '(out', s) ← run p s;
      Some (out ++ out', s)
  end.

(** What one instruction adds; whether it moves to the next word. *)
Definition addend (o : acc_op) : Z :=
  match o with
  | MULADD_FAST a b | MULADD a b => a * b
  | MULADD2 a b => 2 * (a * b)
  | SUMADD_FAST a | SUMADD a => a
  | EXTRACT_FAST | EXTRACT => 0
  end.
Definition extracts (o : acc_op) : bool :=
  match o with EXTRACT_FAST | EXTRACT => true | _ => false end.
Definition fast (o : acc_op) : bool :=
  match o with MULADD_FAST _ _ | SUMADD_FAST _ | EXTRACT_FAST => true | _ => false end.
Definition operands (o : acc_op) : list Z :=
  match o with
  | MULADD_FAST a b | MULADD a b | MULADD2 a b => [a; b]
  | SUMADD_FAST a | SUMADD a => [a]
  | EXTRACT_FAST | EXTRACT => []
  end.

(** The number the code computes: every addend at the weight of its word. *)
Fixpoint total (p : list acc_op) : Z :=
  match p with
  | [] => 0
  | o :: p => if extracts o then 2 ^ 32 * total p else addend o + total p
  end.

Definition words (p : list acc_op) : nat := length (List.filter extracts p).

(** With an accumulator of at most [m], no addition of [p] reaches 2^96 (2^64
    for the `_fast` forms). *)
Fixpoint safe (m : Z) (p : list acc_op) : bool :=
  match p with
  | [] => true
  | o :: p =>
      (m + addend o <? (if fast o then 2 ^ 64 else 2 ^ 96)) &&
      safe (if extracts o then m / 2 ^ 32 else m + addend o) p
  end.

(** [o] is the instruction [o'] on operands that are no larger. *)
Inductive op_le : acc_op -> acc_op -> Prop :=
| le_muladd_fast a b a' b' : 0 <= a <= a' -> 0 <= b <= b' -> op_le (MULADD_FAST a b) (MULADD_FAST a' b')
| le_muladd a b a' b' : 0 <= a <= a' -> 0 <= b <= b' -> op_le (MULADD a b) (MULADD a' b')
| le_muladd2 a b a' b' : 0 <= a <= a' -> 0 <= b <= b' -> op_le (MULADD2 a b) (MULADD2 a' b')
| le_sumadd_fast a a' : 0 <= a <= a' -> op_le (SUMADD_FAST a) (SUMADD_FAST a')
| le_sumadd a a' : 0 <= a <= a' -> op_le (SUMADD a) (SUMADD a')
| le_extract_fast : op_le EXTRACT_FAST EXTRACT_FAST
| le_extract : op_le EXTRACT EXTRACT.

Lemma op_le_addend o o' : op_le o o' -> 0 <= addend o <= addend o'.
Proof. destruct 1; cbn [addend]; nia. Qed.
Lemma op_le_kind o o' : op_le o o' -> extracts o = extracts o' /\ fast o = fast o'.
Proof. by destruct 1. Qed.

Lemma acc_val_nonneg s : acc_ok s -> 0 <= acc_val s.
Proof. destruct s. unfold acc_ok, acc_val, limb. cbn [c0 c1 c2]. lia. Qed.

(** One instruction within its bound: it succeeds and adds its addend, or
    gives the low word and shifts the accumulator down. *)
Lemma acc_step_exact o s :
  acc_ok s -> limbs 32 (operands o) -> acc_val s + addend o < (if fast o then 2 ^ 64 else 2 ^ 96) ->
  exists out s', acc_step o s = Some (out, s') /\ acc_ok s' /\ limbs 32 out /\
    (if extracts o
     then exists n, out = [n] /\ acc_val s = n + 2 ^ 32 * acc_val s'
     else out = [] /\ acc_val s' = acc_val s + addend o).
Proof.
  intros Hs Ho Hv. destruct o as [a b|a b|a b|a|a| |]; cbn [acc_step addend fast extracts operands] in *;
    unfold limbs in *; rewrite ?Forall_cons in Ho.
  - destruct (muladd_fast_ok a b s) as (s' & -> & ? & ?); [tauto..|]. exists [], s'. by repeat (split; [done||constructor|]).
  - destruct (muladd_ok a b s) as (s' & -> & ? & ?); [tauto..|]. exists [], s'. by repeat (split; [done||constructor|]).
  - destruct (muladd2_ok a b s) as (s' & -> & ? & ?); [tauto..|]. exists [], s'. by repeat (split; [done||constructor|]).
  - destruct (sumadd_fast_ok a s) as (s' & -> & ? & ?); [tauto..|]. exists [], s'. by repeat (split; [done||constructor|]).
  - destruct (sumadd_ok a s) as (s' & -> & ? & ?); [tauto..|]. exists [], s'. by repeat (split; [done||constructor|]).
  - destruct s as [x0 x1 x2]. unfold extract_fast, acc_ok, acc_val, limb in *. cbn [c0 c1 c2] in *.
    rewrite check_true by (apply Z.eqb_eq; lia). exists [x0], (Acc x1 0 x2). cbn [c0 c1 c2].
    split; [done|]. split; [lia|]. split; [constructor; [lia|constructor]|]. exists x0. split; [done|lia].
  - destruct s as [x0 x1 x2]. unfold acc_ok, acc_val, limb in *. cbn [c0 c1 c2] in *.
    exists [x0], (Acc x1 x2 0). cbn [c0 c1 c2].
    split; [done|]. split; [lia|]. split; [constructor; [lia|constructor]|]. exists x0. split; [done|lia].
Qed.

(** The lemma about accumulator code: [q] is the same code on the largest
    operands; when [q] is safe, [p] runs, and computes [total p]. *)
Lemma run_exact p q m s :
  Forall2 op_le p q -> Forall (fun o => limbs 32 (operands o)) p -> safe m q = true ->
  acc_ok s -> acc_val s <= m ->
  exists out s', run p s = Some (out, s') /\ limbs 32 out /\ length out = words p /\ acc_ok s' /\
    num 32 out + 2 ^ (32 * Z.of_nat (words p)) * acc_val s' = acc_val s + total p.
Proof.
  intros Hle. revert m s. induction Hle as [|o o' p q Ho Hle IH]; intros m s Hops Hsafe Hs Hm.
  - exists [], s. cbn. repeat (split; [done||constructor|]). rewrite Z.mul_0_r. lia.
  - apply Forall_cons in Hops as [Hop Hops]. cbn [safe] in Hsafe. apply andb_true_iff in Hsafe as [Hb Hsafe].
    apply Z.ltb_lt in Hb. destruct (op_le_kind _ _ Ho) as [Ek Ef]. rewrite <- Ef in Hb. rewrite <- Ek in Hsafe.
    pose proof (op_le_addend _ _ Ho) as Ha. pose proof (acc_val_nonneg s Hs) as Hs0.
    destruct (acc_step_exact o s Hs Hop ltac:(lia)) as (out & s1 & E & Hs1 & Hout & Hval).
    cbn [run total]. rewrite E. cbn [mbind option_bind]. unfold words. cbn [List.filter].
    destruct (extracts o).
    + destruct Hval as (n & -> & Hn).
      destruct (IH _ s1 Hops Hsafe Hs1) as (out' & s2 & E2 & Hout' & Hlen & Hs2 & Hv).
      { apply Z.div_le_lower_bound; [lia|]. apply Forall_cons in Hout as [[? ?] _]. lia. }
      rewrite E2. cbn [mbind option_bind]. exists ([n] ++ out'), s2. cbn [app length num].
      split; [done|]. split; [apply Forall_cons; by apply Forall_cons in Hout as [? _]|]. fold (words p). split; [by rewrite Hlen|]. split; [done|].
      rewrite Nat2Z.inj_succ, Z.mul_succ_r, Z.add_comm with (m := 32), Z.pow_add_r by lia. nia.
    + destruct Hval as (-> & Hn).
      destruct (IH _ s1 Hops Hsafe Hs1) as (out' & s2 & E2 & Hout' & Hlen & Hs2 & Hv); [lia|].
      rewrite E2. cbn [mbind option_bind app]. exists out', s2. fold (words p).
      split; [done|]. split; [done|]. split; [done|]. split; [done|]. lia.
Qed.
