(* ===== verification/Scalar.v ===== *)
(** Arithmetic of scalars modulo the group order n of secp256k1, in 8 words
    of 32 bits (key/pubkey.cpp, [secp256k1_scalar_*]): overflow check and
    reduction, big-endian input and output, comparison with n/2, negation,
    addition, multiplication and squaring through a 512-bit product, the
    inverse by an addition chain, bit extraction, the rounded shift of a
    product, and the two splits used by the multiplication of points.

    A scalar `secp256k1_unit` is the list of its words d[0..7], least
    significant first.  VERIFY_CHECK is a live assert in this build; a failed
    assert is [None]. *)
From S2P Require Import Prelude Limbs.

Local Open Scope Z_scope.

Definition SECP256K1_N : list Z :=
  [0xD0364141; 0xBFD25E8C; 0xAF48A03B; 0xBAAEDCE6; 0xFFFFFFFE; 0xFFFFFFFF; 0xFFFFFFFF; 0xFFFFFFFF].

(** ~x on a uint32_t. *)
Definition not32 (x : Z) : Z := 0xFFFFFFFF - x.

(** SECP256K1_N_C_0 .. SECP256K1_N_C_4: 2^256 - n. *)
Definition SECP256K1_N_C : list Z :=
  [u32 (not32 SECP256K1_N.[0] + 1); not32 SECP256K1_N.[1]; not32 SECP256K1_N.[2]; not32 SECP256K1_N.[3]; 1].

Definition secp256k1_unit := list Z.

(** The order of the group. *)
Definition order : Z := num 32 SECP256K1_N.

(** The int flags yes and no are 0 or 1 throughout: booleans. *)
Definition secp256k1_scalar_check_overflow (a : secp256k1_unit) : bool :=
  let no := a.[7] <? SECP256K1_N.[7] in
  let no := no || (a.[6] <? SECP256K1_N.[6]) in
  let no := no || (a.[5] <? SECP256K1_N.[5]) in
  let no := no || (a.[4] <? SECP256K1_N.[4]) in
  let yes := (SECP256K1_N.[4] <? a.[4]) && negb no in
  let no := no || ((a.[3] <? SECP256K1_N.[3]) && negb yes) in
  let yes := yes || ((SECP256K1_N.[3] <? a.[3]) && negb no) in
  let no := no || ((a.[2] <? SECP256K1_N.[2]) && negb yes) in
  let yes := yes || ((SECP256K1_N.[2] <? a.[2]) && negb no) in
  let no := no || ((a.[1] <? SECP256K1_N.[1]) && negb yes) in
  let yes := yes || ((SECP256K1_N.[1] <? a.[1]) && negb no) in
  yes || ((SECP256K1_N.[0] <=? a.[0]) && negb no).

Definition secp256k1_scalar_reduce (r : secp256k1_unit) (overflow : Z) : secp256k1_unit :=
  fst (chain 0 [r.[0] + u32 (overflow * SECP256K1_N_C.[0]);
                r.[1] + u32 (overflow * SECP256K1_N_C.[1]);
                r.[2] + u32 (overflow * SECP256K1_N_C.[2]);
                r.[3] + u32 (overflow * SECP256K1_N_C.[3]);
                r.[4] + u32 (overflow * SECP256K1_N_C.[4]);
                r.[5]; r.[6]; r.[7]]).

(** One word of b32[k..k+3], big-endian. *)
Definition be_word (b32 : list Z) (k : nat) : Z :=
  Z.lor (Z.lor (Z.lor b32.[k + 3] (Z.shiftl b32.[k + 2] 8)) (Z.shiftl b32.[k + 1] 16)) (Z.shiftl b32.[k] 24).

Definition secp256k1_scalar_set_be32 (b32 : list Z) : secp256k1_unit * bool :=
  let r := [be_word b32 28; be_word b32 24; be_word b32 20; be_word b32 16;
            be_word b32 12; be_word b32 8; be_word b32 4; be_word b32 0] in
  let over := secp256k1_scalar_check_overflow r in
  (secp256k1_scalar_reduce r ⟦over⟧, over).

Definition word_be (x : Z) : list Z :=
  [u8 (Z.shiftr x 24); u8 (Z.shiftr x 16); u8 (Z.shiftr x 8); u8 x].

Definition secp256k1_scalar_get_be32 (a : secp256k1_unit) : list Z :=
  word_be a.[7] ++ word_be a.[6] ++ word_be a.[5] ++ word_be a.[4] ++
  word_be a.[3] ++ word_be a.[2] ++ word_be a.[1] ++ word_be a.[0].

Definition secp256k1_scalar_is_high (a : secp256k1_unit) : bool :=
  let no := a.[7] <? 0x7FFFFFFF in
  let yes := (0x7FFFFFFF <? a.[7]) && negb no in
  let no := no || ((a.[6] <? 0xFFFFFFFF) && negb yes) in
  let no := no || ((a.[5] <? 0xFFFFFFFF) && negb yes) in
  let no := no || ((a.[4] <? 0xFFFFFFFF) && negb yes) in
  let no := no || ((a.[3] <? 0x5D576E73) && negb yes) in
  let yes := yes || ((0x5D576E73 <? a.[3]) && negb no) in
  let no := no || ((a.[2] <? 0x57A4501D) && negb yes) in
  let yes := yes || ((0x57A4501D <? a.[2]) && negb no) in
  let no := no || ((a.[1] <? 0xDFE92F46) && negb yes) in
  let yes := yes || ((0xDFE92F46 <? a.[1]) && negb no) in
  yes || ((0x681B20A0 <? a.[0]) && negb no).

Definition secp256k1_scalar_is_zero (a : secp256k1_unit) : bool :=
  Z.lor a.[0] (Z.lor a.[1] (Z.lor a.[2] (Z.lor a.[3] (Z.lor a.[4] (Z.lor a.[5] (Z.lor a.[6] a.[7])))))) =? 0.

Definition secp256k1_scalar_negate (a : secp256k1_unit) : secp256k1_unit :=
  let nonzero := 0xFFFFFFFF * ⟦negb (secp256k1_scalar_is_zero a)⟧ in
  (fun x => Z.land x nonzero) <$>
    fst (chain 0 [not32 a.[0] + SECP256K1_N.[0] + 1; not32 a.[1] + SECP256K1_N.[1];
                  not32 a.[2] + SECP256K1_N.[2]; not32 a.[3] + SECP256K1_N.[3];
                  not32 a.[4] + SECP256K1_N.[4]; not32 a.[5] + SECP256K1_N.[5];
                  not32 a.[6] + SECP256K1_N.[6]; not32 a.[7] + SECP256K1_N.[7]]).

(** The sum, reduced; the int result is the overflow. *)
Definition secp256k1_scalar_add (a b : secp256k1_unit) : option (secp256k1_unit * Z) :=
  let '(r, t) := chain 0 [a.[0] + b.[0]; a.[1] + b.[1]; a.[2] + b.[2]; a.[3] + b.[3];
                          a.[4] + b.[4]; a.[5] + b.[5]; a.[6] + b.[6]; a.[7] + b.[7]] in
  let overflow := t + ⟦secp256k1_scalar_check_overflow r⟧ in
  check ((overflow =? 0) || (overflow =? 1)) (Some (secp256k1_scalar_reduce r overflow, overflow)).

(** ** Products *)

(** l[0..14] of a[0..7] * b[0..7]. *)
Definition mul_512_code (a b : secp256k1_unit) : list acc_op :=
   [MULADD_FAST a.[0] b.[0]; EXTRACT_FAST;
    MULADD a.[0] b.[1]; MULADD a.[1] b.[0]; EXTRACT;
    MULADD a.[0] b.[2]; MULADD a.[1] b.[1]; MULADD a.[2] b.[0]; EXTRACT;
    MULADD a.[0] b.[3]; MULADD a.[1] b.[2]; MULADD a.[2] b.[1]; MULADD a.[3] b.[0]; EXTRACT;
    MULADD a.[0] b.[4]; MULADD a.[1] b.[3]; MULADD a.[2] b.[2]; MULADD a.[3] b.[1]; MULADD a.[4] b.[0]; EXTRACT;
    MULADD a.[0] b.[5]; MULADD a.[1] b.[4]; MULADD a.[2] b.[3]; MULADD a.[3] b.[2]; MULADD a.[4] b.[1]; MULADD a.[5] b.[0]; EXTRACT;
    MULADD a.[0] b.[6]; MULADD a.[1] b.[5]; MULADD a.[2] b.[4]; MULADD a.[3] b.[3]; MULADD a.[4] b.[2]; MULADD a.[5] b.[1]; MULADD a.[6] b.[0]; EXTRACT;
    MULADD a.[0] b.[7]; MULADD a.[1] b.[6]; MULADD a.[2] b.[5]; MULADD a.[3] b.[4]; MULADD a.[4] b.[3]; MULADD a.[5] b.[2]; MULADD a.[6] b.[1]; MULADD a.[7] b.[0]; EXTRACT;
    MULADD a.[1] b.[7]; MULADD a.[2] b.[6]; MULADD a.[3] b.[5]; MULADD a.[4] b.[4]; MULADD a.[5] b.[3]; MULADD a.[6] b.[2]; MULADD a.[7] b.[1]; EXTRACT;
    MULADD a.[2] b.[7]; MULADD a.[3] b.[6]; MULADD a.[4] b.[5]; MULADD a.[5] b.[4]; MULADD a.[6] b.[3]; MULADD a.[7] b.[2]; EXTRACT;
    MULADD a.[3] b.[7]; MULADD a.[4] b.[6]; MULADD a.[5] b.[5]; MULADD a.[6] b.[4]; MULADD a.[7] b.[3]; EXTRACT;
    MULADD a.[4] b.[7]; MULADD a.[5] b.[6]; MULADD a.[6] b.[5]; MULADD a.[7] b.[4]; EXTRACT;
    MULADD a.[5] b.[7]; MULADD a.[6] b.[6]; MULADD a.[7] b.[5]; EXTRACT;
    MULADD a.[6] b.[7]; MULADD a.[7] b.[6]; EXTRACT;
    MULADD_FAST a.[7] b.[7]; EXTRACT_FAST].

Definition secp256k1_scalar_mul_512 (a b : secp256k1_unit) : option (list Z) :=
  '(l, s) ← run (mul_512_code a b) (Acc 0 0 0);
  check (c1 s =? 0) (Some (l ++ [c0 s])).

(** l[0..14] of a[0..7]^2. *)
Definition sqr_512_code (a : secp256k1_unit) : list acc_op :=
   [MULADD_FAST a.[0] a.[0]; EXTRACT_FAST;
    MULADD2 a.[0] a.[1]; EXTRACT;
    MULADD2 a.[0] a.[2]; MULADD a.[1] a.[1]; EXTRACT;
    MULADD2 a.[0] a.[3]; MULADD2 a.[1] a.[2]; EXTRACT;
    MULADD2 a.[0] a.[4]; MULADD2 a.[1] a.[3]; MULADD a.[2] a.[2]; EXTRACT;
    MULADD2 a.[0] a.[5]; MULADD2 a.[1] a.[4]; MULADD2 a.[2] a.[3]; EXTRACT;
    MULADD2 a.[0] a.[6]; MULADD2 a.[1] a.[5]; MULADD2 a.[2] a.[4]; MULADD a.[3] a.[3]; EXTRACT;
    MULADD2 a.[0] a.[7]; MULADD2 a.[1] a.[6]; MULADD2 a.[2] a.[5]; MULADD2 a.[3] a.[4]; EXTRACT;
    MULADD2 a.[1] a.[7]; MULADD2 a.[2] a.[6]; MULADD2 a.[3] a.[5]; MULADD a.[4] a.[4]; EXTRACT;
    MULADD2 a.[2] a.[7]; MULADD2 a.[3] a.[6]; MULADD2 a.[4] a.[5]; EXTRACT;
    MULADD2 a.[3] a.[7]; MULADD2 a.[4] a.[6]; MULADD a.[5] a.[5]; EXTRACT;
    MULADD2 a.[4] a.[7]; MULADD2 a.[5] a.[6]; EXTRACT;
    MULADD2 a.[5] a.[7]; MULADD a.[6] a.[6]; EXTRACT;
    MULADD2 a.[6] a.[7]; EXTRACT;
    MULADD_FAST a.[7] a.[7]; EXTRACT_FAST].

Definition secp256k1_scalar_sqr_512 (a : secp256k1_unit) : option (list Z) :=
  '(l, s) ← run (sqr_512_code a) (Acc 0 0 0);
  check (c1 s =? 0) (Some (l ++ [c0 s])).

(** m[0..11] of l[0..7] + n[0..7] * SECP256K1_N_C, the accumulator starting
    at l[0]. *)
Definition reduce_512_code (l n : list Z) : list acc_op :=
   [MULADD_FAST n.[0] SECP256K1_N_C.[0]; EXTRACT_FAST;
    SUMADD_FAST l.[1]; MULADD n.[1] SECP256K1_N_C.[0]; MULADD n.[0] SECP256K1_N_C.[1]; EXTRACT;
    SUMADD l.[2]; MULADD n.[2] SECP256K1_N_C.[0]; MULADD n.[1] SECP256K1_N_C.[1]; MULADD n.[0] SECP256K1_N_C.[2]; EXTRACT;
    SUMADD l.[3]; MULADD n.[3] SECP256K1_N_C.[0]; MULADD n.[2] SECP256K1_N_C.[1]; MULADD n.[1] SECP256K1_N_C.[2]; MULADD n.[0] SECP256K1_N_C.[3]; EXTRACT;
    SUMADD l.[4]; MULADD n.[4] SECP256K1_N_C.[0]; MULADD n.[3] SECP256K1_N_C.[1]; MULADD n.[2] SECP256K1_N_C.[2]; MULADD n.[1] SECP256K1_N_C.[3]; SUMADD n.[0]; EXTRACT;
    SUMADD l.[5]; MULADD n.[5] SECP256K1_N_C.[0]; MULADD n.[4] SECP256K1_N_C.[1]; MULADD n.[3] SECP256K1_N_C.[2]; MULADD n.[2] SECP256K1_N_C.[3]; SUMADD n.[1]; EXTRACT;
    SUMADD l.[6]; MULADD n.[6] SECP256K1_N_C.[0]; MULADD n.[5] SECP256K1_N_C.[1]; MULADD n.[4] SECP256K1_N_C.[2]; MULADD n.[3] SECP256K1_N_C.[3]; SUMADD n.[2]; EXTRACT;
    SUMADD l.[7]; MULADD n.[7] SECP256K1_N_C.[0]; MULADD n.[6] SECP256K1_N_C.[1]; MULADD n.[5] SECP256K1_N_C.[2]; MULADD n.[4] SECP256K1_N_C.[3]; SUMADD n.[3]; EXTRACT;
    MULADD n.[7] SECP256K1_N_C.[1]; MULADD n.[6] SECP256K1_N_C.[2]; MULADD n.[5] SECP256K1_N_C.[3]; SUMADD n.[4]; EXTRACT;
    MULADD n.[7] SECP256K1_N_C.[2]; MULADD n.[6] SECP256K1_N_C.[3]; SUMADD n.[5]; EXTRACT;
    MULADD n.[7] SECP256K1_N_C.[3]; SUMADD n.[6]; EXTRACT;
    SUMADD_FAST n.[7]; EXTRACT_FAST].

(** p[0..7] of m[0..7] + m[8..12] * SECP256K1_N_C, starting at m[0]. *)
Definition reduce_385_code (m : list Z) : list acc_op :=
   [MULADD_FAST m.[8] SECP256K1_N_C.[0]; EXTRACT_FAST;
    SUMADD_FAST m.[1]; MULADD m.[9] SECP256K1_N_C.[0]; MULADD m.[8] SECP256K1_N_C.[1]; EXTRACT;
    SUMADD m.[2]; MULADD m.[10] SECP256K1_N_C.[0]; MULADD m.[9] SECP256K1_N_C.[1]; MULADD m.[8] SECP256K1_N_C.[2]; EXTRACT;
    SUMADD m.[3]; MULADD m.[11] SECP256K1_N_C.[0]; MULADD m.[10] SECP256K1_N_C.[1]; MULADD m.[9] SECP256K1_N_C.[2]; MULADD m.[8] SECP256K1_N_C.[3]; EXTRACT;
    SUMADD m.[4]; MULADD m.[12] SECP256K1_N_C.[0]; MULADD m.[11] SECP256K1_N_C.[1]; MULADD m.[10] SECP256K1_N_C.[2]; MULADD m.[9] SECP256K1_N_C.[3]; SUMADD m.[8]; EXTRACT;
    SUMADD m.[5]; MULADD m.[12] SECP256K1_N_C.[1]; MULADD m.[11] SECP256K1_N_C.[2]; MULADD m.[10] SECP256K1_N_C.[3]; SUMADD m.[9]; EXTRACT;
    SUMADD m.[6]; MULADD m.[12] SECP256K1_N_C.[2]; MULADD m.[11] SECP256K1_N_C.[3]; SUMADD m.[10]; EXTRACT;
    SUMADD_FAST m.[7]; MULADD_FAST m.[12] SECP256K1_N_C.[3]; SUMADD_FAST m.[11]; EXTRACT_FAST].

(** p[0..7] + p[8] * SECP256K1_N_C: 258 bits into 256. *)
Definition reduce_258 (p : list Z) (p8 : Z) : list Z * Z :=
  chain 0 [p.[0] + u64 (SECP256K1_N_C.[0] * p8); p.[1] + u64 (SECP256K1_N_C.[1] * p8);
           p.[2] + u64 (SECP256K1_N_C.[2] * p8); p.[3] + u64 (SECP256K1_N_C.[3] * p8);
           p.[4] + p8; p.[5]; p.[6]; p.[7]].

Definition secp256k1_scalar_reduce_512 (l : list Z) : option secp256k1_unit :=
  let n := [l.[8]; l.[9]; l.[10]; l.[11]; l.[12]; l.[13]; l.[14]; l.[15]] in
  (* Reduce 512 bits into 385. *)
  '(m, s) ← run (reduce_512_code l n) (Acc l.[0] 0 0);
  check (c0 s <=? 1) (
  let m := m ++ [c0 s] in
  (* Reduce 385 bits into 258. *)
  '(p, s) ← run (reduce_385_code m) (Acc m.[0] 0 0);
  let p8 := u32 (c0 s + m.[12]) in
  check (p8 <=? 2) (
  (* Reduce 258 bits into 256. *)
  let '(r, c) := reduce_258 p p8 in
  (* Final reduction of r. *)
  Some (secp256k1_scalar_reduce r (u32 (c + ⟦secp256k1_scalar_check_overflow r⟧))))).

Definition secp256k1_scalar_sqr (a : secp256k1_unit) : option secp256k1_unit :=
  l ← secp256k1_scalar_sqr_512 a; secp256k1_scalar_reduce_512 l.

Definition secp256k1_scalar_mul (a b : secp256k1_unit) : option secp256k1_unit :=
  l ← secp256k1_scalar_mul_512 a b; secp256k1_scalar_reduce_512 l.

(** `for (i = 0; i < n; i++) secp256k1_scalar_sqr(&t, &t);` *)
Fixpoint sqr_times (n : nat) (t : secp256k1_unit) : option secp256k1_unit :=
  match n with
  | O => Some t
  | S n => t ← secp256k1_scalar_sqr t; sqr_times n t
  end.

(** x^(n-2) by an addition chain: first xN as x^(2^N - 1) for some N and uM as
    x^M for some M, then the bits of n - 2 from the top. *)
Definition secp256k1_scalar_inverse (x : secp256k1_unit) : option secp256k1_unit :=
  u2 ← secp256k1_scalar_sqr x; x2 ← secp256k1_scalar_mul u2 x; u5 ← secp256k1_scalar_mul u2 x2;
  x3 ← secp256k1_scalar_mul u5 u2; u9 ← secp256k1_scalar_mul x3 u2; u11 ← secp256k1_scalar_mul u9 u2;
  u13 ← secp256k1_scalar_mul u11 u2; x6 ← secp256k1_scalar_sqr u13; x6 ← secp256k1_scalar_sqr x6;
  x6 ← secp256k1_scalar_mul x6 u11; x8 ← secp256k1_scalar_sqr x6; x8 ← secp256k1_scalar_sqr x8;
  x8 ← secp256k1_scalar_mul x8 x2; x14 ← secp256k1_scalar_sqr x8; x14 ← sqr_times 5 x14;
  x14 ← secp256k1_scalar_mul x14 x6; x28 ← secp256k1_scalar_sqr x14; x28 ← sqr_times 13 x28;
  x28 ← secp256k1_scalar_mul x28 x14; x56 ← secp256k1_scalar_sqr x28; x56 ← sqr_times 27 x56;
  x56 ← secp256k1_scalar_mul x56 x28; x112 ← secp256k1_scalar_sqr x56; x112 ← sqr_times 55 x112;
  x112 ← secp256k1_scalar_mul x112 x56; x126 ← secp256k1_scalar_sqr x112; x126 ← sqr_times 13 x126;
  x126 ← secp256k1_scalar_mul x126 x14; let t := x126 in t ← sqr_times 3 t; t ← secp256k1_scalar_mul t u5;
  t ← sqr_times 4 t; t ← secp256k1_scalar_mul t x3; t ← sqr_times 4 t; t ← secp256k1_scalar_mul t u5;
  t ← sqr_times 5 t; t ← secp256k1_scalar_mul t u11; t ← sqr_times 4 t; t ← secp256k1_scalar_mul t u11;
  t ← sqr_times 4 t; t ← secp256k1_scalar_mul t x3; t ← sqr_times 5 t; t ← secp256k1_scalar_mul t x3;
  t ← sqr_times 6 t; t ← secp256k1_scalar_mul t u13; t ← sqr_times 4 t; t ← secp256k1_scalar_mul t u5;
  t ← sqr_times 3 t; t ← secp256k1_scalar_mul t x3; t ← sqr_times 5 t; t ← secp256k1_scalar_mul t u9;
  t ← sqr_times 6 t; t ← secp256k1_scalar_mul t u5; t ← sqr_times 10 t; t ← secp256k1_scalar_mul t x3;
  t ← sqr_times 4 t; t ← secp256k1_scalar_mul t x3; t ← sqr_times 9 t; t ← secp256k1_scalar_mul t x8;
  t ← sqr_times 5 t; t ← secp256k1_scalar_mul t u9; t ← sqr_times 6 t; t ← secp256k1_scalar_mul t u11;
  t ← sqr_times 4 t; t ← secp256k1_scalar_mul t u13; t ← sqr_times 5 t; t ← secp256k1_scalar_mul t x2;
  t ← sqr_times 6 t; t ← secp256k1_scalar_mul t u13; t ← sqr_times 10 t; t ← secp256k1_scalar_mul t u13;
  t ← sqr_times 4 t; t ← secp256k1_scalar_mul t u9; t ← sqr_times 6 t; t ← secp256k1_scalar_mul t x;
  t ← sqr_times 8 t; secp256k1_scalar_mul t x6.

Definition secp256k1_scalar_inverse_var (x : secp256k1_unit) : option secp256k1_unit := secp256k1_scalar_inverse x.

Definition secp256k1_scalar_set_int (v : Z) : secp256k1_unit := [v; 0; 0; 0; 0; 0; 0; 0].

(** ** Bits and shifts *)

Definition secp256k1_scalar_get_bits (a : secp256k1_unit) (offset count : Z) : option Z :=
  check (Z.shiftr (offset + count - 1) 5 =? Z.shiftr offset 5)
    (Some (Z.land (Z.shiftr a.[Z.to_nat (Z.shiftr offset 5)] (Z.land offset 0x1F)) (Z.shiftl 1 count - 1))).

Definition secp256k1_scalar_get_bits_var (a : secp256k1_unit) (offset count : Z) : option Z :=
  check (count <? 32) (check (offset + count <=? 256) (
  if Z.shiftr (offset + count - 1) 5 =? Z.shiftr offset 5
  then secp256k1_scalar_get_bits a offset count
  else
    check (Z.shiftr offset 5 + 1 <? 8)
      (Some (Z.land (Z.lor (Z.shiftr a.[Z.to_nat (Z.shiftr offset 5)] (Z.land offset 0x1F))
                           (u32 (Z.shiftl a.[Z.to_nat (Z.shiftr offset 5 + 1)] (32 - Z.land offset 0x1F))))
                    (u32 (Z.shiftl 1 count) - 1))))).

(** Adds 2^bit when flag is 1; nothing when it is 0. *)
Definition secp256k1_scalar_cadd_bit (r : secp256k1_unit) (bit flag : Z) : option secp256k1_unit :=
  check (bit <? 256) (
  let bit := u32 (bit + Z.land (u32 (flag - 1)) 0x100) in
  let at_word i := u32 (Z.shiftl ⟦Z.shiftr bit 5 =? i⟧ (Z.land bit 0x1F)) in
  let '(r, t) := chain 0 [r.[0] + at_word 0; r.[1] + at_word 1; r.[2] + at_word 2; r.[3] + at_word 3;
                          r.[4] + at_word 4; r.[5] + at_word 5; r.[6] + at_word 6; r.[7] + at_word 7] in
  check (t =? 0) (check (negb (secp256k1_scalar_check_overflow r)) (Some r))).

(** Word i of the product l shifted right by [shift]. *)
Definition shifted_word (l : list Z) (shift : Z) (i : nat) : Z :=
  let shiftlimbs := Z.to_nat (Z.shiftr shift 5) in
  let shiftlow := Z.land shift 0x1F in
  let shifthigh := 32 - shiftlow in
  if shift <? 512 - 32 * Z.of_nat i
  then Z.lor (Z.shiftr l.[i + shiftlimbs] shiftlow)
         (if (shift <? 480 - 32 * Z.of_nat i) && negb (shiftlow =? 0)
          then u32 (Z.shiftl l.[1 + i + shiftlimbs] shifthigh) else 0)
  else 0.

(** a * b / 2^shift, rounded to the nearest. *)
Definition secp256k1_scalar_mul_shift_var (a b : secp256k1_unit) (shift : Z) : option secp256k1_unit :=
  check (256 <=? shift) (
  l ← secp256k1_scalar_mul_512 a b;
  let d7 := if shift <? 288 then Z.shiftr l.[7 + Z.to_nat (Z.shiftr shift 5)] (Z.land shift 0x1F) else 0 in
  let r := (shifted_word l shift <$> seq 0 7) ++ [d7] in
  secp256k1_scalar_cadd_bit r 0
    (Z.land (Z.shiftr l.[Z.to_nat (Z.shiftr (shift - 1) 5)] (Z.land (shift - 1) 0x1F)) 1)).

(** ** Splitting a scalar in two halves *)

Definition secp256k1_scalar_split_128 (a : secp256k1_unit) : secp256k1_unit * secp256k1_unit :=
  ([a.[0]; a.[1]; a.[2]; a.[3]; 0; 0; 0; 0], [a.[4]; a.[5]; a.[6]; a.[7]; 0; 0; 0; 0]).

(** SECP256K1_SCALAR_CONST lists the most significant word first. *)
Definition SECP256K1_SCALAR_CONST (d7 d6 d5 d4 d3 d2 d1 d0 : Z) : secp256k1_unit := [d0; d1; d2; d3; d4; d5; d6; d7].

Definition minus_lambda := SECP256K1_SCALAR_CONST
  0xAC9C52B3 0x3FA3CF1F 0x5AD9E3FD 0x77ED9BA4 0xA880B9FC 0x8EC739C2 0xE0CFC810 0xB51283CF.
Definition minus_b1 := SECP256K1_SCALAR_CONST
  0x00000000 0x00000000 0x00000000 0x00000000 0xE4437ED6 0x010E8828 0x6F547FA9 0x0ABFE4C3.
Definition minus_b2 := SECP256K1_SCALAR_CONST
  0xFFFFFFFF 0xFFFFFFFF 0xFFFFFFFF 0xFFFFFFFE 0x8A280AC5 0x0774346D 0xD765CDA8 0x3DB1562C.
Definition g1 := SECP256K1_SCALAR_CONST
  0x00000000 0x00000000 0x00000000 0x00003086 0xD221A7D4 0x6BCDE86C 0x90E49284 0xEB153DAB.
Definition g2 := SECP256K1_SCALAR_CONST
  0x00000000 0x00000000 0x00000000 0x0000E443 0x7ED6010E 0x88286F54 0x7FA90ABF 0xE4C42212.

(** a = r1 + lambda * r2 with both halves short. *)
Definition secp256k1_scalar_split_lambda (a : secp256k1_unit) : option (secp256k1_unit * secp256k1_unit) :=
  c1 ← secp256k1_scalar_mul_shift_var a g1 272;
  c2 ← secp256k1_scalar_mul_shift_var a g2 272;
  c1 ← secp256k1_scalar_mul c1 minus_b1;
  c2 ← secp256k1_scalar_mul c2 minus_b2;
  '(r2, _) ← secp256k1_scalar_add c1 c2;
  r1 ← secp256k1_scalar_mul r2 minus_lambda;
  '(r1, _) ← secp256k1_scalar_add r1 a;
  Some (r1, r2).
