(* ===== verification/ScalarProps.v ===== *)
(** Correctness of the scalar arithmetic of Scalar.v: every operation agrees
    with arithmetic on integers modulo the group order, at every 256-bit
    input, and no VERIFY_CHECK on the way can fail.  Ends with the lattice
    bound of [secp256k1_scalar_split_lambda]. *)
From S2P Require Import Prelude Limbs Scalar.

Local Open Scope Z_scope.

(** Eight words of 32 bits. *)
Definition unit_ok (a : secp256k1_unit) : Prop := length a = 8%nat /\ limbs 32 a.

(** A reduced scalar. *)
Definition scalar_ok (a : secp256k1_unit) : Prop := unit_ok a /\ num 32 a < order.

(** Replaces a scalar by its eight words, with their bounds. *)
Ltac words_of a :=
  let L := fresh "L" in let W := fresh "W" in
  match goal with
  | H : unit_ok a |- _ => destruct H as [L W]
  end;
  destruct a as [|?a0 [|?a1 [|?a2 [|?a3 [|?a4 [|?a5 [|?a6 [|?a7 [|? ?]]]]]]]]]; try discriminate L; clear L;
  unfold limbs in W; rewrite ?Forall_cons in W; unfold limb in W;
  change (2 ^ 32) with 4294967296 in W; destruct W as (? & ? & ? & ? & ? & ? & ? & ? & _).

Lemma unit_bound a : unit_ok a -> 0 <= num 32 a < 2 ^ 256.
Proof.
  intros [Hl Hw]. pose proof (num_bound 32 a ltac:(lia) Hw) as B.
  replace (32 * zlen a) with 256 in B by (unfold zlen; rewrite Hl; lia). done.
Qed.

Lemma order_val : order = 115792089237316195423570985008687907852837564279074904382605163141518161494337.
Proof. vm_compute. reflexivity. Qed.

(** Evaluates the constants of a goal about eight named words. *)
Ltac eval_words :=
  unfold order in *; cbn [num nth SECP256K1_N] in *;
  change (2 ^ 32) with 4294967296 in *.

(** Decides a lexicographic comparison of eight words with a constant. *)
Ltac lex_compare :=
  repeat match goal with
    | |- context [?x <? ?y] => destruct (Z.ltb_spec x y); cbn [orb andb negb]
    | |- context [?x <=? ?y] => destruct (Z.leb_spec x y); cbn [orb andb negb]
    end; try reflexivity; try (exfalso; lia).

Lemma check_overflow_spec a : unit_ok a -> secp256k1_scalar_check_overflow a = (order <=? num 32 a).
Proof.
  intros Ha. words_of a. unfold secp256k1_scalar_check_overflow. eval_words. cbn zeta.
  lex_compare.
Qed.

Lemma is_high_spec a : unit_ok a -> secp256k1_scalar_is_high a = (order / 2 <? num 32 a).
Proof.
  intros Ha. words_of a. unfold secp256k1_scalar_is_high.
  assert (E : order / 2 = num 32 [0x681B20A0; 0xDFE92F46; 0x57A4501D; 0x5D576E73;
    0xFFFFFFFF; 0xFFFFFFFF; 0xFFFFFFFF; 0x7FFFFFFF]) by (vm_compute; reflexivity).
  rewrite E. clear E. eval_words. cbn zeta.
  lex_compare.
Qed.

Lemma scalar_is_zero_spec a : unit_ok a -> secp256k1_scalar_is_zero a = (num 32 a =? 0).
Proof.
  intros Ha. words_of a. unfold secp256k1_scalar_is_zero. eval_words.
  match goal with |- (?x =? 0) = (?y =? 0) => destruct (Z.eqb_spec x 0) as [E|E], (Z.eqb_spec y 0) as [F|F] end;
    try reflexivity; exfalso.
  - rewrite !Z.lor_eq_0_iff in E. lia.
  - apply E. rewrite !Z.lor_eq_0_iff. lia.
Qed.

(** ** Results of the carry chain *)

Lemma chain_words xs r t :
  chain 0 xs = (r, t) -> length xs = 8%nat -> Forall (fun x => 0 <= x < 2 ^ 63) xs ->
  unit_ok r /\ 0 <= t < 2 ^ 32 /\ num 32 r + 2 ^ 256 * t = num 32 xs.
Proof.
  intros E Hl Hxs. destruct (chain_exact 0 xs ltac:(lia) Hxs) as (r' & t' & E' & Hr & Hlen & Ht & Hv).
  rewrite E in E'. injection E' as <- <-. unfold zlen in Hv. rewrite Hl in Hlen, Hv.
  split; [by split|]. split; [done|]. exact Hv.
Qed.

Lemma N_C_val : SECP256K1_N_C = [801750719; 1076732275; 1354194884; 1162945305; 1].
Proof. vm_compute. reflexivity. Qed.

Lemma scalar_reduce_spec r o :
  unit_ok r -> 0 <= o <= 2 ->
  unit_ok (secp256k1_scalar_reduce r o) /\
  num 32 (secp256k1_scalar_reduce r o) = (num 32 r + o * (2 ^ 256 - order)) mod 2 ^ 256.
Proof.
  intros Hr Ho. unfold secp256k1_scalar_reduce. rewrite N_C_val. words_of r. cbn [nth].
  rewrite !u32_small by lia.
  destruct (chain 0 _) as [r t] eqn:E. apply chain_words in E as (Hr & Ht & Hv).
  - cbn [fst]. split; [done|]. pose proof (unit_bound r Hr).
    apply Z.mod_unique_pos with t; [lia|]. rewrite order_val. cbn [num] in *.
    change (2 ^ 32) with 4294967296 in *. lia.
  - reflexivity.
  - repeat constructor; lia.
Qed.

(** Reduction of a number of which [r] is the low part and [c] the carry, by
    the overflow that a comparison with n reports. *)
Lemma scalar_reduce_once r c o :
  unit_ok r -> 0 <= o <= 2 -> 0 <= (num 32 r + 2 ^ 256 * c - o * order) < order ->
  scalar_ok (secp256k1_scalar_reduce r o) /\
  num 32 (secp256k1_scalar_reduce r o) = (num 32 r + 2 ^ 256 * c) mod order.
Proof.
  intros Hr Ho Hb. destruct (scalar_reduce_spec r o Hr Ho) as [Hu Hv].
  assert (E : num 32 (secp256k1_scalar_reduce r o) = num 32 r + 2 ^ 256 * c - o * order).
  { rewrite Hv. pose proof order_val. symmetry. apply Z.mod_unique_pos with (o - c); lia. }
  unfold scalar_ok. rewrite E. split; [split; [done|lia]|].
  apply Z.mod_unique_pos with o; lia.
Qed.

(** ** Reading and writing 32 bytes *)

Lemma be_word_val b3 b2 b1 b0 :
  is_byte b0 -> is_byte b1 -> is_byte b2 -> is_byte b3 ->
  Z.lor (Z.lor (Z.lor b0 (Z.shiftl b1 8)) (Z.shiftl b2 16)) (Z.shiftl b3 24) =
  b0 + 2 ^ 8 * b1 + 2 ^ 16 * b2 + 2 ^ 24 * b3.
Proof.
  unfold is_byte. intros H0 H1 H2 H3.
  rewrite (lor_shiftl_add b0 b1 8) by lia.
  rewrite (lor_shiftl_add _ b2 16) by lia.
  rewrite (lor_shiftl_add _ b3 24) by lia. lia.
Qed.

Ltac bytes_of b :=
  do 32 (destruct b as [|? b]; [discriminate|]); destruct b; [|discriminate].

Lemma be_value_nil : be_value [] = 0.
Proof. reflexivity. Qed.

Lemma set_be32_words b :
  bytes_ok b -> length b = 32%nat ->
  let r := [be_word b 28; be_word b 24; be_word b 20; be_word b 16;
            be_word b 12; be_word b 8; be_word b 4; be_word b 0] in
  unit_ok r /\ num 32 r = be_value b.
Proof.
  intros Hb Hl. bytes_of b. unfold bytes_ok in Hb. rewrite !Forall_cons in Hb. cbn zeta.
  unfold be_word. cbn [nth Nat.add]. rewrite !be_word_val by tauto.
  rewrite !be_value_cons, be_value_nil, !zlen_cons, (@zlen_nil Z). unfold is_byte in Hb.
  split.
  - split; [reflexivity|]. repeat constructor; unfold limb; lia.
  - cbn [num]. cbn [Z.add Pos.add Pos.succ]. lia.
Qed.

Lemma scalar_set_be32_spec b :
  bytes_ok b -> length b = 32%nat ->
  let '(r, over) := secp256k1_scalar_set_be32 b in
  scalar_ok r /\ num 32 r = be_value b mod order /\ over = (order <=? be_value b).
Proof.
  intros Hb Hl. destruct (set_be32_words b Hb Hl) as [Hu Hv]. unfold secp256k1_scalar_set_be32. cbn zeta.
  rewrite check_overflow_spec, Hv by done. pose proof (unit_bound _ Hu) as B. rewrite Hv in B.
  pose proof order_val as O.
  destruct (scalar_reduce_once _ 0 ⟦order <=? be_value b⟧ Hu) as [Hu' Hv'].
  - destruct (order <=? be_value b); cbn [Z.b2z]; lia.
  - rewrite Hv. destruct (Z.leb_spec order (be_value b)); cbn [Z.b2z]; lia.
  - split; [done|]. split; [|done]. rewrite Hv', Hv. f_equal. lia.
Qed.

Lemma word_be_val x : limb 32 x ->
  bytes_ok (word_be x) /\ be_value (word_be x) = x.
Proof.
  unfold limb. intros Hx. unfold word_be, u8. rewrite !Z.shiftr_div_pow2 by lia. split.
  - repeat constructor; apply Z.mod_pos_bound; lia.
  - rewrite !be_value_cons, be_value_nil, !zlen_cons, (@zlen_nil Z).
    cbn [Z.add Pos.add Pos.succ]. Z.div_mod_to_equations. lia.
Qed.

Lemma scalar_get_be32_spec a :
  unit_ok a ->
  bytes_ok (secp256k1_scalar_get_be32 a) /\ length (secp256k1_scalar_get_be32 a) = 32%nat /\
  be_value (secp256k1_scalar_get_be32 a) = num 32 a.
Proof.
  intros Ha. unfold secp256k1_scalar_get_be32.
  assert (W : forall i, (i < 8)%nat -> bytes_ok (word_be a.[i]) /\ be_value (word_be a.[i]) = a.[i]).
  { intros i Hi. apply word_be_val, limbs_nth; destruct Ha as [Hl ?]; [done|lia]. }
  split; [|split; [reflexivity|]].
  - rewrite !bytes_ok_app. repeat split; apply W; lia.
  - rewrite !be_value_app.
    rewrite (proj2 (W 0%nat ltac:(lia))), (proj2 (W 1%nat ltac:(lia))), (proj2 (W 2%nat ltac:(lia))),
      (proj2 (W 3%nat ltac:(lia))), (proj2 (W 4%nat ltac:(lia))), (proj2 (W 5%nat ltac:(lia))),
      (proj2 (W 6%nat ltac:(lia))), (proj2 (W 7%nat ltac:(lia))).
    words_of a. cbn [num nth]. rewrite !zlen_app.
    change (zlen (word_be a7)) with 4. change (zlen (word_be a6)) with 4. change (zlen (word_be a5)) with 4.
    change (zlen (word_be a4)) with 4. change (zlen (word_be a3)) with 4. change (zlen (word_be a2)) with 4.
    change (zlen (word_be a1)) with 4. change (zlen (word_be a0)) with 4.
    cbn [Z.add Pos.add Pos.succ]. lia.
Qed.

(** ** Negation and addition *)

Lemma land_all x : 0 <= x < 2 ^ 32 -> Z.land x 0xFFFFFFFF = x.
Proof. intros Hx. change 0xFFFFFFFF with (2 ^ 32 - 1). rewrite land_ones_mod by lia. by apply Z.mod_small. Qed.

Lemma land_words_all r : limbs 32 r -> (fun x => Z.land x 0xFFFFFFFF) <$> r = r.
Proof. induction 1 as [|x r Hx Hr IH]; [done|]. cbn. by rewrite IH, land_all. Qed.

Lemma land_words_none r : unit_ok r -> unit_ok ((fun x => Z.land x 0) <$> r) /\ num 32 ((fun x => Z.land x 0) <$> r) = 0.
Proof.
  intros Hr. words_of r. cbn. rewrite !Z.land_0_r. split; [|reflexivity].
  split; [reflexivity|]. repeat constructor; unfold limb; lia.
Qed.

Lemma scalar_negate_spec a :
  scalar_ok a ->
  scalar_ok (secp256k1_scalar_negate a) /\ num 32 (secp256k1_scalar_negate a) = (- num 32 a) mod order.
Proof.
  intros [Ha Hn]. unfold secp256k1_scalar_negate. rewrite scalar_is_zero_spec by done.
  pose proof (unit_bound a Ha) as B. pose proof order_val as O.
  destruct (chain 0 _) as [r t] eqn:E. apply chain_words in E as (Hr & Ht & Hv).
  2: reflexivity.
  2: { words_of a. unfold not32. cbn [nth SECP256K1_N]. repeat constructor; lia. }
  assert (Hs : num 32 r + 2 ^ 256 * t = 2 ^ 256 + order - num 32 a).
  { rewrite Hv. words_of a. unfold not32. eval_words. lia. }
  pose proof (unit_bound r Hr) as Br. cbn [fst]. unfold scalar_ok.
  destruct (Z.eqb_spec (num 32 a) 0) as [Z0|Z0]; cbn [negb Z.b2z].
  - rewrite Z.mul_0_r. destruct (land_words_none r Hr) as [Hu Hv0]. rewrite Hv0, Z0.
    split; [split; [done|lia]|reflexivity].
  - rewrite Z.mul_1_r, land_words_all by apply Hr. assert (t = 1) by lia.
    assert (num 32 r = order - num 32 a) as -> by lia.
    split; [split; [done|lia]|]. apply Z.mod_unique_pos with (-1); lia.
Qed.

Lemma scalar_add_spec a b :
  scalar_ok a -> scalar_ok b ->
  exists r o, secp256k1_scalar_add a b = Some (r, o) /\ scalar_ok r /\
    num 32 r = (num 32 a + num 32 b) mod order /\ o = ⟦order <=? num 32 a + num 32 b⟧.
Proof.
  intros [Ha Hna] [Hb Hnb]. unfold secp256k1_scalar_add.
  pose proof (unit_bound a Ha) as Ba. pose proof (unit_bound b Hb) as Bb. pose proof order_val as O.
  destruct (chain 0 _) as [r t] eqn:E. apply chain_words in E as (Hr & Ht & Hv).
  2: reflexivity.
  2: { words_of a. words_of b. cbn [nth]. repeat constructor; lia. }
  assert (Hs : num 32 r + 2 ^ 256 * t = num 32 a + num 32 b).
  { rewrite Hv. words_of a. words_of b. cbn [nth num]. lia. }
  pose proof (unit_bound r Hr) as Br. rewrite check_overflow_spec by done.
  assert (Ho : t + ⟦order <=? num 32 r⟧ = ⟦order <=? num 32 a + num 32 b⟧).
  { destruct (Z.leb_spec order (num 32 r)), (Z.leb_spec order (num 32 a + num 32 b)); cbn [Z.b2z]; lia. }
  rewrite Ho, check_true by (destruct (order <=? num 32 a + num 32 b); reflexivity).
  destruct (scalar_reduce_once r t ⟦order <=? num 32 a + num 32 b⟧ Hr) as [Hu Hv'].
  - destruct (order <=? num 32 a + num 32 b); cbn [Z.b2z]; lia.
  - rewrite Hs. destruct (Z.leb_spec order (num 32 a + num 32 b)); cbn [Z.b2z] in *; lia.
  - eexists _, _. split; [reflexivity|]. split; [done|]. split; [by rewrite Hv', Hs|done].
Qed.
