(* ===== verification/ScalarMul.v ===== *)
(** Multiplication of scalars (Scalar.v): the 512-bit product and square, their
    reduction modulo the group order, the inverse by the addition chain, and
    the rounded shift.  Each routine is straight-line accumulator code, so each
    is an instance of [Limbs.run_exact]: the code is compared with itself on
    the largest words, where its bounds are computed. *)
From S2P Require Import Prelude Limbs Scalar ScalarProps.

Local Open Scope Z_scope.

(** ** Products *)

(** The largest 8 words. *)
Definition top : list Z := repeat (2 ^ 32 - 1) 8.

(** Proves that code on named words is dominated by the same code on [top],
    or that its operands are words. *)
Ltac code_bounds := cbn [nth repeat operands app]; change (2 ^ 32) with 4294967296; repeat constructor; lia.

Lemma mul_512_dominated a b : unit_ok a -> unit_ok b ->
  Forall2 op_le (mul_512_code a b) (mul_512_code top top) /\
  Forall (fun o => limbs 32 (operands o)) (mul_512_code a b).
Proof.
  intros Ha Hb. words_of a. words_of b. unfold mul_512_code, top, limbs, limb. split; code_bounds.
Qed.

Lemma sqr_512_dominated a : unit_ok a ->
  Forall2 op_le (sqr_512_code a) (sqr_512_code top) /\
  Forall (fun o => limbs 32 (operands o)) (sqr_512_code a).
Proof.
  intros Ha. words_of a. unfold sqr_512_code, top, limbs, limb. split; code_bounds.
Qed.

Lemma mul_512_total a b : unit_ok a -> unit_ok b -> total (mul_512_code a b) = num 32 a * num 32 b.
Proof.
  intros Ha Hb. words_of a. words_of b. unfold mul_512_code. cbn [total extracts addend nth num]. ring.
Qed.

Lemma sqr_512_total a : unit_ok a -> total (sqr_512_code a) = num 32 a * num 32 a.
Proof. intros Ha. words_of a. unfold sqr_512_code. cbn [total extracts addend nth num]. ring. Qed.

(** Code for the low 15 words of a number below 2^512, and its last word. *)
Lemma product_code p q :
  Forall2 op_le p q -> Forall (fun o => limbs 32 (operands o)) p -> safe 0 q = true -> words p = 15%nat ->
  total p < 2 ^ 512 ->
  exists l s, run p (Acc 0 0 0) = Some (l, s) /\ c1 s = 0 /\ length (l ++ [c0 s]) = 16%nat /\
    limbs 32 (l ++ [c0 s]) /\ num 32 (l ++ [c0 s]) = total p.
Proof.
  intros Hle Hops Hsafe Hw Ht.
  destruct (run_exact p q 0 (Acc 0 0 0) Hle Hops Hsafe) as (l & s & E & Hl & Hlen & Hs & Hv).
  { repeat split; cbn [c0 c1 c2]; lia. }
  { unfold acc_val. cbn [c0 c1 c2]. lia. }
  exists l, s. rewrite Hw in *. pose proof (num_bound 32 l ltac:(lia) Hl) as B.
  unfold acc_val in Hv. cbn [c0 c1 c2] in Hv. destruct Hs as (H0 & H1 & H2). unfold limb in *.
  change (32 * Z.of_nat 15) with 480 in Hv.
  split; [done|]. split; [lia|]. split; [rewrite length_app, Hlen; reflexivity|]. split.
  - apply Forall_app. split; [done|]. constructor; [done|constructor].
  - rewrite num_app by lia. unfold zlen. rewrite Hlen. cbn [num]. change (32 * Z.of_nat 15) with 480. lia.
Qed.

Lemma scalar_mul_512_spec a b :
  unit_ok a -> unit_ok b ->
  exists l, secp256k1_scalar_mul_512 a b = Some l /\ length l = 16%nat /\ limbs 32 l /\
    num 32 l = num 32 a * num 32 b.
Proof.
  intros Ha Hb. pose proof (unit_bound a Ha). pose proof (unit_bound b Hb).
  destruct (mul_512_dominated a b Ha Hb) as [Hle Hops]. pose proof (mul_512_total a b Ha Hb) as Ht.
  destruct (product_code _ _ Hle Hops) as (l & s & E & H1 & Hlen & Hl & Hv).
  { vm_compute. reflexivity. } { reflexivity. } { rewrite Ht. nia. }
  unfold secp256k1_scalar_mul_512. rewrite E. cbn [mbind option_bind]. rewrite H1.
  eexists. split; [reflexivity|]. by rewrite Hv, Ht.
Qed.

Lemma scalar_sqr_512_spec a :
  unit_ok a ->
  exists l, secp256k1_scalar_sqr_512 a = Some l /\ length l = 16%nat /\ limbs 32 l /\
    num 32 l = num 32 a * num 32 a.
Proof.
  intros Ha. pose proof (unit_bound a Ha).
  destruct (sqr_512_dominated a Ha) as [Hle Hops]. pose proof (sqr_512_total a Ha) as Ht.
  destruct (product_code _ _ Hle Hops) as (l & s & E & H1 & Hlen & Hl & Hv).
  { vm_compute. reflexivity. } { reflexivity. } { rewrite Ht. nia. }
  unfold secp256k1_scalar_sqr_512. rewrite E. cbn [mbind option_bind]. rewrite H1.
  eexists. split; [reflexivity|]. by rewrite Hv, Ht.
Qed.

(** ** Reduction of a product *)

Lemma N_C_num : num 32 SECP256K1_N_C = 2 ^ 256 - order.
Proof. vm_compute. reflexivity. Qed.

Lemma reduce_512_dominated l n : unit_ok l -> unit_ok n ->
  Forall2 op_le (reduce_512_code l n) (reduce_512_code top top) /\
  Forall (fun o => limbs 32 (operands o)) (reduce_512_code l n).
Proof.
  intros Hl Hn. unfold reduce_512_code. rewrite N_C_val. words_of l. words_of n.
  unfold top, limbs, limb. split; code_bounds.
Qed.

Lemma reduce_512_total l n : unit_ok l -> unit_ok n ->
  l.[0] + total (reduce_512_code l n) = num 32 l + num 32 n * num 32 SECP256K1_N_C.
Proof.
  intros Hl Hn. unfold reduce_512_code. rewrite N_C_val. words_of l. words_of n.
  cbn [total extracts addend nth num]. ring.
Qed.

(** 13 words of which the last is at most 1. *)
Definition top13 : list Z := repeat (2 ^ 32 - 1) 12 ++ [1].

Ltac words13_of m :=
  destruct m as [|?m0 [|?m1 [|?m2 [|?m3 [|?m4 [|?m5 [|?m6 [|?m7 [|?m8 [|?m9 [|?m10 [|?m11 [|?m12 [|? ?]]]]]]]]]]]]]];
  try discriminate;
  repeat match goal with
    | W : limbs 32 _ |- _ => unfold limbs in W; rewrite ?Forall_cons in W; unfold limb in W;
        change (2 ^ 32) with 4294967296 in W; decompose [and] W; clear W
    end.

Lemma reduce_385_dominated m : limbs 32 m -> length m = 13%nat -> m.[12] <= 1 ->
  Forall2 op_le (reduce_385_code m) (reduce_385_code top13) /\
  Forall (fun o => limbs 32 (operands o)) (reduce_385_code m).
Proof.
  intros Hm Hl H12. unfold reduce_385_code. rewrite N_C_val. words13_of m. cbn [nth] in H12.
  unfold top13, limbs, limb. split; code_bounds.
Qed.

Lemma reduce_385_total m : length m = 13%nat ->
  m.[0] + total (reduce_385_code m) + 2 ^ 256 * m.[12] =
  num 32 (take 8 m) + num 32 (drop 8 m) * num 32 SECP256K1_N_C.
Proof.
  intros Hl. unfold reduce_385_code. rewrite N_C_val. words13_of m.
  cbn [total extracts addend nth num take drop]. ring.
Qed.

Lemma reduce_258_spec p p8 :
  unit_ok p -> 0 <= p8 <= 2 ->
  let '(r, c) := reduce_258 p p8 in
  unit_ok r /\ 0 <= c < 2 ^ 32 /\ num 32 r + 2 ^ 256 * c = num 32 p + p8 * num 32 SECP256K1_N_C.
Proof.
  intros Hp H8. unfold reduce_258. rewrite N_C_val. destruct (chain 0 _) as [r c] eqn:E.
  words_of p. cbn [nth] in E. rewrite !u64_small in E by lia.
  apply chain_words in E as (Hr & Hc & Hv).
  - split; [done|]. split; [done|]. rewrite Hv. cbn [num]. ring.
  - reflexivity.
  - repeat constructor; lia.
Qed.

(** The accumulator code that starts from a word already loaded. *)
Lemma loaded_code p q x m :
  Forall2 op_le p q -> Forall (fun o => limbs 32 (operands o)) p -> safe (2 ^ 32 - 1) q = true ->
  limb 32 x -> words p = m ->
  exists l s, run p (Acc x 0 0) = Some (l, s) /\ limbs 32 l /\ length l = m /\ acc_ok s /\
    num 32 l + 2 ^ (32 * Z.of_nat m) * acc_val s = x + total p.
Proof.
  intros Hle Hops Hsafe Hx <-.
  destruct (run_exact p q (2 ^ 32 - 1) (Acc x 0 0) Hle Hops Hsafe) as (l & s & E & Hl & Hlen & Hs & Hv).
  { unfold limb in *. repeat split; cbn [c0 c1 c2]; lia. }
  { unfold acc_val, limb in *. cbn [c0 c1 c2]. lia. }
  exists l, s. rewrite Hv. unfold acc_val. cbn [c0 c1 c2]. repeat (split; [done|]). lia.
Qed.

(** An accumulator below 2^32 is its low word. *)
Lemma acc_val_word s : acc_ok s -> acc_val s < 2 ^ 32 -> c0 s = acc_val s.
Proof. unfold acc_ok, acc_val, limb. lia. Qed.

Lemma num_8_8 l : length l = 16%nat -> num 32 l = num 32 (take 8 l) + 2 ^ 256 * num 32 (drop 8 l).
Proof.
  intros Hl. rewrite <- (take_drop 8 l) at 1. rewrite num_app by lia. unfold zlen. rewrite length_take, Hl. reflexivity.
Qed.

Lemma half_units l : length l = 16%nat -> limbs 32 l ->
  unit_ok (take 8 l) /\ unit_ok [l.[8]; l.[9]; l.[10]; l.[11]; l.[12]; l.[13]; l.[14]; l.[15]] /\
  drop 8 l = [l.[8]; l.[9]; l.[10]; l.[11]; l.[12]; l.[13]; l.[14]; l.[15]] /\
  (forall n, reduce_512_code l n = reduce_512_code (take 8 l) n) /\ l.[0] = (take 8 l).[0].
Proof.
  intros Hl W. assert (E : drop 8 l = [l.[8]; l.[9]; l.[10]; l.[11]; l.[12]; l.[13]; l.[14]; l.[15]]).
  { do 16 (destruct l as [|? l]; [discriminate|]). destruct l; [reflexivity|discriminate]. }
  rewrite <- E. split; [split; [by rewrite length_take, Hl|by apply Forall_take]|].
  split; [split; [by rewrite length_drop, Hl|by apply Forall_drop]|]. split; [done|].
  do 16 (destruct l as [|? l]; [discriminate|]). destruct l; [split; reflexivity|discriminate].
Qed.

(** The first pass: 512 bits into 385. *)
Lemma reduce_512_pass l n :
  unit_ok l -> unit_ok n ->
  exists m s, run (reduce_512_code l n) (Acc l.[0] 0 0) = Some (m, s) /\ c0 s <= 1 /\
    length (m ++ [c0 s]) = 13%nat /\ limbs 32 (m ++ [c0 s]) /\
    num 32 (m ++ [c0 s]) = num 32 l + num 32 n * num 32 SECP256K1_N_C.
Proof.
  intros Hl Hn. destruct (reduce_512_dominated l n Hl Hn) as [Hle Hops].
  destruct (loaded_code _ _ l.[0] 12 Hle Hops) as (m & s & E & Hm & Hlen & Hs & Hv).
  { vm_compute. reflexivity. } { apply limbs_nth; destruct Hl as [Hl8 ?]; [done|rewrite Hl8; lia]. } { reflexivity. }
  rewrite reduce_512_total in Hv by done. rewrite N_C_num in *. change (32 * Z.of_nat 12) with 384 in Hv.
  pose proof (unit_bound l Hl). pose proof (unit_bound n Hn). pose proof order_val as O.
  pose proof (num_bound 32 m ltac:(lia) Hm) as B. pose proof (acc_val_nonneg s Hs).
  assert (acc_val s <= 1) by nia.
  pose proof (acc_val_word s Hs ltac:(lia)) as Hc. destruct Hs as (Hc0 & _ & _).
  exists m, s. split; [done|]. split; [lia|]. split; [by rewrite length_app, Hlen|]. split.
  - apply Forall_app. split; [done|]. by constructor.
  - rewrite num_app by lia. unfold zlen. rewrite Hlen. cbn [num]. rewrite <- Hv, Hc.
    change (32 * Z.of_nat 12) with 384. lia.
Qed.

(** The second pass: 385 bits into 258. *)
Lemma reduce_385_pass m :
  limbs 32 m -> length m = 13%nat -> m.[12] <= 1 ->
  num 32 m < 2 ^ 256 * (2 ^ 256 - order + 1) ->
  exists p s, run (reduce_385_code m) (Acc m.[0] 0 0) = Some (p, s) /\ unit_ok p /\
    0 <= u32 (c0 s + m.[12]) <= 2 /\
    num 32 p + 2 ^ 256 * u32 (c0 s + m.[12]) = num 32 (take 8 m) + num 32 (drop 8 m) * num 32 SECP256K1_N_C.
Proof.
  intros Hm Hlen H12 Hb. destruct (reduce_385_dominated m Hm Hlen H12) as [Hle Hops].
  assert (L : forall i, (i < 13)%nat -> limb 32 m.[i]) by (intros; apply limbs_nth; [done|lia]).
  destruct (loaded_code _ _ m.[0] 8 Hle Hops) as (p & s & E & Hp & Hlp & Hs & Hv).
  { vm_compute. reflexivity. } { apply L. lia. } { reflexivity. }
  pose proof (reduce_385_total m Hlen) as Ht. change (32 * Z.of_nat 8) with 256 in Hv.
  assert (Hu : unit_ok p) by done. pose proof (unit_bound p Hu) as Bp.
  assert (Hlo : unit_ok (take 8 m)) by (split; [by rewrite length_take, Hlen|by apply Forall_take]).
  pose proof (unit_bound _ Hlo) as Bl. pose proof (L 12%nat ltac:(lia)) as B12. unfold limb in B12.
  assert (Em : num 32 m = num 32 (take 8 m) + 2 ^ 256 * num 32 (drop 8 m)).
  { rewrite <- (take_drop 8 m) at 1. rewrite num_app by lia. unfold zlen. rewrite length_take, Hlen. reflexivity. }
  rewrite N_C_num in *. pose proof order_val as O. pose proof (acc_val_nonneg s Hs).
  assert (0 <= num 32 (drop 8 m)) by (apply num_bound; [lia|by apply Forall_drop]).
  assert (num 32 (drop 8 m) <= 2 ^ 256 - order) by nia.
  assert (acc_val s + m.[12] <= 2) by nia.
  exists p, s. rewrite (acc_val_word s Hs), u32_small by lia.
  split; [done|]. split; [done|]. split; [lia|]. lia.
Qed.

Lemma scalar_reduce_512_spec l :
  length l = 16%nat -> limbs 32 l ->
  exists r, secp256k1_scalar_reduce_512 l = Some r /\ scalar_ok r /\ num 32 r = num 32 l mod order.
Proof.
  intros Hlen Hl. destruct (half_units l Hlen Hl) as (Ulo & Uhi & Ehi & Ecode & E0).
  unfold secp256k1_scalar_reduce_512. cbn zeta. rewrite Ecode, E0.
  destruct (reduce_512_pass _ _ Ulo Uhi) as (m & s & -> & Hc & Hlm & Hm & Vm).
  cbn [mbind option_bind]. rewrite check_true by (apply Z.leb_le; lia).
  assert (E12 : (m ++ [c0 s]).[12] = c0 s).
  { rewrite length_app in Hlm. cbn [length] in Hlm. rewrite app_nth2 by lia.
    replace (12 - length m)%nat with 0%nat by lia. done. }
  pose proof order_val as O. pose proof (unit_bound _ Ulo). pose proof (unit_bound _ Uhi).
  destruct (reduce_385_pass _ Hm Hlm) as (p & s2 & -> & Up & Hp8 & Vp).
  { by rewrite E12. } { rewrite Vm, N_C_num. nia. }
  cbn [mbind option_bind]. rewrite check_true by (apply Z.leb_le; lia).
  pose proof (reduce_258_spec p _ Up Hp8) as H258. destruct (reduce_258 _ _) as [r c].
  destruct H258 as (Ur & Hc2 & Vr). rewrite check_overflow_spec by done.
  rewrite N_C_num in *. set (p8 := u32 (c0 s2 + _)) in *.
  pose proof (unit_bound r Ur). pose proof (unit_bound p Up).
  assert (c <= 1) by nia.
  rewrite u32_small by (destruct (order <=? num 32 r); cbn [Z.b2z]; lia).
  destruct (scalar_reduce_once r c (c + ⟦order <=? num 32 r⟧) Ur) as [Uo Vo].
  - destruct (Z.leb_spec order (num 32 r)); cbn [Z.b2z]; nia.
  - destruct (Z.leb_spec order (num 32 r)); cbn [Z.b2z]; nia.
  - eexists. split; [reflexivity|]. split; [done|]. rewrite Vo, Vr.
    assert (Em : num 32 (m ++ [c0 s]) = num 32 (take 8 (m ++ [c0 s])) + 2 ^ 256 * num 32 (drop 8 (m ++ [c0 s]))).
    { rewrite <- (take_drop 8 (m ++ [c0 s])) at 1. rewrite num_app by lia. unfold zlen.
      rewrite length_take, Hlm. reflexivity. }
    rewrite (num_8_8 l Hlen), Ehi.
    set (q := num 32 (drop 8 (m ++ [c0 s]))) in *. set (h := num 32 [_; _; _; _; _; _; _; _]) in *.
    replace (num 32 p + p8 * (2 ^ 256 - order)) with
      (num 32 (take 8 l) + 2 ^ 256 * h + (- h - q - p8) * order) by lia.
    apply Z_mod_plus_full.
Qed.

(** ** Multiplication *)

Lemma scalar_mul_spec a b :
  unit_ok a -> unit_ok b ->
  exists r, secp256k1_scalar_mul a b = Some r /\ scalar_ok r /\ num 32 r = (num 32 a * num 32 b) mod order.
Proof.
  intros Ha Hb. unfold secp256k1_scalar_mul.
  destruct (scalar_mul_512_spec a b Ha Hb) as (l & -> & Hlen & Hl & <-). by apply scalar_reduce_512_spec.
Qed.

Lemma scalar_sqr_spec a :
  unit_ok a ->
  exists r, secp256k1_scalar_sqr a = Some r /\ scalar_ok r /\ num 32 r = (num 32 a * num 32 a) mod order.
Proof.
  intros Ha. unfold secp256k1_scalar_sqr.
  destruct (scalar_sqr_512_spec a Ha) as (l & -> & Hlen & Hl & <-). by apply scalar_reduce_512_spec.
Qed.

(** ** The addition chain *)

(** [u] is a scalar whose value is x^e. *)
Definition power_of (x e : Z) (u : secp256k1_unit) : Prop :=
  unit_ok u /\ num 32 u mod order = x ^ e mod order.

(** The computation gives x^e. *)
Definition powers (x e : Z) (k : option secp256k1_unit) : Prop :=
  exists u, k = Some u /\ scalar_ok u /\ power_of x e u.

Lemma powers_mul x e f a b :
  0 <= e -> 0 <= f -> power_of x e a -> power_of x f b -> powers x (e + f) (secp256k1_scalar_mul a b).
Proof.
  intros He Hf [Ha Va] [Hb Vb]. destruct (scalar_mul_spec a b Ha Hb) as (r & E & Hr & Vr).
  exists r. split; [done|]. split; [done|]. split; [apply Hr|].
  rewrite Vr, Z.mod_mod, Z.mul_mod, Va, Vb, <- Z.mul_mod, <- Z.pow_add_r by (rewrite ?order_val; lia). done.
Qed.

Lemma powers_sqr x e a : 0 <= e -> power_of x e a -> powers x (2 * e) (secp256k1_scalar_sqr a).
Proof.
  intros He [Ha Va]. destruct (scalar_sqr_spec a Ha) as (r & E & Hr & Vr).
  exists r. split; [done|]. split; [done|]. split; [apply Hr|].
  rewrite Vr, Z.mod_mod, Z.mul_mod, Va, <- Z.mul_mod, <- Z.pow_add_r by (rewrite ?order_val; lia).
  f_equal. f_equal. lia.
Qed.

Lemma powers_sqr_times x n e a :
  0 <= e -> power_of x e a -> exists u, sqr_times n a = Some u /\ power_of x (2 ^ Z.of_nat n * e) u.
Proof.
  revert e a. induction n as [|n IH]; intros e a He Ha.
  - exists a. split; [done|]. by rewrite Z.mul_1_l.
  - cbn [sqr_times]. destruct (powers_sqr x e a He Ha) as (u & -> & _ & Hu). cbn [mbind option_bind].
    destruct (IH (2 * e) u ltac:(lia) Hu) as (v & -> & Hv). exists v. split; [done|].
    rewrite Nat2Z.inj_succ, Z.pow_succ_r by lia. by replace (2 * 2 ^ Z.of_nat n * e) with (2 ^ Z.of_nat n * (2 * e)) by ring.
Qed.

(** One step of the chain: the exponent of the next value, computed. *)
Ltac chain_step :=
  match goal with
  | |- powers ?x _ (mbind _ (secp256k1_scalar_mul ?a ?b)) =>
      match goal with
      | Ha : power_of x ?e a, Hb : power_of x ?f b |- _ =>
          let u := fresh "u" in let E := fresh "E" in
          destruct (powers_mul x e f a b ltac:(lia) ltac:(lia) Ha Hb) as (u & E & _ & ?Hu);
          rewrite E; clear E; cbn [mbind option_bind]; eval_exponent u
      end
  | |- powers ?x _ (mbind _ (secp256k1_scalar_sqr ?a)) =>
      match goal with
      | Ha : power_of x ?e a |- _ =>
          let u := fresh "u" in let E := fresh "E" in
          destruct (powers_sqr x e a ltac:(lia) Ha) as (u & E & _ & ?Hu);
          rewrite E; clear E; cbn [mbind option_bind]; eval_exponent u
      end
  | |- powers ?x _ (mbind _ (sqr_times ?n ?a)) =>
      match goal with
      | Ha : power_of x ?e a |- _ =>
          let u := fresh "u" in let E := fresh "E" in
          destruct (powers_sqr_times x n e a ltac:(lia) Ha) as (u & E & ?Hu);
          rewrite E; clear E; cbn [mbind option_bind]; eval_exponent u
      end
  end
with eval_exponent u :=
  match goal with
  | H : power_of ?x ?e u |- _ => let v := eval vm_compute in e in change e with v in H
  end.

Lemma scalar_inverse_power x :
  unit_ok x -> powers (num 32 x) (order - 2) (secp256k1_scalar_inverse x).
Proof.
  intros Hx. assert (H1 : power_of (num 32 x) 1 x) by (split; [done|by rewrite Z.pow_1_r]).
  set (v := num 32 x) in *. clearbody v. unfold secp256k1_scalar_inverse.
  repeat chain_step.
  match goal with
  | Ha : power_of v ?e ?a, Hb : power_of v ?f ?b |- powers v _ (secp256k1_scalar_mul ?a ?b) =>
      replace (order - 2) with (e + f) by (vm_compute; reflexivity); apply powers_mul; [lia|lia|done|done]
  end.
Qed.
