(* ===== verification/ScalarBits.v ===== *)
(** Bits of scalars (Scalar.v): bit extraction, the rounded shift of a
    product, and the two splits of a multiplier; [split_lambda_halves] is the
    lattice argument that both halves of the endomorphism split are short. *)
From S2P Require Import Prelude Limbs Scalar ScalarProps ScalarMul.

Local Open Scope Z_scope.

Lemma nth_limb_bit w l i k : 0 <= w -> limbs w l -> w <= k -> Z.testbit l.[i] k = false.
Proof.
  intros Hw Hl Hk. destruct (Nat.lt_ge_cases i (length l)) as [Hi|Hi].
  - apply testbit_high with w; [by apply limbs_nth|lia].
  - rewrite nth_overflow by done. apply Z.testbit_0_l.
Qed.

(** Bit i of a number is bit (i mod w) of its limb i/w. *)
Lemma num_testbit w l i :
  0 < w -> limbs w l -> 0 <= i -> Z.testbit (num w l) i = Z.testbit l.[Z.to_nat (i / w)] (i mod w).
Proof.
  intros Hw Hl. revert i. induction Hl as [|x l Hx Hl IH]; intros i Hi.
  - cbn [num]. rewrite nth_overflow by (cbn; lia). by rewrite !Z.testbit_0_l.
  - cbn [num].
    replace (2 ^ w * num w l) with (num w l * 2 ^ w) by ring.
    rewrite <- lor_shiftl_add by (unfold limb in Hx; lia). rewrite Z.lor_spec.
    destruct (Z.lt_ge_cases i w) as [Hlt|Hge].
    + rewrite Z.shiftl_spec_low by lia. rewrite orb_false_r.
      rewrite Z.div_small, Z.mod_small by lia. done.
    + rewrite Z.shiftl_spec by lia. rewrite (testbit_high x w i) by (unfold limb in Hx; lia).
      rewrite IH by lia. cbn [orb].
      assert (E : i / w = (i - w) / w + 1).
      { rewrite <- Z.div_add by lia. f_equal. lia. }
      assert (E2 : i mod w = (i - w) mod w).
      { rewrite <- (Z_mod_plus_full (i - w) 1 w). f_equal. lia. }
      rewrite E, E2. rewrite Z2Nat.inj_add by (try apply Z.div_pos; lia).
      rewrite Nat.add_comm. reflexivity.
Qed.

Lemma shiftr_5 x : Z.shiftr x 5 = x / 32.
Proof. apply Z.shiftr_div_pow2. lia. Qed.
Lemma land_31 x : Z.land x 0x1F = x mod 32.
Proof. apply (land_ones_mod x 5). lia. Qed.

Lemma testbit_ones_small c i : 0 <= c -> 0 <= i -> Z.testbit (Z.shiftl 1 c - 1) i = (i <? c).
Proof.
  intros Hc Hi. rewrite Z.shiftl_1_l. replace (2 ^ c - 1) with (Z.ones c) by (rewrite Z.ones_equiv; lia).
  rewrite Z.testbit_ones_nonneg by lia. done.
Qed.

(** Two numbers that agree on every bit below c, cut to c bits. *)
Lemma mod_pow2_bits x y c :
  0 <= c -> (forall i, 0 <= i < c -> Z.testbit x i = Z.testbit y i) ->
  Z.land x (Z.shiftl 1 c - 1) = y mod 2 ^ c.
Proof.
  intros Hc Hxy. apply Z.bits_inj'. intros i Hi. rewrite Z.land_spec, testbit_ones_small by lia.
  destruct (Z.ltb_spec i c).
  - rewrite andb_true_r, Z.mod_pow2_bits_low by lia. apply Hxy. lia.
  - by rewrite andb_false_r, Z.mod_pow2_bits_high by lia.
Qed.

Lemma scalar_get_bits_spec a offset count :
  unit_ok a -> 0 <= offset -> 0 < count -> offset mod 32 + count <= 32 ->
  secp256k1_scalar_get_bits a offset count = Some ((num 32 a / 2 ^ offset) mod 2 ^ count).
Proof.
  intros [_ Ha] Ho Hc Hw. unfold secp256k1_scalar_get_bits. rewrite !shiftr_5, land_31.
  rewrite check_true by (apply Z.eqb_eq; Z.div_mod_to_equations; lia).
  f_equal. apply mod_pow2_bits; [lia|]. intros i Hi.
  rewrite Z.shiftr_spec by lia. rewrite <- Z.shiftr_div_pow2, Z.shiftr_spec by lia.
  rewrite num_testbit by (done || lia).
  replace ((i + offset) / 32) with (offset / 32) by (Z.div_mod_to_equations; lia).
  f_equal. Z.div_mod_to_equations; lia.
Qed.

Lemma scalar_get_bits_var_spec a offset count :
  unit_ok a -> 0 <= offset -> 0 < count < 32 -> offset + count <= 256 ->
  secp256k1_scalar_get_bits_var a offset count = Some ((num 32 a / 2 ^ offset) mod 2 ^ count).
Proof.
  intros Ha Ho Hc Hb. unfold secp256k1_scalar_get_bits_var.
  rewrite check_true by (apply Z.ltb_lt; lia). rewrite check_true by (apply Z.leb_le; lia).
  rewrite !shiftr_5, land_31. destruct (Z.eqb_spec ((offset + count - 1) / 32) (offset / 32)) as [E|E].
  - apply scalar_get_bits_spec; [done|lia|lia|]. Z.div_mod_to_equations; lia.
  - rewrite check_true by (apply Z.ltb_lt; Z.div_mod_to_equations; lia). f_equal.
    rewrite (u32_small (Z.shiftl 1 count)) by (rewrite Z.shiftl_1_l; split; [lia|apply Z.pow_lt_mono_r; lia]).
    apply mod_pow2_bits; [lia|]. intros i Hi. destruct Ha as [_ Ha].
    rewrite <- Z.shiftr_div_pow2, Z.shiftr_spec by lia. rewrite num_testbit by (done || lia).
    rewrite Z.lor_spec, Z.shiftr_spec by lia. unfold u32.
    rewrite Z.mod_pow2_bits_low by lia.
    destruct (Z.lt_ge_cases (i + offset mod 32) 32) as [Hlt|Hge].
    + rewrite Z.shiftl_spec_low by lia. rewrite orb_false_r.
      replace ((i + offset) / 32) with (offset / 32) by (Z.div_mod_to_equations; lia).
      f_equal. Z.div_mod_to_equations; lia.
    + rewrite (nth_limb_bit 32) by (done || lia). cbn [orb]. rewrite Z.shiftl_spec by lia.
      replace ((i + offset) / 32) with (offset / 32 + 1) by (Z.div_mod_to_equations; lia).
      f_equal. Z.div_mod_to_equations; lia.
Qed.

(** ** Adding one bit, and the rounded shift *)

(** The eight addends of [secp256k1_scalar_cadd_bit]. *)
Definition bit_words (bit : Z) : list Z :=
  (fun i => u32 (Z.shiftl ⟦Z.shiftr bit 5 =? i⟧ (Z.land bit 0x1F))) <$> [0; 1; 2; 3; 4; 5; 6; 7].

Lemma bit_words_spec bit :
  0 <= bit < 2 ^ 32 ->
  unit_ok (bit_words bit) /\ num 32 (bit_words bit) = if bit <? 256 then 2 ^ bit else 0.
Proof.
  intros Hb. unfold bit_words. rewrite shiftr_5, land_31.
  pose proof (Z.mod_pos_bound bit 32 ltac:(lia)) as Hm.
  assert (W : forall i, u32 (Z.shiftl ⟦bit / 32 =? i⟧ (bit mod 32)) = if bit / 32 =? i then 2 ^ (bit mod 32) else 0).
  { intros i. destruct (bit / 32 =? i); cbn [Z.b2z].
    - rewrite Z.shiftl_1_l. apply u32_small. split; [lia|]. apply Z.pow_lt_mono_r; lia.
    - rewrite Z.shiftl_0_l. reflexivity. }
  assert (Hp : limb 32 (2 ^ (bit mod 32))) by (unfold limb; split; [lia|apply Z.pow_lt_mono_r; lia]).
  split.
  - split; [reflexivity|]. apply Forall_fmap, Forall_forall. intros i _. cbn. rewrite W.
    destruct (_ =? _); [done|unfold limb; lia].
  - cbn [fmap list_fmap num]. rewrite !W. pose proof (Z.div_mod bit 32 ltac:(lia)) as D.
    destruct (Z.ltb_spec bit 256) as [H|H].
    + assert (C : bit / 32 = 0 \/ bit / 32 = 1 \/ bit / 32 = 2 \/ bit / 32 = 3 \/
                  bit / 32 = 4 \/ bit / 32 = 5 \/ bit / 32 = 6 \/ bit / 32 = 7) by lia.
      assert (2 ^ bit = 2 ^ (32 * (bit / 32)) * 2 ^ (bit mod 32)) as -> by (rewrite <- Z.pow_add_r by lia; by f_equal).
      clear D W.
      destruct C as [-> | [-> | [-> | [-> | [-> | [-> | [-> | ->]]]]]]]; cbn [Z.eqb Pos.eqb]; cbn; lia.
    + do 8 (rewrite (proj2 (Z.eqb_neq _ _)) by lia). reflexivity.
Qed.

Lemma scalar_cadd_bit_spec r bit flag :
  unit_ok r -> 0 <= bit < 256 -> 0 <= flag <= 1 -> num 32 r + flag * 2 ^ bit < order ->
  exists r', secp256k1_scalar_cadd_bit r bit flag = Some r' /\ scalar_ok r' /\
    num 32 r' = num 32 r + flag * 2 ^ bit.
Proof.
  intros Hr Hb Hf Hlt. unfold secp256k1_scalar_cadd_bit. rewrite check_true by (apply Z.ltb_lt; lia). cbn zeta.
  set (bit' := u32 (bit + _)).
  assert (Eb : 0 <= bit' < 2 ^ 32 /\ (if bit' <? 256 then 2 ^ bit' else 0) = flag * 2 ^ bit).
  { subst bit'. assert (C : flag = 0 \/ flag = 1) by lia. destruct C as [-> | ->].
    - change (Z.land (u32 (0 - 1)) 256) with 256. rewrite u32_small by lia.
      rewrite (proj2 (Z.ltb_ge _ _)) by lia. lia.
    - change (Z.land (u32 (1 - 1)) 256) with 0. rewrite u32_small by lia. rewrite Z.add_0_r.
      rewrite (proj2 (Z.ltb_lt _ _)) by lia. lia. }
  destruct Eb as [Hb' Eb]. destruct (bit_words_spec bit' Hb') as [Uw Vw]. rewrite Eb in Vw.
  unfold bit_words in Uw, Vw. cbn [fmap list_fmap] in Uw, Vw. clearbody bit'.
  destruct (chain 0 _) as [s t] eqn:E.
  set (w0 := u32 (Z.shiftl ⟦Z.shiftr bit' 5 =? 0⟧ _)) in *. set (w1 := u32 (Z.shiftl ⟦Z.shiftr bit' 5 =? 1⟧ _)) in *.
  set (w2 := u32 (Z.shiftl ⟦Z.shiftr bit' 5 =? 2⟧ _)) in *. set (w3 := u32 (Z.shiftl ⟦Z.shiftr bit' 5 =? 3⟧ _)) in *.
  set (w4 := u32 (Z.shiftl ⟦Z.shiftr bit' 5 =? 4⟧ _)) in *. set (w5 := u32 (Z.shiftl ⟦Z.shiftr bit' 5 =? 5⟧ _)) in *.
  set (w6 := u32 (Z.shiftl ⟦Z.shiftr bit' 5 =? 6⟧ _)) in *. set (w7 := u32 (Z.shiftl ⟦Z.shiftr bit' 5 =? 7⟧ _)) in *.
  clearbody w0 w1 w2 w3 w4 w5 w6 w7. destruct Uw as [_ Uw].
  unfold limbs in Uw. rewrite !Forall_cons in Uw. unfold limb in Uw. change (2 ^ 32) with 4294967296 in Uw.
  apply chain_words in E as (Hs & Ht & Hv).
  - assert (Es : num 32 s + 2 ^ 256 * t = num 32 r + flag * 2 ^ bit).
    { rewrite Hv, <- Vw. words_of r. cbn [num nth]. lia. }
    pose proof (unit_bound s Hs). pose proof order_val as O. assert (t = 0) as -> by lia.
    rewrite check_true by reflexivity. rewrite check_overflow_spec by done.
    rewrite check_true by (rewrite (proj2 (Z.leb_gt _ _)) by lia; reflexivity).
    eexists. split; [reflexivity|]. split; [split; [done|lia]|lia].
  - reflexivity.
  - words_of r. cbn [nth]. repeat constructor; lia.
Qed.

(** Word i of the shifted product, bit by bit. *)
Lemma shifted_word_bit l shift i k :
  limbs 32 l -> length l = 16%nat -> 0 <= shift -> 0 <= k ->
  Z.testbit (shifted_word l shift i) k = (k <? 32) && Z.testbit (num 32 l) (shift + 32 * Z.of_nat i + k).
Proof.
  intros Hl Hlen Hs Hk. unfold shifted_word. rewrite shiftr_5, land_31.
  pose proof (num_bound 32 l ltac:(lia) Hl) as B. unfold zlen in B. rewrite Hlen in B.
  change (32 * Z.of_nat 16) with 512 in B.
  pose proof (Z.div_mod shift 32 ltac:(lia)) as D. pose proof (Z.mod_pos_bound shift 32 ltac:(lia)) as M.
  assert (Hq : 0 <= shift / 32) by (apply Z.div_pos; lia).
  destruct (Z.ltb_spec shift (512 - 32 * Z.of_nat i)) as [H1|H1].
  2: { rewrite Z.testbit_0_l. rewrite (testbit_high _ 512) by lia. by rewrite andb_false_r. }
  rewrite Z.lor_spec, Z.shiftr_spec by lia.
  assert (Hlow : Z.testbit l.[i + Z.to_nat (shift / 32)] (k + shift mod 32) =
                 (k + shift mod 32 <? 32) && Z.testbit (num 32 l) (shift + 32 * Z.of_nat i + k)).
  { destruct (Z.ltb_spec (k + shift mod 32) 32).
    - rewrite num_testbit by (done || lia). cbn [andb].
      replace ((shift + 32 * Z.of_nat i + k) / 32) with (Z.of_nat i + shift / 32) by (Z.div_mod_to_equations; lia).
      replace ((shift + 32 * Z.of_nat i + k) mod 32) with (k + shift mod 32) by (Z.div_mod_to_equations; lia).
      rewrite Z2Nat.inj_add, Nat2Z.id by lia. done.
    - by rewrite (nth_limb_bit 32) by (done || lia). }
  rewrite Hlow. clear Hlow.
  destruct ((shift <? 480 - 32 * Z.of_nat i) && negb (shift mod 32 =? 0)) eqn:C.
  - apply andb_true_iff in C as [C1 C2]. apply Z.ltb_lt in C1. apply negb_true_iff, Z.eqb_neq in C2.
    unfold u32. destruct (Z.ltb_spec k 32) as [K|K].
    + rewrite Z.mod_pow2_bits_low by lia. destruct (Z.ltb_spec (k + shift mod 32) 32).
      * rewrite Z.shiftl_spec_low by lia. by rewrite orb_false_r.
      * rewrite Z.shiftl_spec by lia. rewrite num_testbit by (done || lia). cbn [andb orb].
        replace ((shift + 32 * Z.of_nat i + k) / 32) with (1 + Z.of_nat i + shift / 32) by (Z.div_mod_to_equations; lia).
        replace ((shift + 32 * Z.of_nat i + k) mod 32) with (k - (32 - shift mod 32)) by (Z.div_mod_to_equations; lia).
        rewrite !Z2Nat.inj_add, Nat2Z.id by lia. done.
    + rewrite Z.mod_pow2_bits_high by lia. rewrite (proj2 (Z.ltb_ge _ _)) by lia. done.
  - rewrite Z.testbit_0_l, orb_false_r. apply andb_false_iff in C.
    destruct (Z.ltb_spec k 32) as [K|K]; [|by rewrite (proj2 (Z.ltb_ge _ _)) by lia].
    cbn [andb]. destruct (Z.ltb_spec (k + shift mod 32) 32); [done|]. cbn [andb].
    destruct C as [C|C].
    + apply Z.ltb_ge in C. symmetry. apply testbit_high with 512; lia.
    + apply negb_false_iff, Z.eqb_eq in C. lia.
Qed.

Lemma shifted_word_limb l shift i :
  limbs 32 l -> length l = 16%nat -> 0 <= shift -> limb 32 (shifted_word l shift i).
Proof.
  intros Hl Hlen Hs. assert (N : 0 <= shifted_word l shift i).
  { unfold shifted_word. destruct (_ <? _); [|lia]. apply Z.lor_nonneg. split.
    - apply Z.shiftr_nonneg. destruct (Nat.lt_ge_cases (i + Z.to_nat (Z.shiftr shift 5)) (length l)).
      + by destruct (limbs_nth 32 l _ Hl H).
      + by rewrite nth_overflow.
    - destruct (_ && _); [|lia]. unfold u32. apply Z.mod_pos_bound. lia. }
  split; [done|]. apply bits_bound; [lia|done|]. intros k Hk.
  rewrite shifted_word_bit by (done || lia). by rewrite (proj2 (Z.ltb_ge _ _)) by lia.
Qed.

(** The eight words of the shifted product. *)
Lemma shifted_words l shift :
  limbs 32 l -> length l = 16%nat -> 256 <= shift ->
  unit_ok (shifted_word l shift <$> seq 0 8) /\ num 32 (shifted_word l shift <$> seq 0 8) = num 32 l / 2 ^ shift.
Proof.
  intros Hl Hlen Hs.
  assert (U : unit_ok (shifted_word l shift <$> seq 0 8)).
  { split; [by rewrite length_fmap|]. apply Forall_fmap, Forall_forall. intros i _. cbn.
    apply shifted_word_limb; [done|done|lia]. }
  split; [done|]. apply Z.bits_inj'. intros j Hj.
  pose proof (num_bound 32 l ltac:(lia) Hl) as B. unfold zlen in B. rewrite Hlen in B.
  change (32 * Z.of_nat 16) with 512 in B.
  rewrite <- Z.shiftr_div_pow2, Z.shiftr_spec by lia. destruct (Z.lt_ge_cases j 256) as [J|J].
  - rewrite num_testbit by (lia || apply U).
    assert (Hi : (Z.to_nat (j / 32) < 8)%nat) by (Z.div_mod_to_equations; lia).
    assert (En : (shifted_word l shift <$> seq 0 8).[Z.to_nat (j / 32)] = shifted_word l shift (Z.to_nat (j / 32))).
    { revert Hi. generalize (Z.to_nat (j / 32)). intros i Hi. do 8 (destruct i as [|i]; [done|]). lia. }
    rewrite En, shifted_word_bit by (done || lia || apply Z.mod_pos_bound; lia).
    rewrite (proj2 (Z.ltb_lt _ _)) by (apply Z.mod_pos_bound; lia). cbn [andb]. f_equal.
    rewrite Z2Nat.id by (apply Z.div_pos; lia). Z.div_mod_to_equations; lia.
  - pose proof (unit_bound _ U). rewrite !(testbit_high _ 256), (testbit_high _ 512) by lia. done.
Qed.

(** The top word, written out in the code, is the general one. *)
Lemma shifted_word_7 l shift :
  256 <= shift ->
  (if shift <? 288 then Z.shiftr l.[7 + Z.to_nat (Z.shiftr shift 5)] (Z.land shift 0x1F) else 0) =
  shifted_word l shift 7.
Proof.
  intros Hs. unfold shifted_word. change (512 - 32 * Z.of_nat 7) with 288. change (480 - 32 * Z.of_nat 7) with 256.
  rewrite (proj2 (Z.ltb_ge shift 256)) by lia. cbn [andb]. by rewrite Z.lor_0_r.
Qed.

Lemma round_shift x s : 0 < s -> x / 2 ^ s + (x / 2 ^ (s - 1)) mod 2 = (x + 2 ^ (s - 1)) / 2 ^ s.
Proof.
  intros Hs. assert (E : 2 ^ s = 2 ^ (s - 1) * 2).
  { replace s with (s - 1 + 1) at 1 by lia. rewrite Z.pow_add_r by lia. lia. }
  rewrite E, <- !Z.div_div by lia.
  replace (x + 2 ^ (s - 1)) with (x + 1 * 2 ^ (s - 1)) by lia. rewrite Z.div_add by lia.
  Z.div_mod_to_equations. lia.
Qed.

Lemma scalar_mul_shift_var_spec a b shift :
  unit_ok a -> unit_ok b -> 256 <= shift < 512 ->
  (num 32 a * num 32 b + 2 ^ (shift - 1)) / 2 ^ shift < order ->
  exists r, secp256k1_scalar_mul_shift_var a b shift = Some r /\ scalar_ok r /\
    num 32 r = (num 32 a * num 32 b + 2 ^ (shift - 1)) / 2 ^ shift.
Proof.
  intros Ha Hb Hs Hlt. unfold secp256k1_scalar_mul_shift_var. rewrite check_true by (apply Z.leb_le; lia).
  destruct (scalar_mul_512_spec a b Ha Hb) as (l & -> & Hlen & Hl & Vl). cbn [mbind option_bind].
  rewrite shifted_word_7 by lia.
  change ((shifted_word l shift <$> seq 0 7) ++ [shifted_word l shift 7]) with (shifted_word l shift <$> seq 0 8).
  destruct (shifted_words l shift Hl Hlen ltac:(lia)) as [U V]. rewrite shiftr_5, land_31.
  assert (Ebit : Z.land (Z.shiftr l.[Z.to_nat ((shift - 1) / 32)] ((shift - 1) mod 32)) 1 =
                 (num 32 l / 2 ^ (shift - 1)) mod 2).
  { refine (mod_pow2_bits (Z.shiftr _ _) (num 32 l / 2 ^ (shift - 1)) 1 _ _); [lia|]. intros i Hi.
    rewrite Z.shiftr_spec, <- Z.shiftr_div_pow2, Z.shiftr_spec by lia.
    rewrite num_testbit by (done || lia). assert (i = 0) as -> by lia. done. }
  rewrite Ebit. rewrite <- Vl in *. rewrite <- round_shift in * by lia.
  destruct (scalar_cadd_bit_spec (shifted_word l shift <$> seq 0 8) 0 ((num 32 l / 2 ^ (shift - 1)) mod 2) U)
    as (r & E & Hr & Vr).
  - lia.
  - pose proof (Z.mod_pos_bound (num 32 l / 2 ^ (shift - 1)) 2 ltac:(lia)). lia.
  - rewrite V, Z.mul_1_r. done.
  - exists r. split; [done|]. split; [done|]. rewrite Vr, V. lia.
Qed.

(** ** The splits *)

(** A half-length multiplier: below 2^128, or above n - 2^128, i.e. of
    absolute value below 2^128 when read as a signed number modulo n. *)
Definition short (r : secp256k1_unit) : Prop := num 32 r < 2 ^ 128 \/ order - 2 ^ 128 < num 32 r.

(** The eigenvalue of the endomorphism. *)
Definition lambda : Z := order - num 32 minus_lambda.

(** The short basis (a1, b1), (a2, b2) of the lattice of (x, y) with
    x + lambda * y = 0 modulo n. *)
Definition lattice_a1 : Z := 0x3086D221A7D46BCDE86C90E49284EB15.
Definition lattice_a2 : Z := 0x114CA50F7A8E2F3F657C1108D9D44CFD8.
Definition lattice_b1 : Z := - num 32 minus_b1.
Definition lattice_b2 : Z := order - num 32 minus_b2.

Lemma lattice_basis :
  (lattice_a1 + lambda * lattice_b1) mod order = 0 /\ (lattice_a2 + lambda * lattice_b2) mod order = 0.
Proof. split; vm_compute; reflexivity. Qed.

Lemma scalar_const_ok d7 d6 d5 d4 d3 d2 d1 d0 :
  forallb (fun x => (0 <=? x) && (x <? 2 ^ 32)) [d7; d6; d5; d4; d3; d2; d1; d0] = true ->
  unit_ok (SECP256K1_SCALAR_CONST d7 d6 d5 d4 d3 d2 d1 d0).
Proof.
  intros H. cbn [forallb] in H. rewrite !andb_true_iff, !Z.leb_le, !Z.ltb_lt in H. split; [done|].
  repeat constructor; tauto.
Qed.

(** Rounding a * g / 2^272 for a reduced a. *)
Definition rounded (a g : Z) : Z := (a * g + 2 ^ 271) / 2 ^ 272.

Lemma rounded_bound a g :
  2 ^ 272 * rounded a g <= a * g + 2 ^ 271 < 2 ^ 272 * rounded a g + 2 ^ 272.
Proof. unfold rounded. Z.div_mod_to_equations. lia. Qed.

Lemma lattice_bounds a :
  0 <= a < order ->
  let c1 := rounded a (num 32 g1) in
  let c2 := rounded a (num 32 g2) in
  - 2 ^ 128 < - (c1 * lattice_b1 + c2 * lattice_b2) < 2 ^ 128 /\
  - 2 ^ 128 < a - (c1 * lattice_a1 + c2 * lattice_a2) < 2 ^ 128 /\
  0 <= c1 < 2 ^ 256 /\ 0 <= c2 < 2 ^ 256.
Proof.
  intros Ha c1 c2. pose proof (rounded_bound a (num 32 g1)) as R1. pose proof (rounded_bound a (num 32 g2)) as R2.
  fold c1 in R1. fold c2 in R2. clearbody c1 c2.
  let v := eval vm_compute in (num 32 g1) in change (num 32 g1) with v in R1.
  let v := eval vm_compute in (num 32 g2) in change (num 32 g2) with v in R2.
  let v := eval vm_compute in lattice_a1 in change lattice_a1 with v.
  let v := eval vm_compute in lattice_a2 in change lattice_a2 with v.
  let v := eval vm_compute in lattice_b1 in change lattice_b1 with v.
  let v := eval vm_compute in lattice_b2 in change lattice_b2 with v.
  rewrite order_val in Ha. lia.
Qed.

Lemma mod_short z :
  - 2 ^ 128 < z < 2 ^ 128 -> z mod order < 2 ^ 128 \/ order - 2 ^ 128 < z mod order.
Proof.
  intros Hz. pose proof order_val as O. destruct (Z.lt_ge_cases z 0).
  - right. replace (z mod order) with (z + order) by (apply Z.mod_unique_pos with (-1); lia). lia.
  - left. rewrite Z.mod_small by lia. lia.
Qed.

Lemma minus_b1_ok : unit_ok minus_b1. Proof. by apply scalar_const_ok. Qed.
Lemma minus_b2_ok : unit_ok minus_b2. Proof. by apply scalar_const_ok. Qed.
Lemma minus_lambda_ok : unit_ok minus_lambda. Proof. by apply scalar_const_ok. Qed.
Lemma g1_ok : unit_ok g1. Proof. by apply scalar_const_ok. Qed.
Lemma g2_ok : unit_ok g2. Proof. by apply scalar_const_ok. Qed.

(** A rounded product by one of the two constants, through the code. *)
Lemma rounded_mul a g :
  scalar_ok a -> unit_ok g -> num 32 g < 2 ^ 144 ->
  exists c, secp256k1_scalar_mul_shift_var a g 272 = Some c /\ scalar_ok c /\ num 32 c = rounded (num 32 a) (num 32 g).
Proof.
  intros [Ha Hn] Hg Hb. apply (scalar_mul_shift_var_spec a g 272 Ha Hg); [lia|].
  pose proof (unit_bound a Ha). pose proof (unit_bound g Hg). pose proof order_val as O.
  change (272 - 1) with 271. apply Z.div_lt_upper_bound; [lia|]. nia.
Qed.

(** Congruences modulo n, as an explicit multiple. *)
Lemma congr_mod x y k : x = y + k * order -> x mod order = y mod order.
Proof. intros ->. apply Z_mod_plus_full. Qed.

Lemma mul_add_mod x m y : ((x mod order) * m + y) mod order = (x * m + y) mod order.
Proof.
  apply congr_mod with (- (x / order) * m). pose proof (Z.div_mod x order ltac:(rewrite order_val; lia)) as D.
  replace (x mod order) with (x - order * (x / order)) by lia. ring.
Qed.

(** The two halves as lattice combinations, for any modulus n, eigenvalue l
    and basis (a1, b1), (a2, b2) with its multiples q1, q2. *)
Lemma half_r1 n l a1 b1 a2 b2 q1 q2 k1 k2 a :
  a1 + l * b1 = n * q1 -> a2 + l * b2 = n * q2 ->
  exists k, - (k1 * b1 + k2 * b2) * (n - l) + a = a - (k1 * a1 + k2 * a2) + k * n.
Proof.
  intros H1 H2. exists (- (k1 * b1 + k2 * b2) + k1 * q1 + k2 * q2).
  replace a1 with (n * q1 - l * b1) by lia. replace a2 with (n * q2 - l * b2) by lia. ring.
Qed.

Lemma num_minus_lambda : num 32 minus_lambda = order - lambda.
Proof. unfold lambda. lia. Qed.
Lemma num_minus_b1 : num 32 minus_b1 = - lattice_b1.
Proof. unfold lattice_b1. lia. Qed.
Lemma num_minus_b2 : num 32 minus_b2 = order - lattice_b2.
Proof. unfold lattice_b2. lia. Qed.

Lemma half_r1_mod k1 k2 a :
  (((- (k1 * lattice_b1 + k2 * lattice_b2)) mod order) * (order - lambda) + a) mod order =
  (a - (k1 * lattice_a1 + k2 * lattice_a2)) mod order.
Proof.
  rewrite mul_add_mod. destruct lattice_basis as [L1 L2]. pose proof order_val as O.
  apply Z.div_exact in L1; [|lia]. apply Z.div_exact in L2; [|lia].
  destruct (half_r1 _ _ _ _ _ _ _ _ k1 k2 a L1 L2) as [k E]. by apply congr_mod with k.
Qed.

Lemma half_r2_mod k1 k2 :
  (k1 * (- lattice_b1) + k2 * (order - lattice_b2)) mod order = (- (k1 * lattice_b1 + k2 * lattice_b2)) mod order.
Proof. apply congr_mod with k2. generalize lattice_b1, lattice_b2, order. intros. ring. Qed.

Lemma halves_recombine r2 a :
  ((r2 * (order - lambda) + a) mod order + lambda * r2) mod order = a mod order.
Proof.
  pose proof order_val as O. rewrite Z.add_mod_idemp_l by lia. clear O.
  apply congr_mod with r2. generalize lambda, order. intros. ring.
Qed.

Lemma split_lambda_halves a :
  scalar_ok a ->
  exists r1 r2, secp256k1_scalar_split_lambda a = Some (r1, r2) /\ scalar_ok r1 /\ scalar_ok r2 /\
    (num 32 r1 + lambda * num 32 r2) mod order = num 32 a /\ short r1 /\ short r2.
Proof.
  intros Ha. pose proof order_val as O. pose proof (unit_bound a (proj1 Ha)) as Ba.
  destruct (lattice_bounds (num 32 a)) as (B2 & B1 & _); [destruct Ha; lia|].
  unfold secp256k1_scalar_split_lambda.
  destruct (rounded_mul a g1 Ha g1_ok) as (c1 & E & [Hc1 _] & V1); [vm_compute; reflexivity|]. bind_step E.
  destruct (rounded_mul a g2 Ha g2_ok) as (c2 & E & [Hc2 _] & V2); [vm_compute; reflexivity|]. bind_step E.
  rewrite <- V1, <- V2 in B1, B2. clear V1 V2.
  destruct (scalar_mul_spec c1 minus_b1 Hc1 minus_b1_ok) as (d1 & E & Hd1 & W1). bind_step E.
  destruct (scalar_mul_spec c2 minus_b2 Hc2 minus_b2_ok) as (d2 & E & Hd2 & W2). bind_step E.
  destruct (scalar_add_spec d1 d2 Hd1 Hd2) as (r2 & o2 & E & Hr2 & X2 & _). bind_step E.
  destruct (scalar_mul_spec r2 minus_lambda (proj1 Hr2) minus_lambda_ok) as (e & E & He & Y1). bind_step E.
  destruct (scalar_add_spec e a He Ha) as (r1 & o1 & E & Hr1 & X1 & _). bind_step E.
  rewrite num_minus_b1 in W1. rewrite num_minus_b2 in W2. rewrite num_minus_lambda in Y1.
  rewrite Y1, Z.add_mod_idemp_l in X1 by lia.
  assert (E2 : num 32 r2 = (- (num 32 c1 * lattice_b1 + num 32 c2 * lattice_b2)) mod order).
  { rewrite X2, W1, W2, <- Z.add_mod by lia. apply half_r2_mod. }
  exists r1, r2. split; [done|]. split; [done|]. split; [done|]. split; [|split].
  - rewrite X1, halves_recombine. apply Z.mod_small. destruct Ha. lia.
  - unfold short. rewrite X1, E2, half_r1_mod. by apply mod_short.
  - unfold short. rewrite E2. by apply mod_short.
Qed.

Lemma scalar_split_128_spec a :
  unit_ok a ->
  let '(r1, r2) := secp256k1_scalar_split_128 a in
  unit_ok r1 /\ unit_ok r2 /\ num 32 r1 < 2 ^ 128 /\ num 32 r2 < 2 ^ 128 /\
  num 32 a = num 32 r1 + 2 ^ 128 * num 32 r2.
Proof.
  intros Ha. words_of a. unfold secp256k1_scalar_split_128, unit_ok, limbs, limb. cbn [nth num].
  change (2 ^ 32) with 4294967296.
  split; [split; [done|]; repeat constructor; lia|]. split; [split; [done|]; repeat constructor; lia|]. lia.
Qed.
