(* ===== verification/Wnaf.v ===== *)
(** The windowed non-adjacent form of a multiplier (key/pubkey.cpp, the lambda
    [secp256k1_ecmult_wnaf] of [secp256k1_ecmult]): its loop, with the
    VERIFY_CHECKs, and the theorem that for a half-length multiplier it spells
    the multiplier in odd digits of the window, with no assert failing. *)
From S2P Require Import Prelude Limbs Scalar ScalarProps ScalarMul ScalarBits.

Local Open Scope Z_scope.

Record wnaf_state := WnafState { wnaf : list Z; bit : Z; carry : Z; last_set_bit : Z }.

(** The body of `while (bit < len)`, [s] the non-negative multiplier. *)
Definition wnaf_step (s : secp256k1_unit) (len w sign : Z) (st : wnaf_state) : option wnaf_state :=
  b ← secp256k1_scalar_get_bits s (bit st) 1;
  if b =? carry st
  then Some (WnafState (wnaf st) (bit st + 1) (carry st) (last_set_bit st))
  else
    let now := if len - bit st <? w then len - bit st else w in
    word ← secp256k1_scalar_get_bits_var s (bit st) now;
    let word := word + carry st in
    let carry' := Z.land (Z.shiftr word (w - 1)) 1 in
    let word := word - Z.shiftl carry' w in
    Some (WnafState (<[Z.to_nat (bit st) := sign * word]> (wnaf st)) (bit st + now) carry' (bit st)).

(** The loop; every iteration advances [bit], so [len] iterations suffice. *)
Fixpoint wnaf_loop (fuel : nat) (s : secp256k1_unit) (len w sign : Z) (st : wnaf_state) : option wnaf_state :=
  if bit st <? len then
    match fuel with
    | O => None
    | S fuel => st ← wnaf_step s len w sign st; wnaf_loop fuel s len w sign st
    end
  else Some st.

(** `while (bit < 256) CHECK(secp256k1_scalar_get_bits(&s, bit++, 1) == 0);` *)
Fixpoint high_bits_zero (n : nat) (s : secp256k1_unit) (bit : Z) : option unit :=
  match n with
  | O => Some tt
  | S n => b ← secp256k1_scalar_get_bits s bit 1; check (b =? 0) (high_bits_zero n s (bit + 1))
  end.

Definition secp256k1_ecmult_wnaf (len : Z) (a : secp256k1_unit) (w : Z) : option (list Z * Z) :=
  check ((0 <=? len) && (len <=? 256)) (check ((2 <=? w) && (w <=? 31)) (
  b ← secp256k1_scalar_get_bits a 255 1;
  let '(s, sign) := if b =? 0 then (a, 1) else (secp256k1_scalar_negate a, -1) in
  st ← wnaf_loop (Z.to_nat len) s len w sign (WnafState (replicate (Z.to_nat len) 0) 0 0 (-1));
  check (carry st =? 0) (
  _ ← high_bits_zero (Z.to_nat (256 - bit st)) s (bit st);
  Some (wnaf st, last_set_bit st + 1)))).

(** ** Digits *)

Lemma num_insert w l i x :
  0 <= w -> (i < length l)%nat -> num w (<[i:=x]> l) = num w l + 2 ^ (w * Z.of_nat i) * (x - l.[i]).
Proof.
  intros Hw. revert l. induction i as [|i IH]; intros [|y l] Hi; cbn [length] in Hi; try lia; cbn [insert list_insert num nth].
  - rewrite Z.mul_0_r. lia.
  - rewrite IH by lia. rewrite Nat2Z.inj_succ, Z.mul_succ_r, Z.add_comm with (m := w), Z.pow_add_r by lia. ring.
Qed.

Lemma num_zeros w n : num w (replicate n 0) = 0.
Proof. induction n as [|n IH]; [done|]. cbn [replicate num]. rewrite IH. lia. Qed.

Lemma nth_zeros n i : (replicate n 0).[i] = 0.
Proof. revert i. induction n as [|n IH]; intros [|i]; cbn; auto. Qed.

Lemma nth_insert_eq (l : list Z) i x : (i < length l)%nat -> (<[i:=x]> l).[i] = x.
Proof. revert i. induction l as [|y l IH]; intros [|i] Hi; cbn in *; try lia. apply IH. lia. Qed.
Lemma nth_insert_ne (l : list Z) i j x : i <> j -> (<[i:=x]> l).[j] = l.[j].
Proof. revert i j. induction l as [|y l IH]; intros [|i] [|j] Hij; cbn; try done. apply IH. congruence. Qed.

(** A digit of window w: zero, or odd and of absolute value below 2^(w-1). *)
Definition digit_ok (w d : Z) : Prop := d = 0 \/ (Z.odd d = true /\ - 2 ^ (w - 1) < d < 2 ^ (w - 1)).

(** The loop invariant: the digits so far spell the low [bit] bits of the
    value less the carry; above them there are only zeros. *)
Record wnaf_inv (v len w sign : Z) (st : wnaf_state) : Prop := {
  inv_bit : 0 <= bit st <= len;
  inv_len : length (wnaf st) = Z.to_nat len;
  inv_num : num 1 (wnaf st) = sign * (v mod 2 ^ bit st - carry st * 2 ^ bit st);
  inv_carry : carry st = 0 \/ (carry st = 1 /\ 1 <= bit st /\ (v / 2 ^ (bit st - 1)) mod 2 = 1);
  inv_digits : forall i, digit_ok w (wnaf st).[i];
  inv_last : -1 <= last_set_bit st < bit st;
  inv_zero : forall i, last_set_bit st < Z.of_nat i -> (wnaf st).[i] = 0
}.

Lemma mod_pow2_step v b n : 0 <= b -> 0 <= n -> v mod 2 ^ (b + n) = v mod 2 ^ b + 2 ^ b * ((v / 2 ^ b) mod 2 ^ n).
Proof. intros Hb Hn. rewrite Z.pow_add_r by lia. apply Z.rem_mul_r; lia. Qed.

(** What one window gives: the bits from [bit] plus the carry, an odd number
    below 2^now, and its split into a signed digit and the next carry. *)
Lemma window_word x now w c :
  1 <= now <= w -> 2 <= w -> (c = 0 \/ c = 1) -> x mod 2 <> c ->
  let word := x mod 2 ^ now + c in
  let c' := Z.land (Z.shiftr word (w - 1)) 1 in
  Z.odd word = true /\ digit_ok w (word - Z.shiftl c' w) /\
  (c' = 0 \/ (c' = 1 /\ now = w /\ (x / 2 ^ (w - 1)) mod 2 = 1)).
Proof.
  intros Hn Hw Hc Hx word c'.
  assert (Ex : x mod 2 ^ now = 2 * ((x / 2) mod 2 ^ (now - 1)) + x mod 2).
  { replace now with (1 + (now - 1)) at 1 by lia. rewrite mod_pow2_step by lia. change (2 ^ 1) with 2. lia. }
  set (h := (x / 2) mod 2 ^ (now - 1)) in *.
  assert (Hh : 0 <= h < 2 ^ (now - 1)) by (apply Z.mod_pos_bound; lia).
  assert (Ew : word = 2 * h + 1) by (unfold word; rewrite Ex; pose proof (Z.mod_pos_bound x 2); lia).
  assert (P : 2 ^ now = 2 * 2 ^ (now - 1)) by (rewrite <- Z.pow_succ_r by lia; f_equal; lia).
  assert (Q : 2 ^ w = 2 * 2 ^ (w - 1)) by (rewrite <- Z.pow_succ_r by lia; f_equal; lia).
  assert (R : 2 ^ (w - 1) = 2 * 2 ^ (w - 2)) by (rewrite <- Z.pow_succ_r by lia; f_equal; lia).
  assert (L : 2 ^ now <= 2 ^ w) by (apply Z.pow_le_mono_r; lia).
  assert (Ec : c' = word / 2 ^ (w - 1)).
  { unfold c'. rewrite Z.shiftr_div_pow2 by lia. change 1 with (2 ^ 1 - 1) at 2. rewrite land_ones_mod by lia.
    apply Z.mod_small. split; [apply Z.div_pos; lia|apply Z.div_lt_upper_bound; lia]. }
  assert (Hodd : Z.odd word = true).
  { rewrite Ew. rewrite Z.add_comm, Z.odd_add_mul_2. done. }
  split; [done|]. rewrite Z.shiftl_mul_pow2 by lia. clearbody c'. rewrite Ec.
  destruct (Z.lt_ge_cases word (2 ^ (w - 1))) as [S|S].
  - rewrite Z.div_small by lia. rewrite Z.mul_0_l, Z.sub_0_r. split; [|by left]. right. split; [done|lia].
  - assert (E1 : word / 2 ^ (w - 1) = 1) by (symmetry; apply Z.div_unique with (word - 2 ^ (w - 1)); lia).
    rewrite E1, Z.mul_1_l. split.
    + right. split; [rewrite Z.odd_sub, Hodd, Q, Z.odd_mul; reflexivity|]. lia.
    + right. split; [done|]. assert (now = w) as ->.
      { destruct (Z.eq_dec now w); [done|]. assert (2 ^ now <= 2 ^ (w - 1)) by (apply Z.pow_le_mono_r; lia). lia. }
      split; [done|]. replace (x mod 2 ^ w) with (x mod 2 ^ ((w - 1) + 1)) in Ex by (do 2 f_equal; lia).
      rewrite mod_pow2_step in Ex by lia. change (2 ^ 1) with 2 in Ex.
      pose proof (Z.mod_pos_bound (x / 2 ^ (w - 1)) 2 ltac:(lia)).
      pose proof (Z.mod_pos_bound x (2 ^ (w - 1)) ltac:(lia)). pose proof (Z.mod_pos_bound x 2 ltac:(lia)).
      destruct (Z.eq_dec ((x / 2 ^ (w - 1)) mod 2) 0) as [Z0|Z0]; [|lia]. rewrite Z0 in Ex. exfalso. lia.
Qed.

(** ** The loop *)

Section Loop.
Context (s : secp256k1_unit) (len w sign : Z).
Context (Hs : unit_ok s) (Hlen : 0 <= len <= 256) (Hw : 2 <= w <= 31) (Hsign : sign = 1 \/ sign = -1).

Let v := num 32 s.

Lemma get_bit_spec b : 0 <= b < 256 -> secp256k1_scalar_get_bits s b 1 = Some ((v / 2 ^ b) mod 2).
Proof.
  intros Hb. rewrite scalar_get_bits_spec; [done|done|lia|lia|].
  pose proof (Z.mod_pos_bound b 32 ltac:(lia)). lia.
Qed.

Lemma digit_sign d : digit_ok w d -> digit_ok w (sign * d).
Proof.
  intros [-> | [Ho Hb]]; [left; lia|]. right. split; [rewrite Z.odd_mul, Ho; destruct Hsign as [-> | ->]; done|].
  destruct Hsign as [-> | ->]; lia.
Qed.

Lemma wnaf_skip st :
  wnaf_inv v len w sign st -> bit st < len -> (v / 2 ^ bit st) mod 2 = carry st ->
  wnaf_inv v len w sign (WnafState (wnaf st) (bit st + 1) (carry st) (last_set_bit st)).
Proof.
  intros [Ib Il In Ic Id Ia Iz] Hb Hc. split; cbn [bit wnaf carry last_set_bit]; try done; try lia.
  - rewrite In, mod_pow2_step, Z.pow_add_r by lia. change (2 ^ 1) with 2. rewrite Hc. f_equal. ring.
  - destruct Ic as [Ic|(Ic & _ & _)]; [by left|]. right. split; [done|]. split; [lia|].
    replace (bit st + 1 - 1) with (bit st) by lia. lia.
Qed.

Lemma wnaf_take st :
  wnaf_inv v len w sign st -> bit st < len -> (v / 2 ^ bit st) mod 2 <> carry st ->
  let now := if len - bit st <? w then len - bit st else w in
  let word := (v / 2 ^ bit st) mod 2 ^ now + carry st in
  let carry' := Z.land (Z.shiftr word (w - 1)) 1 in
  bit st + now <= len /\
  wnaf_inv v len w sign (WnafState (<[Z.to_nat (bit st) := sign * (word - Z.shiftl carry' w)]> (wnaf st))
    (bit st + now) carry' (bit st)).
Proof.
  intros [Ib Il In Ic Id Ia Iz] Hb Hne now word carry'.
  assert (Hnow : 1 <= now <= w /\ bit st + now <= len) by (unfold now; destruct (Z.ltb_spec (len - bit st) w); lia).
  destruct (window_word (v / 2 ^ bit st) now w (carry st)) as (Ho & Hd & Hc'); [lia|lia|tauto|done|].
  fold word in Ho, Hd, Hc'. fold carry' in Hd, Hc'. split; [lia|]. clearbody now.
  assert (Hi : (Z.to_nat (bit st) < length (wnaf st))%nat) by lia.
  split; cbn [bit wnaf carry last_set_bit]; try lia.
  - by rewrite length_insert.
  - rewrite num_insert, In, Z.mul_1_l, Z2Nat.id by lia. rewrite Iz by lia.
    rewrite mod_pow2_step, Z.pow_add_r by lia. rewrite Z.shiftl_mul_pow2 by lia. unfold word.
    destruct Hc' as [-> | (-> & -> & _)]; ring.
  - destruct Hc' as [Hc' | (Hc' & -> & Hbit)]; [by left|]. right. split; [done|]. split; [lia|].
    rewrite Z.div_div, <- Z.pow_add_r in Hbit by lia. by replace (bit st + w - 1) with (bit st + (w - 1)) by lia.
  - intros i. destruct (Nat.eq_dec (Z.to_nat (bit st)) i) as [<-|Hne'].
    + rewrite nth_insert_eq by done. by apply digit_sign.
    + by rewrite nth_insert_ne.
  - intros i Hlt. rewrite nth_insert_ne by lia. apply Iz. lia.
Qed.

Lemma wnaf_step_ok st :
  wnaf_inv v len w sign st -> bit st < len ->
  exists st', wnaf_step s len w sign st = Some st' /\ wnaf_inv v len w sign st' /\ bit st < bit st'.
Proof.
  intros I Hb. pose proof (inv_bit _ _ _ _ _ I) as Ib. unfold wnaf_step.
  rewrite (bind_some _ _ _ (get_bit_spec (bit st) ltac:(lia))). cbn beta.
  destruct (Z.eqb_spec ((v / 2 ^ bit st) mod 2) (carry st)) as [E|E].
  - eexists. split; [reflexivity|]. split; [by apply wnaf_skip|]. cbn [bit]. lia.
  - destruct (wnaf_take st I Hb E) as [Hn I']. cbn zeta in *.
    set (now := if len - bit st <? w then len - bit st else w) in *.
    assert (Hnow : 1 <= now <= w) by (unfold now; destruct (Z.ltb_spec (len - bit st) w); lia).
    destruct (Z.eq_dec now 32) as [->|]; [lia|].
    rewrite (bind_some _ _ _ (scalar_get_bits_var_spec s (bit st) now Hs ltac:(lia) ltac:(lia) ltac:(lia))). cbn beta.
    eexists. split; [reflexivity|]. split; [exact I'|]. cbn [bit]. lia.
Qed.

Lemma wnaf_loop_ok fuel st :
  wnaf_inv v len w sign st -> len - bit st <= Z.of_nat fuel ->
  exists st', wnaf_loop fuel s len w sign st = Some st' /\ wnaf_inv v len w sign st' /\ bit st' = len.
Proof.
  revert st. induction fuel as [|fuel IH]; intros st I Hf; cbn [wnaf_loop];
    pose proof (inv_bit _ _ _ _ _ I) as Ib; destruct (Z.ltb_spec (bit st) len) as [Hb|Hb].
  - lia.
  - exists st. split; [done|]. split; [done|lia].
  - destruct (wnaf_step_ok st I Hb) as (st' & E & I' & Hlt). bind_step E. apply IH; [done|lia].
  - exists st. split; [done|]. split; [done|lia].
Qed.

Lemma high_bits_zero_ok n b :
  0 <= b -> b + Z.of_nat n <= 256 -> v < 2 ^ b -> high_bits_zero n s b = Some tt.
Proof.
  revert b. induction n as [|n IH]; intros b Hb Hn Hv; cbn [high_bits_zero]; [done|].
  pose proof (unit_bound s Hs) as B. fold v in B.
  rewrite (bind_some _ _ _ (get_bit_spec b ltac:(lia))). cbn beta.
  rewrite Z.div_small by lia. rewrite check_true by done. apply IH; [lia|lia|].
  rewrite Z.pow_add_r by lia. lia.
Qed.

Lemma wnaf_init : wnaf_inv v len w sign (WnafState (replicate (Z.to_nat len) 0) 0 0 (-1)).
Proof.
  split; cbn [bit wnaf carry last_set_bit]; try lia.
  - apply length_replicate.
  - rewrite num_zeros, Z.pow_0_r, Z.mod_1_r. lia.
  - intros i. left. apply nth_zeros.
  - intros i _. apply nth_zeros.
Qed.

(** At the end, a value below 2^(len-1) leaves no carry and is spelt exactly. *)
Lemma wnaf_end st :
  1 <= len -> v < 2 ^ (len - 1) -> wnaf_inv v len w sign st -> bit st = len ->
  carry st = 0 /\ num 1 (wnaf st) = sign * v.
Proof.
  intros Hl Hv [Ib Il In Ic Id Ia Iz] E. pose proof (unit_bound s Hs) as B. fold v in B. rewrite E in *.
  assert (C : carry st = 0).
  { destruct Ic as [Ic|(_ & _ & Ic)]; [done|]. rewrite Z.div_small in Ic by lia. discriminate. }
  split; [done|]. rewrite In, C, Z.mod_small; [lia|]. split; [lia|].
  assert (2 ^ (len - 1) <= 2 ^ len) by (apply Z.pow_le_mono_r; lia). lia.
Qed.

End Loop.

(** ** The whole function *)

Lemma top_bit_clear a : unit_ok a -> num 32 a < 2 ^ 255 -> (num 32 a / 2 ^ 255) mod 2 = 0.
Proof. intros Ha Hb. pose proof (unit_bound a Ha). by rewrite Z.div_small by lia. Qed.

Lemma top_bit_set a : unit_ok a -> 2 ^ 255 <= num 32 a -> (num 32 a / 2 ^ 255) mod 2 = 1.
Proof.
  intros Ha Hb. pose proof (unit_bound a Ha).
  replace (num 32 a / 2 ^ 255) with 1 by (apply Z.div_unique with (num 32 a - 2 ^ 255); lia). done.
Qed.

(** The multiplier without its sign: what the loop runs on. *)
Definition absolute (a : secp256k1_unit) : Z :=
  if num 32 a <? 2 ^ 255 then num 32 a else order - num 32 a.

Lemma wnaf_signed a len w :
  scalar_ok a -> 1 <= len <= 256 -> 2 <= w <= 30 -> absolute a < 2 ^ (len - 1) ->
  exists digits bits, secp256k1_ecmult_wnaf len a w = Some (digits, bits) /\
    length digits = Z.to_nat len /\ 0 <= bits <= len /\
    num 1 digits mod order = num 32 a /\ (forall i, digit_ok w digits.[i]) /\
    (forall i, bits <= Z.of_nat i -> digits.[i] = 0).
Proof.
  intros [Ha Hn] Hlen Hw Hm. unfold secp256k1_ecmult_wnaf. pose proof order_val as O.
  pose proof (unit_bound a Ha) as B.
  rewrite check_true by (apply andb_true_iff; rewrite !Z.leb_le; lia).
  rewrite check_true by (apply andb_true_iff; rewrite !Z.leb_le; lia).
  rewrite (bind_some _ _ _ (get_bit_spec a Ha 255 ltac:(lia))). cbn beta.
  assert (S : exists s sign, (if (num 32 a / 2 ^ 255) mod 2 =? 0 then (a, 1) else (secp256k1_scalar_negate a, -1)) = (s, sign)
    /\ unit_ok s /\ (sign = 1 \/ sign = -1) /\ num 32 s = absolute a /\ (sign * num 32 s) mod order = num 32 a).
  { unfold absolute. destruct (Z.ltb_spec (num 32 a) (2 ^ 255)) as [L|L].
    - rewrite top_bit_clear by done. exists a, 1. repeat (split; [done || by left|]).
      rewrite Z.mul_1_l. apply Z.mod_small. lia.
    - rewrite top_bit_set by done. destruct (scalar_negate_spec a (conj Ha Hn)) as [[Hs _] Vs].
      exists (secp256k1_scalar_negate a), (-1). split; [done|]. split; [done|]. split; [by right|].
      assert (E : (- num 32 a) mod order = order - num 32 a) by (symmetry; apply Z.mod_unique_pos with (-1); lia).
      rewrite Vs, E. split; [done|]. symmetry. apply Z.mod_unique_pos with (-1); lia. }
  destruct S as (s & sign & -> & Hs & Hsign & Vs & Vm). rewrite <- Vs in Hm.
  destruct (wnaf_loop_ok s len w sign Hs ltac:(lia) ltac:(lia) Hsign (Z.to_nat len) _ (wnaf_init s len w sign ltac:(lia)))
    as (st & E & I & Eb); [cbn [bit]; lia|].
  bind_step E. destruct (wnaf_end s len w sign Hs ltac:(lia) st ltac:(lia) Hm I Eb) as [Hc Hv].
  rewrite check_true by (apply Z.eqb_eq; done).
  assert (2 ^ (len - 1) <= 2 ^ len) by (apply Z.pow_le_mono_r; lia).
  rewrite (bind_some _ _ _ (high_bits_zero_ok s Hs (Z.to_nat (256 - bit st)) (bit st) ltac:(lia) ltac:(lia) ltac:(rewrite Eb; lia))).
  cbn beta. eexists _, _. split; [reflexivity|]. destruct I as [Ib Il In Ic Id Ia Iz].
  split; [done|]. split; [lia|]. split; [by rewrite Hv|]. split; [done|].
  intros i Hi. apply Iz. lia.
Qed.

Lemma short_absolute a len : scalar_ok a -> short a -> 129 <= len -> absolute a < 2 ^ (len - 1).
Proof.
  intros [Ha Hn] Hs Hl. pose proof order_val as O. pose proof (unit_bound a Ha).
  assert (2 ^ 128 <= 2 ^ (len - 1)) by (apply Z.pow_le_mono_r; lia).
  unfold absolute, short in *. destruct (Z.ltb_spec (num 32 a) (2 ^ 255)); lia.
Qed.
