(* ===== verification/SigParse.v ===== *)
(** Signatures of key/pubkey.cpp: the 64-byte and 65-byte internal forms, the
    compact parser, the lax DER parser [ecdsa_signature_parse_der_lax], the
    normalisation to a low S and [CheckLowS].

    The lax parser runs on bytes with explicit reads: a read outside the input
    is [None], and [der_lax_total] shows that none happens.  [der_lax_strict]
    relates it to the strict DER encoding of Keys.v, which the script code
    demands before it calls the verifier. *)
From S2P Require Import Prelude Keys Limbs Scalar ScalarProps.

Local Open Scope Z_scope.

(** ** Internal forms *)

(** `data[64]`: the words of r, then those of s, in memory order (the build
    targets are little-endian). *)
Definition secp256k1_signature := bytes.

Definition unit_bytes (a : secp256k1_unit) : bytes := mjoin (le_bytes 4 <$> a).

(** memcpy of 32 bytes into a unit. *)
Definition unit_at (data : bytes) (k : nat) : secp256k1_unit :=
  (fun i => le_value (take 4 (drop (k + 4 * i) data))) <$> seq 0 8.

Definition secp256k1_ecdsa_signature_save (r s : secp256k1_unit) : secp256k1_signature := unit_bytes r ++ unit_bytes s.
Definition secp256k1_ecdsa_signature_load (sig : secp256k1_signature) : secp256k1_unit * secp256k1_unit :=
  (unit_at sig 0, unit_at sig 32).

Definition zero_signature : secp256k1_signature := replicate 64 0.

Definition secp256k1_ecdsa_signature_parse_compact (input64 : bytes) : bool * secp256k1_signature :=
  let '(r, overflow) := secp256k1_scalar_set_be32 (take 32 input64) in
  let ret := negb overflow in
  let '(s, overflow) := secp256k1_scalar_set_be32 (take 32 (drop 32 input64)) in
  let ret := ret && negb overflow in
  if ret then (true, secp256k1_ecdsa_signature_save r s) else (false, zero_signature).

(** The recoverable form adds the recovery id as byte 64. *)
Definition secp256k1_ecdsa_recoverable_signature_save (r s : secp256k1_unit) (recid : Z) : bytes :=
  unit_bytes r ++ unit_bytes s ++ [u8 recid].
Definition secp256k1_ecdsa_recoverable_signature_load (sig : bytes) : secp256k1_unit * secp256k1_unit * Z :=
  (unit_at sig 0, unit_at sig 32, sig.[64]).

(** ARG_CHECK leaves [sig] untouched and returns 0; otherwise it is written. *)
Definition secp256k1_ecdsa_recoverable_signature_parse_compact (sig input64 : bytes) (recid : Z) : bool * bytes :=
  if negb ((0 <=? recid) && (recid <=? 3)) then (false, sig)
  else
    let '(r, overflow) := secp256k1_scalar_set_be32 (take 32 input64) in
    let ret := negb overflow in
    let '(s, overflow) := secp256k1_scalar_set_be32 (take 32 (drop 32 input64)) in
    let ret := ret && negb overflow in
    if ret then (true, secp256k1_ecdsa_recoverable_signature_save r s recid) else (false, replicate 65 0).

(** ** The lax DER parser *)

Section DerLax.
Context (input : bytes).

Let inputlen : Z := zlen input.

(** input[pos] *)
Definition read (pos : Z) : option Z := input !! Z.to_nat pos.

(** `while (lenbyte > 0 && input[pos] == 0) { ++pos; --lenbyte; }` *)
Fixpoint skip_zero_bytes (lenbyte : nat) (pos : Z) : option (nat * Z) :=
  match lenbyte with
  | O => Some (O, pos)
  | S n => b ← read pos; if b =? 0 then skip_zero_bytes n (pos + 1) else Some (lenbyte, pos)
  end.

(** `while (lenbyte > 0) { len = (len << 8) + input[pos]; ++pos; --lenbyte; }` *)
Fixpoint read_length (lenbyte : nat) (len pos : Z) : option (Z * Z) :=
  match lenbyte with
  | O => Some (len, pos)
  | S n => b ← read pos; read_length n (u64 (Z.shiftl len 8 + b)) (pos + 1)
  end.

(** One integer: tag byte and length, the same code for R and for S.  The
    inner option is the parser's `return 0`; otherwise the length and the
    position of the first byte of the value. *)
Definition parse_integer (pos : Z) : option (option (Z * Z)) :=
  if pos =? inputlen then Some None else
  tag ← read pos;
  if negb (tag =? 0x02) then Some None else
  let pos := pos + 1 in
  if pos =? inputlen then Some None else
  lenbyte ← read pos;
  let pos := pos + 1 in
  r ← (if negb (Z.land lenbyte 0x80 =? 0) then
         let lenbyte := lenbyte - 0x80 in
         if inputlen - pos <? lenbyte then Some None else
         '(lenbyte, pos) ← skip_zero_bytes (Z.to_nat lenbyte) pos;
         if 4 <=? Z.of_nat lenbyte then Some None else
         '(len, pos) ← read_length lenbyte 0 pos;
         Some (Some (len, pos))
       else Some (Some (lenbyte, pos)));
  match r with
  | None => Some None
  | Some (len, pos) => if inputlen - pos <? len then Some None else Some (Some (len, pos))
  end.

(** The sequence tag and its length bytes: the position after them. *)
Definition parse_sequence : option (option Z) :=
  if 0 =? inputlen then Some None else
  tag ← read 0;
  if negb (tag =? 0x30) then Some None else
  if 1 =? inputlen then Some None else
  lenbyte ← read 1;
  if negb (Z.land lenbyte 0x80 =? 0) then
    let lenbyte := lenbyte - 0x80 in
    if inputlen - 2 <? lenbyte then Some None else Some (Some (2 + lenbyte))
  else Some (Some 2).

(** One value: leading zeroes skipped, at most 32 bytes, right-aligned in a
    field of 32; None inside means overflow. *)
Definition copy_value (len pos : Z) : option (option bytes) :=
  '(n, pos) ← skip_zero_bytes (Z.to_nat len) pos;
  if 32 <? Z.of_nat n then Some None
  else Some (Some (replicate (32 - n) 0 ++ take n (drop (Z.to_nat pos) input))).

(** The result 0 or 1 and the signature written. *)
Definition ecdsa_signature_parse_der_lax : option (bool * secp256k1_signature) :=
  p ← parse_sequence;
  match p with
  | None => Some (false, zero_signature)
  | Some pos =>
  i ← parse_integer pos;
  match i with
  | None => Some (false, zero_signature)
  | Some (rlen, rpos) =>
  i ← parse_integer (rpos + rlen);
  match i with
  | None => Some (false, zero_signature)
  | Some (slen, spos) =>
  r ← copy_value rlen rpos;
  s ← copy_value slen spos;
  Some (match r, s with
        | Some r, Some s =>
            let '(ok, sig) := secp256k1_ecdsa_signature_parse_compact (r ++ s) in
            (true, if ok then sig else zero_signature)
        | _, _ => (true, zero_signature)
        end)
  end end end.

End DerLax.

(** ** Low S *)

Definition secp256k1_ecdsa_signature_is_high (sigin : secp256k1_signature) : bool :=
  secp256k1_scalar_is_high (snd (secp256k1_ecdsa_signature_load sigin)).

(** The two-argument form: the result, and the signature written out. *)
Definition secp256k1_ecdsa_signature_normalize (sigin : secp256k1_signature) : bool * secp256k1_signature :=
  let '(r, s) := secp256k1_ecdsa_signature_load sigin in
  let ret := secp256k1_scalar_is_high s in
  let s := if ret then secp256k1_scalar_negate s else s in
  (ret, secp256k1_ecdsa_signature_save r s).

Definition CheckLowS (vchSig : bytes) : option bool :=
  '(ret, sig) ← ecdsa_signature_parse_der_lax vchSig;
  if negb ret then Some false else Some (negb (secp256k1_ecdsa_signature_is_high sig)).

(** ** Round trip of the internal forms *)

Lemma split_num a : unit_ok a -> split 32 8 (num 32 a) = a.
Proof.
  intros [Hl Hw]. apply (num_inj 32); [lia|apply split_limbs; lia|done|by rewrite split_length|].
  pose proof (unit_bound a (conj Hl Hw)). rewrite num_split; [done|lia|]. change (32 * Z.of_nat 8) with 256. lia.
Qed.

Lemma unit_bytes_length a : unit_ok a -> length (unit_bytes a) = 32%nat.
Proof. intros Ha. words_of a. reflexivity. Qed.

Lemma le_bytes_4 x : exists a b c d, le_bytes 4 x = [a; b; c; d].
Proof. cbn. by eexists _, _, _, _. Qed.

Lemma unit_at_bytes pre a post : unit_ok a -> unit_at (pre ++ unit_bytes a ++ post) (length pre) = a.
Proof.
  intros Ha. unfold unit_at, unit_bytes. cbn [seq fmap list_fmap].
  assert (D : forall j l, drop (length pre + j) (pre ++ l) = drop j l).
  { intros j l. rewrite <- drop_drop. by rewrite drop_app_length. }
  rewrite !D. words_of a. cbn [fmap list_fmap mjoin list_join].
  assert (W : forall x, 0 <= x < 4294967296 -> limb 32 x) by (unfold limb; lia).
  destruct (le_bytes_4 a0) as (? & ? & ? & ? & E0). destruct (le_bytes_4 a1) as (? & ? & ? & ? & E1).
  destruct (le_bytes_4 a2) as (? & ? & ? & ? & E2). destruct (le_bytes_4 a3) as (? & ? & ? & ? & E3).
  destruct (le_bytes_4 a4) as (? & ? & ? & ? & E4). destruct (le_bytes_4 a5) as (? & ? & ? & ? & E5).
  destruct (le_bytes_4 a6) as (? & ? & ? & ? & E6). destruct (le_bytes_4 a7) as (? & ? & ? & ? & E7).
  rewrite E0, E1, E2, E3, E4, E5, E6, E7. cbn [app take drop Nat.mul Nat.add].
  rewrite ?take_0, <- E0, <- E1, <- E2, <- E3, <- E4, <- E5, <- E6, <- E7.
  rewrite !le_value_le_bytes by (by apply W). reflexivity.
Qed.

Lemma signature_load_save r s :
  unit_ok r -> unit_ok s -> secp256k1_ecdsa_signature_load (secp256k1_ecdsa_signature_save r s) = (r, s).
Proof.
  intros Hr Hs. unfold secp256k1_ecdsa_signature_load, secp256k1_ecdsa_signature_save. f_equal.
  - exact (unit_at_bytes [] r (unit_bytes s) Hr).
  - pose proof (unit_at_bytes (unit_bytes r) s [] Hs) as E. by rewrite unit_bytes_length, app_nil_r in E.
Qed.

Lemma zero_signature_load : secp256k1_ecdsa_signature_load zero_signature = (replicate 8 0, replicate 8 0).
Proof. reflexivity. Qed.

(** ** Total, and in bounds *)

Section Total.
Context (input : bytes) (Hin : bytes_ok input).

Lemma read_ok pos : 0 <= pos < zlen input -> exists b, read input pos = Some b /\ is_byte b.
Proof.
  intros Hp. unfold read, zlen in *. destruct (lookup_lt_is_Some_2 input (Z.to_nat pos)) as [b Hb]; [lia|].
  exists b. split; [done|]. by apply (Forall_lookup_1 _ _ _ _ Hin Hb).
Qed.

(** Skipping zeroes keeps the end and the value of the field. *)
Lemma skip_zero_bytes_ok n pos :
  0 <= pos -> pos + Z.of_nat n <= zlen input ->
  exists n' pos', skip_zero_bytes input n pos = Some (n', pos') /\ (n' <= n)%nat /\
    pos' + Z.of_nat n' = pos + Z.of_nat n /\
    be_value (take n' (drop (Z.to_nat pos') input)) = be_value (take n (drop (Z.to_nat pos) input)) /\
    (n' = 0%nat \/ 256 ^ (Z.of_nat n' - 1) <= be_value (take n' (drop (Z.to_nat pos') input))).
Proof.
  revert pos. induction n as [|n IH]; intros pos Hp Hn; cbn [skip_zero_bytes].
  - exists 0%nat, pos. repeat (split; [done || lia|]). by left.
  - destruct (read_ok pos ltac:(lia)) as (b & E & Hb). rewrite (bind_some _ _ _ E). cbn beta.
    assert (Ed : drop (Z.to_nat pos) input = b :: drop (Z.to_nat (pos + 1)) input).
    { replace (Z.to_nat (pos + 1)) with (S (Z.to_nat pos)) by lia. by apply drop_S. }
    assert (El : zlen (take n (drop (Z.to_nat (pos + 1)) input)) = Z.of_nat n).
    { unfold zlen in *. rewrite length_take, length_drop. lia. }
    assert (Ok : bytes_ok (take n (drop (Z.to_nat (pos + 1)) input))) by (apply Forall_take, Forall_drop, Hin).
    pose proof (be_value_bound _ Ok) as B. rewrite El in B.
    destruct (Z.eqb_spec b 0) as [->|Hne].
    + destruct (IH (pos + 1) ltac:(lia) ltac:(lia)) as (n' & pos' & Es & Hle & Hend & Hval & Hpos).
      exists n', pos'. split; [done|]. split; [lia|]. split; [lia|]. split; [|done].
      rewrite Hval, Ed. cbn [take]. rewrite be_value_cons. lia.
    + exists (S n), pos. split; [done|]. split; [lia|]. split; [lia|]. split; [done|]. right.
      rewrite Ed. cbn [take]. rewrite be_value_cons, El. unfold is_byte in Hb.
      replace (Z.of_nat (S n) - 1) with (Z.of_nat n) by lia. nia.
Qed.

Lemma read_length_ok n len pos :
  0 <= pos -> pos + Z.of_nat n <= zlen input -> 0 <= len ->
  exists len', read_length input n len pos = Some (len', pos + Z.of_nat n) /\ 0 <= len'.
Proof.
  revert len pos. induction n as [|n IH]; intros len pos Hp Hn Hl; cbn [read_length].
  - exists len. split; [by rewrite Z.add_0_r|done].
  - destruct (read_ok pos ltac:(lia)) as (b & E & Hb). rewrite (bind_some _ _ _ E). cbn beta.
    destruct (IH (u64 (Z.shiftl len 8 + b)) (pos + 1)) as (len' & Er & Hr); [lia|lia|apply Z.mod_pos_bound; lia|].
    exists len'. split; [|done]. rewrite Er. do 2 f_equal. lia.
Qed.

Lemma parse_integer_ok pos :
  0 <= pos <= zlen input ->
  parse_integer input pos = Some None \/
  exists len pos', parse_integer input pos = Some (Some (len, pos')) /\ 0 <= len /\ 0 <= pos' /\ pos' + len <= zlen input.
Proof.
  intros Hp. unfold parse_integer.
  destruct (Z.eqb_spec pos (zlen input)); [by left|].
  destruct (read_ok pos ltac:(lia)) as (tag & E & _). rewrite (bind_some _ _ _ E). cbn beta. clear E.
  destruct (negb (tag =? 2)); [by left|].
  destruct (Z.eqb_spec (pos + 1) (zlen input)); [by left|].
  destruct (read_ok (pos + 1) ltac:(lia)) as (lenbyte & E & Hb). rewrite (bind_some _ _ _ E). cbn beta. clear E.
  unfold is_byte in Hb. rewrite land_128_testbit by done.
  destruct (Z.ltb_spec lenbyte 128) as [L|L]; cbn [negb].
  - rewrite (bind_some _ _ _ eq_refl). cbn beta iota.
    destruct (Z.ltb_spec (zlen input - (pos + 1 + 1)) lenbyte); [by left|]. right.
    eexists _, _. split; [reflexivity|]. lia.
  - destruct (Z.ltb_spec (zlen input - (pos + 1 + 1)) (lenbyte - 128)) as [S|S]; [by left|].
    destruct (skip_zero_bytes_ok (Z.to_nat (lenbyte - 128)) (pos + 1 + 1)) as (n' & pos' & -> & Hle & Hend & _); [lia|lia|].
    rewrite (bind_some _ _ _ eq_refl). cbn beta iota.
    destruct (4 <=? Z.of_nat n'); [by left|].
    destruct (read_length_ok n' 0 pos') as (len' & -> & Hl); [lia|lia|lia|].
    rewrite !(bind_some _ _ _ eq_refl). cbn beta iota.
    destruct (Z.ltb_spec (zlen input - (pos' + Z.of_nat n')) len'); [by left|]. right.
    eexists _, _. split; [reflexivity|]. lia.
Qed.

Lemma parse_sequence_ok :
  parse_sequence input = Some None \/
  exists pos, parse_sequence input = Some (Some pos) /\ 0 <= pos <= zlen input.
Proof.
  unfold parse_sequence. pose proof (zlen_nonneg input).
  destruct (Z.eqb_spec 0 (zlen input)); [by left|].
  destruct (read_ok 0 ltac:(lia)) as (tag & E & _). rewrite (bind_some _ _ _ E). cbn beta. clear E.
  destruct (negb (tag =? 0x30)); [by left|].
  destruct (Z.eqb_spec 1 (zlen input)); [by left|].
  destruct (read_ok 1 ltac:(lia)) as (lenbyte & E & Hb). rewrite (bind_some _ _ _ E). cbn beta. clear E.
  unfold is_byte in Hb. rewrite land_128_testbit by done.
  destruct (Z.ltb_spec lenbyte 128) as [L|L]; cbn [negb].
  - right. exists 2. split; [done|lia].
  - destruct (Z.ltb_spec (zlen input - 2) (lenbyte - 128)); [by left|]. right.
    eexists. split; [reflexivity|]. lia.
Qed.

(** A field copied out: 32 bytes of the same value, unless it needs more. *)
Lemma copy_value_ok len pos :
  0 <= pos -> 0 <= len -> pos + len <= zlen input ->
  exists r, copy_value input len pos = Some r /\
    let v := be_value (take (Z.to_nat len) (drop (Z.to_nat pos) input)) in
    match r with
    | None => 2 ^ 256 <= v
    | Some b => length b = 32%nat /\ bytes_ok b /\ be_value b = v
    end.
Proof.
  intros Hp Hl He. unfold copy_value.
  destruct (skip_zero_bytes_ok (Z.to_nat len) pos) as (n & pos' & -> & Hle & Hend & Hval & Hpos); [lia|lia|].
  rewrite (bind_some _ _ _ eq_refl). cbn beta iota. cbn zeta. rewrite <- Hval.
  destruct (Z.ltb_spec 32 (Z.of_nat n)) as [L|L].
  - exists None. split; [done|]. destruct Hpos as [->|Hpos]; [lia|].
    assert (256 ^ 32 <= 256 ^ (Z.of_nat n - 1)) by (apply Z.pow_le_mono_r; lia).
    change (2 ^ 256) with (256 ^ 32). lia.
  - eexists (Some _). split; [reflexivity|]. split; [|split].
    + rewrite length_app, length_replicate, length_take, length_drop. unfold zlen in *. lia.
    + apply bytes_ok_app. split; [apply Forall_replicate; unfold is_byte; lia|]. by apply Forall_take, Forall_drop.
    + rewrite be_value_app, be_value_zeros. lia.
Qed.

End Total.

(** What the parser writes for the values R and S of the two integers. *)
Definition signature_of (R S : Z) : secp256k1_signature :=
  if (R <? order) && (S <? order)
  then secp256k1_ecdsa_signature_save (split 32 8 R) (split 32 8 S)
  else zero_signature.

Lemma set_be32_split b :
  bytes_ok b -> length b = 32%nat ->
  let '(r, over) := secp256k1_scalar_set_be32 b in
  over = (order <=? be_value b) /\ (over = false -> r = split 32 8 (be_value b)).
Proof.
  intros Hb Hl. pose proof (scalar_set_be32_spec b Hb Hl) as H. destruct (secp256k1_scalar_set_be32 b) as [r over].
  destruct H as ([Hr _] & Hv & ->). split; [done|]. intros Ho%Z.leb_gt.
  pose proof (be_value_bound b Hb). rewrite <- (split_num r Hr), Hv, Z.mod_small; [done|lia].
Qed.

Lemma parse_compact_spec r s :
  bytes_ok r -> bytes_ok s -> length r = 32%nat -> length s = 32%nat ->
  secp256k1_ecdsa_signature_parse_compact (r ++ s) =
  ((be_value r <? order) && (be_value s <? order), signature_of (be_value r) (be_value s)).
Proof.
  intros Hr Hs Lr Ls. unfold secp256k1_ecdsa_signature_parse_compact, signature_of.
  rewrite take_app_length' by done. rewrite drop_app_length' by done. rewrite (take_ge s) by lia.
  pose proof (set_be32_split r Hr Lr) as Er. pose proof (set_be32_split s Hs Ls) as Es.
  destruct (secp256k1_scalar_set_be32 r) as [r' o1]. destruct (secp256k1_scalar_set_be32 s) as [s' o2].
  destruct Er as [-> Er]. destruct Es as [-> Es]. rewrite !Z.leb_antisym, !negb_involutive in *.
  destruct (be_value r <? order), (be_value s <? order); cbn [andb negb] in *; try done.
  by rewrite Er, Es.
Qed.

(** The parser's result, from the positions of the two integers. *)
Lemma der_lax_fields input pos rlen rpos slen spos :
  bytes_ok input -> parse_sequence input = Some (Some pos) -> 0 <= pos <= zlen input ->
  parse_integer input pos = Some (Some (rlen, rpos)) ->
  parse_integer input (rpos + rlen) = Some (Some (slen, spos)) ->
  ecdsa_signature_parse_der_lax input =
  Some (true, signature_of (be_value (take (Z.to_nat rlen) (drop (Z.to_nat rpos) input)))
                           (be_value (take (Z.to_nat slen) (drop (Z.to_nat spos) input)))).
Proof.
  intros Hin E0 Hp E1 E2. unfold ecdsa_signature_parse_der_lax.
  rewrite (bind_some _ _ _ E0). cbn beta iota. rewrite (bind_some _ _ _ E1). cbn beta iota.
  rewrite (bind_some _ _ _ E2). cbn beta iota.
  destruct (parse_integer_ok input Hin pos Hp) as [H|(l1 & p1 & H & Hl1 & Hp1 & He1)]; rewrite E1 in H; [discriminate|].
  injection H as -> ->.
  destruct (parse_integer_ok input Hin (p1 + l1) ltac:(lia)) as [H|(l2 & p2 & H & Hl2 & Hp2 & He2)]; rewrite E2 in H; [discriminate|].
  injection H as -> ->.
  destruct (copy_value_ok input Hin l1 p1) as (r & -> & Hr); [lia..|].
  destruct (copy_value_ok input Hin l2 p2) as (s & -> & Hs); [lia..|].
  rewrite !(bind_some _ _ _ eq_refl). cbn beta. f_equal. cbn zeta in *.
  set (R := be_value (take _ (drop (Z.to_nat p1) input))) in *. set (S := be_value (take _ (drop (Z.to_nat p2) input))) in *.
  pose proof order_val as O.
  destruct r as [r|], s as [s|].
  - destruct Hr as (Lr & Br & Vr). destruct Hs as (Ls & Bs & Vs). rewrite parse_compact_spec by done. rewrite Vr, Vs.
    unfold signature_of. by destruct ((R <? order) && (S <? order)).
  - unfold signature_of. rewrite (proj2 (Z.ltb_ge S order)) by lia. by rewrite andb_false_r.
  - unfold signature_of. by rewrite (proj2 (Z.ltb_ge R order)) by lia.
  - unfold signature_of. by rewrite (proj2 (Z.ltb_ge R order)) by lia.
Qed.

(** Whatever the bytes, the parser answers, without reading outside them. *)
Lemma der_lax_answers input :
  bytes_ok input ->
  ecdsa_signature_parse_der_lax input = Some (false, zero_signature) \/
  exists R S, ecdsa_signature_parse_der_lax input = Some (true, signature_of R S) /\ 0 <= R /\ 0 <= S.
Proof.
  intros Hin. destruct (parse_sequence_ok input Hin) as [E0|(pos & E0 & Hp)].
  { left. unfold ecdsa_signature_parse_der_lax. by rewrite (bind_some _ _ _ E0). }
  destruct (parse_integer_ok input Hin pos Hp) as [E1|(rlen & rpos & E1 & Hl1 & Hp1 & He1)].
  { left. unfold ecdsa_signature_parse_der_lax. rewrite (bind_some _ _ _ E0). cbn beta iota. by rewrite (bind_some _ _ _ E1). }
  destruct (parse_integer_ok input Hin (rpos + rlen) ltac:(lia)) as [E2|(slen & spos & E2 & _)].
  { left. unfold ecdsa_signature_parse_der_lax. rewrite (bind_some _ _ _ E0). cbn beta iota.
    rewrite (bind_some _ _ _ E1). cbn beta iota. by rewrite (bind_some _ _ _ E2). }
  right. eexists _, _. split; [by apply (der_lax_fields input pos rlen rpos slen spos)|].
  split; apply be_value_bound; by apply Forall_take, Forall_drop.
Qed.

(** ** On strict DER *)

Lemma der_read_app pre x l : read (pre ++ x :: l) (zlen pre) = Some x.
Proof.
  unfold read, zlen. rewrite Nat2Z.id. rewrite lookup_app_r by lia. by rewrite Nat.sub_diag.
Qed.

Lemma parse_short_integer pre v post :
  zlen v < 128 ->
  parse_integer (pre ++ 0x02 :: zlen v :: v ++ post) (zlen pre) = Some (Some (zlen v, zlen pre + 2)).
Proof.
  intros Hv. set (input := pre ++ _). pose proof (zlen_nonneg v). pose proof (zlen_nonneg pre). pose proof (zlen_nonneg post).
  assert (Hlen : zlen input = zlen pre + 2 + zlen v + zlen post).
  { unfold input. rewrite zlen_app, !zlen_cons, zlen_app. lia. }
  assert (R1 : read input (zlen pre) = Some 0x02) by apply der_read_app.
  assert (R2 : read input (zlen pre + 1) = Some (zlen v)).
  { unfold input. change (pre ++ 2 :: zlen v :: v ++ post) with (pre ++ [2] ++ zlen v :: v ++ post).
    rewrite app_assoc. replace (zlen pre + 1) with (zlen (pre ++ [2])) by (rewrite zlen_app; done). apply der_read_app. }
  unfold parse_integer. rewrite (proj2 (Z.eqb_neq (zlen pre) _)) by lia.
  rewrite (bind_some _ _ _ R1). cbn beta. change (negb (2 =? 2)) with false. cbv iota.
  rewrite (proj2 (Z.eqb_neq (zlen pre + 1) _)) by lia. rewrite (bind_some _ _ _ R2). cbn beta.
  rewrite land_128_testbit by (unfold is_byte; lia). rewrite (proj2 (Z.ltb_lt _ _)) by lia. cbn [negb].
  rewrite (bind_some _ _ _ eq_refl). cbn beta iota. rewrite (proj2 (Z.ltb_ge _ _)) by lia.
  do 3 f_equal. lia.
Qed.

Lemma field_bytes (pre v post : bytes) : take (Z.to_nat (zlen v)) (drop (Z.to_nat (zlen pre)) (pre ++ v ++ post)) = v.
Proof.
  unfold zlen. rewrite !Nat2Z.id. rewrite drop_app_length. by rewrite take_app_length.
Qed.

Lemma parse_strict_sequence l rest : 0 <= l < 128 -> parse_sequence (0x30 :: l :: rest) = Some (Some 2).
Proof.
  intros Hl. unfold parse_sequence. pose proof (zlen_nonneg rest).
  rewrite !zlen_cons. rewrite (proj2 (Z.eqb_neq 0 _)), (proj2 (Z.eqb_neq 1 _)) by lia.
  cbn [read Z.to_nat lookup list_lookup mbind option_bind]. change (read (48 :: l :: rest) 0) with (Some 48).
  change (read (48 :: l :: rest) 1) with (Some l). rewrite !(bind_some _ _ _ eq_refl). cbn beta.
  change (negb (48 =? 48)) with false. cbv iota.
  rewrite land_128_testbit by (unfold is_byte; lia). by rewrite (proj2 (Z.ltb_lt _ _)) by lia.
Qed.

(** Strict DER is read as it was written. *)
Lemma der_lax_encode r s tl :
  bytes_ok (SigEncoding.der_encode r s tl) -> zlen r + zlen s + 4 < 128 ->
  ecdsa_signature_parse_der_lax (SigEncoding.der_encode r s tl) = Some (true, signature_of (be_value r) (be_value s)).
Proof.
  intros Hok Hlen. pose proof (zlen_nonneg r). pose proof (zlen_nonneg s). pose proof (zlen_nonneg tl).
  set (pre := [0x30; zlen r + zlen s + 4]). set (mid := pre ++ 0x02 :: zlen r :: r).
  assert (E1 : SigEncoding.der_encode r s tl = pre ++ 0x02 :: zlen r :: r ++ [0x02; zlen s] ++ s ++ tl) by done.
  assert (E2 : SigEncoding.der_encode r s tl = mid ++ 0x02 :: zlen s :: s ++ tl).
  { rewrite E1. unfold mid. rewrite <- app_assoc. done. }
  assert (Zm : zlen mid = 4 + zlen r) by (unfold mid, pre; rewrite zlen_app, !zlen_cons, (@zlen_nil Z); lia).
  assert (F1 : take (Z.to_nat (zlen r)) (drop (Z.to_nat 4) (SigEncoding.der_encode r s tl)) = r).
  { exact (field_bytes (pre ++ [0x02; zlen r]) r ([0x02; zlen s] ++ s ++ tl)). }
  assert (F2 : take (Z.to_nat (zlen s)) (drop (Z.to_nat (zlen mid + 2)) (SigEncoding.der_encode r s tl)) = s).
  { rewrite E2. replace (mid ++ 2 :: zlen s :: s ++ tl) with ((mid ++ [2; zlen s]) ++ s ++ tl) by (by rewrite <- app_assoc).
    replace (zlen mid + 2) with (zlen (mid ++ [2; zlen s])) by (rewrite zlen_app; done). apply field_bytes. }
  rewrite (der_lax_fields _ 2 (zlen r) 4 (zlen s) (zlen mid + 2) Hok).
  - by rewrite F1, F2.
  - refine (parse_strict_sequence (zlen r + zlen s + 4) (0x02 :: zlen r :: r ++ [0x02; zlen s] ++ s ++ tl) _). lia.
  - rewrite E2, zlen_app, !zlen_cons, zlen_app. lia.
  - rewrite E1. exact (parse_short_integer pre r _ ltac:(lia)).
  - rewrite E2. replace (4 + zlen r) with (zlen mid) by lia. apply parse_short_integer. lia.
Qed.

(** ** Low S *)

Lemma signature_of_high R S :
  0 <= R -> 0 <= S ->
  secp256k1_ecdsa_signature_is_high (signature_of R S) = (R <? order) && (S <? order) && (order / 2 <? S).
Proof.
  intros HR HS. unfold secp256k1_ecdsa_signature_is_high, signature_of. pose proof order_val as O.
  assert (U : forall x, unit_ok (split 32 8 x)) by (intros; split; [apply split_length|apply split_limbs; lia]).
  destruct (Z.ltb_spec R order), (Z.ltb_spec S order); cbn [andb]; try done.
  rewrite signature_load_save by apply U. cbn [snd]. rewrite is_high_spec by apply U.
  rewrite num_split; [done|lia|]. change (32 * Z.of_nat 8) with 256. lia.
Qed.

(** CheckLowS on strict DER: only an S above n/2, in range with its R, is
    refused. *)
Lemma CheckLowS_encode r s tl :
  bytes_ok (SigEncoding.der_encode r s tl) -> zlen r + zlen s + 4 < 128 ->
  CheckLowS (SigEncoding.der_encode r s tl) =
  Some (negb ((be_value r <? order) && (be_value s <? order) && (order / 2 <? be_value s))).
Proof.
  intros Hok Hlen. unfold CheckLowS. rewrite (bind_some _ _ _ (der_lax_encode r s tl Hok Hlen)). cbn beta iota.
  destruct (SigEncoding.der_parts_ok r s tl Hok) as [Hr Hs].
  cbn [negb]. rewrite signature_of_high; [done|by apply be_value_bound|by apply be_value_bound].
Qed.

(** Normalising: r is kept, and s becomes the smaller of s and n - s. *)
Lemma signature_normalize_spec r s :
  unit_ok r -> scalar_ok s ->
  exists s', secp256k1_ecdsa_signature_normalize (secp256k1_ecdsa_signature_save r s) =
      (order / 2 <? num 32 s, secp256k1_ecdsa_signature_save r s') /\ scalar_ok s' /\
    num 32 s' = (if order / 2 <? num 32 s then order - num 32 s else num 32 s) /\ num 32 s' <= order / 2.
Proof.
  intros Hr Hs. unfold secp256k1_ecdsa_signature_normalize. rewrite signature_load_save by (done || apply Hs).
  rewrite is_high_spec by apply Hs. pose proof order_val as O. destruct Hs as [Hs Hn].
  assert (order / 2 = 57896044618658097711785492504343953926418782139537452191302581570759080747168) as Eh.
  { rewrite O. reflexivity. }
  destruct (Z.ltb_spec (order / 2) (num 32 s)) as [L|L].
  - destruct (scalar_negate_spec s (conj Hs Hn)) as [Hk Hv]. exists (secp256k1_scalar_negate s).
    split; [done|]. split; [done|]. rewrite Hv.
    replace ((- num 32 s) mod order) with (order - num 32 s) by (apply Z.mod_unique_pos with (-1); lia). lia.
  - exists s. split; [done|]. split; [done|]. split; [done|lia].
Qed.

(** The lenient DER parser answers on every input without reading outside it. What it answers
    is a refusal that leaves the zero signature, or success with the signature of some R and S, the zero
    signature again when one of them is not below the group order. On strict DER it is the R and S that
    were written, and then CheckLowS refuses exactly an S above half the order. *)
Lemma der_lax_total input :
  bytes_ok input ->
  (ecdsa_signature_parse_der_lax input = Some (false, zero_signature) \/
   exists R S, ecdsa_signature_parse_der_lax input = Some (true, signature_of R S)) /\
  (forall r s tl, input = SigEncoding.der_encode r s tl -> zlen r + zlen s + 4 < 128 ->
     ecdsa_signature_parse_der_lax input = Some (true, signature_of (be_value r) (be_value s)) /\
     CheckLowS input =
       Some (negb ((be_value r <? order) && (be_value s <? order) && (order / 2 <? be_value s)))).
Proof.
  intros Hin. split; [destruct (der_lax_answers input Hin) as [|(R & S & E & _)]; eauto|]. intros r s tl -> Hlen.
  split; [by apply der_lax_encode|by apply CheckLowS_encode].
Qed.

Lemma der_lax_total_witness :
  let input := SigEncoding.der_encode [1; 2] [0; 0x80] [] in
  ecdsa_signature_parse_der_lax input = Some (true, signature_of 258 128) /\ CheckLowS input = Some true.
Proof.
  destruct (der_lax_total (SigEncoding.der_encode [1; 2] [0; 0x80] [])) as [_ H].
  - repeat constructor; vm_compute; discriminate.
  - destruct (H [1; 2] [0; 0x80] [] eq_refl) as [E F]; [vm_compute; reflexivity|]. split; [exact E|exact F].
Defined.
