(* ===== verification/Primes.v ===== *)
(** The two primes of secp256k1: the field characteristic p and the group
    order n.  Pocklington's criterion, on Fermat's little theorem of the
    Standard Library: N is prime when the product of some primes dividing
    N - 1 exceeds the square root of N and a base a has a^(N-1) = 1 modulo N
    while a^((N-1)/q) - 1 is coprime to N for each of those primes q.  The
    certificates end in primes small enough for trial division. *)
From S2P Require Import Prelude.
From Stdlib Require Import Znumtheory Zpow_facts.
From Stdlib Require Import Zmod.

Local Open Scope Z_scope.

(** ** Trial division *)

Fixpoint no_divisor (fuel : nat) (d N : Z) : bool :=
  match fuel with
  | O => true
  | S fuel => negb (N mod d =? 0) && no_divisor fuel (d + 1) N
  end.

Lemma no_divisor_spec fuel d N x :
  no_divisor fuel d N = true -> 0 < d -> d <= x < d + Z.of_nat fuel -> ~ (x | N).
Proof.
  revert d. induction fuel as [|fuel IH]; intros d H Hd Hx; [lia|]. cbn [no_divisor] in H.
  apply andb_true_iff in H as [H1 H2]. apply negb_true_iff, Z.eqb_neq in H1.
  destruct (Z.eq_dec x d) as [->|]; [|apply (IH (d + 1)); [done|lia|lia]].
  intros Hd2. apply H1. by apply Z.mod_divide; [lia|].
Qed.

(** Every composite number has a prime divisor not above its square root. *)
Lemma prime_divisor N : 1 < N -> exists p, Z.prime p /\ (p | N) /\ (p * p <= N \/ p = N).
Proof.
  intros HN. pattern N. apply (Z_lt_induction (fun N => 1 < N -> exists p, Z.prime p /\ (p | N) /\ (p * p <= N \/ p = N))); [|lia|done].
  clear. intros N IH HN. destruct (prime_dec N) as [Hp|Hp].
  - exists N. split; [by apply prime_alt|]. split; [apply Z.divide_refl|by right].
  - apply not_prime_divide in Hp as (d & Hd & Hdiv); [|done]. destruct Hdiv as [k Hk].
    set (m := Z.min d k). assert (Hm : 1 < m < N /\ m * m <= N /\ (m | N)).
    { assert (1 < k) by nia. unfold m. destruct (Z.min_spec d k) as [[Hmin ->]|[Hmin ->]].
      - split; [lia|]. split; [nia|]. exists k. lia.
      - split; [nia|]. split; [nia|]. exists d. lia. }
    destruct Hm as (Hm1 & Hm2 & Hm3). destruct (IH m ltac:(lia) ltac:(lia)) as (p & Pp & Pd & Pb).
    exists p. split; [done|]. split; [by apply Z.divide_trans with m|]. left.
    assert (p <= m) by (apply Z.divide_pos_le; [lia|done]). pose proof (Z.prime_ge_2 p Pp). nia.
Qed.

Lemma prime_no_divisor N (s : Z) :
  1 < N -> N < s * s -> 0 <= s -> no_divisor (Z.to_nat (s - 2)) 2 N = true -> Z.prime N.
Proof.
  intros HN Hs Hs0 H. destruct (prime_divisor N HN) as (p & Pp & Pd & [Pb|<-]); [|done].
  pose proof (Z.prime_ge_2 p Pp). exfalso. apply (no_divisor_spec _ _ _ p H); [lia| |done].
  split; [lia|]. rewrite Z2Nat.id; nia.
Qed.

(** ** Powers of 2 modulo N *)

(** A reduction modulo N: the remainder, or folding at 2^k when N = 2^k - c. *)
Definition fold_at (k c : Z) (x : Z) : Z := c * Z.shiftr x k + Z.land x (Z.ones k).

(** 2^m with every square reduced by [red]. *)
Fixpoint pow2_mod (red : Z -> Z) (m : positive) : Z :=
  match m with
  | xH => 2
  | xO m => let z := pow2_mod red m in red (z * z)
  | xI m => let z := pow2_mod red m in 2 * red (z * z)
  end.

Lemma fold_at_mod k c x : 0 <= k -> 0 < 2 ^ k - c -> fold_at k c x mod (2 ^ k - c) = x mod (2 ^ k - c).
Proof.
  intros Hk Hc. unfold fold_at. rewrite Z.shiftr_div_pow2, Z.land_ones by done.
  pose proof (Z.div_mod x (2 ^ k) ltac:(lia)) as D.
  rewrite D at 3. replace (2 ^ k * (x / 2 ^ k) + x mod 2 ^ k) with
    ((c * (x / 2 ^ k) + x mod 2 ^ k) + (x / 2 ^ k) * (2 ^ k - c)) by ring.
  by rewrite Z_mod_plus_full.
Qed.

Lemma pow2_mod_spec red N m :
  0 < N -> (forall x, red x mod N = x mod N) -> pow2_mod red m mod N = 2 ^ Z.pos m mod N.
Proof.
  intros HN Hred. induction m as [m IH|m IH|]; cbn [pow2_mod]; [| |done].
  - rewrite <- Z.mul_mod_idemp_r, Hred, Z.mul_mod_idemp_r by lia.
    rewrite (Pos2Z.inj_xI m), Z.pow_add_r, Z.mul_comm, Z.pow_1_r, (Z.mul_comm 2 (Z.pos m)), Z.pow_mul_r, Z.pow_2_r by lia.
    rewrite Z.mul_mod, (Z.mul_mod _ 2) by lia. f_equal. f_equal.
    rewrite Z.mul_mod, IH, <- Z.mul_mod by lia. done.
  - rewrite Hred, (Pos2Z.inj_xO m), (Z.mul_comm 2), Z.pow_mul_r, Z.pow_2_r, Z.mul_mod, IH, <- Z.mul_mod by lia. done.
Qed.

(** ** Pocklington's criterion *)

Definition fermat_ok (red : Z -> Z) (N : Z) : bool := pow2_mod red (Z.to_pos (N - 1)) mod N =? 1.

Definition base_ok (red : Z -> Z) (N q : Z) : bool :=
  ((N - 1) mod q =? 0) && (0 <? (N - 1) / q) && (Z.gcd (pow2_mod red (Z.to_pos ((N - 1) / q)) - 1) N =? 1).

(** The heart: each certified prime divides p - 1 for every prime divisor p. *)
Lemma base_ok_divides red N q p :
  1 < N -> (forall x, red x mod N = x mod N) -> Z.prime q -> fermat_ok red N = true -> base_ok red N q = true ->
  Z.prime p -> (p | N) -> (q | p - 1).
Proof.
  intros HN Hred Pq Hf H Pp Pd. unfold base_ok in H. unfold fermat_ok in Hf.
  rewrite !andb_true_iff, !Z.eqb_eq, Z.ltb_lt in H. apply Z.eqb_eq in Hf.
  destruct H as [[H1 H2] H3]. pose proof (Z.prime_ge_2 p Pp). pose proof (Z.prime_ge_2 q Pq).
  rewrite pow2_mod_spec, Z2Pos.id in Hf by (done || lia).
  pose proof (pow2_mod_spec red N (Z.to_pos ((N - 1) / q)) ltac:(lia) Hred) as Hb. rewrite Z2Pos.id in Hb by lia.
  set (b := pow2_mod red _) in *. clearbody b.
  assert (Hbp : b ^ q mod p = 1).
  { rewrite <- (Z.mod_mod_divide _ N p) by done.
    rewrite Zpower_mod, Hb, <- Zpower_mod, <- Z.pow_mul_r by (try lia; apply Z.div_pos; lia).
    replace ((N - 1) / q * q) with (N - 1) by (pose proof (Z.div_mod (N - 1) q ltac:(lia)); lia).
    rewrite Hf. apply Z.mod_small. lia. }
  assert (Hb0 : b mod p <> 0).
  { intros E. rewrite Zpower_mod, E, Z.pow_0_l, Z.mod_0_l in Hbp by lia. discriminate. }
  destruct (Z.BoolSpec_divide q (p - 1)) as [D|D]; [done|]. exfalso.
  assert (C : Z.coprime q (p - 1)) by (by apply Z.coprime_prime_l).
  apply Z.Bezout_coprime_iff in C as (u & v & E).
  assert (F : b ^ (p - 1) mod p = 1) by (by apply Z.fermat_nz).
  assert (B1 : b mod p = 1).
  { (* b = b^(u q + v (p-1)), with the negative exponent moved to the other side *)
    assert (P : forall m k, 0 <= m -> 0 <= k -> b ^ m mod p = 1 -> b ^ (m * k) mod p = 1).
    { intros m k Hm Hk Hbm. rewrite Z.pow_mul_r, Zpower_mod, Hbm, Z.pow_1_l by lia. apply Z.mod_small. lia. }
    destruct (Z.lt_ge_cases 0 u) as [Hu|Hu].
    - assert (E' : q * u = 1 + (p - 1) * (- v)) by lia. assert (0 <= - v) by nia.
      pose proof (P q u ltac:(lia) ltac:(lia) Hbp) as X. rewrite E', Z.pow_add_r, Z.pow_1_r, Z.mul_mod in X by nia.
      rewrite (P (p - 1) (- v) ltac:(lia) ltac:(lia) F), Z.mul_1_r, Z.mod_mod in X by lia. done.
    - assert (E' : (p - 1) * v = 1 + q * (- u)) by lia. assert (0 <= v) by nia.
      pose proof (P (p - 1) v ltac:(lia) ltac:(lia) F) as X. rewrite E', Z.pow_add_r, Z.pow_1_r, Z.mul_mod in X by nia.
      rewrite (P q (- u) ltac:(lia) ltac:(lia) Hbp), Z.mul_1_r, Z.mod_mod in X by lia. done. }
  assert (Dp : (p | b - 1)).
  { apply Z.mod_divide; [lia|]. rewrite Zminus_mod, B1, (Z.mod_small 1) by lia. apply Z.mod_0_l. lia. }
  assert (p | 1) as D1 by (rewrite <- H3; by apply Z.gcd_greatest).
  apply Z.divide_1_r_nonneg in D1; lia.
Qed.

Definition product (l : list Z) : Z := foldr Z.mul 1 l.

Lemma product_divides l m : Forall Z.prime l -> NoDup l -> Forall (fun q => (q | m)) l -> (product l | m).
Proof.
  intros Hp Hn Hd. induction Hp as [|q l Pq Pl IH]; [apply Z.divide_1_l|].
  apply NoDup_cons in Hn as [Hn1 Hn2]. apply Forall_cons in Hd as [Hd1 Hd2]. cbn [product foldr].
  fold (product l). specialize (IH Hn2 Hd2).
  assert (C : Z.coprime q (product l)).
  { apply Z.coprime_prime_l; [done|]. clear -Pq Pl Hn1. induction Pl as [|x l Px Pl IH]; cbn [product foldr].
    - intros D. apply Z.divide_1_r_nonneg in D; pose proof (Z.prime_ge_2 q Pq); lia.
    - intros D. apply Z.divide_prime_mul in D as [D|D]; [|by apply IH; [set_solver|]|done].
      apply Z.divide_prime_prime in D; [set_solver|done|done]. }
  destruct Hd1 as [k ->]. rewrite (Z.mul_comm k q). apply Z.mul_divide_mono_l.
  apply (Z.gauss _ q k); [by rewrite (Z.mul_comm q k)|rewrite Z.gcd_comm; exact C].
Qed.

Lemma pocklington red N l :
  1 < N -> (forall x, red x mod N = x mod N) -> Forall Z.prime l -> NoDup l -> N < product l * product l -> 0 < product l ->
  fermat_ok red N = true -> forallb (base_ok red N) l = true -> Z.prime N.
Proof.
  intros HN Hred Hp Hn HF Hpos Hf Hb. destruct (prime_divisor N HN) as (p & Pp & Pd & [Pb|<-]); [|done]. exfalso.
  pose proof (Z.prime_ge_2 p Pp).
  assert (D : (product l | p - 1)).
  { apply product_divides; [done|done|]. apply Forall_forall. intros q Hq. rewrite Forall_forall in Hp.
    rewrite forallb_forall in Hb.
    apply (base_ok_divides red N); [done|done|by apply Hp|done|by apply Hb, list_elem_of_In|done|done]. }
  apply Z.divide_pos_le in D; [nia|lia].
Qed.

(** ** The certificates *)

Ltac by_trial s := apply (prime_no_divisor _ s); [lia|lia|lia|vm_compute; reflexivity].

(** Closes a certificate over primes already proved. *)
Ltac by_base red l :=
  match goal with |- Z.prime ?N => apply (pocklington red N l) end;
  [lia|..|repeat (apply List.Forall_cons; [eassumption|]); apply List.Forall_nil
  |apply (bool_decide_unpack _); vm_compute; exact I|vm_compute; reflexivity|vm_compute; reflexivity
  |vm_compute; reflexivity|vm_compute; reflexivity].

Ltac by_mod l :=
  match goal with |- Z.prime ?N => by_base (fun x => x mod N) l end; intros x; apply Z.mod_mod; lia.

Lemma prime_7 : Z.prime 7. Proof. by_trial 3. Qed.
Lemma prime_29 : Z.prime 29. Proof. by_trial 6. Qed.
Lemma prime_53 : Z.prime 53. Proof. by_trial 8. Qed.
Lemma prime_9349 : Z.prime 9349. Proof. by_trial 97. Qed.
Lemma prime_28181 : Z.prime 28181. Proof. by_trial 168. Qed.
Lemma prime_96557 : Z.prime 96557. Proof. by_trial 311. Qed.
Lemma prime_120233 : Z.prime 120233. Proof. by_trial 347. Qed.
Lemma prime_1627771 : Z.prime 1627771. Proof. by_trial 1276. Qed.
Lemma prime_7240687 : Z.prime 7240687. Proof. by_trial 2691. Qed.

Lemma prime_44706919 : Z.prime 44706919. Proof. pose proof prime_9349. by_mod [9349]. Qed.
Lemma prime_545358713 : Z.prime 545358713. Proof. pose proof prime_28181. by_mod [28181]. Qed.
Lemma prime_s1 : Z.prime 297159362677. Proof. pose proof prime_1627771. by_mod [1627771]. Qed.
Lemma prime_107590001 : Z.prime 107590001.
Proof. pose proof prime_7. pose proof prime_29. pose proof prime_53. by_mod [53; 29; 7]. Qed.

Lemma prime_r1 : Z.prime 29047611873442575647497758179.
Proof. pose proof prime_s1. pose proof prime_545358713. by_mod [297159362677; 545358713]. Qed.

Lemma prime_n1 : Z.prime 341948486974166000522343609283189.
Proof. pose proof prime_r1. by_mod [29047611873442575647497758179]. Qed.

Lemma prime_n2 : Z.prime 174723607534414371449.
Proof. pose proof prime_44706919. pose proof prime_120233. by_mod [44706919; 120233]. Qed.

Lemma prime_p2 : Z.prime 255515944373312847190720520512484175977.
Proof. pose proof prime_107590001. pose proof prime_7240687. pose proof prime_96557. by_mod [107590001; 7240687; 96557]. Qed.

Lemma prime_p1 : Z.prime 205115282021455665897114700593932402728804164701536103180137503955397371.
Proof. pose proof prime_p2. by_mod [255515944373312847190720520512484175977]. Qed.

(** Folding k times at 2^256. *)
Fixpoint folds (n : nat) (c x : Z) : Z :=
  match n with O => x | S n => folds n c (fold_at 256 c x) end.

Lemma folds_mod n c x : 0 < 2 ^ 256 - c -> folds n c x mod (2 ^ 256 - c) = x mod (2 ^ 256 - c).
Proof.
  intros Hc. revert x. induction n as [|n IH]; intros x; cbn [folds]; [done|].
  rewrite IH. by apply fold_at_mod.
Qed.

Lemma prime_p : Z.prime (2 ^ 256 - 0x1000003D1).
Proof.
  pose proof prime_p1.
  by_base (folds 2 0x1000003D1) [205115282021455665897114700593932402728804164701536103180137503955397371].
  intros x. by apply folds_mod.
Qed.

Lemma prime_n : Z.prime (2 ^ 256 - 0x14551231950B75FC4402DA1732FC9BEBF).
Proof.
  pose proof prime_n1. pose proof prime_n2.
  by_base (folds 3 0x14551231950B75FC4402DA1732FC9BEBF) [341948486974166000522343609283189; 174723607534414371449].
  intros x. by apply folds_mod.
Qed.
