(* ===== verification/Field.v ===== *)
(** The field modulo p = 2^256 - 2^32 - 977 in 10 limbs of 26 bits
    (key/pubkey.cpp, [secp256k1_fe_*]): limbs are uint32_t and may exceed 26
    bits; [magnitude] and [normalized] are the bookkeeping that VERIFY adds to
    each element, and [secp256k1_fe_verify] the assert made of it.  A failed
    assert is [None].  Elements are values here, so the one assert on pointers,
    that the result of a product is not its second operand in memory, has no
    counterpart; no call in key/pubkey.cpp or key/privkey.cpp makes it fail.

    Multiplication and squaring share their shape: a first column sum, nine
    rounds, and a final reduction.  A round adds two column sums to the 64-bit
    accumulators c and d, folds the low 26 bits of d into c by
    2^260 = R1 2^26 + R0 (mod p), and emits a limb; the VERIFY_BITS bounds of
    each round are its [Round] fields. *)
From S2P Require Import Prelude Limbs.

Local Open Scope Z_scope.

Record secp256k1_fe := Fe { fe_n : list Z; fe_magnitude : Z; fe_normalized : bool }.

(** The field characteristic. *)
Definition field_p : Z := 2 ^ 256 - 2 ^ 32 - 977.

Definition fe_M : Z := 0x3FFFFFF.
Definition fe_R0 : Z := 0x3D10.
Definition fe_R1 : Z := 0x400.

(** At or above p: the test on limbs below 2^26 (2^22 the last). *)
Definition limbs_at_least_p (d : list Z) : bool :=
  (d.[9] =? 0x03FFFFF) &&
  (Z.land d.[8] (Z.land d.[7] (Z.land d.[6] (Z.land d.[5] (Z.land d.[4] (Z.land d.[3] d.[2]))))) =? 0x3FFFFFF) &&
  (0x3FFFFFF <? d.[1] + 0x40 + Z.shiftr (d.[0] + 0x3D1) 26).

Definition secp256k1_fe_verify (a : secp256k1_fe) : bool :=
  let d := fe_n a in
  let m := if fe_normalized a then 1 else 2 * fe_magnitude a in
  (d.[0] <=? 0x3FFFFFF * m) && (d.[1] <=? 0x3FFFFFF * m) && (d.[2] <=? 0x3FFFFFF * m) &&
  (d.[3] <=? 0x3FFFFFF * m) && (d.[4] <=? 0x3FFFFFF * m) && (d.[5] <=? 0x3FFFFFF * m) &&
  (d.[6] <=? 0x3FFFFFF * m) && (d.[7] <=? 0x3FFFFFF * m) && (d.[8] <=? 0x3FFFFFF * m) &&
  (d.[9] <=? 0x03FFFFF * m) &&
  (0 <=? fe_magnitude a) && (fe_magnitude a <=? 32) &&
  (if fe_normalized a then (fe_magnitude a <=? 1) && negb (limbs_at_least_p d) else true).

(** The element with its assert. *)
Definition verified (a : secp256k1_fe) : option secp256k1_fe := check (secp256k1_fe_verify a) (Some a).

(** ** Products *)

(** VERIFY_BITS(x, n) as an upper bound. *)
Definition bits (n : Z) : Z := 2 ^ n - 1.

Record round := Round {
  c_terms : list (Z * Z); c_bound : Z;
  d_terms : list (Z * Z); d_bound : Z;
  d_bound_shifted : Z; c_bound_folded : Z; c_bound_shifted : Z
}.

(** `x += (uint64_t)a * b + ...;` *)
Definition madd (x : Z) (l : list (Z * Z)) : Z :=
  fold_left (fun x '(a, b) => u64 (x + u64 (a * b))) l x.

(** One round: the new accumulators and the limb emitted. *)
Definition run_round (r : round) (c d : Z) : option (Z * Z * Z) :=
  let c := madd c (c_terms r) in
  check (c <=? c_bound r) (
  let d := madd d (d_terms r) in
  check (d <=? d_bound r) (
  let u := Z.land d fe_M in
  let d := Z.shiftr d 26 in
  let c := u64 (c + u64 (u * fe_R0)) in
  check (d <=? d_bound_shifted r) (check (c <=? c_bound_folded r) (
  let t := Z.land c fe_M in
  let c := u64 (Z.shiftr c 26 + u64 (u * fe_R1)) in
  check (c <=? c_bound_shifted r) (Some (c, d, t)))))).

Fixpoint run_rounds (rs : list round) (c d : Z) : option (Z * Z * list Z) :=
  match rs with
  | [] => Some (c, d, [])
  | r :: rs =>
      '(c, d, t) ← run_round r c d;
      '(c, d, ts) ← run_rounds rs c d;
      Some (c, d, t :: ts)
  end.

(** From `c += d * R0 + t9` to the end. *)
Definition final_reduction (c d : Z) (t : list Z) (t9 : Z) : option (list Z) :=
  let c := u64 (c + u64 (u64 (d * fe_R0) + t9)) in
  check (c <=? bits 45) (
  let r9 := Z.land c (Z.shiftr fe_M 4) in
  let c := u64 (Z.shiftr c 22 + u64 (d * Z.shiftl fe_R1 4)) in
  check (c <=? bits 46) (
  let d := u64 (u64 (c * Z.shiftr fe_R0 4) + t.[0]) in
  check (d <=? bits 56) (
  let r0 := Z.land d fe_M in
  let d := Z.shiftr d 26 in
  check (d <=? bits 30) (
  let d := u64 (d + u64 (u64 (c * Z.shiftr fe_R1 4) + t.[1])) in
  check (d <=? bits 53) (check (d <=? 0x10000003FFFFBF) (
  let r1 := Z.land d fe_M in
  let d := Z.shiftr d 26 in
  check (d <=? bits 27) (check (d <=? 0x4000000) (
  let d := u64 (d + t.[2]) in
  check (d <=? bits 27) (
  let r2 := u32 d in
  Some [r0; r1; r2; t.[3]; t.[4]; t.[5]; t.[6]; t.[7]; t.[8]; r9]))))))))).

(** The column sum p9, nine rounds and the final reduction. *)
Definition product_inner (p9 : list (Z * Z)) (rs : list round) : option (list Z) :=
  let d := madd 0 p9 in
  let t9 := Z.land d fe_M in
  let d := Z.shiftr d 26 in
  check (d <=? bits 38) (
  '(c, d, t) ← run_rounds rs 0 d;
  final_reduction c d t t9).

(** VERIFY_BITS(a[0], 30) .. VERIFY_BITS(a[8], 30), VERIFY_BITS(a[9], 26). *)
Definition input_bits (a : list Z) : bool :=
  forallb (fun x => x <=? bits 30) (take 9 a) && (a.[9] <=? bits 26).

Definition mul_p9 (a b : list Z) : list (Z * Z) :=
  [(a.[0], b.[9]); (a.[1], b.[8]); (a.[2], b.[7]); (a.[3], b.[6]); (a.[4], b.[5]); (a.[5], b.[4]); (a.[6], b.[3]); (a.[7], b.[2]); (a.[8], b.[1]); (a.[9], b.[0])].

Definition mul_rounds (a b : list Z) : list round :=
  [Round [(a.[0], b.[0])] (bits 60)
     [(a.[1], b.[9]); (a.[2], b.[8]); (a.[3], b.[7]); (a.[4], b.[6]); (a.[5], b.[5]); (a.[6], b.[4]); (a.[7], b.[3]); (a.[8], b.[2]); (a.[9], b.[1])] (bits 63)
     (bits 37) (bits 61) (bits 37);
   Round [(a.[0], b.[1]); (a.[1], b.[0])] (bits 62)
     [(a.[2], b.[9]); (a.[3], b.[8]); (a.[4], b.[7]); (a.[5], b.[6]); (a.[6], b.[5]); (a.[7], b.[4]); (a.[8], b.[3]); (a.[9], b.[2])] (bits 63)
     (bits 37) (bits 63) (bits 38);
   Round [(a.[0], b.[2]); (a.[1], b.[1]); (a.[2], b.[0])] (bits 62)
     [(a.[3], b.[9]); (a.[4], b.[8]); (a.[5], b.[7]); (a.[6], b.[6]); (a.[7], b.[5]); (a.[8], b.[4]); (a.[9], b.[3])] (bits 63)
     (bits 37) (bits 63) (bits 38);
   Round [(a.[0], b.[3]); (a.[1], b.[2]); (a.[2], b.[1]); (a.[3], b.[0])] (bits 63)
     [(a.[4], b.[9]); (a.[5], b.[8]); (a.[6], b.[7]); (a.[7], b.[6]); (a.[8], b.[5]); (a.[9], b.[4])] (bits 63)
     (bits 37) (bits 64) (bits 39);
   Round [(a.[0], b.[4]); (a.[1], b.[3]); (a.[2], b.[2]); (a.[3], b.[1]); (a.[4], b.[0])] (bits 63)
     [(a.[5], b.[9]); (a.[6], b.[8]); (a.[7], b.[7]); (a.[8], b.[6]); (a.[9], b.[5])] (bits 62)
     (bits 36) (bits 64) (bits 39);
   Round [(a.[0], b.[5]); (a.[1], b.[4]); (a.[2], b.[3]); (a.[3], b.[2]); (a.[4], b.[1]); (a.[5], b.[0])] (bits 63)
     [(a.[6], b.[9]); (a.[7], b.[8]); (a.[8], b.[7]); (a.[9], b.[6])] (bits 62)
     (bits 36) (bits 64) (bits 39);
   Round [(a.[0], b.[6]); (a.[1], b.[5]); (a.[2], b.[4]); (a.[3], b.[3]); (a.[4], b.[2]); (a.[5], b.[1]); (a.[6], b.[0])] (bits 63)
     [(a.[7], b.[9]); (a.[8], b.[8]); (a.[9], b.[7])] (bits 61)
     (bits 35) (bits 64) (bits 39);
   Round [(a.[0], b.[7]); (a.[1], b.[6]); (a.[2], b.[5]); (a.[3], b.[4]); (a.[4], b.[3]); (a.[5], b.[2]); (a.[6], b.[1]); (a.[7], b.[0])] (0x8000007C00000007)
     [(a.[8], b.[9]); (a.[9], b.[8])] (bits 58)
     (bits 32) (0x800001703FFFC2F7) (bits 38);
   Round [(a.[0], b.[8]); (a.[1], b.[7]); (a.[2], b.[6]); (a.[3], b.[5]); (a.[4], b.[4]); (a.[5], b.[3]); (a.[6], b.[2]); (a.[7], b.[1]); (a.[8], b.[0])] (0x9000007B80000008)
     [(a.[9], b.[9])] (bits 57)
     (bits 31) (0x9000016FBFFFC2F8) (bits 39)].

Definition secp256k1_fe_mul_inner (a b : list Z) : option (list Z) :=
  check (input_bits a && input_bits b) (product_inner (mul_p9 a b) (mul_rounds a b)).

Definition secp256k1_fe_mul (a b : secp256k1_fe) : option secp256k1_fe :=
  check ((fe_magnitude a <=? 8) && (fe_magnitude b <=? 8)) (
  check (secp256k1_fe_verify a && secp256k1_fe_verify b) (
  r ← secp256k1_fe_mul_inner (fe_n a) (fe_n b);
  verified (Fe r 1 false))).

Definition sqr_p9 (a : list Z) : list (Z * Z) :=
  [(u32 (a.[0] * 2), a.[9]); (u32 (a.[1] * 2), a.[8]); (u32 (a.[2] * 2), a.[7]); (u32 (a.[3] * 2), a.[6]); (u32 (a.[4] * 2), a.[5])].

Definition sqr_rounds (a : list Z) : list round :=
  [Round [(a.[0], a.[0])] (bits 60)
     [(u32 (a.[1] * 2), a.[9]); (u32 (a.[2] * 2), a.[8]); (u32 (a.[3] * 2), a.[7]); (u32 (a.[4] * 2), a.[6]); (a.[5], a.[5])] (bits 63)
     (bits 37) (bits 61) (bits 37);
   Round [(u32 (a.[0] * 2), a.[1])] (bits 62)
     [(u32 (a.[2] * 2), a.[9]); (u32 (a.[3] * 2), a.[8]); (u32 (a.[4] * 2), a.[7]); (u32 (a.[5] * 2), a.[6])] (bits 63)
     (bits 37) (bits 63) (bits 38);
   Round [(u32 (a.[0] * 2), a.[2]); (a.[1], a.[1])] (bits 62)
     [(u32 (a.[3] * 2), a.[9]); (u32 (a.[4] * 2), a.[8]); (u32 (a.[5] * 2), a.[7]); (a.[6], a.[6])] (bits 63)
     (bits 37) (bits 63) (bits 38);
   Round [(u32 (a.[0] * 2), a.[3]); (u32 (a.[1] * 2), a.[2])] (bits 63)
     [(u32 (a.[4] * 2), a.[9]); (u32 (a.[5] * 2), a.[8]); (u32 (a.[6] * 2), a.[7])] (bits 63)
     (bits 37) (bits 64) (bits 39);
   Round [(u32 (a.[0] * 2), a.[4]); (u32 (a.[1] * 2), a.[3]); (a.[2], a.[2])] (bits 63)
     [(u32 (a.[5] * 2), a.[9]); (u32 (a.[6] * 2), a.[8]); (a.[7], a.[7])] (bits 62)
     (bits 36) (bits 64) (bits 39);
   Round [(u32 (a.[0] * 2), a.[5]); (u32 (a.[1] * 2), a.[4]); (u32 (a.[2] * 2), a.[3])] (bits 63)
     [(u32 (a.[6] * 2), a.[9]); (u32 (a.[7] * 2), a.[8])] (bits 62)
     (bits 36) (bits 64) (bits 39);
   Round [(u32 (a.[0] * 2), a.[6]); (u32 (a.[1] * 2), a.[5]); (u32 (a.[2] * 2), a.[4]); (a.[3], a.[3])] (bits 63)
     [(u32 (a.[7] * 2), a.[9]); (a.[8], a.[8])] (bits 61)
     (bits 35) (bits 64) (bits 39);
   Round [(u32 (a.[0] * 2), a.[7]); (u32 (a.[1] * 2), a.[6]); (u32 (a.[2] * 2), a.[5]); (u32 (a.[3] * 2), a.[4])] (0x8000007C00000007)
     [(u32 (a.[8] * 2), a.[9])] (bits 58)
     (bits 32) (0x800001703FFFC2F7) (bits 38);
   Round [(u32 (a.[0] * 2), a.[8]); (u32 (a.[1] * 2), a.[7]); (u32 (a.[2] * 2), a.[6]); (u32 (a.[3] * 2), a.[5]); (a.[4], a.[4])] (0x9000007B80000008)
     [(a.[9], a.[9])] (bits 57)
     (bits 31) (0x9000016FBFFFC2F8) (bits 39)].

Definition secp256k1_fe_sqr_inner (a : list Z) : option (list Z) :=
  check (input_bits a) (product_inner (sqr_p9 a) (sqr_rounds a)).

Definition secp256k1_fe_sqr (a : secp256k1_fe) : option secp256k1_fe :=
  check (fe_magnitude a <=? 8) (check (secp256k1_fe_verify a) (
  r ← secp256k1_fe_sqr_inner (fe_n a);
  verified (Fe r 1 false))).
