(* ===== verification/FieldMul.v ===== *)
(** Multiplication and squaring in the field (Field.v) are exact modulo p, and
    no VERIFY_BITS of theirs can fail: the bounds are computed once, on the
    largest limbs that the input bounds admit, and hold below them. *)
From S2P Require Import Prelude Limbs Field.

Local Open Scope Z_scope.

Definition W : Z := 2 ^ 26.

(** ** Sums of products *)

Fixpoint prods (l : list (Z * Z)) : Z :=
  match l with [] => 0 | (a, b) :: l => a * b + prods l end.

Definition terms_le : list (Z * Z) -> list (Z * Z) -> Prop :=
  Forall2 (fun x y => 0 <= fst x <= fst y /\ 0 <= snd x <= snd y).

Lemma prods_le l k : terms_le l k -> 0 <= prods l <= prods k.
Proof.
  induction 1 as [|[a b] [a' b'] l k [Ha Hb] H IH]; cbn [prods fst snd] in *; [lia|].
  assert (0 <= a * b <= a' * b') by nia. lia.
Qed.

Lemma madd_exact l k x : terms_le l k -> 0 <= x -> x + prods k < 2 ^ 64 -> madd x l = x + prods l.
Proof.
  intros H. revert x. induction H as [|[a b] [a' b'] l k [Ha Hb] H IH]; intros x Hx Hlt; cbn [prods fst snd] in *.
  - cbn. lia.
  - unfold madd. cbn [fold_left]. fold (madd (u64 (x + u64 (a * b))) l).
    pose proof (prods_le _ _ H). assert (0 <= a * b <= a' * b') by nia.
    rewrite (u64_small (a * b)), u64_small by lia. rewrite IH by lia. lia.
Qed.

(** ** Rounds *)

Definition round_le (r r' : round) : Prop :=
  terms_le (c_terms r) (c_terms r') /\ terms_le (d_terms r) (d_terms r') /\
  c_bound r = c_bound r' /\ d_bound r = d_bound r' /\ d_bound_shifted r = d_bound_shifted r' /\
  c_bound_folded r = c_bound_folded r' /\ c_bound_shifted r = c_bound_shifted r'.

(** The largest accumulators after a round on the largest operands, when they
    are within the round's bounds. *)
Definition max_round (r : round) (c d : Z) : option (Z * Z) :=
  let c1 := c + prods (c_terms r) in
  let d1 := d + prods (d_terms r) in
  let d2 := d1 / W in
  let c2 := c1 + fe_M * fe_R0 in
  let c3 := c2 / W + fe_M * fe_R1 in
  check ((c1 <=? c_bound r) && (d1 <=? d_bound r) && (d2 <=? d_bound_shifted r) &&
         (c2 <=? c_bound_folded r) && (c3 <=? c_bound_shifted r) &&
         (d1 <? 2 ^ 64) && (c2 <? 2 ^ 64) && (c3 <? 2 ^ 64)) (Some (c3, d2)).

Fixpoint max_rounds (rs : list round) (c d : Z) : option (Z * Z) :=
  match rs with
  | [] => Some (c, d)
  | r :: rs => '(c, d) ← max_round r c d; max_rounds rs c d
  end.

Lemma check_some {A} b (k : option A) x : check b k = Some x -> b = true /\ k = Some x.
Proof. by destruct b. Qed.

Lemma land_M x : Z.land x fe_M = x mod W.
Proof. apply (land_ones_mod x 26). lia. Qed.
Lemma shiftr_W x : Z.shiftr x 26 = x / W.
Proof. apply Z.shiftr_div_pow2. lia. Qed.

Lemma div_le x y : x <= y -> x / W <= y / W.
Proof. intros H. apply Z.div_le_mono; [unfold W; lia|done]. Qed.

Ltac check_le := rewrite check_true by (apply Z.leb_le; lia).

Lemma round_exact r r' c d cm dm cm' dm' :
  round_le r r' -> 0 <= c <= cm -> 0 <= d <= dm -> max_round r' cm dm = Some (cm', dm') ->
  exists c' d' t q, run_round r c d = Some (c', d', t) /\ 0 <= c' <= cm' /\ 0 <= d' <= dm' /\ limb 26 t /\ 0 <= q /\
    c + prods (c_terms r) + W ^ 10 * (d + prods (d_terms r)) = t + W * c' + W ^ 11 * d' + 16 * field_p * q.
Proof.
  intros (Hc & Hd & E1 & E2 & E3 & E4 & E5) Bc Bd Hm. unfold max_round in Hm. cbn zeta in Hm.
  rewrite <- E1, <- E2, <- E3, <- E4, <- E5 in Hm.
  apply check_some in Hm as [Hm E]. injection E as <- <-. rewrite !andb_true_iff, !Z.leb_le, !Z.ltb_lt in Hm.
  destruct Hm as [[[[[[[M1 M2] M3] M4] M5] M6] M7] M8].
  pose proof (prods_le _ _ Hc) as Pc. pose proof (prods_le _ _ Hd) as Pd.
  assert (Fpos : 0 <= fe_M * fe_R0 /\ 0 <= fe_M * fe_R1) by (vm_compute; split; discriminate).
  unfold run_round. rewrite (madd_exact _ _ c Hc), (madd_exact _ _ d Hd) by lia. cbn zeta.
  set (C := c + prods (c_terms r)) in *. set (D := d + prods (d_terms r)) in *.
  assert (BC : 0 <= C <= cm + prods (c_terms r')) by lia. assert (BD : 0 <= D <= dm + prods (d_terms r')) by lia.
  check_le. check_le. rewrite !land_M, !shiftr_W.
  pose proof (div_le _ _ (proj2 BD)) as LD. pose proof (Z.mod_pos_bound D W ltac:(unfold W; lia)) as Bu.
  pose proof (Z.div_pos D W ltac:(lia) ltac:(unfold W; lia)) as PD.
  assert (Eu : D mod W <= fe_M) by (unfold fe_M, W in *; lia). set (u := D mod W) in *.
  assert (U0 : 0 <= u * fe_R0 <= fe_M * fe_R0) by (unfold fe_R0 in *; lia).
  assert (U1 : 0 <= u * fe_R1 <= fe_M * fe_R1) by (unfold fe_R1 in *; lia).
  assert (LC : (C + u * fe_R0) / W <= (cm + prods (c_terms r') + fe_M * fe_R0) / W) by (apply div_le; lia).
  pose proof (Z.div_pos (C + u * fe_R0) W ltac:(lia) ltac:(unfold W; lia)) as PC.
  rewrite (u64_small (u * fe_R0)), (u64_small (C + _)), (u64_small (u * fe_R1)) by lia.
  check_le. check_le.
  rewrite u64_small by lia. check_le.
  eexists _, _, _, u. split; [reflexivity|]. split; [lia|]. split; [lia|].
  split; [apply Z.mod_pos_bound; lia|]. split; [lia|].
  pose proof (Z.div_mod D W ltac:(unfold W; lia)) as DD. fold u in DD.
  pose proof (Z.div_mod (C + u * fe_R0) W ltac:(unfold W; lia)) as DC.
  change (W ^ 11) with (W * W ^ 10). change (16 * field_p) with (W ^ 10 - W * fe_R1 - fe_R0).
  set (x := (C + u * fe_R0) / W) in *. set (t := (C + u * fe_R0) mod W) in *. clearbody x t u.
  set (y := D / W) in *. clearbody y. rewrite DD. replace C with (W * x + t - u * fe_R0) by lia. ring.
Qed.

(** The weighted sum of all columns of the rounds. *)
Fixpoint columns (rs : list round) : Z :=
  match rs with
  | [] => 0
  | r :: rs => prods (c_terms r) + W ^ 10 * prods (d_terms r) + W * columns rs
  end.

Lemma rounds_exact rs rs' c d cm dm cm' dm' :
  Forall2 round_le rs rs' -> 0 <= c <= cm -> 0 <= d <= dm -> max_rounds rs' cm dm = Some (cm', dm') ->
  exists c' d' t q, run_rounds rs c d = Some (c', d', t) /\ 0 <= c' <= cm' /\ 0 <= d' <= dm' /\
    limbs 26 t /\ length t = length rs /\ 0 <= q /\
    c + W ^ 10 * d + columns rs =
    num 26 t + W ^ Z.of_nat (length rs) * (c' + W ^ 10 * d') + 16 * field_p * q.
Proof.
  intros H. revert c d cm dm. induction H as [|r r' rs rs' Hr H IH]; intros c d cm dm Bc Bd Hm.
  - injection Hm as -> ->. exists c, d, [], 0. repeat (split; [done || constructor|]). cbn [num columns length]. lia.
  - cbn [max_rounds] in Hm. apply bind_Some in Hm as ([cm1 dm1] & Hm1 & Hm).
    destruct (round_exact r r' c d cm dm cm1 dm1 Hr Bc Bd Hm1) as (c1 & d1 & t & q & E & Bc1 & Bd1 & Ht & Hq & V).
    destruct (IH c1 d1 cm1 dm1 Bc1 Bd1 Hm) as (c2 & d2 & ts & q2 & E2 & Bc2 & Bd2 & Hts & Hlen & Hq2 & V2).
    cbn [run_rounds]. bind_step E. bind_step E2.
    exists c2, d2, (t :: ts), (q + W * q2). split; [done|]. split; [done|]. split; [done|].
    split; [by constructor|]. split; [cbn; congruence|]. split; [unfold W; lia|].
    cbn [columns num length]. change (2 ^ 26) with W. rewrite Nat2Z.inj_succ, Z.pow_succ_r by lia.
    set (k := W ^ Z.of_nat (length rs)) in *. change (W ^ 11) with (W * W ^ 10) in V.
    generalize dependent (W ^ 10). generalize dependent field_p. intros. clearbody k. nia.
Qed.

(** ** The final reduction *)

(** The largest accumulators that nine rounds leave. *)
Definition c_max : Z := 223338316784.
Definition d_max : Z := 67108894.

(** A product as the multiplication leaves it: nine limbs of 26 bits, one of
    them (the third) with room for a carry, and a last one of 22 bits. *)
Definition product_limbs (r : list Z) : Prop :=
  length r = 10%nat /\ Forall (fun x => 0 <= x <= 2 ^ 26 + 2 ^ 21) r /\ r.[9] < 2 ^ 22.

Lemma final_exact c d t t9 :
  0 <= c <= c_max -> 0 <= d <= d_max -> limbs 26 t -> length t = 9%nat -> 0 <= t9 < W ->
  exists r q, final_reduction c d t t9 = Some r /\ product_limbs r /\
    num 26 r + field_p * q = num 26 t + W ^ 9 * (c + t9 + W ^ 10 * d).
Proof.
  intros Bc Bd Ht Hl B9.
  destruct t as [|t0 [|t1 [|t2 [|t3 [|t4 [|t5 [|t6 [|t7 [|t8 [|? ?]]]]]]]]]]; try discriminate.
  unfold limbs in Ht. rewrite !Forall_cons in Ht. unfold limb in Ht. change (2 ^ 26) with 67108864 in Ht.
  destruct Ht as (H0 & H1 & H2 & H3 & H4 & H5 & H6 & H7 & H8 & _). clear Hl.
  unfold c_max in Bc. unfold d_max in Bd. unfold final_reduction, bits. cbn [nth].
  change (Z.shiftl fe_R1 4) with 16384. change (Z.shiftr fe_R0 4) with 977. change (Z.shiftr fe_R1 4) with 64.
  change (Z.shiftr fe_M 4) with (2 ^ 22 - 1). change fe_R0 with 15632. unfold W in B9.
  rewrite (u64_small (d * _)), (u64_small (d * 15632 + t9)), (u64_small (c + _)) by lia. cbn zeta.
  set (c1 := c + (d * 15632 + t9)) in *. check_le. rewrite land_ones_mod, Z.shiftr_div_pow2 by lia.
  pose proof (Z.div_mod c1 (2 ^ 22) ltac:(lia)) as D1. pose proof (Z.mod_pos_bound c1 (2 ^ 22) ltac:(lia)) as M1.
  set (x := c1 / 2 ^ 22) in *. set (r9 := c1 mod 2 ^ 22) in *. clearbody x r9.
  rewrite (u64_small (d * 16384)), (u64_small (x + _)) by lia. set (c2 := x + d * 16384) in *. check_le.
  rewrite (u64_small (c2 * 977)), (u64_small (c2 * 977 + t0)) by lia. set (d1 := c2 * 977 + t0) in *. check_le.
  rewrite !land_M, !shiftr_W. unfold W in *.
  pose proof (Z.div_mod d1 (2 ^ 26) ltac:(lia)) as D2. pose proof (Z.mod_pos_bound d1 (2 ^ 26) ltac:(lia)) as M2.
  set (y := d1 / 2 ^ 26) in *. set (r0 := d1 mod 2 ^ 26) in *. clearbody y r0. check_le.
  rewrite (u64_small (c2 * 64)), (u64_small (c2 * 64 + t1)), (u64_small (y + _)) by lia.
  set (d2 := y + (c2 * 64 + t1)) in *. check_le. check_le.
  pose proof (Z.div_mod d2 (2 ^ 26) ltac:(lia)) as D3. pose proof (Z.mod_pos_bound d2 (2 ^ 26) ltac:(lia)) as M3.
  set (z := d2 / 2 ^ 26) in *. set (r1 := d2 mod 2 ^ 26) in *. clearbody z r1. check_le. check_le.
  rewrite (u64_small (z + t2)) by lia. check_le. rewrite u32_small by lia.
  eexists _, (16 * (2 ^ 26) ^ 9 * d + c2). split; [reflexivity|]. split.
  - split; [done|]. split; [|cbn [nth]; lia]. repeat constructor; lia.
  - unfold field_p. cbn [num]. lia.
Qed.

(** ** The whole product *)

(** The largest limbs that VERIFY_BITS admits. *)
Definition top_fe : list Z := repeat (2 ^ 30 - 1) 9 ++ [2 ^ 26 - 1].

Lemma product_exact p9 rs p9' rs' :
  terms_le p9 p9' -> Forall2 round_le rs rs' -> length rs = 9%nat ->
  prods p9' < 2 ^ 64 -> max_rounds rs' 0 (prods p9' / W) = Some (c_max, d_max) -> prods p9' / W <= bits 38 ->
  exists r q, product_inner p9 rs = Some r /\ product_limbs r /\
    num 26 r + field_p * q = W ^ 9 * prods p9 + columns rs.
Proof.
  intros H9 Hrs Hlen H64 Hmax Hb. pose proof (prods_le _ _ H9) as P9. unfold product_inner.
  rewrite (madd_exact _ _ 0 H9) by lia. cbn zeta. rewrite land_M, shiftr_W, Z.add_0_l.
  pose proof (div_le _ _ (proj2 P9)). pose proof (Z.div_pos (prods p9) W ltac:(lia) ltac:(unfold W; lia)).
  check_le. pose proof (Z.div_mod (prods p9) W ltac:(unfold W; lia)) as D.
  pose proof (Z.mod_pos_bound (prods p9) W ltac:(unfold W; lia)) as M.
  set (d := prods p9 / W) in *. set (t9 := prods p9 mod W) in *. clearbody d t9.
  destruct (rounds_exact rs rs' 0 d 0 (prods p9' / W) _ _ Hrs ltac:(lia) ltac:(lia) Hmax)
    as (c' & d' & t & q & E & Bc & Bd & Ht & Hlt & Hq & V).
  bind_step E. rewrite Hlen in *.
  destruct (final_exact c' d' t t9 Bc Bd Ht Hlt M) as (r & q2 & E & Hr & V2).
  exists r, (q2 + 16 * q). split; [done|]. split; [done|]. rewrite D.
  change (Z.of_nat 9) with 9 in V. change (W ^ 10) with (W * W ^ 9) in *.
  set (w := W ^ 9) in *. clearbody w. lia.
Qed.

(** ** Field elements *)

(** An element that passes its assert, of magnitude at most [m] (0 is the
    magnitude of a cleared element only, which no operation takes). *)
Definition fe_ok (m : Z) (a : secp256k1_fe) : Prop :=
  secp256k1_fe_verify a = true /\ length (fe_n a) = 10%nat /\ Forall (Z.le 0) (fe_n a) /\ 1 <= fe_magnitude a <= m.

Definition fe_num (a : secp256k1_fe) : Z := num 26 (fe_n a).

(** The bounds that the assert gives on the limbs. *)
Definition limb_bounds (m : Z) (l : list Z) : Prop :=
  length l = 10%nat /\ Forall (fun x => 0 <= x <= 0x3FFFFFF * (2 * m)) (take 9 l) /\ 0 <= l.[9] <= 0x03FFFFF * (2 * m).

Ltac limbs_of_list l H :=
  destruct l as [|?x0 [|?x1 [|?x2 [|?x3 [|?x4 [|?x5 [|?x6 [|?x7 [|?x8 [|?x9 [|? ?]]]]]]]]]]]; try discriminate H.

Lemma fe_ok_bounds m a : fe_ok m a -> limb_bounds m (fe_n a).
Proof.
  destruct a as [l g nz]. unfold fe_ok, limb_bounds. cbn [fe_n fe_magnitude]. intros (Hv & Hl & Hp & Hg).
  limbs_of_list l Hl. rewrite !Forall_cons in Hp. unfold secp256k1_fe_verify in Hv. cbn [fe_n fe_magnitude fe_normalized nth] in Hv.
  rewrite !andb_true_iff, !Z.leb_le in Hv. destruct_and!.
  assert (B : 0 <= (if nz then 1 else 2 * g) <= 2 * m) by (destruct nz; lia).
  set (k := if nz then 1 else 2 * g) in *. clearbody k.
  split; [done|]. cbn [take nth]. split; [|lia]. repeat constructor; lia.
Qed.

Lemma fe_ok_mono m m' a : fe_ok m a -> m <= m' -> fe_ok m' a.
Proof. intros (? & ? & ? & ?) ?. repeat split; try done; lia. Qed.

Lemma fe_ok_self m a : fe_ok m a -> fe_ok (fe_magnitude a) a.
Proof. intros (? & ? & ? & ?). repeat split; try done; lia. Qed.

(** A new element that is not marked normalized passes when its limbs do. *)
Lemma fe_ok_intro m l :
  1 <= m <= 32 -> limb_bounds m l -> fe_ok m (Fe l m false).
Proof.
  intros Hm (Hl & H9 & H). limbs_of_list l Hl. cbn [take nth] in *. rewrite !Forall_cons in H9. destruct_and!.
  unfold fe_ok, secp256k1_fe_verify. cbn [fe_n fe_magnitude fe_normalized nth].
  split; [|split; [done|split; [repeat constructor; lia|lia]]].
  rewrite !andb_true_iff, !Z.leb_le. repeat split; lia.
Qed.

Lemma verified_ok a m : fe_ok m a -> verified a = Some a.
Proof. intros [H _]. unfold verified. by rewrite check_true. Qed.

Lemma fe_ok_verify m a : fe_ok m a -> secp256k1_fe_verify a = true.
Proof. by intros [? _]. Qed.

Lemma product_limbs_ok r : product_limbs r -> fe_ok 1 (Fe r 1 false).
Proof.
  intros (Hl & Hb & H9). apply fe_ok_intro; [lia|]. limbs_of_list r Hl. cbn [nth] in H9.
  rewrite !Forall_cons in Hb. destruct_and!. split; [done|]. cbn [take nth].
  change (2 ^ 26 + 2 ^ 21) with 69206016 in *. change (2 ^ 22) with 4194304 in *.
  split; [|lia]. repeat constructor; lia.
Qed.

Lemma input_bits_ok l : limb_bounds 8 l -> input_bits l = true.
Proof.
  intros (Hl & H9 & H). unfold input_bits, bits. rewrite andb_true_iff, Z.leb_le. split; [|lia].
  apply forallb_forall. intros x Hx. apply Z.leb_le. rewrite Forall_forall in H9.
  assert (x ∈ take 9 l) as Hi by (by apply list_elem_of_In). specialize (H9 x Hi). lia.
Qed.

(** Proves that column sums on limbs of magnitude 8 are dominated by the same
    sums on [top_fe]. *)
Ltac dominated_rounds :=
  unfold top_fe, mul_p9, mul_rounds, sqr_p9, sqr_rounds; cbn [nth repeat app];
  change (2 ^ 30 - 1) with 1073741823; change (2 ^ 26 - 1) with 67108863;
  repeat match goal with
    | |- _ <= _ <= _ => cbn [fst snd]; lia
    | |- _ /\ _ => split
    | |- Forall2 _ _ _ => constructor
    | |- round_le _ _ => unfold round_le; cbn [c_terms d_terms c_bound d_bound d_bound_shifted c_bound_folded c_bound_shifted]
    | |- terms_le _ _ => unfold terms_le
    | |- _ = _ => reflexivity
    end.

Lemma mul_dominated a b :
  limb_bounds 8 a -> limb_bounds 8 b ->
  terms_le (mul_p9 a b) (mul_p9 top_fe top_fe) /\ Forall2 round_le (mul_rounds a b) (mul_rounds top_fe top_fe).
Proof.
  intros (La & A & A9) (Lb & B & B9). limbs_of_list a La. limbs_of_list b Lb. cbn [take nth] in *.
  rewrite !Forall_cons in A. rewrite !Forall_cons in B. destruct_and!. dominated_rounds.
Qed.

Lemma sqr_dominated a :
  limb_bounds 8 a -> terms_le (sqr_p9 a) (sqr_p9 top_fe) /\ Forall2 round_le (sqr_rounds a) (sqr_rounds top_fe).
Proof.
  intros (La & A & A9). limbs_of_list a La. cbn [take nth] in *. rewrite !Forall_cons in A. destruct_and!.
  unfold top_fe, sqr_p9, sqr_rounds. cbn [nth repeat app].
  change (2 ^ 30 - 1) with 1073741823. change (u32 (1073741823 * 2)) with 2147483646.
  rewrite !u32_small by lia. dominated_rounds.
Qed.

Lemma mul_columns a b :
  length a = 10%nat -> length b = 10%nat -> W ^ 9 * prods (mul_p9 a b) + columns (mul_rounds a b) = num 26 a * num 26 b.
Proof.
  intros La Lb. limbs_of_list a La. limbs_of_list b Lb. unfold mul_p9, mul_rounds.
  cbn [nth prods columns c_terms d_terms num]. change (2 ^ 26) with W. generalize W. intros w. ring.
Qed.

Lemma sqr_columns a :
  limb_bounds 8 a -> W ^ 9 * prods (sqr_p9 a) + columns (sqr_rounds a) = num 26 a * num 26 a.
Proof.
  intros (La & A & A9). limbs_of_list a La. cbn [take nth] in *. rewrite !Forall_cons in A. destruct_and!.
  unfold sqr_p9, sqr_rounds. cbn [nth]. rewrite !u32_small by lia.
  cbn [prods columns c_terms d_terms num]. change (2 ^ 26) with W. generalize W. intros w. ring.
Qed.

Lemma fe_mul_exact a b :
  fe_ok 8 a -> fe_ok 8 b ->
  exists r, secp256k1_fe_mul a b = Some r /\ fe_ok 1 r /\ fe_num r mod field_p = (fe_num a * fe_num b) mod field_p.
Proof.
  intros Ha Hb. pose proof (fe_ok_bounds 8 a Ha) as Ba. pose proof (fe_ok_bounds 8 b Hb) as Bb.
  destruct (mul_dominated _ _ Ba Bb) as [H9 Hr].
  destruct (product_exact _ _ _ _ H9 Hr) as (r & q & E & Hp & V); [reflexivity|vm_compute; reflexivity|
    vm_compute; reflexivity|vm_compute; discriminate|].
  rewrite mul_columns in V by (apply Ba || apply Bb). pose proof (product_limbs_ok r Hp) as Ok.
  unfold secp256k1_fe_mul, secp256k1_fe_mul_inner. destruct Ha as (Va & _ & _ & Ma). destruct Hb as (Vb & _ & _ & Mb).
  rewrite Va, Vb, !input_bits_ok by done. rewrite !(proj2 (Z.leb_le _ _)) by lia. cbn [andb check].
  bind_step E. rewrite (verified_ok _ 1 Ok). eexists. split; [reflexivity|]. split; [done|].
  unfold fe_num at 1. cbn [fe_n]. fold (fe_num a) (fe_num b) in V. rewrite <- V, Z.mul_comm. symmetry. apply Z_mod_plus_full.
Qed.

Lemma fe_sqr_exact a :
  fe_ok 8 a ->
  exists r, secp256k1_fe_sqr a = Some r /\ fe_ok 1 r /\ fe_num r mod field_p = (fe_num a * fe_num a) mod field_p.
Proof.
  intros Ha. pose proof (fe_ok_bounds 8 a Ha) as Ba.
  destruct (sqr_dominated _ Ba) as [H9 Hr].
  destruct (product_exact _ _ _ _ H9 Hr) as (r & q & E & Hp & V); [reflexivity|vm_compute; reflexivity|
    vm_compute; reflexivity|vm_compute; discriminate|].
  rewrite sqr_columns in V by done. pose proof (product_limbs_ok r Hp) as Ok.
  unfold secp256k1_fe_sqr, secp256k1_fe_sqr_inner. destruct Ha as (Va & _ & _ & Ma).
  rewrite Va, !input_bits_ok by done. rewrite !(proj2 (Z.leb_le _ _)) by lia. cbn [andb check].
  bind_step E. rewrite (verified_ok _ 1 Ok). eexists. split; [reflexivity|]. split; [done|].
  unfold fe_num at 1. cbn [fe_n]. fold (fe_num a) in V. rewrite <- V, Z.mul_comm. symmetry. apply Z_mod_plus_full.
Qed.
