(* ===== verification/FieldOps.v ===== *)
(** The rest of the field of key/pubkey.cpp: addition, negation, scaling by a
    small integer, the normalisations, comparisons, the inverse and the square
    root by addition chains, and the byte and storage forms.  As in Field.v a
    failed assert is [None]. *)
From S2P Require Import Prelude Limbs Field.

Local Open Scope Z_scope.

Definition zip_add (a b : list Z) : list Z := zip_with (fun x y => u32 (x + y)) a b.

Definition secp256k1_fe_add (r a : secp256k1_fe) : option secp256k1_fe :=
  check (secp256k1_fe_verify a) (
  verified (Fe (zip_add (fe_n r) (fe_n a)) (fe_magnitude r + fe_magnitude a) false)).

(** `0x3FFFC2FUL * 2 * (m + 1) - a->n[0]` and so on: 2 (m + 1) p less a. *)
Definition secp256k1_fe_negate (a : secp256k1_fe) (m : Z) : option secp256k1_fe :=
  check (fe_magnitude a <=? m) (check (secp256k1_fe_verify a) (
  let sub c x := u32 (u64 (c * 2 * (m + 1) - x)) in
  verified (Fe (zip_with sub [0x3FFFC2F; 0x3FFFFBF; 0x3FFFFFF; 0x3FFFFFF; 0x3FFFFFF;
                              0x3FFFFFF; 0x3FFFFFF; 0x3FFFFFF; 0x3FFFFFF; 0x03FFFFF] (fe_n a)) (m + 1) false))).

Definition secp256k1_fe_mul_int (r : secp256k1_fe) (a : Z) : option secp256k1_fe :=
  verified (Fe ((fun x => u32 (x * u32 a)) <$> fe_n r) (fe_magnitude r * a) false).

Definition secp256k1_fe_set_int (a : Z) : option secp256k1_fe :=
  verified (Fe [u32 a; 0; 0; 0; 0; 0; 0; 0; 0; 0] 1 true).

Definition secp256k1_fe_clear : secp256k1_fe := Fe (replicate 10 0) 0 true.

(** ** Normalisation *)

(** `t1 += (t0 >> 26); t0 &= M; ... t9 += (t8 >> 26); t8 &= M;` from a carry
    [c] into the first limb. *)
Fixpoint carries (c : Z) (t : list Z) : list Z :=
  match t with
  | [] => []
  | [x] => [u32 (x + c)]
  | x :: t => let x := u32 (x + c) in Z.land x fe_M :: carries (Z.shiftr x 26) t
  end.

(** `t0 += x * 0x3D1; t1 += x << 6;` and the carries. *)
Definition fold_pass (x : Z) (t : list Z) : list Z :=
  match t with
  | t0 :: t1 :: t => carries 0 (u32 (t0 + u32 (x * 0x3D1)) :: u32 (t1 + u32 (Z.shiftl x 6)) :: t)
  | _ => t
  end.

(** `x = t9 >> 22; t9 &= 0x03FFFFF;` and the first pass; asserts that at most
    bit 22 of t9 is set above the 22. *)
Definition first_pass (n : list Z) : option (list Z) :=
  let x := Z.shiftr n.[9] 22 in
  let t := fold_pass x (take 9 n ++ [Z.land n.[9] 0x03FFFFF]) in
  check (Z.shiftr t.[9] 23 =? 0) (Some t).

Definition secp256k1_fe_normalize_weak (r : secp256k1_fe) : option secp256k1_fe :=
  t ← first_pass (fe_n r);
  verified (Fe t 1 (fe_normalized r)).

(** Whether a final reduction is needed. *)
Definition needs_final (t : list Z) : Z := Z.lor (Z.shiftr t.[9] 22) ⟦limbs_at_least_p t⟧.

Definition secp256k1_fe_normalize (r : secp256k1_fe) : option secp256k1_fe :=
  t ← first_pass (fe_n r);
  let x := needs_final t in
  (* Apply the final reduction (for constant-time behaviour, we do it always) *)
  let t := fold_pass x t in
  check (Z.shiftr t.[9] 22 =? x) (
  verified (Fe (take 9 t ++ [Z.land t.[9] 0x03FFFFF]) 1 true)).

Definition secp256k1_fe_normalize_var (r : secp256k1_fe) : option secp256k1_fe :=
  t ← first_pass (fe_n r);
  let x := needs_final t in
  if negb (x =? 0) then
    let t := match t with
             | t0 :: t1 :: t => carries 0 (u32 (t0 + 0x3D1) :: u32 (t1 + u32 (Z.shiftl x 6)) :: t)
             | _ => t
             end in
    check (Z.shiftr t.[9] 22 =? x) (
    verified (Fe (take 9 t ++ [Z.land t.[9] 0x03FFFFF]) 1 true))
  else verified (Fe t 1 true).

(** z0 == 0: the raw value is 0; z1 == M: it is p. *)
Definition raw_zero (t : list Z) : bool :=
  (Z.lor t.[0] (Z.lor t.[1] (Z.lor t.[2] (Z.lor t.[3] (Z.lor t.[4] (Z.lor t.[5] (Z.lor t.[6] (Z.lor t.[7]
    (Z.lor t.[8] t.[9])))))))) =? 0) ||
  (Z.land (Z.lxor t.[0] 0x3D0) (Z.land (Z.lxor t.[1] 0x40) (Z.land t.[2] (Z.land t.[3] (Z.land t.[4]
    (Z.land t.[5] (Z.land t.[6] (Z.land t.[7] (Z.land t.[8] (Z.lxor t.[9] 0x3C00000))))))))) =? 0x3FFFFFF).

Definition secp256k1_fe_normalizes_to_zero (r : secp256k1_fe) : option bool :=
  t ← first_pass (fe_n r);
  Some (raw_zero t).

(** With the fast return: the low limb alone rules out 0 and p. *)
Definition secp256k1_fe_normalizes_to_zero_var (r : secp256k1_fe) : option bool :=
  let n := fe_n r in
  let t0 := u32 (n.[0] + u32 (Z.shiftr n.[9] 22 * 0x3D1)) in
  let z0 := Z.land t0 fe_M in
  let z1 := Z.lxor z0 0x3D0 in
  if negb (z0 =? 0) && negb (z1 =? 0x3FFFFFF) then Some false
  else
    t ← first_pass n;
    Some (raw_zero t).

(** ** Comparisons *)

(** From the most significant limb down. *)
Fixpoint limbs_cmp (i : nat) (a b : list Z) : Z :=
  match i with
  | O => 0
  | S i => if b.[i] <? a.[i] then 1 else if a.[i] <? b.[i] then -1 else limbs_cmp i a b
  end.

Definition secp256k1_fe_cmp_var (a b : secp256k1_fe) : option Z :=
  check (fe_normalized a) (check (fe_normalized b) (
  check (secp256k1_fe_verify a) (check (secp256k1_fe_verify b) (
  Some (limbs_cmp 10 (fe_n a) (fe_n b)))))).

Definition secp256k1_fe_equal (a b : secp256k1_fe) : option bool :=
  na ← secp256k1_fe_negate a 1;
  na ← secp256k1_fe_add na b;
  secp256k1_fe_normalizes_to_zero na.

Definition secp256k1_fe_equal_var (a b : secp256k1_fe) : option bool :=
  na ← secp256k1_fe_negate a 1;
  na ← secp256k1_fe_add na b;
  secp256k1_fe_normalizes_to_zero_var na.

Definition secp256k1_fe_is_odd (a : secp256k1_fe) : option bool :=
  check (fe_normalized a) (check (secp256k1_fe_verify a) (Some (negb (Z.land (fe_n a).[0] 1 =? 0)))).

Definition secp256k1_fe_is_zero (a : secp256k1_fe) : option bool :=
  check (fe_normalized a) (check (secp256k1_fe_verify a) (
  Some (fold_right Z.lor 0 (fe_n a) =? 0))).

(** ** Inverse and square root *)

Fixpoint fe_sqr_times (n : nat) (t : secp256k1_fe) : option secp256k1_fe :=
  match n with
  | O => Some t
  | S n => t ← secp256k1_fe_sqr t; fe_sqr_times n t
  end.

(** The common part of both chains: x2, x3, x22 and x223, where xN is
    a^(2^N - 1). *)
Definition fe_chain (a : secp256k1_fe) : option (secp256k1_fe * secp256k1_fe * secp256k1_fe) :=
  x2 ← secp256k1_fe_sqr a; x2 ← secp256k1_fe_mul x2 a;
  x3 ← secp256k1_fe_sqr x2; x3 ← secp256k1_fe_mul x3 a;
  x6 ← fe_sqr_times 3 x3; x6 ← secp256k1_fe_mul x6 x3;
  x9 ← fe_sqr_times 3 x6; x9 ← secp256k1_fe_mul x9 x3;
  x11 ← fe_sqr_times 2 x9; x11 ← secp256k1_fe_mul x11 x2;
  x22 ← fe_sqr_times 11 x11; x22 ← secp256k1_fe_mul x22 x11;
  x44 ← fe_sqr_times 22 x22; x44 ← secp256k1_fe_mul x44 x22;
  x88 ← fe_sqr_times 44 x44; x88 ← secp256k1_fe_mul x88 x44;
  x176 ← fe_sqr_times 88 x88; x176 ← secp256k1_fe_mul x176 x88;
  x220 ← fe_sqr_times 44 x176; x220 ← secp256k1_fe_mul x220 x44;
  x223 ← fe_sqr_times 3 x220; x223 ← secp256k1_fe_mul x223 x3;
  Some (x2, x22, x223).

Definition secp256k1_fe_inv (a : secp256k1_fe) : option secp256k1_fe :=
  '(x2, x22, x223) ← fe_chain a;
  t1 ← fe_sqr_times 23 x223; t1 ← secp256k1_fe_mul t1 x22;
  t1 ← fe_sqr_times 5 t1; t1 ← secp256k1_fe_mul t1 a;
  t1 ← fe_sqr_times 3 t1; t1 ← secp256k1_fe_mul t1 x2;
  t1 ← fe_sqr_times 2 t1;
  secp256k1_fe_mul a t1.

Definition secp256k1_fe_inv_var (a : secp256k1_fe) : option secp256k1_fe := secp256k1_fe_inv a.

(** The root, and whether it is one. *)
Definition secp256k1_fe_sqrt (a : secp256k1_fe) : option (secp256k1_fe * bool) :=
  '(x2, x22, x223) ← fe_chain a;
  t1 ← fe_sqr_times 23 x223; t1 ← secp256k1_fe_mul t1 x22;
  t1 ← fe_sqr_times 6 t1; t1 ← secp256k1_fe_mul t1 x2;
  t1 ← secp256k1_fe_sqr t1;
  r ← secp256k1_fe_sqr t1;
  t1 ← secp256k1_fe_sqr r;
  ok ← secp256k1_fe_equal t1 a;
  Some (r, ok).

(** ** Bytes and storage *)

Definition set_be32_limbs (a : list Z) : list Z :=
  [Z.lor (Z.lor (Z.lor a.[31] (Z.shiftl a.[30] 8)) (Z.shiftl a.[29] 16)) (Z.shiftl (Z.land a.[28] 0x3) 24);
   Z.lor (Z.lor (Z.lor (Z.land (Z.shiftr a.[28] 2) 0x3f) (Z.shiftl a.[27] 6)) (Z.shiftl a.[26] 14)) (Z.shiftl (Z.land a.[25] 0xf) 22);
   Z.lor (Z.lor (Z.lor (Z.land (Z.shiftr a.[25] 4) 0xf) (Z.shiftl a.[24] 4)) (Z.shiftl a.[23] 12)) (Z.shiftl (Z.land a.[22] 0x3f) 20);
   Z.lor (Z.lor (Z.lor (Z.land (Z.shiftr a.[22] 6) 0x3) (Z.shiftl a.[21] 2)) (Z.shiftl a.[20] 10)) (Z.shiftl a.[19] 18);
   Z.lor (Z.lor (Z.lor a.[18] (Z.shiftl a.[17] 8)) (Z.shiftl a.[16] 16)) (Z.shiftl (Z.land a.[15] 0x3) 24);
   Z.lor (Z.lor (Z.lor (Z.land (Z.shiftr a.[15] 2) 0x3f) (Z.shiftl a.[14] 6)) (Z.shiftl a.[13] 14)) (Z.shiftl (Z.land a.[12] 0xf) 22);
   Z.lor (Z.lor (Z.lor (Z.land (Z.shiftr a.[12] 4) 0xf) (Z.shiftl a.[11] 4)) (Z.shiftl a.[10] 12)) (Z.shiftl (Z.land a.[9] 0x3f) 20);
   Z.lor (Z.lor (Z.lor (Z.land (Z.shiftr a.[9] 6) 0x3) (Z.shiftl a.[8] 2)) (Z.shiftl a.[7] 10)) (Z.shiftl a.[6] 18);
   Z.lor (Z.lor (Z.lor a.[5] (Z.shiftl a.[4] 8)) (Z.shiftl a.[3] 16)) (Z.shiftl (Z.land a.[2] 0x3) 24);
   Z.lor (Z.lor (Z.land (Z.shiftr a.[2] 2) 0x3f) (Z.shiftl a.[1] 6)) (Z.shiftl a.[0] 14)].

(** From 32 big-endian bytes into [r]; false when they spell p or more, and
    then the bookkeeping of [r] is left as it was. *)
Definition secp256k1_fe_set_be32 (r : secp256k1_fe) (a : list Z) : option (secp256k1_fe * bool) :=
  let n := set_be32_limbs a in
  if limbs_at_least_p n then Some (Fe n (fe_magnitude r) (fe_normalized r), false)
  else r ← verified (Fe n 1 true); Some (r, true).

Definition get_be32_bytes (n : list Z) : list Z :=
  [Z.land (Z.shiftr n.[9] 14) 0xff;
   Z.land (Z.shiftr n.[9] 6) 0xff;
   Z.lor (Z.shiftl (Z.land n.[9] 0x3F) 2) (Z.land (Z.shiftr n.[8] 24) 0x3);
   Z.land (Z.shiftr n.[8] 16) 0xff;
   Z.land (Z.shiftr n.[8] 8) 0xff;
   Z.land n.[8] 0xff;
   Z.land (Z.shiftr n.[7] 18) 0xff;
   Z.land (Z.shiftr n.[7] 10) 0xff;
   Z.land (Z.shiftr n.[7] 2) 0xff;
   Z.lor (Z.shiftl (Z.land n.[7] 0x3) 6) (Z.land (Z.shiftr n.[6] 20) 0x3f);
   Z.land (Z.shiftr n.[6] 12) 0xff;
   Z.land (Z.shiftr n.[6] 4) 0xff;
   Z.lor (Z.shiftl (Z.land n.[6] 0xf) 4) (Z.land (Z.shiftr n.[5] 22) 0xf);
   Z.land (Z.shiftr n.[5] 14) 0xff;
   Z.land (Z.shiftr n.[5] 6) 0xff;
   Z.lor (Z.shiftl (Z.land n.[5] 0x3f) 2) (Z.land (Z.shiftr n.[4] 24) 0x3);
   Z.land (Z.shiftr n.[4] 16) 0xff;
   Z.land (Z.shiftr n.[4] 8) 0xff;
   Z.land n.[4] 0xff;
   Z.land (Z.shiftr n.[3] 18) 0xff;
   Z.land (Z.shiftr n.[3] 10) 0xff;
   Z.land (Z.shiftr n.[3] 2) 0xff;
   Z.lor (Z.shiftl (Z.land n.[3] 0x3) 6) (Z.land (Z.shiftr n.[2] 20) 0x3f);
   Z.land (Z.shiftr n.[2] 12) 0xff;
   Z.land (Z.shiftr n.[2] 4) 0xff;
   Z.lor (Z.shiftl (Z.land n.[2] 0xf) 4) (Z.land (Z.shiftr n.[1] 22) 0xf);
   Z.land (Z.shiftr n.[1] 14) 0xff;
   Z.land (Z.shiftr n.[1] 6) 0xff;
   Z.lor (Z.shiftl (Z.land n.[1] 0x3f) 2) (Z.land (Z.shiftr n.[0] 24) 0x3);
   Z.land (Z.shiftr n.[0] 16) 0xff;
   Z.land (Z.shiftr n.[0] 8) 0xff;
   Z.land n.[0] 0xff].

Definition secp256k1_fe_get_be32 (a : secp256k1_fe) : option (list Z) :=
  check (fe_normalized a) (check (secp256k1_fe_verify a) (Some (get_be32_bytes (fe_n a)))).

(** Eight 32-bit words. *)
Definition secp256k1_fe_storage : Type := list Z.

Definition storage_words (n : list Z) : secp256k1_fe_storage :=
  [Z.lor n.[0] (u32 (Z.shiftl n.[1] 26));
   Z.lor (Z.shiftr n.[1] 6) (u32 (Z.shiftl n.[2] 20));
   Z.lor (Z.shiftr n.[2] 12) (u32 (Z.shiftl n.[3] 14));
   Z.lor (Z.shiftr n.[3] 18) (u32 (Z.shiftl n.[4] 8));
   Z.lor (Z.lor (Z.shiftr n.[4] 24) (u32 (Z.shiftl n.[5] 2))) (u32 (Z.shiftl n.[6] 28));
   Z.lor (Z.shiftr n.[6] 4) (u32 (Z.shiftl n.[7] 22));
   Z.lor (Z.shiftr n.[7] 10) (u32 (Z.shiftl n.[8] 16));
   Z.lor (Z.shiftr n.[8] 16) (u32 (Z.shiftl n.[9] 10))].

Definition secp256k1_fe_to_storage (a : secp256k1_fe) : option secp256k1_fe_storage :=
  check (fe_normalized a) (Some (storage_words (fe_n a))).

Definition secp256k1_fe_from_storage (a : secp256k1_fe_storage) : secp256k1_fe :=
  Fe [Z.land a.[0] 0x3FFFFFF;
      Z.lor (Z.shiftr a.[0] 26) (Z.land (u32 (Z.shiftl a.[1] 6)) 0x3FFFFFF);
      Z.lor (Z.shiftr a.[1] 20) (Z.land (u32 (Z.shiftl a.[2] 12)) 0x3FFFFFF);
      Z.lor (Z.shiftr a.[2] 14) (Z.land (u32 (Z.shiftl a.[3] 18)) 0x3FFFFFF);
      Z.lor (Z.shiftr a.[3] 8) (Z.land (u32 (Z.shiftl a.[4] 24)) 0x3FFFFFF);
      Z.land (Z.shiftr a.[4] 2) 0x3FFFFFF;
      Z.lor (Z.shiftr a.[4] 28) (Z.land (u32 (Z.shiftl a.[5] 4)) 0x3FFFFFF);
      Z.lor (Z.shiftr a.[5] 22) (Z.land (u32 (Z.shiftl a.[6] 10)) 0x3FFFFFF);
      Z.lor (Z.shiftr a.[6] 16) (Z.land (u32 (Z.shiftl a.[7] 16)) 0x3FFFFFF);
      Z.shiftr a.[7] 10] 1 true.
