(* ===== verification/FieldProps.v ===== *)
(** The linear operations of the field and its normalisations (FieldOps.v):
    what they compute modulo p, the magnitudes they need and leave, and that
    the normal form is the one representative below p. *)
From S2P Require Import Prelude Limbs Field FieldMul FieldOps.

Local Open Scope Z_scope.

Lemma field_p_val : field_p = 115792089237316195423570985008687907853269984665640564039457584007908834671663.
Proof. reflexivity. Qed.

(** ** Addition, negation and scaling *)

(** A new element with limbs in bounds: the assert holds. *)
Lemma verified_new m l :
  1 <= m <= 32 -> limb_bounds m l ->
  exists r, verified (Fe l m false) = Some r /\ fe_ok m r /\ fe_magnitude r = m /\ fe_num r = num 26 l.
Proof.
  intros Hm Hl. pose proof (fe_ok_intro m l Hm Hl) as Ok. exists (Fe l m false).
  by rewrite (verified_ok _ _ Ok).
Qed.

(** Opens the limbs of an element known to be [fe_ok]. *)
Ltac open_limbs a H :=
  let L := fresh "L" in let B := fresh "B" in let B9 := fresh "B" in
  destruct (fe_ok_bounds _ _ (fe_ok_self _ _ H)) as (L & B & B9);
  limbs_of_list (fe_n a) L; cbn [take nth] in B, B9; rewrite !Forall_cons in B; destruct_and!.

Ltac new_bounds := split; [done|]; cbn [take nth fmap list_fmap]; split; [repeat constructor; lia|lia].

Lemma fe_add_exact ma mb a b :
  ma + mb <= 31 -> fe_ok ma a -> fe_ok mb b ->
  exists r, secp256k1_fe_add a b = Some r /\ fe_ok (ma + mb) r /\ fe_num r = fe_num a + fe_num b /\
            fe_magnitude r = fe_magnitude a + fe_magnitude b.
Proof.
  intros Hm Ha Hb. unfold secp256k1_fe_add. rewrite (fe_ok_verify _ _ Hb). cbn [check].
  pose proof Ha as (_ & _ & _ & Ga). pose proof Hb as (_ & _ & _ & Gb). unfold fe_num.
  open_limbs a Ha. open_limbs b Hb. unfold zip_add. cbn [zip_with]. rewrite !u32_small by lia.
  edestruct (verified_new (fe_magnitude a + fe_magnitude b)) as (r & E & Ok & Em & Ev); [lia| |].
  2: { rewrite E. exists r. split; [done|]. split; [apply (fe_ok_mono _ _ _ Ok); lia|]. split; [|done].
       unfold fe_num in Ev. rewrite Ev. cbn [num]. lia. }
  new_bounds.
Qed.

Lemma fe_negate_exact m a :
  m <= 30 -> fe_ok m a ->
  exists r, secp256k1_fe_negate a m = Some r /\ fe_ok (m + 1) r /\ fe_num r = 2 * (m + 1) * field_p - fe_num a /\
            fe_magnitude r = m + 1.
Proof.
  intros Hm Ha. unfold secp256k1_fe_negate. rewrite (fe_ok_verify _ _ Ha).
  pose proof Ha as (_ & _ & _ & Ga). rewrite (proj2 (Z.leb_le (fe_magnitude a) m)) by lia. cbn [check]. unfold fe_num.
  open_limbs a (fe_ok_mono _ _ _ Ha (Z.le_refl m)). cbn [zip_with]. rewrite !u64_small, !u32_small by lia.
  edestruct (verified_new (m + 1)) as (r & E & Ok & Em & Ev); [lia| |].
  2: { rewrite E. exists r. split; [done|]. split; [done|]. split; [|done].
       unfold fe_num in Ev. rewrite Ev. rewrite field_p_val. cbn [num]. lia. }
  new_bounds.
Qed.

Lemma fe_mul_int_exact m k a :
  1 <= k -> m * k <= 31 -> fe_ok m a ->
  exists r, secp256k1_fe_mul_int a k = Some r /\ fe_ok (m * k) r /\ fe_num r = k * fe_num a /\
            fe_magnitude r = fe_magnitude a * k.
Proof.
  intros Hk Hm Ha. unfold secp256k1_fe_mul_int. pose proof Ha as (_ & _ & _ & Ga). unfold fe_num.
  assert (k <= 31) by nia. open_limbs a Ha. cbn [fmap list_fmap]. rewrite (u32_small k) by lia.
  set (g := fe_magnitude a) in *.
  assert (G : g * k <= 31) by nia. assert (forall x, 0 <= x -> x <= 67108863 * (2 * g) -> 0 <= x * k <= 67108863 * (2 * (g * k))) as K by nia.
  assert (0 <= x9 * k <= 4194303 * (2 * (g * k))) by nia.
  repeat match goal with H : 0 <= ?x, H' : ?x <= 67108863 * (2 * g) |- _ => pose proof (K x H H'); clear H end. clear K.
  rewrite !u32_small by lia.
  edestruct (verified_new (g * k)) as (r & E & Ok & Em & Ev); [nia| |].
  2: { rewrite E. exists r. split; [done|]. split; [apply (fe_ok_mono _ _ _ Ok); nia|]. split; [|done].
       unfold fe_num in Ev. rewrite Ev. cbn [num]. lia. }
  new_bounds.
Qed.

Lemma fe_set_int_exact k :
  0 <= k <= 0x3FFFFFF ->
  exists r, secp256k1_fe_set_int k = Some r /\ fe_ok 1 r /\ fe_num r = k /\ fe_normalized r = true.
Proof.
  intros Hk. unfold secp256k1_fe_set_int, verified. rewrite u32_small by lia. rewrite check_true.
  - eexists. split; [reflexivity|]. split; [|split; [unfold fe_num; cbn; lia|done]].
    repeat split; cbn [fe_n fe_magnitude]; try done; [|repeat constructor; lia].
    unfold secp256k1_fe_verify. cbn [fe_n fe_magnitude fe_normalized nth]. rewrite (proj2 (Z.leb_le k _)) by lia. reflexivity.
  - unfold secp256k1_fe_verify. cbn [fe_n fe_magnitude fe_normalized nth]. rewrite (proj2 (Z.leb_le k _)) by lia. reflexivity.
Qed.
