(* ===== verification/FieldNorm.v ===== *)
(** The normalisations of field elements (FieldOps.v): the passes of carries,
    that the normal form is the one representative below p, the tests for zero
    and the comparisons on it. *)
From S2P Require Import Prelude Limbs Field FieldMul FieldOps FieldProps.

Local Open Scope Z_scope.

(** ** Carries *)

Lemma carries_exact c t :
  t <> [] -> 0 <= c < 64 -> Forall (fun x => 0 <= x < 2 ^ 32 - 64) t ->
  num 26 (carries c t) = c + num 26 t /\ length (carries c t) = length t /\
  Forall (limb 26) (take (length t - 1) (carries c t)) /\
  t.[length t - 1] <= (carries c t).[length t - 1] <= t.[length t - 1] + 63.
Proof.
  intros Hne Hc Ht. revert c Hc Hne. induction Ht as [|x t Hx Ht IH]; intros c Hc Hne; [done|]. clear Hne.
  destruct t as [|y t].
  - cbn. rewrite u32_small by lia. repeat split; [lia|constructor|lia|lia].
  - set (t' := y :: t) in *. change (carries c (x :: t')) with
      (Z.land (u32 (x + c)) fe_M :: carries (Z.shiftr (u32 (x + c)) 26) t').
    rewrite u32_small by lia. rewrite land_M, shiftr_W.
    pose proof (Z.div_mod (x + c) W ltac:(done)) as D. pose proof (Z.mod_pos_bound (x + c) W ltac:(done)) as M.
    destruct (IH ((x + c) / W)) as (V & L & F & B); [|done|].
    { split; [apply Z.div_pos; unfold W; lia|]. apply Z.div_lt_upper_bound; unfold W; lia. }
    cbn [num length]. rewrite V, L. change (2 ^ 26) with W. split; [lia|]. split; [done|].
    change (S (length t') - 1)%nat with (S (length t)). change (length t' - 1)%nat with (length t - 0)%nat in *.
    rewrite Nat.sub_0_r in *. cbn [take nth]. split; [|done]. constructor; [exact M|done].
Qed.

(** A value after a pass: nine limbs of 26 bits and a last of 23. *)
Definition passed (t : list Z) : Prop :=
  length t = 10%nat /\ Forall (limb 26) (take 9 t) /\ 0 <= t.[9].

Lemma fold_pass_exact x t :
  length t = 10%nat -> 0 <= x < 64 -> Forall (fun y => 0 <= y < 2 ^ 32 - 2 ^ 17) t ->
  passed (fold_pass x t) /\ num 26 (fold_pass x t) = num 26 t + x * (2 ^ 32 + 977) /\
  (fold_pass x t).[9] <= t.[9] + 63.
Proof.
  intros Hl Hx Ht. limbs_of_list t Hl. rewrite !Forall_cons in Ht. destruct_and!. unfold fold_pass.
  rewrite (Z.shiftl_mul_pow2 x 6) by lia. rewrite (u32_small (x * 977)), (u32_small (x * 2 ^ 6)), !u32_small by lia.
  edestruct (carries_exact 0 [x0 + x * 977; x1 + x * 2 ^ 6; x2; x3; x4; x5; x6; x7; x8; x9]) as (V & L & F & B);
    [done|lia|repeat constructor; lia|]. cbn [length Nat.sub] in *.
  split; [|split; [rewrite V; cbn [num]; lia|apply B]]. split; [done|]. split; [done|]. cbn [nth] in B |- *. lia.
Qed.

Lemma passed_bounds t : passed t -> 0 <= num 26 (take 9 t) < 2 ^ 234 /\ num 26 t = num 26 (take 9 t) + 2 ^ 234 * t.[9].
Proof.
  intros (Hl & Ht & H9). pose proof (num_bound 26 (take 9 t) ltac:(lia) Ht) as B.
  limbs_of_list t Hl. cbn [take] in *. change (26 * zlen [x0; x1; x2; x3; x4; x5; x6; x7; x8]) with 234 in B.
  split; [done|]. cbn [num nth]. lia.
Qed.

Lemma passed_top t : passed t -> t.[9] = num 26 t / 2 ^ 234.
Proof.
  intros Ht. destruct (passed_bounds t Ht) as [B V]. rewrite V.
  apply Z.div_unique with (num 26 (take 9 t)); lia.
Qed.

Lemma passed_mask t :
  passed t ->
  let r := take 9 t ++ [Z.land t.[9] 0x03FFFFF] in
  passed r /\ num 26 r = num 26 t mod 2 ^ 256 /\ r.[9] < 2 ^ 22.
Proof.
  intros Ht r. pose proof (passed_bounds t Ht) as [B V]. destruct Ht as (Hl & Ht & H9).
  assert (E : Z.land t.[9] 0x03FFFFF = t.[9] mod 2 ^ 22) by (apply (land_ones_mod _ 22); lia).
  pose proof (Z.mod_pos_bound t.[9] (2 ^ 22) ltac:(lia)) as M. pose proof (Z.div_mod t.[9] (2 ^ 22) ltac:(lia)) as D.
  assert (L9 : length (take 9 t) = 9%nat) by (rewrite length_take; lia).
  assert (R9 : r.[9] = t.[9] mod 2 ^ 22).
  { unfold r. rewrite app_nth2 by lia. rewrite L9. exact E. }
  rewrite R9. split; [|split; [|lia]].
  - split; [unfold r; rewrite length_app, L9; done|]. rewrite R9. split; [|lia].
    unfold r. by rewrite take_app_le, take_take by lia.
  - unfold r. rewrite num_app by lia. unfold zlen. rewrite L9, E. cbn [num]. change (26 * Z.of_nat 9) with 234. rewrite V.
    apply Z.mod_unique_pos with (t.[9] / 2 ^ 22); [|lia].
    change (2 ^ 256) with (2 ^ 234 * 2 ^ 22). nia.
Qed.

Lemma passed_limbs t : passed t -> t.[9] < 2 ^ 26 -> limbs 26 t.
Proof.
  intros (Hl & Ht & P9) H9. rewrite <- (take_drop 9 t). apply Forall_app. split; [done|].
  limbs_of_list t Hl. cbn [drop nth] in *. repeat constructor; unfold limb; lia.
Qed.

(** ** The first pass *)

(** At most one multiple of p is left to subtract. *)
Lemma first_pass_exact m n :
  m <= 31 -> limb_bounds m n ->
  exists t, first_pass n = Some t /\ passed t /\ num 26 t < 2 ^ 256 + 2 ^ 241 /\ limb_bounds 1 t /\
            num 26 t = num 26 n - n.[9] / 2 ^ 22 * field_p.
Proof.
  intros Hm (Hl & Hn & H9). unfold first_pass. cbn zeta. rewrite (land_ones_mod _ 22), (Z.shiftr_div_pow2 n.[9]) by lia.
  pose proof (Z.div_mod n.[9] (2 ^ 22) ltac:(lia)) as D. pose proof (Z.mod_pos_bound n.[9] (2 ^ 22) ltac:(lia)) as M.
  set (x := n.[9] / 2 ^ 22) in *. set (y := n.[9] mod 2 ^ 22) in *.
  assert (Hx : 0 <= x < 64) by lia.
  destruct (fold_pass_exact x (take 9 n ++ [y])) as (P & V & T); [rewrite length_app, length_take, Hl; done|done| |].
  { apply Forall_app. split; [|repeat constructor; lia]. apply (Forall_impl _ _ _ Hn). lia. }
  set (t := fold_pass x _) in *. clearbody t.
  assert (E9 : (take 9 n ++ [y]).[9] = y).
  { rewrite app_nth2; rewrite length_take; [|lia]. by replace (9 - _)%nat with 0%nat by lia. }
  rewrite E9 in T. pose proof P as (_ & _ & P9). pose proof (passed_bounds t P) as [B V'].
  exists t. rewrite check_true.
  2: { apply Z.eqb_eq. rewrite Z.shiftr_div_pow2 by lia. apply Z.div_small. lia. }
  split; [done|]. split; [done|]. split; [lia|]. split.
  - destruct P as (Lt & Ft & _). split; [done|]. split; [|lia]. apply (Forall_impl _ _ _ Ft). unfold limb. lia.
  - rewrite V, num_app by lia. limbs_of_list n Hl. cbn [take num nth] in *.
    change (26 * zlen [x0; x1; x2; x3; x4; x5; x6; x7; x8]) with 234.
    rewrite field_p_val. lia.
Qed.

(** ** At or above p *)

Lemma land_full x y : 0 <= x < 2 ^ 26 -> 0 <= y < 2 ^ 26 ->
  0 <= Z.land x y < 2 ^ 26 /\ (Z.land x y = fe_M <-> x = fe_M /\ y = fe_M).
Proof.
  intros Hx Hy. split; [apply (land_bound_r x y 26); lia|]. split.
  - intros E. assert (forall i, 0 <= i < 26 -> Z.testbit x i = true /\ Z.testbit y i = true) as Hb.
    { intros i Hi. apply andb_true_iff. rewrite <- Z.land_spec, E. change fe_M with (Z.ones 26).
      apply Z.ones_spec_low. lia. }
    assert (forall z, 0 <= z < 2 ^ 26 -> (forall i, 0 <= i < 26 -> Z.testbit z i = true) -> z = fe_M) as K.
    { intros z Hz Hz'. apply Z.bits_inj'. intros i Hi. change fe_M with (Z.ones 26).
      destruct (Z.ltb_spec i 26).
      - rewrite Z.ones_spec_low by lia. apply Hz'. lia.
      - rewrite Z.ones_spec_high by lia. destruct (Z.eq_dec z 0) as [->|]; [apply Z.bits_0|].
        apply Z.bits_above_log2; [lia|]. apply Z.lt_le_trans with 26; [|lia]. apply Z.log2_lt_pow2; lia. }
    split; apply K; try done; intros i Hi; by apply Hb.
  - intros [-> ->]. reflexivity.
Qed.

Lemma limbs_at_least_p_spec t :
  passed t -> t.[9] < 2 ^ 22 -> limbs_at_least_p t = (field_p <=? num 26 t).
Proof.
  intros (Hl & Ht & P9) H9. limbs_of_list t Hl. cbn [take nth] in *. rewrite !Forall_cons in Ht. unfold limb in Ht.
  destruct Ht as (H0 & H1 & H2 & H3 & H4 & H5 & H6 & H7 & H8 & _). unfold limbs_at_least_p. cbn [nth].
  destruct (land_full x3 x2) as [B3 E3]; [done..|]. destruct (land_full x4 _ H4 B3) as [B4 E4].
  destruct (land_full x5 _ H5 B4) as [B5 E5]. destruct (land_full x6 _ H6 B5) as [B6 E6].
  destruct (land_full x7 _ H7 B6) as [B7 E7]. destruct (land_full x8 _ H8 B7) as [B8 E8].
  rewrite E7, E6, E5, E4, E3 in E8. rewrite Z.shiftr_div_pow2 by lia. rewrite field_p_val. cbn [num].
  pose proof (Z.div_mod (x0 + 977) (2 ^ 26) ltac:(lia)) as D.
  pose proof (Z.mod_pos_bound (x0 + 977) (2 ^ 26) ltac:(lia)) as M.
  set (q := (x0 + 977) / 2 ^ 26) in *. set (r := (x0 + 977) mod 2 ^ 26) in *. clearbody q r.
  apply eq_true_iff_eq. rewrite !andb_true_iff, !Z.eqb_eq, Z.ltb_lt, Z.leb_le. change 67108863 with fe_M at 1. rewrite E8.
  unfold fe_M. clear -H0 H1 H2 H3 H4 H5 H6 H7 H8 P9 H9 D M. lia.
Qed.

(** The flag of the final reduction: p or more is left. *)
Lemma needs_final_spec t :
  passed t -> num 26 t < 2 ^ 257 -> needs_final t = ⟦field_p <=? num 26 t⟧.
Proof.
  intros P Hlt. pose proof (passed_top t P) as T. pose proof (passed_bounds t P) as [B V].
  unfold needs_final. rewrite Z.shiftr_div_pow2 by lia. pose proof P as (_ & _ & P9).
  destruct (Z.ltb_spec t.[9] (2 ^ 22)) as [H|H].
  - rewrite Z.div_small by lia. by rewrite limbs_at_least_p_spec.
  - unfold limbs_at_least_p. rewrite (proj2 (Z.eqb_neq t.[9] _)) by lia. cbn [andb Z.b2z]. rewrite Z.lor_0_r.
    rewrite (proj2 (Z.leb_le field_p _)) by (rewrite field_p_val; lia). cbn [Z.b2z].
    symmetry. apply Z.div_unique with (t.[9] - 2 ^ 22); lia.
Qed.

(** ** Elements in normal form *)

Definition fe_normal (a : secp256k1_fe) : Prop := fe_ok 1 a /\ fe_normalized a = true.

Lemma fe_normal_bounds a : fe_normal a ->
  limbs 26 (fe_n a) /\ passed (fe_n a) /\ (fe_n a).[9] < 2 ^ 22 /\ 0 <= fe_num a < field_p.
Proof.
  intros [(Hv & Hl & Hp & Hg) Hn]. unfold secp256k1_fe_verify in Hv. rewrite Hn in Hv. unfold fe_num.
  rewrite !andb_true_iff, !Z.leb_le, negb_true_iff in Hv. destruct Hv as (((((((((((V0 & V1) & V2) & V3) & V4) & V5) & V6) & V7) & V8) & V9) & _) & _ & Hp').
  assert (L : limbs 26 (fe_n a)).
  { limbs_of_list (fe_n a) Hl. cbn [nth] in *. rewrite !Forall_cons in Hp. destruct_and!. unfold limbs, limb.
    repeat constructor; lia. }
  assert (P : passed (fe_n a)).
  { split; [done|]. split; [by apply Forall_take|]. pose proof (limbs_nth 26 _ 9 L ltac:(lia)) as [? _]. done. }
  split; [done|]. split; [done|]. split; [lia|]. rewrite limbs_at_least_p_spec in Hp' by (done || lia).
  apply Z.leb_gt in Hp'. pose proof (num_bound 26 _ ltac:(lia) L). lia.
Qed.

Lemma fe_normal_intro t :
  passed t -> num 26 t < field_p -> exists r, verified (Fe t 1 true) = Some r /\ fe_normal r /\ fe_num r = num 26 t.
Proof.
  intros P Hlt. pose proof (passed_top t P) as T. pose proof (passed_bounds t P) as [B V].
  assert (H9 : t.[9] < 2 ^ 22) by (rewrite field_p_val in Hlt; lia).
  assert (Hv : secp256k1_fe_verify (Fe t 1 true) = true).
  { unfold secp256k1_fe_verify. cbn [fe_n fe_magnitude fe_normalized]. rewrite limbs_at_least_p_spec by done.
    rewrite (proj2 (Z.leb_gt _ _) Hlt). destruct P as (Hl & Ht & P9). limbs_of_list t Hl. cbn [take nth] in *.
    rewrite !Forall_cons in Ht. unfold limb in Ht. destruct_and!. rewrite !andb_true_iff, !Z.leb_le. repeat split; lia. }
  exists (Fe t 1 true). unfold verified. rewrite check_true by done. split; [done|]. split; [|done]. split; [|done].
  split; [done|]. destruct P as (Hl & Ht & P9). split; [done|]. split; [|cbn; lia]. cbn [fe_n].
  limbs_of_list t Hl. cbn [take nth] in *. rewrite !Forall_cons in Ht. unfold limb in Ht. destruct_and!. repeat constructor; lia.
Qed.

Lemma passed_below t : passed t -> num 26 t < 2 ^ 257 -> Forall (fun y => 0 <= y < 2 ^ 32 - 2 ^ 17) t.
Proof.
  intros P Hlt. pose proof (passed_bounds t P) as [B V]. destruct P as (Hl & Ht & P9). limbs_of_list t Hl.
  cbn [take nth] in *. rewrite !Forall_cons in Ht. unfold limb in Ht. destruct_and!. repeat constructor; lia.
Qed.

(** The final reduction subtracts p exactly when p or more is left. *)
Lemma final_pass_exact t :
  passed t -> num 26 t < 2 ^ 256 + 2 ^ 241 ->
  let x := ⟦field_p <=? num 26 t⟧ in
  let t' := fold_pass x t in
  Z.shiftr t'.[9] 22 = x /\ passed (take 9 t' ++ [Z.land t'.[9] 0x03FFFFF]) /\
  num 26 (take 9 t' ++ [Z.land t'.[9] 0x03FFFFF]) = num 26 t mod field_p.
Proof.
  intros P Hlt x t'. pose proof (passed_bounds t P) as [B V].
  assert (Hx : 0 <= x <= 1) by (unfold x; destruct (_ <=? _); cbn; lia).
  destruct (fold_pass_exact x t) as (P' & V' & T'); [apply P|lia|apply passed_below; [done|lia]|].
  fold t' in P', V', T'. destruct (passed_mask t' P') as (PM & VM & _). rewrite VM. split; [|split; [done|]].
  - rewrite Z.shiftr_div_pow2, passed_top, Z.div_div by (done || lia). change (2 ^ 234 * 2 ^ 22) with (2 ^ 256).
    rewrite V'. pose proof field_p_val as F. pose proof P as (_ & _ & P9). unfold x in *.
    destruct (Z.leb_spec field_p (num 26 t)); cbn [Z.b2z] in *; symmetry.
    + apply Z.div_unique with (num 26 t + 2 ^ 32 + 977 - 2 ^ 256); lia.
    + apply Z.div_unique with (num 26 t); lia.
  - rewrite V'. pose proof field_p_val as F. pose proof P as (_ & _ & P9). unfold x in *.
    destruct (Z.leb_spec field_p (num 26 t)); cbn [Z.b2z] in *.
    + transitivity (num 26 t - field_p); [|apply Z.mod_unique_pos with 1; lia].
      symmetry. apply Z.mod_unique_pos with 1; lia.
    + rewrite !Z.mod_small by lia. lia.
Qed.

(** ** The normalisations *)

Lemma mod_sub_p v q : (v - q * field_p) mod field_p = v mod field_p.
Proof. rewrite <- Z.add_opp_r, <- Z.mul_opp_l. apply Z_mod_plus_full. Qed.

Lemma fe_normalize_weak_exact m a :
  m <= 31 -> fe_ok m a ->
  exists r, secp256k1_fe_normalize_weak a = Some r /\ fe_ok 1 r /\ fe_num r mod field_p = fe_num a mod field_p.
Proof.
  intros Hm Ha. destruct (first_pass_exact m (fe_n a)) as (t & E & P & Hlt & Hb & V); [done|by apply fe_ok_bounds|].
  unfold secp256k1_fe_normalize_weak. bind_step E. unfold fe_num. destruct (fe_normalized a) eqn:Hn.
  - destruct (fe_normal_bounds a) as (_ & _ & H9 & B); [|unfold fe_num in B].
    { split; [|done]. pose proof Ha as (Hv & Hl & Hp & Hg). repeat split; try done; [lia|].
      unfold secp256k1_fe_verify in Hv. rewrite Hn, !andb_true_iff, !Z.leb_le in Hv. by destruct_and!. }
    pose proof (fe_ok_bounds m a Ha) as (_ & _ & P9). rewrite Z.div_small in V by lia.
    destruct (fe_normal_intro t P) as (r & -> & N & Er); [lia|]. exists r. split; [done|]. split; [apply N|].
    unfold fe_num in Er. by rewrite Er, V, mod_sub_p.
  - destruct (verified_new 1 t) as (r & -> & Ok & _ & Er); [lia|done|]. exists r. split; [done|]. split; [done|].
    unfold fe_num in Er. by rewrite Er, V, mod_sub_p.
Qed.

Lemma fe_normalize_exact m a :
  m <= 31 -> fe_ok m a ->
  exists r, secp256k1_fe_normalize a = Some r /\ fe_normal r /\ fe_num r = fe_num a mod field_p.
Proof.
  intros Hm Ha. destruct (first_pass_exact m (fe_n a)) as (t & E & P & Hlt & Hb & V); [done|by apply fe_ok_bounds|].
  unfold secp256k1_fe_normalize. bind_step E. cbn zeta. rewrite needs_final_spec by (done || lia).
  destruct (final_pass_exact t P Hlt) as (T & P' & V'). rewrite T, Z.eqb_refl. cbn [check].
  destruct (fe_normal_intro _ P') as (r & -> & N & Er); [rewrite V'; apply Z.mod_pos_bound; rewrite field_p_val; lia|].
  exists r. split; [done|]. split; [done|]. unfold fe_num in *. by rewrite Er, V', V, mod_sub_p.
Qed.

(** The variable-time form is the same function. *)
Lemma fe_normalize_var_eq m a :
  m <= 31 -> fe_ok m a -> secp256k1_fe_normalize_var a = secp256k1_fe_normalize a.
Proof.
  intros Hm Ha. destruct (first_pass_exact m (fe_n a)) as (t & E & P & Hlt & Hb & V); [done|by apply fe_ok_bounds|].
  unfold secp256k1_fe_normalize, secp256k1_fe_normalize_var. rewrite !(bind_some _ _ _ E). cbn zeta.
  rewrite needs_final_spec by (done || lia). pose proof (final_pass_exact t P Hlt) as H. cbn zeta in H.
  destruct (field_p <=? num 26 t) eqn:Hle; cbn [Z.b2z negb Z.eqb] in *; [done|].
  destruct H as (-> & P' & V'). cbn [Z.eqb check]. do 2 f_equal. apply Z.leb_gt in Hle.
  pose proof (passed_bounds t P) as [B Vt]. pose proof P as (Lt & Ft & P9). destruct P' as (L' & F' & P9').
  assert (T9 : t.[9] < 2 ^ 22) by (rewrite field_p_val in Hle; lia).
  apply (num_inj 26); [lia| | |congruence|rewrite V', Z.mod_small; lia].
  - apply passed_limbs; [done|lia].
  - apply passed_limbs; [done|]. rewrite passed_top, V' by done. apply Z.div_lt_upper_bound; [lia|].
    pose proof (Z.mod_pos_bound (num 26 t) field_p). rewrite field_p_val in *. lia.
Qed.

(** ** The tests for zero *)

Lemma lxor_eq x c d : Z.lxor x c = d <-> x = Z.lxor d c.
Proof.
  split; intros H; [rewrite <- H|rewrite H]; by rewrite Z.lxor_assoc, Z.lxor_nilpotent, Z.lxor_0_r.
Qed.

Lemma raw_zero_spec t :
  passed t -> t.[9] < 2 ^ 23 -> raw_zero t = (num 26 t =? 0) || (num 26 t =? field_p).
Proof.
  intros (Hl & Ht & P9) H9. limbs_of_list t Hl. cbn [take nth] in *. rewrite !Forall_cons in Ht. unfold limb in Ht.
  destruct Ht as (H0 & H1 & H2 & H3 & H4 & H5 & H6 & H7 & H8 & _). unfold raw_zero. cbn [nth]. f_equal.
  - apply eq_true_iff_eq. rewrite !Z.eqb_eq, !Z.lor_eq_0_iff. cbn [num]. lia.
  - pose proof (lxor_bound x0 0x3D0 26 ltac:(lia) H0 ltac:(lia)) as L0.
    pose proof (lxor_bound x1 0x40 26 ltac:(lia) H1 ltac:(lia)) as L1.
    pose proof (lxor_bound x9 0x3C00000 26 ltac:(lia) ltac:(lia) ltac:(lia)) as L9.
    destruct (land_full x8 _ H8 L9) as [B8 E8]. destruct (land_full x7 _ H7 B8) as [B7 E7].
    destruct (land_full x6 _ H6 B7) as [B6 E6]. destruct (land_full x5 _ H5 B6) as [B5 E5].
    destruct (land_full x4 _ H4 B5) as [B4 E4]. destruct (land_full x3 _ H3 B4) as [B3 E3].
    destruct (land_full x2 _ H2 B3) as [B2 E2]. destruct (land_full _ _ L1 B2) as [B1 E1].
    destruct (land_full _ _ L0 B1) as [B0 E0].
    apply eq_true_iff_eq. rewrite !Z.eqb_eq. change 67108863 with fe_M.
    rewrite E0, E1, E2, E3, E4, E5, E6, E7, E8, !lxor_eq.
    change (Z.lxor fe_M 0x3D0) with 0x3FFFC2F. change (Z.lxor fe_M 0x40) with 0x3FFFFBF.
    change (Z.lxor fe_M 0x3C00000) with 0x03FFFFF. unfold fe_M. rewrite field_p_val. cbn [num].
    clear -H0 H1 H2 H3 H4 H5 H6 H7 H8 P9 H9. lia.
Qed.

Lemma zero_mod_p v : 0 <= v < 2 * field_p -> (v =? 0) || (v =? field_p) = (v mod field_p =? 0).
Proof.
  rewrite field_p_val. intros H. apply eq_true_iff_eq. rewrite orb_true_iff, !Z.eqb_eq.
  split; [intros [-> | ->]; reflexivity|]. intros E. apply Z.mod_divide in E as [q ->]; lia.
Qed.

Lemma fe_normalizes_to_zero_exact m a :
  m <= 31 -> fe_ok m a -> secp256k1_fe_normalizes_to_zero a = Some (fe_num a mod field_p =? 0).
Proof.
  intros Hm Ha. destruct (first_pass_exact m (fe_n a)) as (t & E & P & Hlt & Hb & V); [done|by apply fe_ok_bounds|].
  unfold secp256k1_fe_normalizes_to_zero. bind_step E. pose proof (passed_bounds t P) as [B Vt].
  pose proof P as (_ & _ & P9). rewrite raw_zero_spec, zero_mod_p by (done || rewrite ?field_p_val; lia).
  unfold fe_num. by rewrite V, mod_sub_p.
Qed.

(** The fast return agrees: the low limb of 0 and of p is known. *)
Lemma first_pass_low n t :
  first_pass n = Some t -> length n = 10%nat ->
  t.[0] = Z.land (u32 (n.[0] + u32 (Z.shiftr n.[9] 22 * 0x3D1))) fe_M.
Proof.
  unfold first_pass. cbn zeta. intros E Hl. apply check_some in E as [_ [= <-]]. limbs_of_list n Hl.
  cbn [take nth app fold_pass carries]. rewrite Z.add_0_r. f_equal. unfold u32. by rewrite Z.mod_mod.
Qed.

Lemma fe_normalizes_to_zero_var_eq m a :
  m <= 31 -> fe_ok m a -> secp256k1_fe_normalizes_to_zero_var a = secp256k1_fe_normalizes_to_zero a.
Proof.
  intros Hm Ha. destruct (first_pass_exact m (fe_n a)) as (t & E & P & Hlt & Hb & V); [done|by apply fe_ok_bounds|].
  pose proof Ha as (_ & Hl & _). pose proof (first_pass_low _ _ E Hl) as T0.
  unfold secp256k1_fe_normalizes_to_zero_var, secp256k1_fe_normalizes_to_zero. cbn zeta. rewrite <- T0, !(bind_some _ _ _ E).
  destruct (negb (t.[0] =? 0) && _) eqn:H; [|done]. rewrite andb_true_iff, !negb_true_iff, !Z.eqb_neq in H.
  pose proof (passed_bounds t P) as [B Vt]. f_equal. symmetry. rewrite raw_zero_spec by (done || lia).
  destruct H as [H0 H1]. change 67108863 with fe_M in H1. rewrite lxor_eq in H1. change (Z.lxor fe_M 976) with 0x3FFFC2F in H1.
  destruct P as (Lt & Ft & P9). limbs_of_list t Lt. cbn [take nth] in *. rewrite !Forall_cons in Ft. unfold limb in Ft.
  destruct_and!. rewrite field_p_val. cbn [num]. rewrite orb_false_iff, !Z.eqb_neq. lia.
Qed.

(** ** Comparisons *)

(** Equality modulo p, of a first operand of magnitude 1. *)
Lemma fe_equal_exact m a b :
  m <= 29 -> fe_ok 1 a -> fe_ok m b ->
  secp256k1_fe_equal a b = Some (bool_decide (fe_num a mod field_p = fe_num b mod field_p)) /\
  secp256k1_fe_equal_var a b = secp256k1_fe_equal a b.
Proof.
  intros Hm Ha Hb. unfold secp256k1_fe_equal, secp256k1_fe_equal_var.
  destruct (fe_negate_exact 1 a ltac:(lia) Ha) as (na & E & Na & Vn & _). rewrite !(bind_some _ _ _ E).
  destruct (fe_add_exact (1 + 1) m na b ltac:(lia) Na Hb) as (s & Es & Ns & Vs & _). rewrite !(bind_some _ _ _ Es).
  rewrite (fe_normalizes_to_zero_var_eq (1 + 1 + m)), (fe_normalizes_to_zero_exact (1 + 1 + m)) by (done || lia).
  split; [|done]. f_equal. rewrite Vs, Vn. apply eq_true_iff_eq. rewrite Z.eqb_eq, bool_decide_eq_true.
  assert (Hp : field_p <> 0) by done. set (p := field_p) in *. clearbody p. replace (2 * (1 + 1) * p - fe_num a + fe_num b) with
    (fe_num b - fe_num a - (- 4) * p) by lia.
  rewrite <- Z.add_opp_r, <- Z.mul_opp_l, Z_mod_plus_full. split.
  - intros H. apply Z.mod_divide in H as [k Hk]; [|done]. replace (fe_num b) with (fe_num a + k * p) by lia.
    by rewrite Z_mod_plus_full.
  - intros H. by rewrite Zminus_mod, H, Z.sub_diag.
Qed.

Lemma limbs_cmp_spec i a b :
  limbs 26 a -> limbs 26 b -> (i <= length a)%nat -> (i <= length b)%nat ->
  limbs_cmp i a b = match num 26 (take i a) ?= num 26 (take i b) with Gt => 1 | Lt => -1 | Eq => 0 end.
Proof.
  intros Ha Hb. induction i as [|i IH]; intros Li Lj; [done|]. cbn [limbs_cmp].
  assert (S : forall l, limbs 26 l -> (S i <= length l)%nat -> num 26 (take (S i) l) = num 26 (take i l) + 2 ^ (26 * Z.of_nat i) * l.[i] /\
    0 <= num 26 (take i l) < 2 ^ (26 * Z.of_nat i)).
  { intros l Hl L. destruct (lookup_lt_is_Some_2 l i L) as [x Hx]. rewrite (take_S_r _ _ _ Hx), num_app by lia.
    assert (Z : zlen (take i l) = Z.of_nat i) by (unfold zlen; rewrite length_take; lia). rewrite Z. cbn [num].
    rewrite (nth_lookup_Some _ _ _ _ Hx). split; [lia|]. pose proof (num_bound 26 (take i l) ltac:(lia)) as B.
    rewrite Z in B. apply B. by apply Forall_take. }
  destruct (S a Ha Li) as [-> Ba]. destruct (S b Hb Lj) as [-> Bb].
  set (k := 2 ^ (26 * Z.of_nat i)) in *. set (u := num 26 (take i a)) in *. set (v := num 26 (take i b)) in *.
  destruct (Z.ltb_spec b.[i] a.[i]) as [H|H]; [|destruct (Z.ltb_spec a.[i] b.[i]) as [H'|H']].
  - assert (v + k * b.[i] < u + k * a.[i]) as L by nia. rewrite (proj2 (Z.compare_gt_iff _ _)) by lia. done.
  - assert (u + k * a.[i] < v + k * b.[i]) as L by nia. rewrite (proj2 (Z.compare_lt_iff _ _)) by lia. done.
  - rewrite IH by lia. assert (a.[i] = b.[i]) as -> by lia. rewrite !(Z.add_comm _ (k * b.[i])), Z.add_compare_mono_l. done.
Qed.

Lemma fe_cmp_var_exact a b :
  fe_normal a -> fe_normal b ->
  secp256k1_fe_cmp_var a b = Some (match fe_num a ?= fe_num b with Gt => 1 | Lt => -1 | Eq => 0 end).
Proof.
  intros Na Nb. destruct (fe_normal_bounds a Na) as (La & Pa & _). destruct (fe_normal_bounds b Nb) as (Lb & Pb & _).
  destruct Na as [Oa Ea]. destruct Nb as [Ob Eb]. unfold secp256k1_fe_cmp_var.
  rewrite Ea, Eb, (fe_ok_verify _ _ Oa), (fe_ok_verify _ _ Ob). cbn [check]. f_equal.
  destruct Pa as (Ka & _). destruct Pb as (Kb & _).
  rewrite limbs_cmp_spec, !take_ge by (done || lia). done.
Qed.

Lemma fe_is_odd_exact a : fe_normal a -> secp256k1_fe_is_odd a = Some (Z.odd (fe_num a)).
Proof.
  intros Na. destruct (fe_normal_bounds a Na) as (La & (Hl & _) & _). destruct Na as [Oa Ea].
  unfold secp256k1_fe_is_odd. rewrite Ea, (fe_ok_verify _ _ Oa). cbn [check]. f_equal. unfold fe_num.
  limbs_of_list (fe_n a) Hl. cbn [nth num]. pose proof (land_ones_mod x0 1 ltac:(lia)) as E. change (2 ^ 1 - 1) with 1 in E.
  rewrite E, Z.odd_add, Z.odd_mul by lia.
  change (Z.odd (2 ^ 26)) with false. cbn [andb]. rewrite xorb_false_r, Zmod_odd. by destruct (Z.odd x0).
Qed.

Lemma fe_is_zero_exact a : fe_normal a -> secp256k1_fe_is_zero a = Some (fe_num a =? 0).
Proof.
  intros Na. destruct (fe_normal_bounds a Na) as (La & (Hl & _) & _). destruct Na as [Oa Ea].
  unfold secp256k1_fe_is_zero. rewrite Ea, (fe_ok_verify _ _ Oa). cbn [check]. f_equal. unfold fe_num.
  limbs_of_list (fe_n a) Hl. unfold limbs in La. rewrite !Forall_cons in La. unfold limb in La. destruct_and!.
  cbn [fold_right num]. apply eq_true_iff_eq. rewrite !Z.eqb_eq, !Z.lor_eq_0_iff. lia.
Qed.
