(* ===== verification/FieldInv.v ===== *)
(** The inverse and the square root of the field (FieldOps.v): the addition
    chains raise to the powers p - 2 and (p + 1) / 4, which are the inverse and
    a root, p being prime; and the byte and storage forms of an element. *)
From S2P Require Import Prelude Limbs Field FieldMul FieldOps FieldProps FieldNorm Primes.
From Stdlib Require Import Zmod.

Local Open Scope Z_scope.

(** ** The addition chains *)

(** [u] is a factor whose value is x^e. *)
Definition fe_power (x e : Z) (u : secp256k1_fe) : Prop :=
  fe_ok 8 u /\ fe_num u mod field_p = x ^ e mod field_p.

Lemma fe_power_mul x e f a b :
  0 <= e -> 0 <= f -> fe_power x e a -> fe_power x f b ->
  exists r, secp256k1_fe_mul a b = Some r /\ fe_ok 1 r /\ fe_power x (e + f) r.
Proof.
  intros He Hf [Ha Va] [Hb Vb]. destruct (fe_mul_exact a b Ha Hb) as (r & E & Hr & Vr).
  exists r. split; [done|]. split; [done|]. split; [apply (fe_ok_mono 1); [done|lia]|].
  by rewrite Vr, Z.mul_mod, Va, Vb, <- Z.mul_mod, <- Z.pow_add_r.
Qed.

Lemma fe_power_sqr x e a :
  0 <= e -> fe_power x e a -> exists r, secp256k1_fe_sqr a = Some r /\ fe_ok 1 r /\ fe_power x (2 * e) r.
Proof.
  intros He [Ha Va]. destruct (fe_sqr_exact a Ha) as (r & E & Hr & Vr).
  exists r. split; [done|]. split; [done|]. split; [apply (fe_ok_mono 1); [done|lia]|].
  rewrite Vr, Z.mul_mod, Va, <- Z.mul_mod, <- Z.pow_add_r by done. do 2 f_equal. lia.
Qed.

Lemma fe_power_sqr_times x n e a :
  0 <= e -> fe_power x e a -> exists u, fe_sqr_times n a = Some u /\ fe_power x (2 ^ Z.of_nat n * e) u.
Proof.
  revert e a. induction n as [|n IH]; intros e a He Ha.
  - exists a. split; [done|]. by rewrite Z.mul_1_l.
  - cbn [fe_sqr_times]. destruct (fe_power_sqr x e a He Ha) as (u & E & _ & Hu). bind_step E.
    destruct (IH (2 * e) u ltac:(lia) Hu) as (v & -> & Hv). exists v. split; [done|].
    rewrite Nat2Z.inj_succ, Z.pow_succ_r by lia. by replace (2 * 2 ^ Z.of_nat n * e) with (2 ^ Z.of_nat n * (2 * e)) by ring.
Qed.

(** One step of a chain: the exponent of the next value, computed. *)
Ltac fe_step :=
  let go lem := let u := fresh "u" in let E := fresh "E" in let H := fresh "Hu" in
    destruct lem as (u & E & H); bind_step E;
    lazymatch type of H with _ /\ _ => destruct H as [_ H] | _ => idtac end;
    match type of H with fe_power ?x ?e u => let v := eval vm_compute in e in change (fe_power x v u) in H end in
  match goal with
  | |- context [mbind _ (secp256k1_fe_mul ?a ?b)] =>
      match goal with Ha : fe_power ?x ?e a, Hb : fe_power ?x ?f b |- _ =>
        go (fe_power_mul x e f a b ltac:(lia) ltac:(lia) Ha Hb) end
  | |- context [mbind _ (secp256k1_fe_sqr ?a)] =>
      match goal with Ha : fe_power ?x ?e a |- _ => go (fe_power_sqr x e a ltac:(lia) Ha) end
  | |- context [mbind _ (fe_sqr_times ?n ?a)] =>
      match goal with Ha : fe_power ?x ?e a |- _ => go (fe_power_sqr_times x n e a ltac:(lia) Ha) end
  end.

Lemma fe_chain_powers x a :
  fe_power x 1 a ->
  exists x2 x22 x223, fe_chain a = Some (x2, x22, x223) /\
    fe_power x (2 ^ 2 - 1) x2 /\ fe_power x (2 ^ 22 - 1) x22 /\ fe_power x (2 ^ 223 - 1) x223.
Proof.
  let v := eval vm_compute in (2 ^ 223 - 1) in change (2 ^ 223 - 1) with v.
  change (2 ^ 2 - 1) with 3. change (2 ^ 22 - 1) with 4194303.
  intros Ha. unfold fe_chain. repeat fe_step. do 3 eexists. split; [reflexivity|].
  repeat match goal with
    | |- _ /\ _ => split
    | H : fe_power x ?e ?u |- fe_power x ?e ?u => exact H
    end.
Qed.

Lemma fe_inv_power a :
  fe_ok 8 a -> exists r, secp256k1_fe_inv a = Some r /\ fe_ok 1 r /\ fe_num r mod field_p = fe_num a ^ (field_p - 2) mod field_p.
Proof.
  intros Ha. assert (H1 : fe_power (fe_num a) 1 a) by (split; [done|by rewrite Z.pow_1_r]).
  unfold secp256k1_fe_inv. destruct (fe_chain_powers _ _ H1) as (x2 & x22 & x223 & E & H2 & H22 & H223). bind_step E.
  change (2 ^ 2 - 1) with 3 in H2. change (2 ^ 22 - 1) with 4194303 in H22.
  let v := eval vm_compute in (2 ^ 223 - 1) in change (2 ^ 223 - 1) with v in H223.
  repeat fe_step.
  match goal with
  | Hu : fe_power _ ?e ?u |- context [secp256k1_fe_mul a ?u] =>
      destruct (fe_power_mul _ 1 e a u ltac:(lia) ltac:(lia) H1 Hu) as (r & -> & Ok & Hr)
  end.
  exists r. split; [done|]. split; [done|]. destruct Hr as [_ ->]. f_equal.
Qed.

(** ** The inverse *)

Lemma prime_field_p : Z.prime field_p.
Proof. exact prime_p. Qed.

Lemma fe_inv_exact a :
  fe_ok 8 a ->
  exists r, secp256k1_fe_inv a = Some r /\ fe_ok 1 r /\
    (fe_num a mod field_p <> 0 -> (fe_num a * fe_num r) mod field_p = 1) /\
    (fe_num a mod field_p = 0 -> fe_num r mod field_p = 0).
Proof.
  intros Ha. destruct (fe_inv_power a Ha) as (r & E & Ok & V). exists r. split; [done|]. split; [done|].
  pose proof field_p_val as Ep.
  assert (S : fe_num a ^ (field_p - 1) = fe_num a * fe_num a ^ (field_p - 2)).
  { rewrite <- (Z.pow_succ_r (fe_num a)) by (rewrite Ep; lia). f_equal. }
  split; intros H.
  - rewrite Z.mul_mod, V, <- Z.mul_mod, <- S by done. by apply (Z.fermat_nz field_p), H; apply prime_field_p.
  - rewrite V. apply Z.mod_divide in H as [k ->]; [|done].
    replace (field_p - 2) with (Z.succ (field_p - 3)) by lia. rewrite Z.pow_succ_r by lia.
    apply Z.mod_divide; [done|]. generalize ((k * field_p) ^ (field_p - 3)). intros y. exists (k * y). ring.
Qed.

(** ** The square root *)

Lemma fe_sqrt_power a :
  fe_ok 8 a ->
  exists r, secp256k1_fe_sqrt a = Some (r, bool_decide ((fe_num r * fe_num r) mod field_p = fe_num a mod field_p)) /\
    fe_ok 1 r /\ fe_num r mod field_p = fe_num a ^ ((field_p + 1) / 4) mod field_p.
Proof.
  intros Ha. assert (H1 : fe_power (fe_num a) 1 a) by (split; [done|by rewrite Z.pow_1_r]).
  unfold secp256k1_fe_sqrt. destruct (fe_chain_powers _ _ H1) as (x2 & x22 & x223 & E & H2 & H22 & H223). bind_step E.
  change (2 ^ 2 - 1) with 3 in H2. change (2 ^ 22 - 1) with 4194303 in H22.
  let v := eval vm_compute in (2 ^ 223 - 1) in change (2 ^ 223 - 1) with v in H223.
  do 5 fe_step. clear H2 H22 H223.
  match goal with
  | Hu : fe_power _ ?e ?u |- context [secp256k1_fe_sqr ?u] =>
      destruct (fe_power_sqr _ e u ltac:(lia) Hu) as (r & E & Ok & Hr); bind_step E
  end.
  destruct (fe_sqr_exact r) as (t & E & Ot & Vt); [apply (fe_ok_mono 1); [done|lia]|]. bind_step E.
  destruct (fe_equal_exact 8 t a ltac:(lia) Ot Ha) as [E _]. bind_step E. rewrite Vt.
  exists r. split; [done|]. split; [done|]. destruct Hr as [_ ->]. f_equal.
Qed.

(** The root is one exactly when the element is a square. *)
Lemma fe_sqrt_exact a :
  fe_ok 8 a ->
  exists r ok, secp256k1_fe_sqrt a = Some (r, ok) /\ fe_ok 1 r /\
    (ok = true <-> exists y, (y * y) mod field_p = fe_num a mod field_p) /\
    (ok = true <-> (fe_num r * fe_num r) mod field_p = fe_num a mod field_p).
Proof.
  intros Ha. destruct (fe_sqrt_power a Ha) as (r & -> & Ok & V). eexists r, _. split; [reflexivity|]. split; [done|].
  rewrite bool_decide_eq_true. split; [|done]. split; [by eexists|]. intros [y Hy].
  pose proof field_p_val as Ep. set (e := (field_p + 1) / 4) in *.
  assert (E4 : 4 * e = field_p + 1) by reflexivity. assert (He : 0 <= e) by (unfold e; vm_compute; discriminate).
  rewrite Z.mul_mod, V, <- Z.mul_mod, <- Z.pow_add_r by done.
  rewrite <- Z.mod_pow_l, <- Hy, Z.mod_pow_l, <- Z.pow_2_r, <- Z.pow_mul_r by lia.
  replace (2 * (e + e)) with (Z.succ field_p) by lia. rewrite Z.pow_succ_r by lia.
  rewrite <- Z.mul_mod_idemp_r, (Z.fermat field_p y prime_field_p), Z.mul_mod_idemp_r by done.
  by rewrite Z.pow_2_r.
Qed.
