(* ===== verification/FieldBytes.v ===== *)
(** The 32-byte and the storage forms of a field element (FieldOps.v) spell
    its value, so that both round trips give the element back. *)
From S2P Require Import Prelude Limbs Scalar ScalarProps Field FieldMul FieldOps FieldProps FieldNorm.

Local Open Scope Z_scope.

(** A value of [w] bits cut at bit [k], the two parts as the code masks them. *)
Lemma cut w k x :
  0 <= k <= w -> 0 <= x < 2 ^ w ->
  exists h l, x = 2 ^ k * h + l /\ 0 <= l < 2 ^ k /\ 0 <= h < 2 ^ (w - k) /\
    Z.land x (2 ^ k - 1) = l /\ Z.shiftr x k = h /\ Z.land (Z.shiftr x k) (2 ^ (w - k) - 1) = h.
Proof.
  intros Hk Hx. exists (x / 2 ^ k), (x mod 2 ^ k). rewrite Z.shiftr_div_pow2, !land_ones_mod by lia.
  assert (B : 0 <= x / 2 ^ k < 2 ^ (w - k)).
  { split; [apply Z.div_pos; lia|]. apply Z.div_lt_upper_bound; [lia|]. rewrite <- Z.pow_add_r by lia.
    replace (k + (w - k)) with w by lia. lia. }
  split; [apply Z.div_mod; lia|]. split; [apply Z.mod_pos_bound; lia|]. split; [done|].
  split; [done|]. split; [done|]. apply Z.mod_small. lia.
Qed.

(** Rewrites the masks of [x], of [w] bits, cut at [k]. *)
Ltac cut_at w k x :=
  let h := fresh "h" in let l := fresh "l" in let E := fresh "E" in
  let M := fresh in let S := fresh in let N := fresh in
  destruct (cut w k x ltac:(lia) ltac:(lia)) as (h & l & E & ?B & ?B & M & S & N);
  let m := eval vm_compute in (2 ^ k - 1) in change (2 ^ k - 1) with m in M;
  let n := eval vm_compute in (2 ^ (w - k) - 1) in change (2 ^ (w - k) - 1) with n in N;
  rewrite ?N, ?M, ?S; clear N M S.

(** Disjoint parts, from the innermost out. *)
Ltac add_parts :=
  repeat match goal with
    | |- context [Z.lor ?a (Z.shiftl ?b ?k)] =>
        lazymatch a with context [Z.lor _ _] => fail | _ => rewrite (lor_shiftl_add a b k) by lia end
    end.

Lemma set_be32_limbs_value b :
  bytes_ok b -> length b = 32%nat ->
  passed (set_be32_limbs b) /\ (set_be32_limbs b).[9] < 2 ^ 22 /\ num 26 (set_be32_limbs b) = be_value b.
Proof.
  intros Hb Hl. bytes_of b. unfold bytes_ok in Hb. rewrite !Forall_cons in Hb. unfold is_byte in Hb.
  destruct_and!. unfold set_be32_limbs. cbn [nth].
  cut_at 8 2 z27. cut_at 8 4 z24. cut_at 8 6 z21. cut_at 8 2 z14. cut_at 8 4 z11. cut_at 8 6 z8. cut_at 8 2 z1.
  add_parts. split; [|split; [lia|]].
  - split; [done|]. cbn [take nth]. split; [|lia]. unfold limb. repeat constructor; lia.
  - cbn [num]. rewrite !be_value_cons, be_value_nil, !zlen_cons, (@zlen_nil Z). cbn [Z.add Pos.add Pos.succ]. lia.
Qed.

(** Reading is exact below p and refuses the rest. *)
Lemma fe_set_be32_exact a b :
  bytes_ok b -> length b = 32%nat ->
  exists r, secp256k1_fe_set_be32 a b = Some (r, be_value b <? field_p) /\ fe_num r = be_value b /\
    (be_value b < field_p -> fe_normal r).
Proof.
  intros Hb Hl. destruct (set_be32_limbs_value b Hb Hl) as (P & H9 & V). unfold secp256k1_fe_set_be32. cbn zeta.
  rewrite limbs_at_least_p_spec, V by done. rewrite Z.leb_antisym. destruct (Z.ltb_spec (be_value b) field_p) as [Hlt|Hge]; cbn [negb].
  - destruct (fe_normal_intro _ P) as (r & E & N & Er); [by rewrite V|]. bind_step E. exists r. by rewrite Er, V.
  - eexists. split; [reflexivity|]. split; [exact V|lia].
Qed.

(** A limb of 26 bits cut into [i] bits, two bytes and the rest. *)
Lemma cut_limb i x :
  0 <= i <= 8 -> 0 <= x < 2 ^ 26 ->
  exists p q r t, x = p + 2 ^ i * q + 2 ^ (i + 8) * r + 2 ^ (i + 16) * t /\
    0 <= p < 2 ^ i /\ 0 <= q < 2 ^ 8 /\ 0 <= r < 2 ^ 8 /\ 0 <= t < 2 ^ (10 - i) /\
    Z.land x (2 ^ i - 1) = p /\ Z.land (Z.shiftr x i) 0xff = q /\ Z.land (Z.shiftr x (i + 8)) 0xff = r /\
    Z.land (Z.shiftr x (i + 16)) (2 ^ (10 - i) - 1) = t.
Proof.
  intros Hi Hx.
  destruct (cut 26 i x ltac:(lia) Hx) as (h & p & E & Bp & Bh & Mp & Sh & _).
  destruct (cut (26 - i) 8 h ltac:(lia) Bh) as (h' & q & E' & Bq & Bh' & Mq & Sh' & _).
  destruct (cut (26 - i - 8) 8 h' ltac:(lia) Bh') as (t & r & E'' & Br & Bt & Mr & St & Mt).
  exists p, q, r, t. rewrite !Z.pow_add_r by lia. replace (26 - i - 8 - 8) with (10 - i) in * by lia.
  split; [nia|]. do 4 (split; [done|]). split; [done|]. rewrite <- !(Z.shiftr_shiftr x), Sh by lia.
  split; [exact Mq|]. rewrite Sh'. split; [exact Mr|].
  change 16 with (8 + 8). rewrite <- Z.shiftr_shiftr, Sh' by lia. exact Mt.
Qed.

Ltac cut_limb_at i x :=
  let p := fresh "p" in let q := fresh "q" in let r := fresh "r" in let t := fresh "t" in
  let E := fresh "E" in let P := fresh in let Q := fresh in let R := fresh in let T := fresh in
  destruct (cut_limb i x ltac:(lia) ltac:(lia)) as (p & q & r & t & E & ?B & ?B & ?B & ?B & P & Q & R & T);
  let m := eval vm_compute in (2 ^ i - 1) in change (2 ^ i - 1) with m in P;
  let n := eval vm_compute in (2 ^ (10 - i) - 1) in change (2 ^ (10 - i) - 1) with n in T;
  let j := eval vm_compute in (i + 8) in change (i + 8) with j in R, E;
  let k := eval vm_compute in (i + 16) in change (i + 16) with k in T, E;
  rewrite ?P, ?Q, ?R, ?T; clear P Q R T.

Lemma get_be32_bytes_value n :
  limbs 26 n -> length n = 10%nat -> n.[9] < 2 ^ 22 ->
  bytes_ok (get_be32_bytes n) /\ length (get_be32_bytes n) = 32%nat /\ be_value (get_be32_bytes n) = num 26 n.
Proof.
  intros Hn Hl H9. limbs_of_list n Hl. unfold limbs in Hn. rewrite !Forall_cons in Hn. unfold limb in Hn. destruct_and!.
  cbn [nth] in H9. unfold get_be32_bytes. cbn [nth].
  cut_limb_at 8 x0. cut_limb_at 6 x1. cut_limb_at 4 x2. cut_limb_at 2 x3. cut_limb_at 8 x4.
  cut_limb_at 6 x5. cut_limb_at 4 x6. cut_limb_at 2 x7. cut_limb_at 8 x8. cut_limb_at 6 x9.
  rewrite !(Z.lor_comm (Z.shiftl _ _)). add_parts.
  unfold bytes_ok, is_byte. split; [repeat constructor; lia|]. split; [reflexivity|].
  cbn [num]. rewrite !be_value_cons, be_value_nil, !zlen_cons, (@zlen_nil Z). cbn [Z.add Pos.add Pos.succ]. lia.
Qed.

Lemma fe_get_be32_exact a :
  fe_normal a ->
  exists b, secp256k1_fe_get_be32 a = Some b /\ bytes_ok b /\ length b = 32%nat /\ be_value b = fe_num a.
Proof.
  intros Na. destruct (fe_normal_bounds a Na) as (La & (Hl & _) & H9 & _). destruct Na as [Oa Ea].
  destruct (get_be32_bytes_value (fe_n a) La Hl H9) as (Hb & Hlen & V). unfold secp256k1_fe_get_be32.
  rewrite Ea, (fe_ok_verify _ _ Oa). by exists (get_be32_bytes (fe_n a)).
Qed.

(** The bytes of an element in normal form are read back as it. *)
Lemma fe_set_be32_bytes a r b :
  fe_normal a -> bytes_ok b -> length b = 32%nat -> be_value b = fe_num a ->
  secp256k1_fe_set_be32 r b = Some (Fe (fe_n a) 1 true, true).
Proof.
  intros Na Hb Hl V. destruct (fe_normal_bounds a Na) as (La & Pa & H9 & B).
  destruct (set_be32_limbs_value b Hb Hl) as (P & H9' & V'). unfold secp256k1_fe_set_be32. cbn zeta.
  rewrite limbs_at_least_p_spec, V', V, (proj2 (Z.leb_gt _ _)) by (done || lia).
  destruct (fe_normal_intro _ P) as (r' & E & _); [rewrite V', V; lia|]. rewrite (bind_some _ _ _ E).
  apply check_some in E as [_ [= <-]]. do 3 f_equal. apply (num_inj 26); [lia| |done| |by rewrite V', V].
  - apply passed_limbs; [done|lia].
  - destruct P as (-> & _). destruct Pa as (-> & _). done.
Qed.

(** ** Storage *)

(** The bits of [2^k h + l] that a left shift keeps in a word, or in a limb. *)
Lemma shift_up_word k j h l :
  0 <= k -> 0 <= j -> k + j = 32 -> 0 <= l < 2 ^ k -> u32 (Z.shiftl (2 ^ k * h + l) j) = Z.shiftl l j.
Proof.
  intros Hk Hj E Hl. rewrite !Z.shiftl_mul_pow2 by lia. unfold u32.
  assert (E' : 2 ^ 32 = 2 ^ k * 2 ^ j) by (rewrite <- Z.pow_add_r, E by lia; done).
  symmetry. apply Z.mod_unique_pos with h; [nia|]. rewrite E'. ring.
Qed.

Lemma shift_up_limb k j h l :
  0 <= k -> 0 <= j -> k + j = 26 -> 0 <= l < 2 ^ k ->
  Z.land (u32 (Z.shiftl (2 ^ k * h + l) j)) 0x3FFFFFF = Z.shiftl l j.
Proof.
  intros Hk Hj E Hl. change 0x3FFFFFF with (2 ^ 26 - 1). rewrite land_ones_mod, !Z.shiftl_mul_pow2 by lia. unfold u32.
  assert (E' : 2 ^ 26 = 2 ^ k * 2 ^ j) by (rewrite <- Z.pow_add_r, E by lia; done).
  change (2 ^ 32) with (2 ^ 26 * 2 ^ 6). rewrite Z.rem_mul_r by lia.
  rewrite (Z.mul_comm (2 ^ 26)), Z_mod_plus_full, Z.mod_mod by lia.
  symmetry. apply Z.mod_unique_pos with h; [nia|]. rewrite E'. ring.
Qed.

Lemma low_limb h l : 0 <= l < 2 ^ 26 -> Z.land (2 ^ 26 * h + l) 0x3FFFFFF = l.
Proof.
  intros Hl. change 0x3FFFFFF with (2 ^ 26 - 1). rewrite land_ones_mod by lia.
  symmetry. by apply Z.mod_unique_pos with h.
Qed.

(** Cuts [x] at [k] into named parts and forgets [x]. *)
Ltac cut_into w k x h l :=
  let M := fresh in let S := fresh in let N := fresh in
  destruct (cut w k x ltac:(lia) ltac:(lia)) as (h & l & -> & ?B & ?B & M & S & N); rewrite ?S; clear M S N.

Lemma storage_words_value n :
  limbs 26 n -> length n = 10%nat -> n.[9] < 2 ^ 22 ->
  unit_ok (storage_words n) /\ num 32 (storage_words n) = num 26 n.
Proof.
  intros Hn Hl H9. limbs_of_list n Hl. unfold limbs in Hn. rewrite !Forall_cons in Hn. unfold limb in Hn. destruct_and!.
  cbn [nth] in H9. unfold storage_words. cbn [nth].
  cut_into 26 6 x1 h1 l1. cut_into 26 12 x2 h2 l2. cut_into 26 18 x3 h3 l3. cut_into 26 24 x4 h4 l4.
  cut_into 26 4 x6 h6 l6. cut_into 26 10 x7 h7 l7. cut_into 26 16 x8 h8 l8.
  rewrite (shift_up_word 6 26 h1 l1), (shift_up_word 12 20 h2 l2), (shift_up_word 18 14 h3 l3), (shift_up_word 24 8 h4 l4),
    (shift_up_word 4 28 h6 l6), (shift_up_word 10 22 h7 l7), (shift_up_word 16 16 h8 l8) by lia.
  rewrite (Z.shiftl_mul_pow2 x5 2), (Z.shiftl_mul_pow2 x9 10), (u32_small (x5 * 2 ^ 2)), (u32_small (x9 * 2 ^ 10)) by lia.
  rewrite <- (Z.shiftl_mul_pow2 x5 2), <- (Z.shiftl_mul_pow2 x9 10) by lia.
  add_parts. split; [|cbn [num]; lia]. split; [reflexivity|]. unfold limbs, limb. repeat constructor; lia.
Qed.

Lemma from_storage_value a :
  unit_ok a -> passed (fe_n (secp256k1_fe_from_storage a)) /\ fe_num (secp256k1_fe_from_storage a) = num 32 a.
Proof.
  intros Ha. words_of a.
  unfold fe_num, secp256k1_fe_from_storage. cbn [nth fe_n].
  cut_into 32 26 a0 h0 l0. cut_into 32 20 a1 h1 l1. cut_into 32 14 a2 h2 l2. cut_into 32 8 a3 h3 l3.
  cut_into 32 2 a4 h4 l4. cut_into 30 26 h4 m4 k4. 
  cut_into 32 22 a5 h5 l5. cut_into 32 16 a6 h6 l6. cut_into 32 10 a7 h7 l7.
  rewrite (shift_up_limb 20 6), (shift_up_limb 14 12), (shift_up_limb 8 18), (shift_up_limb 2 24), (shift_up_limb 22 4),
    (shift_up_limb 16 10), (shift_up_limb 10 16), !low_limb by lia.
  replace (Z.shiftr (2 ^ 2 * (2 ^ 26 * m4 + k4) + l4) 28) with m4.
  2: { rewrite Z.shiftr_div_pow2 by lia. apply Z.div_unique with (2 ^ 2 * k4 + l4); lia. }
  change (2 ^ (32 - 10)) with (2 ^ 22) in *. change (2 ^ (30 - 26)) with (2 ^ 4) in *. cbn [Z.sub Z.add Z.opp Z.pos_sub] in *.
  add_parts. split; [|cbn [num]; lia]. split; [done|]. cbn [take nth]. split; [|lia]. unfold limb. repeat constructor; lia.
Qed.

(** What is stored comes back. *)
Lemma storage_roundtrip a :
  fe_normal a -> exists s, secp256k1_fe_to_storage a = Some s /\ unit_ok s /\ num 32 s = fe_num a /\
    secp256k1_fe_from_storage s = Fe (fe_n a) 1 true.
Proof.
  intros Na. destruct (fe_normal_bounds a Na) as (La & (Hl & _) & H9 & B). destruct Na as [Oa Ea].
  destruct (storage_words_value (fe_n a) La Hl H9) as (U & V). unfold secp256k1_fe_to_storage. rewrite Ea.
  exists (storage_words (fe_n a)). split; [done|]. split; [done|]. split; [exact V|].
  destruct (from_storage_value _ U) as (P & V'). rewrite V in V'.
  unfold secp256k1_fe_from_storage in *. cbn [fe_n] in *. f_equal. unfold fe_num in V'. cbn [fe_n] in V'.
  apply (num_inj 26); [lia| |done|by rewrite Hl|done].
  apply passed_limbs; [done|]. rewrite (passed_top _ P). unfold fe_num in B. rewrite V'.
  apply Z.div_lt_upper_bound; [lia|]. rewrite field_p_val in B. lia.
Qed.
