(* ===== verification/ScalarSpec.v ===== *)
(** What the scalars of key/pubkey.cpp promise (Scalar.v, Wnaf.v): exact
    arithmetic modulo the group order n, which is prime, and the recoding of a
    multiplier into two short digit strings that the multiplication of points
    uses. *)
From S2P Require Import Prelude Limbs Scalar ScalarProps ScalarMul ScalarBits Wnaf Primes.
From Stdlib Require Import Zmod.

Local Open Scope Z_scope.

Lemma prime_order : Z.prime order.
Proof. rewrite order_val. exact prime_n. Qed.

Lemma scalar_inverse_exact a :
  scalar_ok a -> num 32 a <> 0 ->
  exists u, secp256k1_scalar_inverse a = Some u /\ scalar_ok u /\ (num 32 a * num 32 u) mod order = 1.
Proof.
  intros Ha Hz. destruct (scalar_inverse_power a (proj1 Ha)) as (u & E & Hu & _ & V). exists u. split; [done|]. split; [done|].
  pose proof order_val as O. pose proof (unit_bound a (proj1 Ha)) as B.
  rewrite Z.mul_mod, V, <- Z.mul_mod by lia. rewrite <- (Z.pow_succ_r (num 32 a)) by lia.
  replace (Z.succ (order - 2)) with (order - 1) by lia. apply Z.fermat_nz; [exact prime_order|].
  rewrite Z.mod_small; [done|destruct Ha; lia].
Qed.

Definition ex_scalar : secp256k1_unit := [0x12345678; 0xFFFFFFFF; 0; 7; 0xDEADBEEF; 1; 0xFFFFFFFF; 0x7FFFFFFF].

Lemma ex_scalar_ok : scalar_ok ex_scalar.
Proof. split; [split; [reflexivity|]|reflexivity]. repeat constructor; vm_compute; discriminate. Qed.

(** C40 (functional): the scalars compute in the field of n elements: product and square are exact modulo n
    with no assert of their 96-bit accumulators failing, the sum reports its overflow, the negation is the
    additive inverse, and the addition chain for x^(n-2) gives the inverse of every scalar but zero. *)
Theorem scalar_field a b :
  scalar_ok a -> scalar_ok b ->
  (exists r, secp256k1_scalar_mul a b = Some r /\ scalar_ok r /\ num 32 r = (num 32 a * num 32 b) mod order) /\
  (exists r, secp256k1_scalar_sqr a = Some r /\ scalar_ok r /\ num 32 r = num 32 a ^ 2 mod order) /\
  (exists r, secp256k1_scalar_add a b = Some (r, ⟦order <=? num 32 a + num 32 b⟧) /\ scalar_ok r /\
     num 32 r = (num 32 a + num 32 b) mod order) /\
  (scalar_ok (secp256k1_scalar_negate a) /\ num 32 (secp256k1_scalar_negate a) = (- num 32 a) mod order) /\
  (num 32 a <> 0 ->
   exists u, secp256k1_scalar_inverse a = Some u /\ scalar_ok u /\ (num 32 a * num 32 u) mod order = 1).
Proof.
  intros Ha Hb. split; [exact (scalar_mul_spec a b (proj1 Ha) (proj1 Hb))|]. split.
  - rewrite Z.pow_2_r. exact (scalar_sqr_spec a (proj1 Ha)).
  - split; [|split; [exact (scalar_negate_spec a Ha)|exact (scalar_inverse_exact a Ha)]].
    destruct (scalar_add_spec a b Ha Hb) as (r & o & E & Hr & V & Vo). exists r. rewrite E, Vo. done.
Qed.

Lemma scalar_field_witness :
  exists u, secp256k1_scalar_inverse ex_scalar = Some u /\ scalar_ok u /\ (num 32 ex_scalar * num 32 u) mod order = 1.
Proof. apply (scalar_field ex_scalar ex_scalar ex_scalar_ok ex_scalar_ok). vm_compute. discriminate. Defined.

(** A multiplier is recoded without loss. split_lambda writes a scalar as r1 + lambda r2
    modulo n, and the wNAF of either half in 130 digits fails no assert and spells it modulo n as a sum of
    d_i 2^i with every d_i zero or odd and below 2^(w-1) in absolute value, none of them beyond the length
    that is returned; split_128 cuts a scalar in two halves whose wNAF fits 129 digits. *)
Lemma scalar_recoding a w :
  scalar_ok a -> 2 <= w <= 30 ->
  let spelled len r := exists digits bits, secp256k1_ecmult_wnaf len r w = Some (digits, bits) /\
    length digits = Z.to_nat len /\ 0 <= bits <= len /\ num 1 digits mod order = num 32 r /\
    (forall i, digit_ok w digits.[i]) /\ (forall i, bits <= Z.of_nat i -> digits.[i] = 0) in
  (exists r1 r2, secp256k1_scalar_split_lambda a = Some (r1, r2) /\
     (num 32 r1 + lambda * num 32 r2) mod order = num 32 a /\ spelled 130 r1 /\ spelled 130 r2) /\
  (exists r1 r2, secp256k1_scalar_split_128 a = (r1, r2) /\
     num 32 a = num 32 r1 + 2 ^ 128 * num 32 r2 /\ spelled 129 r1 /\ spelled 129 r2).
Proof.
  intros Ha Hw spelled. pose proof order_val as O. split.
  - destruct (split_lambda_halves a Ha) as (r1 & r2 & E & H1 & H2 & V & S1 & S2). exists r1, r2.
    split; [done|]. split; [done|]. split.
    + apply (wnaf_signed r1 130 w H1 ltac:(lia) Hw). apply short_absolute; [assumption..|lia].
    + apply (wnaf_signed r2 130 w H2 ltac:(lia) Hw). apply short_absolute; [assumption..|lia].
  - pose proof (scalar_split_128_spec a (proj1 Ha)) as H. destruct (secp256k1_scalar_split_128 a) as [r1 r2].
    destruct H as (U1 & U2 & L1 & L2 & V). exists r1, r2. split; [done|]. split; [done|].
    pose proof (unit_bound r1 U1). pose proof (unit_bound r2 U2).
    assert (T : forall r, unit_ok r -> num 32 r < 2 ^ 128 -> scalar_ok r /\ absolute r < 2 ^ (129 - 1)).
    { intros r Hr Hlt. split; [split; [done|lia]|]. unfold absolute. rewrite (proj2 (Z.ltb_lt _ _)) by lia. lia. }
    destruct (T r1 U1 L1) as [S1 A1]. destruct (T r2 U2 L2) as [S2 A2].
    split; [exact (wnaf_signed r1 129 w S1 ltac:(lia) Hw A1)|exact (wnaf_signed r2 129 w S2 ltac:(lia) Hw A2)].
Qed.

Lemma scalar_recoding_witness :
  exists r1 r2, secp256k1_scalar_split_lambda ex_scalar = Some (r1, r2) /\
    (num 32 r1 + lambda * num 32 r2) mod order = num 32 ex_scalar.
Proof.
  destruct (scalar_recoding ex_scalar 5 ex_scalar_ok ltac:(lia)) as [(r1 & r2 & E & V & _) _].
  exists r1, r2. split; [exact E|exact V].
Defined.
