(* ===== verification/FieldSpec.v ===== *)
(** What the field of key/pubkey.cpp promises (Field.v, FieldOps.v): exact
    products within the magnitudes that its asserts allow, a canonical form,
    inverses and square roots, and byte and storage forms that are read back. *)
From S2P Require Import Prelude Limbs Scalar ScalarProps Field FieldMul FieldOps FieldProps FieldNorm FieldInv FieldBytes.

Local Open Scope Z_scope.

(** An element with all limbs at the bound of magnitude 8, and one in normal
    form (the x coordinate of the generator). *)
Definition ex_large : secp256k1_fe := Fe (repeat (16 * 0x3FFFFFF) 9 ++ [16 * 0x3FFFFF]) 8 false.
Definition ex_normal : secp256k1_fe :=
  Fe [0x2F81798; 0xA056C5; 0x28D959F; 0x36CB738; 0x3029BFC; 0x3A1C2C1; 0x206295C; 0x2EEB156; 0x27EF9DC; 0x1E6F99] 1 true.

Lemma ex_large_ok : fe_ok 8 ex_large.
Proof. repeat split; [repeat constructor|..]; vm_compute; discriminate. Qed.
Lemma ex_normal_ok : fe_normal ex_normal.
Proof. repeat split; [repeat constructor|..]; vm_compute; discriminate. Qed.

(** C39 (bounds): on factors of magnitude up to 8 - limbs of up to 30 bits - multiplication and squaring
    fail none of their many VERIFY_BITS and VERIFY_CHECK asserts, no 64-bit accumulator wraps, and the
    result, of magnitude 1, is the exact product modulo p. *)
Theorem field_products a b :
  fe_ok 8 a -> fe_ok 8 b ->
  exists r s, secp256k1_fe_mul a b = Some r /\ fe_ok 1 r /\ fe_num r mod field_p = (fe_num a * fe_num b) mod field_p /\
    secp256k1_fe_sqr a = Some s /\ fe_ok 1 s /\ fe_num s mod field_p = fe_num a ^ 2 mod field_p.
Proof.
  intros Ha Hb. destruct (fe_mul_exact a b Ha Hb) as (r & E & Or & Vr). destruct (fe_sqr_exact a Ha) as (s & F & Os & Vs).
  exists r, s. rewrite Z.pow_2_r. done.
Qed.

Lemma field_products_witness :
  exists r s, secp256k1_fe_mul ex_large ex_large = Some r /\ fe_ok 1 r /\
    fe_num r mod field_p = (fe_num ex_large * fe_num ex_large) mod field_p /\
    secp256k1_fe_sqr ex_large = Some s /\ fe_ok 1 s /\ fe_num s mod field_p = fe_num ex_large ^ 2 mod field_p.
Proof. exact (field_products ex_large ex_large ex_large_ok ex_large_ok). Defined.

(** Every normalisation agrees with reduction modulo p. For an element of magnitude up
    to 31 both full normalisations return the one element in normal form with its value modulo p, the weak
    one some element of magnitude 1 with that value modulo p, and both tests for zero, the one with its
    early return too, tell whether p divides the value. *)
Lemma field_normal_form m a :
  m <= 31 -> fe_ok m a ->
  (exists r, secp256k1_fe_normalize a = Some r /\ secp256k1_fe_normalize_var a = Some r /\
     fe_normal r /\ fe_num r = fe_num a mod field_p) /\
  (exists r, secp256k1_fe_normalize_weak a = Some r /\ fe_ok 1 r /\ fe_num r mod field_p = fe_num a mod field_p) /\
  secp256k1_fe_normalizes_to_zero a = Some (fe_num a mod field_p =? 0) /\
  secp256k1_fe_normalizes_to_zero_var a = Some (fe_num a mod field_p =? 0).
Proof.
  intros Hm Ha. destruct (fe_normalize_exact m a Hm Ha) as (r & E & N & V). split; [|split].
  - exists r. by rewrite (fe_normalize_var_eq m a Hm Ha).
  - exact (fe_normalize_weak_exact m a Hm Ha).
  - rewrite (fe_normalizes_to_zero_var_eq m a Hm Ha). by rewrite (fe_normalizes_to_zero_exact m a Hm Ha).
Qed.

Lemma field_normal_form_witness :
  (exists r, secp256k1_fe_normalize ex_large = Some r /\ secp256k1_fe_normalize_var ex_large = Some r /\
     fe_normal r /\ fe_num r = fe_num ex_large mod field_p) /\
  (exists r, secp256k1_fe_normalize_weak ex_large = Some r /\ fe_ok 1 r /\ fe_num r mod field_p = fe_num ex_large mod field_p) /\
  secp256k1_fe_normalizes_to_zero ex_large = Some (fe_num ex_large mod field_p =? 0) /\
  secp256k1_fe_normalizes_to_zero_var ex_large = Some (fe_num ex_large mod field_p =? 0).
Proof. exact (field_normal_form 8 ex_large ltac:(lia) ex_large_ok). Defined.

(** The addition chains compute what they are for. The inverse of an element that is not
    zero modulo p is its inverse modulo p, zero goes to zero; and the square root reports success exactly
    when the element is a square modulo p, its result being a root exactly then. *)
Lemma field_inverse_and_root a :
  fe_ok 8 a ->
  (exists r, secp256k1_fe_inv a = Some r /\ fe_ok 1 r /\
     (fe_num a * fe_num r) mod field_p = (if fe_num a mod field_p =? 0 then 0 else 1) /\
     (fe_num a mod field_p = 0 -> fe_num r mod field_p = 0)) /\
  (exists r ok, secp256k1_fe_sqrt a = Some (r, ok) /\ fe_ok 1 r /\
     (ok = true <-> exists y, (y * y) mod field_p = fe_num a mod field_p) /\
     (ok = true <-> (fe_num r * fe_num r) mod field_p = fe_num a mod field_p)).
Proof.
  intros Ha. split; [|exact (fe_sqrt_exact a Ha)].
  destruct (fe_inv_exact a Ha) as (r & E & Ok & H1 & H0). exists r. split; [done|]. split; [done|]. split; [|done].
  destruct (Z.eqb_spec (fe_num a mod field_p) 0) as [Z|Z]; [|by apply H1].
  by rewrite Z.mul_mod, Z, Z.mul_0_l.
Qed.

Lemma field_inverse_and_root_witness :
  (exists r, secp256k1_fe_inv ex_large = Some r /\ fe_ok 1 r /\
     (fe_num ex_large * fe_num r) mod field_p = (if fe_num ex_large mod field_p =? 0 then 0 else 1) /\
     (fe_num ex_large mod field_p = 0 -> fe_num r mod field_p = 0)) /\
  (exists r ok, secp256k1_fe_sqrt ex_large = Some (r, ok) /\ fe_ok 1 r /\
     (ok = true <-> exists y, (y * y) mod field_p = fe_num ex_large mod field_p) /\
     (ok = true <-> (fe_num r * fe_num r) mod field_p = fe_num ex_large mod field_p)).
Proof. exact (field_inverse_and_root ex_large ex_large_ok). Defined.

(** An element in normal form is written as 32 big-endian bytes that spell its value and
    are read back as the same element, and is stored in eight words from which it comes back; 32 bytes
    that spell p or more are refused. *)
Lemma field_bytes_roundtrip a r :
  fe_normal a ->
  (exists b, secp256k1_fe_get_be32 a = Some b /\ length b = 32%nat /\ be_value b = fe_num a /\
     secp256k1_fe_set_be32 r b = Some (Fe (fe_n a) 1 true, true)) /\
  (exists s, secp256k1_fe_to_storage a = Some s /\ num 32 s = fe_num a /\
     secp256k1_fe_from_storage s = Fe (fe_n a) 1 true) /\
  (forall b, bytes_ok b -> length b = 32%nat -> field_p <= be_value b ->
     exists r', secp256k1_fe_set_be32 r b = Some (r', false)).
Proof.
  intros Na. split; [|split].
  - destruct (fe_get_be32_exact a Na) as (b & E & Hb & Hl & V). exists b. do 3 (split; [done|]).
    by apply fe_set_be32_bytes.
  - destruct (storage_roundtrip a Na) as (s & E & _ & V & F). by exists s.
  - intros b Hb Hl Hge. destruct (fe_set_be32_exact r b Hb Hl) as (r' & E & _). exists r'.
    by rewrite (proj2 (Z.ltb_ge _ _) Hge) in E.
Qed.

Lemma field_bytes_roundtrip_witness :
  (exists b, secp256k1_fe_get_be32 ex_normal = Some b /\ length b = 32%nat /\ be_value b = fe_num ex_normal /\
     secp256k1_fe_set_be32 ex_large b = Some (Fe (fe_n ex_normal) 1 true, true)) /\
  (exists s, secp256k1_fe_to_storage ex_normal = Some s /\ num 32 s = fe_num ex_normal /\
     secp256k1_fe_from_storage s = Fe (fe_n ex_normal) 1 true) /\
  (forall b, bytes_ok b -> length b = 32%nat -> field_p <= be_value b ->
     exists r', secp256k1_fe_set_be32 ex_large b = Some (r', false)).
Proof. exact (field_bytes_roundtrip ex_normal ex_large ex_normal_ok). Defined.
