(* ===== verification/Curve.v ===== *)
(** The group of points of a curve y^2 = x^3 + b over a field in which 2 is not
    zero and no point has y = 0: the chord-and-tangent addition, and that it is
    an abelian group.  key/pubkey.cpp computes in it (secp256k1, b = 7); this
    file is the specification that its group operations are compared with.

    The polynomial identities are left to [field], with the curve equations
    as rewriting rules; the case analysis of associativity rests on the
    cancellation law [padd_opp_cancel]. *)
From S2P Require Import Prelude.
From Stdlib Require Import Field.

Section Curve.

Context {F : Type} {F_dec : EqDecision F}.
Context (fO fI : F) (fadd fmul fsub : F -> F -> F) (fopp : F -> F) (fdiv : F -> F -> F) (finv : F -> F).
Context (F_field : field_theory fO fI fadd fmul fsub fopp fdiv finv (@eq F)).

Local Notation "x + y" := (fadd x y). Local Notation "x * y" := (fmul x y).
Local Notation "x - y" := (fsub x y). Local Notation "x / y" := (fdiv x y).
Local Notation "- x" := (fopp x). Local Notation "0" := fO. Local Notation "1" := fI.

Add Field F_field_tac : F_field.

Inductive point := Inf | Aff (x y : F).

#[export] Instance point_eq_dec : EqDecision point.
Proof. solve_decision. Defined.

(** The third point of the line of slope [l] through (x1, y1) and a point with
    first coordinate [x2], reflected. *)
Definition third (l x1 y1 x2 : F) : point :=
  let x3 := l * l - x1 - x2 in Aff x3 (l * (x1 - x3) - y1).

Definition chord (x1 y1 x2 y2 : F) : F := (y2 - y1) / (x2 - x1).
Definition tangent (x y : F) : F := (x * x + x * x + x * x) / (y + y).

Definition padd (P Q : point) : point :=
  match P, Q with
  | Inf, _ => Q
  | _, Inf => P
  | Aff x1 y1, Aff x2 y2 =>
      if decide (x1 = x2) then
        if decide (y1 = y2) then third (tangent x1 y1) x1 y1 x1 else Inf
      else third (chord x1 y1 x2 y2) x1 y1 x2
  end.

Definition popp (P : point) : point :=
  match P with Inf => Inf | Aff x y => Aff x (- y) end.

(** ** The field *)

Lemma frac_nz n d e : e <> 0 -> (d <> 0 -> e = n / d) -> d <> 0 -> n <> 0.
Proof. intros H E Hd Z. apply H. rewrite E, Z by done. field. done. Qed.

Lemma mul_zero x y : x * y = 0 -> x <> 0 -> y = 0.
Proof. intros H Hx. transitivity (x * y / x); [field; done|]. rewrite H. field. done. Qed.

Lemma mul_nz x y : x <> 0 -> y <> 0 -> x * y <> 0.
Proof. intros Hx Hy Z. apply Hy. by apply (mul_zero x). Qed.

Lemma sub_nz x y : x <> y -> y - x <> 0.
Proof. intros H Z. apply H. transitivity (y - (y - x)); [ring|]. rewrite Z. ring. Qed.

Lemma sub_zero x y : x - y = 0 -> x = y.
Proof. intros Z. transitivity (x - y + y); [ring|]. rewrite Z. ring. Qed.

Lemma opp_nz x : x <> 0 -> - x <> 0.
Proof. intros H Z. apply H. transitivity (- - x); [ring|]. rewrite Z. ring. Qed.

(** Side conditions of [field]: a numerator is not zero when the fraction, whose
    denominator is the square of a known non-zero, is not. *)
Ltac nz_with H d :=
  match type of H with ?e <> 0 => first
    [ apply (frac_nz _ (d * d) e H); [intros _; field; assumption|by apply mul_nz]
    | apply (frac_nz _ (d * d) (- e)); [by apply opp_nz|intros _; field; assumption|by apply mul_nz] ]
  end.
Ltac nz :=
  repeat split;
  first [assumption | match goal with Hd : ?d <> 0, H : _ <> 0 |- _ => nz_with H d end].

(** ** The curve *)

Context (b : F).
Context (two_nz : 1 + 1 <> 0).
Context (no_two_torsion : forall x y, y * y = x * x * x + b -> y <> 0).

Definition on_curve (P : point) : Prop :=
  match P with Inf => True | Aff x y => y * y = x * x * x + b end.

#[export] Instance on_curve_dec P : Decision (on_curve P).
Proof. destruct P; apply _. Defined.

Lemma double_nz x y : y * y = x * x * x + b -> y + y <> 0.
Proof.
  intros E Z. apply (no_two_torsion x y E). apply (mul_zero (1 + 1)); [|done]. rewrite <- Z. ring.
Qed.

Lemma popp_on_curve P : on_curve P -> on_curve (popp P).
Proof. destruct P as [|x y]; [done|]. cbn. intros <-. ring. Qed.

Lemma popp_opp P : popp (popp P) = P.
Proof. destruct P as [|x y]; [done|]. cbn. f_equal. ring. Qed.

(** Points with the same first coordinate are equal or opposite. *)
Lemma same_x x y1 y2 :
  y1 * y1 = x * x * x + b -> y2 * y2 = x * x * x + b -> y1 = y2 \/ y1 = - y2.
Proof.
  intros E1 E2. destruct (decide (y1 = y2)) as [|N]; [by left|right].
  apply sub_zero. transitivity (y1 + y2); [ring|].
  apply (mul_zero (y2 - y1)); [|by apply sub_nz]. transitivity (y2 * y2 - y1 * y1); [ring|]. rewrite E1, E2. ring.
Qed.

(** How two points are added. *)
Inductive added : point -> point -> point -> Prop :=
  | added_inf_l Q : added Inf Q Q
  | added_inf_r P : added P Inf P
  | added_opp P : added P (popp P) Inf
  | added_tangent x y : y + y <> 0 -> added (Aff x y) (Aff x y) (third (tangent x y) x y x)
  | added_chord x1 y1 x2 y2 : x2 - x1 <> 0 ->
      added (Aff x1 y1) (Aff x2 y2) (third (chord x1 y1 x2 y2) x1 y1 x2).

Lemma padd_added P Q : on_curve P -> on_curve Q -> added P Q (padd P Q).
Proof.
  intros HP HQ. destruct P as [|x1 y1], Q as [|x2 y2]; cbn [padd]; try constructor.
  destruct (decide (x1 = x2)) as [<-|N]; [|constructor; by apply sub_nz].
  destruct (decide (y1 = y2)) as [<-|N]; [constructor; by eapply double_nz|].
  destruct (same_x x1 y1 y2 HP HQ) as [-> | ->]; [done|].
  replace (Aff x1 y2) with (popp (Aff x1 (- y2))) by (cbn; f_equal; ring). constructor.
Qed.

Lemma padd_on_curve P Q : on_curve P -> on_curve Q -> on_curve (padd P Q).
Proof.
  intros HP HQ. destruct (padd_added P Q HP HQ) as [| | |x y H|x1 y1 x2 y2 H]; try done; cbn in *.
  - unfold tangent. field [HP]. done.
  - unfold chord. field [HP HQ]. done.
Qed.

Lemma padd_inf_r P : padd P Inf = P.
Proof. by destruct P. Qed.

Lemma padd_chord x1 y1 x2 y2 : x2 - x1 <> 0 -> padd (Aff x1 y1) (Aff x2 y2) = third (chord x1 y1 x2 y2) x1 y1 x2.
Proof. intros H. cbn. destruct (decide (x1 = x2)) as [->|]; [|done]. destruct H. ring. Qed.

Lemma padd_tangent x y : padd (Aff x y) (Aff x y) = third (tangent x y) x y x.
Proof. cbn. by repeat case_decide. Qed.

Lemma padd_opp P : on_curve P -> padd P (popp P) = Inf.
Proof.
  destruct P as [|x y]; [done|]. cbn. intros E. rewrite decide_True by done. rewrite decide_False; [done|].
  intros E'. apply (double_nz x y E). rewrite E' at 1. ring.
Qed.

Lemma padd_comm P Q : padd P Q = padd Q P.
Proof.
  destruct P as [|x1 y1], Q as [|x2 y2]; cbn [padd]; try done.
  repeat case_decide; try congruence. pose proof (sub_nz x1 x2 ltac:(done)). pose proof (sub_nz x2 x1 ltac:(done)).
  unfold third, chord. f_equal; field; done.
Qed.

Lemma popp_add P Q : on_curve P -> on_curve Q -> popp (padd P Q) = padd (popp P) (popp Q).
Proof.
  intros HP HQ. destruct (padd_added P Q HP HQ) as [Q|P|P|x y H|x1 y1 x2 y2 H]; cbn [popp].
  - done.
  - by rewrite padd_inf_r.
  - by rewrite padd_opp by (by apply popp_on_curve).
  - rewrite padd_tangent. unfold third, tangent, popp.
    assert (- y + - y <> 0) by (intros Z; apply H; transitivity (- (- y + - y)); [ring|rewrite Z; ring]).
    f_equal; field; done.
  - rewrite padd_chord by done. unfold third, chord, popp. f_equal; field; done.
Qed.

(** ** Cancellation *)

Lemma popp_inj P Q : popp P = popp Q -> P = Q.
Proof. intros H. by rewrite <- (popp_opp P), H, popp_opp. Qed.

(** No point but infinity is neutral for an affine one. *)
Lemma third_fixed l x y x2 : third l x y x2 = Aff x y -> y + y = 0.
Proof. intros [= Ex Ey]. rewrite Ex in Ey. rewrite <- Ey at 1. ring. Qed.

Lemma padd_fixed x y Q : on_curve (Aff x y) -> on_curve Q -> padd (Aff x y) Q = Aff x y -> Q = Inf.
Proof.
  intros HP HQ. cbn [padd]. destruct Q as [|x2 y2]; [done|]. intros E.
  destruct (decide (x = x2)), (decide (y = y2)); try done; apply third_fixed in E; by apply double_nz in HP.
Qed.

(** The line through two points meets a third that is the second again only as
    its tangent. *)
Lemma third_tangent x1 y1 x2 y2 :
  on_curve (Aff x1 y1) -> on_curve (Aff x2 y2) -> x2 - x1 <> 0 ->
  third (chord x1 y1 x2 y2) x1 y1 x2 = Aff x2 (- y2) ->
  third (tangent x2 y2) x2 y2 x2 = Aff x1 (- y1).
Proof.
  intros H1 H2 H [= Ex Ey]. pose proof (double_nz x2 y2 H2) as D. cbn in H1, H2.
  set (l := chord x1 y1 x2 y2) in *.
  assert (El : l * (x2 - x1) = y2 - y1) by (unfold l, chord; field; done). clearbody l.
  assert (E : l = tangent x2 y2).
  { apply sub_zero. apply (mul_zero (x2 - x1)); [|done]. unfold tangent.
    assert (Ey1 : y1 = y2 - l * (x2 - x1)) by (rewrite El; ring).
    assert (Ex1 : x1 = l * l - x2 - x2) by (transitivity (l * l - (l * l - x1 - x2) - x2); [ring|rewrite Ex; ring]).
    apply (mul_zero (y2 + y2)); [|done].
    transitivity ((x2 - x1) * (l * (y2 + y2) - (x2 * x2 + x2 * x2 + x2 * x2))); [field; done|].
    transitivity (y2 * y2 - (x2 * x2 * x2 + b) - (y1 * y1 - (x1 * x1 * x1 + b))); [|rewrite H1, H2; ring].
    rewrite Ey1, Ex1. ring. }
  rewrite <- E. unfold third.
  assert (Ex1 : l * l - x2 - x2 = x1) by (rewrite <- Ex at 2; ring). rewrite Ex1. f_equal.
  transitivity (- (y2 - l * (x2 - x1))); [ring|]. rewrite El. ring.
Qed.

Lemma cancel_chord x1 y1 x2 y2 :
  on_curve (Aff x1 y1) -> on_curve (Aff x2 y2) -> x2 - x1 <> 0 ->
  let l := chord x1 y1 x2 y2 in
  x2 - (l * l - x1 - x2) <> 0 -> padd (third l x1 y1 x2) (Aff x2 (- y2)) = Aff x1 y1.
Proof.
  intros H1 H2 H l N. unfold third. rewrite padd_chord by done. unfold third. cbn in H1, H2.
  unfold l, chord in *. f_equal; (field [H1 H2]; nz).
Qed.

Lemma cancel_tangent x y :
  on_curve (Aff x y) ->
  let l := tangent x y in
  x - (l * l - x - x) <> 0 -> padd (third l x y x) (Aff x (- y)) = Aff x y.
Proof.
  intros H l N. pose proof (double_nz x y H) as D. unfold third. rewrite padd_chord by done. unfold third. cbn in H.
  unfold l, tangent, chord in *. f_equal; (field [H]; nz).
Qed.

(** Two points with one first coordinate. *)
Lemma same_point x y1 Q :
  on_curve (Aff x y1) -> on_curve Q -> (exists y2, Q = Aff x y2) -> Q = Aff x y1 \/ Q = popp (Aff x y1).
Proof.
  intros H HQ [y2 ->]. destruct (same_x x y1 y2 H HQ) as [-> | ->]; [by left|right]. cbn. f_equal. ring.
Qed.

Lemma padd_opp_cancel P Q : on_curve P -> on_curve Q -> padd (padd P Q) (popp Q) = P.
Proof.
  intros HP HQ. destruct P as [|x1 y1]; [by rewrite padd_opp|]. destruct Q as [|x2 y2]; [done|].
  pose proof (padd_on_curve _ _ HP HQ) as HS. pose proof (popp_on_curve _ HQ) as HQ'.
  assert (FP : padd (Aff x2 y2) (Aff x1 y1) <> Aff x2 y2) by (intros E; by apply padd_fixed in E).
  rewrite padd_comm in FP.
  destruct (decide (x1 = x2)) as [<-|N].
  - destruct (same_x x1 y1 y2 HP HQ) as [<- | ->].
    + rewrite padd_tangent in *. destruct (third _ _ _ _) as [|xs ys] eqn:ES; [done|].
      destruct (decide (xs = x1)) as [->|N].
      * destruct (same_point x1 y1 (Aff x1 ys) HP HS) as [E|E]; [by eexists|by rewrite E in FP|].
        rewrite E, <- popp_add, padd_tangent, ES, E, popp_opp by done. done.
      * rewrite <- ES. apply cancel_tangent; [done|]. apply sub_nz in N. injection ES as -> _. done.
    + replace (Aff x1 y2) with (popp (Aff x1 (- y2))) by (cbn; f_equal; ring).
      by rewrite padd_opp, popp_opp.
  - rewrite (padd_chord x1 y1) in * by (by apply sub_nz).
    destruct (third _ _ _ _) as [|xs ys] eqn:ES; [done|].
    destruct (decide (xs = x2)) as [->|N'].
    + destruct (same_point x2 y2 (Aff x2 ys) HQ HS) as [E|E]; [by eexists|by rewrite E in FP|].
      rewrite E in *. rewrite <- popp_add, padd_tangent by done.
      rewrite (third_tangent x1 y1 x2 y2) by (done || by apply sub_nz). cbn. f_equal. ring.
    + rewrite <- ES. apply cancel_chord; [done..|by apply sub_nz|]. apply sub_nz in N'. injection ES as -> _. done.
Qed.

(** ** Associativity *)

(** The four sums drawn as chords. *)
Lemma assoc_generic x1 y1 x2 y2 x3 y3 :
  on_curve (Aff x1 y1) -> on_curve (Aff x2 y2) -> on_curve (Aff x3 y3) ->
  x2 - x1 <> 0 -> x3 - x2 <> 0 ->
  let l := chord x1 y1 x2 y2 in let m := chord x2 y2 x3 y3 in
  x3 - (l * l - x1 - x2) <> 0 -> (m * m - x2 - x3) - x1 <> 0 ->
  padd (third l x1 y1 x2) (Aff x3 y3) = padd (Aff x1 y1) (third m x2 y2 x3).
Proof.
  intros H1 H2 H3 N12 N23 l m N4 N6. cbn [on_curve] in *. unfold third. rewrite !padd_chord by done.
  unfold third, l, m, chord in *. f_equal; (field [H1 H2 H3]; nz).
Qed.

(** 2P + R = P + (P + R). *)
Lemma assoc_tangent x1 y1 x3 y3 :
  on_curve (Aff x1 y1) -> on_curve (Aff x3 y3) -> x3 - x1 <> 0 ->
  let l := tangent x1 y1 in let m := chord x1 y1 x3 y3 in
  x3 - (l * l - x1 - x1) <> 0 -> (m * m - x1 - x3) - x1 <> 0 ->
  padd (third l x1 y1 x1) (Aff x3 y3) = padd (Aff x1 y1) (third m x1 y1 x3).
Proof.
  intros H1 H3 N13 l m N4 N6. pose proof (double_nz x1 y1 H1) as D. cbn [on_curve] in *.
  unfold third. rewrite !padd_chord by done.
  unfold third, l, m, chord, tangent in *. f_equal; (field [H1 H3]; nz).
Qed.

(** 2S = (S - Q) + (S + Q). *)
Lemma double_split x y x2 y2 :
  on_curve (Aff x y) -> on_curve (Aff x2 y2) -> x2 - x <> 0 ->
  let l := chord x y x2 (- y2) in let m := chord x y x2 y2 in
  padd (third l x y x2) (third m x y x2) = third (tangent x y) x y x.
Proof.
  intros H H2 N l m. pose proof (double_nz x y H) as D. pose proof (double_nz x2 y2 H2) as D2. cbn [on_curve] in *.
  assert (N6 : m * m - x - x2 - (l * l - x - x2) <> 0).
  { intros Z. apply (mul_nz (y + y) (y2 + y2) D D2).
    transitivity (- ((m * m - x - x2 - (l * l - x - x2)) * ((x2 - x) * (x2 - x)))); [|rewrite Z; ring].
    unfold l, m, chord. field. done. }
  unfold third. rewrite !padd_chord by done.
  unfold third, l, m, chord, tangent in *. f_equal; (field [H H2]; nz).
Qed.

(** *** The case analysis, on points *)

Ltac oc := first [assumption | apply padd_on_curve; oc | apply popp_on_curve; oc].

Lemma diff_x x1 y1 x2 y2 :
  on_curve (Aff x1 y1) -> on_curve (Aff x2 y2) -> Aff x2 y2 <> Aff x1 y1 -> Aff x2 y2 <> popp (Aff x1 y1) ->
  x2 - x1 <> 0.
Proof.
  intros H1 H2 N N'. apply sub_nz. intros <-.
  destruct (same_point x1 y1 (Aff x1 y2) H1 H2) as [E|E]; [by eexists| |]; done.
Qed.

Lemma padd_is_inf P Q : on_curve P -> on_curve Q -> padd P Q = Inf -> P = popp Q.
Proof. intros HP HQ E. by rewrite <- (padd_opp_cancel P Q HP HQ), E. Qed.

Lemma padd_is_self P Q : on_curve P -> on_curve Q -> padd P Q = Q -> P = Inf.
Proof. intros HP HQ E. by rewrite <- (padd_opp_cancel P Q HP HQ), E, padd_opp. Qed.

Lemma padd_is_opp P Q R : on_curve P -> on_curve Q -> padd P Q = popp R -> on_curve R -> R = popp (padd P Q).
Proof. intros _ _ E _. by rewrite E, popp_opp. Qed.

Lemma double_as_sum S Q :
  on_curve S -> on_curve Q -> S <> Inf -> Q <> Inf -> S <> Q -> S <> popp Q ->
  padd (padd S (popp Q)) (padd S Q) = padd S S.
Proof.
  destruct S as [|x y], Q as [|x2 y2]; try done. intros HS HQ _ _ N N'.
  assert (D : x2 - x <> 0).
  { apply (diff_x x y x2 y2); [done..|]. intros E. apply N'. by rewrite E, popp_opp. }
  cbn [popp]. rewrite padd_tangent, !padd_chord by done. by apply double_split.
Qed.

(** The sums that meet infinity or a repeated point. *)
Lemma assoc_sum_inf P Q R :
  on_curve P -> on_curve Q -> on_curve R -> R = popp (padd P Q) -> padd (padd P Q) R = padd P (padd Q R).
Proof.
  intros HP HQ HR ->. rewrite padd_opp by oc. rewrite popp_add by oc.
  rewrite (padd_comm Q). rewrite <- (popp_opp Q) at 2. by rewrite padd_opp_cancel, padd_opp by oc.
Qed.

Lemma assoc_left_inf P Q R :
  on_curve P -> on_curve Q -> on_curve R -> Q = popp P -> padd (padd P Q) R = padd P (padd Q R).
Proof.
  intros HP HQ HR ->. rewrite padd_opp by done. cbn [padd]. rewrite (padd_comm (popp P)), (padd_comm P).
  rewrite <- (popp_opp P) at 2. by rewrite padd_opp_cancel by oc.
Qed.

Lemma assoc_right_inf P Q R :
  on_curve P -> on_curve Q -> on_curve R -> R = popp Q -> padd (padd P Q) R = padd P (padd Q R).
Proof. intros HP HQ HR ->. by rewrite padd_opp_cancel, padd_opp, padd_inf_r. Qed.

Lemma assoc_mirror P Q R :
  padd (padd R Q) P = padd R (padd Q P) -> padd (padd P Q) R = padd P (padd Q R).
Proof. intros E. by rewrite (padd_comm P Q), (padd_comm Q R), (padd_comm _ R), <- E, padd_comm. Qed.

(** R = P + Q. *)
Lemma assoc_sum P Q R :
  on_curve P -> on_curve Q -> P <> Inf -> Q <> Inf -> R <> Inf -> R <> popp Q -> R = padd P Q ->
  padd (padd P Q) R = padd P (padd Q R).
Proof.
  intros HP HQ NP NQ NR N E. assert (HR : on_curve R) by (rewrite E; by apply padd_on_curve).
  rewrite <- E, <- (double_as_sum R Q) by (try done; intros ->; by symmetry in E; apply padd_is_self in E).
  rewrite E at 1. by rewrite padd_opp_cancel, (padd_comm R Q).
Qed.

(** P = Q. *)
Lemma assoc_twice P R :
  on_curve P -> on_curve R -> P <> Inf -> R <> Inf -> padd (padd P P) R = padd P (padd P R).
Proof.
  intros HP HR NP NR. pose proof (padd_on_curve _ _ HP HP) as HS. pose proof (padd_on_curve _ _ HP HR) as HT.
  destruct (decide (R = P)) as [->|N]; [by rewrite padd_comm|].
  destruct (decide (R = popp P)) as [E|N']; [by apply assoc_right_inf|].
  destruct (decide (R = popp (padd P P))) as [E|M]; [by apply assoc_sum_inf|].
  destruct (decide (R = padd P P)) as [E|M']; [by apply assoc_sum|].
  assert (M2 : padd P R <> P) by (rewrite padd_comm; intros E; by apply padd_is_self in E).
  assert (M3 : padd P R <> popp P).
  { rewrite padd_comm. intros E. apply M. by rewrite <- (padd_opp_cancel R P HR HP), E, popp_add. }
  destruct P as [|x y], R as [|x3 y3]; try done.
  pose proof (diff_x x y x3 y3 HP HR N N') as D. rewrite padd_tangent in *. rewrite padd_chord in * by done.
  apply assoc_tangent; try done.
  - by apply (diff_x _ _ x3 y3 HS HR).
  - by apply (diff_x x y _ _ HP HT).
Qed.

Theorem padd_assoc P Q R :
  on_curve P -> on_curve Q -> on_curve R -> padd (padd P Q) R = padd P (padd Q R).
Proof.
  intros HP HQ HR.
  destruct (decide (P = Inf)) as [->|NP]; [done|]. destruct (decide (R = Inf)) as [->|NR]; [by rewrite !padd_inf_r|].
  destruct (decide (Q = Inf)) as [->|NQ]; [by rewrite padd_inf_r|].
  destruct (decide (Q = P)) as [->|N1]; [by apply assoc_twice|].
  destruct (decide (Q = popp P)) as [E|N2]; [by apply assoc_left_inf|].
  destruct (decide (R = Q)) as [->|N3]; [by apply assoc_mirror, assoc_twice|].
  destruct (decide (R = popp Q)) as [E|N4]; [by apply assoc_right_inf|].
  destruct (decide (R = popp (padd P Q))) as [E|N5]; [by apply assoc_sum_inf|].
  destruct (decide (P = popp (padd R Q))) as [E|N6]; [by apply assoc_mirror, assoc_sum_inf|].
  destruct (decide (R = padd P Q)) as [E|N7]; [by apply assoc_sum|].
  destruct (decide (P = padd R Q)) as [E|N8].
  { apply assoc_mirror, assoc_sum; try done. intros E'. apply N2. by rewrite E', popp_opp. }
  pose proof (padd_on_curve _ _ HP HQ) as HS. pose proof (padd_on_curve _ _ HQ HR) as HT.
  assert (M : padd Q R <> popp P) by (rewrite padd_comm; intros E; apply N6; by rewrite E, popp_opp).
  rewrite (padd_comm R) in N8.
  destruct P as [|x1 y1], Q as [|x2 y2], R as [|x3 y3]; try done.
  pose proof (diff_x _ _ _ _ HP HQ N1 N2) as D. pose proof (diff_x _ _ _ _ HQ HR N3 N4) as D'.
  rewrite !(padd_chord x1 y1 x2 y2), !(padd_chord x2 y2 x3 y3) in * by done.
  apply assoc_generic; try done.
  - by apply (diff_x _ _ x3 y3 HS HR).
  - apply (diff_x x1 y1 _ _ HP HT); [by apply not_eq_sym|done].
Qed.

Lemma padd_inj P Q R : on_curve P -> on_curve Q -> on_curve R -> padd P Q = padd P R -> Q = R.
Proof.
  intros HP HQ HR E. rewrite <- (padd_opp_cancel Q P HQ HP), <- (padd_opp_cancel R P HR HP).
  by rewrite !(padd_comm _ P), E.
Qed.

(** ** Multiples of a point *)

Fixpoint pmul (n : positive) (P : point) : point :=
  match n with
  | xH => P
  | xO n => let Q := pmul n P in padd Q Q
  | xI n => let Q := pmul n P in padd P (padd Q Q)
  end.

Definition zmul (k : Z) (P : point) : point :=
  match k with Z0 => Inf | Zpos n => pmul n P | Zneg n => popp (pmul n P) end.

Lemma pmul_on_curve n P : on_curve P -> on_curve (pmul n P).
Proof. intros HP. induction n; cbn [pmul]; oc. Qed.

Lemma zmul_on_curve k P : on_curve P -> on_curve (zmul k P).
Proof. intros HP. destruct k; cbn [zmul]; [done| |apply popp_on_curve]; by apply pmul_on_curve. Qed.

Lemma pmul_succ n P : on_curve P -> pmul (Pos.succ n) P = padd P (pmul n P).
Proof.
  intros HP. induction n as [n IH|n IH|]; [|done..]. change (Pos.succ n~1) with (Pos.succ n)~0%positive. cbn [pmul].
  pose proof (pmul_on_curve n P HP). rewrite IH, !padd_assoc by oc. f_equal.
  rewrite <- !padd_assoc by oc. by rewrite (padd_comm (pmul n P) P).
Qed.

Lemma zmul_succ k P : on_curve P -> zmul (Z.succ k) P = padd P (zmul k P).
Proof.
  intros HP. destruct k as [|n|n]; [by rewrite padd_inf_r| |].
  - change (Z.succ (Z.pos n)) with (Z.pos (n + 1)). rewrite Pos.add_1_r. by apply pmul_succ.
  - destruct (Pos.succ_pred_or n) as [-> |E]; [symmetry; by apply padd_opp|]. rewrite <- E.
    replace (Z.succ (Z.neg (Pos.succ (Pos.pred n)))) with (Z.neg (Pos.pred n)) by lia. cbn [zmul].
    pose proof (pmul_on_curve (Pos.pred n) P HP). rewrite pmul_succ, popp_add, <- padd_assoc, padd_opp by oc. done.
Qed.

Lemma zmul_add k l P : on_curve P -> zmul (k + l) P = padd (zmul k P) (zmul l P).
Proof.
  intros HP. pose proof (zmul_on_curve l P HP).
  assert (Up : forall k, zmul (k + l) P = padd (zmul k P) (zmul l P) <-> zmul (Z.succ k + l) P = padd (zmul (Z.succ k) P) (zmul l P)).
  { clear k. intros k. pose proof (zmul_on_curve k P HP). rewrite Z.add_succ_l, !zmul_succ, padd_assoc by oc.
    split; [by intros ->|]. apply padd_inj; [done|by apply zmul_on_curve|oc]. }
  revert k. apply Z.bi_induction; [intros ? ? ->; done|done|]. exact Up.
Qed.

Lemma zmul_opp k P : zmul (- k) P = popp (zmul k P).
Proof. destruct k; [done..|]. symmetry. apply popp_opp. Qed.

Lemma zmul_1 P : zmul 1 P = P.
Proof. done. Qed.

Lemma zmul_padd k P Q : on_curve P -> on_curve Q -> zmul k (padd P Q) = padd (zmul k P) (zmul k Q).
Proof.
  intros HP HQ.
  assert (Pos : forall n, pmul n (padd P Q) = padd (pmul n P) (pmul n Q)).
  { intros n. induction n as [|n IH] using Pos.peano_ind; [done|].
    pose proof (pmul_on_curve n P HP). pose proof (pmul_on_curve n Q HQ).
    rewrite !pmul_succ, IH, !padd_assoc by oc. f_equal.
    rewrite <- (padd_assoc Q), (padd_comm Q), padd_assoc by oc. done. }
  destruct k; cbn [zmul]; [done|done|]. rewrite Pos. apply popp_add; by apply pmul_on_curve.
Qed.

Lemma zmul_mul k l P : on_curve P -> zmul (k * l) P = zmul k (zmul l P).
Proof.
  intros HP. pose proof (zmul_on_curve l P HP) as Hl.
  assert (N : forall n : nat, zmul (Z.of_nat n * l) P = zmul (Z.of_nat n) (zmul l P)).
  { intros n. induction n as [|n IH]; [done|].
    rewrite Nat2Z.inj_succ, Z.mul_succ_l, zmul_succ, zmul_add, IH, padd_comm by done. done. }
  destruct (Z.le_gt_cases 0 k).
  - rewrite <- (Z2Nat.id k) by done. apply N.
  - replace (k * l)%Z with (- (- k * l))%Z by ring. rewrite zmul_opp. rewrite <- (Z2Nat.id (- k)) by lia.
    rewrite N, Z2Nat.id by lia. by rewrite zmul_opp, popp_opp.
Qed.

(** ** Jacobian coordinates *)

(** The point that (x, y, z) stands for when k is the scale of the third
    coordinate: every point is read on the isomorphic curve on which its z is
    z k. *)
Definition jac (k x y z : F) : point :=
  let w := z * k in Aff (x / (w * w)) (y / (w * w * w)).

Lemma jac_double k x y z :
  k <> 0 -> z <> 0 -> y + y <> 0 ->
  let t := x * x + x * x + x * x in let u := y * y + y * y in let w := u * x in
  padd (jac k x y z) (jac k x y z) =
  jac k (t * t - (w + w + w + w)) (t * (w + w + w + w + w + w - t * t) - (u * u + u * u)) (y * z + y * z).
Proof.
  intros Hk Hz Hy t u w. unfold jac. rewrite padd_tangent. unfold third, tangent, w, u, t.
  assert (y * z + y * z <> 0).
  { intros Z. apply (mul_nz (y + y) z Hy Hz). rewrite <- Z. ring. }
  assert (y / (z * k * (z * k) * (z * k)) + y / (z * k * (z * k) * (z * k)) <> 0).
  { intros Z. apply Hy. apply (mul_zero (1 / (z * k * (z * k) * (z * k)))).
    - rewrite <- Z. field. done.
    - intros Z'. apply two_nz. transitivity ((1 / (z * k * (z * k) * (z * k))) * ((z * k * (z * k) * (z * k)) + (z * k * (z * k) * (z * k)))); [field; done|].
      rewrite Z'. ring. }
  f_equal; (field; repeat split; try done).
  all: intros Z; apply Hy; apply (mul_zero z); [rewrite <- Z; ring|done].
Qed.

Section Addition.
Context (k x1 y1 z x2 y2 : F) (Hk : k <> 0) (Hz : z <> 0).
Let h := x2 * (z * z) - x1.
Let i := y2 * (z * z) * z - y1.

Lemma jac_add : h <> 0 ->
  let x3 := i * i - (x1 * (h * h) + x1 * (h * h) + h * (h * h)) in
  padd (jac k x1 y1 z) (jac k x2 y2 1) = jac k x3 (i * (x1 * (h * h) - x3) - h * (h * h) * y1) (z * h).
Proof.
  intros Hh x3. unfold jac.
  rewrite padd_chord.
  - unfold third, chord, x3, h, i in *. f_equal; (field; repeat split; done).
  - intros Z. apply Hh. transitivity ((x2 / (1 * k * (1 * k)) - x1 / (z * k * (z * k))) * (z * k * (z * k))); [unfold h; field; done|].
    rewrite Z. ring.
Qed.

Lemma jac_same : h = 0 -> i = 0 -> jac k x2 y2 1 = jac k x1 y1 z.
Proof.
  intros Hh Hi. apply sub_zero in Hh. apply sub_zero in Hi. unfold jac. rewrite <- Hh, <- Hi. f_equal; field; done.
Qed.

Lemma jac_opposite : h = 0 -> i <> 0 -> padd (jac k x1 y1 z) (jac k x2 y2 1) = Inf.
Proof.
  intros Hh Hi. apply sub_zero in Hh. unfold jac. cbn [padd]. rewrite decide_True, decide_False; [done| |].
  - intros E. apply Hi. unfold i. transitivity (y2 / (1 * k * (1 * k) * (1 * k)) * (z * k * (z * k) * (z * k)) - y1); [field; done|].
    rewrite <- E. field. done.
  - rewrite <- Hh. field. done.
Qed.

End Addition.

Lemma jac_1 x y : jac 1 x y 1 = Aff x y.
Proof. unfold jac. f_equal; field; intros Z; by apply (F_1_neq_0 F_field). Qed.

(** Another representative: scaling by c. *)
Lemma jac_scale k c x y z : k <> 0 -> c <> 0 -> z <> 0 -> jac k (x * (c * c)) (y * (c * c * c)) (z * c) = jac k x y z.
Proof. intros. unfold jac. f_equal; (field; done). Qed.

Lemma jac_frame k c x y z : k <> 0 -> c <> 0 -> z <> 0 -> jac (k * c) x y z = jac k x y (z * c).
Proof. intros. unfold jac. f_equal; (field; done). Qed.

(** ** The automorphism (x, y) -> (beta x, y) *)

Section Automorphism.
Context (beta : F) (beta_cube : beta * beta * beta = 1).

Definition pbeta (P : point) : point := match P with Inf => Inf | Aff x y => Aff (beta * x) y end.

Lemma beta_nz : beta <> 0.
Proof. intros Z. apply (F_1_neq_0 F_field). rewrite <- beta_cube, Z. ring. Qed.

Lemma pbeta_on_curve P : on_curve P -> on_curve (pbeta P).
Proof. destruct P as [|x y]; [done|]. cbn. intros ->. transitivity (beta * beta * beta * (x * x * x) + b); [rewrite beta_cube|]; ring. Qed.

Lemma pbeta_add P Q : on_curve P -> on_curve Q -> pbeta (padd P Q) = padd (pbeta P) (pbeta Q).
Proof.
  intros HP HQ. pose proof beta_nz as Hb. destruct (padd_added P Q HP HQ) as [Q|P|P|x y H|x1 y1 x2 y2 H]; cbn [pbeta].
  - done.
  - by destruct P.
  - destruct P as [|x y]; [done|]. symmetry. exact (padd_opp _ (pbeta_on_curve _ HP)).
  - rewrite padd_tangent. unfold third, tangent, pbeta. f_equal; field [beta_cube]; done.
  - rewrite padd_chord.
    + unfold third, chord, pbeta. f_equal; field [beta_cube]; repeat split; try done.
      all: intros Z; apply H; apply (mul_zero beta); [rewrite <- Z; ring|done].
    + intros Z. apply H. apply (mul_zero beta); [rewrite <- Z; ring|done].
Qed.

Lemma pbeta_opp P : pbeta (popp P) = popp (pbeta P).
Proof. by destruct P. Qed.

Lemma pbeta_zmul k P : on_curve P -> pbeta (zmul k P) = zmul k (pbeta P).
Proof.
  intros HP. pose proof (pbeta_on_curve P HP).
  assert (Pos : forall n, pbeta (pmul n P) = pmul n (pbeta P)).
  { intros n. induction n as [|n IH] using Pos.peano_ind; [done|].
    by rewrite !pmul_succ, pbeta_add, IH by (done || by apply pmul_on_curve). }
  destruct k; cbn [zmul]; [done|done|]. by rewrite pbeta_opp, Pos.
Qed.

Lemma pbeta_jac k x y z : k <> 0 -> z <> 0 -> pbeta (jac k x y z) = jac k (x * beta) y z.
Proof. intros. unfold jac, pbeta. f_equal; field; done. Qed.

End Automorphism.

End Curve.
