(* ===== verification/Secp.v ===== *)
(** The curve secp256k1, y^2 = x^3 + 7 over the field of p elements, as an
    instance of the group of Curve.v, and the multiples k G of its generator:
    the points that the arithmetic of key/pubkey.cpp is compared with. *)
From S2P Require Import Prelude Field FieldProps FieldInv Curve.
From Stdlib Require Import Zpow_facts Zmod Field.

Local Open Scope Z_scope.

(** ** The field *)

Notation Fp := (Zmod.Zmod field_p).

Definition F (x : Z) : Fp := Zmod.of_Z field_p x.

#[export] Instance Fp_eq_dec : EqDecision Fp.
Proof. intros x y. refine (cast_if (decide (Zmod.to_Z x = Zmod.to_Z y))); [by apply Zmod.to_Z_inj|congruence]. Defined.

Lemma Fp_field : field_theory (F 0) (F 1) Zmod.add Zmod.mul Zmod.sub Zmod.opp Zmod.mdiv Zmod.inv (@eq Fp).
Proof. exact (Zmod.field_theory field_p prime_field_p). Qed.

Declare Scope fp_scope.
Delimit Scope fp_scope with fp.
Bind Scope fp_scope with Fp.
Notation "x + y" := (@Zmod.add field_p x y) : fp_scope.
Notation "x * y" := (@Zmod.mul field_p x y) : fp_scope.
Notation "x - y" := (@Zmod.sub field_p x y) : fp_scope.
Notation "- x" := (@Zmod.opp field_p x) : fp_scope.
Notation "x / y" := (@Zmod.mdiv field_p x y) : fp_scope.
Notation "0" := (F 0) : fp_scope.
Notation "1" := (F 1) : fp_scope.

Add Field Fp_field_tac : Fp_field.

Lemma F_add x y : F (x + y) = (F x + F y)%fp.
Proof. apply Zmod.of_Z_add. Qed.

Lemma F_mul x y : F (x * y) = (F x * F y)%fp.
Proof. apply Zmod.of_Z_mul. Qed.

Lemma F_opp x : F (- x) = (- F x)%fp.
Proof. apply Zmod.of_Z_opp. Qed.

Lemma F_sub x y : F (x - y) = (F x - F y)%fp.
Proof. apply Zmod.of_Z_sub. Qed.

Lemma F_eq x y : F x = F y <-> x mod field_p = y mod field_p.
Proof. apply Zmod.of_Z_inj. Qed.

Lemma F_zero x : F x = 0%fp <-> x mod field_p = 0.
Proof. exact (F_eq x 0). Qed.

Lemma fp_1_nz : 1%fp <> 0%fp.
Proof. exact (F_1_neq_0 Fp_field). Qed.

Lemma fp_mul_nz x y : x <> 0%fp -> y <> 0%fp -> (x * y)%fp <> 0%fp.
Proof. exact (mul_nz _ _ _ _ _ _ _ _ Fp_field x y). Qed.

Lemma fp_mul_nz_inv x y : (x * y)%fp <> 0%fp -> x <> 0%fp /\ y <> 0%fp.
Proof. intros H. split; intros ->; apply H; ring. Qed.

(** ** The curve *)

Definition spoint : Type := @point Fp.

Definition gadd : spoint -> spoint -> spoint := padd Zmod.add Zmod.mul Zmod.sub Zmod.mdiv.
Definition gopp : spoint -> spoint := popp Zmod.opp.
Definition secp_curve (P : spoint) : Prop := on_curve Zmod.add Zmod.mul (F 7) P.
Definition gscale : Z -> spoint -> spoint := zmul Zmod.add Zmod.mul Zmod.sub Zmod.opp Zmod.mdiv.
(** The point of Jacobian coordinates (x, y, z), its third scaled by k. *)
Definition gjac : Fp -> Fp -> Fp -> Fp -> spoint := jac Zmod.mul Zmod.mdiv.

#[export] Instance secp_curve_dec P : Decision (secp_curve P).
Proof. unfold secp_curve. apply _. Defined.

Lemma two_nz : (1 + 1)%fp <> 0%fp.
Proof. intros H. apply (f_equal Zmod.to_Z) in H. vm_compute in H. discriminate. Qed.

(** *** No point of order two: -7 is not a cube *)

(** The reduction that folds twice at 2^256. *)
Definition redp : Z -> Z := Primes.folds 2 0x1000003D1.

Lemma redp_mod x : redp x mod field_p = x mod field_p.
Proof. by apply (Primes.folds_mod 2 0x1000003D1). Qed.

Lemma F_redp x : F (redp x) = F x.
Proof. apply F_eq, redp_mod. Qed.

(** a^m. *)
Fixpoint pow_redp (a : Z) (m : positive) : Z :=
  match m with
  | xH => a
  | xO m => let z := pow_redp a m in redp (z * z)
  | xI m => let z := pow_redp a m in redp (a * redp (z * z))
  end.

Lemma pow_redp_spec a m : pow_redp a m mod field_p = a ^ Z.pos m mod field_p.
Proof.
  pose proof field_p_val as V. induction m as [m IH|m IH|]; cbn [pow_redp]; [| |by rewrite Z.pow_1_r].
  - rewrite redp_mod, Z.mul_mod, redp_mod, <- Z.mul_mod by lia.
    rewrite (Pos2Z.inj_xI m), Z.pow_add_r, Z.pow_1_r, (Z.mul_comm 2), Z.pow_mul_r, Z.pow_2_r, (Z.mul_comm _ a) by lia.
    rewrite (Z.mul_mod a (pow_redp a m * _)), (Z.mul_mod a (a ^ _ * _)) by lia. f_equal. f_equal.
    rewrite Z.mul_mod, IH, <- Z.mul_mod by lia. done.
  - rewrite redp_mod, (Pos2Z.inj_xO m), (Z.mul_comm 2), Z.pow_mul_r, Z.pow_2_r, Z.mul_mod, IH, <- Z.mul_mod by lia. done.
Qed.

Lemma not_a_cube : (pow_redp (-7) (Z.to_pos ((field_p - 1) / 3)) mod field_p =? 1) = false.
Proof. vm_compute. reflexivity. Qed.

Lemma cube_7 x : (x * x * x + 7) mod field_p <> 0.
Proof.
  intros H. pose proof field_p_val as V. pose proof not_a_cube as N. apply Z.eqb_neq in N. apply N.
  assert (E3 : (field_p - 1) / 3 * 3 = field_p - 1) by (rewrite V; reflexivity).
  set (e := (field_p - 1) / 3) in *. assert (He : 0 < e) by (vm_compute; reflexivity). clearbody e.
  assert (C : x ^ 3 mod field_p = (-7) mod field_p).
  { replace (x ^ 3) with ((x * x * x + 7) + -7) by ring. by rewrite <- Z.add_mod_idemp_l, H by lia. }
  rewrite pow_redp_spec, Z2Pos.id by done.
  rewrite Zpower_mod, <- C, <- Zpower_mod, <- Z.pow_mul_r by lia.
  rewrite Z.mul_comm, E3. apply Z.fermat_nz; [exact prime_field_p|].
  intros X. apply Z.mod_divide in X; [|lia]. destruct X as [q ->].
  replace (q * field_p * (q * field_p) * (q * field_p) + 7) with (7 + (q * q * q * field_p * field_p) * field_p) in H by ring.
  rewrite Z_mod_plus_full, Z.mod_small in H by lia. lia.
Qed.

Lemma no_two_torsion (x y : Fp) : (y * y = x * x * x + F 7)%fp -> y <> 0%fp.
Proof.
  intros E ->. apply (cube_7 (Zmod.to_Z x)). apply F_zero. rewrite F_add, !F_mul.
  unfold F at 1 2 3. rewrite Zmod.of_Z_to_Z. rewrite <- E. ring.
Qed.

(** *** The laws *)

Lemma gadd_comm P Q : gadd P Q = gadd Q P.
Proof. exact (padd_comm _ _ _ _ _ _ _ _ Fp_field P Q). Qed.

Lemma gadd_on_curve P Q : secp_curve P -> secp_curve Q -> secp_curve (gadd P Q).
Proof. exact (padd_on_curve _ _ _ _ _ _ _ _ Fp_field _ two_nz no_two_torsion P Q). Qed.

Lemma gadd_assoc P Q R :
  secp_curve P -> secp_curve Q -> secp_curve R -> gadd (gadd P Q) R = gadd P (gadd Q R).
Proof. exact (padd_assoc _ _ _ _ _ _ _ _ Fp_field _ two_nz no_two_torsion P Q R). Qed.

Lemma gadd_opp P : secp_curve P -> gadd P (gopp P) = Inf.
Proof. exact (padd_opp _ _ _ _ _ _ _ _ Fp_field _ two_nz no_two_torsion P). Qed.

Lemma gadd_inf_r P : gadd P Inf = P.
Proof. by destruct P. Qed.

Lemma gopp_on_curve P : secp_curve P -> secp_curve (gopp P).
Proof. exact (popp_on_curve _ _ _ _ _ _ _ _ Fp_field _ P). Qed.

Lemma gscale_on_curve k P : secp_curve P -> secp_curve (gscale k P).
Proof. exact (zmul_on_curve _ _ _ _ _ _ _ _ Fp_field _ two_nz no_two_torsion k P). Qed.

Lemma gscale_add k l P : secp_curve P -> gscale (k + l) P = gadd (gscale k P) (gscale l P).
Proof. exact (zmul_add _ _ _ _ _ _ _ _ Fp_field _ two_nz no_two_torsion k l P). Qed.

Lemma gscale_mul k l P : secp_curve P -> gscale (k * l) P = gscale k (gscale l P).
Proof. exact (zmul_mul _ _ _ _ _ _ _ _ Fp_field _ two_nz no_two_torsion k l P). Qed.

Lemma gscale_opp k P : gscale (- k) P = gopp (gscale k P).
Proof. exact (zmul_opp _ _ _ _ _ _ _ _ Fp_field k P). Qed.

(** *** Jacobian coordinates *)

Lemma gjac_y_nz k x y z : k <> 0%fp -> z <> 0%fp -> secp_curve (gjac k x y z) -> y <> 0%fp.
Proof.
  intros Hk Hz H ->. unfold gjac, jac in H. cbn in H. apply no_two_torsion in H. apply H. field. done.
Qed.

Lemma gjac_double k x y z :
  k <> 0%fp -> z <> 0%fp -> secp_curve (gjac k x y z) ->
  let t := (x * x + x * x + x * x)%fp in let u := (y * y + y * y)%fp in let w := (u * x)%fp in
  (y * z + y * z)%fp <> 0%fp /\
  gadd (gjac k x y z) (gjac k x y z) =
  gjac k (t * t - (w + w + w + w)) (t * (w + w + w + w + w + w - t * t) - (u * u + u * u)) (y * z + y * z).
Proof.
  intros Hk Hz H t u w. pose proof (gjac_y_nz k x y z Hk Hz H) as Hy.
  assert (Hyy : (y + y)%fp <> 0%fp).
  { replace (y + y)%fp with ((1 + 1) * y)%fp by ring. by apply fp_mul_nz; [apply two_nz|]. }
  split; [|exact (jac_double _ _ _ _ _ _ _ _ Fp_field two_nz k x y z Hk Hz Hyy)].
  replace (y * z + y * z)%fp with ((y + y) * z)%fp by ring. by apply fp_mul_nz.
Qed.

Section Addition.
Context (k x1 y1 z x2 y2 : Fp) (Hk : k <> 0%fp) (Hz : z <> 0%fp).
Let h := (x2 * (z * z) - x1)%fp.
Let i := (y2 * (z * z) * z - y1)%fp.

Lemma gjac_add : h <> 0%fp ->
  let x3 := (i * i - (x1 * (h * h) + x1 * (h * h) + h * (h * h)))%fp in
  gadd (gjac k x1 y1 z) (gjac k x2 y2 1%fp) = gjac k x3 (i * (x1 * (h * h) - x3) - h * (h * h) * y1)%fp (z * h)%fp.
Proof. exact (jac_add _ _ _ _ _ _ _ _ Fp_field k x1 y1 z x2 y2 Hk Hz). Qed.

Lemma gjac_same : h = 0%fp -> i = 0%fp -> gjac k x2 y2 1%fp = gjac k x1 y1 z.
Proof. exact (jac_same _ _ _ _ _ _ _ _ Fp_field k x1 y1 z x2 y2 Hk Hz). Qed.

Lemma gjac_opposite : h = 0%fp -> i <> 0%fp -> gadd (gjac k x1 y1 z) (gjac k x2 y2 1%fp) = Inf.
Proof. exact (jac_opposite _ _ _ _ _ _ _ _ Fp_field k x1 y1 z x2 y2 Hk Hz). Qed.

End Addition.

Lemma gjac_1 x y : gjac 1%fp x y 1%fp = Aff x y.
Proof. exact (jac_1 _ _ _ _ _ _ _ _ Fp_field x y). Qed.

Lemma gjac_scale k c x y z :
  k <> 0%fp -> c <> 0%fp -> z <> 0%fp -> gjac k (x * (c * c))%fp (y * (c * c * c))%fp (z * c)%fp = gjac k x y z.
Proof. exact (jac_scale _ _ _ _ _ _ _ _ Fp_field k c x y z). Qed.

Lemma gjac_frame k c x y z :
  k <> 0%fp -> c <> 0%fp -> z <> 0%fp -> gjac (k * c)%fp x y z = gjac k x y (z * c)%fp.
Proof. exact (jac_frame _ _ _ _ _ _ _ _ Fp_field k c x y z). Qed.

Lemma gjac_frame_1 k x y z : k <> 0%fp -> z <> 0%fp -> gjac k x y z = gjac 1%fp x y (z * k)%fp.
Proof.
  intros Hk Hz. rewrite <- gjac_frame by (exact fp_1_nz || done). f_equal. ring.
Qed.
