(* ===== verification/Generator.v ===== *)
(** The generator G of secp256k1: it has order n, and the automorphism
    (x, y) -> (beta x, y) multiplies its multiples by lambda.  Both are certified
    by running a signed-digit double-and-add chain in Jacobian coordinates over
    the integers, reduced by folding at 2^256. *)
From S2P Require Import Prelude Field FieldProps FieldInv Limbs Scalar ScalarProps ScalarBits ScalarSpec Curve Secp.
From Stdlib Require Import Zmod Field.

Local Open Scope Z_scope.

Definition Gx : Z := 0x79BE667EF9DCBBAC55A06295CE870B07029BFCDB2DCE28D959F2815B16F81798.
Definition Gy : Z := 0x483ADA7726A3C4655DA4FBFC0E1108A8FD17B448A68554199C47D08FFB10D4B8.
Definition beta : Z := 0x7ae96a2b657c07106e64479eac3434e99cf0497512f58995c1396c28719501ee.

Definition G : spoint := Aff (F Gx) (F Gy).

(** ** The chain *)

Definition triple : Type := Z * Z * Z.

Definition chain_double (t : triple) : triple :=
  let '(x, y, z) := t in
  let t := redp (3 * x * x) in let u := redp (2 * y * y) in let w := redp (u * x) in
  let x3 := redp (t * t - 4 * w) in
  (x3, redp (t * (2 * w - x3) - 2 * u * u), redp (2 * y * z)).

Definition chain_add (t : triple) (x2 y2 : Z) : triple :=
  let '(x, y, z) := t in
  let zz := redp (z * z) in
  let h := redp (x2 * zz) - x in let i := redp (y2 * redp (zz * z)) - y in
  let hh := redp (h * h) in let v := redp (x * hh) in let hhh := redp (h * hh) in
  let x3 := redp (i * i - 2 * v - hhh) in
  (x3, redp (i * (v - x3) - hhh * y), redp (z * h)).

Definition chain_step (st : Z * triple) (d : Z) : Z * triple :=
  let '(v, t) := st in
  let t := chain_double t in
  if d =? 0 then (2 * v, t) else if d =? 1 then (2 * v + 1, chain_add t Gx Gy) else (2 * v - 1, chain_add t Gx (- Gy)).

(** The non-adjacent form of k, its digit 2^i the difference of the bits i + 1
    of 3k and of k, from the top; only what the chain makes of it counts. *)
Definition naf (k : Z) : list Z :=
  (fun i => Z.b2z (Z.testbit (3 * k) (Z.of_nat i + 1)) - Z.b2z (Z.testbit k (Z.of_nat i + 1))) <$> rev (seq 0 257).

Fixpoint skip_zeros (l : list Z) : list Z :=
  match l with 0 :: l => skip_zeros l | _ => l end.

Definition chain (k : Z) : Z * triple :=
  fold_left chain_step (tail (skip_zeros (naf k))) (1, (Gx, Gy, 1)).

Definition chain_check (k X Y : Z) : bool :=
  let '(v, (x, y, z)) := chain k in
  (v =? k) && negb (z mod field_p =? 0) &&
  ((X * (z * z) - x) mod field_p =? 0) && ((Y * (z * z * z) - y) mod field_p =? 0).

(** ** Its soundness *)

Lemma secp_G : secp_curve G.
Proof. apply Zmod.to_Z_inj. vm_compute. reflexivity. Qed.

(** What the triple stands for, once z is known not to be zero. *)
Definition stands (v : Z) (t : triple) : Prop :=
  let '(x, y, z) := t in F z <> 0%fp -> gjac 1%fp (F x) (F y) (F z) = gscale v G.

Ltac to_fp := repeat first [rewrite F_redp | rewrite F_mul | rewrite F_add | rewrite F_sub | rewrite F_opp];
  change (F 2) with (1 + 1)%fp; change (F 3) with (1 + 1 + 1)%fp; change (F 4) with (1 + 1 + 1 + 1)%fp.

Lemma stands_double v t : stands v t -> stands (2 * v) (chain_double t).
Proof.
  destruct t as [[x y] z]. intros H. unfold stands, chain_double in *. to_fp. intros Hz3.
  assert (Hz : F z <> 0%fp) by (intros E; apply Hz3; rewrite E; ring). specialize (H Hz).
  destruct (gjac_double 1%fp (F x) (F y) (F z) fp_1_nz Hz) as [_ E].
  { rewrite H. apply gscale_on_curve, secp_G. }
  replace (2 * v) with (v + v) by ring. rewrite gscale_add, <- H, E by apply secp_G. f_equal; ring.
Qed.

Lemma stands_add v t s : s = 1 \/ s = -1 -> stands v t -> stands (v + s) (chain_add t Gx (s * Gy)).
Proof.
  destruct t as [[x y] z]. intros Hs H. unfold stands, chain_add in *. to_fp. intros Hz3.
  apply fp_mul_nz_inv in Hz3 as [Hz Hh]. specialize (H Hz).
  assert (GS : gscale s G = gjac 1%fp (F Gx) (F s * F Gy)%fp 1%fp).
  { rewrite gjac_1. destruct Hs as [-> | ->]; unfold gscale, zmul, popp, G; cbn [pmul]; f_equal; ring. }
  rewrite gscale_add, GS, <- H by apply secp_G. rewrite gjac_add by (done || exact fp_1_nz). f_equal; ring.
Qed.

Lemma stands_step st d : stands (fst st) (snd st) -> -1 <= d <= 1 -> stands (fst (chain_step st d)) (snd (chain_step st d)).
Proof.
  destruct st as [v t]. cbn [fst snd]. intros H Hd. apply stands_double in H. unfold chain_step.
  destruct (Z.eqb_spec d 0); [done|]. destruct (Z.eqb_spec d 1); cbn [fst snd].
  - exact (stands_add _ _ 1 (or_introl eq_refl) H).
  - exact (stands_add _ _ (-1) (or_intror eq_refl) H).
Qed.

Lemma stands_steps l st :
  stands (fst st) (snd st) -> Forall (fun d => -1 <= d <= 1) l -> stands (fst (fold_left chain_step l st)) (snd (fold_left chain_step l st)).
Proof.
  revert st. induction l as [|d l IH]; intros st H Hl; [done|]. apply Forall_cons in Hl as [Hd Hl].
  apply IH; [|done]. by apply stands_step.
Qed.

Lemma naf_digits k : Forall (fun d => -1 <= d <= 1) (tail (skip_zeros (naf k))).
Proof.
  assert (N : Forall (fun d => -1 <= d <= 1) (naf k)).
  { unfold naf. apply Forall_fmap, Forall_true. intros i. cbn. by destruct (Z.testbit (3 * k) _), (Z.testbit k _). }
  assert (S : forall l, Forall (fun d => -1 <= d <= 1) l -> Forall (fun d => -1 <= d <= 1) (skip_zeros l)).
  { induction l as [|[| |] l IH]; intros Hl; cbn [skip_zeros]; try done. apply Forall_cons in Hl as [_ Hl]. by apply IH. }
  specialize (S _ N). by destruct S.
Qed.

Lemma stands_chain k : stands (fst (chain k)) (snd (chain k)).
Proof. apply stands_steps; [intros _; exact (gjac_1 (F Gx) (F Gy))|apply naf_digits]. Qed.

Lemma chain_sound k X Y : chain_check k X Y = true -> gscale k G = Aff (F X) (F Y).
Proof.
  unfold chain_check. pose proof (stands_chain k) as S.
  destruct (chain k) as [v [[x y] z]]. cbn [fst snd stands] in S.
  rewrite !andb_true_iff, negb_true_iff, Z.eqb_neq, !Z.eqb_eq. intros [[[-> Hz] Hx] Hy].
  assert (Fz : F z <> 0%fp) by (intros E; apply Hz; by apply F_zero).
  rewrite <- S by done.
  rewrite <- (gjac_1 (F X)). apply F_zero in Hx. apply F_zero in Hy. revert Hx Hy. to_fp. intros Hx Hy.
  symmetry. apply gjac_same; [exact fp_1_nz|done|rewrite <- Hx; ring|rewrite <- Hy; ring].
Qed.

(** ** Order and automorphism *)

Lemma order_chain : chain_check (order - 1) Gx (- Gy) = true.
Proof. vm_compute. reflexivity. Qed.

Lemma lambda_chain : chain_check lambda (beta * Gx) Gy = true.
Proof. vm_compute. reflexivity. Qed.

Lemma beta_cube : (F beta * F beta * F beta)%fp = 1%fp.
Proof. apply Zmod.to_Z_inj. vm_compute. reflexivity. Qed.

(** ** The multiples of the generator *)

Definition gmul (k : Z) : spoint := gscale k G.

Definition gbeta : spoint -> spoint := pbeta Zmod.mul (F beta).

Lemma gmul_on_curve k : secp_curve (gmul k).
Proof. apply gscale_on_curve, secp_G. Qed.

Lemma gmul_add k l : gadd (gmul k) (gmul l) = gmul (k + l).
Proof. symmetry. apply gscale_add, secp_G. Qed.

Lemma gmul_opp k : gopp (gmul k) = gmul (- k).
Proof. symmetry. apply gscale_opp. Qed.

Lemma gmul_mul k l : gscale k (gmul l) = gmul (k * l).
Proof. symmetry. apply gscale_mul, secp_G. Qed.

Lemma gscale_inf q : gscale q Inf = Inf.
Proof. change Inf with (gmul 0) at 1. by rewrite gmul_mul, Z.mul_0_r. Qed.

Lemma gmul_order : gmul order = Inf.
Proof.
  replace order with ((order - 1) + 1) by ring. rewrite <- gmul_add. unfold gmul at 1.
  rewrite (chain_sound _ _ _ order_chain). replace (gmul 1) with (gopp (Aff (F Gx) (F (- Gy)))).
  - apply gadd_opp. rewrite <- (chain_sound _ _ _ order_chain). exact (gscale_on_curve _ _ secp_G).
  - unfold gmul, gscale, zmul, gopp, popp, G. cbn [pmul]. f_equal.
Qed.

Lemma gmul_order_mul q : gmul (q * order) = Inf.
Proof. rewrite <- gmul_mul, gmul_order. apply gscale_inf. Qed.

Lemma gmul_congr k l : k mod order = l mod order -> gmul k = gmul l.
Proof.
  intros E. pose proof order_val as O. pose proof (Z.div_mod k order ltac:(lia)) as Dk. pose proof (Z.div_mod l order ltac:(lia)) as Dl.
  replace k with (l + (k / order - l / order) * order) by lia.
  by rewrite <- gmul_add, gmul_order_mul, gadd_inf_r.
Qed.

Lemma gmul_inf k : gmul k = Inf <-> k mod order = 0.
Proof.
  pose proof order_val as O. split; [|intros E; rewrite (gmul_congr k 0); [done|by rewrite E]].
  intros E. destruct (Z.eq_dec (k mod order) 0) as [|N]; [done|]. exfalso.
  assert (C : Z.coprime order k).
  { apply Z.coprime_prime_l; [exact prime_order|]. intros D. apply N, Z.mod_divide; [lia|done]. }
  apply Z.Bezout_coprime_iff in C as (u & v & B).
  assert (E1 : gmul 1 = Inf).
  { rewrite <- B, <- gmul_add, gmul_order_mul, <- gmul_mul, E, gscale_inf. done. }
  discriminate E1.
Qed.

(** The automorphism is multiplication by lambda. *)
Lemma gbeta_G : gbeta G = gmul lambda.
Proof.
  unfold gmul. rewrite (chain_sound _ _ _ lambda_chain). unfold gbeta, pbeta, G. by rewrite F_mul.
Qed.

Lemma gbeta_gmul k : gbeta (gmul k) = gmul (k * lambda).
Proof.
  rewrite <- gmul_mul, <- gbeta_G.
  exact (pbeta_zmul _ _ _ _ _ _ _ _ Fp_field _ two_nz no_two_torsion (F beta) beta_cube k G secp_G).
Qed.

Lemma gbeta_gjac k x y z :
  k <> 0%fp -> z <> 0%fp -> gbeta (gjac k x y z) = gjac k (x * F beta)%fp y z.
Proof. exact (pbeta_jac _ _ _ _ _ _ _ _ Fp_field (F beta) k x y z). Qed.
