(* ===== verification/Group.v ===== *)
(** The points of key/pubkey.cpp: affine [secp256k1_ge], Jacobian
    [secp256k1_gej] (x/z^2, y/z^3) and their operations, on the field of
    Field.v and FieldOps.v.  A failed assert is [None].  Where the code leaves
    part of an object as it was, the object before the call is an argument [r];
    where it takes a pointer that may be NULL for a second result, a bool says
    whether the result is wanted. *)
From S2P Require Import Prelude Limbs Field FieldOps.

Local Open Scope Z_scope.

Record secp256k1_ge := Ge { ge_x : secp256k1_fe; ge_y : secp256k1_fe; ge_infinity : bool }.

Record secp256k1_gej := Gej {
  gej_x : secp256k1_fe; gej_y : secp256k1_fe; gej_z : secp256k1_fe; gej_infinity : bool
}.

Definition secp256k1_ge_storage : Type := secp256k1_fe_storage * secp256k1_fe_storage.

Definition CURVE_B : Z := 7.

(** A constant from its eight words. *)
Definition SECP256K1_FE_CONST (d7 d6 d5 d4 d3 d2 d1 d0 : Z) : secp256k1_fe :=
  Fe [Z.land d0 0x3FFFFFF;
      Z.lor (Z.shiftr d0 26) (u32 (Z.shiftl (Z.land d1 0xFFFFF) 6));
      Z.lor (Z.shiftr d1 20) (u32 (Z.shiftl (Z.land d2 0x3FFF) 12));
      Z.lor (Z.shiftr d2 14) (u32 (Z.shiftl (Z.land d3 0xFF) 18));
      Z.lor (Z.shiftr d3 8) (u32 (Z.shiftl (Z.land d4 0x3) 24));
      Z.land (Z.shiftr d4 2) 0x3FFFFFF;
      Z.lor (Z.shiftr d4 28) (u32 (Z.shiftl (Z.land d5 0x3FFFFF) 4));
      Z.lor (Z.shiftr d5 22) (u32 (Z.shiftl (Z.land d6 0xFFFF) 10));
      Z.lor (Z.shiftr d6 16) (u32 (Z.shiftl (Z.land d7 0x3FF) 16));
      Z.shiftr d7 10] 1 true.

(** The generator. *)
Definition secp256k1_get_ge_const_g : secp256k1_ge :=
  Ge (SECP256K1_FE_CONST 0x79BE667E 0xF9DCBBAC 0x55A06295 0xCE870B07 0x029BFCDB 0x2DCE28D9 0x59F2815B 0x16F81798)
     (SECP256K1_FE_CONST 0x483ADA77 0x26A3C465 0x5DA4FBFC 0x0E1108A8 0xFD17B448 0xA6855419 0x9C47D08F 0xFB10D4B8)
     false.

(** ** Affine points *)

Definition secp256k1_ge_is_infinity (a : secp256k1_ge) : bool := ge_infinity a.

Definition secp256k1_ge_set_xy (x y : secp256k1_fe) : secp256k1_ge := Ge x y false.

Definition secp256k1_ge_clear : secp256k1_ge := Ge secp256k1_fe_clear secp256k1_fe_clear false.

Definition secp256k1_ge_neg (a : secp256k1_ge) : option secp256k1_ge :=
  y ← secp256k1_fe_normalize_weak (ge_y a);
  y ← secp256k1_fe_negate y 1;
  Some (Ge (ge_x a) y (ge_infinity a)).

(** The point of first coordinate [x] whose second is a square, and whether
    there is one. *)
Definition secp256k1_ge_set_xquad (x : secp256k1_fe) : option (secp256k1_ge * bool) :=
  x2 ← secp256k1_fe_sqr x;
  x3 ← secp256k1_fe_mul x x2;
  c ← secp256k1_fe_set_int CURVE_B;
  c ← secp256k1_fe_add c x3;
  '(y, ok) ← secp256k1_fe_sqrt c;
  Some (Ge x y false, ok).

Definition secp256k1_ge_set_xo_var (x : secp256k1_fe) (odd : bool) : option (secp256k1_ge * bool) :=
  '(r, ok) ← secp256k1_ge_set_xquad x;
  if negb ok then Some (r, false)
  else
    y ← secp256k1_fe_normalize_var (ge_y r);
    o ← secp256k1_fe_is_odd y;
    y ← (if Bool.eqb o odd then Some y else secp256k1_fe_negate y 1);
    Some (Ge (ge_x r) y (ge_infinity r), true).

Definition secp256k1_ge_is_valid_var (a : secp256k1_ge) : option bool :=
  if ge_infinity a then Some false
  else
    (* y^2 = x^3 + 7 *)
    y2 ← secp256k1_fe_sqr (ge_y a);
    x3 ← secp256k1_fe_sqr (ge_x a); x3 ← secp256k1_fe_mul x3 (ge_x a);
    c ← secp256k1_fe_set_int CURVE_B;
    x3 ← secp256k1_fe_add x3 c;
    x3 ← secp256k1_fe_normalize_weak x3;
    secp256k1_fe_equal_var y2 x3.

Definition secp256k1_ge_to_storage (a : secp256k1_ge) : option secp256k1_ge_storage :=
  check (negb (ge_infinity a)) (
  x ← secp256k1_fe_normalize (ge_x a);
  y ← secp256k1_fe_normalize (ge_y a);
  sx ← secp256k1_fe_to_storage x;
  sy ← secp256k1_fe_to_storage y;
  Some (sx, sy)).

Definition secp256k1_ge_from_storage (a : secp256k1_ge_storage) : secp256k1_ge :=
  Ge (secp256k1_fe_from_storage (fst a)) (secp256k1_fe_from_storage (snd a)) false.

(** ** Jacobian points *)

Definition secp256k1_gej_is_infinity (a : secp256k1_gej) : bool := gej_infinity a.

Definition secp256k1_gej_set_infinity : secp256k1_gej :=
  Gej secp256k1_fe_clear secp256k1_fe_clear secp256k1_fe_clear true.

Definition secp256k1_gej_set_ge (a : secp256k1_ge) : option secp256k1_gej :=
  z ← secp256k1_fe_set_int 1;
  Some (Gej (ge_x a) (ge_y a) z (ge_infinity a)).

(** A second result, if it is wanted. *)
Definition wanted {A} (w : bool) (k : option A) : option (option A) :=
  if w then x ← k; Some (Some x) else Some None.

Definition secp256k1_gej_double_var (r a : secp256k1_gej) (rzr : bool) : option (secp256k1_gej * option secp256k1_fe) :=
  if gej_infinity a then
    zr ← wanted rzr (secp256k1_fe_set_int 1);
    Some (Gej (gej_x r) (gej_y r) (gej_z r) true, zr)
  else
    zr ← wanted rzr (t ← secp256k1_fe_normalize_weak (gej_y a); secp256k1_fe_mul_int t 2);
    z ← secp256k1_fe_mul (gej_z a) (gej_y a);
    z ← secp256k1_fe_mul_int z 2;                 (* Z' = 2*Y*Z (2) *)
    t1 ← secp256k1_fe_sqr (gej_x a);
    t1 ← secp256k1_fe_mul_int t1 3;               (* T1 = 3*X^2 (3) *)
    t2 ← secp256k1_fe_sqr t1;                     (* T2 = 9*X^4 (1) *)
    t3 ← secp256k1_fe_sqr (gej_y a);
    t3 ← secp256k1_fe_mul_int t3 2;               (* T3 = 2*Y^2 (2) *)
    t4 ← secp256k1_fe_sqr t3;
    t4 ← secp256k1_fe_mul_int t4 2;               (* T4 = 8*Y^4 (2) *)
    t3 ← secp256k1_fe_mul t3 (gej_x a);           (* T3 = 2*X*Y^2 (1) *)
    x ← secp256k1_fe_mul_int t3 4;                (* X' = 8*X*Y^2 (4) *)
    x ← secp256k1_fe_negate x 4;                  (* X' = -8*X*Y^2 (5) *)
    x ← secp256k1_fe_add x t2;                    (* X' = 9*X^4 - 8*X*Y^2 (6) *)
    t2 ← secp256k1_fe_negate t2 1;                (* T2 = -9*X^4 (2) *)
    t3 ← secp256k1_fe_mul_int t3 6;               (* T3 = 12*X*Y^2 (6) *)
    t3 ← secp256k1_fe_add t3 t2;                  (* T3 = 12*X*Y^2 - 9*X^4 (8) *)
    y ← secp256k1_fe_mul t1 t3;                   (* Y' = 36*X^3*Y^2 - 27*X^6 (1) *)
    t2 ← secp256k1_fe_negate t4 2;                (* T2 = -8*Y^4 (3) *)
    y ← secp256k1_fe_add y t2;                    (* Y' = 36*X^3*Y^2 - 27*X^6 - 8*Y^4 (4) *)
    Some (Gej x y z false, zr).

(** The common part of the two additions: h = u2 - u1 and i = s2 - s1, with
    [az] the third coordinate of the first point. *)
Definition add_differences (a : secp256k1_gej) (b : secp256k1_ge) (az : secp256k1_fe) :
  option (secp256k1_fe * secp256k1_fe * secp256k1_fe * secp256k1_fe) :=
  z12 ← secp256k1_fe_sqr az;
  u1 ← secp256k1_fe_normalize_weak (gej_x a);
  u2 ← secp256k1_fe_mul (ge_x b) z12;
  s1 ← secp256k1_fe_normalize_weak (gej_y a);
  s2 ← secp256k1_fe_mul (ge_y b) z12; s2 ← secp256k1_fe_mul s2 az;
  h ← secp256k1_fe_negate u1 1; h ← secp256k1_fe_add h u2;
  i ← secp256k1_fe_negate s1 1; i ← secp256k1_fe_add i s2;
  Some (u1, s1, h, i).

(** ... and the new coordinates. *)
Definition add_coordinates (u1 s1 h i z : secp256k1_fe) : option secp256k1_gej :=
  i2 ← secp256k1_fe_sqr i;
  h2 ← secp256k1_fe_sqr h;
  h3 ← secp256k1_fe_mul h h2;
  z ← secp256k1_fe_mul z h;
  t ← secp256k1_fe_mul u1 h2;
  x ← secp256k1_fe_mul_int t 2; x ← secp256k1_fe_add x h3; x ← secp256k1_fe_negate x 3; x ← secp256k1_fe_add x i2;
  y ← secp256k1_fe_negate x 5; y ← secp256k1_fe_add y t; y ← secp256k1_fe_mul y i;
  h3 ← secp256k1_fe_mul h3 s1; h3 ← secp256k1_fe_negate h3 1;
  y ← secp256k1_fe_add y h3;
  Some (Gej x y z false).

Definition secp256k1_gej_add_ge_var (r a : secp256k1_gej) (b : secp256k1_ge) (rzr : bool) :
  option (secp256k1_gej * option secp256k1_fe) :=
  if gej_infinity a then
    check (negb rzr) (g ← secp256k1_gej_set_ge b; Some (g, None))
  else if ge_infinity b then
    zr ← wanted rzr (secp256k1_fe_set_int 1);
    Some (a, zr)
  else
    '(u1, s1, h, i) ← add_differences a b (gej_z a);
    hz ← secp256k1_fe_normalizes_to_zero_var h;
    if hz : bool then
      iz ← secp256k1_fe_normalizes_to_zero_var i;
      if iz : bool then secp256k1_gej_double_var r a rzr
      else
        zr ← wanted rzr (secp256k1_fe_set_int 0);
        Some (Gej (gej_x r) (gej_y r) (gej_z r) true, zr)
    else
      g ← add_coordinates u1 s1 h i (gej_z a);
      Some (g, if rzr then Some h else None).

(** The second point has third coordinate 1/bzinv. *)
Definition secp256k1_gej_add_zinv_var (r a : secp256k1_gej) (b : secp256k1_ge) (bzinv : secp256k1_fe) :
  option secp256k1_gej :=
  if ge_infinity b then Some a
  else if gej_infinity a then
    bzinv2 ← secp256k1_fe_sqr bzinv;
    bzinv3 ← secp256k1_fe_mul bzinv2 bzinv;
    x ← secp256k1_fe_mul (ge_x b) bzinv2;
    y ← secp256k1_fe_mul (ge_y b) bzinv3;
    z ← secp256k1_fe_set_int 1;
    Some (Gej x y z (ge_infinity b))
  else
    az ← secp256k1_fe_mul (gej_z a) bzinv;
    '(u1, s1, h, i) ← add_differences a b az;
    hz ← secp256k1_fe_normalizes_to_zero_var h;
    if hz : bool then
      iz ← secp256k1_fe_normalizes_to_zero_var i;
      if iz : bool then '(g, _) ← secp256k1_gej_double_var r a false; Some g
      else Some (Gej (gej_x r) (gej_y r) (gej_z r) true)
    else add_coordinates u1 s1 h i (gej_z a).

Definition secp256k1_ge_set_gej_zinv (a : secp256k1_gej) (zi : secp256k1_fe) : option secp256k1_ge :=
  zi2 ← secp256k1_fe_sqr zi;
  zi3 ← secp256k1_fe_mul zi2 zi;
  x ← secp256k1_fe_mul (gej_x a) zi2;
  y ← secp256k1_fe_mul (gej_y a) zi3;
  Some (Ge x y (gej_infinity a)).

(** The coordinates of [a] brought to z = 1, in place. *)
Definition gej_to_affine (inv : secp256k1_fe -> option secp256k1_fe) (a : secp256k1_gej) : option secp256k1_gej :=
  z ← inv (gej_z a);
  z2 ← secp256k1_fe_sqr z;
  z3 ← secp256k1_fe_mul z z2;
  x ← secp256k1_fe_mul (gej_x a) z2;
  y ← secp256k1_fe_mul (gej_y a) z3;
  z ← secp256k1_fe_set_int 1;
  Some (Gej x y z (gej_infinity a)).

(** Both change [a] too. *)
Definition secp256k1_ge_set_gej (a : secp256k1_gej) : option (secp256k1_ge * secp256k1_gej) :=
  a ← gej_to_affine secp256k1_fe_inv a;
  Some (Ge (gej_x a) (gej_y a) (gej_infinity a), a).

Definition secp256k1_ge_set_gej_var (r : secp256k1_ge) (a : secp256k1_gej) : option (secp256k1_ge * secp256k1_gej) :=
  if gej_infinity a then Some (Ge (ge_x r) (ge_y r) true, a)
  else
    a ← gej_to_affine secp256k1_fe_inv_var a;
    Some (Ge (gej_x a) (gej_y a) false, a).

(** Whether the first coordinate of [a] is [x]. *)
Definition secp256k1_gej_eq_x_var (x : secp256k1_fe) (a : secp256k1_gej) : option bool :=
  check (negb (gej_infinity a)) (
  r ← secp256k1_fe_sqr (gej_z a); r ← secp256k1_fe_mul r x;
  r2 ← secp256k1_fe_normalize_weak (gej_x a);
  secp256k1_fe_equal_var r r2).
