(* ===== verification/GroupProps.v ===== *)
(** The operations on points (Group.v) compute the group law: a Jacobian point
    denotes a point of the curve of Secp.v, doubling and the two additions
    denote the sum, with no assert failing; and the conversions keep the point.

    [fev m v a]: [a] has magnitude at most m and value v modulo p. *)
From Stdlib Require Import Zmod Field.
From S2P Require Import Prelude Limbs Field FieldMul FieldOps FieldProps FieldNorm FieldInv FieldBytes Scalar ScalarProps Curve Secp Group.

Local Open Scope Z_scope.

Definition val (a : secp256k1_fe) : Fp := F (fe_num a).

Definition fev (m : Z) (v : Fp) (a : secp256k1_fe) : Prop := fe_ok m a /\ val a = v.

Lemma fev_val m v a : fev m v a -> val a = v.
Proof. by intros [_ ?]. Qed.

Lemma fev_ok m a : fe_ok m a -> fev m (val a) a.
Proof. done. Qed.

Lemma fev_mono m m' v a : fev m v a -> m <= m' -> fev m' v a.
Proof. intros [H V] Hm. split; [by apply (fe_ok_mono m)|done]. Qed.

(** ** One operation *)

Lemma fev_mul v w a b : fev 8 v a -> fev 8 w b -> exists r, secp256k1_fe_mul a b = Some r /\ fev 1 (v * w)%fp r.
Proof.
  intros [Ha Va] [Hb Vb]. destruct (fe_mul_exact a b Ha Hb) as (r & E & Hr & V). exists r. split; [done|]. split; [done|].
  unfold val in *. rewrite <- Va, <- Vb, <- F_mul. by apply F_eq.
Qed.

Lemma fev_sqr v a : fev 8 v a -> exists r, secp256k1_fe_sqr a = Some r /\ fev 1 (v * v)%fp r.
Proof.
  intros [Ha Va]. destruct (fe_sqr_exact a Ha) as (r & E & Hr & V). exists r. split; [done|]. split; [done|].
  unfold val in *. rewrite <- Va, <- F_mul. by apply F_eq.
Qed.

Lemma fev_add m m' v w a b :
  m + m' <= 31 -> fev m v a -> fev m' w b -> exists r, secp256k1_fe_add a b = Some r /\ fev (m + m') (v + w)%fp r.
Proof.
  intros Hm [Ha Va] [Hb Vb]. destruct (fe_add_exact m m' a b Hm Ha Hb) as (r & E & Hr & V & _).
  exists r. split; [done|]. split; [done|]. unfold val in *. by rewrite V, F_add, Va, Vb.
Qed.

Lemma fev_negate m v a : m <= 30 -> fev m v a -> exists r, secp256k1_fe_negate a m = Some r /\ fev (m + 1) (- v)%fp r.
Proof.
  intros Hm [Ha Va]. destruct (fe_negate_exact m a Hm Ha) as (r & E & Hr & V & _).
  exists r. split; [done|]. split; [done|]. unfold val in *. rewrite V, F_sub, F_mul, Va.
  replace (F field_p) with 0%fp; [ring|]. symmetry. apply F_zero, Z.mod_same. by rewrite field_p_val.
Qed.

(** k times v, for the small constants of the formulas. *)
Fixpoint times (k : nat) (v : Fp) : Fp :=
  match k with O => 0%fp | S O => v | S k => (times k v + v)%fp end.

Lemma times_F k x : F (Z.of_nat k * x) = times k (F x).
Proof.
  induction k as [|k IH]; [done|]. rewrite Nat2Z.inj_succ, Z.mul_succ_l, F_add, IH.
  destruct k; [cbn [times]; ring|done].
Qed.

Lemma fev_mul_int m k v a :
  (0 < k)%nat -> m * Z.of_nat k <= 31 -> fev m v a ->
  exists r, secp256k1_fe_mul_int a (Z.of_nat k) = Some r /\ fev (m * Z.of_nat k) (times k v) r.
Proof.
  intros Hk Hm [Ha Va]. destruct (fe_mul_int_exact m (Z.of_nat k) a ltac:(lia) Hm Ha) as (r & E & Hr & V & _).
  exists r. split; [done|]. split; [done|]. unfold val in *. by rewrite V, times_F, Va.
Qed.

Lemma fev_set_int k :
  0 <= k <= 0x3FFFFFF -> exists r, secp256k1_fe_set_int k = Some r /\ fev 1 (F k) r.
Proof.
  intros Hk. destruct (fe_set_int_exact k Hk) as (r & E & Hr & V & _). exists r. split; [done|]. split; [done|].
  unfold val. by rewrite V.
Qed.

Lemma fev_normalize_weak m v a :
  m <= 31 -> fev m v a -> exists r, secp256k1_fe_normalize_weak a = Some r /\ fev 1 v r.
Proof.
  intros Hm [Ha Va]. destruct (fe_normalize_weak_exact m a Hm Ha) as (r & E & Hr & V). exists r. split; [done|].
  split; [done|]. unfold val in *. rewrite <- Va. by apply F_eq.
Qed.

Lemma fev_is_zero m v a :
  m <= 31 -> fev m v a -> secp256k1_fe_normalizes_to_zero_var a = Some (bool_decide (v = 0%fp)).
Proof.
  intros Hm [Ha Va]. rewrite (fe_normalizes_to_zero_var_eq m), (fe_normalizes_to_zero_exact m) by done. f_equal.
  apply Bool.eq_iff_eq_true. rewrite Z.eqb_eq, bool_decide_eq_true, <- Va. symmetry. apply F_zero.
Qed.

Lemma fev_inv v a :
  fev 8 v a -> v <> 0%fp -> exists r w, secp256k1_fe_inv a = Some r /\ fev 1 w r /\ (v * w)%fp = 1%fp.
Proof.
  intros [Ha Va] Hv. destruct (fe_inv_exact a Ha) as (r & E & Hr & Vi & _). exists r, (val r). split; [done|].
  split; [done|]. unfold val in *. rewrite <- Va, <- F_mul. apply F_eq. rewrite Vi; [by rewrite field_p_val|].
  intros Z. apply Hv. rewrite <- Va. by apply F_zero.
Qed.

Lemma fev_equal_var m v w a b :
  m <= 29 -> fev 1 v a -> fev m w b -> secp256k1_fe_equal_var a b = Some (bool_decide (v = w)).
Proof.
  intros Hm [Ha Va] [Hb Vb]. destruct (fe_equal_exact m a b Hm Ha Hb) as [E ->]. rewrite E. f_equal.
  apply bool_decide_ext. rewrite <- Va, <- Vb. symmetry. apply F_eq.
Qed.

(** ** A sequence of operations: each bind is opened by its lemma *)

Ltac fe_next lem :=
  let r := fresh "r" in let E := fresh "E" in let H := fresh "H" in
  destruct lem as (r & E & H); bind_step E; cbn [times] in H;
  match type of H with fev ?m ?v r => let n := eval vm_compute in m in change (fev n v r) in H end.

(** Passes the magnitude, the value and the hypothesis known of [a]. *)
Ltac fe_hyp a k := match goal with H : fev ?m ?v a |- _ => k m v H end.

Ltac lower H := refine (fev_mono _ _ _ _ H _); lia.

Ltac fe_op :=
  match goal with
  | |- context [mbind _ (secp256k1_fe_mul ?a ?b)] =>
      fe_hyp a ltac:(fun m v Ha => fe_hyp b ltac:(fun n w Hb =>
        fe_next (fev_mul v w a b ltac:(lower Ha) ltac:(lower Hb))))
  | |- context [mbind _ (secp256k1_fe_sqr ?a)] =>
      fe_hyp a ltac:(fun m v Ha => fe_next (fev_sqr v a ltac:(lower Ha)))
  | |- context [mbind _ (secp256k1_fe_add ?a ?b)] =>
      fe_hyp a ltac:(fun m v Ha => fe_hyp b ltac:(fun n w Hb =>
        fe_next (fev_add m n v w a b ltac:(lia) Ha Hb)))
  | |- context [mbind _ (secp256k1_fe_negate ?a ?k)] =>
      fe_hyp a ltac:(fun m v Ha => fe_next (fev_negate k v a ltac:(lia) ltac:(lower Ha)))
  | |- context [mbind _ (secp256k1_fe_mul_int ?a ?k)] =>
      let n := eval vm_compute in (Z.to_nat k) in change k with (Z.of_nat n);
      fe_hyp a ltac:(fun m v Ha => fe_next (fev_mul_int m n v a ltac:(lia) ltac:(lia) Ha))
  | |- context [mbind _ (secp256k1_fe_set_int ?k)] => fe_next (fev_set_int k ltac:(lia))
  | |- context [mbind _ (secp256k1_fe_normalize_weak ?a)] =>
      fe_hyp a ltac:(fun m v Ha => fe_next (fev_normalize_weak m v a ltac:(lia) Ha))
  end.
Ltac fe_ops := repeat fe_op.

(** ** What points denote *)

Definition gej_ok (g : secp256k1_gej) : Prop :=
  gej_infinity g = false -> fe_ok 8 (gej_x g) /\ fe_ok 8 (gej_y g) /\ fe_ok 8 (gej_z g) /\ val (gej_z g) <> 0%fp.

Definition ge_ok (g : secp256k1_ge) : Prop :=
  ge_infinity g = false -> fe_ok 8 (ge_x g) /\ fe_ok 8 (ge_y g).

(** The point, the third coordinates scaled by k. *)
Definition gej_pt (k : Fp) (g : secp256k1_gej) : spoint :=
  if gej_infinity g then Inf else gjac k (val (gej_x g)) (val (gej_y g)) (val (gej_z g)).

Definition ge_pt (k : Fp) (g : secp256k1_ge) : spoint :=
  if ge_infinity g then Inf else gjac k (val (ge_x g)) (val (ge_y g)) 1%fp.

Lemma gej_denotes k x y z a b c :
  fev 8 x a -> fev 8 y b -> fev 8 z c -> z <> 0%fp ->
  gej_ok (Gej a b c false) /\ gej_pt k (Gej a b c false) = gjac k x y z.
Proof. intros [Ha <-] [Hb <-] [Hc <-] Hz. done. Qed.

Lemma gej_infinite k a b c : gej_ok (Gej a b c true) /\ gej_pt k (Gej a b c true) = Inf.
Proof. done. Qed.

(** ** Doubling *)

(** What the optional ratio of third coordinates says. *)
Definition ratio (w : bool) (a g : secp256k1_gej) (zr : option secp256k1_fe) : Prop :=
  if w then gej_infinity g = false -> exists c, zr = Some c /\ fe_ok 8 c /\ val (gej_z g) = (val (gej_z a) * val c)%fp
  else zr = None.

Lemma wanted_some {A} w (k : option A) x : k = Some x -> wanted w k = Some (if w then Some x else None).
Proof. intros ->. by destruct w. Qed.

(** The values of the elements in hand. *)
Ltac vals := repeat match goal with
  | H : fev _ ?v ?a |- context [val ?a] => assert_fails (constr_eq v (val a)); rewrite (fev_val _ _ _ H)
  end.

(** Closes [gej_ok] and opens [gej_pt] of a result whose coordinates are in
    hand; leaves that z is not zero. *)
Ltac denote_result :=
  match goal with |- context [gej_pt _ (Gej ?x ?y ?z false)] =>
    fe_hyp x ltac:(fun _ _ Hx => fe_hyp y ltac:(fun _ _ Hy => fe_hyp z ltac:(fun _ _ Hz =>
      edestruct gej_denotes as [Ok ->]; [lower Hx|lower Hy|lower Hz| |])))
  end.

Lemma double_exact k r a w :
  k <> 0%fp -> gej_ok a -> secp_curve (gej_pt k a) ->
  exists g zr, secp256k1_gej_double_var r a w = Some (g, zr) /\ gej_ok g /\
    gej_pt k g = gadd (gej_pt k a) (gej_pt k a) /\ gej_infinity g = gej_infinity a /\ ratio w a g zr.
Proof.
  intros Hk Ha HC. destruct a as [ax ay az inf]. unfold secp256k1_gej_double_var. unfold gej_ok in Ha.
  cbn [gej_x gej_y gej_z gej_infinity] in *. destruct inf.
  - destruct (fev_set_int 1 ltac:(lia)) as (o & E & _). rewrite (bind_some _ _ _ (wanted_some w _ _ E)).
    eexists _, _. split; [reflexivity|]. by destruct w.
  - destruct (Ha eq_refl) as (Hx & Hy & Hz & Nz). apply fev_ok in Hx, Hy, Hz.
    destruct (gjac_double k (val ax) (val ay) (val az) Hk Nz HC) as [Nz3 E].
    assert (Zr : exists c, (t ← secp256k1_fe_normalize_weak ay; secp256k1_fe_mul_int t 2) = Some c /\ fev 2 (val ay + val ay)%fp c).
    { fe_op. exact (fev_mul_int 1 2 _ r0 ltac:(lia) ltac:(lia) H). }
    destruct Zr as (c & Ec & Hc). rewrite (bind_some _ _ _ (wanted_some w _ _ Ec)). clear Ec.
    fe_ops. eexists _, _. split; [reflexivity|].
    denote_result.
    + replace (_ + _)%fp with (val ay * val az + val ay * val az)%fp by ring. exact Nz3.
    + split; [exact Ok|]. split; [|split; [done|]].
      * unfold gej_pt. cbn [gej_x gej_y gej_z gej_infinity]. rewrite E. f_equal; ring.
      * destruct w; [|done]. intros _. exists c. split; [done|]. split; [exact (proj1 (fev_mono _ 8 _ _ Hc ltac:(lia)))|].
        cbn [gej_z]. vals. ring.
Qed.

(** ** Addition *)

Lemma fev_eq m v w a : fev m v a -> v = w -> fev m w a.
Proof. by intros H <-. Qed.

(** Gives an element in hand under an equal value. *)
Ltac fe_by := cbn [ge_x ge_y gej_x gej_y gej_z]; match goal with |- fev _ _ ?a => fe_hyp a ltac:(fun m v H =>
  refine (fev_eq _ _ _ _ (fev_mono _ _ _ _ H _) _); [lia|ring]) end.

Lemma differences_exact a b az X Y Z x2 y2 :
  fev 8 X (gej_x a) -> fev 8 Y (gej_y a) -> fev 8 Z az -> fev 8 x2 (ge_x b) -> fev 8 y2 (ge_y b) ->
  exists u1 s1 h i, add_differences a b az = Some (u1, s1, h, i) /\ fev 1 X u1 /\ fev 1 Y s1 /\
    fev 3 (x2 * (Z * Z) - X)%fp h /\ fev 3 (y2 * (Z * Z) * Z - Y)%fp i.
Proof.
  intros HX HY HZ Hx2 Hy2. unfold add_differences. fe_ops. do 4 eexists. split; [reflexivity|].
  do 3 (split; [fe_by|]). fe_by.
Qed.

Lemma coordinates_exact u1 s1 h i z X Y H I Z :
  fev 1 X u1 -> fev 1 Y s1 -> fev 3 H h -> fev 3 I i -> fev 8 Z z ->
  let X3 := (I * I - (X * (H * H) + X * (H * H) + H * (H * H)))%fp in
  exists x3 y3 z3, add_coordinates u1 s1 h i z = Some (Gej x3 y3 z3 false) /\
    fev 8 X3 x3 /\ fev 8 (I * (X * (H * H) - X3) - H * (H * H) * Y)%fp y3 /\ fev 8 (Z * H)%fp z3.
Proof.
  intros HX HY HH HI HZ X3. unfold add_coordinates. fe_ops. do 3 eexists. split; [reflexivity|].
  subst X3. split; [fe_by|split; fe_by].
Qed.

Section Addition.
Context (k : Fp) (a : secp256k1_gej) (b : secp256k1_ge) (Hk : k <> 0%fp).
Context (Ha : gej_ok a) (Hb : ge_ok b) (HC : secp_curve (gej_pt k a)).

Lemma gej_ok_open :
  gej_infinity a = false ->
  fev 8 (val (gej_x a)) (gej_x a) /\ fev 8 (val (gej_y a)) (gej_y a) /\ fev 8 (val (gej_z a)) (gej_z a) /\
  val (gej_z a) <> 0%fp.
Proof. intros E. destruct (Ha E) as (? & ? & ? & ?). done. Qed.

Lemma gej_set_ge_exact :
  exists g, secp256k1_gej_set_ge b = Some g /\ gej_ok g /\ gej_pt k g = ge_pt k b /\ gej_infinity g = ge_infinity b /\
    val (gej_z g) = 1%fp.
Proof.
  unfold secp256k1_gej_set_ge. fe_op. eexists. split; [reflexivity|]. split; [|split; [|split; [done|cbn [gej_z]; by vals]]].
  - intros E. cbn in E. destruct (Hb E). cbn. split; [done|]. split; [done|].
    split; [exact (proj1 (fev_mono _ 8 _ _ H ltac:(lia)))|]. vals. exact fp_1_nz.
  - unfold gej_pt, ge_pt. cbn. by vals.
Qed.

Lemma add_ge_exact r w :
  (gej_infinity a = true -> w = false) ->
  exists g zr, secp256k1_gej_add_ge_var r a b w = Some (g, zr) /\ gej_ok g /\
    gej_pt k g = gadd (gej_pt k a) (ge_pt k b) /\ ratio w a g zr.
Proof.
  intros Hw. unfold secp256k1_gej_add_ge_var. destruct (gej_infinity a) eqn:Ea.
  { rewrite Hw by done. cbn [negb check]. destruct gej_set_ge_exact as (g & E & Og & Pg & _). bind_step E.
    eexists _, _. split; [reflexivity|]. split; [done|]. rewrite Pg. unfold gej_pt. by rewrite Ea. }
  destruct (ge_infinity b) eqn:Eb.
  { destruct (fev_set_int 1 ltac:(lia)) as (o & E & Ho). rewrite (bind_some _ _ _ (wanted_some w _ _ E)).
    eexists _, _. split; [reflexivity|]. split; [done|]. split; [unfold ge_pt; by rewrite Eb, gadd_inf_r|].
    destruct w; [|done]. intros _. exists o. split; [done|]. split; [exact (proj1 (fev_mono _ 8 _ _ Ho ltac:(lia)))|].
    vals. ring. }
  destruct (gej_ok_open Ea) as (HX & HY & HZ & Nz). destruct (Hb Eb) as [HX2 HY2]. apply fev_ok in HX2, HY2.
  destruct (differences_exact a b (gej_z a) _ _ _ _ _ HX HY HZ HX2 HY2) as (u1 & s1 & h & i & E & Hu & Hs & Hh & Hi).
  bind_step E. cbn beta iota. rewrite (bind_some _ _ _ (fev_is_zero 3 _ _ ltac:(lia) Hh)).
  assert (Pa : gej_pt k a = gjac k (val (gej_x a)) (val (gej_y a)) (val (gej_z a))) by (unfold gej_pt; by rewrite Ea).
  assert (Pb : ge_pt k b = gjac k (val (ge_x b)) (val (ge_y b)) 1%fp) by (unfold ge_pt; by rewrite Eb).
  rewrite Pa, Pb. case_bool_decide as Zh; cbn iota.
  - rewrite (bind_some _ _ _ (fev_is_zero 3 _ _ ltac:(lia) Hi)). case_bool_decide as Zi; cbn iota.
    + destruct (double_exact k r a w Hk Ha HC) as (g & zr & -> & Og & Pg & _ & Rg). eexists _, _. split; [reflexivity|].
      split; [done|]. split; [|done]. rewrite Pg, Pa. f_equal. symmetry. by apply gjac_same.
    + destruct (fev_set_int 0 ltac:(lia)) as (o & E & _). rewrite (bind_some _ _ _ (wanted_some w _ _ E)).
      eexists _, _. split; [reflexivity|]. split; [done|]. split; [|by destruct w].
      symmetry. by apply gjac_opposite.
  - destruct (coordinates_exact u1 s1 h i (gej_z a) _ _ _ _ _ Hu Hs Hh Hi HZ) as (x3 & y3 & z3 & E & H3 & H3' & H3'').
    bind_step E. eexists _, _. split; [reflexivity|].
    destruct (gej_denotes k _ _ _ _ _ _ H3 H3' H3'') as [Og Pg]; [by apply fp_mul_nz|]. split; [done|].
    rewrite Pg. split; [symmetry; by apply gjac_add|].
    destruct w; [|done]. intros _. exists h. split; [done|]. split; [exact (proj1 (fev_mono _ 8 _ _ Hh ltac:(lia)))|].
    cbn [gej_z]. by vals.
Qed.

End Addition.

(** A point given with the inverse of its third coordinate, [fe_ok] and not
    zero: addition in the frame of that inverse. *)
Lemma add_zinv_exact r a b bzinv :
  gej_ok a -> ge_ok b -> fe_ok 8 bzinv -> val bzinv <> 0%fp -> secp_curve (gej_pt (val bzinv) a) ->
  exists g, secp256k1_gej_add_zinv_var r a b bzinv = Some g /\ gej_ok g /\
    gej_pt (val bzinv) g = gadd (gej_pt (val bzinv) a) (ge_pt 1%fp b).
Proof.
  intros Ha Hb Hz Nk HC. apply fev_ok in Hz. set (k := val bzinv) in *. unfold secp256k1_gej_add_zinv_var.
  destruct (ge_infinity b) eqn:Eb.
  { eexists. split; [reflexivity|]. split; [done|]. unfold ge_pt. by rewrite Eb, gadd_inf_r. }
  destruct (Hb Eb) as [HX2 HY2]. apply fev_ok in HX2, HY2.
  assert (Pb : ge_pt 1%fp b = gjac 1%fp (val (ge_x b)) (val (ge_y b)) 1%fp) by (unfold ge_pt; by rewrite Eb). rewrite Pb.
  destruct (gej_infinity a) eqn:Ea.
  { fe_ops. eexists. split; [reflexivity|]. denote_result; [exact fp_1_nz|]. split; [done|].
    unfold gej_pt. rewrite Ea. change (gadd Inf ?P) with P.
    rewrite <- (gjac_scale 1%fp k (val (ge_x b))), <- gjac_frame by (exact fp_1_nz || done). f_equal; ring. }
  destruct (gej_ok_open a Ha Ea) as (HX & HY & HZ & Nz). fe_op.
  destruct (differences_exact a b _ _ _ _ _ _ HX HY (fev_mono _ 8 _ _ H ltac:(lia)) HX2 HY2) as (u1 & s1 & h & i & E & Hu & Hs & Hh & Hi).
  bind_step E. cbn beta iota. rewrite (bind_some _ _ _ (fev_is_zero 3 _ _ ltac:(lia) Hh)).
  assert (Nzk : (val (gej_z a) * k)%fp <> 0%fp) by (by apply fp_mul_nz).
  assert (Pa : gej_pt k a = gjac 1%fp (val (gej_x a)) (val (gej_y a)) (val (gej_z a) * k)%fp).
  { rewrite <- gjac_frame by (done || exact fp_1_nz). unfold gej_pt. rewrite Ea. f_equal. ring. }
  case_bool_decide as Zh; cbn iota.
  - rewrite (bind_some _ _ _ (fev_is_zero 3 _ _ ltac:(lia) Hi)). case_bool_decide as Zi; cbn iota.
    + destruct (double_exact k r a false Nk Ha HC) as (g & zr & E & Og & Pg & _). bind_step E. eexists. split; [reflexivity|].
      split; [done|]. rewrite Pg. f_equal. rewrite Pa. symmetry. by apply gjac_same; [exact fp_1_nz|..].
    + eexists. split; [reflexivity|]. split; [done|]. rewrite Pa. symmetry. by apply gjac_opposite; [exact fp_1_nz|..].
  - destruct (coordinates_exact u1 s1 h i (gej_z a) _ _ _ _ _ Hu Hs Hh Hi HZ) as (x3 & y3 & z3 & E & H3 & H3' & H3'').
    rewrite E. eexists. split; [reflexivity|].
    destruct (gej_denotes k _ _ _ _ _ _ H3 H3' H3'') as [Og Pg]; [by apply fp_mul_nz|]. split; [done|].
    rewrite Pg, Pa, gjac_add by (done || exact fp_1_nz). rewrite <- (Zmod.mul_1_l k) at 1.
    rewrite gjac_frame by (done || exact fp_1_nz || by apply fp_mul_nz). f_equal. ring.
Qed.

(** ** Conversions *)

Lemma set_gej_zinv_exact a zi :
  fe_ok 8 (gej_x a) -> fe_ok 8 (gej_y a) -> fe_ok 8 zi ->
  exists g, secp256k1_ge_set_gej_zinv a zi = Some g /\ ge_infinity g = gej_infinity a /\
    fev 8 (val (gej_x a) * (val zi * val zi))%fp (ge_x g) /\
    fev 8 (val (gej_y a) * (val zi * val zi * val zi))%fp (ge_y g).
Proof.
  intros Hx Hy Hz. apply fev_ok in Hx, Hy, Hz. unfold secp256k1_ge_set_gej_zinv. fe_ops.
  eexists. split; [reflexivity|]. split; [done|]. split; fe_by.
Qed.

Lemma ge_denotes k x y a b :
  fev 8 x a -> fev 8 y b -> ge_ok (Ge a b false) /\ ge_pt k (Ge a b false) = gjac k x y 1%fp.
Proof. intros [Ha <-] [Hb <-]. done. Qed.

Lemma gej_to_affine_exact a :
  gej_ok a -> gej_infinity a = false ->
  exists x y z, gej_to_affine secp256k1_fe_inv a = Some (Gej x y z false) /\ fe_ok 1 x /\ fe_ok 1 y /\
    gej_pt 1%fp a = Aff (val x) (val y).
Proof.
  intros Ha Ea. destruct (gej_ok_open a Ha Ea) as (HX & HY & HZ & Nz). unfold gej_to_affine.
  destruct (fev_inv _ _ HZ Nz) as (zi & w & E & Hw & V). bind_step E. fe_ops. rewrite Ea.
  do 3 eexists. split; [reflexivity|]. unfold gej_pt. rewrite Ea. vals.
  do 2 (split; [match goal with |- fe_ok 1 ?a => fe_hyp a ltac:(fun _ _ H => exact (proj1 H)) end|]).
  assert (Nw : w <> 0%fp) by (intros ->; apply fp_1_nz; rewrite <- V; ring).
  set (z := val (gej_z a)) in *.
  rewrite <- (gjac_scale 1%fp w) by (exact fp_1_nz || done). rewrite V, gjac_1. f_equal; ring.
Qed.

Lemma set_gej_var_exact r a :
  gej_ok a ->
  exists g a', secp256k1_ge_set_gej_var r a = Some (g, a') /\ ge_infinity g = gej_infinity a /\
    gej_infinity a' = gej_infinity a /\ ge_pt 1%fp g = gej_pt 1%fp a /\
    (gej_infinity a = false -> fe_ok 1 (ge_x g) /\ fe_ok 1 (ge_y g)).
Proof.
  intros Ha. unfold secp256k1_ge_set_gej_var. destruct (gej_infinity a) eqn:Ea.
  - eexists _, _. split; [reflexivity|]. do 2 (split; [done|]). unfold ge_pt, gej_pt. by rewrite Ea.
  - destruct (gej_to_affine_exact a Ha Ea) as (x & y & z & E & Hx & Hy & P).
    unfold secp256k1_fe_inv_var. bind_step E. eexists _, _. split; [reflexivity|]. do 2 (split; [done|]).
    split; [|done]. rewrite P. apply gjac_1.
Qed.

Lemma set_gej_exact a :
  gej_ok a -> gej_infinity a = false ->
  exists g a', secp256k1_ge_set_gej a = Some (g, a') /\ ge_infinity g = false /\ ge_pt 1%fp g = gej_pt 1%fp a /\
    fe_ok 1 (ge_x g) /\ fe_ok 1 (ge_y g).
Proof.
  intros Ha Ea. unfold secp256k1_ge_set_gej. destruct (gej_to_affine_exact a Ha Ea) as (x & y & z & E & Hx & Hy & P).
  bind_step E. eexists _, _. split; [reflexivity|]. split; [done|]. split; [|done]. rewrite P. apply gjac_1.
Qed.

Lemma gopp_gjac k x y z : gopp (gjac k x y z) = gjac k x (- y)%fp z.
Proof. unfold gopp, gjac, jac, popp. f_equal. rewrite <- !Zmod.mul_inv_r. ring. Qed.

Lemma ge_neg_exact k g :
  ge_ok g -> ge_infinity g = false ->
  exists h, secp256k1_ge_neg g = Some h /\ ge_ok h /\ ge_infinity h = false /\ ge_pt k h = gopp (ge_pt k g).
Proof.
  intros Hg Eg. destruct (Hg Eg) as [Hx Hy]. apply fev_ok in Hx, Hy. unfold secp256k1_ge_neg. fe_ops. rewrite Eg.
  eexists. split; [reflexivity|]. unfold ge_pt at 2. rewrite Eg, gopp_gjac.
  match goal with H : fev 2 _ ?y |- _ => destruct (ge_denotes k _ _ _ _ Hx (fev_mono _ 8 _ _ H ltac:(lia))) as [? ->] end.
  done.
Qed.

(** *** Storage *)

Lemma storage_exact g :
  ge_ok g -> ge_infinity g = false ->
  exists s, secp256k1_ge_to_storage g = Some s /\ unit_ok (fst s) /\ unit_ok (snd s) /\
    let h := secp256k1_ge_from_storage s in
    fe_normal (ge_x h) /\ fe_normal (ge_y h) /\ ge_infinity h = false /\
    val (ge_x h) = val (ge_x g) /\ val (ge_y h) = val (ge_y g).
Proof.
  intros Hg Eg. destruct (Hg Eg) as [Hx Hy]. unfold secp256k1_ge_to_storage. rewrite Eg. cbn [negb check].
  assert (N : forall a, fe_ok 8 a -> exists n s, secp256k1_fe_normalize a = Some n /\ secp256k1_fe_to_storage n = Some s /\
    unit_ok s /\ fe_normal (secp256k1_fe_from_storage s) /\ val (secp256k1_fe_from_storage s) = val a).
  { intros a Ha. destruct (fe_normalize_exact 8 a ltac:(lia) Ha) as (n & En & Nn & Vn).
    destruct (storage_roundtrip n Nn) as (s & Es & Us & Vs & Rs). exists n, s. do 3 (split; [done|]). rewrite Rs.
    destruct n as [l m nz]. destruct Nn as [On Zn]. cbn [fe_n fe_normalized] in *. subst nz.
    pose proof On as (_ & _ & _ & Mn). cbn [fe_magnitude] in Mn. replace m with 1 in * by lia.
    split; [done|]. unfold val. apply F_eq. change (fe_num (Fe l 1 true)) with (num 26 l).
    change (num 26 l = fe_num a mod field_p) in Vn. rewrite Vn. apply Z.mod_mod. rewrite field_p_val. lia. }
  destruct (N _ Hx) as (nx & sx & E1 & E2 & U1 & N1 & V1). destruct (N _ Hy) as (ny & sy & E3 & E4 & U2 & N2 & V2).
  rewrite (bind_some _ _ _ E1), (bind_some _ _ _ E3), (bind_some _ _ _ E2), (bind_some _ _ _ E4).
  eexists. split; [reflexivity|]. done.
Qed.

(** ** Membership, first coordinates, points from one coordinate *)

(** The affine point of two elements. *)
Definition affine (x y : Fp) : spoint := Aff x y.

Definition px (P : spoint) : option Fp := match P with Inf => None | Aff x _ => Some x end.

Lemma secp_affine x y : secp_curve (Aff x y) <-> (y * y = x * x * x + F 7)%fp.
Proof. done. Qed.

Lemma is_valid_exact g :
  fe_ok 8 (ge_x g) -> fe_ok 8 (ge_y g) -> ge_infinity g = false ->
  secp256k1_ge_is_valid_var g = Some (bool_decide (secp_curve (ge_pt 1%fp g))).
Proof.
  intros Hx Hy Eg. apply fev_ok in Hx, Hy. unfold secp256k1_ge_is_valid_var. rewrite Eg. unfold CURVE_B. fe_ops.
  match goal with |- secp256k1_fe_equal_var ?a ?b = _ =>
    fe_hyp a ltac:(fun _ v Ha => fe_hyp b ltac:(fun m w Hb => rewrite (fev_equal_var m v w a b ltac:(lia) Ha Hb))) end.
  f_equal. apply bool_decide_ext. unfold ge_pt. rewrite Eg, gjac_1. by rewrite secp_affine.
Qed.

Lemma px_gjac k x y z : px (gjac k x y z) = Some (x / (z * k * (z * k)))%fp.
Proof. done. Qed.

Lemma eq_x_exact x a :
  fe_ok 8 x -> gej_ok a -> gej_infinity a = false ->
  secp256k1_gej_eq_x_var x a = Some (bool_decide (px (gej_pt 1%fp a) = Some (val x))).
Proof.
  intros Hx Ha Ea. destruct (gej_ok_open a Ha Ea) as (HX & HY & HZ & Nz). apply fev_ok in Hx.
  unfold secp256k1_gej_eq_x_var. rewrite Ea. cbn [negb check]. fe_ops.
  match goal with |- secp256k1_fe_equal_var ?a ?b = _ =>
    fe_hyp a ltac:(fun _ v Ha => fe_hyp b ltac:(fun m w Hb => rewrite (fev_equal_var m v w a b ltac:(lia) Ha Hb))) end.
  f_equal. apply bool_decide_ext. unfold gej_pt. rewrite Ea, px_gjac. set (z := val (gej_z a)) in *.
  split.
  - intros <-. f_equal. field. done.
  - intros E%(inj Some). rewrite <- E. field. done.
Qed.

Lemma fe_normal_val a : fe_normal a -> fe_num a = Zmod.to_Z (val a).
Proof.
  intros H. destruct (fe_normal_bounds a H) as (_ & _ & _ & B). unfold val, F.
  rewrite Zmod.to_Z_of_Z. symmetry. by apply Z.mod_small.
Qed.

Lemma opp_odd (y : Fp) : y <> 0%fp -> Z.odd (Zmod.to_Z (- y)%fp) = negb (Z.odd (Zmod.to_Z y)).
Proof.
  intros Hy. pose proof field_p_val as V. pose proof (Zmod.to_Z_range y). rewrite Zmod.to_Z_opp.
  assert (Zmod.to_Z y <> 0) by (intros E; apply Hy; apply Zmod.to_Z_inj; by rewrite E).
  replace ((- Zmod.to_Z y) mod field_p) with (field_p - Zmod.to_Z y).
  - rewrite Z.odd_sub. replace (Z.odd field_p) with true by (by rewrite V). by destruct (Z.odd _).
  - apply Z.mod_unique_pos with (-1); lia.
Qed.

Lemma fev_sqrt v a :
  fev 8 v a -> exists r ok, secp256k1_fe_sqrt a = Some (r, ok) /\ fe_ok 1 r /\
    (ok = true <-> exists y : Fp, (y * y)%fp = v) /\ (ok = true -> (val r * val r)%fp = v).
Proof.
  intros [Ha <-]. destruct (fe_sqrt_exact a Ha) as (r & ok & E & Or & V1 & V2). exists r, ok. do 2 (split; [done|]).
  unfold val. split; [|intros H; rewrite <- F_mul; apply F_eq; by apply V2]. rewrite V1. split.
  - intros [y Hy]. exists (F y). rewrite <- F_mul. by apply F_eq.
  - intros [y Hy]. exists (Zmod.to_Z y). apply F_eq. rewrite F_mul. unfold F at 1 2. by rewrite Zmod.of_Z_to_Z.
Qed.

Lemma fe_normalize_var_val m a :
  m <= 31 -> fe_ok m a -> exists r, secp256k1_fe_normalize_var a = Some r /\ fe_normal r /\ val r = val a.
Proof.
  intros Hm Ha. rewrite (fe_normalize_var_eq m) by done. destruct (fe_normalize_exact m a Hm Ha) as (r & E & N & V).
  exists r. do 2 (split; [done|]). unfold val. apply F_eq. rewrite V. apply Z.mod_mod. rewrite field_p_val. lia.
Qed.

(** The second coordinate with the parity asked for. *)
Lemma parity_exact y odd :
  fe_normal y -> val y <> 0%fp ->
  exists y', (if Bool.eqb (Z.odd (Zmod.to_Z (val y))) odd then Some y else secp256k1_fe_negate y 1) = Some y' /\
    fe_ok 8 y' /\ (val y' * val y' = val y * val y)%fp /\ Z.odd (Zmod.to_Z (val y')) = odd.
Proof.
  intros Ny Hy.
  destruct (Bool.eqb_spec (Z.odd (Zmod.to_Z (val y))) odd) as [E|E].
  - exists y. split; [done|]. split; [exact (fe_ok_mono 1 8 y (proj1 Ny) ltac:(lia))|done].
  - destruct (fev_negate 1 _ y ltac:(lia) (fev_ok _ _ (proj1 Ny))) as (y' & -> & Hy'). exists y'. split; [done|].
    split; [exact (proj1 (fev_mono _ 8 _ _ Hy' ltac:(lia)))|]. vals. split; [ring|]. rewrite opp_odd by done.
    destruct (Z.odd _), odd; done.
Qed.

Lemma set_xo_exact x odd :
  fe_ok 8 x ->
  exists g ok, secp256k1_ge_set_xo_var x odd = Some (g, ok) /\
    (ok = true <-> exists y, secp_curve (Aff (val x) y)) /\
    (ok = true -> ge_infinity g = false /\ fe_ok 8 (ge_x g) /\ fe_ok 8 (ge_y g) /\
       ge_pt 1%fp g = Aff (val x) (val (ge_y g)) /\ secp_curve (ge_pt 1%fp g) /\
       Z.odd (Zmod.to_Z (val (ge_y g))) = odd).
Proof.
  intros Hx. pose proof Hx as Ox. apply fev_ok in Hx. unfold secp256k1_ge_set_xo_var, secp256k1_ge_set_xquad, CURVE_B.
  fe_ops. match goal with |- context [secp256k1_fe_sqrt ?c] => fe_hyp c ltac:(fun _ v Hc =>
    destruct (fev_sqrt v c ltac:(lower Hc)) as (y & ok & E & Oy & Vok & Vy)) end.
  bind_step E. cbn [mbind option_bind ge_x ge_y ge_infinity].
  assert (Ex : (ok = true <-> exists y, secp_curve (Aff (val x) y))).
  { rewrite Vok. split; intros [z Hz]; exists z; [rewrite secp_affine, Hz; ring|rewrite secp_affine in Hz; rewrite Hz; ring]. }
  destruct ok; cbn [negb]; [|by eexists _, _].
  assert (Ey : secp_curve (Aff (val x) (val y))) by (rewrite secp_affine, Vy by done; ring).
  destruct (fe_normalize_var_val 1 y ltac:(lia) Oy) as (n & En & Nn & Vn). rewrite <- Vn in Ey.
  pose proof (no_two_torsion _ _ Ey) as Ny. bind_step En.
  destruct (parity_exact n odd Nn Ny) as (y' & Ey' & Oy' & Sq & Par).
  rewrite (bind_some _ _ _ (fe_is_odd_exact n Nn)), (fe_normal_val n Nn). cbn beta. bind_step Ey'.
  eexists _, true. split; [reflexivity|]. split; [exact Ex|]. intros _. cbn [ge_x ge_y ge_infinity].
  assert (P : ge_pt 1%fp (Ge x y' false) = Aff (val x) (val y')) by apply gjac_1.
  do 3 (split; [done|]). split; [exact P|]. rewrite P. split; [|exact Par].
  rewrite secp_affine, Sq. exact Ey.
Qed.
