(* ===== verification/Points.v ===== *)
(** Every point of secp256k1 is a multiple of the generator.

    n multiples of G, and with a point Q outside of them the n points of each
    of the cosets of Q and 2Q: three times n points, more than the 2p + 1 that
    p first coordinates allow.  2Q is no multiple of G either, because no point
    has order two and n is odd. *)
From Stdlib Require Import Zmod Field.
From S2P Require Import Prelude Limbs Scalar ScalarProps ScalarBits Field FieldProps FieldInv Curve Secp Generator Group GroupProps.

Local Open Scope Z_scope.

(** ** Counting *)

Lemma pigeonhole (f : Z -> Z) a b :
  (forall i, 0 <= i < a -> 0 <= f i < b) ->
  (forall i j, 0 <= i < a -> 0 <= j < a -> f i = f j -> i = j) -> 0 <= b -> a <= b.
Proof.
  intros Hf Hinj Hb. destruct (Z.lt_ge_cases a 0) as [|Ha]; [lia|].
  assert (S : submseteq (f <$> seqZ 0 a) (seqZ 0 b)).
  { apply NoDup_submseteq.
    - apply NoDup_fmap_2_strong; [|apply NoDup_seqZ]. intros i j Hi%elem_of_seqZ Hj%elem_of_seqZ. apply Hinj; lia.
    - intros x (i & -> & Hi%elem_of_seqZ)%list_elem_of_fmap. apply elem_of_seqZ. specialize (Hf i). lia. }
  apply submseteq_length in S. rewrite length_fmap, !length_seqZ in S. lia.
Qed.

Lemma F_to_Z (x : Fp) : F (Zmod.to_Z x) = x.
Proof. apply Zmod.of_Z_to_Z. Qed.

Lemma Fp_bound (x : Fp) : 0 <= Zmod.to_Z x < field_p /\ 0 <= Zmod.to_Z x < 256 ^ Z.of_nat 32.
Proof.
  pose proof field_p_val as V. pose proof (Zmod.unsigned_pos_bound x ltac:(lia)). change (256 ^ Z.of_nat 32) with (2 ^ 256). lia.
Qed.

Lemma parity_unique x y y' :
  secp_curve (Aff x y) -> secp_curve (Aff x y') -> Z.odd (Zmod.to_Z y) = Z.odd (Zmod.to_Z y') -> y = y'.
Proof.
  intros H H' E. destruct (same_x _ _ _ _ _ _ _ _ Fp_field _ _ _ _ H H') as [|X]; [done|]. exfalso.
  rewrite X, opp_odd in E by (by apply no_two_torsion in H'). by destruct (Z.odd _).
Qed.

(** A point as a number: its first coordinate and the parity of the second. *)
Definition point_code (P : spoint) : Z :=
  match P with
  | Inf => 0
  | Aff x y => 1 + 2 * Zmod.to_Z x + Z.b2z (Z.odd (Zmod.to_Z y))
  end.

Lemma point_code_bound P : 0 <= point_code P < 2 * field_p + 1.
Proof.
  pose proof field_p_val as V. destruct P as [|x y]; cbn [point_code]; [lia|].
  destruct (Fp_bound x) as [B _]. destruct (Z.odd _); cbn [Z.b2z]; lia.
Qed.

Lemma point_code_inj P Q : secp_curve P -> secp_curve Q -> point_code P = point_code Q -> P = Q.
Proof.
  intros HP HQ. destruct P as [|x y], Q as [|x' y']; cbn [point_code]; intros E.
  - reflexivity.
  - destruct (Fp_bound x') as [B _]. destruct (Z.odd _); cbn [Z.b2z] in E; lia.
  - destruct (Fp_bound x) as [B _]. destruct (Z.odd _); cbn [Z.b2z] in E; lia.
  - assert (x = x') as <-.
    { apply Zmod.to_Z_inj. do 2 destruct (Z.odd _); cbn [Z.b2z] in E; lia. }
    f_equal. apply (parity_unique x y y' HP HQ). do 2 destruct (Z.odd _); cbn [Z.b2z] in E; lia || done.
Qed.

(** ** The cosets *)

Definition is_multiple (P : spoint) : Prop := exists m, P = gmul m.

Lemma add_cancel P Q R : secp_curve P -> secp_curve Q -> gadd P Q = R -> P = gadd R (gopp Q).
Proof.
  intros HP HQ <-. rewrite gadd_assoc by (done || by apply gopp_on_curve). by rewrite gadd_opp, gadd_inf_r.
Qed.

Lemma multiple_of_difference P Q i j :
  secp_curve P -> secp_curve Q -> gadd (gadd P Q) (gmul i) = gadd Q (gmul j) -> is_multiple P.
Proof.
  intros HP HQ E. exists (j - i). pose proof (gmul_on_curve i) as Ci. pose proof (gmul_on_curve j) as Cj.
  rewrite gadd_assoc, (gadd_comm Q), <- gadd_assoc in E by done.
  apply add_cancel in E; [|by apply gadd_on_curve|done].
  rewrite (gadd_comm Q), gadd_assoc, gadd_opp, gadd_inf_r in E by (done || by apply gopp_on_curve).
  apply add_cancel in E; [|done..]. rewrite E, gmul_opp, gmul_add. reflexivity.
Qed.

Lemma double_inf P : secp_curve P -> gadd P P = Inf -> P = Inf.
Proof.
  intros HP E. destruct P as [|x y]; [done|]. exfalso. apply add_cancel in E; [|done..].
  assert (Y : y = (- y)%fp) by (cbn in E; congruence).
  pose proof (no_two_torsion x y HP) as N. pose proof (opp_odd y N) as O. rewrite <- Y in O. by destruct (Z.odd _).
Qed.

(** Half of a multiple of G is one. *)
Lemma multiple_half Q : secp_curve Q -> is_multiple (gadd Q Q) -> is_multiple Q.
Proof.
  intros HQ [m E]. pose proof order_val as O. set (h := (order + 1) / 2).
  assert (H2 : h + h = order + 1) by (unfold h; rewrite O; reflexivity). exists (m * h).
  set (M := gmul (- (m * h))). pose proof (gmul_on_curve (- (m * h)) : secp_curve M) as CM.
  pose proof (gadd_on_curve _ _ HQ CM) as CT. pose proof (gadd_on_curve _ _ HQ HQ) as CQ.
  assert (T : gadd Q M = Inf).
  { apply double_inf; [done|]. rewrite gadd_assoc, <- (gadd_assoc M), (gadd_comm M Q), gadd_assoc, <- gadd_assoc by (done || by apply gadd_on_curve).
    rewrite E. unfold M. rewrite !gmul_add. apply gmul_inf.
    replace (m + (- (m * h) + - (m * h))) with (- m * order) by nia. apply Z_mod_mult. }
  apply add_cancel in T; [|done..]. rewrite T. unfold M. rewrite gmul_opp. replace (- - (m * h)) with (m * h) by ring. by destruct (gmul _).
Qed.

(** The points of the three cosets, one after the other. *)
Definition coset_point (Q : spoint) (z : Z) : spoint := gadd (gscale (z / order) Q) (gmul (z mod order)).

Lemma coset_point_inj Q i j :
  secp_curve Q -> ~ is_multiple Q -> 0 <= i < 3 * order -> 0 <= j < 3 * order -> coset_point Q i = coset_point Q j -> i = j.
Proof.
  intros HQ N Hi Hj E. pose proof order_val as O. assert (N2 : ~ is_multiple (gadd Q Q)) by (intros H; by apply N, multiple_half).
  assert (Qi : 0 <= i / order < 3) by (split; [apply Z.div_pos|apply Z.div_lt_upper_bound]; lia).
  assert (Qj : 0 <= j / order < 3) by (split; [apply Z.div_pos|apply Z.div_lt_upper_bound]; lia).
  unfold coset_point in E. set (r := i mod order) in *. set (s := j mod order) in *.
  assert (D : forall k, gscale (k + 1) Q = gadd Q (gscale k Q)).
  { intros k. rewrite Z.add_comm, gscale_add by done. done. }
  assert (D2 : forall k, gscale (k + 2) Q = gadd (gadd Q Q) (gscale k Q)).
  { intros k. rewrite Z.add_comm, gscale_add by done. by f_equal. }
  pose proof (gadd_on_curve _ _ HQ HQ) as CQ.
  assert (X : i / order = j / order).
  { destruct (Z.lt_trichotomy (i / order) (j / order)) as [L|[X|L]]; [|exact X|]; exfalso.
    - symmetry in E. destruct (Z.eq_dec (j / order) (i / order + 1)) as [X|X].
      + rewrite X, D in E. apply multiple_of_difference in E; [done|done|by apply gscale_on_curve].
      + replace (j / order) with (i / order + 2) in E by lia. rewrite D2 in E.
        apply multiple_of_difference in E; [done|done|by apply gscale_on_curve].
    - destruct (Z.eq_dec (i / order) (j / order + 1)) as [X|X].
      + rewrite X, D in E. apply multiple_of_difference in E; [done|done|by apply gscale_on_curve].
      + replace (i / order) with (j / order + 2) in E by lia. rewrite D2 in E.
        apply multiple_of_difference in E; [done|done|by apply gscale_on_curve]. }
  rewrite X in E. set (P := gscale (j / order) Q) in *. pose proof (gscale_on_curve (j / order) Q HQ : secp_curve P) as CP.
  rewrite !(gadd_comm P) in E. apply add_cancel in E; [|apply gmul_on_curve|done].
  rewrite gadd_assoc, gadd_opp, gadd_inf_r in E by (done || apply gmul_on_curve || by apply gopp_on_curve).
  assert (Z0 : gmul (r - s) = Inf).
  { unfold Z.sub. rewrite <- gmul_add, <- gmul_opp, E. apply gadd_opp, gmul_on_curve. }
  apply gmul_inf in Z0. pose proof (Z.mod_pos_bound i order ltac:(lia)) as Bi. pose proof (Z.mod_pos_bound j order ltac:(lia)) as Bj.
  fold r in Bi. fold s in Bj. apply Z.mod_divide in Z0 as [q Hq]; [|lia]. assert (q = 0) as -> by nia.
  pose proof (Z.div_mod i order ltac:(lia)). pose proof (Z.div_mod j order ltac:(lia)). fold r in H. fold s in H0. rewrite X in H. lia.
Qed.

Theorem all_multiples Q : secp_curve Q -> exists d, Q = gmul d.
Proof.
  intros HQ. pose proof order_val as O. pose proof field_p_val as V.
  destruct (decide (Exists (fun d => Q = gmul d) (seqZ 0 order))) as [H|H].
  { apply Exists_exists in H as (d & _ & E). by exists d. }
  exfalso. assert (N : ~ is_multiple Q).
  { intros [m E]. apply H, Exists_exists. exists (m mod order). pose proof (Z.mod_pos_bound m order ltac:(lia)).
    split; [apply elem_of_seqZ; lia|]. rewrite E. apply gmul_congr. by rewrite Z.mod_mod by lia. }
  assert (B : 3 * order <= 2 * field_p + 1); [|lia].
  apply (pigeonhole (fun i => point_code (coset_point Q i))); [intros i _; apply point_code_bound| |lia].
  intros i j Hi Hj E. apply (coset_point_inj Q); [done..|].
  apply point_code_inj; [apply gadd_on_curve; [by apply gscale_on_curve|apply gmul_on_curve]..|done].
Qed.
