(* ===== verification/Ecmult.v ===== *)
(** [secp256k1_ecmult] of key/pubkey.cpp: na * A + ng * G by tables of odd
    multiples and wNAF digits, the first multiplier split by the automorphism
    and the second at 2^128.

    The tables of a batch are computed in the frame of 2A, whose z is dropped,
    with the ratios of successive z's; one scaling brings a table to a common z.
    [old] is what an array of Jacobian points holds before it is filled. *)
From S2P Require Import Prelude Limbs Scalar Wnaf Field FieldOps Group.

Local Open Scope Z_scope.

Definition WINDOW_A : Z := 5.
Definition WINDOW_G : Z := 16.

Definition ECMULT_TABLE_SIZE (w : Z) : nat := Z.to_nat (Z.shiftl 1 (w - 2)).

(** ** Tables *)

(** `for (int i = 1; i < n; ++i) add_ge_var(&prej[i], &prej[i-1], &d_ge, &zr[i]);` *)
Fixpoint odd_multiples (n : nat) (old p : secp256k1_gej) (d_ge : secp256k1_ge) : option (list (secp256k1_gej * secp256k1_fe)) :=
  match n with
  | O => Some []
  | S n =>
      '(g, zr) ← secp256k1_gej_add_ge_var old p d_ge true;
      zr ← zr;
      rest ← odd_multiples n old g d_ge;
      Some ((g, zr) :: rest)
  end.

(** The entries prej[i] with their zr[i], for n > 0. *)
Definition secp256k1_ecmult_odd_multiples_table (n : nat) (old a : secp256k1_gej) :
  option (list (secp256k1_gej * secp256k1_fe)) :=
  check (negb (gej_infinity a)) (
  '(d, _) ← secp256k1_gej_double_var old a false;
  let d_ge := Ge (gej_x d) (gej_y d) false in
  a_ge ← secp256k1_ge_set_gej_zinv a (gej_z d);
  let p := Gej (ge_x a_ge) (ge_y a_ge) (gej_z a) false in
  rest ← odd_multiples (n - 1) old p d_ge;
  let entries := (p, gej_z d) :: rest in
  '(g, zr) ← entries !! (n - 1)%nat;
  z ← secp256k1_fe_mul (gej_z g) (gej_z d);
  Some (<[(n - 1)%nat := (Gej (gej_x g) (gej_y g) z (gej_infinity g), zr)]> entries)).

(** `while (i > 0)`: backwards through the entries below the last one scaled
    (given from the highest index down), [zs] the product of the ratios so far. *)
Fixpoint scale_back (entries : list (secp256k1_gej * secp256k1_fe)) (zs : secp256k1_fe) : option (list secp256k1_ge) :=
  match entries with
  | [] => Some []
  | (a, zr) :: rest =>
      r ← secp256k1_ge_set_gej_zinv a zs;
      match rest with
      | [] => Some [r]
      | _ => zs ← secp256k1_fe_mul zs zr; rs ← scale_back rest zs; Some (rs ++ [r])
      end
  end.

(** The table with the z of its last entry as the common one. *)
Definition secp256k1_ge_globalz_set_table_gej (entries : list (secp256k1_gej * secp256k1_fe)) :
  option (list secp256k1_ge * secp256k1_fe) :=
  match reverse entries with
  | [] => None
  | (a, zr) :: rest =>
      rs ← scale_back rest zr;
      Some (rs ++ [Ge (gej_x a) (gej_y a) false], gej_z a)
  end.

(** The table in affine coordinates, with one inversion. *)
Definition secp256k1_ge_set_table_gej_var (entries : list (secp256k1_gej * secp256k1_fe)) : option (list secp256k1_ge) :=
  match reverse entries with
  | [] => Some []
  | (a, zr) :: rest => zi ← secp256k1_fe_inv (gej_z a); scale_back ((a, zr) :: rest) zi
  end.

Definition secp256k1_ecmult_odd_multiples_table_storage_var (n : nat) (old a : secp256k1_gej) :
  option (list secp256k1_ge_storage) :=
  entries ← secp256k1_ecmult_odd_multiples_table n old a;
  prea ← secp256k1_ge_set_table_gej_var entries;
  mapM secp256k1_ge_to_storage prea.

(** ** The context: odd multiples of G and of 2^128 G *)

Record secp256k1_context := Context { pre_g_ : list secp256k1_ge_storage; pre_g_128_ : list secp256k1_ge_storage }.

Fixpoint doublings (n : nat) (g : secp256k1_gej) : option secp256k1_gej :=
  match n with
  | O => Some g
  | S n => '(g, _) ← secp256k1_gej_double_var g g false; doublings n g
  end.

(** With memory for the tables. *)
Definition secp256k1_context_build (old : secp256k1_gej) : option secp256k1_context :=
  gj ← secp256k1_gej_set_ge secp256k1_get_ge_const_g;
  pre_g ← secp256k1_ecmult_odd_multiples_table_storage_var (ECMULT_TABLE_SIZE WINDOW_G) old gj;
  g_128j ← doublings 128 gj;
  pre_g_128 ← secp256k1_ecmult_odd_multiples_table_storage_var (ECMULT_TABLE_SIZE WINDOW_G) old g_128j;
  Some (Context pre_g pre_g_128).

(** ** Reading a table at a digit *)

Definition table_digit_ok (n w : Z) : bool :=
  (Z.land n 1 =? 1) && (- (Z.shiftl 1 (w - 1) - 1) <=? n) && (n <=? Z.shiftl 1 (w - 1) - 1).

Definition ECMULT_TABLE_GET_GE (pre : list secp256k1_ge) (n w : Z) : option secp256k1_ge :=
  check (table_digit_ok n w) (
  if 0 <? n then pre !! Z.to_nat (Z.quot (n - 1) 2)
  else g ← pre !! Z.to_nat (Z.quot (- n - 1) 2); secp256k1_ge_neg g).

Definition ECMULT_TABLE_GET_GE_STORAGE (pre : list secp256k1_ge_storage) (n w : Z) : option secp256k1_ge :=
  check (table_digit_ok n w) (
  if 0 <? n then s ← pre !! Z.to_nat (Z.quot (n - 1) 2); Some (secp256k1_ge_from_storage s)
  else s ← pre !! Z.to_nat (Z.quot (- n - 1) 2); secp256k1_ge_neg (secp256k1_ge_from_storage s)).

(** ** The multiplication *)

Definition secp256k1_beta : secp256k1_fe := SECP256K1_FE_CONST
  0x7ae96a2b 0x657c0710 0x6e64479e 0xac3434e9 0x9cf04975 0x12f58995 0xc1396c28 0x719501ee.

Definition secp256k1_ge_mul_lambda (a : secp256k1_ge) : option secp256k1_ge :=
  x ← secp256k1_fe_mul (ge_x a) secp256k1_beta;
  Some (Ge x (ge_y a) (ge_infinity a)).

Definition secp256k1_ecmult_odd_multiples_table_globalz_windowa (old a : secp256k1_gej) :
  option (list secp256k1_ge * secp256k1_fe) :=
  (* Compute the odd multiples in Jacobian form. *)
  entries ← secp256k1_ecmult_odd_multiples_table (ECMULT_TABLE_SIZE WINDOW_A) old a;
  (* Bring them to the same Z denominator. *)
  secp256k1_ge_globalz_set_table_gej entries.

(** `if (i < bits && (n = wnaf[i])) { get; add }` *)
Definition add_digit (get : Z -> option secp256k1_ge) (add : secp256k1_gej -> secp256k1_ge -> option secp256k1_gej)
  (wnaf : list Z) (bits i : Z) (r : secp256k1_gej) : option secp256k1_gej :=
  if i <? bits then
    let n := wnaf.[Z.to_nat i] in
    if n =? 0 then Some r else tmpa ← get n; add r tmpa
  else Some r.

(** What the loop reads. *)
Record ecmult_input := EcmultInput {
  pre_a : list secp256k1_ge; pre_a_lam : list secp256k1_ge; Z_ : secp256k1_fe; ctx : secp256k1_context;
  na_1_ : list Z * Z; na_lam_ : list Z * Z; ng_1_ : list Z * Z; ng_128_ : list Z * Z
}.

Definition add_affine (r : secp256k1_gej) (b : secp256k1_ge) : option secp256k1_gej :=
  '(g, _) ← secp256k1_gej_add_ge_var r r b false; Some g.

(** One iteration. *)
Definition ecmult_step (m : ecmult_input) (i : Z) (r : secp256k1_gej) : option secp256k1_gej :=
  '(r, _) ← secp256k1_gej_double_var r r false;
  r ← add_digit (fun n => ECMULT_TABLE_GET_GE (pre_a m) n WINDOW_A) add_affine (fst (na_1_ m)) (snd (na_1_ m)) i r;
  r ← add_digit (fun n => ECMULT_TABLE_GET_GE (pre_a_lam m) n WINDOW_A) add_affine (fst (na_lam_ m)) (snd (na_lam_ m)) i r;
  r ← add_digit (fun n => ECMULT_TABLE_GET_GE_STORAGE (pre_g_ (ctx m)) n WINDOW_G)
        (fun r b => secp256k1_gej_add_zinv_var r r b (Z_ m)) (fst (ng_1_ m)) (snd (ng_1_ m)) i r;
  add_digit (fun n => ECMULT_TABLE_GET_GE_STORAGE (pre_g_128_ (ctx m)) n WINDOW_G)
        (fun r b => secp256k1_gej_add_zinv_var r r b (Z_ m)) (fst (ng_128_ m)) (snd (ng_128_ m)) i r.

(** `for (i = bits - 1; i >= 0; --i)` *)
Fixpoint ecmult_loop (m : ecmult_input) (n : nat) (r : secp256k1_gej) : option secp256k1_gej :=
  match n with
  | O => Some r
  | S n => r ← ecmult_step m (Z.of_nat n) r; ecmult_loop m n r
  end.

Definition secp256k1_ecmult (old a : secp256k1_gej) (na ng : secp256k1_unit) : option secp256k1_gej :=
  ctx ← secp256k1_context_build old;
  '(na_1, na_lam) ← secp256k1_scalar_split_lambda na;
  na_1 ← secp256k1_ecmult_wnaf 130 na_1 WINDOW_A;
  na_lam ← secp256k1_ecmult_wnaf 130 na_lam WINDOW_A;
  check (snd na_1 <=? 130) (check (snd na_lam <=? 130) (
  '(pre_a, Z) ← secp256k1_ecmult_odd_multiples_table_globalz_windowa old a;
  pre_a_lam ← mapM secp256k1_ge_mul_lambda pre_a;
  let '(ng_1, ng_128) := secp256k1_scalar_split_128 ng in
  ng_1 ← secp256k1_ecmult_wnaf 129 ng_1 WINDOW_G;
  ng_128 ← secp256k1_ecmult_wnaf 129 ng_128 WINDOW_G;
  let bits := Z.max (Z.max (snd na_1) (snd na_lam)) (Z.max (snd ng_1) (snd ng_128)) in
  let m := EcmultInput pre_a pre_a_lam Z ctx na_1 na_lam ng_1 ng_128 in
  r ← ecmult_loop m (Z.to_nat bits) secp256k1_gej_set_infinity;
  if gej_infinity r then Some r
  else z ← secp256k1_fe_mul (gej_z r) Z; Some (Gej (gej_x r) (gej_y r) z false))).
