(* ===== verification/EcmultTables.v ===== *)
(** The tables of Ecmult.v hold what they should: entry i of the table of a
    point A is (2i + 1) A, in the frame of the common z that is returned, or
    affine after the batch inversion. *)
From Stdlib Require Import Zmod Field.
From S2P Require Import Prelude Limbs Field FieldMul FieldOps FieldProps FieldNorm FieldInv Scalar ScalarProps Curve Secp Generator Group GroupProps Wnaf Ecmult.

Local Open Scope Z_scope.

(** ** Runs of multiples, from the last back to the first *)

(** An affine entry: a point that is not infinity, in the frame K. *)
Definition entry_ok (K : Fp) (m : Z) (g : secp256k1_ge) : Prop :=
  ge_infinity g = false /\ fe_ok 8 (ge_x g) /\ fe_ok 8 (ge_y g) /\ ge_pt K g = gmul m.

Definition table_ok (K : Fp) (c : Z) (n : nat) (t : list secp256k1_ge) : Prop :=
  length t = n /\ forall i g, t !! i = Some g -> entry_ok K ((2 * Z.of_nat i + 1) * c) g.

Definition jacobian_ok (k : Fp) (m : Z) (g : secp256k1_gej) : Prop :=
  gej_infinity g = false /\ gej_ok g /\ gej_pt k g = gmul m.

(** The entries of a table in the frame k, the last first: the multiples e,
    e - step, ..., and each z is the one before times the ratio. *)
Fixpoint back_ok (k : Fp) (step e : Z) (l : list (secp256k1_gej * secp256k1_fe)) : Prop :=
  match l with
  | [] => True
  | (a, zr) :: rest =>
      jacobian_ok k e a /\ fe_ok 8 zr /\
      match rest with
      | [] => True
      | (a', _) :: _ => val (gej_z a) = (val (gej_z a') * val zr)%fp
      end /\ back_ok k step (e - step) rest
  end.

Lemma jacobian_open k m g :
  jacobian_ok k m g ->
  fe_ok 8 (gej_x g) /\ fe_ok 8 (gej_y g) /\ fe_ok 8 (gej_z g) /\ val (gej_z g) <> 0%fp /\
  gjac k (val (gej_x g)) (val (gej_y g)) (val (gej_z g)) = gmul m.
Proof. intros (I & O & P). destruct (O I) as (? & ? & ? & ?). unfold gej_pt in P. by rewrite I in P. Qed.

Lemma odd_multiples_exact k step d_ge old n p zr acc e :
  k <> 0%fp -> ge_ok d_ge -> ge_pt k d_ge = gmul step ->
  (forall j, (0 < j <= n)%nat -> gmul (e + step * Z.of_nat j) <> Inf) ->
  back_ok k step e ((p, zr) :: acc) ->
  exists l, odd_multiples n old p d_ge = Some l /\ length l = n /\
    back_ok k step (e + step * Z.of_nat n) (reverse l ++ (p, zr) :: acc).
Proof.
  intros Hk Hd Pd. revert p zr acc e. induction n as [|n IH]; intros p zr acc e Hn H.
  - exists []. split; [done|]. split; [done|]. cbn [reverse rev_append app]. by rewrite Z.mul_0_r, Z.add_0_r.
  - cbn [odd_multiples]. destruct H as ((Ip & Op & Pp) & H).
    destruct (add_ge_exact k p d_ge Hk Op Hd) with (r := old) (w := true) as (g & o & E & Og & Pg & R);
      [rewrite Pp; apply gmul_on_curve|by rewrite Ip|].
    bind_step E. rewrite Pp, Pd, gmul_add in Pg.
    assert (Ig : gej_infinity g = false).
    { destruct (gej_infinity g) eqn:Ig; [|done]. exfalso. apply (Hn 1%nat ltac:(lia)).
      rewrite Z.mul_1_r, <- Pg. unfold gej_pt. by rewrite Ig. }
    destruct (R Ig) as (z & -> & Oz & Vz). cbn [mbind option_bind].
    destruct (IH g z ((p, zr) :: acc) (e + step)) as (l & El & Hl & Hb).
    + intros j Hj. replace (e + step + step * Z.of_nat j) with (e + step * Z.of_nat (S j)) by lia. apply Hn. lia.
    + cbn [back_ok]. split; [done|]. split; [done|]. split; [done|].
      replace (e + step - step) with e by ring. split; [done|]. exact H.
    + bind_step El. eexists. split; [reflexivity|]. split; [cbn [length]; lia|].
      rewrite reverse_cons, <- app_assoc. cbn [app].
      replace (e + step * Z.of_nat (S n)) with (e + step + step * Z.of_nat n) by lia. exact Hb.
Qed.

(** Scaling back to the frame K. *)
Lemma scale_entry k K a zs m :
  k <> 0%fp -> jacobian_ok k m a -> fe_ok 8 zs -> K = (val (gej_z a) * k * val zs)%fp -> K <> 0%fp ->
  exists g, secp256k1_ge_set_gej_zinv a zs = Some g /\ entry_ok K m g.
Proof.
  intros Hk Ha Hzs EK HK. destruct (jacobian_open k m a Ha) as (Hx & Hy & _ & Nz & P).
  destruct (set_gej_zinv_exact a zs Hx Hy Hzs) as (g & E & Ig & [Ox Vx] & [Oy Vy]). rewrite (proj1 Ha) in Ig.
  exists g. split; [done|]. split; [done|]. split; [done|]. split; [done|]. unfold ge_pt. rewrite Ig, Vx, Vy, <- P.
  assert (Ns : val zs <> 0%fp) by (intros Z; apply HK; rewrite EK, Z; ring).
  rewrite (gjac_frame_1 K), (gjac_frame_1 k) by (exact fp_1_nz || done).
  rewrite <- (gjac_scale 1%fp (val zs) _ _ (_ * k)%fp) by (exact fp_1_nz || done || by apply fp_mul_nz).
  f_equal. rewrite EK. ring.
Qed.

Lemma scale_back_exact k step K l zs e :
  k <> 0%fp -> K <> 0%fp -> back_ok k step e l -> fe_ok 8 zs ->
  match l with [] => True | (a, _) :: _ => K = (val (gej_z a) * k * val zs)%fp end ->
  exists rs, scale_back l zs = Some rs /\ length rs = length l /\
    forall i g, rs !! i = Some g -> entry_ok K (e - step * (zlen l - 1 - Z.of_nat i)) g.
Proof.
  intros Hk HK. revert zs e. induction l as [|[a zr] l IH]; intros zs e Hb Hzs EK; [by exists []|].
  destruct Hb as (Ha & Hzr & R & Hb). destruct (scale_entry k K a zs e Hk Ha Hzs EK HK) as (g & E & Hg).
  cbn [scale_back]. bind_step E. destruct l as [|[a' zr'] l].
  - exists [g]. split; [done|]. split; [done|]. intros [|i] g' [= <-]. unfold zlen. cbn [length].
    by replace (e - step * (Z.of_nat 1 - 1 - Z.of_nat 0)) with e by lia.
  - apply fev_ok in Hzs, Hzr. fe_op. match goal with H : fev 1 _ _ |- _ => destruct H as [Oz Vz] end.
    destruct (IH r (e - step)) as (rs & Er & Hl & Hrs); [done|exact (fe_ok_mono 1 8 _ Oz ltac:(lia))| |].
    { rewrite EK, R, Vz. ring. }
    bind_step Er. eexists. split; [reflexivity|]. split; [rewrite length_app, Hl; cbn [length]; lia|].
    intros i g' Hi. unfold zlen in *. cbn [length] in *. apply lookup_app_Some in Hi as [Hi|[Hi Hi']].
    + replace (e - step * (Z.of_nat (S (S (length l))) - 1 - Z.of_nat i))
        with (e - step - step * (Z.of_nat (S (length l)) - 1 - Z.of_nat i)) by lia. by apply Hrs.
    + destruct (i - length rs)%nat as [|q] eqn:Q; [|done]. injection Hi' as <-.
      replace (Z.of_nat (S (S (length l))) - 1 - Z.of_nat i) with 0 by lia. by rewrite Z.mul_0_r, Z.sub_0_r.
Qed.

(** ** Maps over a table *)

Lemma mapM_lookup {A B} (f : A -> option B) (Q : nat -> B -> Prop) l :
  (forall i x, l !! i = Some x -> exists y, f x = Some y /\ Q i y) ->
  exists ys, mapM f l = Some ys /\ length ys = length l /\ forall i y, ys !! i = Some y -> Q i y.
Proof.
  revert Q. induction l as [|x l IH]; intros Q H; [by exists []|].
  destruct (H 0%nat x eq_refl) as (y & E & Hy). destruct (IH (fun i => Q (S i))) as (ys & Es & Ls & Hs).
  { intros i z Hi. apply (H (S i) z Hi). }
  exists (y :: ys). cbn [mapM]. rewrite E. cbn [mbind option_bind]. rewrite Es. split; [done|]. split; [cbn [length]; lia|].
  intros [|i] z Hi; [by injection Hi as <-|]. by apply Hs.
Qed.

Lemma entry_storage m g :
  entry_ok 1%fp m g -> exists s, secp256k1_ge_to_storage g = Some s /\ entry_ok 1%fp m (secp256k1_ge_from_storage s).
Proof.
  intros (I & Ox & Oy & P). destruct (storage_exact g (fun _ => conj Ox Oy) I) as (s & E & _ & _ & Nx & Ny & Is & Vx & Vy).
  exists s. split; [done|]. split; [done|]. split; [exact (fe_ok_mono 1 8 _ (proj1 Nx) ltac:(lia))|].
  split; [exact (fe_ok_mono 1 8 _ (proj1 Ny) ltac:(lia))|]. rewrite <- P. unfold ge_pt. by rewrite Is, I, Vx, Vy.
Qed.

(** ** The table of a point *)

Section Table.
Context (n : nat) (old a : secp256k1_gej) (c : Z).
Context (Hn : (0 < n)%nat) (Ha : jacobian_ok 1%fp c a).
Context (Hc : forall j, 0 < j <= 2 * Z.of_nat n -> gmul (j * c) <> Inf).

(** The run that [secp256k1_ecmult_odd_multiples_table] leaves: all entries in
    the frame k but the last, whose z has the factor k already. *)
Lemma odd_multiples_table_exact :
  exists k entries g g0 zr rest,
    secp256k1_ecmult_odd_multiples_table n old a = Some entries /\ length entries = n /\
    reverse entries = (g, zr) :: rest /\ k <> 0%fp /\ back_ok k (2 * c) ((2 * Z.of_nat n - 1) * c) ((g0, zr) :: rest) /\
    g = Gej (gej_x g0) (gej_y g0) (gej_z g) false /\ fe_ok 8 (gej_z g) /\ val (gej_z g) = (val (gej_z g0) * k)%fp.
Proof.
  destruct Ha as (Ia & Oa & Pa). unfold secp256k1_ecmult_odd_multiples_table. rewrite Ia. cbn [negb check].
  destruct (double_exact 1%fp old a false fp_1_nz Oa) as (d & zr0 & E & Od & Pd & Id & _); [rewrite Pa; apply gmul_on_curve|].
  bind_step E. rewrite Ia in Id. destruct (Od Id) as (Dx & Dy & Dz & Nd). destruct (Oa Ia) as (Ax & Ay & Az & Na).
  rewrite Pa, gmul_add in Pd. set (k := val (gej_z d)) in *.
  destruct (set_gej_zinv_exact a (gej_z d) Ax Ay Dz) as (ag & E & _ & [Ox Vx] & [Oy Vy]). bind_step E. fold k in Vx, Vy.
  set (p := Gej (ge_x ag) (ge_y ag) (gej_z a) false).
  assert (Hp : jacobian_ok k c p).
  { split; [done|]. split; [done|]. rewrite <- Pa. unfold gej_pt, p. cbn [gej_x gej_y gej_z gej_infinity]. rewrite Ia, Vx, Vy.
    rewrite (gjac_frame_1 k) by done. apply gjac_scale; [exact fp_1_nz|done..]. }
  assert (Pg : ge_pt k (Ge (gej_x d) (gej_y d) false) = gmul (2 * c)).
  { replace (2 * c) with (c + c) by ring. rewrite <- Pd. unfold ge_pt, gej_pt. cbn [ge_x ge_y ge_infinity]. rewrite Id.
    fold k. rewrite (gjac_frame_1 k) by (exact fp_1_nz || done). f_equal. ring. }
  destruct (odd_multiples_exact k (2 * c) (Ge (gej_x d) (gej_y d) false) old (n - 1) p (gej_z d) [] c Nd) as (l & El & Ll & Hb);
    [done|done| |done|].
  { intros j Hj. replace (c + 2 * c * Z.of_nat j) with ((2 * Z.of_nat j + 1) * c) by ring. apply Hc. lia. }
  bind_step El. set (entries := (p, gej_z d) :: l) in *.
  assert (Le : length entries = n) by (cbn [entries length]; lia).
  replace (reverse l ++ [(p, gej_z d)]) with (reverse entries) in Hb by (unfold entries; by rewrite reverse_cons).
  destruct (exists_last (l := entries)) as (init & [g0 zr] & Ei); [done|]. clearbody entries. subst entries.
  rewrite length_app in Le. cbn [length] in Le. replace (n - 1)%nat with (length init) by lia.
  rewrite reverse_snoc in Hb. rewrite (bind_some _ _ _ (list_lookup_middle init [] (g0, zr) _ eq_refl)).
  destruct (jacobian_open _ _ _ (proj1 Hb)) as (_ & _ & Gz & _).
  destruct (fev_mul _ _ _ _ (fev_ok _ _ Gz) (fev_ok _ _ Dz)) as (z & Ez & [Oz Vz]). bind_step Ez.
  rewrite insert_app_r_alt, Nat.sub_diag by done. destruct (proj1 Hb) as (I0 & _ & _).
  eexists k, _, (Gej (gej_x g0) (gej_y g0) z false), g0, zr, (reverse init). split; [reflexivity|]. rewrite I0.
  split; [rewrite length_app; cbn [length insert list_insert]; lia|]. cbn [insert list_insert].
  split; [apply reverse_snoc|]. split; [done|]. split; [|split; [done|split; [exact (fe_ok_mono 1 8 _ Oz ltac:(lia))|done]]].
  replace ((2 * Z.of_nat n - 1) * c) with (c + 2 * c * Z.of_nat (n - 1)) by (rewrite Nat2Z.inj_sub by lia; ring). exact Hb.
Qed.

(** The table for a common z. *)
Lemma globalz_table_exact :
  exists entries pre zz, secp256k1_ecmult_odd_multiples_table n old a = Some entries /\
    secp256k1_ge_globalz_set_table_gej entries = Some (pre, zz) /\
    fe_ok 8 zz /\ val zz <> 0%fp /\ table_ok (val zz) c n pre.
Proof.
  destruct odd_multiples_table_exact as (k & entries & g & g0 & zr & rest & E & Le & Er & Hk & Hb & Eg & Oz & Vz).
  destruct Hb as (H0 & Hzr & R & Hb). destruct (jacobian_open _ _ _ H0) as (Gx & Gy & _ & Nz & P).
  assert (HK : val (gej_z g) <> 0%fp) by (rewrite Vz; by apply fp_mul_nz).
  assert (Lr : n = S (length rest)) by (rewrite <- Le, <- length_reverse, Er; done).
  destruct (scale_back_exact k (2 * c) (val (gej_z g)) rest zr _ Hk HK Hb Hzr) as (rs & Es & Lrs & Hrs).
  { destruct rest as [|[a' zr'] rest]; [done|]. rewrite Vz, R. ring. }
  exists entries. unfold secp256k1_ge_globalz_set_table_gej. rewrite Er, (bind_some _ _ _ Es).
  eexists _, _. split; [done|]. split; [reflexivity|]. split; [done|]. split; [done|].
  split; [rewrite length_app, Lrs; cbn [length]; lia|]. intros i h Hi. apply lookup_app_Some in Hi as [Hi|[Hi Hi']].
  - pose proof (lookup_lt_Some _ _ _ Hi). specialize (Hrs i h Hi). unfold zlen in Hrs.
    by replace ((2 * Z.of_nat i + 1) * c) with ((2 * Z.of_nat n - 1) * c - 2 * c - 2 * c * (Z.of_nat (length rest) - 1 - Z.of_nat i)) by (rewrite Lr, Nat2Z.inj_succ; ring).
  - destruct (i - length rs)%nat as [|q] eqn:Q; [|done]. injection Hi' as <-.
    replace (2 * Z.of_nat i + 1) with (2 * Z.of_nat n - 1) by lia.
    assert (Ex : gej_x g = gej_x g0) by (by rewrite Eg). assert (Ey : gej_y g = gej_y g0) by (by rewrite Eg). rewrite Ex, Ey.
    split; [done|]. split; [done|]. split; [done|]. rewrite <- P. unfold ge_pt. cbn [ge_x ge_y ge_infinity].
    rewrite Vz. set (z0 := val (gej_z g0)) in *.
    rewrite (gjac_frame_1 (z0 * k)%fp), (gjac_frame_1 k) by (exact fp_1_nz || done || by apply fp_mul_nz). f_equal. ring.
Qed.

(** The affine table in storage form. *)
Definition storage_table_ok (c : Z) (n : nat) (t : list secp256k1_ge_storage) : Prop :=
  table_ok 1%fp c n (secp256k1_ge_from_storage <$> t).

Lemma storage_table_exact :
  exists t, secp256k1_ecmult_odd_multiples_table_storage_var n old a = Some t /\ storage_table_ok c n t.
Proof.
  destruct odd_multiples_table_exact as (k & entries & g & g0 & zr & rest & E & Le & Er & Hk & Hb & Eg & Oz & Vz).
  unfold secp256k1_ecmult_odd_multiples_table_storage_var. bind_step E.
  unfold secp256k1_ge_set_table_gej_var. rewrite Er.
  pose proof (proj1 Hb) as H0. destruct (jacobian_open _ _ _ H0) as (Gx & Gy & _ & Nz & P).
  assert (HK : val (gej_z g) <> 0%fp) by (rewrite Vz; by apply fp_mul_nz).
  assert (Lr : n = S (length rest)) by (rewrite <- Le, <- length_reverse, Er; done).
  destruct (fev_inv _ _ (fev_ok _ _ Oz) HK) as (zi & w & Ei & [Oi Vi] & Vw). rewrite (bind_some _ _ _ Ei).
  (* the last entry with its own z is the point of the frame 1 *)
  assert (El : scale_back ((g, zr) :: rest) zi = scale_back ((g0, zr) :: rest) zi).
  { cbn [scale_back]. unfold secp256k1_ge_set_gej_zinv. rewrite Eg. cbn [gej_x gej_y gej_infinity]. by rewrite (proj1 H0). }
  rewrite El.
  destruct (scale_back_exact k (2 * c) 1%fp ((g0, zr) :: rest) zi _ Hk fp_1_nz Hb (fe_ok_mono 1 8 _ Oi ltac:(lia))) as (rs & Es & Lrs & Hrs).
  { by rewrite Vi, <- Vz, Vw. }
  bind_step Es. assert (T : table_ok 1%fp c n rs).
  { split; [rewrite Lrs; cbn [length]; lia|]. intros i h Hi. specialize (Hrs i h Hi). unfold zlen in Hrs. cbn [length] in Hrs.
    by replace ((2 * Z.of_nat i + 1) * c) with ((2 * Z.of_nat n - 1) * c - 2 * c * (Z.of_nat (S (length rest)) - 1 - Z.of_nat i))
      by (rewrite Lr, Nat2Z.inj_succ; ring). }
  destruct (mapM_lookup secp256k1_ge_to_storage
    (fun i s => entry_ok 1%fp ((2 * Z.of_nat i + 1) * c) (secp256k1_ge_from_storage s)) rs) as (t & Et & Lt & Ht).
  { intros i h Hi. apply entry_storage. by apply T. }
  exists t. split; [done|]. split; [rewrite length_fmap, Lt; apply T|]. intros i h Hi.
  rewrite list_lookup_fmap in Hi. destruct (t !! i) as [s|] eqn:Ei'; [|done]. injection Hi as <-. by apply Ht.
Qed.
End Table.
