(* ===== verification/EcmultProps.v ===== *)
(** [secp256k1_ecmult] computes na A + ng G for every multiple A of the
    generator but infinity: the digits of the two halves of either multiplier
    are added from the tables, each in its frame, and the result is brought back
    from the frame of the table of A. *)
From Stdlib Require Import Zmod Field.
From S2P Require Import Prelude Limbs Scalar ScalarProps ScalarMul ScalarBits Wnaf ScalarSpec.
From S2P Require Import Field FieldMul FieldOps FieldProps FieldNorm FieldInv Curve Secp Generator Group GroupProps Ecmult EcmultTables.

Local Open Scope Z_scope.

(** ** Reading a table *)

Lemma entry_neg K m g : entry_ok K m g -> exists h, secp256k1_ge_neg g = Some h /\ entry_ok K (- m) h.
Proof.
  intros (I & Ox & Oy & P). destruct (ge_neg_exact K g (fun _ => conj Ox Oy) I) as (h & E & Oh & Ih & Ph).
  exists h. split; [done|]. destruct (Oh Ih) as [? ?]. do 3 (split; [done|]). by rewrite Ph, P, gmul_opp.
Qed.

(** The digits a table is read at. *)
Lemma table_digit w n :
  2 <= w -> digit_ok w n -> n <> 0 ->
  table_digit_ok n w = true /\
  exists i, (i < ECMULT_TABLE_SIZE w)%nat /\
    if 0 <? n then Z.to_nat (Z.quot (n - 1) 2) = i /\ n = 2 * Z.of_nat i + 1
    else Z.to_nat (Z.quot (- n - 1) 2) = i /\ n = - (2 * Z.of_nat i + 1).
Proof.
  intros Hw [->|[Ho Hb]] Hn; [done|].
  assert (Q : 2 ^ (w - 1) = 2 * 2 ^ (w - 2)) by (rewrite <- Z.pow_succ_r by lia; f_equal; lia).
  assert (Ps : Z.of_nat (ECMULT_TABLE_SIZE w) = 2 ^ (w - 2)).
  { unfold ECMULT_TABLE_SIZE. rewrite Z.shiftl_1_l, Z2Nat.id; lia. }
  apply Z.odd_spec in Ho as [q ->].
  split.
  - unfold table_digit_ok. rewrite !Z.shiftl_1_l. rewrite !andb_true_iff, Z.eqb_eq, !Z.leb_le. split; [split|]; [|lia..].
    change 1 with (2 ^ 1 - 1) at 2. rewrite land_ones_mod by lia. change (2 ^ 1) with 2.
    symmetry. apply Z.mod_unique_pos with q; lia.
  - destruct (Z.ltb_spec 0 (2 * q + 1)).
    + exists (Z.to_nat q). replace (2 * q + 1 - 1) with (q * 2) by ring. rewrite Z.quot_mul by lia. lia.
    + exists (Z.to_nat (- q - 1)). replace (- (2 * q + 1) - 1) with ((- q - 1) * 2) by ring. rewrite Z.quot_mul by lia. lia.
Qed.

Lemma get_ge_exact K c w n t :
  2 <= w -> table_ok K c (ECMULT_TABLE_SIZE w) t -> digit_ok w n -> n <> 0 ->
  exists g, ECMULT_TABLE_GET_GE t n w = Some g /\ entry_ok K (n * c) g.
Proof.
  intros Hw [Lt Ht] Hd Hn. destruct (table_digit w n Hw Hd Hn) as (D & i & Hi & H). unfold ECMULT_TABLE_GET_GE. rewrite D. cbn [check].
  destruct (lookup_lt_is_Some_2 t i) as [g Eg]; [by rewrite Lt|]. specialize (Ht i g Eg).
  destruct (0 <? n); destruct H as [-> ->].
  - by exists g.
  - rewrite (bind_some _ _ _ Eg). destruct (entry_neg _ _ _ Ht) as (h & E & Hh). exists h. split; [done|].
    by replace (- (2 * Z.of_nat i + 1) * c) with (- ((2 * Z.of_nat i + 1) * c)) by ring.
Qed.

Lemma get_ge_storage_exact c w n t :
  2 <= w -> storage_table_ok c (ECMULT_TABLE_SIZE w) t -> digit_ok w n -> n <> 0 ->
  exists g, ECMULT_TABLE_GET_GE_STORAGE t n w = Some g /\ entry_ok 1%fp (n * c) g.
Proof.
  intros Hw [Lt Ht] Hd Hn. destruct (table_digit w n Hw Hd Hn) as (D & i & Hi & H).
  unfold ECMULT_TABLE_GET_GE_STORAGE. rewrite D. cbn [check]. rewrite length_fmap in Lt.
  destruct (lookup_lt_is_Some_2 t i) as [s Es]; [by rewrite Lt|].
  specialize (Ht i (secp256k1_ge_from_storage s) ltac:(by rewrite list_lookup_fmap, Es)).
  destruct (0 <? n); destruct H as [-> ->]; rewrite (bind_some _ _ _ Es).
  - by eexists.
  - destruct (entry_neg _ _ _ Ht) as (h & E & Hh). exists h. split; [done|].
    by replace (- (2 * Z.of_nat i + 1) * c) with (- ((2 * Z.of_nat i + 1) * c)) by ring.
Qed.

Lemma beta_value : fe_ok 8 secp256k1_beta /\ val secp256k1_beta = F beta.
Proof.
  split; [|reflexivity]. split; [reflexivity|]. split; [reflexivity|]. split; [|split; vm_compute; discriminate].
  repeat constructor; vm_compute; discriminate.
Qed.

Lemma mul_lambda_exact K m g :
  K <> 0%fp -> entry_ok K m g -> exists h, secp256k1_ge_mul_lambda g = Some h /\ entry_ok K (m * lambda) h.
Proof.
  intros HK (I & Ox & Oy & P). destruct beta_value as [Ob Vb].
  destruct (fev_mul _ _ _ _ (fev_ok _ _ Ox) (fev_ok _ _ Ob)) as (x & E & [Hx Vx]). unfold secp256k1_ge_mul_lambda.
  bind_step E. eexists. split; [reflexivity|]. split; [done|]. split; [exact (fe_ok_mono 1 8 _ Hx ltac:(lia))|]. split; [done|].
  rewrite <- gbeta_gmul, <- P. unfold ge_pt. cbn [ge_x ge_y ge_infinity]. rewrite I, gbeta_gjac by (exact fp_1_nz || done).
  by rewrite Vx, Vb.
Qed.

(** ** The context *)

Lemma gmul_small j : 0 < j < order -> gmul j <> Inf.
Proof. intros Hj E. apply gmul_inf in E. rewrite Z.mod_small in E; lia. Qed.

Lemma const_g_ok : ge_ok secp256k1_get_ge_const_g /\ ge_infinity secp256k1_get_ge_const_g = false /\
  ge_pt 1%fp secp256k1_get_ge_const_g = gmul 1.
Proof.
  split; [|split; [done|unfold ge_pt; cbn [ge_infinity secp256k1_get_ge_const_g]; apply gjac_1]].
  intros _. unfold secp256k1_get_ge_const_g. cbn [ge_x ge_y].
  split; (split; [reflexivity|]; split; [reflexivity|]; split; [|split; vm_compute; discriminate]);
    repeat constructor; vm_compute; discriminate.
Qed.

Lemma const_g_exact : exists gj, secp256k1_gej_set_ge secp256k1_get_ge_const_g = Some gj /\ jacobian_ok 1%fp 1 gj.
Proof.
  destruct const_g_ok as (O & I & P). destruct (gej_set_ge_exact 1%fp _ O) as (g & E & Og & Pg & Ig & _). exists g.
  split; [done|]. split; [by rewrite Ig|]. split; [done|]. by rewrite Pg.
Qed.

Lemma doublings_exact n g m :
  jacobian_ok 1%fp m g -> exists h, doublings n g = Some h /\ gej_ok h /\ gej_infinity h = false /\ gej_pt 1%fp h = gmul (2 ^ Z.of_nat n * m).
Proof.
  revert g m. induction n as [|n IH]; intros g m (I & O & P).
  - exists g. do 3 (split; [done|]). by rewrite P, Z.mul_1_l.
  - cbn [doublings]. destruct (double_exact 1%fp g g false fp_1_nz O) as (d & zr & E & Od & Pd & Id & _); [rewrite P; apply gmul_on_curve|].
    bind_step E. rewrite I in Id. destruct (IH d (2 * m)) as (h & Eh & Oh & Ih & Ph).
    { split; [done|]. split; [done|]. rewrite Pd, P, gmul_add. f_equal. ring. }
    exists h. do 3 (split; [done|]). rewrite Ph. f_equal. rewrite Nat2Z.inj_succ, Z.pow_succ_r by lia. ring.
Qed.

Lemma context_exact old :
  exists cx, secp256k1_context_build old = Some cx /\
    storage_table_ok 1 (ECMULT_TABLE_SIZE WINDOW_G) (pre_g_ cx) /\
    storage_table_ok (2 ^ 128) (ECMULT_TABLE_SIZE WINDOW_G) (pre_g_128_ cx).
Proof.
  pose proof order_val as O. assert (S : Z.of_nat (ECMULT_TABLE_SIZE WINDOW_G) = 2 ^ 14) by (vm_compute; reflexivity).
  set (n := ECMULT_TABLE_SIZE WINDOW_G) in *. unfold secp256k1_context_build. fold n. clearbody n.
  destruct const_g_exact as (gj & E & Hg). bind_step E.
  destruct (storage_table_exact n old gj 1) as (t & E & Ht); [lia|exact Hg| |].
  { intros j Hj. apply gmul_small. lia. }
  bind_step E. destruct (doublings_exact 128 gj 1 Hg) as (g128 & E & O128 & I128 & P128). bind_step E.
  change (Z.of_nat 128) with 128 in P128. rewrite Z.mul_1_r in P128.
  destruct (storage_table_exact n old g128 (2 ^ 128)) as (t' & E & Ht'); [lia|exact (conj I128 (conj O128 P128))| |].
  { intros j Hj. apply gmul_small. lia. }
  bind_step E. eexists. split; [reflexivity|]. split; [exact Ht|exact Ht'].
Qed.

(** ** Digit strings *)

Lemma num_drop l i : num 1 (drop i l) = l.[i] + 2 * num 1 (drop (S i) l).
Proof.
  revert i. induction l as [|x l IH]; intros [|i]; cbn [drop nth num]; [done|done|by rewrite drop_0|apply IH].
Qed.

Lemma num_drop_zero l n : (forall i, (n <= i)%nat -> l.[i] = 0) -> num 1 (drop n l) = 0.
Proof.
  revert n. induction l as [|x l IH]; intros n H; [by destruct n|]. destruct n as [|n].
  - cbn [drop num]. pose proof (H 0%nat ltac:(lia)) as H0. cbn [nth] in H0. rewrite H0.
    pose proof (IH 0%nat) as IH0. rewrite drop_0 in IH0. rewrite IH0; [done|]. intros i _. exact (H (S i) ltac:(lia)).
  - cbn [drop]. apply IH. intros i Hi. exact (H (S i) ltac:(lia)).
Qed.

Definition digits_ok (w : Z) (d : list Z * Z) : Prop :=
  (forall i, digit_ok w (fst d).[i]) /\ (forall i, snd d <= Z.of_nat i -> (fst d).[i] = 0).

(** ** The loop *)

(** The accumulator in the frame K. *)
Definition acc_ok (K : Fp) (e : Z) (r : secp256k1_gej) : Prop := gej_ok r /\ gej_pt K r = gmul e.

Lemma add_digit_exact K w c (Q : Z -> secp256k1_ge -> Prop) get add d i e r :
  (forall n, digit_ok w n -> n <> 0 -> exists g, get n = Some g /\ Q (n * c) g) ->
  (forall e x r g, acc_ok K e r -> Q x g -> exists r', add r g = Some r' /\ acc_ok K (e + x) r') ->
  digits_ok w d -> acc_ok K e r ->
  exists r', add_digit get add (fst d) (snd d) (Z.of_nat i) r = Some r' /\ acc_ok K (e + (fst d).[i] * c) r'.
Proof.
  intros Hget Hadd [Hd Hz] Hr. unfold add_digit. rewrite Nat2Z.id. destruct (Z.ltb_spec (Z.of_nat i) (snd d)) as [L|L].
  - specialize (Hd i). set (n := (fst d).[i]) in *. clearbody n. destruct (Z.eqb_spec n 0) as [->|Hn].
    + exists r. split; [done|]. by rewrite Z.add_0_r.
    + destruct (Hget n Hd Hn) as (g & E & Hg). bind_step E. by apply Hadd.
  - rewrite Hz by lia. exists r. split; [done|]. by rewrite Z.add_0_r.
Qed.

Lemma entry_ge_ok K m g : entry_ok K m g -> ge_ok g.
Proof. intros (_ & ? & ? & _). done. Qed.

Lemma add_affine_exact K e x r g :
  K <> 0%fp -> acc_ok K e r -> entry_ok K x g -> exists r', add_affine r g = Some r' /\ acc_ok K (e + x) r'.
Proof.
  intros HK [Or Pr] Hg. destruct (add_ge_exact K r g HK Or (entry_ge_ok _ _ _ Hg)) with (r := r) (w := false)
    as (h & zr & E & Oh & Ph & _); [rewrite Pr; apply gmul_on_curve|done|].
  unfold add_affine. bind_step E. exists h. split; [done|]. split; [done|].
  destruct Hg as (_ & _ & _ & Pg). by rewrite Ph, Pr, Pg, gmul_add.
Qed.

Lemma add_zinv_table_exact z e x r g :
  fe_ok 8 z -> val z <> 0%fp -> acc_ok (val z) e r -> entry_ok 1%fp x g ->
  exists r', secp256k1_gej_add_zinv_var r r g z = Some r' /\ acc_ok (val z) (e + x) r'.
Proof.
  intros Hz Nz [Or Pr] Hg. destruct (add_zinv_exact r r g z Or (entry_ge_ok _ _ _ Hg) Hz Nz) as (h & E & Oh & Ph);
    [rewrite Pr; apply gmul_on_curve|].
  exists h. split; [done|]. split; [done|]. destruct Hg as (_ & _ & _ & Pg). by rewrite Ph, Pr, Pg, gmul_add.
Qed.

Record input_ok (c : Z) (m : ecmult_input) : Prop := {
  in_Z : fe_ok 8 (Z_ m) /\ val (Z_ m) <> 0%fp;
  in_a : table_ok (val (Z_ m)) c (ECMULT_TABLE_SIZE WINDOW_A) (pre_a m);
  in_lam : table_ok (val (Z_ m)) (c * lambda) (ECMULT_TABLE_SIZE WINDOW_A) (pre_a_lam m);
  in_g : storage_table_ok 1 (ECMULT_TABLE_SIZE WINDOW_G) (pre_g_ (ctx m));
  in_g128 : storage_table_ok (2 ^ 128) (ECMULT_TABLE_SIZE WINDOW_G) (pre_g_128_ (ctx m));
  in_d1 : digits_ok WINDOW_A (na_1_ m); in_d2 : digits_ok WINDOW_A (na_lam_ m);
  in_d3 : digits_ok WINDOW_G (ng_1_ m); in_d4 : digits_ok WINDOW_G (ng_128_ m)
}.

(** What the digits from the i-th up spell. *)
Definition spelt (c : Z) (m : ecmult_input) (i : nat) : Z :=
  num 1 (drop i (fst (na_1_ m))) * c + num 1 (drop i (fst (na_lam_ m))) * (c * lambda) +
  num 1 (drop i (fst (ng_1_ m))) * 1 + num 1 (drop i (fst (ng_128_ m))) * 2 ^ 128.

Lemma ecmult_step_exact c m i r :
  input_ok c m -> acc_ok (val (Z_ m)) (spelt c m (S i)) r ->
  exists r', ecmult_step m (Z.of_nat i) r = Some r' /\ acc_ok (val (Z_ m)) (spelt c m i) r'.
Proof.
  intros [[Oz Nz] Ha Hl Hg Hg' D1 D2 D3 D4] [Or Pr]. unfold ecmult_step.
  assert (WA : 2 <= WINDOW_A) by discriminate. assert (WG : 2 <= WINDOW_G) by discriminate.
  destruct (double_exact (val (Z_ m)) r r false Nz Or) as (d & zr & E & Od & Pd & _); [rewrite Pr; apply gmul_on_curve|].
  bind_step E. rewrite Pr, gmul_add in Pd. assert (R0 : acc_ok (val (Z_ m)) (spelt c m (S i) + spelt c m (S i)) d) by done.
  destruct (add_digit_exact _ WINDOW_A c (entry_ok (val (Z_ m))) _ add_affine (na_1_ m) i _ _
    (fun n => get_ge_exact _ c _ n _ WA Ha) (fun e x r g => add_affine_exact _ e x r g Nz) D1 R0) as (r1 & E & R1). bind_step E.
  destruct (add_digit_exact _ WINDOW_A (c * lambda) (entry_ok (val (Z_ m))) _ add_affine (na_lam_ m) i _ _
    (fun n => get_ge_exact _ _ _ n _ WA Hl) (fun e x r g => add_affine_exact _ e x r g Nz) D2 R1) as (r2 & E & R2). bind_step E.
  destruct (add_digit_exact _ WINDOW_G 1 (entry_ok 1%fp) _ _ (ng_1_ m) i _ _
    (fun n => get_ge_storage_exact _ _ n _ WG Hg) (fun e x r g => add_zinv_table_exact _ e x r g Oz Nz) D3 R2) as (r3 & E & R3). bind_step E.
  destruct (add_digit_exact _ WINDOW_G (2 ^ 128) (entry_ok 1%fp) _ _ (ng_128_ m) i _ _
    (fun n => get_ge_storage_exact _ _ n _ WG Hg') (fun e x r g => add_zinv_table_exact _ e x r g Oz Nz) D4 R3) as (r4 & E & R4).
  exists r4. split; [exact E|]. replace (spelt c m i) with
    (spelt c m (S i) + spelt c m (S i) + (fst (na_1_ m)).[i] * c + (fst (na_lam_ m)).[i] * (c * lambda) +
     (fst (ng_1_ m)).[i] * 1 + (fst (ng_128_ m)).[i] * 2 ^ 128); [done|].
  unfold spelt. rewrite !(num_drop _ i). ring.
Qed.

Lemma ecmult_loop_exact c m n r :
  input_ok c m -> acc_ok (val (Z_ m)) (spelt c m n) r ->
  exists r', ecmult_loop m n r = Some r' /\ acc_ok (val (Z_ m)) (spelt c m 0) r'.
Proof.
  intros Hm. revert r. induction n as [|n IH]; intros r Hr; [by exists r|].
  cbn [ecmult_loop]. destruct (ecmult_step_exact c m n r Hm Hr) as (r' & E & Hr'). bind_step E. by apply IH.
Qed.

(** ** The whole function *)

Lemma gmul_multiple c j : gmul c <> Inf -> 0 < j < order -> gmul (j * c) <> Inf.
Proof.
  intros Hc Hj E. apply gmul_inf in E. apply Hc, gmul_inf. pose proof order_val as O.
  apply Z.mod_divide in E; [|lia]. apply Z.divide_prime_mul in E as [E|E]; [| |exact prime_order].
  - apply Z.divide_pos_le in E; lia.
  - by apply Z.mod_divide; [lia|].
Qed.

Lemma wnaf_digits len r w :
  scalar_ok r -> 1 <= len <= 256 -> 2 <= w <= 30 -> absolute r < 2 ^ (len - 1) ->
  exists d, secp256k1_ecmult_wnaf len r w = Some d /\ digits_ok w d /\ 0 <= snd d <= len /\
    num 1 (fst d) mod order = num 32 r.
Proof.
  intros Hr Hl Hw Ha. destruct (wnaf_signed r len w Hr Hl Hw Ha) as (l & bits & E & _ & Hb & V & Hd & Hz).
  by exists (l, bits).
Qed.

Lemma split_128_digits a :
  scalar_ok a -> exists r1 r2, secp256k1_scalar_split_128 a = (r1, r2) /\ num 32 a = num 32 r1 + 2 ^ 128 * num 32 r2 /\
    (scalar_ok r1 /\ absolute r1 < 2 ^ (129 - 1)) /\ (scalar_ok r2 /\ absolute r2 < 2 ^ (129 - 1)).
Proof.
  intros Ha. pose proof order_val as O. pose proof (scalar_split_128_spec a (proj1 Ha)) as H.
  destruct (secp256k1_scalar_split_128 a) as [r1 r2]. destruct H as (U1 & U2 & L1 & L2 & V). exists r1, r2. do 2 (split; [done|]).
  assert (T : forall r, unit_ok r -> num 32 r < 2 ^ 128 -> scalar_ok r /\ absolute r < 2 ^ (129 - 1)).
  { intros r Hr Hlt. split; [split; [done|lia]|]. unfold absolute. rewrite (proj2 (Z.ltb_lt _ _)) by lia. lia. }
  split; by apply T.
Qed.

Lemma spelt_past c m n :
  snd (na_1_ m) <= Z.of_nat n -> snd (na_lam_ m) <= Z.of_nat n -> snd (ng_1_ m) <= Z.of_nat n -> snd (ng_128_ m) <= Z.of_nat n ->
  input_ok c m -> spelt c m n = 0.
Proof.
  intros H1 H2 H3 H4 [_ _ _ _ _ [_ D1] [_ D2] [_ D3] [_ D4]]. unfold spelt.
  rewrite !num_drop_zero; [ring| | | |]; intros i Hi; [apply D4|apply D3|apply D2|apply D1]; lia.
Qed.

(** The digits' quotients by the order recombined. *)
Lemma recombine o lam h c d1 d2 d3 d4 q1 q2 q3 q4 q x1 x2 y1 y2 na :
  d1 = o * q1 + x1 -> d2 = o * q2 + x2 -> d3 = o * q3 + y1 -> d4 = o * q4 + y2 -> x1 + lam * x2 = o * q + na ->
  d1 * c + d2 * (c * lam) + d3 * 1 + d4 * h = na * c + (y1 + h * y2) + (q1 * c + q2 * c * lam + q3 + q4 * h + q * c) * o.
Proof. intros -> -> -> -> E. replace x1 with (o * q + na - lam * x2) by lia. ring. Qed.

Lemma spelt_0 c m x1 x2 y1 y2 na ng :
  num 1 (fst (na_1_ m)) mod order = x1 -> num 1 (fst (na_lam_ m)) mod order = x2 ->
  num 1 (fst (ng_1_ m)) mod order = y1 -> num 1 (fst (ng_128_ m)) mod order = y2 ->
  (x1 + lambda * x2) mod order = na -> ng = y1 + 2 ^ 128 * y2 ->
  gmul (spelt c m 0) = gmul (na * c + ng).
Proof.
  intros H1 H2 H3 H4 H5 ->. apply gmul_congr. unfold spelt. rewrite !drop_0.
  pose proof order_val as O. assert (N : order <> 0) by lia.
  assert (D : forall x r, x mod order = r -> x = order * (x / order) + r) by (intros x r <-; by apply Z.div_mod).
  eapply congr_mod, recombine; by apply D.
Qed.

Theorem ecmult_exact old a na ng c :
  jacobian_ok 1%fp c a -> scalar_ok na -> scalar_ok ng ->
  exists r, secp256k1_ecmult old a na ng = Some r /\ gej_ok r /\ gej_pt 1%fp r = gmul (num 32 na * c + num 32 ng).
Proof.
  intros Ha Hna Hng. pose proof order_val as O. unfold secp256k1_ecmult.
  destruct (context_exact old) as (cx & E & Tg & Tg'). bind_step E.
  destruct (split_lambda_halves na Hna) as (x1 & x2 & E & H1 & H2 & V & S1 & S2). bind_step E.
  destruct (wnaf_digits 130 x1 WINDOW_A H1 ltac:(lia) ltac:(unfold WINDOW_A; lia) (short_absolute x1 130 H1 S1 ltac:(lia))) as (d1 & E & D1 & B1 & V1). bind_step E.
  destruct (wnaf_digits 130 x2 WINDOW_A H2 ltac:(lia) ltac:(unfold WINDOW_A; lia) (short_absolute x2 130 H2 S2 ltac:(lia))) as (d2 & E & D2 & B2 & V2). bind_step E.
  rewrite !check_true by (apply Z.leb_le; lia).
  assert (Nc : gmul c <> Inf) by (destruct Ha as (I & _ & <-); unfold gej_pt; by rewrite I).
  assert (SA : Z.of_nat (ECMULT_TABLE_SIZE WINDOW_A) = 8) by reflexivity.
  destruct (globalz_table_exact (ECMULT_TABLE_SIZE WINDOW_A) old a c ltac:(lia) Ha) as (entries & pre & zz & E & E' & Oz & Nz & Tp).
  { intros j Hj. apply gmul_multiple; [done|lia]. }
  assert (Ew : secp256k1_ecmult_odd_multiples_table_globalz_windowa old a = Some (pre, zz)).
  { unfold secp256k1_ecmult_odd_multiples_table_globalz_windowa. by rewrite (bind_some _ _ _ E). }
  bind_step Ew. cbn beta iota.
  destruct (mapM_lookup secp256k1_ge_mul_lambda (fun i g => entry_ok (val zz) ((2 * Z.of_nat i + 1) * (c * lambda)) g) pre)
    as (pl & El & Ll & Hl).
  { intros i g Hi. rewrite Z.mul_assoc. apply mul_lambda_exact; [done|]. by apply Tp. }
  bind_step El. destruct (split_128_digits ng Hng) as (y1 & y2 & -> & Vg & [Y1 A1] & [Y2 A2]).
  destruct (wnaf_digits 129 y1 WINDOW_G Y1 ltac:(lia) ltac:(unfold WINDOW_G; lia) A1) as (d3 & E3 & D3 & B3 & V3). bind_step E3.
  destruct (wnaf_digits 129 y2 WINDOW_G Y2 ltac:(lia) ltac:(unfold WINDOW_G; lia) A2) as (d4 & E4 & D4 & B4 & V4). bind_step E4.
  set (m := EcmultInput pre pl zz cx d1 d2 d3 d4).
  assert (Hm : input_ok c m) by (split; [done|done|split; [cbn [pre_a_lam m]; rewrite Ll; apply Tp|exact Hl]|done..]).
  set (bits := Z.max (Z.max (snd d1) (snd d2)) (Z.max (snd d3) (snd d4))).
  destruct (ecmult_loop_exact c m (Z.to_nat bits) secp256k1_gej_set_infinity Hm) as (r & Er & Or & Pr).
  { split; [done|]. rewrite spelt_past; [done|cbn; lia..|done]. }
  bind_step Er. rewrite (spelt_0 c m _ _ _ _ _ _ V1 V2 V3 V4 V Vg) in Pr. cbn [Z_ m] in Pr.
  destruct (gej_infinity r) eqn:Ir.
  - exists r. split; [done|]. split; [done|]. rewrite <- Pr. unfold gej_pt. by rewrite Ir.
  - destruct (Or Ir) as (Rx & Ry & Rz & Nr).
    destruct (fev_mul _ _ _ _ (fev_ok _ _ Rz) (fev_ok _ _ Oz)) as (z & Ez & [Hz Vz]). bind_step Ez.
    eexists. split; [reflexivity|]. split.
    + intros _. cbn [gej_x gej_y gej_z]. split; [done|]. split; [done|]. split; [exact (fe_ok_mono 1 8 _ Hz ltac:(lia))|].
      rewrite Vz. by apply fp_mul_nz.
    + rewrite <- Pr. unfold gej_pt. cbn [gej_x gej_y gej_z gej_infinity]. rewrite Ir, Vz. symmetry. by apply gjac_frame_1.
Qed.
