(* ===== verification/Ecdsa.v ===== *)
(** ECDSA of key/pubkey.cpp on the points of Group.v and the multiplication of
    Ecmult.v: public keys to and from bytes, verification, recovery of a key
    from a signature, adding a tweak, and the methods of [CPubKey] on top.

    None is a failed assert; what the code answers is inside.  [old] and [old_fe]
    stand for what uninitialised locals hold. *)
From S2P Require Import Prelude Keys Limbs Scalar SigParse Field FieldOps Group Ecmult.
Import CPubKey.

Local Open Scope Z_scope.

Section Ecdsa.
Context (old : secp256k1_gej) (old_fe : secp256k1_fe).

(** ** Public keys *)

(** `data[64]`: the words of the storage form of x, then of y. *)
Definition secp256k1_pubkey : Type := bytes.

Definition zero_pubkey : secp256k1_pubkey := replicate 64 0.

Definition secp256k1_pubkey_save (ge : secp256k1_ge) : option secp256k1_pubkey :=
  s ← secp256k1_ge_to_storage ge;
  Some (unit_bytes (fst s) ++ unit_bytes (snd s)).

(** The point, and false when its x is zero. *)
Definition secp256k1_pubkey_load (pubkey : secp256k1_pubkey) : option (secp256k1_ge * bool) :=
  let ge := secp256k1_ge_from_storage (unit_at pubkey 0, unit_at pubkey 32) in
  z ← secp256k1_fe_is_zero (ge_x ge);
  Some (ge, negb z).

Definition SECP256K1_TAG_PUBKEY_EVEN : Z := 0x02.
Definition SECP256K1_TAG_PUBKEY_ODD : Z := 0x03.
Definition SECP256K1_TAG_PUBKEY_UNCOMPRESSED : Z := 0x04.
Definition SECP256K1_TAG_PUBKEY_HYBRID_EVEN : Z := 0x06.
Definition SECP256K1_TAG_PUBKEY_HYBRID_ODD : Z := 0x07.

(** The point of the bytes [pub], if they are accepted. *)
Definition secp256k1_eckey_pubkey_parse (pub : bytes) : option (option secp256k1_ge) :=
  if (zlen pub =? 33) && ((pub.[0] =? SECP256K1_TAG_PUBKEY_EVEN) || (pub.[0] =? SECP256K1_TAG_PUBKEY_ODD)) then
    '(x, ok) ← secp256k1_fe_set_be32 old_fe (take 32 (drop 1 pub));
    if negb ok then Some None
    else
      '(elem, ok) ← secp256k1_ge_set_xo_var x (pub.[0] =? SECP256K1_TAG_PUBKEY_ODD);
      Some (if ok : bool then Some elem else None)
  else if (zlen pub =? 65) && ((pub.[0] =? 0x04) || (pub.[0] =? 0x06) || (pub.[0] =? 0x07)) then
    '(x, ok) ← secp256k1_fe_set_be32 old_fe (take 32 (drop 1 pub));
    if negb ok then Some None
    else
      '(y, ok) ← secp256k1_fe_set_be32 old_fe (take 32 (drop 33 pub));
      if negb ok then Some None
      else
        let elem := secp256k1_ge_set_xy x y in
        bad ← (if (pub.[0] =? SECP256K1_TAG_PUBKEY_HYBRID_EVEN) || (pub.[0] =? SECP256K1_TAG_PUBKEY_HYBRID_ODD)
               then o ← secp256k1_fe_is_odd y; Some (negb (Bool.eqb o (pub.[0] =? SECP256K1_TAG_PUBKEY_HYBRID_ODD)))
               else Some false);
        if bad : bool then Some None
        else v ← secp256k1_ge_is_valid_var elem; Some (if v : bool then Some elem else None)
  else Some None.

Definition secp256k1_ec_pubkey_parse (input : bytes) : option (bool * secp256k1_pubkey) :=
  q ← secp256k1_eckey_pubkey_parse input;
  match q with
  | None => Some (false, zero_pubkey)
  | Some q => pubkey ← secp256k1_pubkey_save q; Some (true, pubkey)
  end.

(** The bytes of the point, or None for infinity. *)
Definition secp256k1_eckey_pubkey_serialize (elem : secp256k1_ge) (compressed : bool) : option (option bytes) :=
  if secp256k1_ge_is_infinity elem then Some None
  else
    x ← secp256k1_fe_normalize_var (ge_x elem);
    y ← secp256k1_fe_normalize_var (ge_y elem);
    bx ← secp256k1_fe_get_be32 x;
    if compressed then
      o ← secp256k1_fe_is_odd y;
      Some (Some ((if o : bool then SECP256K1_TAG_PUBKEY_ODD else SECP256K1_TAG_PUBKEY_EVEN) :: bx))
    else
      by_ ← secp256k1_fe_get_be32 y;
      Some (Some (SECP256K1_TAG_PUBKEY_UNCOMPRESSED :: bx ++ by_)).

Definition SECP256K1_FLAGS_TYPE_MASK : Z := Z.shiftl 1 8 - 1.
Definition SECP256K1_FLAGS_TYPE_COMPRESSION : Z := Z.shiftl 1 1.
Definition SECP256K1_FLAGS_BIT_COMPRESSION : Z := Z.shiftl 1 8.
Definition SECP256K1_EC_COMPRESSED : Z := Z.lor SECP256K1_FLAGS_TYPE_COMPRESSION SECP256K1_FLAGS_BIT_COMPRESSION.
Definition SECP256K1_EC_UNCOMPRESSED : Z := SECP256K1_FLAGS_TYPE_COMPRESSION.

(** The output written, if it is. *)
Definition secp256k1_ec_pubkey_serialize (pubkey : secp256k1_pubkey) (flags : Z) : option (option bytes) :=
  if negb (Z.land flags SECP256K1_FLAGS_TYPE_MASK =? SECP256K1_FLAGS_TYPE_COMPRESSION) then Some None
  else
    '(q, ok) ← secp256k1_pubkey_load pubkey;
    if negb ok then Some None
    else secp256k1_eckey_pubkey_serialize q (negb (Z.land flags SECP256K1_FLAGS_BIT_COMPRESSION =? 0)).

(** ** Verification *)

Definition secp256k1_ecdsa_const_p_minus_order : secp256k1_fe :=
  SECP256K1_FE_CONST 0 0 0 1 0x45512319 0x50B75FC4 0x402DA172 0x2FC9BAEE.

Definition secp256k1_ecdsa_const_order_as_fe : secp256k1_fe :=
  SECP256K1_FE_CONST 0xFFFFFFFF 0xFFFFFFFF 0xFFFFFFFF 0xFFFFFFFE 0xBAAEDCE6 0xAF48A03B 0xBFD25E8C 0xD0364141.

Definition secp256k1_ecdsa_sig_verify (sigr sigs : secp256k1_unit) (pubkey : secp256k1_ge) (message : secp256k1_unit) : option bool :=
  if secp256k1_scalar_is_zero sigr || secp256k1_scalar_is_zero sigs then Some false
  else
    sn ← secp256k1_scalar_inverse_var sigs;
    u1 ← secp256k1_scalar_mul sn message;
    u2 ← secp256k1_scalar_mul sn sigr;
    pubkeyj ← secp256k1_gej_set_ge pubkey;
    pr ← secp256k1_ecmult old pubkeyj u2 u1;
    if secp256k1_gej_is_infinity pr then Some false
    else
      '(xr, _) ← secp256k1_fe_set_be32 old_fe (secp256k1_scalar_get_be32 sigr);
      (* xr * pr.z^2 mod p == pr.x, so the signature is valid. *)
      e ← secp256k1_gej_eq_x_var xr pr;
      if e : bool then Some true
      else
        (* xr + n >= p, so we can skip testing the second case. *)
        c ← secp256k1_fe_cmp_var xr secp256k1_ecdsa_const_p_minus_order;
        if 0 <=? c then Some false
        else
          xr ← secp256k1_fe_add xr secp256k1_ecdsa_const_order_as_fe;
          (* (xr + n) * pr.z^2 mod p == pr.x, so the signature is valid. *)
          secp256k1_gej_eq_x_var xr pr.

Definition secp256k1_ecdsa_verify (sig : secp256k1_signature) (msg32 : bytes) (pubkey : secp256k1_pubkey) : option bool :=
  let '(m, _) := secp256k1_scalar_set_be32 msg32 in
  let '(r, s) := secp256k1_ecdsa_signature_load sig in
  if secp256k1_scalar_is_high s then Some false
  else
    '(q, ok) ← secp256k1_pubkey_load pubkey;
    if negb ok then Some false else secp256k1_ecdsa_sig_verify r s q m.

Definition IsFullyValid_BIP66 (key : bytes) : option bool :=
  if negb (IsValid key) then Some false
  else '(ok, _) ← secp256k1_ec_pubkey_parse (data key); Some ok.

Definition Verify_BIP66 (key hash vchSig : bytes) : option bool :=
  if negb (IsValid key) then Some false
  else
    '(ok, pubkey) ← secp256k1_ec_pubkey_parse (data key);
    if negb ok then Some false
    else
      '(ok, sig) ← ecdsa_signature_parse_der_lax vchSig;
      if negb ok then Some false
      else
        let '(_, sig) := secp256k1_ecdsa_signature_normalize sig in
        secp256k1_ecdsa_verify sig hash pubkey.

(** [CPubKey::Verify]: which of the two libraries decides; [openssl] is the
    answer of the other one. *)
Inductive bip66_mode := Bip66_STRICT | Bip66_ADVISORY | Bip66_PERMISSIVE | Bip66_other.

Definition Verify (b66mode : bip66_mode) (openssl : bytes -> bytes -> bytes -> bool) (key hash vchSig : bytes) : option bool :=
  match b66mode with
  | Bip66_STRICT => b ← Verify_BIP66 key hash vchSig; Some (b && openssl key hash vchSig)
  | Bip66_ADVISORY => Verify_BIP66 key hash vchSig
  | Bip66_PERMISSIVE => Some (openssl key hash vchSig)
  | Bip66_other => Some false
  end.

(** ** Recovery *)

(** The key, if there is one. *)
Definition secp256k1_ecdsa_sig_recover (sigr sigs message : secp256k1_unit) (recid : Z) : option (option secp256k1_ge) :=
  if secp256k1_scalar_is_zero sigr || secp256k1_scalar_is_zero sigs then Some None
  else
    '(fx, r) ← secp256k1_fe_set_be32 old_fe (secp256k1_scalar_get_be32 sigr);
    check r (
    fx ← (if negb (Z.land recid 2 =? 0) then
            c ← secp256k1_fe_cmp_var fx secp256k1_ecdsa_const_p_minus_order;
            if 0 <=? c then Some None
            else fx ← secp256k1_fe_add fx secp256k1_ecdsa_const_order_as_fe; Some (Some fx)
          else Some (Some fx));
    match fx with
    | None => Some None
    | Some fx =>
      '(x, ok) ← secp256k1_ge_set_xo_var fx (negb (Z.land recid 1 =? 0));
      if negb ok then Some None
      else
        xj ← secp256k1_gej_set_ge x;
        rn ← secp256k1_scalar_inverse_var sigr;
        u1 ← secp256k1_scalar_mul rn message;
        let u1 := secp256k1_scalar_negate u1 in
        u2 ← secp256k1_scalar_mul rn sigs;
        qj ← secp256k1_ecmult old xj u2 u1;
        '(pubkey, qj) ← secp256k1_ge_set_gej_var (Ge old_fe old_fe false) qj;
        Some (if secp256k1_gej_is_infinity qj then None else Some pubkey)
    end).

Definition secp256k1_ecdsa_recover (signature msg32 : bytes) : option (bool * secp256k1_pubkey) :=
  let '(r, s, recid) := secp256k1_ecdsa_recoverable_signature_load signature in
  check ((0 <=? recid) && (recid <? 4)) (
  let '(m, _) := secp256k1_scalar_set_be32 msg32 in
  q ← secp256k1_ecdsa_sig_recover r s m recid;
  match q with
  | Some q => pubkey ← secp256k1_pubkey_save q; Some (true, pubkey)
  | None => Some (false, zero_pubkey)
  end).

(** The result, and the key after the call. *)
Definition RecoverCompact (key hash vchSig : bytes) : option (bool * bytes) :=
  if negb (zlen vchSig =? 65) then Some (false, key)
  else
    let recid := Z.land (vchSig.[0] - 27) 3 in
    let fComp := negb (Z.land (vchSig.[0] - 27) 4 =? 0) in
    let '(ok, sig) := secp256k1_ecdsa_recoverable_signature_parse_compact (replicate 65 0) (drop 1 vchSig) recid in
    if negb ok then Some (false, key)
    else
      '(ok, pubkey) ← secp256k1_ecdsa_recover sig hash;
      if negb ok then Some (false, key)
      else
        pub ← secp256k1_ec_pubkey_serialize pubkey (if fComp then SECP256K1_EC_COMPRESSED else SECP256K1_EC_UNCOMPRESSED);
        Some (match pub with None => (false, Invalidate) | Some pub => (true, Set_ pub) end).

(** ** Tweaks *)

Definition secp256k1_eckey_pubkey_tweak_add (key : secp256k1_ge) (tweak : secp256k1_unit) : option (option secp256k1_ge) :=
  pt ← secp256k1_gej_set_ge key;
  let one := secp256k1_scalar_set_int 1 in
  pt ← secp256k1_ecmult old pt one tweak;
  if secp256k1_gej_is_infinity pt then Some None
  else '(key, _) ← secp256k1_ge_set_gej pt; Some (Some key).

Definition secp256k1_ec_pubkey_tweak_add (pubkey : secp256k1_pubkey) (tweak : bytes) : option (bool * secp256k1_pubkey) :=
  let '(term, overflow) := secp256k1_scalar_set_be32 tweak in
  if overflow then Some (false, zero_pubkey)
  else
    '(p, ok) ← secp256k1_pubkey_load pubkey;
    if negb ok then Some (false, zero_pubkey)
    else
      q ← secp256k1_eckey_pubkey_tweak_add p term;
      match q with
      | Some q => pubkey ← secp256k1_pubkey_save q; Some (true, pubkey)
      | None => Some (false, zero_pubkey)
      end.

(** The key becomes its 65-byte form. *)
Definition Decompress (key : bytes) : option (bool * bytes) :=
  if negb (IsValid key) then Some (false, key)
  else
    '(ok, pubkey) ← secp256k1_ec_pubkey_parse (data key);
    if negb ok then Some (false, key)
    else
      pub ← secp256k1_ec_pubkey_serialize pubkey SECP256K1_EC_UNCOMPRESSED;
      Some (match pub with None => (false, Invalidate) | Some pub => (true, Set_ pub) end).

End Ecdsa.
