(* ===== verification/EcdsaProps.v ===== *)
(** What the operations of Ecdsa.v compute: verification decides the ECDSA
    equation for every public key that is a multiple of the generator. *)
From Stdlib Require Import Zpow_facts Zmod Field.
From S2P Require Import Prelude Keys Limbs Scalar ScalarProps ScalarMul ScalarBits Wnaf ScalarSpec SigParse.
From S2P Require Import Field FieldMul FieldOps FieldProps FieldNorm FieldInv FieldBytes Curve Secp Generator Group GroupProps.
From S2P Require Import Ecmult EcmultTables EcmultProps Ecdsa.

Local Open Scope Z_scope.

(** ** ECDSA *)

(** (r, s) is a signature of z under the key Q: the first coordinate of
    w z G + w r Q, where w inverts s, is r modulo n. *)
Definition ecdsa_valid (Q : spoint) (z r s : Z) : Prop :=
  0 < r < order /\ 0 < s < order /\
  exists w x y, (s * w) mod order = 1 /\ gadd (gmul (w * z)) (gscale (w * r) Q) = Aff x y /\ Zmod.to_Z x mod order = r.

(** The constants. *)
Lemma const_elements :
  (fe_normal secp256k1_ecdsa_const_p_minus_order /\ fe_num secp256k1_ecdsa_const_p_minus_order = field_p - order) /\
  (fe_ok 1 secp256k1_ecdsa_const_order_as_fe /\ fe_num secp256k1_ecdsa_const_order_as_fe = order).
Proof.
  assert (K : forall l, length l = 10%nat -> forallb (Z.leb 0) l = true -> secp256k1_fe_verify (Fe l 1 true) = true ->
    fe_ok 1 (Fe l 1 true)).
  { intros l Hl Hp Hv. split; [done|]. split; [done|]. split; [|done]. cbn [fe_n]. apply Forall_forall. intros x Hx.
    apply Z.leb_le. rewrite forallb_forall in Hp. by apply Hp, list_elem_of_In. }
  split; (split; [|vm_compute; reflexivity]).
  - split; [|reflexivity]. by apply K.
  - by apply K.
Qed.

(** ** The comparison of first coordinates *)

Lemma x_mod_order (x : Fp) r :
  0 < r < order ->
  (Zmod.to_Z x mod order = r <-> x = F r \/ (r < field_p - order /\ x = F (r + order))).
Proof.
  intros Hr. pose proof order_val as O. pose proof field_p_val as V. pose proof (Zmod.unsigned_pos_bound x ltac:(lia)) as B.
  assert (T : forall m, 0 <= m < field_p -> (x = F m <-> Zmod.to_Z x = m)).
  { intros m Hm. split; [intros ->; unfold F; rewrite Zmod.to_Z_of_Z; by apply Z.mod_small|].
    intros E. apply Zmod.to_Z_inj. unfold F. rewrite Zmod.to_Z_of_Z, E. symmetry. by apply Z.mod_small. }
  rewrite (T r) by lia. split.
  - intros <-. destruct (Z.lt_ge_cases (Zmod.to_Z x) order) as [L|L].
    + left. symmetry. apply Z.mod_small. lia.
    + right. assert (E : Zmod.to_Z x mod order = Zmod.to_Z x - order) by (symmetry; apply Z.mod_unique_pos with 1; lia).
      rewrite E. split; [lia|]. apply T; lia.
  - intros [E|[L E]]; [rewrite E; apply Z.mod_small; lia|]. apply (T (r + order) ltac:(lia)) in E. rewrite E.
    symmetry. apply Z.mod_unique_pos with 1; lia.
Qed.

Lemma inverse_unique s v w : (s * v) mod order = 1 -> (s * w) mod order = 1 -> v mod order = w mod order.
Proof.
  intros Hv Hw. pose proof order_val as O.
  rewrite <- (Z.mul_1_r v), <- Hw, Z.mul_mod_idemp_r by lia. replace (v * (s * w)) with ((s * v) * w) by ring.
  rewrite <- Z.mul_mod_idemp_l, Hv, Z.mul_1_l by lia. done.
Qed.

(** The two products of the verification, with one inverse for another. *)
Lemma u_congr v w z r d :
  v mod order = w mod order ->
  (w * z + w * r * d) mod order = (((v * r) mod order) * d + (v * z) mod order) mod order.
Proof.
  intros E. pose proof order_val as O. rewrite Z.add_mod_idemp_r, mul_add_mod by lia.
  replace (w * z + w * r * d) with (w * (z + r * d)) by ring. replace (v * r * d + v * z) with (v * (z + r * d)) by ring.
  by rewrite <- Z.mul_mod_idemp_l, <- E, Z.mul_mod_idemp_l by lia.
Qed.

Section Verify.
Context (old : secp256k1_gej) (old_fe : secp256k1_fe).

(** The test at the end of the verification. *)
Lemma x_test_exact sigr pr :
  scalar_ok sigr -> 0 < num 32 sigr -> gej_ok pr -> gej_infinity pr = false ->
  exists xr, secp256k1_fe_set_be32 old_fe (secp256k1_scalar_get_be32 sigr) = Some (xr, true) /\
  exists b, (e ← secp256k1_gej_eq_x_var xr pr;
      if e : bool then Some true
      else c ← secp256k1_fe_cmp_var xr secp256k1_ecdsa_const_p_minus_order;
        if 0 <=? c then Some false
        else xr ← secp256k1_fe_add xr secp256k1_ecdsa_const_order_as_fe; secp256k1_gej_eq_x_var xr pr) = Some b /\
    (b = true <-> exists x y, gej_pt 1%fp pr = Aff x y /\ Zmod.to_Z x mod order = num 32 sigr).
Proof.
  intros [Hu Hlt] Hpos Hpr Hinf. pose proof order_val as O. pose proof field_p_val as V.
  destruct (scalar_get_be32_spec sigr Hu) as (Bb & Lb & Vb).
  destruct (fe_set_be32_exact old_fe _ Bb Lb) as (xr & E & Vx & Nx). rewrite Vb in *.
  rewrite (proj2 (Z.ltb_lt _ _)) in E by lia. specialize (Nx ltac:(lia)). exists xr. split; [done|].
  destruct const_elements as [[Np Vp] [Oo Vo]]. pose proof Nx as [Ox _].
  rewrite (bind_some _ _ _ (eq_x_exact xr pr (fe_ok_mono 1 8 _ Ox ltac:(lia)) Hpr Hinf)). cbn beta.
  assert (Fx : val xr = F (num 32 sigr)) by (unfold val; by rewrite Vx). rewrite Fx.
  assert (Px : (exists x y, gej_pt 1%fp pr = Aff x y /\ Zmod.to_Z x mod order = num 32 sigr) <->
    px (gej_pt 1%fp pr) = Some (F (num 32 sigr)) \/
    (num 32 sigr < field_p - order /\ px (gej_pt 1%fp pr) = Some (F (num 32 sigr + order)))).
  { unfold gej_pt. rewrite Hinf. unfold gjac, jac. cbn [px]. set (x := (_ / _)%fp). split.
    - intros (x' & y & [= <- _] & H). apply x_mod_order in H; [|lia]. destruct H as [H|[H1 H2]]; [left|right]; by rewrite ?H, ?H2.
    - intros H. exists x. eexists. split; [done|]. apply x_mod_order; [lia|].
      destruct H as [H|[H1 H2]]; [left; by apply (inj Some)|right; split; [done|by apply (inj Some)]]. }
  case_bool_decide as D1; cbn iota.
  { exists true. split; [done|]. rewrite Px. split; [by left|done]. }
  rewrite (bind_some _ _ _ (fe_cmp_var_exact xr _ Nx Np)), Vx, Vp. cbn beta.
  destruct (Z.compare_spec (num 32 sigr) (field_p - order)) as [C|C|C]; cbn [Z.leb Z.compare].
  1, 3: exists false; (split; [done|]); rewrite Px; split; [done|intros [H|[H _]]; [done|lia]].
  destruct (fe_add_exact 1 1 xr _ ltac:(lia) Ox Oo) as (xn & En & Oxn & Vxn & _). bind_step En.
  rewrite (eq_x_exact xn pr (fe_ok_mono 2 8 _ Oxn ltac:(lia)) Hpr Hinf).
  assert (Fn : val xn = F (num 32 sigr + order)) by (unfold val; by rewrite Vxn, Vx, Vo). rewrite Fn.
  eexists. split; [reflexivity|]. rewrite bool_decide_eq_true, Px. split; [by right|]. by intros [H|[_ H]].
Qed.

(** ** Verification *)

(** A public key: a multiple d of the generator, as an affine element. *)
Definition key_ok (d : Z) (g : secp256k1_ge) : Prop :=
  ge_infinity g = false /\ fe_ok 8 (ge_x g) /\ fe_ok 8 (ge_y g) /\ ge_pt 1%fp g = gmul d.

Lemma set_ge_key d g :
  key_ok d g -> exists a, secp256k1_gej_set_ge g = Some a /\ jacobian_ok 1%fp d a.
Proof.
  intros (I & Ox & Oy & P). destruct (gej_set_ge_exact 1%fp g (fun _ => conj Ox Oy)) as (a & E & Oa & Pa & Ia & _).
  exists a. split; [done|]. split; [by rewrite Ia|]. split; [done|]. by rewrite Pa.
Qed.

Lemma sig_verify_exact sigr sigs g d message :
  scalar_ok sigr -> scalar_ok sigs -> scalar_ok message -> key_ok d g ->
  exists b, secp256k1_ecdsa_sig_verify old old_fe sigr sigs g message = Some b /\
    (b = true <-> ecdsa_valid (gmul d) (num 32 message) (num 32 sigr) (num 32 sigs)).
Proof.
  intros Hr Hs Hm Hg. pose proof order_val as O. unfold secp256k1_ecdsa_sig_verify.
  rewrite !scalar_is_zero_spec by (apply Hr || apply Hs).
  pose proof (unit_bound sigr (proj1 Hr)) as Br. pose proof (unit_bound sigs (proj1 Hs)) as Bs.
  pose proof (proj2 Hr) as Lr. pose proof (proj2 Hs) as Ls. unfold ecdsa_valid.
  destruct (Z.eqb_spec (num 32 sigr) 0) as [Zr|Zr]; [exists false; cbn [orb]; split; [done|]; split; [done|lia]|].
  destruct (Z.eqb_spec (num 32 sigs) 0) as [Zs|Zs]; [exists false; cbn [orb]; split; [done|]; split; [done|lia]|].
  cbn [orb]. unfold secp256k1_scalar_inverse_var.
  destruct (scalar_inverse_exact sigs Hs Zs) as (sn & E & Hsn & Vsn). bind_step E.
  destruct (scalar_mul_spec sn message (proj1 Hsn) (proj1 Hm)) as (u1 & E & Hu1 & V1). bind_step E.
  destruct (scalar_mul_spec sn sigr (proj1 Hsn) (proj1 Hr)) as (u2 & E & Hu2 & V2). bind_step E.
  destruct (set_ge_key d g Hg) as (a & E & Ha). bind_step E.
  destruct (ecmult_exact old a u2 u1 d Ha Hu2 Hu1) as (pr & E & Opr & Ppr). bind_step E.
  unfold secp256k1_gej_is_infinity.
  (* the point of the equation, for any inverse *)
  assert (Pw : forall w, (num 32 sigs * w) mod order = 1 ->
    gadd (gmul (w * num 32 message)) (gscale (w * num 32 sigr) (gmul d)) = gej_pt 1%fp pr).
  { intros w Hw. rewrite Ppr, gmul_mul, gmul_add. apply gmul_congr. rewrite V1, V2.
    apply u_congr. by apply (inverse_unique (num 32 sigs)). }
  destruct (gej_infinity pr) eqn:Ip.
  { exists false. split; [done|]. split; [done|]. intros (_ & _ & w & x & y & Hw & H & _).
    rewrite (Pw w Hw) in H. unfold gej_pt in H. by rewrite Ip in H. }
  destruct (x_test_exact sigr pr Hr ltac:(lia) Opr Ip) as (xr & E & b & Eb & Hb). bind_step E. cbn beta iota.
  exists b. split; [exact Eb|]. rewrite Hb. split.
  - intros (x & y & H & Hx). split; [lia|]. split; [lia|]. exists (num 32 sn), x, y. split; [done|]. by rewrite Pw.
  - intros (_ & _ & w & x & y & Hw & H & Hx). exists x, y. by rewrite <- (Pw w Hw).
Qed.
End Verify.
