(* ===== verification/PubkeyProps.v ===== *)
(** Public keys as bytes (Ecdsa.v): reading never trips an assert and accepts
    only points of the curve; what is written is read back as the same point;
    the 64-byte internal form keeps it. *)
From Stdlib Require Import Zpow_facts Zmod Field.
From S2P Require Import Prelude Keys Limbs Scalar ScalarProps SigParse.
From S2P Require Import Field FieldMul FieldOps FieldProps FieldNorm FieldInv FieldBytes Curve Secp Group GroupProps Points Ecmult Ecdsa.
Import CPubKey.

Local Open Scope Z_scope.

(** ** No point with x = 0: 7 is not a square *)

Lemma not_a_square : (pow_redp 7 (Z.to_pos ((field_p - 1) / 2)) mod field_p =? 1) = false.
Proof. vm_compute. reflexivity. Qed.

Lemma square_7 y : (y * y) mod field_p <> 7.
Proof.
  intros H. pose proof field_p_val as V. pose proof not_a_square as N. apply Z.eqb_neq in N. apply N.
  assert (E2 : (field_p - 1) / 2 * 2 = field_p - 1) by (rewrite V; reflexivity).
  set (e := (field_p - 1) / 2) in *. assert (He : 0 < e) by (vm_compute; reflexivity). clearbody e.
  rewrite pow_redp_spec, Z2Pos.id by done.
  rewrite <- H, <- Zpower_mod, <- Z.pow_2_r, <- Z.pow_mul_r by lia.
  rewrite Z.mul_comm, E2. apply Z.fermat_nz; [exact prime_field_p|].
  intros X. apply Z.mod_divide in X; [|lia]. destruct X as [q ->].
  replace (q * field_p * (q * field_p)) with (0 + (q * q * field_p) * field_p) in H by ring.
  rewrite Z_mod_plus_full, Z.mod_small in H by lia. lia.
Qed.

Lemma no_zero_x x y : secp_curve (Aff x y) -> x <> 0%fp.
Proof.
  intros E ->. rewrite secp_affine in E. apply (square_7 (Zmod.to_Z y)).
  assert (H : F (Zmod.to_Z y * Zmod.to_Z y) = F 7).
  { rewrite F_mul. unfold F at 1 2. rewrite Zmod.of_Z_to_Z, E. ring. }
  apply F_eq in H. rewrite H. rewrite field_p_val. reflexivity.
Qed.

(** ** Elements that denote a point *)

Definition point_ok (P : spoint) (g : secp256k1_ge) : Prop :=
  ge_infinity g = false /\ fe_ok 8 (ge_x g) /\ fe_ok 8 (ge_y g) /\ ge_pt 1%fp g = P.

Lemma point_coordinates P g : point_ok P g -> P = Aff (val (ge_x g)) (val (ge_y g)).
Proof. intros (I & _ & _ & <-). unfold ge_pt. rewrite I. apply gjac_1. Qed.

Lemma point_ok_intro x y a b :
  fev 8 x a -> fev 8 y b -> point_ok (Aff x y) (Ge a b false).
Proof. intros [Ha <-] [Hb <-]. do 3 (split; [done|]). apply gjac_1. Qed.

(** ** The internal form *)

Lemma unit_at_first a b : unit_ok a -> unit_at (unit_bytes a ++ b) 0 = a.
Proof. exact (unit_at_bytes [] a b). Qed.

Lemma unit_at_second a b : unit_ok a -> unit_ok b -> unit_at (unit_bytes a ++ unit_bytes b) 32 = b.
Proof.
  intros Ha Hb. pose proof (unit_at_bytes (unit_bytes a) b [] Hb) as E. by rewrite unit_bytes_length, app_nil_r in E.
Qed.

Lemma pubkey_save_exact P g :
  point_ok P g -> secp_curve P ->
  exists data h, secp256k1_pubkey_save g = Some data /\ length data = 64%nat /\
    secp256k1_pubkey_load data = Some (h, true) /\ point_ok P h.
Proof.
  intros Hg HP. pose proof (point_coordinates P g Hg) as EP. destruct Hg as (I & Ox & Oy & Pg).
  destruct (storage_exact g (fun _ => conj Ox Oy) I) as (s & E & U1 & U2 & Nx & Ny & Ih & Vx & Vy).
  unfold secp256k1_pubkey_save. bind_step E. eexists _, _. split; [reflexivity|].
  split; [by rewrite length_app, !unit_bytes_length|].
  unfold secp256k1_pubkey_load. rewrite unit_at_first, unit_at_second by done. destruct s as [sx sy]. cbn [fst snd] in *.
  rewrite (bind_some _ _ _ (fe_is_zero_exact _ Nx)). cbn beta. split.
  - f_equal. f_equal. apply negb_true_iff, Z.eqb_neq. intros Z. rewrite EP in HP. apply no_zero_x in HP. apply HP.
    rewrite <- Vx. unfold val. by rewrite Z.
  - split; [done|]. split; [exact (fe_ok_mono 1 8 _ (proj1 Nx) ltac:(lia))|].
    split; [exact (fe_ok_mono 1 8 _ (proj1 Ny) ltac:(lia))|]. rewrite <- Pg. unfold ge_pt. by rewrite Ih, I, Vx, Vy.
Qed.

(** ** Writing a key *)

Definition be_bytes (n : nat) (x : Z) : bytes := reverse (le_bytes n x).

Lemma be_bytes_ok n x : bytes_ok (be_bytes n x) /\ length (be_bytes n x) = n.
Proof. split; [apply Forall_reverse, le_bytes_ok|by unfold be_bytes; rewrite length_reverse, length_le_bytes]. Qed.

Lemma be_value_be_bytes n x : 0 <= x < 256 ^ Z.of_nat n -> be_value (be_bytes n x) = x.
Proof. intros H. unfold be_value, be_bytes. rewrite reverse_involutive. by apply le_value_le_bytes. Qed.

Lemma cons_inj {A} (a b : A) l m : a :: l = b :: m -> a = b /\ l = m.
Proof. by injection 1. Qed.

(** The encoding of a point. *)
Definition key_bytes (compressed : bool) (P : spoint) : bytes :=
  match P with
  | Inf => []
  | Aff x y =>
      if compressed then (if Z.odd (Zmod.to_Z y) then 3 else 2) :: be_bytes 32 (Zmod.to_Z x)
      else 4 :: be_bytes 32 (Zmod.to_Z x) ++ be_bytes 32 (Zmod.to_Z y)
  end.

Lemma get_be32_val a : fe_normal a -> secp256k1_fe_get_be32 a = Some (be_bytes 32 (Zmod.to_Z (val a))).
Proof.
  intros Na. destruct (fe_get_be32_exact a Na) as (b & -> & Hb & Lb & Vb). f_equal.
  destruct (be_bytes_ok 32 (Zmod.to_Z (val a))) as [Hb' Lb'].
  apply be_value_inj; [done|done|by rewrite Lb'|]. rewrite Vb, be_value_be_bytes; [by apply fe_normal_val|apply Fp_bound].
Qed.

Lemma serialize_exact P g compressed :
  point_ok P g -> secp256k1_eckey_pubkey_serialize g compressed = Some (Some (key_bytes compressed P)).
Proof.
  intros Hg. rewrite (point_coordinates P g Hg). destruct Hg as (I & Ox & Oy & _).
  unfold secp256k1_eckey_pubkey_serialize, secp256k1_ge_is_infinity. rewrite I.
  destruct (fe_normalize_var_val 8 _ ltac:(lia) Ox) as (x & E & Nx & Vx). bind_step E.
  destruct (fe_normalize_var_val 8 _ ltac:(lia) Oy) as (y & E & Ny & Vy). bind_step E.
  rewrite (bind_some _ _ _ (get_be32_val x Nx)). cbn beta. rewrite <- Vx, <- Vy. destruct compressed.
  - rewrite (bind_some _ _ _ (fe_is_odd_exact y Ny)), (fe_normal_val y Ny). reflexivity.
  - by rewrite (bind_some _ _ _ (get_be32_val y Ny)).
Qed.

(** ** Reading a key *)

(** 32 bytes as a field element. *)
Lemma set_be32_val old t :
  bytes_ok t -> length t = 32%nat ->
  exists x, secp256k1_fe_set_be32 old t = Some (x, be_value t <? field_p) /\
    (be_value t < field_p -> fe_normal x /\ fev 8 (F (be_value t)) x /\ t = be_bytes 32 (Zmod.to_Z (F (be_value t)))).
Proof.
  intros Ht Lt. destruct (fe_set_be32_exact old t Ht Lt) as (x & E & Vx & Nx). exists x. split; [done|]. intros B. specialize (Nx B).
  split; [done|]. split; [split; [exact (fe_ok_mono 1 8 _ (proj1 Nx) ltac:(lia))|unfold val; by rewrite Vx]|].
  pose proof (be_value_bound t Ht) as Bt. unfold F. rewrite Zmod.to_Z_of_Z, Z.mod_small by lia.
  destruct (be_bytes_ok 32 (be_value t)) as [Hb Lb]. apply be_value_inj; [done|done|by rewrite Lb|].
  symmetry. apply be_value_be_bytes. unfold zlen in Bt. by rewrite Lt in Bt.
Qed.

Lemma be_bytes_value (x : Fp) t : t = be_bytes 32 (Zmod.to_Z x) -> be_value t = Zmod.to_Z x /\ be_value t < field_p.
Proof. intros ->. destruct (Fp_bound x). rewrite be_value_be_bytes by done. lia. Qed.

Definition hybrid_bytes (P : spoint) : bytes :=
  match P with
  | Inf => []
  | Aff x y => (if Z.odd (Zmod.to_Z y) then 7 else 6) :: be_bytes 32 (Zmod.to_Z x) ++ be_bytes 32 (Zmod.to_Z y)
  end.

(** The three encodings that are accepted. *)
Definition key_encodes (pub : bytes) (P : spoint) : Prop :=
  pub = key_bytes true P \/ pub = key_bytes false P \/ pub = hybrid_bytes P.

(** What reading [pub] amounts to. *)
Definition reads (pub : bytes) (r : option secp256k1_ge) : Prop :=
  (forall g, r = Some g -> exists P, secp_curve P /\ P <> Inf /\ point_ok P g /\ key_encodes pub P) /\
  (forall P, secp_curve P -> P <> Inf -> key_encodes pub P -> exists g, r = Some g /\ point_ok P g).

Section Parse.
Context (old_fe : secp256k1_fe).

Definition even_odd (odd : bool) : Z := if odd then 3 else 2.

Lemma encodes_compressed odd t P :
  length t = 32%nat -> key_encodes (even_odd odd :: t) P -> exists x y, P = Aff x y /\ t = be_bytes 32 (Zmod.to_Z x) /\ Z.odd (Zmod.to_Z y) = odd.
Proof.
  intros Lt H. destruct P as [|x y]; [by destruct H as [H|[H|H]]|]. exists x, y. split; [done|]. unfold even_odd in H.
  destruct H as [H|[H|H]]; cbn [key_bytes hybrid_bytes] in H; apply cons_inj in H as [H1 H2].
  - split; [done|]. by destruct odd, (Z.odd _).
  - by destruct odd.
  - by destruct odd, (Z.odd _).
Qed.

Lemma parse_compressed odd t :
  bytes_ok t -> length t = 32%nat ->
  exists r, secp256k1_eckey_pubkey_parse old_fe (even_odd odd :: t) = Some r /\ reads (even_odd odd :: t) r.
Proof.
  intros Ht Lt. unfold secp256k1_eckey_pubkey_parse. rewrite zlen_cons. unfold zlen. rewrite Lt.
  replace (Z.of_nat 32 + 1 =? 33) with true by done. cbn [nth drop]. rewrite drop_0, (take_ge t 32) by lia.
  replace ((even_odd odd =? SECP256K1_TAG_PUBKEY_EVEN) || (even_odd odd =? SECP256K1_TAG_PUBKEY_ODD)) with true by (by destruct odd).
  replace (even_odd odd =? SECP256K1_TAG_PUBKEY_ODD) with odd by (by destruct odd). cbn [andb].
  destruct (set_be32_val old_fe t Ht Lt) as (x & E & Hx). bind_step E. cbn beta iota.
  destruct (Z.ltb_spec (be_value t) field_p) as [B|B]; cbn [negb].
  - destruct (Hx B) as (Nx & Fx & Et). destruct (set_xo_exact x odd (proj1 Fx)) as (g & ok & E & Ex & Ok). bind_step E. cbn beta iota.
    rewrite (fev_val _ _ _ Fx) in Ex, Ok. eexists. split; [reflexivity|]. split.
    + destruct ok; [|done]. intros g' [= <-]. destruct (Ok eq_refl) as (I & Gx & Gy & P & C & Par).
      exists (ge_pt 1%fp g). split; [done|]. split; [by rewrite P|]. split; [done|]. left. rewrite P. cbn [key_bytes].
      by rewrite Par, <- Et.
    + intros P C _ H. apply encodes_compressed in H as (x' & y & -> & Ht' & Par); [|done].
      assert (Ex' : F (be_value t) = x') by (rewrite (proj1 (be_bytes_value _ _ Ht')); apply F_to_Z).
      assert (ok = true) as -> by (apply Ex; exists y; by rewrite Ex'). exists g. split; [done|].
      destruct (Ok eq_refl) as (I & Gx & Gy & P & C' & Par'). do 3 (split; [done|]). rewrite P, Ex' in *. f_equal.
      apply (parity_unique x'); [done|done|congruence].
  - exists None. split; [done|]. split; [done|]. intros P C _ H. apply encodes_compressed in H as (x' & y & -> & Ht' & _); [|done].
    apply be_bytes_value in Ht' as [_ ?]. lia.
Qed.

(** The head of a 65-byte form. *)
Definition full_head (h : Z) (y : Fp) : Prop := h = 4 \/ h = (if Z.odd (Zmod.to_Z y) then 7 else 6).

Lemma encodes_full h t u P :
  h = 4 \/ h = 6 \/ h = 7 -> length t = 32%nat -> length u = 32%nat -> key_encodes (h :: t ++ u) P ->
  exists x y, P = Aff x y /\ t = be_bytes 32 (Zmod.to_Z x) /\ u = be_bytes 32 (Zmod.to_Z y) /\ full_head h y.
Proof.
  intros Hh Lt Lu H. destruct P as [|x y]; [by destruct H as [H|[H|H]]|]. exists x, y. split; [done|]. unfold full_head.
  destruct (be_bytes_ok 32 (Zmod.to_Z x)) as [_ Lx].
  destruct H as [H|[H|H]]; cbn [key_bytes hybrid_bytes] in H; apply cons_inj in H as [H1 H2].
  - exfalso. apply (f_equal length) in H2. rewrite length_app in H2. lia.
  - apply app_inj_1 in H2 as [? ?]; [|by rewrite Lx]. auto.
  - apply app_inj_1 in H2 as [? ?]; [|by rewrite Lx]. auto.
Qed.

Lemma full_encodes h x y :
  full_head h y -> key_encodes (h :: be_bytes 32 (Zmod.to_Z x) ++ be_bytes 32 (Zmod.to_Z y)) (Aff x y).
Proof. intros [->| ->]; [right; by left|right; by right]. Qed.

Lemma hybrid_head h y : h = 4 \/ h = 6 \/ h = 7 -> fe_normal y ->
  exists bad, (if (h =? SECP256K1_TAG_PUBKEY_HYBRID_EVEN) || (h =? SECP256K1_TAG_PUBKEY_HYBRID_ODD)
     then o ← secp256k1_fe_is_odd y; Some (negb (Bool.eqb o (h =? SECP256K1_TAG_PUBKEY_HYBRID_ODD)))
     else Some false) = Some bad /\ (bad = false <-> full_head h (val y)).
Proof.
  intros Hh Ny. rewrite (bind_some _ _ _ (fe_is_odd_exact y Ny)), (fe_normal_val y Ny). cbn beta. unfold full_head.
  destruct Hh as [->|[->| ->]]; cbn [Z.eqb orb]; eexists; (split; [reflexivity|]); destruct (Z.odd _); cbn; naive_solver lia.
Qed.

Lemma parse_full h t u :
  h = 4 \/ h = 6 \/ h = 7 -> bytes_ok t -> length t = 32%nat -> bytes_ok u -> length u = 32%nat ->
  exists r, secp256k1_eckey_pubkey_parse old_fe (h :: t ++ u) = Some r /\ reads (h :: t ++ u) r.
Proof.
  intros Hh Ht Lt Hu Lu. unfold secp256k1_eckey_pubkey_parse. rewrite zlen_cons. unfold zlen. rewrite length_app, Lt, Lu.
  replace (Z.of_nat (32 + 32) + 1 =? 33) with false by done. replace (Z.of_nat (32 + 32) + 1 =? 65) with true by done. cbn [nth andb].
  replace ((h =? 4) || (h =? 6) || (h =? 7)) with true by (by destruct Hh as [->|[->| ->]]).
  replace (take 32 (drop 1 (h :: t ++ u))) with t by (cbn [drop]; by rewrite drop_0, take_app_length').
  replace (take 32 (drop 33 (h :: t ++ u))) with u by (cbn [drop]; rewrite drop_app_length' by done; by rewrite take_ge by lia).
  assert (Bad : field_p <= be_value t \/ field_p <= be_value u -> reads (h :: t ++ u) None).
  { intros B. split; [done|]. intros P C _ H. apply encodes_full in H as (x' & y' & -> & Hx' & Hy' & _); [|done..].
    apply be_bytes_value in Hx' as [_ ?]. apply be_bytes_value in Hy' as [_ ?]. lia. }
  destruct (set_be32_val old_fe t Ht Lt) as (x & E & Hx). bind_step E. cbn beta iota.
  destruct (Z.ltb_spec (be_value t) field_p) as [B|B]; cbn [negb]; [|exists None; split; [done|]; apply Bad; by left].
  destruct (set_be32_val old_fe u Hu Lu) as (y & E & Hy). bind_step E. cbn beta iota.
  destruct (Z.ltb_spec (be_value u) field_p) as [B'|B']; cbn [negb]; [|exists None; split; [done|]; apply Bad; by right].
  destruct (Hx B) as (Nx & Fx & Et). destruct (Hy B') as (Ny & Fy & Eu).
  destruct (hybrid_head h y Hh Ny) as (bad & E & Hbad). bind_step E. rewrite (fev_val _ _ _ Fy) in Hbad.
  pose proof (point_ok_intro _ _ _ _ Fx Fy) as Pg. set (P := Aff (F (be_value t)) (F (be_value u))) in *.
  assert (Enc : forall P', key_encodes (h :: t ++ u) P' -> P' = P /\ bad = false).
  { intros P' H. apply encodes_full in H as (x' & y' & -> & Hx' & Hy' & Hh'); [|done..]. unfold P.
    rewrite (proj1 (be_bytes_value _ _ Hx')), (proj1 (be_bytes_value _ _ Hy')), !F_to_Z in *. split; [done|]. by apply Hbad. }
  destruct bad.
  { exists None. split; [done|]. split; [done|]. intros P' C _ H. by apply Enc in H as [_ ?]. }
  unfold secp256k1_ge_set_xy. rewrite is_valid_exact by (apply Fx || apply Fy || done). cbn [mbind option_bind].
  pose proof Pg as (_ & _ & _ & EP). rewrite EP. eexists. split; [reflexivity|]. split.
  - case_bool_decide as C; [|done]. intros g [= <-]. exists P. do 3 (split; [done|]). rewrite Et at 1. rewrite Eu at 1.
    apply full_encodes. by apply Hbad.
  - intros P' C _ H. apply Enc in H as [-> _]. rewrite bool_decide_true by done. by eexists.
Qed.

(** Any other bytes are refused. *)
Lemma parse_exact pub :
  bytes_ok pub -> exists r, secp256k1_eckey_pubkey_parse old_fe pub = Some r /\ reads pub r.
Proof.
  intros Hp. destruct pub as [|h t].
  { exists None. split; [done|]. split; [done|]. intros [|x y] _ N H; [done|]. by destruct H as [H|[H|H]]. }
  apply Forall_cons in Hp as [Hh Ht].
  destruct (decide (length t = 32%nat /\ (h = 2 \/ h = 3))) as [[Lt D]|N1].
  { replace h with (even_odd (h =? 3)) by (by destruct D as [->| ->]). by apply parse_compressed. }
  destruct (decide (length t = 64%nat /\ (h = 4 \/ h = 6 \/ h = 7))) as [[Lt D]|N2].
  { rewrite <- (take_drop 32 t). apply parse_full; [done|by apply Forall_take|rewrite length_take; lia|by apply Forall_drop|rewrite length_drop; lia]. }
  exists None. split.
  - unfold secp256k1_eckey_pubkey_parse. rewrite zlen_cons. cbn [nth]. unfold zlen.
    assert (B1 : (Z.of_nat (length t) + 1 =? 33) && ((h =? 2) || (h =? 3)) = false).
    { apply not_true_iff_false. rewrite andb_true_iff, orb_true_iff, !Z.eqb_eq. intros [? ?]. apply N1. split; [lia|done]. }
    assert (B2 : (Z.of_nat (length t) + 1 =? 65) && ((h =? 4) || (h =? 6) || (h =? 7)) = false).
    { apply not_true_iff_false. rewrite andb_true_iff, !orb_true_iff, !Z.eqb_eq. intros [? ?]. apply N2. split; [lia|naive_solver]. }
    unfold SECP256K1_TAG_PUBKEY_EVEN, SECP256K1_TAG_PUBKEY_ODD. by rewrite B1, B2.
  - split; [done|]. intros [|x y] _ N H; [done|]. exfalso.
    destruct (be_bytes_ok 32 (Zmod.to_Z x)) as [_ Lx]. destruct (be_bytes_ok 32 (Zmod.to_Z y)) as [_ Ly].
    destruct H as [H|[H|H]]; cbn [key_bytes hybrid_bytes] in H; apply cons_inj in H as [H1 H2]; subst.
    + apply N1. split; [done|]. destruct (Z.odd _); auto.
    + apply N2. rewrite length_app, Lx, Ly. auto.
    + apply N2. rewrite length_app, Lx, Ly. split; [done|]. destruct (Z.odd _); auto.
Qed.

End Parse.
