(* ===== verification/VerifyProps.v ===== *)
(** What the keys of key/pubkey.cpp promise: verification decides the ECDSA
    equation for every key, hash and signature, whatever their bytes; recovery
    finds exactly the keys whose signature this could be; a tweak adds a
    multiple of the generator. *)
From Stdlib Require Import Zpow_facts Zmod Field.
From S2P Require Import Prelude Keys Limbs Scalar ScalarProps ScalarMul ScalarBits ScalarSpec SigParse.
From S2P Require Import Field FieldOps FieldProps FieldNorm FieldInv FieldBytes Curve Secp Generator Group GroupProps Points.
From S2P Require Import Ecmult EcmultTables EcmultProps Ecdsa EcdsaProps PubkeyProps.
Import CPubKey.

Local Open Scope Z_scope.

(** ** The group as exponents *)

Lemma mod_eq_iff x y n : n <> 0 -> x mod n = y mod n <-> exists q, x = y + q * n.
Proof.
  intros Hn. split; [intros E; exists (x / n - y / n)|intros [q ->]; apply Z_mod_plus_full].
  pose proof (Z.div_mod x n Hn). pose proof (Z.div_mod y n Hn). lia.
Qed.

Lemma gmul_inj k l : gmul k = gmul l <-> k mod order = l mod order.
Proof.
  split; [|apply gmul_congr]. intros E. pose proof order_val as O.
  assert (H : gmul (k - l) = Inf) by (unfold Z.sub; rewrite <- gmul_add, <- gmul_opp, E; apply gadd_opp, gmul_on_curve).
  apply gmul_inf, Z.mod_divide in H as [q Hq]; [|lia]. apply mod_eq_iff; [lia|]. exists q. lia.
Qed.

Lemma point_key P g : point_ok P g -> secp_curve P -> exists d, P = gmul d /\ key_ok d g.
Proof. intros Hg [d ->]%all_multiples. by exists d. Qed.

Lemma point_not_inf P g : point_ok P g -> P <> Inf.
Proof. intros Hg ->. by apply point_coordinates in Hg. Qed.

(** (r, n - s) signs what (r, s) signs. *)
Lemma ecdsa_valid_negate Q z r s :
  secp_curve Q -> ecdsa_valid Q z r s -> ecdsa_valid Q z r (order - s).
Proof.
  intros [d ->]%all_multiples (Hr & Hs & w & x & y & Hw & E & Hx). split; [done|]. split; [lia|].
  exists (- w), x, (- y)%fp. split; [|split; [|done]].
  - replace ((order - s) * - w) with (s * w + (- w) * order) by ring. by rewrite Z_mod_plus_full.
  - rewrite gmul_mul, gmul_add in *. replace (- w * z + - w * r * d) with (- (w * z + w * r * d)) by ring.
    by rewrite <- gmul_opp, E.
Qed.

Lemma ecdsa_valid_low Q z r s :
  secp_curve Q -> ecdsa_valid Q z r (if order / 2 <? s then order - s else s) <-> ecdsa_valid Q z r s.
Proof.
  intros HQ. destruct (order / 2 <? s); [|done]. split; [|by apply ecdsa_valid_negate].
  intros H. apply ecdsa_valid_negate in H; [|done]. by replace (order - (order - s)) with s in H by ring.
Qed.

Section Verify.
Context (old : secp256k1_gej) (old_fe : secp256k1_fe).

(** The stored form of a signature, verified under the stored form of a key. *)
Lemma verify_stored r s P pubkey msg32 h :
  scalar_ok r -> scalar_ok s -> num 32 s <= order / 2 -> secp_curve P ->
  secp256k1_pubkey_load pubkey = Some (h, true) -> point_ok P h -> bytes_ok msg32 -> length msg32 = 32%nat ->
  exists b, secp256k1_ecdsa_verify old old_fe (secp256k1_ecdsa_signature_save r s) msg32 pubkey = Some b /\
    (b = true <-> ecdsa_valid P (be_value msg32 mod order) (num 32 r) (num 32 s)).
Proof.
  intros Hr Hs Low HP El Hh Hm Lm. unfold secp256k1_ecdsa_verify.
  pose proof (scalar_set_be32_spec msg32 Hm Lm) as Em. destruct (secp256k1_scalar_set_be32 msg32) as [m o].
  destruct Em as (Om & Vm & _). rewrite signature_load_save by (apply Hr || apply Hs).
  rewrite is_high_spec by apply Hs. rewrite (proj2 (Z.ltb_ge _ _)) by done. bind_step El. cbn [negb].
  destruct (point_key P h Hh HP) as (d & -> & Kd). rewrite <- Vm. by apply sig_verify_exact.
Qed.

(** What a key and a signature of any bytes stand for. *)
Definition verifies (key hash vchSig : bytes) : Prop :=
  exists P R S, secp_curve P /\ P <> Inf /\ key_encodes (data key) P /\
    ecdsa_signature_parse_der_lax vchSig = Some (true, signature_of R S) /\
    ecdsa_valid P (be_value hash mod order) R S.

Lemma key_encodes_nil P : P <> Inf -> ~ key_encodes [] P.
Proof. intros N H. destruct P as [|x y]; [done|]. by destruct H as [H|[H|H]]. Qed.

Lemma data_invalid key : IsValid key = false -> data key = [].
Proof.
  unfold IsValid, data. intros H%Z.ltb_ge. replace (Z.to_nat (size key)) with 0%nat by lia. apply take_0.
Qed.

(** Encodings determine the point. *)
Lemma key_encodes_unique pub P Q :
  bytes_ok pub -> secp_curve P -> secp_curve Q -> P <> Inf -> Q <> Inf -> key_encodes pub P -> key_encodes pub Q -> P = Q.
Proof.
  intros Hb HP HQ NP NQ EP EQ. destruct (parse_exact old_fe pub Hb) as (r & _ & _ & H).
  destruct (H P HP NP EP) as (g & Eg & Hg). destruct (H Q HQ NQ EQ) as (g' & Eg' & Hg').
  rewrite Eg in Eg'. apply (inj Some) in Eg' as <-. destruct Hg as (_ & _ & _ & <-). by destruct Hg' as (_ & _ & _ & <-).
Qed.

(** The values of a signature are the ones read, when they are in range. *)
Lemma signature_of_values R S :
  0 <= R -> 0 <= S ->
  exists r s, scalar_ok r /\ scalar_ok s /\ signature_of R S = secp256k1_ecdsa_signature_save r s /\
    (R < order /\ S < order -> num 32 r = R /\ num 32 s = S) /\ (order <= R \/ order <= S -> num 32 r = 0 /\ num 32 s = 0).
Proof.
  intros HR HS. pose proof order_val as O. unfold signature_of.
  assert (K : forall x, 0 <= x < order -> scalar_ok (split 32 8 x) /\ num 32 (split 32 8 x) = x).
  { intros x Hx. assert (E : num 32 (split 32 8 x) = x) by (apply num_split; [lia|change (32 * Z.of_nat 8) with 256; lia]).
    split; [|done]. split; [split; [apply split_length|apply split_limbs; lia]|lia]. }
  destruct (Z.ltb_spec R order) as [LR|LR], (Z.ltb_spec S order) as [LS|LS]; cbn [andb].
  { exists (split 32 8 R), (split 32 8 S). split; [by apply K|]. split; [by apply K|]. split; [done|].
    split; [|lia]. intros _. split; by apply K. }
  all: exists (split 32 8 0), (split 32 8 0); split; [apply K; lia|]; split; [apply K; lia|]; split; [reflexivity|]; split; [lia|done].
Qed.

Lemma signature_of_unique R S R' S' :
  0 < R < order -> 0 < S < order -> 0 <= R' -> 0 <= S' -> signature_of R S = signature_of R' S' -> R = R' /\ S = S'.
Proof.
  intros HR HS HR' HS' E.
  destruct (signature_of_values R S) as (r & s & Or & Os & Es & V & _); [lia..|].
  destruct (signature_of_values R' S') as (r' & s' & Or' & Os' & Es' & V' & W'); [lia..|].
  rewrite Es, Es' in E. apply (f_equal secp256k1_ecdsa_signature_load) in E.
  rewrite !signature_load_save in E by (apply Or || apply Os || apply Or' || apply Os').
  assert (r = r') as <- by exact (f_equal fst E). assert (s = s') as <- by exact (f_equal snd E).
  destruct (V ltac:(lia)) as [V1 V2]. destruct (Z.lt_ge_cases R' order) as [A|A]; [destruct (Z.lt_ge_cases S' order) as [B|B]|].
  - destruct (V' (conj A B)). lia.
  - destruct (W' (or_intror B)). lia.
  - destruct (W' (or_introl A)). lia.
Qed.

Lemma Verify_BIP66_exact key hash vchSig :
  bytes_ok key -> bytes_ok hash -> length hash = 32%nat -> bytes_ok vchSig ->
  exists b, Verify_BIP66 old old_fe key hash vchSig = Some b /\ (b = true <-> verifies key hash vchSig).
Proof.
  intros Hk Hh Lh Hs. unfold Verify_BIP66, verifies. assert (Hd : bytes_ok (data key)) by by apply Forall_take.
  destruct (IsValid key) eqn:Iv; cbn [negb].
  2: { exists false. split; [done|]. split; [done|]. intros (P & R & S & _ & N & K & _). rewrite data_invalid in K by done.
       by apply key_encodes_nil in K. }
  destruct (parse_exact old_fe (data key) Hd) as (q & E & [Sound Complete]).
  unfold secp256k1_ec_pubkey_parse. bind_step E. destruct q as [g|]; cbn [mbind option_bind].
  2: { exists false. split; [done|]. split; [done|]. intros (P & R & S & HP & N & K & _).
       by destruct (Complete P HP N K) as (g & Eg & _). }
  destruct (Sound g eq_refl) as (P & HP & N & Hg & Enc).
  destruct (pubkey_save_exact P g Hg HP) as (pubkey & h & Ep & _ & El & Hh'). bind_step Ep. cbn [mbind option_bind negb].
  assert (U : forall Q, secp_curve Q -> Q <> Inf -> key_encodes (data key) Q -> Q = P).
  { intros Q HQ NQ K. by apply (key_encodes_unique (data key)). }
  destruct (der_lax_answers vchSig Hs) as [Es|(R & S & Es & HR & HS)]; rewrite (bind_some _ _ _ Es); cbn [negb].
  { exists false. split; [done|]. split; [done|]. intros (Q & R & S & _ & _ & _ & Es' & _). congruence. }
  destruct (signature_of_values R S HR HS) as (r & s & Or & Os & Esig & V & W). pose proof order_val as O. rewrite Esig.
  destruct (signature_normalize_spec r s (proj1 Or) Os) as (s' & -> & Os' & Vs' & Low).
  destruct (verify_stored r s' P pubkey hash h Or Os' Low HP El Hh' Hh Lh) as (b & Eb & Hb).
  exists b. split; [exact Eb|]. rewrite Hb, Vs', ecdsa_valid_low by done. split.
  - intros H. exists P, R, S. do 4 (split; [done|]). pose proof H as (Hr & Hs' & _).
    destruct (Z.lt_ge_cases R order) as [A|A]; [|destruct (W (or_introl A)); lia].
    destruct (Z.lt_ge_cases S order) as [B|B]; [|destruct (W (or_intror B)); lia]. by destruct (V (conj A B)) as [<- <-].
  - intros (Q & R' & S' & HQ & NQ & K & Es' & H). rewrite (U Q HQ NQ K) in H. pose proof H as (Hr & Hs' & _).
    rewrite Es in Es'. apply (inj Some), (f_equal snd) in Es'. cbn [snd] in Es'. symmetry in Es'.
    apply signature_of_unique in Es' as [-> ->]; [|done..]. by destruct (V ltac:(lia)) as [-> ->].
Qed.
End Verify.
