(* ===== verification/RecoverProps.v ===== *)
(** Recovering a key from a signature, and adding a tweak to a key (Ecdsa.v).
    The key recovered is the one whose verification meets the point that the
    recovery id names; there is one at most, and it is found. *)
From Stdlib Require Import Zpow_facts Zmod Field.
From S2P Require Import Prelude Keys Limbs Scalar ScalarProps ScalarMul ScalarBits ScalarSpec SigParse.
From S2P Require Import Field FieldMul FieldOps FieldProps FieldNorm FieldInv FieldBytes Curve Secp Generator Group GroupProps Points.
From S2P Require Import Ecmult EcmultTables EcmultProps Ecdsa EcdsaProps PubkeyProps VerifyProps.
Import CPubKey.

Local Open Scope Z_scope.

(** (r, s) signs z under Q with the point that [recid] names: bit 0 is the
    parity of its second coordinate, bit 1 that its first is not below n. *)
Definition recovered (Q : spoint) (z r s recid : Z) : Prop :=
  0 < r < order /\ 0 < s < order /\
  exists w x y, (s * w) mod order = 1 /\ gadd (gmul (w * z)) (gscale (w * r) Q) = Aff x y /\
    Zmod.to_Z x = r + (if Z.testbit recid 1 then order else 0) /\ Z.odd (Zmod.to_Z y) = Z.testbit recid 0.

(** A recovered key verifies the signature. *)
Lemma recovered_valid Q z r s recid : recovered Q z r s recid -> ecdsa_valid Q z r s.
Proof.
  intros (Hr & Hs & w & x & y & Hw & E & Hx & _). do 2 (split; [done|]). exists w, x, y. do 2 (split; [done|]).
  pose proof order_val as O. rewrite Hx. destruct (Z.testbit recid 1).
  - replace (r + order) with (r + 1 * order) by ring. rewrite Z_mod_plus_full. apply Z.mod_small. lia.
  - rewrite Z.add_0_r. apply Z.mod_small. lia.
Qed.

Lemma bits b :
  Z.testbit (Z.b2z b) 1 = false /\ Z.testbit (Z.b2z b) 0 = b /\ Z.testbit (Z.b2z b + 2) 1 = true /\ Z.testbit (Z.b2z b + 2) 0 = b.
Proof. by destruct b. Qed.

(** Every valid signature has a recovery id. *)
Lemma valid_recovered Q z r s :
  ecdsa_valid Q z r s -> exists recid, 0 <= recid < 4 /\ recovered Q z r s recid.
Proof.
  intros (Hr & Hs & w & x & y & Hw & E & Hx). pose proof Hx as [Ex|[L Ex]]%x_mod_order; [| |lia].
  all: pose proof order_val as O; pose proof field_p_val as V.
  all: assert (B : forall m, 0 <= m < field_p -> x = F m -> Zmod.to_Z x = m)
    by (intros m Hm ->; unfold F; rewrite Zmod.to_Z_of_Z; by apply Z.mod_small); apply B in Ex; [|lia].
  - exists (Z.b2z (Z.odd (Zmod.to_Z y))). split; [destruct (Z.odd _); cbn; lia|]. do 2 (split; [done|]).
    exists w, x, y. do 2 (split; [done|]). rewrite Ex. destruct (bits (Z.odd (Zmod.to_Z y))) as (-> & -> & _). split; [lia|done].
  - exists (Z.b2z (Z.odd (Zmod.to_Z y)) + 2). split; [destruct (Z.odd _); cbn; lia|]. do 2 (split; [done|]).
    exists w, x, y. do 2 (split; [done|]). rewrite Ex. by destruct (bits (Z.odd (Zmod.to_Z y))) as (_ & _ & -> & ->).
Qed.

(** Solving the equation for the key. *)
Lemma recover_congr v w z r s c d :
  (r * v) mod order = 1 -> (s * w) mod order = 1 ->
  ((v * s) * c - v * z) mod order = d mod order <-> (w * z + w * r * d) mod order = c mod order.
Proof.
  pose proof order_val as O. assert (N : order <> 0) by lia. assert (O1 : 1 = 1 mod order) by (by rewrite Z.mod_1_l by lia).
  intros Hv Hw. rewrite O1 in Hv, Hw. apply mod_eq_iff in Hv as [b Hb], Hw as [a Ha]; [|done..]. rewrite !mod_eq_iff by done. set (n := order) in *. split.
  - intros [e He]. exists (c * (a + b + n * a * b) - w * z * b - w * r * e).
    replace d with (v * s * c - v * z - e * n) by lia.
    replace (w * z + w * r * (v * s * c - v * z - e * n)) with (w * z + (r * v) * (s * w) * c - (r * v) * w * z - w * r * e * n) by ring.
    rewrite Hb, Ha. ring.
  - intros [e He]. exists (d * (a + b + n * a * b) - v * s * e + v * z * a).
    replace c with (w * z + w * r * d - e * n) by lia.
    replace (v * s * (w * z + w * r * d - e * n) - v * z) with ((s * w) * (v * z) + (r * v) * (s * w) * d - v * s * e * n - v * z) by ring.
    rewrite Hb, Ha. ring.
Qed.

Lemma land_bit x k : 0 <= k -> negb (Z.land x (2 ^ k) =? 0) = Z.testbit x k.
Proof.
  intros Hk. assert (T : forall i, Z.testbit (Z.land x (2 ^ k)) i = Z.testbit x i && (k =? i)) by (intros; by rewrite Z.land_spec, Z.pow2_bits_eqb).
  destruct (Z.eqb_spec (Z.land x (2 ^ k)) 0) as [E|N]; cbn [negb].
  - specialize (T k). rewrite E, Z.bits_0, Z.eqb_refl, andb_true_r in T. done.
  - destruct (Z.testbit x k) eqn:B; [done|]. exfalso. apply N, Z.bits_inj_0. intros i. rewrite T.
    destruct (Z.eqb_spec k i) as [<-|]; [by rewrite B|by rewrite andb_false_r].
Qed.

Section Recover.
Context (old : secp256k1_gej) (old_fe : secp256k1_fe).

(** The first coordinate that [recid] names, unless it is beyond p. *)
Lemma named_x sigr recid :
  scalar_ok sigr ->
  exists fx, secp256k1_fe_set_be32 old_fe (secp256k1_scalar_get_be32 sigr) = Some (fx, true) /\
  exists o, (if negb (Z.land recid 2 =? 0) then
            c ← secp256k1_fe_cmp_var fx secp256k1_ecdsa_const_p_minus_order;
            if 0 <=? c then Some None
            else fx ← secp256k1_fe_add fx secp256k1_ecdsa_const_order_as_fe; Some (Some fx)
          else Some (Some fx)) = Some o /\
    let X := num 32 sigr + (if Z.testbit recid 1 then order else 0) in
    match o with
    | None => field_p <= X
    | Some fx => 0 <= X < field_p /\ fev 8 (F X) fx
    end.
Proof.
  intros [Hu Hlt]. pose proof order_val as O. pose proof field_p_val as V.
  destruct (scalar_get_be32_spec sigr Hu) as (Bb & Lb & Vb). pose proof (unit_bound sigr Hu) as Bu.
  destruct (fe_set_be32_exact old_fe _ Bb Lb) as (xr & E & Vx & Nx). rewrite Vb in *.
  rewrite (proj2 (Z.ltb_lt _ _)) in E by lia. specialize (Nx ltac:(lia)). exists xr. split; [done|]. clear E.
  destruct const_elements as [[Np Vp] [Oo Vo]]. pose proof Nx as [Ox _].
  replace (negb (Z.land recid 2 =? 0)) with (Z.testbit recid 1).
  2: { symmetry. exact (land_bit recid 1 ltac:(lia)). }
  destruct (Z.testbit recid 1).
  - rewrite (bind_some _ _ _ (fe_cmp_var_exact xr _ Nx Np)), Vx, Vp. cbn beta.
    destruct (Z.compare_spec (num 32 sigr) (field_p - order)) as [C|C|C]; cbn [Z.leb Z.compare].
    1, 3: exists None; (split; [done|]); cbn zeta; lia.
    destruct (fe_add_exact 1 1 xr _ ltac:(lia) Ox Oo) as (xn & En & Oxn & Vxn & _). bind_step En.
    exists (Some xn). split; [done|]. cbn zeta. split; [lia|]. split; [exact (fe_ok_mono 2 8 _ Oxn ltac:(lia))|].
    unfold val. by rewrite Vxn, Vx, Vo.
  - exists (Some xr). split; [done|]. cbn zeta. rewrite Z.add_0_r. split; [lia|].
    split; [exact (fe_ok_mono 1 8 _ Ox ltac:(lia))|]. unfold val. by rewrite Vx.
Qed.

(** What the recovered key is, given the point of the recovery id. *)
Lemma recover_key sigr sigs message R c :
  scalar_ok sigr -> num 32 sigr <> 0 -> scalar_ok sigs -> scalar_ok message -> key_ok c R ->
  exists o, (xj ← secp256k1_gej_set_ge R;
      rn ← secp256k1_scalar_inverse_var sigr;
      u1 ← secp256k1_scalar_mul rn message;
      let u1 := secp256k1_scalar_negate u1 in
      u2 ← secp256k1_scalar_mul rn sigs;
      qj ← secp256k1_ecmult old xj u2 u1;
      '(pubkey, qj) ← secp256k1_ge_set_gej_var (Ge old_fe old_fe false) qj;
      Some (if secp256k1_gej_is_infinity qj then None else Some pubkey)) = Some o /\
  exists v, (num 32 sigr * v) mod order = 1 /\
    let Q := gmul ((v * num 32 sigs) * c - v * num 32 message) in
    match o with None => Q = Inf | Some g => point_ok Q g end.
Proof.
  intros Hr Nr Hs Hm HR. pose proof order_val as O.
  destruct (set_ge_key c R HR) as (xj & E & Hxj). bind_step E. unfold secp256k1_scalar_inverse_var.
  destruct (scalar_inverse_exact sigr Hr Nr) as (rn & E & Hrn & Vrn). bind_step E.
  destruct (scalar_mul_spec rn message (proj1 Hrn) (proj1 Hm)) as (u1 & E & Hu1 & V1). bind_step E. cbn zeta.
  destruct (scalar_negate_spec u1 Hu1) as [Hn Vn].
  destruct (scalar_mul_spec rn sigs (proj1 Hrn) (proj1 Hs)) as (u2 & E & Hu2 & V2). bind_step E.
  destruct (ecmult_exact old xj u2 _ c Hxj Hu2 Hn) as (qj & E & Oq & Pq). bind_step E.
  destruct (set_gej_var_exact (Ge old_fe old_fe false) qj Oq) as (g & qj' & E & Ig & Iq & Pg & Og). bind_step E. cbn beta iota.
  unfold secp256k1_gej_is_infinity. rewrite Iq. eexists. split; [reflexivity|]. exists (num 32 rn). split; [done|].
  replace (gmul (num 32 rn * num 32 sigs * c - num 32 rn * num 32 message)) with (gej_pt 1%fp qj).
  2: { rewrite Pq. apply gmul_congr. rewrite Vn, V1, V2. set (a := num 32 rn * num 32 sigs). set (b := num 32 rn * num 32 message).
       rewrite Z.add_mod_idemp_r by lia. apply mod_eq_iff; [lia|].
       exists (b / order - (a / order) * c). pose proof (Z.div_mod a order ltac:(lia)) as Da. pose proof (Z.div_mod b order ltac:(lia)) as Db.
       lia. }
  destruct (gej_infinity qj) eqn:Iqj; [unfold gej_pt; by rewrite Iqj|]. destruct (Og eq_refl) as [Gx Gy].
  split; [done|]. split; [exact (fe_ok_mono 1 8 _ Gx ltac:(lia))|]. split; [exact (fe_ok_mono 1 8 _ Gy ltac:(lia))|done].
Qed.

(** [o] is the one key for which [recovered] holds, if there is one. *)
Definition recovers (z r s recid : Z) (o : option secp256k1_ge) : Prop :=
  (forall g, o = Some g -> exists P, secp_curve P /\ P <> Inf /\ point_ok P g) /\
  (forall P, secp_curve P -> P <> Inf -> (exists g, o = Some g /\ point_ok P g) <-> recovered P z r s recid).

Lemma recovers_none z r s recid :
  (forall P, secp_curve P -> P <> Inf -> ~ recovered P z r s recid) -> recovers z r s recid None.
Proof.
  intros N. split; [done|]. intros P HP NP. split; [by intros (g & ? & _)|]. intros X. by destruct (N P HP NP).
Qed.

Lemma point_ok_unique P Q g : point_ok P g -> point_ok Q g -> P = Q.
Proof. by intros (_ & _ & _ & <-) (_ & _ & _ & <-). Qed.

(** The point of a recovery is on the curve. *)
Lemma recovered_point P z r s recid :
  secp_curve P -> recovered P z r s recid ->
  exists w x y, (s * w) mod order = 1 /\ gadd (gmul (w * z)) (gscale (w * r) P) = Aff x y /\ secp_curve (Aff x y) /\
    x = F (r + (if Z.testbit recid 1 then order else 0)) /\ Z.odd (Zmod.to_Z y) = Z.testbit recid 0 /\
    r + (if Z.testbit recid 1 then order else 0) < field_p.
Proof.
  intros HP (_ & _ & w & x & y & Hw & E & Hx & Hy). exists w, x, y. do 2 (split; [done|]).
  rewrite <- Hx, F_to_Z. split; [|split; [done|split; [done|apply Fp_bound]]].
  rewrite <- E. apply gadd_on_curve; [apply gmul_on_curve|by apply gscale_on_curve].
Qed.

Lemma sig_recover_exact sigr sigs message recid :
  scalar_ok sigr -> scalar_ok sigs -> scalar_ok message ->
  exists o, secp256k1_ecdsa_sig_recover old old_fe sigr sigs message recid = Some o /\
    recovers (num 32 message) (num 32 sigr) (num 32 sigs) recid o.
Proof.
  intros Hr Hs Hm. pose proof order_val as O. unfold secp256k1_ecdsa_sig_recover.
  rewrite !scalar_is_zero_spec by (apply Hr || apply Hs).
  pose proof (unit_bound sigr (proj1 Hr)) as Br. pose proof (unit_bound sigs (proj1 Hs)) as Bs.
  pose proof (proj2 Hr) as Lr. pose proof (proj2 Hs) as Ls.
  destruct (Z.eqb_spec (num 32 sigr) 0) as [Zr|Zr].
  { exists None. cbn [orb]. split; [done|]. apply recovers_none. intros P _ _ (? & _). lia. }
  destruct (Z.eqb_spec (num 32 sigs) 0) as [Zs|Zs].
  { exists None. cbn [orb]. split; [done|]. apply recovers_none. intros P _ _ (_ & ? & _). lia. }
  cbn [orb]. destruct (named_x sigr recid Hr) as (fx & E & o & Eo & Ho). bind_step E. cbn beta iota. cbn [check].
  bind_step Eo. cbn zeta in Ho. set (X := num 32 sigr + (if Z.testbit recid 1 then order else 0)) in *.
  destruct o as [f|].
  2: { exists None. split; [done|]. apply recovers_none. intros P HP _ H. apply recovered_point in H as (w & x & y & _ & _ & _ & _ & _ & ?); [|done]. unfold X in Ho. lia. }
  destruct Ho as [BX Ff]. replace (negb (Z.land recid 1 =? 0)) with (Z.testbit recid 0) by (symmetry; exact (land_bit recid 0 ltac:(lia))).
  destruct (set_xo_exact f (Z.testbit recid 0) (proj1 Ff)) as (R & ok & E & Ex & Ok). bind_step E. cbn beta iota.
  rewrite (fev_val _ _ _ Ff) in Ex, Ok. destruct ok; cbn [negb].
  2: { exists None. split; [done|]. apply recovers_none. intros P HP _ H. apply recovered_point in H as (w & x & y & _ & _ & C & Hx & _ & _); [|done].
       fold X in Hx. rewrite Hx in C. assert (false = true); [|done]. apply Ex. by exists y. }
  destruct (Ok eq_refl) as (I & Gx & Gy & PR & CR & Par).
  destruct (all_multiples _ CR) as [c Ec].
  destruct (recover_key sigr sigs message R c Hr Zr Hs Hm (conj I (conj Gx (conj Gy Ec)))) as (o & E & v & Hv & Ho).
  exists o. split; [exact E|]. cbn zeta in Ho. set (Q := gmul _) in Ho.
  assert (HQ : secp_curve Q) by apply gmul_on_curve.
  destruct (scalar_inverse_exact sigs Hs Zs) as (sn & _ & _ & Hw). rewrite Ec in PR.
  (* the equation, for a key [gmul d] *)
  assert (Eqn : forall d, Q = gmul d <-> gadd (gmul (num 32 sn * num 32 message)) (gscale (num 32 sn * num 32 sigr) (gmul d)) = gmul c).
  { intros d. rewrite gmul_mul, gmul_add. unfold Q. rewrite !gmul_inj. by apply recover_congr. }
  assert (Iff : forall P, secp_curve P -> Q = P <-> recovered P (num 32 message) (num 32 sigr) (num 32 sigs) recid).
  { intros P HP. destruct (all_multiples P HP) as [d ->]. rewrite Eqn, PR. split.
    - intros H. split; [lia|]. split; [lia|]. exists (num 32 sn), (F X), (val (ge_y R)). do 2 (split; [done|]). split; [|done].
      unfold F. rewrite Zmod.to_Z_of_Z. by apply Z.mod_small.
    - intros H. apply recovered_point in H as (w & x & y & Hw' & Ew & C & Hx & Hy & _); [|done]. fold X in Hx. subst x.
      assert (y = val (ge_y R)) as -> by (apply (parity_unique (F X)); [done|by rewrite <- PR, <- Ec|congruence]).
      rewrite <- Ew. rewrite !gmul_mul, !gmul_add. apply gmul_inj. pose proof (inverse_unique _ _ _ Hw Hw') as Eww.
      set (z := num 32 message). set (r := num 32 sigr).
      replace (num 32 sn * z + num 32 sn * r * d) with (num 32 sn * (z + r * d)) by ring.
      replace (w * z + w * r * d) with (w * (z + r * d)) by ring. rewrite <- Z.mul_mod_idemp_l, Eww, Z.mul_mod_idemp_l by lia. done. }
  destruct o as [g|].
  - split; [intros g' Eg; apply (inj Some) in Eg as <-; exists Q; split; [done|]; split; [by apply (point_not_inf Q g)|done]|].
    intros P HP NP. rewrite <- Iff by done. split.
    + intros (g' & Eg & Hg). apply (inj Some) in Eg as <-. by apply (point_ok_unique Q P g).
    + intros <-. by exists g.
  - split; [done|]. intros P HP NP. rewrite <- Iff by done. split; [by intros (g & ? & _)|]. intros <-. by destruct NP.
Qed.

(** ** From bytes *)

Lemma recoverable_load_save r s recid :
  unit_ok r -> unit_ok s -> 0 <= recid < 4 ->
  secp256k1_ecdsa_recoverable_signature_load (secp256k1_ecdsa_recoverable_signature_save r s recid) = (r, s, recid).
Proof.
  intros Hr Hs Hi. unfold secp256k1_ecdsa_recoverable_signature_load, secp256k1_ecdsa_recoverable_signature_save. f_equal; [f_equal|].
  - exact (unit_at_bytes [] r _ Hr).
  - pose proof (unit_at_bytes (unit_bytes r) s [u8 recid] Hs) as E. by rewrite unit_bytes_length in E.
  - rewrite app_assoc, app_nth2; rewrite length_app, !unit_bytes_length by done; [|lia]. cbn. apply Z.mod_small. lia.
Qed.

(** The 64 bytes of a compact signature. *)
Lemma recoverable_parse_exact sig r s recid :
  bytes_ok r -> bytes_ok s -> length r = 32%nat -> length s = 32%nat -> 0 <= recid < 4 ->
  exists r' s', scalar_ok r' /\ scalar_ok s' /\
    secp256k1_ecdsa_recoverable_signature_parse_compact sig (r ++ s) recid =
      (if (be_value r <? order) && (be_value s <? order)
       then (true, secp256k1_ecdsa_recoverable_signature_save r' s' recid) else (false, replicate 65 0)) /\
    ((be_value r <? order) && (be_value s <? order) = true -> num 32 r' = be_value r /\ num 32 s' = be_value s).
Proof.
  intros Hr Hs Lr Ls Hi. unfold secp256k1_ecdsa_recoverable_signature_parse_compact.
  rewrite take_app_length' by done. rewrite drop_app_length' by done. rewrite (take_ge s) by lia.
  rewrite (proj2 (Z.leb_le 0 recid)), (proj2 (Z.leb_le recid 3)) by lia. cbn [negb andb].
  pose proof (scalar_set_be32_spec r Hr Lr) as Er. pose proof (scalar_set_be32_spec s Hs Ls) as Es.
  destruct (secp256k1_scalar_set_be32 r) as [r' o1]. destruct (secp256k1_scalar_set_be32 s) as [s' o2].
  destruct Er as (Or & Vr & ->). destruct Es as (Os & Vs & ->). rewrite !Z.leb_antisym, !negb_involutive.
  exists r', s'. do 2 (split; [done|]). split; [done|]. intros [A B]%andb_true_iff.
  pose proof (be_value_bound r Hr). pose proof (be_value_bound s Hs). rewrite Vr, Vs, !Z.mod_small by lia. done.
Qed.

Lemma ecdsa_recover_exact r s recid msg32 :
  scalar_ok r -> scalar_ok s -> 0 <= recid < 4 -> bytes_ok msg32 -> length msg32 = 32%nat ->
  exists o, recovers (be_value msg32 mod order) (num 32 r) (num 32 s) recid o /\
  exists ok pubkey, secp256k1_ecdsa_recover old old_fe (secp256k1_ecdsa_recoverable_signature_save r s recid) msg32 = Some (ok, pubkey) /\
    match o with
    | None => ok = false
    | Some g => ok = true /\ exists P h, secp_curve P /\ point_ok P g /\
        secp256k1_pubkey_load pubkey = Some (h, true) /\ point_ok P h
    end.
Proof.
  intros Hr Hs Hi Hm Lm. unfold secp256k1_ecdsa_recover. rewrite recoverable_load_save by (apply Hr || apply Hs || done).
  rewrite (proj2 (Z.leb_le 0 recid)), (proj2 (Z.ltb_lt recid 4)) by lia. cbn [andb check].
  pose proof (scalar_set_be32_spec msg32 Hm Lm) as Em. destruct (secp256k1_scalar_set_be32 msg32) as [m o].
  destruct Em as (Om & Vm & _). rewrite <- Vm.
  destruct (sig_recover_exact r s m recid Hr Hs Om) as (q & E & Hq). exists q. split; [exact Hq|]. bind_step E.
  destruct q as [g|]; [|by eexists _, _]. destruct (proj1 Hq g eq_refl) as (P & HP & _ & Hg).
  destruct (pubkey_save_exact P g Hg HP) as (pubkey & h & E & _ & El & Hh). bind_step E.
  exists true, pubkey. split; [done|]. split; [done|]. by exists P, h.
Qed.

Lemma key_bytes_valid compressed P : P <> Inf -> Set_ (key_bytes compressed P) = key_bytes compressed P.
Proof.
  intros N. destruct P as [|x y]; [done|]. cbn [key_bytes]. unfold Set_.
  destruct (be_bytes_ok 32 (Zmod.to_Z x)) as [_ Lx]. destruct (be_bytes_ok 32 (Zmod.to_Z y)) as [_ Ly]. destruct compressed.
  - rewrite zlen_cons. unfold zlen. rewrite Lx. by destruct (Z.odd _).
  - rewrite zlen_cons. unfold zlen. rewrite length_app, Lx, Ly. done.
Qed.

Lemma key_bytes_ok compressed P : bytes_ok (key_bytes compressed P).
Proof.
  destruct P as [|x y]; [constructor|]. cbn [key_bytes].
  destruct (be_bytes_ok 32 (Zmod.to_Z x)) as [Bx _]. destruct (be_bytes_ok 32 (Zmod.to_Z y)) as [By _]. destruct compressed.
  - apply Forall_cons. split; [|exact Bx]. destruct (Z.odd _); unfold is_byte; lia.
  - apply Forall_cons. split; [unfold is_byte; lia|]. by apply bytes_ok_app.
Qed.

Lemma key_bytes_encodes compressed P : key_encodes (key_bytes compressed P) P.
Proof. destruct compressed; [by left|right; by left]. Qed.

Lemma key_bytes_inj compressed P Q :
  secp_curve P -> secp_curve Q -> P <> Inf -> Q <> Inf -> key_bytes compressed P = key_bytes compressed Q -> P = Q.
Proof.
  intros HP HQ NP NQ E. apply (key_encodes_unique old_fe (key_bytes compressed P)); [apply key_bytes_ok|done..|apply key_bytes_encodes|].
  rewrite E. apply key_bytes_encodes.
Qed.

Lemma ec_serialize_exact pubkey P h (comp : bool) :
  secp256k1_pubkey_load pubkey = Some (h, true) -> point_ok P h ->
  secp256k1_ec_pubkey_serialize pubkey (if comp then SECP256K1_EC_COMPRESSED else SECP256K1_EC_UNCOMPRESSED) =
    Some (Some (key_bytes comp P)).
Proof.
  intros E Hh. unfold secp256k1_ec_pubkey_serialize. rewrite (bind_some _ _ _ E).
  destruct comp; exact (serialize_exact P h _ Hh).
Qed.

Lemma RecoverCompact_exact key hash h r s :
  bytes_ok r -> bytes_ok s -> length r = 32%nat -> length s = 32%nat -> bytes_ok hash -> length hash = 32%nat ->
  let recid := Z.land (h - 27) 3 in
  let comp := negb (Z.land (h - 27) 4 =? 0) in
  exists ok key', RecoverCompact old old_fe key hash (h :: r ++ s) = Some (ok, key') /\
    (ok = false -> key' = key) /\
    (ok = true -> exists P, secp_curve P /\ P <> Inf /\ key' = key_bytes comp P) /\
    (forall P, secp_curve P -> P <> Inf ->
       (ok = true /\ key' = key_bytes comp P) <->
       recovered P (be_value hash mod order) (be_value r) (be_value s) recid).
Proof.
  intros Hr Hs Lr Ls Hm Lm. cbn zeta. set (recid := Z.land (h - 27) 3). set (comp := negb (Z.land (h - 27) 4 =? 0)).
  assert (Hi : 0 <= recid < 4) by (unfold recid; change 3 with (Z.ones 2); rewrite Z.land_ones by lia; apply Z.mod_pos_bound; lia).
  unfold RecoverCompact. rewrite zlen_cons. replace (zlen (r ++ s) + 1 =? 65) with true by (unfold zlen; rewrite length_app, Lr, Ls; reflexivity).
  cbn [negb nth]. change (drop 1 (h :: r ++ s)) with (r ++ s). fold recid comp.
  destruct (recoverable_parse_exact (replicate 65 0) r s recid Hr Hs Lr Ls Hi) as (r' & s' & Or & Os & -> & V).
  destruct ((be_value r <? order) && (be_value s <? order)) eqn:B; cbn [negb].
  2: { exists false, key. do 3 (split; [done|]). intros P _ _. split; [by intros [? _]|]. intros (? & ? & _).
       rewrite (proj2 (Z.ltb_lt _ _)), (proj2 (Z.ltb_lt _ _)) in B by lia. done. }
  destruct (V eq_refl) as [<- <-].
  destruct (ecdsa_recover_exact r' s' recid hash Or Os Hi Hm Lm) as (o & [_ Iff] & ok & pubkey & E & Ho). bind_step E.
  destruct o as [g|].
  - destruct Ho as (-> & P & q & HP & Hg & El & Hq). cbn [negb].
    rewrite (bind_some _ _ _ (ec_serialize_exact pubkey P q comp El Hq)). cbn beta iota.
    pose proof (point_not_inf P g Hg) as NP. rewrite key_bytes_valid by done.
    exists true, (key_bytes comp P). do 2 (split; [done|]). split; [by exists P|]. intros Q HQ NQ. rewrite <- Iff by done. split.
    + intros [_ K]. exists g. split; [done|]. by rewrite (key_bytes_inj comp Q P).
    + intros (g' & Eg & Hg'). apply (inj Some) in Eg as <-. by rewrite (point_ok_unique P Q g).
  - subst ok. exists false, key. do 3 (split; [done|]). intros Q HQ NQ. rewrite <- Iff by done.
    split; [by intros [? _]|by intros (g & ? & _)].
Qed.
End Recover.
