(* ===== verification/KeyBytes.v ===== *)
(** The methods of [CPubKey] on stored keys (Ecdsa.v): validity, the long form
    of a key, and the sum of a key and a tweak times the generator. *)
From Stdlib Require Import Zpow_facts Zmod Field.
From S2P Require Import Prelude Keys Limbs Scalar ScalarProps ScalarMul ScalarBits ScalarSpec SigParse.
From S2P Require Import Field FieldMul FieldOps FieldProps FieldNorm FieldInv FieldBytes Curve Secp Generator Group GroupProps Points.
From S2P Require Import Ecmult EcmultTables EcmultProps Ecdsa EcdsaProps PubkeyProps VerifyProps RecoverProps.
Import CPubKey.

Local Open Scope Z_scope.

Section Keys.
Context (old : secp256k1_gej) (old_fe : secp256k1_fe).

(** Reading a stored key: refused, or the stored form of the one point that
    the bytes encode. *)
Lemma ec_pubkey_parse_exact pub :
  bytes_ok pub ->
  exists ok pubkey, secp256k1_ec_pubkey_parse old_fe pub = Some (ok, pubkey) /\
    (ok = true <-> exists P, secp_curve P /\ P <> Inf /\ key_encodes pub P) /\
    (ok = true -> exists P h, secp_curve P /\ P <> Inf /\ key_encodes pub P /\
       secp256k1_pubkey_load pubkey = Some (h, true) /\ point_ok P h).
Proof.
  intros Hp. destruct (parse_exact old_fe pub Hp) as (q & E & [Sound Complete]).
  unfold secp256k1_ec_pubkey_parse. bind_step E. destruct q as [g|].
  - destruct (Sound g eq_refl) as (P & HP & N & Hg & Enc).
    destruct (pubkey_save_exact P g Hg HP) as (pubkey & h & E & _ & El & Hh). bind_step E.
    exists true, pubkey. split; [done|]. split; [split; [by exists P|done]|]. intros _. by exists P, h.
  - exists false, zero_pubkey. split; [done|]. split; [|done]. split; [done|]. intros (P & HP & N & K).
    by destruct (Complete P HP N K) as (g & ? & _).
Qed.

(** A key is fully valid when its bytes encode a point. *)
Lemma IsFullyValid_exact key :
  bytes_ok key ->
  exists b, IsFullyValid_BIP66 old_fe key = Some b /\
    (b = true <-> exists P, secp_curve P /\ P <> Inf /\ key_encodes (data key) P).
Proof.
  intros Hk. unfold IsFullyValid_BIP66. destruct (IsValid key) eqn:Iv; cbn [negb].
  - destruct (ec_pubkey_parse_exact (data key) ltac:(by apply Forall_take)) as (ok & pubkey & E & Iff & _). bind_step E.
    by exists ok.
  - exists false. split; [done|]. split; [done|]. intros (P & _ & N & K). rewrite data_invalid in K by done.
    by apply key_encodes_nil in K.
Qed.

(** The long form of a key: the same point. *)
Lemma Decompress_exact key :
  bytes_ok key ->
  exists ok key', Decompress old_fe key = Some (ok, key') /\
    (ok = false -> key' = key) /\
    (ok = true <-> exists P, secp_curve P /\ P <> Inf /\ key_encodes (data key) P) /\
    (ok = true -> exists P, secp_curve P /\ P <> Inf /\ key_encodes (data key) P /\ key' = key_bytes false P).
Proof.
  intros Hk. unfold Decompress. destruct (IsValid key) eqn:Iv; cbn [negb].
  - destruct (ec_pubkey_parse_exact (data key) ltac:(by apply Forall_take)) as (ok & pubkey & E & Iff & Ok). bind_step E.
    destruct ok; cbn [negb].
    + destruct (Ok eq_refl) as (P & h & HP & N & Enc & El & Hh).
      rewrite (bind_some _ _ _ (ec_serialize_exact pubkey P h false El Hh)). cbn beta iota. rewrite key_bytes_valid by done.
      exists true, (key_bytes false P). do 3 (split; [done|]). by exists P.
    + by exists false, key.
  - exists false, key. do 2 (split; [done|]). split; [|done]. split; [done|]. intros (P & _ & N & K).
    rewrite data_invalid in K by done. by apply key_encodes_nil in K.
Qed.

(** P + t G. *)
Lemma eckey_tweak_exact P h t :
  secp_curve P -> point_ok P h -> scalar_ok t ->
  exists o, secp256k1_eckey_pubkey_tweak_add old h t = Some o /\
    match o with None => gadd P (gmul (num 32 t)) = Inf | Some g => point_ok (gadd P (gmul (num 32 t))) g end.
Proof.
  intros HP Hh Ot. unfold secp256k1_eckey_pubkey_tweak_add.
  destruct (point_key P h Hh HP) as (d & -> & Kd). destruct (set_ge_key d h Kd) as (a & E & Ha). bind_step E. cbn zeta.
  assert (O1 : scalar_ok (secp256k1_scalar_set_int 1)).
  { split; [|vm_compute; reflexivity]. split; [done|]. repeat constructor; vm_compute; discriminate. }
  destruct (ecmult_exact old a _ t d Ha O1 Ot) as (r & E & Or & Pr). bind_step E.
  replace (num 32 (secp256k1_scalar_set_int 1) * d + num 32 t) with (d + num 32 t) in Pr
    by (change (num 32 (secp256k1_scalar_set_int 1)) with 1; ring).
  rewrite gmul_add, <- Pr. unfold secp256k1_gej_is_infinity. destruct (gej_infinity r) eqn:Ir.
  { exists None. split; [done|]. unfold gej_pt. by rewrite Ir. }
  destruct (set_gej_exact r Or Ir) as (g & r' & E & Ig & Pg & Gx & Gy). bind_step E. cbn beta iota.
  exists (Some g). split; [done|]. split; [done|]. split; [exact (fe_ok_mono 1 8 _ Gx ltac:(lia))|].
  split; [exact (fe_ok_mono 1 8 _ Gy ltac:(lia))|done].
Qed.

(** Adding a tweak t to a stored key: refused when t is not below n or the sum
    is infinity. *)
Lemma tweak_add_exact pubkey P h tweak :
  secp_curve P -> secp256k1_pubkey_load pubkey = Some (h, true) -> point_ok P h -> bytes_ok tweak -> length tweak = 32%nat ->
  exists ok pubkey', secp256k1_ec_pubkey_tweak_add old pubkey tweak = Some (ok, pubkey') /\
    let Q := gadd P (gmul (be_value tweak)) in
    (ok = true <-> be_value tweak < order /\ Q <> Inf) /\
    (ok = true -> exists h', secp256k1_pubkey_load pubkey' = Some (h', true) /\ point_ok Q h').
Proof.
  intros HP El Hh Ht Lt. cbn zeta. unfold secp256k1_ec_pubkey_tweak_add.
  pose proof (scalar_set_be32_spec tweak Ht Lt) as Et. destruct (secp256k1_scalar_set_be32 tweak) as [t over].
  destruct Et as (Ot & Vt & ->). pose proof (be_value_bound tweak Ht) as Bt. pose proof order_val as O.
  destruct (Z.leb_spec order (be_value tweak)) as [L|L].
  { exists false, zero_pubkey. split; [done|]. split; [split; [done|lia]|done]. }
  rewrite Z.mod_small in Vt by lia. bind_step El. cbn [negb].
  destruct (eckey_tweak_exact P h t HP Hh Ot) as (o & E & Ho). rewrite Vt in Ho.
  pose proof (gadd_on_curve _ _ HP (gmul_on_curve (be_value tweak))) as HQ. set (Q := gadd P _) in *. clearbody Q.
  rewrite E. cbn [mbind option_bind]. destruct o as [g|].
  - clear E. destruct (pubkey_save_exact Q g Ho HQ) as (pubkey' & h' & E & _ & El' & Hh'). rewrite E. cbn [mbind option_bind].
    exists true, pubkey'. split; [reflexivity|]. split; [|intros _; exists h'; exact (conj El' Hh')].
    split; [intros _; exact (conj L (point_not_inf Q g Ho))|intros _; reflexivity].
  - exists false, zero_pubkey. split; [reflexivity|]. split; [|intros D; discriminate D].
    split; [intros D; discriminate D|]. intros [_ N]. exact (False_ind _ (N Ho)).
Qed.
End Keys.
