(* ===== verification/CurveSpec.v ===== *)
(** What the curve arithmetic and the keys of key/pubkey.cpp promise: the
    operations on points are those of a group whose every element is a multiple
    of the generator, and on top of it keys are read, signatures are verified
    and keys are recovered exactly as ECDSA says. *)
From Stdlib Require Import Zpow_facts Zmod Field.
From S2P Require Import Prelude Keys Limbs Scalar ScalarProps ScalarMul ScalarBits ScalarSpec SigParse.
From S2P Require Import Field FieldMul FieldOps FieldProps FieldNorm FieldInv FieldBytes Curve Secp Generator Group GroupProps Points.
From S2P Require Import Ecmult EcmultTables EcmultProps Ecdsa EcdsaProps PubkeyProps VerifyProps RecoverProps KeyBytes.
Import CPubKey.

Local Open Scope Z_scope.

(** C17 (refinement): doubling and mixed addition in Jacobian coordinates fail no assert, whatever the operands
    are (equal, opposite, infinite, of magnitude up to 8), and compute the group law on the points they denote:
    an associative, commutative law on the curve, with inverses, where every point is a multiple of the
    generator and so the group has the order n. *)
Theorem group_operations r a b :
  gej_ok a -> secp_curve (gej_pt 1%fp a) -> ge_ok b -> secp_curve (ge_pt 1%fp b) ->
  (exists g, secp256k1_gej_double_var r a false = Some (g, None) /\ gej_ok g /\
     gej_pt 1%fp g = gadd (gej_pt 1%fp a) (gej_pt 1%fp a)) /\
  (exists g, secp256k1_gej_add_ge_var r a b false = Some (g, None) /\ gej_ok g /\
     gej_pt 1%fp g = gadd (gej_pt 1%fp a) (ge_pt 1%fp b)) /\
  (forall P Q R, secp_curve P -> secp_curve Q -> secp_curve R ->
     secp_curve (gadd P Q) /\ gadd (gadd P Q) R = gadd P (gadd Q R) /\ gadd P Q = gadd Q P /\
     gadd P (gopp P) = Inf /\ (exists d, P = gmul d)) /\
  (forall k, gmul k = Inf <-> k mod order = 0).
Proof.
  intros Ha Ca Hb Cb. split; [|split; [|split; [|exact gmul_inf]]].
  - destruct (double_exact 1%fp r a false fp_1_nz Ha Ca) as (g & zr & E & Og & Pg & _ & ->). by exists g.
  - destruct (add_ge_exact 1%fp a b fp_1_nz Ha Hb Ca r false (fun _ => eq_refl)) as (g & zr & E & Og & Pg & ->). by exists g.
  - intros P Q R HP HQ HR. split; [by apply gadd_on_curve|]. split; [by apply gadd_assoc|]. split; [apply gadd_comm|].
    split; [by apply gadd_opp|by apply all_multiples].
Qed.

(** The generator as a Jacobian element. *)
Definition ex_fe : secp256k1_fe := Fe [1; 0; 0; 0; 0; 0; 0; 0; 0; 0] 1 true.
Definition ex_gej : secp256k1_gej := Gej (ge_x secp256k1_get_ge_const_g) (ge_y secp256k1_get_ge_const_g) ex_fe false.

Lemma ex_gej_ok : gej_ok ex_gej /\ gej_pt 1%fp ex_gej = gmul 1.
Proof.
  destruct const_g_ok as (O & _ & <-). split; [|reflexivity]. intros _. destruct (O eq_refl) as [Hx Hy].
  split; [exact Hx|]. split; [exact Hy|]. split; [|exact fp_1_nz].
  split; [reflexivity|]. split; [reflexivity|]. split; [repeat constructor; vm_compute; discriminate|split; vm_compute; discriminate].
Qed.

Lemma group_operations_witness :
  exists g, secp256k1_gej_add_ge_var ex_gej ex_gej secp256k1_get_ge_const_g false = Some (g, None) /\ gej_pt 1%fp g = gmul 2.
Proof.
  destruct ex_gej_ok as [Oe Pe]. destruct const_g_ok as (Og & _ & Pg).
  destruct (group_operations ex_gej ex_gej secp256k1_get_ge_const_g Oe) as (_ & (g & E & _ & P) & _).
  - rewrite Pe. apply gmul_on_curve.
  - exact Og.
  - rewrite Pg. apply gmul_on_curve.
  - exists g. split; [exact E|]. rewrite P, Pe, Pg. apply gmul_add.
Defined.

(** C18 (functional): the double multiplication. For a finite point P of the curve and scalars na and ng,
    secp256k1_ecmult (both halves of na in wNAF over the table of P and its image under the endomorphism, both
    halves of ng over the two tables of the context) fails no assert and denotes na P + ng G. *)
Theorem ecmult_correct old a na ng :
  gej_ok a -> gej_infinity a = false -> secp_curve (gej_pt 1%fp a) -> scalar_ok na -> scalar_ok ng ->
  exists r, secp256k1_ecmult old a na ng = Some r /\ gej_ok r /\
    gej_pt 1%fp r = gadd (gscale (num 32 na) (gej_pt 1%fp a)) (gmul (num 32 ng)).
Proof.
  intros Oa Ia Ca Hna Hng. destruct (all_multiples _ Ca) as [c Pc].
  destruct (ecmult_exact old a na ng c (conj Ia (conj Oa Pc)) Hna Hng) as (r & E & Or & Pr).
  exists r. split; [exact E|]. split; [exact Or|]. by rewrite Pr, Pc, gmul_mul, gmul_add.
Qed.

Lemma ecmult_correct_witness :
  exists r, secp256k1_ecmult ex_gej ex_gej ex_scalar ex_scalar = Some r /\
    gej_pt 1%fp r = gadd (gscale (num 32 ex_scalar) (gmul 1)) (gmul (num 32 ex_scalar)).
Proof.
  destruct ex_gej_ok as [Oe Pe].
  destruct (ecmult_correct ex_gej ex_gej ex_scalar ex_scalar Oe eq_refl) as (r & E & _ & P).
  - rewrite Pe. apply gmul_on_curve.
  - exact ex_scalar_ok.
  - exact ex_scalar_ok.
  - exists r. split; [exact E|]. rewrite <- Pe. exact P.
Defined.

(** ** Keys and signatures *)

(** C19 (roundtrip): public keys as bytes. Whatever the bytes, the parser answers and fails no assert; it answers
    a point exactly when the bytes are the compressed, uncompressed or hybrid encoding of a point of the curve,
    and then that point, which the 64-byte internal form keeps. What the serializer writes for a point is its
    encoding of the chosen form, which no other point has and which CPubKey accepts as it is. *)
Theorem public_key_bytes old_fe pub :
  bytes_ok pub ->
  (exists ok pubkey, secp256k1_ec_pubkey_parse old_fe pub = Some (ok, pubkey) /\
    (ok = true <-> exists P, secp_curve P /\ P <> Inf /\ key_encodes pub P) /\
    (ok = true -> exists P h, secp_curve P /\ P <> Inf /\ key_encodes pub P /\
       secp256k1_pubkey_load pubkey = Some (h, true) /\ point_ok P h)) /\
  (forall pubkey P h (comp : bool), secp256k1_pubkey_load pubkey = Some (h, true) -> point_ok P h ->
     secp256k1_ec_pubkey_serialize pubkey (if comp then SECP256K1_EC_COMPRESSED else SECP256K1_EC_UNCOMPRESSED) =
       Some (Some (key_bytes comp P)) /\
     Set_ (key_bytes comp P) = key_bytes comp P /\ key_encodes (key_bytes comp P) P) /\
  (forall P Q, secp_curve P -> secp_curve Q -> P <> Inf -> Q <> Inf -> key_encodes pub P -> key_encodes pub Q -> P = Q).
Proof.
  intros Hp. split; [by apply ec_pubkey_parse_exact|]. split.
  - intros pubkey P h comp El Hh. split; [by apply (ec_serialize_exact pubkey P h)|].
    split; [by apply key_bytes_valid, (point_not_inf P h)|apply key_bytes_encodes].
  - intros P Q HP HQ NP NQ. by apply (key_encodes_unique old_fe).
Qed.

(** The generator as a key. *)
Definition ex_key : bytes := key_bytes true (gmul 1).

Lemma public_key_bytes_witness :
  exists pubkey, secp256k1_ec_pubkey_parse ex_fe ex_key = Some (true, pubkey).
Proof.
  destruct (public_key_bytes ex_fe ex_key) as ((ok & pubkey & E & Iff & _) & _).
  - apply key_bytes_ok.
  - assert (ok = true) as ->.
    + apply Iff. exists (gmul 1). split; [apply gmul_on_curve|]. split; [discriminate|apply key_bytes_encodes].
    + exists pubkey. exact E.
Defined.

(** C15 (equivalence): verification is ECDSA, on all inputs. For any bytes as key and signature and any 32-byte
    hash, CPubKey::Verify_BIP66 fails no assert, and answers true exactly when the key bytes encode a point P of
    the curve, the lax DER parser reads two integers R and S, and (R, S) is an ECDSA signature of the hash
    under P: both in [1, n-1], and the first coordinate of w z G + w R P is R modulo n, w inverting S. A high S
    is accepted like its low counterpart. *)
Theorem Verify_BIP66_decides_ecdsa old old_fe key hash vchSig :
  bytes_ok key -> bytes_ok hash -> length hash = 32%nat -> bytes_ok vchSig ->
  exists b, Verify_BIP66 old old_fe key hash vchSig = Some b /\
    (b = true <->
     exists P R S, secp_curve P /\ P <> Inf /\ key_encodes (data key) P /\
       ecdsa_signature_parse_der_lax vchSig = Some (true, signature_of R S) /\
       ecdsa_valid P (be_value hash mod order) R S).
Proof. exact (Verify_BIP66_exact old old_fe key hash vchSig). Qed.

(** A signature with nonce 1 under the key 1, for the hash that makes s one. *)
Definition ex_hash : bytes := be_bytes 32 ((1 - Gx) mod order).
Definition ex_sig : bytes := SigEncoding.der_encode (be_bytes 32 Gx) [1] [].

Lemma ex_signature :
  bytes_ok ex_hash /\ length ex_hash = 32%nat /\ bytes_ok ex_sig /\
  ecdsa_signature_parse_der_lax ex_sig = Some (true, signature_of Gx 1).
Proof.
  destruct (be_bytes_ok 32 Gx) as [Bx Lx]. destruct (be_bytes_ok 32 ((1 - Gx) mod order)) as [Bh Lh].
  assert (Bs : bytes_ok ex_sig).
  { unfold ex_sig. repeat (apply Forall_app; split); try exact Bx; repeat constructor; vm_compute; discriminate. }
  do 3 (split; [assumption|]). unfold ex_sig. rewrite der_lax_encode; [|exact Bs|unfold zlen; rewrite Lx; reflexivity].
  rewrite be_value_be_bytes; [reflexivity|]. split; [vm_compute; discriminate|vm_compute; reflexivity].
Qed.

Lemma ex_valid : ecdsa_valid (gmul 1) (be_value ex_hash mod order) Gx 1.
Proof.
  pose proof order_val as O. split; [split; vm_compute; reflexivity|]. split; [split; vm_compute; reflexivity|].
  exists 1, (F Gx), (F Gy). split; [rewrite O; reflexivity|]. split; [|vm_compute; reflexivity].
  rewrite gmul_mul, gmul_add. change (Aff (F Gx) (F Gy)) with (gmul 1). apply gmul_congr. unfold ex_hash.
  rewrite be_value_be_bytes by (pose proof (Z.mod_pos_bound (1 - Gx) order ltac:(lia)); change (256 ^ Z.of_nat 32) with (2 ^ 256); lia).
  rewrite O. vm_compute. reflexivity.
Qed.

Lemma ex_data : data ex_key = ex_key.
Proof. vm_compute. reflexivity. Qed.

Lemma Verify_BIP66_decides_ecdsa_witness :
  Verify_BIP66 ex_gej ex_fe ex_key ex_hash ex_sig = Some true.
Proof.
  destruct ex_signature as (Bh & Lh & Bs & Es).
  destruct (Verify_BIP66_decides_ecdsa ex_gej ex_fe ex_key ex_hash ex_sig (key_bytes_ok true (gmul 1)) Bh Lh Bs) as (b & E & Iff).
  assert (b = true) as ->; [|exact E]. apply Iff. exists (gmul 1), Gx, 1.
  split; [apply gmul_on_curve|]. split; [discriminate|]. split; [rewrite ex_data; apply key_bytes_encodes|].
  split; [exact Es|exact ex_valid].
Defined.

(** C16 (functional): key recovery finds the signer and no one else. For the 65 bytes of a compact signature and
    any 32-byte hash, CPubKey::RecoverCompact fails no assert and either leaves the key and answers false or
    sets it to the bytes of the one point Q under which (r, s) signs the hash with the nonce point that the
    recovery id names. Such a Q passes verification, and every valid signature has a recovery id. *)
Theorem RecoverCompact_finds_signer old old_fe key hash h r s :
  bytes_ok r -> bytes_ok s -> length r = 32%nat -> length s = 32%nat -> bytes_ok hash -> length hash = 32%nat ->
  let recid := Z.land (h - 27) 3 in
  let comp := negb (Z.land (h - 27) 4 =? 0) in
  let z := be_value hash mod order in
  (exists ok key', RecoverCompact old old_fe key hash (h :: r ++ s) = Some (ok, key') /\
     (ok = false -> key' = key) /\
     (ok = true -> exists Q, secp_curve Q /\ Q <> Inf /\ key' = key_bytes comp Q) /\
     (forall Q, secp_curve Q -> Q <> Inf ->
        (ok = true /\ key' = key_bytes comp Q) <-> recovered Q z (be_value r) (be_value s) recid)) /\
  (forall Q r s i, recovered Q z r s i -> ecdsa_valid Q z r s) /\
  (forall Q r s, ecdsa_valid Q z r s -> exists i, 0 <= i < 4 /\ recovered Q z r s i).
Proof.
  intros Hr Hs Lr Ls Hm Lm. split; [by apply RecoverCompact_exact|]. split; intros Q r' s'.
  - intros i. apply recovered_valid.
  - apply valid_recovered.
Qed.

Lemma RecoverCompact_finds_signer_witness :
  RecoverCompact ex_gej ex_fe [] ex_hash (31 :: be_bytes 32 Gx ++ be_bytes 32 1) = Some (true, ex_key).
Proof.
  destruct ex_signature as (Bh & Lh & _ & _).
  destruct (be_bytes_ok 32 Gx) as [Bx Lx]. destruct (be_bytes_ok 32 1) as [B1 L1].
  destruct (RecoverCompact_finds_signer ex_gej ex_fe [] ex_hash 31 (be_bytes 32 Gx) (be_bytes 32 1) Bx B1 Lx L1 Bh Lh)
    as ((ok & key' & E & _ & _ & Iff) & _).
  assert (X : ok = true /\ key' = key_bytes true (gmul 1)).
  - apply (Iff (gmul 1) (gmul_on_curve 1)); [discriminate|]. destruct ex_valid as (Hr & Hs & _).
    rewrite !be_value_be_bytes by (split; [vm_compute; discriminate|vm_compute; reflexivity]).
    split; [exact Hr|]. split; [exact Hs|]. exists 1, (F Gx), (F Gy).
    split; [rewrite order_val; reflexivity|]. split; [|split; vm_compute; reflexivity].
    rewrite gmul_mul, gmul_add. change (Aff (F Gx) (F Gy)) with (gmul 1). apply gmul_congr. unfold ex_hash.
    rewrite be_value_be_bytes; [rewrite order_val; vm_compute; reflexivity|].
    pose proof order_val as O. pose proof (Z.mod_pos_bound (1 - Gx) order ltac:(lia)). change (256 ^ Z.of_nat 32) with (2 ^ 256). lia.
  - destruct X as [-> ->]. exact E.
Defined.
